(* ===== verification/_CoqProject ===== *)
-Q . S2P
Prelude.v
RustStd.v
Ordering.v
Json.v
External.v
Canonical.v
Operation.v
Model.v
SerdeJson.v
Protocol.v
Frame.v
CatalogData.v
Catalog.v
SqlScript.v
Schema.v
Repository.v
Ledger.v
Calls.v
Trace.v
Planning.v
Runtime.v
Samples.v
OperationTheorems.v
RuntimeTheorems.v
Session.v
Cancel.v
OperationService.v
AuditLog.v
Safety.v
ReadOnly.v
Mongo.v
Commands.v
Programs.v
Effects.v
World.v
Connections.v
Executor.v
QueryService.v
ServiceLogic.v
QueryTheorems.v
QuerySafety.v
MonitoringService.v
MonitoringSafety.v
AgentRuns.v
AgentSafety.v
ScriptService.v
ScriptTheorems.v
ScriptSafety.v
DocumentService.v
DocumentTheorems.v
DocumentSafety.v
Dispatch.v
DispatchTheorems.v
ConnectionCache.v
CacheMachine.v
CacheTheorems.v
CacheInvariant.v
CacheSafety.v
StoreData.v
StoreScope.v
StoreConnections.v
Dashboards.v
StoreArtifacts.v
StoreMethods.v
StoreScopeTheorems.v
StorePins.v
StoreSample.v
Introspection.v
StoreSafety.v
StoreSync.v
StoreMigration.v
HostCalls.v
ConnectionService.v
DashboardService.v
DashboardSafety.v
AgentTools.v
WorkspaceService.v
CredentialCustody.v
CredentialMethods.v
CredentialSystem.v
