(* ===== verification/Prelude.v ===== *)
(** * Verification of DopeDB

    DopeDB is a desktop database client.  A Rust core (src-tauri/src/) owns the
    local SQLite store, the safety pipeline and the connections to target
    databases; a local broker lets a command line client (dopedb-cli/src/) and
    terminal agents reach the same services over a length-prefixed JSON protocol
    (dopedb-protocol/src/).  This development models the parts that decide what
    may run against a target database, what is recorded about it, and what
    crosses the protocol, and proves what they promise.

    ** How the parts interact

    A request of a terminal reaches the broker as a frame (Frame.v), becomes an
    envelope (Protocol.v) with the typed arguments of one command (Commands.v)
    and is dispatched (Dispatch.v) under the capability session it presents
    (Session.v).  Services turn it into an operation of the ledger: planned,
    approved by a local user where policy asks for it, claimed once, executed
    and settled (OperationService.v over Runtime.v over Repository.v).  The query,
    script, document and monitoring services (QueryService.v, AgentRuns.v,
    ScriptService.v, DocumentService.v, MonitoringService.v) drive these steps
    around a target database, authorising the connection first (Connections.v) and
    executing through Executor.v.  The pools come from a cache many tasks share
    (ConnectionCache.v), which changes of workspace and account invalidate.  SQL text
    is split (SqlScript.v), classified and gated (Safety.v), and reads run in a
    read-only session (ReadOnly.v); document requests have their own gate
    (Mongo.v); a running query can be cancelled (Cancel.v); what ran is appended
    to the audit log (AuditLog.v).  What a service keeps across an operation is a
    pin of the local store (Store*.v): a connection with the revisions of its row
    and binding and the generation of the active scope; results are written under
    the pin, and only while it is current.  Schema metadata travels as a fingerprinted
    snapshot (Catalog.v).

    ** Files

    Foundations.
    - Prelude.v: [result] (Rust's [Result]) with its monadic notation, stateful
      [let?], the tactics and generic list lemmas of the development.
    - RustStd.v: strings as UTF-8 bytes, [trim], splitting, decimal printing.
    - Ordering.v: comparators with their contract [TotalCmp], and the stable
      [sort_by] as insertion sort.
    - Json.v: [serde_json::Value], well-formedness and order-insensitive equality.
    - External.v: the classes [Platform], [PlatformLaws] for the crates the
      program calls (uuid, chrono, serde_json, sha2) and a reference instance.
    - SerdeJson.v: what serde's derived conversions do.

    Operations.
    - Operation.v: dopedb-protocol/src/operation.rs, operations/state_machine.rs,
      operations/model.rs; [StateMachine.ensure_transition].
    - Canonical.v: operations/canonicalize.rs.
    - Schema.v: the tables, CHECK constraints and triggers of
      store/migrations.rs; [LocalDb] is the three tables as lists of rows in
      insertion order.
    - Repository.v: operations/repository.rs; one definition per method, a
      function from [LocalDb] to a result and a new [LocalDb].  A method holds
      the write lock and one transaction, so it is one atomic step.
    - Ledger.v, Calls.v, Trace.v, Planning.v: the invariant [Inv] of the ledger,
      proved by rule induction over [micro] steps, and what each call can and
      cannot do.
    - OperationTheorems.v: exact approval before a mutation, refinement of the
      lifecycle, mutual exclusion of claims, hash-chain integrity, append-only
      history, restart recovery, idempotent planning, refusal without effect.
    - Runtime.v, RuntimeTheorems.v: operations/{runtime,execute}.rs, the facade,
      with other tasks' calls interleaved between its transactions.
    - OperationService.v: services/{operation_service,terminal_authority}.rs.
    - Samples.v: concrete operations on which witnesses are evaluated.

    Safety.
    - Model.v: model.rs and the spellings of store/mod.rs.
    - SqlScript.v: sql_script/mod.rs, against a grammar of the script's lexemes
      ([lexeme]: strings, comments, dollar-quoted blocks, single characters) and of
      its [top_level] segments that does not mention the scanner.
    - Safety.v: safety/{l1_parse,l4_gate}.rs, against the changes a statement makes
      wherever they are written ([changes]).  What auto-runs is exact: besides pure
      reads, only statements whose changes are all [overlooked] by the classifier (a
      DELETE or MERGE of a WITH clause, SELECT INTO or a lock below the outermost
      query, DML in derived tables), which the read-only session then refuses.
    - ReadOnly.v: safety/l2_enforce.rs, the read pool of connection/pool.rs and
      [stream_capped] of executor/read.rs.  A run is a [session] of awaits, which the
      cancellation guard may drop at any of them; on SQLite only the read-only handle
      of the pool is relied on, not PRAGMA query_only.
    - Mongo.v: mongo/query.rs.  Cancel.v: executor/cancel.rs.
    - AuditLog.v: audit/{mod,chain}.rs.

    Services as programs (the calls a method awaits are the nodes of a tree).
    - Programs.v: [prog], its notations for Rust's [?], the logic [wp] of the
      histories of calls, [reaches] for a run in a world other tasks change.
    - Effects.v: [Call.t], the calls of the services; the cancellation guard.
    - World.v: [others] and [respond]: the ledger's calls run Runtime.v, audit
      calls AuditLog.v, all other answers are unconstrained; [world_ok], the
      invariant of every run.
    - Connections.v: connection/{mod,runtime}.rs.  Executor.v:
      executor/{mod,read,write}.rs and safety/l3_preview.rs.
    - QueryService.v, AgentRuns.v: services/query_service.rs.  ScriptService.v:
      services/script_service.rs.
    - ServiceLogic.v: proof rules and tactics for these programs.
    - QueryTheorems.v, QuerySafety.v: a desktop statement reaches a transaction
      only as the approved, current and audited operation says, under the pin and the
      settings this run read and in a transaction of the pool that pin opened
      ([write_authority], [own_transaction]); a claimed
      operation is always settled, with an honest verdict, and mutations are
      proposed behind an approval.  AgentSafety.v: agents only read what they planned.  ScriptTheorems.v,
      ScriptSafety.v: scripts run in order and commit all or nothing.
    - DocumentService.v: services/document_service.rs.  DocumentTheorems.v,
      DocumentSafety.v: an agent's read runs exactly the request it planned, a
      desktop read opens an authorised connection first and always settles.  The
      exactness theorems speak of requests whose numbers are integers ([query_exact]):
      serde_json without its float_roundtrip feature may read back a fraction as its
      neighbour; and of texts that do not collide under SHA-256.
    - MonitoringService.v: services/monitoring_service.rs, monitoring/mod.rs.
      MonitoringSafety.v: the role changes only by the fixed statement that was
      approved, a claimed change always settles, and the health level is the
      worst of the pressures found.

    The connection manager (connection/runtime.rs) as concurrent tasks.
    - ConnectionCache.v: [ConnectionManager], [ConnectionContext] and
      [ConnectionOperationScope] as programs over the gate, the map of slots, the
      slots' mutexes, the clock and the pools.  Connections.v is the sequential
      view of the same methods that the services use.
    - CacheMachine.v: the tasks interleave at every call; [cache_step].  A task's
      guards and [Arc]s are a function of its history ([held]); returning,
      failing and being cancelled drop them.
    - CacheTheorems.v: the discipline [cache_allowed] each method keeps.
      CacheInvariant.v: the invariant of the reachable states.
    - CacheSafety.v: leases are isolated by authority, pools are opened once, a
      change of scope is published before a pool can be used again, a leased
      pool stays open, and the connection loop ends.  The gate is tokio's fair RwLock
      for the liveness theorem ([fair_step]: who waits queues, and nobody is given
      the gate before those ahead): the waits of the manager's
      tasks never go round in a circle, and at most three of them lead from any task
      to one that can move.  A caller that takes the read side twice (load_terminal_snapshot of
      services/catalog_service.rs) is not one of these tasks and can deadlock.

    The local store (store/mod.rs, the tables of store/migrations.rs).
    - StoreData.v: the tables as finite maps, rows as SQLite holds them, codecs.
      StoreScope.v: workspaces, accounts and the active scope.
      StoreConnections.v: profiles, templates, bindings, pins, the outbox.
      Dashboards.v: dashboard.rs.  StoreArtifacts.v: catalog cache, history,
      dashboards, chats.  One function per statement or transaction.
    - StoreMethods.v: [run], what each call of the store does, [store_reachable],
      any sequence of calls, restarts included, from a fresh store; the methods
      of several statements as programs of calls.
    - StoreScopeTheorems.v, StorePins.v: the invariant of the scope
      tables, the moves a connection row can make, what a pin is made of.
    - StoreSample.v: a small store for the witnesses.
    - StoreSafety.v: the active scope is always one the account may use, its
      generation identifies it, a current pin is exact, nothing is written under
      a stale one.  StoreSync.v: the outbox announces the present revision of
      every local resource.  StoreMigration.v: a membership refresh moves legacy
      credentials to their account, a list of templates is taken over exactly
      and withdrawal returns the secrets it drops, a saved profile comes back.

    Connections, workspaces and credentials.
    - HostCalls.v: driver/mod.rs and connection/providers.rs; [HostCall.t], the
      calls of these services; the store's methods and the manager's programs run
      among them ([in_store], [hosted]).
    - ConnectionService.v: services/connection_service.rs; the driver of a profile
      fits it, an exact name selects one connection or none, a schema group keeps
      one engine.  WorkspaceService.v: services/{workspace_service,safety_service}.rs.
    - CredentialCustody.v: who may touch a stored credential.  A task sees the
      store, the vault, whether it holds the gate and the items in its custody
      ([View]); [respond] is the effect of a call, failures included, [rely] what
      other tasks may do between two calls, [guarantee] what a call of this task
      may do, [safely] the logic of programs over them.  CredentialMethods.v:
      the methods keep their guarantee.
    - CredentialSystem.v: any number of them at once, with sign-ins and sign-outs,
      selections and the membership refresh, which moves pointers from templates to
      bindings; no pointer to a credential ever dangles or is shared.
    - DashboardService.v: services/{dashboard_service,agent_service}.rs.
      DashboardSafety.v: over the local store, with other tasks' statements
      between its calls, a dashboard of an agent has the SQL of a read the agent
      ran ([ends] is the logic of such runs).
    - Introspection.v: introspect/{mod,catalog_v2}.rs; the schema cache loses nothing
      the explorer shows, and the fingerprint does not depend on a driver's order.
    - AgentTools.v: services/{catalog,activity}_service.rs and mcp/tools.rs; an
      agent's tools only look, and what they run was shown first ([makes] is the
      set of calls a program can make).

    Protocol and broker.
    - Protocol.v: lib.rs (limits), version.rs, error.rs, request.rs, response.rs, command.rs.
    - Frame.v: frame.rs.  CatalogData.v, Catalog.v: catalog.rs.
    - Commands.v: connection.rs, query_command.rs, operation_command.rs,
      catalog_command.rs.
    - Session.v: src-tauri/src/broker/session.rs.
    - Dispatch.v, DispatchTheorems.v: broker/dispatch.rs, over the record
      [BrokerServices] of the services it calls.

    ** Conventions

    A Rust [String] is a [string] of UTF-8 bytes; a machine integer is a [Z] or
    [N] with its range and overflow written out where the code depends on it.
    Asynchronous methods of one component are functions on the state they hold
    the lock of, or two functions where they take it twice ([authenticate],
    whose two accesses [Session.run_op] runs as one step);
    methods of the services are [prog]rams, between whose calls other tasks act.
    Fresh identifiers and clock readings are arguments.  Third-party code is a class of parameters
    whose documented behaviour is a class of laws; every such theorem has a
    witness at an instance.  SHA-256 is not assumed injective: integrity
    theorems end in "or these two hashed texts collide", naming them
    ([texts_collide], [values_collide], [entries_collide], [events_collide]).

    ** Bounds and fuel

    Loops over lists are structural.  [SqlScript] bounds its two outer loops by
    the length of the script, and [next_semicolon_fuel] shows more never
    changes the result.  [OperationService.wait_loop] takes one unit of fuel per
    poll; [wait_terminal_settles] shows it returns after at most the polls the
    deadline allows.  [Frame.validate_pending] counts down the source's own
    budget of [MAX_JSON_VALUES].  [ConnectionCache.connect_loop] takes one unit of
    fuel per turn; [connect_rounds] shows each turn that goes round again met an
    expired pool, and the theorems on reachable states hold for every fuel.  Walks over JSON and SQL trees recurse on the
    tree.

    ** Not modelled

    Sockets, files, the keychain, child processes and the user interface: they
    are input and output.  The SQL parser, the database drivers and the JSON
    text parser are third-party code and enter as parameters.  To the services
    the cache of pools and the local store are behind calls of Effects.v whose
    answers are unconstrained, so the service theorems hold for any of them and
    are not composed with the theorems about the store.  [Store::open] upgrades
    older databases with statements that depend on their schema; only the repair
    of the scope it ends with is modelled.  The revisions and the scope
    generation of the store are unbounded integers, except where the code checks
    them: SQLite would turn a revision past 2^63 into a float.  The tables
    snippets and sync_state are read by no modelled method.  What the plan of an agent's read stores as its preview may
    hold floating-point health figures, which [new_operation_ok] excludes:
    [agent_plan_bounded] therefore speaks of the call, not of the stored row.
    The credential system runs every method that takes the gate's write side, and
    any statement that writes neither profiles nor bindings in between; it takes the
    control plane to give no template the identifier of a deleted local profile
    ([server_identifiers]).  A copy of a connection into a team is modelled
    ([copy_connection]) but not one of its tasks: it binds the new credential, and on
    a failure purges the new template ([purge_remote_connection_cache]), without the
    gate.  [PlatformLaws.json_roundtrip] leaves out serde_json's limit of 128 nested
    levels, and [StoreMethods.GetCatalog] the database error of its query, which its
    callers only pass on.  HostCalls.v stops at the adapter of a driver, and
    the vault stands for the keychain.  [MonitoringService.snapshot] takes the answers of
    its two probes as arguments; to the query service it is one call.
    What a live database answers to introspection is a call ([ToolCall.Introspect]):
    the SQL of introspect/{pg,mysql,sqlite}.rs reads system catalogs.  The transports
    (Tauri commands, the MCP server's framing, the broker's socket, the agents'
    processes, the sign-in over HTTP) carry requests to the services modelled here;
    they are left out. *)

From Stdlib Require Export NArith ZArith Lia Ascii String.
From stdpp Require Export base tactics strings gmap pretty option sorting.
From Stdlib Require Export List.
From stdpp Require Export list.

#[global] Open Scope string_scope.
#[global] Open Scope list_scope.
#[global] Open Scope Z_scope.

(** ** Results

    [Result<T, E>] of Rust.  [x ← c; k] is the [?] operator. *)

Inductive result (E A : Type) : Type :=
| Ok (a : A)
| Err (e : E).
Arguments Ok {E A} a.
Arguments Err {E A} e.

#[export] Instance result_ret {E} : MRet (result E) := λ A a, Ok a.
#[export] Instance result_bind {E} : MBind (result E) := λ A B f r,
  match r with Ok a => f a | Err e => Err e end.
#[export] Instance result_fmap {E} : FMap (result E) := λ A B f r,
  match r with Ok a => Ok (f a) | Err e => Err e end.

(** [Option::ok_or] *)
Definition ok_or {E A} (e : E) (o : option A) : result E A :=
  match o with Some a => Ok a | None => Err e end.

(** [Result::map_err] *)
Definition map_err {E F A} (f : E → F) (r : result E A) : result F A :=
  match r with Ok a => Ok a | Err e => Err (f e) end.

(** [Result::ok] *)
Definition result_ok {E A} (r : result E A) : option A :=
  match r with Ok a => Some a | Err _ => None end.

Definition is_ok {E A} (r : result E A) : bool :=
  match r with Ok _ => true | Err _ => false end.

(** An early return [if b { return Err(e) }]. *)
Definition reject_if {E} (b : bool) (e : E) : result E unit :=
  if b then Err e else Ok tt.

(** [Option<Result<T>>::transpose] composed with a map. *)
Definition traverse_opt {E A B} (f : A → result E B) (o : option A) : result E (option B) :=
  match o with None => Ok None | Some a => b ← f a; Ok (Some b) end.

Lemma bind_of_Ok {E A B} (a : A) (k : A → result E B) : (x ← Ok a; k x) = k a.
Proof. done. Qed.

Lemma bind_Ok {E A B} (c : result E A) (k : A → result E B) b :
  (x ← c; k x) = Ok b ↔ ∃ a, c = Ok a ∧ k a = Ok b.
Proof. destruct c; cbn; naive_solver. Qed.

(** A check whose value is not used. *)
Lemma check_Ok {E A} (c : result E unit) (k : result E A) a :
  (_ ← c; k) = Ok a ↔ c = Ok tt ∧ k = Ok a.
Proof. destruct c as [[]|]; cbn; naive_solver. Qed.

Lemma ok_or_Ok {E A} (e : E) (o : option A) a : ok_or e o = Ok a ↔ o = Some a.
Proof. destruct o; cbn; naive_solver. Qed.

Lemma map_err_Ok {E F A} (f : E → F) (r : result E A) a :
  map_err f r = Ok a ↔ r = Ok a.
Proof. destruct r; cbn; naive_solver. Qed.

Lemma reject_if_Ok {E} (b : bool) (e : E) u : reject_if b e = Ok u ↔ b = false.
Proof. destruct b, u; cbn; split; congruence. Qed.

Lemma is_ok_unit {E} (r : result E unit) : is_ok r = true ↔ r = Ok tt.
Proof. destruct r as [[]|]; cbn; naive_solver. Qed.

Lemma fmap_Ok {E A B} (f : A → B) (r : result E A) b :
  f <$> r = Ok b ↔ ∃ a, r = Ok a ∧ b = f a.
Proof. destruct r; cbn; naive_solver. Qed.

(** [inv_res]: invert every [_ = Ok _] produced by a chain of [?]. *)
Ltac inv_res :=
  repeat match goal with
  | H : mbind _ _ = Ok _ |- _ =>
      apply bind_Ok in H; let x := fresh "x" in let Hx := fresh "Hx" in
      destruct H as (x & Hx & H)
  | H : ok_or _ _ = Ok _ |- _ => apply ok_or_Ok in H
  | H : map_err _ _ = Ok _ |- _ => apply map_err_Ok in H
  | H : reject_if _ _ = Ok _ |- _ => apply reject_if_Ok in H
  | H : fmap _ _ = Ok _ |- _ =>
      apply fmap_Ok in H; let x := fresh "x" in destruct H as (x & H & ->)
  | H : Ok _ = Ok _ |- _ => injection H as H; subst
  | H : Err _ = Ok _ |- _ => discriminate H
  | H : (if ?b then Err _ else _) = Ok _ |- _ =>
      let Hb := fresh "Hb" in destruct b eqn:Hb; [discriminate H|]
  | H : (match ?p with (_, _) => _ end) = Ok _ |- _ =>
      is_var p; let y := fresh "y" in let z := fresh "z" in destruct p as [y z]
  | x : unit |- _ => destruct x
  end.

(** Boolean conjunctions and disjunctions in hypotheses. *)
Ltac bools :=
  repeat match goal with
  | H : (_ && _) = true |- _ => apply andb_true_iff in H as [? ?]
  | H : (_ || _) = false |- _ => apply orb_false_iff in H as [? ?]
  | H : negb _ = true |- _ => apply negb_true_iff in H
  | H : negb _ = false |- _ => apply negb_false_iff in H
  | H : (_ =? _)%string = true |- _ => apply String.eqb_eq in H
  | H : (_ =? _)%string = false |- _ => apply String.eqb_neq in H
  | H : bool_decide _ = true |- _ => apply bool_decide_eq_true in H
  | H : bool_decide _ = false |- _ => apply bool_decide_eq_false in H
  end.

(** ** The error spine (src-tauri/src/error.rs)

    The driver errors come from third-party crates; of [sqlx::Error] the
    program uses the code and the message of a database error. *)

Inductive SqlxError :=
| Database (code : option string) (message : string)
| PoolTimedOut
| OtherSqlx (message : string).

Inductive AppError :=
| Db (e : SqlxError)
| Mongo (message : string)
| Agent (message : string)
| Network (message : string)
| Safety (message : string)
| Parse (message : string)
| Keychain (message : string)
| Io (message : string)
| Serialization
| Config (message : string)
| NotFound (message : string)
| Blocked (reason : string)
| OutcomeUnknown (message : string).

Abbreviation AppResult := (result AppError).

(** [AppError::kind] *)
Definition error_kind (e : AppError) : string :=
  match e with
  | Db _ => "db"
  | Mongo _ => "db"
  | Agent _ => "agent"
  | Network _ => "network"
  | Safety _ => "safety"
  | Parse _ => "parse"
  | Keychain _ => "keychain"
  | Io _ => "io"
  | Serialization => "serialization"
  | Config _ => "config"
  | NotFound _ => "notFound"
  | Blocked _ => "blocked"
  | OutcomeUnknown _ => "outcomeUnknown"
  end.

#[export] Instance SqlxError_eq_dec : EqDecision SqlxError.
Proof. solve_decision. Defined.
#[export] Instance AppError_eq_dec : EqDecision AppError.
Proof. solve_decision. Defined.

(** ** Boolean list predicates *)

Lemma forallb_Forall {A} (f : A → bool) l :
  forallb f l = true ↔ Forall (λ x, f x = true) l.
Proof.
  induction l as [|x l IH]; cbn; [split; auto|].
  by rewrite andb_true_iff, Forall_cons, IH.
Qed.

Lemma existsb_Exists {A} (f : A → bool) l :
  existsb f l = true ↔ Exists (λ x, f x = true) l.
Proof.
  induction l as [|x l IH]; cbn; [by rewrite Exists_nil|].
  by rewrite orb_true_iff, Exists_cons, IH.
Qed.

(** [Iterator::find_map] *)
Fixpoint find_map {A B} (f : A → option B) (l : list A) : option B :=
  match l with
  | [] => None
  | x :: l' => match f x with Some y => Some y | None => find_map f l' end
  end.

Lemma find_map_None {A B} (f : A → option B) l :
  find_map f l = None ↔ Forall (λ x, f x = None) l.
Proof.
  induction l as [|x l IH]; cbn; [split; auto|]. rewrite Forall_cons, <-IH.
  destruct (f x); naive_solver.
Qed.

Lemma map_eq_Forall2 {A B C} (f : A → C) (g : B → C) l m :
  map f l = map g m → Forall2 (λ x y, f x = g y) l m.
Proof.
  revert m. induction l as [|x l IH]; intros [|y m]; cbn; try done. intros [= ? ?]. by constructor; auto.
Qed.

Lemma map_inj_in {A B} (f : A → B) l m :
  (∀ x y, x ∈ l → y ∈ m → f x = f y → x = y) → map f l = map f m → l = m.
Proof.
  intros Hf H%map_eq_Forall2. induction H as [|x y l m Hxy H IH]; [done|].
  f_equal; [apply Hf; [left|left|done]|apply IH; intros; apply Hf; try right; done].
Qed.

(** ** Stateful calls

    An [&self] method that changes shared state takes the state and returns its
    result with the state it leaves behind, errors included.  In the scope
    [effect], [let? (x, s) := m in k] is [let x = m.await?; k]. *)

Definition effect (St A : Type) : Type := AppResult A * St.

Definition and_then {E St A B} (m : result E A * St) (k : A → St → result E B * St)
  : result E B * St :=
  match m with (Ok a, s) => k a s | (Err e, s) => (Err e, s) end.

Declare Scope effect_scope.
Delimit Scope effect_scope with effect.
Notation "'let?' ( x , s ) := m 'in' k" := (and_then m (λ x s, k))
  (at level 200, x binder, s binder, m at level 100, k at level 200,
   format "'let?'  ( x ,  s )  :=  m  'in' '//' k") : effect_scope.

Lemma and_then_Ok {E St A B} (m : result E A * St) (k : A → St → result E B * St) b s' :
  and_then m k = (Ok b, s') ↔ ∃ a s, m = (Ok a, s) ∧ k a s = (Ok b, s').
Proof. destruct m as [[a|e] s]; cbn; naive_solver. Qed.

(** Lifting a pure fallible step. *)
Definition pure_step {E St A} (r : result E A) (s : St) : result E A * St := (r, s).

Lemma pure_step_Ok {E St A} (r : result E A) (s s' : St) a :
  pure_step r s = (Ok a, s') ↔ r = Ok a ∧ s' = s.
Proof. unfold pure_step. naive_solver. Qed.

(** [.map_err(f)] on the result of a call. *)
Definition map_err_step {E F St A} (f : E → F) (m : result E A * St) : result F A * St :=
  (map_err f m.1, m.2).

(** [inv_eff]: [inv_res] for stateful calls. *)
Ltac inv_eff :=
  repeat match goal with
  | H : and_then _ _ = (Ok _, _) |- _ =>
      apply and_then_Ok in H; let x := fresh "x" in let s := fresh "s" in
      let Hx := fresh "Hx" in destruct H as (x & s & Hx & H)
  | H : pure_step _ _ = (Ok _, _) |- _ => apply pure_step_Ok in H as [H ->]
  | H : (if ?b then (Err _, _) else _) = (Ok _, _) |- _ =>
      let Hb := fresh "Hb" in destruct b eqn:Hb; [discriminate H|]
  | H : (Ok _, _) = (Ok _, _) |- _ => injection H as H; subst
  end; inv_res.

Lemma NoDup_fmap_eq {A B} (f : A → B) l x y :
  NoDup (f <$> l) → x ∈ l → y ∈ l → f x = f y → x = y.
Proof.
  intros Hn [i Hx]%list_elem_of_lookup [j Hy]%list_elem_of_lookup E.
  assert (i = j) as ->; [|congruence].
  eapply NoDup_lookup; [exact Hn| |]; rewrite list_lookup_fmap; [by rewrite Hx|by rewrite Hy, E].
Qed.

(** ** Hints shared by the components *)

Create HintDb platform.
#[export] Hint Resolve Forall_nil_2 Forall_cons_2 : platform.
