(* ===== verification/RustStd.v ===== *)
(** * The part of Rust's standard library the program relies on

    A [String] is the list of its UTF-8 bytes.  This file gives the byte
    length, [trim], [char::is_control], [starts_with], [split] helpers, decimal
    printing and the byte/hex conversions shared by every component. *)

From S2P Require Export Prelude.

(** ** Bytes and lengths *)

Definition byte (a : ascii) : N := N_of_ascii a.

(** [str::len]: the number of UTF-8 bytes. *)
Definition str_len (s : string) : N := N.of_nat (String.length s).

Abbreviation bytes_of := list_ascii_of_string.
Abbreviation of_bytes := string_of_list_ascii.

Lemma string_app_cons a s t : String a s +:+ t = String a (s +:+ t).
Proof. done. Qed.
Lemma string_app_nil_l t : "" +:+ t = t.
Proof. done. Qed.
Ltac str_simpl := rewrite ?string_app_cons, ?string_app_nil_l; cbn.

Lemma str_len_app s t : str_len (s +:+ t) = (str_len s + str_len t)%N.
Proof.
  unfold str_len. rewrite <-Nat2N.inj_add. f_equal.
  induction s as [|a s IH]; str_simpl; [done|]. by rewrite IH.
Qed.

Lemma bytes_of_app s t : bytes_of (s +:+ t) = bytes_of s ++ bytes_of t.
Proof. induction s as [|a s IH]; str_simpl; [done|]. by rewrite IH. Qed.

Lemma of_bytes_app s t : of_bytes (s ++ t) = of_bytes s +:+ of_bytes t.
Proof. induction s as [|a s IH]; str_simpl; [done|]. by rewrite IH. Qed.

Lemma string_app_nil_r (s : string) : s +:+ "" = s.
Proof. induction s as [|a s IH]; str_simpl; [done|]. by rewrite IH. Qed.

Lemma string_app_assoc (s t u : string) : (s +:+ t) +:+ u = s +:+ (t +:+ u).
Proof. induction s as [|a s IH]; str_simpl; [done|]. by rewrite IH. Qed.

Lemma bytes_of_length s : length (bytes_of s) = String.length s.
Proof. induction s as [|a s IH]; str_simpl; [done|]. by rewrite IH. Qed.

(** ** White space

    [str::trim] removes the Unicode [White_Space] code points; the byte
    patterns below are their UTF-8 encodings. *)

Definition ws1 (a : N) : bool :=
  ((9 <=? a) && (a <=? 13) || (a =? 32))%N.
Definition ws2 (a b : N) : bool :=
  ((a =? 0xC2) && ((b =? 0x85) || (b =? 0xA0)))%N.
Definition ws3 (a b c : N) : bool :=
  ((a =? 0xE1) && (b =? 0x9A) && (c =? 0x80)
   || (a =? 0xE2) && (b =? 0x80)
      && ((0x80 <=? c) && (c <=? 0x8A) || (c =? 0xA8) || (c =? 0xA9) || (c =? 0xAF))
   || (a =? 0xE2) && (b =? 0x81) && (c =? 0x9F)
   || (a =? 0xE3) && (b =? 0x80) && (c =? 0x80))%N.

(** Drop the white space code points a byte sequence starts with. *)
Fixpoint drop_ws (l : list ascii) : list ascii :=
  match l with
  | [] => []
  | a :: l1 =>
      if ws1 (byte a) then drop_ws l1 else
      match l1 with
      | [] => l
      | b :: l2 =>
          if ws2 (byte a) (byte b) then drop_ws l2 else
          match l2 with
          | [] => l
          | c :: l3 => if ws3 (byte a) (byte b) (byte c) then drop_ws l3 else l
          end
      end
  end.

(** The same at the end, on the reversed bytes. *)
Fixpoint drop_ws_rev (l : list ascii) : list ascii :=
  match l with
  | [] => []
  | a :: l1 =>
      if ws1 (byte a) then drop_ws_rev l1 else
      match l1 with
      | [] => l
      | b :: l2 =>
          if ws2 (byte b) (byte a) then drop_ws_rev l2 else
          match l2 with
          | [] => l
          | c :: l3 => if ws3 (byte c) (byte b) (byte a) then drop_ws_rev l3 else l
          end
      end
  end.

Definition trim_bytes (l : list ascii) : list ascii :=
  rev (drop_ws_rev (rev (drop_ws l))).

(** [str::trim] *)
Definition trim (s : string) : string := of_bytes (trim_bytes (bytes_of s)).

(** [s.trim().is_empty()] *)
Definition is_blank (s : string) : bool :=
  match trim_bytes (bytes_of s) with [] => true | _ => false end.

(** [char::is_control] over the UTF-8 encoding: U+0000..U+001F, U+007F..U+009F. *)
Fixpoint has_control (l : list ascii) : bool :=
  match l with
  | [] => false
  | a :: l1 =>
      ((byte a <? 32)%N || (byte a =? 127)%N)
      || match l1 with
         | b :: _ => ((byte a =? 0xC2) && (0x80 <=? byte b) && (byte b <=? 0x9F))%N
         | [] => false
         end
      || has_control l1
  end.

(** [s.chars().any(char::is_control)] *)
Definition any_control (s : string) : bool := has_control (bytes_of s).

(** [str::strip_prefix] *)
Fixpoint strip_prefix (p s : string) : option string :=
  match p, s with
  | "", _ => Some s
  | String a p', String b s' => if (a =? b)%char then strip_prefix p' s' else None
  | _, _ => None
  end.

Lemma strip_prefix_spec p s r : strip_prefix p s = Some r ↔ s = p +:+ r.
Proof.
  revert s; induction p as [|a p IH]; intros s; str_simpl; [naive_solver|].
  destruct s as [|b s]; [naive_solver|].
  destruct (Ascii.eqb_spec a b) as [->|Hne]; [rewrite IH; naive_solver|].
  split; [done|]. intros [=]. by subst.
Qed.

(** [str::starts_with] *)
Definition starts_with (p s : string) : bool :=
  match strip_prefix p s with Some _ => true | None => false end.

(** [str::ends_with] *)
Definition ends_with (suffix s : string) : bool :=
  starts_with (of_bytes (rev (bytes_of suffix))) (of_bytes (rev (bytes_of s))).

(** [str::contains] *)
Fixpoint str_contains (p s : string) : bool :=
  starts_with p s || match s with "" => false | String _ s' => str_contains p s' end.

(** [str::rsplit_once] with a one-byte pattern *)
Fixpoint rsplit_once (c : ascii) (s : string) : option (string * string) :=
  match s with
  | "" => None
  | String a s' =>
      match rsplit_once c s' with
      | Some (before, after) => Some (String a before, after)
      | None => if (a =? c)%char then Some ("", s') else None
      end
  end.

(** [str::eq_ignore_ascii_case] *)
Definition ascii_lower (a : ascii) : ascii :=
  if ((65 <=? byte a) && (byte a <=? 90))%N then ascii_of_N (byte a + 32) else a.
Fixpoint str_lower (s : string) : string :=
  match s with "" => "" | String a s' => String (ascii_lower a) (str_lower s') end.
Definition eq_ignore_ascii_case (s t : string) : bool := (str_lower s =? str_lower t)%string.

(** ** Fixed-width integers *)

Definition u16_max : Z := 2 ^ 16 - 1.
Definition u32_max : Z := 2 ^ 32 - 1.
Definition u64_max : Z := 2 ^ 64 - 1.
Definition i64_min : Z := - 2 ^ 63.
Definition i64_max : Z := 2 ^ 63 - 1.

(** [i64::checked_add(1)] *)
Definition i64_succ (n : Z) : option Z := if n =? i64_max then None else Some (n + 1).

(** Saturating float-to-int and int-to-int casts clamp to a range. *)
Definition clamp (lo hi n : Z) : Z := Z.max lo (Z.min hi n).

(** ** Hexadecimal *)

Definition hex_digit (n : N) : ascii :=
  if (n <? 10)%N then ascii_of_N (48 + n) else ascii_of_N (87 + n).

(** [lower_hex]: two lowercase digits per byte. *)
Fixpoint hex_bytes (l : list ascii) : list ascii :=
  match l with
  | [] => []
  | a :: l' => hex_digit (N.shiftr (byte a) 4) :: hex_digit (N.land (byte a) 15) :: hex_bytes l'
  end.

Definition is_lower_hex (a : ascii) : bool :=
  ((48 <=? byte a) && (byte a <=? 57) || (97 <=? byte a) && (byte a <=? 102))%N.

(** 64 lowercase hexadecimal characters. *)
Definition is_sha256_hex (s : string) : bool :=
  (str_len s =? 64)%N && forallb is_lower_hex (bytes_of s).

Lemma all_ascii (P : ascii → bool) :
  forallb (λ n : nat, P (ascii_of_nat n)) (List.seq 0 256) = true → ∀ a, P a = true.
Proof.
  intros H a. rewrite forallb_forall in H.
  rewrite <-(ascii_nat_embedding a). apply H, in_seq.
  pose proof (nat_ascii_bounded a). lia.
Qed.

Lemma hex_bytes_length l : length (hex_bytes l) = (2 * length l)%nat.
Proof. induction l; cbn; lia. Qed.

Lemma hex_bytes_lower l : forallb is_lower_hex (hex_bytes l) = true.
Proof.
  induction l as [|a l IH]; cbn; [done|]. rewrite IH, andb_true_r.
  revert a. apply (all_ascii (λ a, is_lower_hex (hex_digit (N.shiftr (byte a) 4))
    && is_lower_hex (hex_digit (N.land (byte a) 15)))). by vm_compute.
Qed.

Lemma hex_digits_inj (a b : ascii) :
  hex_digit (N.shiftr (byte a) 4) = hex_digit (N.shiftr (byte b) 4) →
  hex_digit (N.land (byte a) 15) = hex_digit (N.land (byte b) 15) → a = b.
Proof.
  pose (f a := (hex_digit (N.shiftr (byte a) 4), hex_digit (N.land (byte a) 15))).
  assert (∀ a b, implb (bool_decide (f a = f b)) (Ascii.eqb a b) = true) as H.
  { intros x. apply all_ascii. revert x.
    apply (all_ascii (λ x, forallb (λ n : nat, implb (bool_decide (f x = f (ascii_of_nat n)))
       (Ascii.eqb x (ascii_of_nat n))) (List.seq 0 256))). by vm_compute. }
  intros H1 H2. specialize (H a b). rewrite bool_decide_true in H by (unfold f; congruence).
  by apply Ascii.eqb_eq.
Qed.

#[export] Instance hex_bytes_inj : Inj (=) (=) hex_bytes.
Proof.
  intros l; induction l as [|a l IH]; intros [|b l']; cbn; try done.
  intros [=]. f_equal; [by apply hex_digits_inj|by apply IH].
Qed.
