(* ===== verification/Ordering.v ===== *)
(** * [Ord], [Ordering] combinators and the stable [sort_by] of Rust

    Comparators are functions into [comparison]; [TotalCmp] is the contract of
    Rust's [Ord]: reflexive, antisymmetric and transitive.  The sort is the
    stable one ([slice::sort_by]); its key property here is that permutations
    of one list have sorted images that agree up to the comparator's [Eq]. *)

From S2P Require Export RustStd.

Class TotalCmp {A} (cmp : A → A → comparison) : Prop := {
  cmp_refl x : cmp x x = Eq;
  cmp_flip x y : cmp y x = CompOpp (cmp x y);
  cmp_le_trans x y z : cmp x y ≠ Gt → cmp y z ≠ Gt → cmp x z ≠ Gt;
}.

(** [Ordering::then_with] *)
Definition then_with (a b : comparison) : comparison :=
  match a with Eq => b | _ => a end.

Section laws.
Context {A} (cmp : A → A → comparison) {T : TotalCmp cmp}.

Lemma cmp_eq_sym x y : cmp x y = Eq → cmp y x = Eq.
Proof. intros H. by rewrite (cmp_flip x y), H. Qed.

Lemma cmp_eq_l x y z : cmp x y = Eq → cmp x z = cmp y z.
Proof.
  intros H. pose proof (cmp_eq_sym _ _ H) as H'.
  pose proof (cmp_le_trans x y z) as H1. pose proof (cmp_le_trans y x z) as H2.
  pose proof (cmp_le_trans z x y) as H3. pose proof (cmp_le_trans z y x) as H4.
  pose proof (cmp_flip x z) as F1. pose proof (cmp_flip y z) as F2.
  destruct (cmp x z), (cmp y z); cbn in *; rewrite ?H, ?H', ?F1, ?F2 in *;
    intuition congruence.
Qed.

Lemma cmp_eq_r x y z : cmp x y = Eq → cmp z x = cmp z y.
Proof. intros H. by rewrite (cmp_flip x z), (cmp_flip y z), (cmp_eq_l x y z). Qed.

Lemma cmp_gt_lt x y : cmp x y = Gt → cmp y x = Lt.
Proof. intros H. by rewrite (cmp_flip x y), H. Qed.

Lemma cmp_lt_gt x y : cmp x y = Lt → cmp y x = Gt.
Proof. intros H. by rewrite (cmp_flip x y), H. Qed.

Lemma cmp_gt_trans_l x y z : cmp x y = Gt → cmp y z ≠ Lt → cmp x z = Gt.
Proof.
  intros H1 H2. destruct (cmp x z) eqn:E; try done; exfalso.
  - rewrite (cmp_eq_l _ _ _ E) in H1. by apply cmp_gt_lt in H1.
  - apply (cmp_le_trans z y x); [|by rewrite (cmp_gt_lt _ _ H1)|by apply cmp_lt_gt].
    rewrite (cmp_flip y z). by destruct (cmp y z).
Qed.
End laws.

(** Comparators built from comparators. *)

#[export] Instance TotalCmp_on {A B} (f : A → B) (cmp : B → B → comparison) :
  TotalCmp cmp → TotalCmp (λ x y, cmp (f x) (f y)).
Proof. intros []. split; naive_solver. Qed.

Lemma then_with_total {A} (c1 c2 : A → A → comparison) :
  TotalCmp c1 → TotalCmp c2 → TotalCmp (λ x y, then_with (c1 x y) (c2 x y)).
Proof.
  intros T1 T2. split.
  - intros x. by rewrite !cmp_refl.
  - intros x y. rewrite (cmp_flip (cmp:=c1) x y), (cmp_flip (cmp:=c2) x y).
    by destruct (c1 x y), (c2 x y).
  - intros x y z H1 H2 H3. unfold then_with in *.
    destruct (c1 x y) eqn:E1; try done.
    + rewrite (cmp_eq_l c1 _ _ _ E1) in H3. destruct (c1 y z) eqn:E2; try done.
      by apply (cmp_le_trans (cmp:=c2) x y z).
    + destruct (c1 x z) eqn:E3; try done.
      * (* x ~ z but x < y *)
        rewrite <-(cmp_eq_r c1 _ _ y E3), (cmp_lt_gt c1 _ _ E1) in H2. done.
      * apply (cmp_le_trans (cmp:=c1) x y z); [by rewrite E1| |done].
        by destruct (c1 y z).
Qed.

(** [Option<T>]: [None < Some(_)]. *)
Definition option_cmp {A} (cmp : A → A → comparison) (x y : option A) : comparison :=
  match x, y with
  | None, None => Eq
  | None, Some _ => Lt
  | Some _, None => Gt
  | Some a, Some b => cmp a b
  end.

#[export] Instance option_cmp_total {A} (cmp : A → A → comparison) :
  TotalCmp cmp → TotalCmp (option_cmp cmp).
Proof.
  intros T. split.
  - intros [x|]; cbn; [apply cmp_refl|done].
  - intros [x|] [y|]; cbn; try done. apply cmp_flip.
  - intros [x|] [y|] [z|]; cbn; try done. apply cmp_le_trans.
Qed.

#[export] Instance Z_compare_total : TotalCmp Z.compare.
Proof.
  split; intros *; [apply Z.compare_refl|apply Z.compare_antisym|].
  rewrite !Z.compare_ngt_iff. lia.
Qed.

#[export] Instance N_compare_total : TotalCmp N.compare.
Proof.
  split; intros *; [apply N.compare_refl|apply N.compare_antisym|].
  rewrite !N.compare_ngt_iff. lia.
Qed.

(** [str]: lexicographic on bytes. *)
Fixpoint string_cmp (s t : string) : comparison :=
  match s, t with
  | "", "" => Eq
  | "", _ => Lt
  | _, "" => Gt
  | String a s', String b t' => then_with (N.compare (byte a) (byte b)) (string_cmp s' t')
  end.

Lemma string_cmp_eq s t : string_cmp s t = Eq ↔ s = t.
Proof.
  revert t; induction s as [|a s IH]; intros [|b t]; cbn; try naive_solver.
  unfold then_with. destruct (N.compare_spec (byte a) (byte b)) as [E|E|E].
  - apply (f_equal ascii_of_N) in E. unfold byte in E. rewrite !ascii_N_embedding in E.
    rewrite IH. naive_solver.
  - split; [done|]. intros [= -> ->]. lia.
  - split; [done|]. intros [= -> ->]. lia.
Qed.

#[export] Instance string_cmp_total : TotalCmp string_cmp.
Proof.
  split.
  - intros s. by apply string_cmp_eq.
  - intros s; induction s as [|a s IH]; intros [|b t]; cbn; try done.
    rewrite (N.compare_antisym (byte a) (byte b)), IH.
    by destruct (byte a ?= byte b)%N, (string_cmp s t).
  - intros s; induction s as [|a s IH]; intros [|b t] [|c u]; cbn; try done.
    specialize (IH t u). unfold then_with.
    destruct (N.compare_spec (byte a) (byte b)), (N.compare_spec (byte b) (byte c)),
      (N.compare_spec (byte a) (byte c)); try done; lia.
Qed.

(** ** The stable sort *)

Section sort.
Context {A} (cmp : A → A → comparison).

Fixpoint insert_sorted (x : A) (l : list A) : list A :=
  match l with
  | [] => [x]
  | y :: l' => match cmp x y with Gt => y :: insert_sorted x l' | _ => x :: l end
  end.

(** [slice::sort_by] *)
Definition sort_by (l : list A) : list A := foldr insert_sorted [] l.

Lemma insert_sorted_perm x l : insert_sorted x l ≡ₚ x :: l.
Proof.
  induction l as [|y l IH]; cbn; [done|]. destruct (cmp x y); try done.
  rewrite IH. apply perm_swap.
Qed.

Lemma sort_by_perm l : sort_by l ≡ₚ l.
Proof. induction l as [|x l IH]; cbn; [done|]. by rewrite insert_sorted_perm, IH. Qed.

Context {T : TotalCmp cmp}.
Abbreviation le := (λ x y, cmp x y ≠ Gt).
Abbreviation eqv := (λ x y, cmp x y = Eq).

Lemma insert_sorted_sorted x l :
  StronglySorted le l → StronglySorted le (insert_sorted x l).
Proof.
  induction 1 as [|y l Hs IH Hle]; cbn; [by repeat constructor|].
  assert (cmp x y ≠ Gt → StronglySorted le (x :: y :: l)) as Hd.
  { intros Hxy. constructor; [by constructor|]. constructor; [done|].
    eapply Forall_impl; [exact Hle|]. intros z Hz. by apply (cmp_le_trans x y z). }
  destruct (cmp x y) eqn:E; [by apply Hd|by apply Hd|].
  constructor; [done|]. rewrite insert_sorted_perm. constructor; [|done].
  by rewrite (cmp_gt_lt cmp _ _ E).
Qed.

Lemma sort_by_sorted l : StronglySorted le (sort_by l).
Proof. induction l; cbn; [constructor|by apply insert_sorted_sorted]. Qed.

Lemma sort_by_id l : StronglySorted le l → sort_by l = l.
Proof.
  induction 1 as [|x l Hs IH Hle]; [done|].
  change (insert_sorted x (sort_by l) = x :: l). rewrite IH.
  destruct l as [|y l]; cbn; [done|]. inversion Hle; subst.
  by destruct (cmp x y) eqn:E.
Qed.

Lemma sort_by_idem l : sort_by (sort_by l) = sort_by l.
Proof. apply sort_by_id, sort_by_sorted. Qed.

Lemma eqv_refl x : eqv x x.
Proof. apply cmp_refl. Qed.
Lemma eqv_sym x y : eqv x y → eqv y x.
Proof. apply (cmp_eq_sym cmp). Qed.
Lemma Forall2_eqv_refl l : Forall2 eqv l l.
Proof. induction l; constructor; [apply eqv_refl|done]. Qed.

Lemma insert_sorted_eqv x l1 l2 :
  Forall2 eqv l1 l2 → Forall2 eqv (insert_sorted x l1) (insert_sorted x l2).
Proof.
  induction 1 as [|a b l1 l2 Hab Hl IH]; cbn;
    [constructor; [apply eqv_refl|constructor]|].
  rewrite (cmp_eq_r cmp a b x Hab).
  destruct (cmp x b); [| |by constructor].
  all: constructor; [apply eqv_refl|by constructor].
Qed.

Lemma insert_sorted_swap x y l :
  Forall2 eqv (insert_sorted x (insert_sorted y l)) (insert_sorted y (insert_sorted x l)).
Proof.
  assert (∀ a b l, eqv a b → Forall2 eqv (a :: b :: l) (b :: a :: l)) as Hsw.
  { intros a b l' H. constructor; [done|constructor; [by apply eqv_sym|apply Forall2_eqv_refl]]. }
  induction l as [|a l IH]; cbn.
  - pose proof (cmp_flip x y) as F. destruct (cmp x y) eqn:E; cbn in F; rewrite F;
      auto using Forall2_eqv_refl.
  - pose proof (cmp_flip x y) as F.
    pose proof (cmp_eq_l cmp x y a) as He.
    pose proof (cmp_gt_trans_l cmp x y a) as H1.
    pose proof (cmp_gt_trans_l cmp y x a) as H2.
    destruct (cmp x y) eqn:E, (cmp y a) eqn:Ey, (cmp x a) eqn:Ex; cbn in F;
      cbn; rewrite ?F, ?E, ?Ey, ?Ex; cbn; rewrite ?F, ?E, ?Ey, ?Ex;
      try (by apply Forall2_eqv_refl); try (by apply Hsw);
      try (constructor; [apply eqv_refl|exact IH]); exfalso; intuition congruence.
Qed.

Lemma Forall2_eqv_trans l1 l2 l3 :
  Forall2 eqv l1 l2 → Forall2 eqv l2 l3 → Forall2 eqv l1 l3.
Proof.
  intros H. revert l3. induction H as [|x y l1 l2 Hxy _ IH]; intros l3 H3;
    inversion H3; subst; constructor; [|by apply IH].
  by rewrite (cmp_eq_l cmp x y).
Qed.

(** Sorting permutations of one list gives lists that agree position by
    position up to the comparator. *)
Lemma sort_by_perm_eqv l1 l2 : l1 ≡ₚ l2 → Forall2 eqv (sort_by l1) (sort_by l2).
Proof.
  induction 1 as [|x l1 l2 _ IH|x y l|l1 l2 l3 _ IH1 _ IH2]; cbn.
  - constructor.
  - by apply insert_sorted_eqv.
  - apply insert_sorted_swap.
  - by eapply Forall2_eqv_trans.
Qed.

Lemma sort_by_perm_map_in {B} (f : A → B) l1 l2 :
  (∀ x y, x ∈ l1 → y ∈ l1 → cmp x y = Eq → f x = f y) → l1 ≡ₚ l2 →
  f <$> sort_by l1 = f <$> sort_by l2.
Proof.
  intros Hf Hp. pose proof (sort_by_perm_eqv _ _ Hp) as He.
  assert (∀ x, x ∈ sort_by l1 → x ∈ l1) as Hi1 by (intros x; by rewrite sort_by_perm).
  assert (∀ x, x ∈ sort_by l2 → x ∈ l1) as Hi2 by (intros x; by rewrite sort_by_perm, Hp).
  induction He as [|x y s1 s2 Hxy _ IH]; [done|]. rewrite !fmap_cons. f_equal.
  - apply Hf; [apply Hi1|apply Hi2|done]; set_solver.
  - apply IH; set_solver.
Qed.

Lemma sort_by_perm_map {B} (f : A → B) l1 l2 :
  (∀ x y, cmp x y = Eq → f x = f y) → l1 ≡ₚ l2 →
  f <$> sort_by l1 = f <$> sort_by l2.
Proof. intros Hf. apply sort_by_perm_map_in. auto. Qed.
End sort.

(** When the comparator separates the elements, the sorted list is determined by
    the multiset. *)
Lemma sort_by_perm_eq {A} (cmp : A → A → comparison) {T : TotalCmp cmp} l l' :
  (∀ x y, x ∈ l → y ∈ l → cmp x y = Eq → x = y) → l ≡ₚ l' → sort_by cmp l = sort_by cmp l'.
Proof.
  intros Hc Hp. rewrite <-(list_fmap_id (sort_by cmp l)), <-(list_fmap_id (sort_by cmp l')).
  by apply sort_by_perm_map_in.
Qed.

Lemma sort_by_eq_perm {A} (cmp : A → A → comparison) l l' :
  sort_by cmp l = sort_by cmp l' → l ≡ₚ l'.
Proof. intros H. by rewrite <-(sort_by_perm cmp l), H, sort_by_perm. Qed.

(** Sorting by a projection commutes with mapping that keeps the projection. *)
Lemma sort_by_fmap {A B} (f : A → B) (cmp : B → B → comparison) l :
  f <$> sort_by (λ x y, cmp (f x) (f y)) l = sort_by cmp (f <$> l).
Proof.
  induction l as [|x l IH]; [done|]. cbn [sort_by foldr fmap list_fmap].
  change (f <$> insert_sorted (λ x y, cmp (f x) (f y)) x (sort_by (λ x y, cmp (f x) (f y)) l)
          = insert_sorted cmp (f x) (sort_by cmp (f <$> l))).
  rewrite <-IH. generalize (sort_by (λ x y, cmp (f x) (f y)) l) as s; clear.
  induction s as [|y s IH]; cbn; [done|]. destruct (cmp (f x) (f y)); cbn; try done.
  by f_equal.
Qed.

(** Entries of a map ordered by key. *)
Definition key_cmp {V} (x y : string * V) : comparison := string_cmp x.1 y.1.

#[export] Instance key_cmp_total {V} : TotalCmp (@key_cmp V).
Proof. unfold key_cmp. apply _. Qed.

Lemma sort_keys_fst {V} (m : list (string * V)) :
  (sort_by key_cmp m).*1 = sort_by string_cmp m.*1.
Proof. exact (sort_by_fmap fst string_cmp m). Qed.

Lemma sort_keys_map {V W} (g : V → W) (m : list (string * V)) :
  (λ kv, (kv.1, g kv.2)) <$> sort_by key_cmp m
  = sort_by key_cmp ((λ kv, (kv.1, g kv.2)) <$> m).
Proof. exact (sort_by_fmap (λ kv, (kv.1, g kv.2)) key_cmp m). Qed.

Lemma sort_keys_perm {V} (m m' : list (string * V)) :
  NoDup m.*1 → m ≡ₚ m' → sort_by key_cmp m = sort_by key_cmp m'.
Proof.
  intros Hn Hp. refine (sort_by_perm_eq key_cmp m m' _ Hp).
  intros [k x] [k' y] Hx Hy He%string_cmp_eq. cbn in He. subst k'. f_equal.
  clear m' Hp. induction m as [|[k' z] m IH]; [set_solver|].
  cbn in Hn. apply NoDup_cons in Hn as [Hk Hn].
  assert (∀ z, (k', z) ∈ m → False) as Hno.
  { intros w Hw. apply Hk, list_elem_of_fmap. by exists (k', w). }
  rewrite !elem_of_cons in Hx, Hy.
  destruct Hx as [Hx|Hx], Hy as [Hy|Hy]; simplify_eq; [done|exfalso|exfalso|]; eauto.
Qed.
