(* ===== verification/Json.v ===== *)
(** * JSON values (serde_json's [Value])

    The data type of [serde_json::Value] with its [preserve_order] map: an
    object is the list of its entries in insertion order, without duplicate
    keys ([value_wf]).  Equality of values ignores the order of entries, as
    [IndexMap]'s does; the canonical form used for hashing
    (operations/canonicalize.rs) sorts them. *)

From S2P Require Export Ordering.
From Stdlib Require Export Floats.SpecFloat.

(** [serde_json::Number]: a [u64], a negative [i64] or a finite [f64]. *)
Inductive Number :=
| PosInt (n : Z)
| NegInt (n : Z)
| Float (f : spec_float).

Inductive Value :=
| VNull
| VBool (b : bool)
| VNumber (n : Number)
| VString (s : string)
| VArray (l : list Value)
| VObject (m : list (string * Value)).

#[export] Instance spec_float_eq_dec : EqDecision spec_float.
Proof. solve_decision. Defined.
#[export] Instance Number_eq_dec : EqDecision Number.
Proof. solve_decision. Defined.

Section value_ind.
Context (P : Value → Prop).
Context (Hnull : P VNull) (Hbool : ∀ b, P (VBool b)) (Hnum : ∀ n, P (VNumber n))
  (Hstr : ∀ s, P (VString s)) (Harr : ∀ l, Forall P l → P (VArray l))
  (Hobj : ∀ m, Forall (λ kv, P kv.2) m → P (VObject m)).

Fixpoint value_ind' (v : Value) : P v :=
  match v with
  | VNull => Hnull
  | VBool b => Hbool b
  | VNumber n => Hnum n
  | VString s => Hstr s
  | VArray l => Harr l
      ((fix go l : Forall P l := match l with
        | [] => List.Forall_nil _
        | x :: l' => List.Forall_cons _ _ _ (value_ind' x) (go l') end) l)
  | VObject m => Hobj m
      ((fix go m : Forall (λ kv, P kv.2) m := match m with
        | [] => List.Forall_nil _
        | (k, x) :: m' => List.Forall_cons (λ kv, P kv.2) (k, x) m' (value_ind' x) (go m') end) m)
  end.
End value_ind.

(** [Map::get] *)
Fixpoint assoc {V} (k : string) (m : list (string * V)) : option V :=
  match m with
  | [] => None
  | (k', v) :: m' => if (k =? k')%string then Some v else assoc k m'
  end.

(** [Map::insert] of the order-preserving map: replace in place or append. *)
Fixpoint map_insert {V} (k : string) (v : V) (m : list (string * V)) : list (string * V) :=
  match m with
  | [] => [(k, v)]
  | (k', v') :: m' => if (k =? k')%string then (k', v) :: m' else (k', v') :: map_insert k v m'
  end.

Definition as_object (v : Value) : option (list (string * Value)) :=
  match v with VObject m => Some m | _ => None end.
Definition as_array (v : Value) : option (list Value) :=
  match v with VArray l => Some l | _ => None end.
Definition as_str (v : Value) : option string :=
  match v with VString s => Some s | _ => None end.
(** [Value::get(&str)] *)
Definition value_get (k : string) (v : Value) : option Value :=
  m ← as_object v; assoc k m.

(** [Value::as_i64]; [Number::as_u64] *)
Definition number_as_i64 (n : Number) : option Z :=
  match n with
  | PosInt n => if n <=? i64_max then Some n else None
  | NegInt n => Some n
  | Float _ => None
  end.
Definition number_as_u64 (n : Number) : option Z :=
  match n with PosInt n => Some n | _ => None end.

(** [Value::from(i64)], [Value::from(u64)] *)
Definition value_of_i64 (n : Z) : Value :=
  VNumber (if 0 <=? n then PosInt n else NegInt n).
Definition value_of_u64 (n : Z) : Value := VNumber (PosInt n).
Definition value_of_opt_string (o : option string) : Value :=
  match o with Some s => VString s | None => VNull end.

(** Equality of numbers is that of the payloads; floats compare as [f64]. *)
Definition number_eqb (a b : Number) : bool :=
  match a, b with
  | PosInt x, PosInt y => x =? y
  | NegInt x, NegInt y => x =? y
  | Float x, Float y => SFeqb x y
  | _, _ => false
  end.

(** [impl PartialEq for Value] *)
Fixpoint value_eqb (v w : Value) {struct v} : bool :=
  match v, w with
  | VNull, VNull => true
  | VBool a, VBool b => Bool.eqb a b
  | VNumber a, VNumber b => number_eqb a b
  | VString a, VString b => (a =? b)%string
  | VArray l, VArray l' =>
      (fix go l l' := match l, l' with
       | [], [] => true
       | x :: l, y :: l' => value_eqb x y && go l l'
       | _, _ => false
       end) l l'
  | VObject m, VObject m' =>
      (length m =? length m')%nat &&
      forallb (λ kv, match assoc kv.1 m' with
                     | Some y => value_eqb kv.2 y
                     | None => false
                     end) m
  | _, _ => false
  end.

(** Invariants of the Rust types: integer ranges and distinct keys. *)
Definition number_wf (n : Number) : bool :=
  match n with
  | PosInt n => (0 <=? n) && (n <=? u64_max)
  | NegInt n => (i64_min <=? n) && (n <? 0)
  | Float (S754_finite _ _ _) | Float (S754_zero _) => true
  | Float _ => false
  end.

Fixpoint value_wf (v : Value) : bool :=
  match v with
  | VNumber n => number_wf n
  | VArray l => forallb value_wf l
  | VObject m => bool_decide (NoDup m.*1) && forallb (λ kv, value_wf kv.2) m
  | _ => true
  end.

(** No [f64] occurs in the value. *)
Fixpoint float_free (v : Value) : bool :=
  match v with
  | VNumber (Float _) => false
  | VArray l => forallb float_free l
  | VObject m => forallb (λ kv, float_free kv.2) m
  | _ => true
  end.

(** Well formed and without floats: the values whose text round-trips exactly. *)
Definition value_exact (v : Value) : bool := value_wf v && float_free v.

Lemma object_wf m :
  value_wf (VObject m) = true ↔ NoDup m.*1 ∧ Forall (λ kv, value_wf kv.2 = true) m.
Proof. cbn. by rewrite andb_true_iff, bool_decide_eq_true, forallb_Forall. Qed.

Lemma object_exact m :
  value_exact (VObject m) = true ↔
  NoDup m.*1 ∧ Forall (λ kv, value_exact kv.2 = true) m.
Proof.
  unfold value_exact. rewrite andb_true_iff, object_wf. cbn. rewrite forallb_Forall. split.
  - intros [[Hn Hw] Hf]. split; [done|]. decompose_Forall. by apply andb_true_iff.
  - intros [Hn H]. split; [split; [done|]|]; (eapply Forall_impl; [exact H|]);
      by intros kv [? ?]%andb_true_iff.
Qed.

Lemma array_exact l :
  value_exact (VArray l) = true ↔ Forall (λ v, value_exact v = true) l.
Proof.
  unfold value_exact. cbn. rewrite andb_true_iff, !forallb_Forall. split.
  - intros [Hw Hf]. decompose_Forall. by apply andb_true_iff.
  - intros H. split; (eapply Forall_impl; [exact H|]); by intros v [? ?]%andb_true_iff.
Qed.

(** ** Association lists *)

Section assoc.
Context {V : Type}.
Implicit Types m : list (string * V).

Lemma assoc_Some_in k v m : assoc k m = Some v → (k, v) ∈ m.
Proof.
  induction m as [|[k' v'] m IH]; cbn; [done|].
  destruct (String.eqb_spec k k') as [->|]; [intros [= ->]; left|right; auto].
Qed.

Lemma assoc_in k v m : NoDup m.*1 → (k, v) ∈ m → assoc k m = Some v.
Proof.
  induction m as [|[k' v'] m IH]; cbn; [by rewrite elem_of_nil|].
  intros [Hn Hd]%NoDup_cons [[= -> ->]|Hin]%elem_of_cons; [by rewrite String.eqb_refl|].
  destruct (String.eqb_spec k k') as [->|]; [|auto].
  destruct Hn. apply list_elem_of_fmap. by exists (k', v).
Qed.

Lemma assoc_None k m : assoc k m = None ↔ k ∉ m.*1.
Proof.
  induction m as [|[k' v'] m IH]; cbn; [by rewrite elem_of_nil; naive_solver|].
  destruct (String.eqb_spec k k') as [->|]; [set_solver|]. rewrite IH. set_solver.
Qed.

Lemma assoc_perm k m m' : NoDup m.*1 → m ≡ₚ m' → assoc k m = assoc k m'.
Proof.
  intros Hn Hp. assert (NoDup m'.*1) as Hn' by (by rewrite <-Hp).
  destruct (assoc k m) as [v|] eqn:E.
  - symmetry. apply assoc_in; [done|]. rewrite <-Hp. by apply assoc_Some_in.
  - symmetry. apply assoc_None. rewrite <-Hp. by apply assoc_None.
Qed.

Lemma map_insert_fresh k v m : k ∉ m.*1 → map_insert k v m = m ++ [(k, v)].
Proof.
  induction m as [|[k' v'] m IH]; cbn; [done|]. intros Hk.
  destruct (String.eqb_spec k k') as [->|]; [set_solver|]. rewrite IH; set_solver.
Qed.

Lemma assoc_map {W} (f : V → W) k m :
  assoc k (map (λ kv, (kv.1, f kv.2)) m) = f <$> assoc k m.
Proof. induction m as [|[k' v'] m IH]; cbn; [done|]. by destruct (k =? k')%string. Qed.
End assoc.
