(* ===== verification/External.v ===== *)
(** * Third-party code the program calls

    [Platform] lists the functions of the crates the modelled code uses
    ([uuid], [chrono], [serde_json], [sha2]) as parameters; [PlatformLaws]
    states their documented behaviour.  [Reference.platform] is one concrete
    instance, so that every statement about the parameters can be evaluated. *)

From S2P Require Export Json.

(** A [DateTime<Utc>] is its number of nanoseconds since the Unix epoch. *)
Abbreviation DateTime := Z.

Class Platform := {
  (** uuid *)
  Uuid : Type;
  #[global] uuid_eq_dec :: EqDecision Uuid;
  #[global] uuid_countable :: Countable Uuid;
  uuid_to_string : Uuid → string;
  uuid_parse : string → option Uuid;
  (** chrono: [to_rfc3339_opts(SecondsFormat::Nanos, true)], [to_rfc3339()] and
      [parse_from_rfc3339] *)
  rfc3339_nanos : DateTime → string;
  rfc3339 : DateTime → string;
  parse_rfc3339 : string → option DateTime;
  (** serde_json *)
  json_to_string : Value → option string;
  json_from_str : string → option Value;
  (** SQLite's [json_valid] *)
  sqlite_json_valid : string → bool;
  (** sha2 *)
  sha256 : list ascii → list ascii;
}.

(** Years 0000 to 9999, the range RFC 3339 can express. *)
Definition min_rfc3339 : Z := -62167219200 * 10 ^ 9.
Definition max_rfc3339 : Z := 253402300800 * 10 ^ 9.
Definition clock_ok (t : DateTime) : Prop := min_rfc3339 ≤ t < max_rfc3339.
Definition opt_clock_ok (t : option DateTime) : Prop :=
  match t with Some t => clock_ok t | None => True end.

#[export] Instance clock_ok_dec t : Decision (clock_ok t).
Proof. unfold clock_ok. apply _. Defined.

Class PlatformLaws (P : Platform) : Prop := {
  uuid_roundtrip u : uuid_parse (uuid_to_string u) = Some u;
  rfc3339_roundtrip t : clock_ok t → parse_rfc3339 (rfc3339_nanos t) = Some t;
  (** The fixed-width UTC format orders as text the way it orders as time. *)
  rfc3339_order t u : clock_ok t → clock_ok u →
    string_cmp (rfc3339_nanos t) (rfc3339_nanos u) = Z.compare t u;
  rfc3339_auto_inj t u : clock_ok t → clock_ok u → rfc3339 t = rfc3339 u → t = u;
  (** Serialising a well-formed value cannot fail; parsing gives well-formed
      values; without floats the text determines the value. *)
  json_total v : value_wf v = true → is_Some (json_to_string v);
  json_parse_wf s v : json_from_str s = Some v → value_wf v = true;
  json_roundtrip v s :
    value_exact v = true → json_to_string v = Some s → json_from_str s = Some v;
  json_valid_printed v s :
    value_wf v = true → json_to_string v = Some s → sqlite_json_valid s = true;
  sha256_length l : length (sha256 l) = 32%nat;
}.

#[export] Hint Resolve uuid_roundtrip rfc3339_roundtrip json_roundtrip json_parse_wf : platform.

Section derived.
Context {P : Platform} {L : PlatformLaws P}.

#[export] Instance uuid_to_string_inj : Inj (=) (=) uuid_to_string.
Proof.
  intros u v H. apply (f_equal uuid_parse) in H.
  rewrite !uuid_roundtrip in H. by injection H.
Qed.

Lemma rfc3339_nanos_inj t u :
  clock_ok t → clock_ok u → rfc3339_nanos t = rfc3339_nanos u → t = u.
Proof.
  intros Ht Hu H. apply (f_equal parse_rfc3339) in H.
  rewrite !rfc3339_roundtrip in H by done. by injection H.
Qed.

Lemma json_to_string_inj v w s :
  value_exact v = true → value_exact w = true →
  json_to_string v = Some s → json_to_string w = Some s → v = w.
Proof.
  intros Hv Hw H1 H2. apply (json_roundtrip v s Hv) in H1.
  apply (json_roundtrip w s Hw) in H2. congruence.
Qed.
End derived.

(** ** A concrete instance *)

Module Reference.

(** Text of a countable value: the bits of its code. *)
Fixpoint bits (p : positive) : string :=
  match p with
  | xH => "."
  | xO p => String "0" (bits p)
  | xI p => String "1" (bits p)
  end.
Fixpoint unbits (s : string) : option positive :=
  match s with
  | "." => Some xH
  | String "0" s => xO <$> unbits s
  | String "1" s => xI <$> unbits s
  | _ => None
  end.
Lemma unbits_bits p : unbits (bits p) = Some p.
Proof. induction p as [p IH|p IH|]; cbn; rewrite ?IH; done. Qed.

Definition write `{Countable A} (a : A) : string := bits (encode a).
Definition read `{Countable A} (s : string) : option A := p ← unbits s; decode p.
Lemma read_write `{Countable A} (a : A) : read (write a) = Some a.
Proof. unfold read, write. rewrite unbits_bits. cbn. apply decode_encode. Qed.

(** Most significant bit first, [w] digits: a format whose text order is the
    numeric order. *)
Fixpoint fixed (w : nat) (n : Z) : string :=
  match w with
  | O => ""
  | S w => if 2 ^ Z.of_nat w <=? n
           then String "1" (fixed w (n - 2 ^ Z.of_nat w))
           else String "0" (fixed w n)
  end.
Fixpoint unfixed (s : string) : option (nat * Z) :=
  match s with
  | "" => Some (O, 0)
  | String "0" s => p ← unfixed s; Some (S p.1, p.2)
  | String "1" s => p ← unfixed s; Some (S p.1, 2 ^ Z.of_nat p.1 + p.2)
  | _ => None
  end.

Lemma unfixed_fixed w n : 0 ≤ n < 2 ^ Z.of_nat w → unfixed (fixed w n) = Some (w, n).
Proof.
  revert n; induction w as [|w IH]; intros n Hn.
  - cbn in *. do 2 f_equal. lia.
  - rewrite Nat2Z.inj_succ, Z.pow_succ_r in Hn by lia. cbn [fixed].
    destruct (Z.leb_spec (2 ^ Z.of_nat w) n); cbn [unfixed]; rewrite IH by lia; cbn;
      do 2 f_equal; lia.
Qed.

Lemma compare_sub n m k : Z.compare (n - k) (m - k) = Z.compare n m.
Proof. destruct (Z.compare_spec (n - k) (m - k)), (Z.compare_spec n m); done || lia. Qed.

Lemma bit_cmp s t :
  string_cmp (String "0" s) (String "0" t) = string_cmp s t
  ∧ string_cmp (String "1" s) (String "1" t) = string_cmp s t
  ∧ string_cmp (String "0" s) (String "1" t) = Lt
  ∧ string_cmp (String "1" s) (String "0" t) = Gt.
Proof. done. Qed.

Lemma fixed_order w n m : 0 ≤ n < 2 ^ Z.of_nat w → 0 ≤ m < 2 ^ Z.of_nat w →
  string_cmp (fixed w n) (fixed w m) = Z.compare n m.
Proof.
  revert n m; induction w as [|w IH]; intros n m Hn Hm.
  - cbn in *. symmetry. apply Z.compare_eq_iff. lia.
  - rewrite Nat2Z.inj_succ, Z.pow_succ_r in Hn, Hm by lia. cbn [fixed].
    destruct (bit_cmp (fixed w n) (fixed w m)) as (E & _).
    destruct (bit_cmp (fixed w (n - 2 ^ Z.of_nat w)) (fixed w (m - 2 ^ Z.of_nat w))) as (_ & F & _).
    destruct (bit_cmp (fixed w n) (fixed w (m - 2 ^ Z.of_nat w))) as (_ & _ & G & _).
    destruct (bit_cmp (fixed w (n - 2 ^ Z.of_nat w)) (fixed w m)) as (_ & _ & _ & K).
    destruct (Z.leb_spec (2 ^ Z.of_nat w) n), (Z.leb_spec (2 ^ Z.of_nat w) m);
      rewrite ?E, ?F, ?G, ?K, ?IH by lia.
    + apply compare_sub.
    + symmetry. apply Z.compare_gt_iff. lia.
    + symmetry. apply Z.compare_lt_iff. lia.
    + done.
Qed.

#[export] Instance spec_float_countable : Countable spec_float.
Proof.
  refine (inj_countable'
    (λ f, match f with
          | S754_zero s => inl s
          | S754_infinity s => inr (inl s)
          | S754_nan => inr (inr None)
          | S754_finite s m e => inr (inr (Some (s, m, e)))
          end)
    (λ x, match x with
          | inl s => S754_zero s
          | inr (inl s) => S754_infinity s
          | inr (inr None) => S754_nan
          | inr (inr (Some (s, m, e))) => S754_finite s m e
          end) _).
  by intros [].
Defined.

#[export] Instance Number_countable : Countable Number.
Proof.
  refine (inj_countable'
    (λ n, match n with PosInt n => inl n | NegInt n => inr (inl n) | Float f => inr (inr f) end)
    (λ x, match x with inl n => PosInt n | inr (inl n) => NegInt n | inr (inr f) => Float f end) _).
  by intros [].
Defined.

Abbreviation leaf := (unit + bool + Number + string)%type.
Fixpoint to_tree (v : Value) : gen_tree leaf :=
  match v with
  | VNull => GenLeaf (inl (inl (inl tt)))
  | VBool b => GenLeaf (inl (inl (inr b)))
  | VNumber n => GenLeaf (inl (inr n))
  | VString s => GenLeaf (inr s)
  | VArray l => GenNode 0 (map to_tree l)
  | VObject m => GenNode 1
      (map (λ kv, GenNode 2 [GenLeaf (inr kv.1); to_tree kv.2]) m)
  end.
Fixpoint of_tree (t : gen_tree leaf) : Value :=
  match t with
  | GenLeaf (inl (inl (inl _))) => VNull
  | GenLeaf (inl (inl (inr b))) => VBool b
  | GenLeaf (inl (inr n)) => VNumber n
  | GenLeaf (inr s) => VString s
  | GenNode 0 l => VArray (map of_tree l)
  | GenNode _ l => VObject
      (map (λ t, match t with
                 | GenNode _ [GenLeaf (inr k); x] => (k, of_tree x)
                 | _ => ("", VNull)
                 end) l)
  end.
Lemma of_to_tree v : of_tree (to_tree v) = v.
Proof.
  induction v as [| | | |l IH|m IH] using value_ind'; cbn; try done; f_equal.
  - induction IH as [|x l Hx _ IH]; cbn; [done|]. by rewrite Hx, IH.
  - induction IH as [|[k x] m Hx _ IH]; cbn in *; [done|]. by rewrite Hx, IH.
Qed.
#[export] Instance Value_eq_dec : EqDecision Value.
Proof.
  refine (λ v w, cast_if (decide (to_tree v = to_tree w))).
  - by rewrite <-(of_to_tree v), e, of_to_tree.
  - by intros ->.
Defined.
#[export] Instance Value_countable : Countable Value :=
  inj_countable' to_tree of_tree of_to_tree.

Definition stamp (t : DateTime) : string := fixed 70 (t - min_rfc3339).
Definition unstamp (s : string) : option DateTime :=
  p ← unfixed s; Some (p.2 + min_rfc3339).
Definition parse_checked (s : string) : option Value :=
  v ← read s; if value_wf v then Some v else None.
(** A 32-byte digest: the input cut or padded. *)
Definition digest (l : list ascii) : list ascii := take 32 (l ++ replicate 32 "0"%char).

#[export] Instance platform : Platform := {|
  Uuid := positive;
  uuid_to_string := write;
  uuid_parse := read;
  rfc3339_nanos := stamp;
  rfc3339 := stamp;
  parse_rfc3339 := unstamp;
  json_to_string v := Some (write v);
  json_from_str := parse_checked;
  sqlite_json_valid s := match parse_checked s with Some _ => true | None => false end;
  sha256 := digest;
|}.

Lemma stamp_range t : clock_ok t → 0 ≤ t - min_rfc3339 < 2 ^ Z.of_nat 70.
Proof.
  unfold clock_ok. intros [H1 H2]. split; [lia|].
  apply (Z.lt_trans _ (max_rfc3339 - min_rfc3339)); [lia|by vm_compute].
Qed.
Lemma unstamp_stamp t : clock_ok t → unstamp (stamp t) = Some t.
Proof.
  intros H. unfold unstamp, stamp. rewrite unfixed_fixed by (by apply stamp_range).
  cbn. f_equal. lia.
Qed.

#[export] Instance laws : PlatformLaws platform.
Proof.
  split; unfold uuid_parse, uuid_to_string, parse_rfc3339, rfc3339_nanos, rfc3339,
    json_to_string, json_from_str, sha256, sqlite_json_valid, platform.
  - apply read_write.
  - apply unstamp_stamp.
  - intros t u Ht Hu. unfold stamp. rewrite fixed_order by (by apply stamp_range).
    apply compare_sub.
  - intros t u Ht Hu H. apply (f_equal unstamp) in H.
    rewrite !unstamp_stamp in H by done. by injection H.
  - intros v _. by eexists.
  - intros s v. unfold parse_checked. destruct (read s) as [w|]; cbn; [|done].
    destruct (value_wf w) eqn:E; [|done]. by intros [= <-].
  - intros v s [Hw _]%andb_true_iff [= <-]. unfold parse_checked.
    rewrite read_write. cbn. by rewrite Hw.
  - intros v s Hw [= <-]. unfold parse_checked. rewrite read_write. cbn. by rewrite Hw.
  - intros l. unfold digest. rewrite length_take, length_app, length_replicate. lia.
Qed.
End Reference.
