(* ===== verification/Canonical.v ===== *)
(** * Canonical JSON (src-tauri/src/operations/canonicalize.rs)

    [canonical_value] sorts every object by key; [CanonicalJson] pairs the
    compact text of the canonical value with the lowercase SHA-256 of its bytes.
    The canonical form is the normal form of the order-insensitive equality of
    JSON values. *)

From S2P Require Export External.

Section canonical_value.

(** [canonical_value]: the entries are visited in key order and inserted one
    by one into a fresh map. *)
Fixpoint canonical_value (value : Value) : Value :=
  match value with
  | VArray values => VArray (map canonical_value values)
  | VObject values =>
      let canonicals := map (λ kv, (kv.1, canonical_value kv.2)) values in
      let keys := sort_by string_cmp values.*1 in
      VObject (foldl (λ canonical key,
        match assoc key canonicals with
        | Some v => map_insert key v canonical
        | None => canonical
        end) [] keys)
  | VNull | VBool _ | VNumber _ | VString _ => value
  end.

Abbreviation canon_entry := (λ kv : string * Value, (kv.1, canonical_value kv.2)).

Lemma canon_fold (c : list (string * Value)) (pre s : list (string * Value)) :
  NoDup c.*1 → NoDup (pre ++ s).*1 → (∀ kv, kv ∈ s → kv ∈ c) →
  foldl (λ canonical key,
    match assoc key c with Some v => map_insert key v canonical | None => canonical end)
    pre s.*1 = pre ++ s.
Proof.
  intros Hc. revert pre; induction s as [|[k v] s IH]; intros pre Hn Hin; cbn.
  - by rewrite app_nil_r.
  - rewrite (assoc_in k v c) by (done || apply Hin; left).
    rewrite map_insert_fresh.
    + rewrite IH, <-app_assoc; [done| |].
      * by rewrite <-app_assoc.
      * intros kv Hkv. apply Hin. by right.
    + rewrite fmap_app in Hn. apply NoDup_app in Hn as (_ & Hn & _).
      intros Hk. apply (Hn k Hk). cbn. left.
Qed.

Lemma canon_entry_keys m : (canon_entry <$> m).*1 = m.*1.
Proof. rewrite <-list_fmap_compose. by apply list_fmap_ext. Qed.

(** On a well-formed object the loop computes the entries sorted by key. *)
Lemma canonical_object m :
  NoDup m.*1 → canonical_value (VObject m) = VObject (sort_by key_cmp (canon_entry <$> m)).
Proof.
  intros Hn. cbn [canonical_value]. f_equal.
  rewrite <-(canon_entry_keys m), <-sort_keys_fst.
  apply (canon_fold (canon_entry <$> m) []).
  - by rewrite canon_entry_keys.
  - cbn. by rewrite sort_keys_fst, sort_by_perm, canon_entry_keys.
  - intros kv. by rewrite sort_by_perm.
Qed.

Lemma canonical_wf v : value_wf v = true → value_wf (canonical_value v) = true.
Proof.
  induction v as [| | | |l IH|m IH] using value_ind'; try done.
  - cbn. rewrite !forallb_Forall, Forall_map. intros H. decompose_Forall; auto.
  - rewrite object_wf. intros [Hn Hw]. rewrite canonical_object by done.
    apply object_wf. split; [by rewrite sort_by_perm, canon_entry_keys|].
    rewrite sort_by_perm, Forall_fmap. decompose_Forall; cbn; auto.
Qed.

Lemma canonical_float_free v :
  value_wf v = true → float_free v = true → float_free (canonical_value v) = true.
Proof.
  induction v as [| | | |l IH|m IH] using value_ind'; try done.
  - cbn. rewrite !forallb_Forall, Forall_map. intros H ?. decompose_Forall; auto.
  - rewrite object_wf. intros [Hn Hw] Hf. rewrite canonical_object by done.
    cbn in *. rewrite forallb_Forall in *.
    rewrite sort_by_perm, Forall_fmap. decompose_Forall; cbn; auto.
Qed.

Lemma canonical_exact v : value_exact v = true → value_exact (canonical_value v) = true.
Proof.
  unfold value_exact. rewrite !andb_true_iff. intros [Hw Hf].
  auto using canonical_wf, canonical_float_free.
Qed.

Lemma canonical_idem v :
  value_wf v = true → canonical_value (canonical_value v) = canonical_value v.
Proof.
  induction v as [| | | |l IH|m IH] using value_ind'; try done.
  - cbn. rewrite forallb_Forall. intros H. f_equal. rewrite map_map.
    apply (Forall_fmap_ext_1 (λ v, canonical_value (canonical_value v))).
    decompose_Forall; auto.
  - rewrite object_wf. intros [Hn Hw]. rewrite (canonical_object m) by done.
    rewrite canonical_object by (by rewrite sort_by_perm, canon_entry_keys).
    f_equal. rewrite sort_keys_map, (sort_by_idem key_cmp). f_equal.
    rewrite <-list_fmap_compose. apply Forall_fmap_ext_1.
    decompose_Forall. cbn. f_equal. auto.
Qed.

Lemma number_eqb_exact a b :
  float_free (VNumber a) = true → number_eqb a b = true ↔ a = b.
Proof.
  destruct a, b; cbn; try naive_solver; intros _; rewrite Z.eqb_eq; naive_solver.
Qed.

Lemma canon_eqb_array l :
  Forall (λ v, ∀ w, value_exact v = true → value_exact w = true →
               value_eqb v w = true ↔ canonical_value v = canonical_value w) l →
  ∀ l', Forall (λ v, value_exact v = true) l → Forall (λ v, value_exact v = true) l' →
  value_eqb (VArray l) (VArray l') = true ↔ map canonical_value l = map canonical_value l'.
Proof.
  induction 1 as [|x l Hx _ IH]; intros [|y l'] He He'; try done.
  inversion He; inversion He'; subst.
  change (value_eqb (VArray (x :: l)) (VArray (y :: l')))
    with (value_eqb x y && value_eqb (VArray l) (VArray l')).
  rewrite andb_true_iff, Hx, IH by done. cbn. split; [intros [-> ->]; done|].
  intros H. injection H. auto.
Qed.

Lemma canon_eqb_object m m' :
  Forall (λ kv, ∀ w, value_exact kv.2 = true → value_exact w = true →
               value_eqb kv.2 w = true ↔ canonical_value kv.2 = canonical_value w) m →
  NoDup m.*1 → NoDup m'.*1 →
  Forall (λ kv, value_exact kv.2 = true) m → Forall (λ kv, value_exact kv.2 = true) m' →
  value_eqb (VObject m) (VObject m') = true ↔ canon_entry <$> m ≡ₚ canon_entry <$> m'.
Proof.
  intros IH Hn Hn' He He'. cbn. rewrite andb_true_iff, Nat.eqb_eq, forallb_Forall.
  assert (∀ m : list (string * Value), NoDup m.*1 → NoDup (canon_entry <$> m)) as Hnd.
  { intros m0 H0. apply (NoDup_fmap_1 fst). by rewrite canon_entry_keys. }
  split.
  - intros [Hlen Hall]. apply submseteq_length_Permutation; [|by rewrite !length_fmap, Hlen].
    apply NoDup_submseteq; [by apply Hnd|].
    intros [k c] ([k' x] & [= -> ->] & Hx)%list_elem_of_fmap.
    rewrite Forall_forall in IH, He, He', Hall. specialize (Hall _ Hx). cbn in Hall.
    destruct (assoc k' m') as [y|] eqn:Ey; [|done]. apply assoc_Some_in in Ey.
    apply list_elem_of_fmap. exists (k', y). split; [|done]. cbn. f_equal.
    apply (IH _ Hx y); [apply (He _ Hx)|apply (He' _ Ey)|done].
  - intros Hp. split; [by apply Permutation_length in Hp; rewrite !length_fmap in Hp|].
    apply Forall_forall. intros [k x] Hx. cbn.
    assert ((k, canonical_value x) ∈ canon_entry <$> m') as Hc.
    { rewrite <-Hp. apply list_elem_of_fmap. by exists (k, x). }
    apply list_elem_of_fmap in Hc as ([k' y] & [= <- Hc] & Hy).
    rewrite (assoc_in k y m') by done. rewrite Forall_forall in IH, He, He'.
    by apply (IH _ Hx y (He _ Hx) (He' _ Hy)).
Qed.

(** Two values are equal up to the order of entries exactly when their
    canonical forms are identical. *)
Lemma canonical_normal_form v w :
  value_exact v = true → value_exact w = true →
  value_eqb v w = true ↔ canonical_value v = canonical_value w.
Proof.
  revert w; induction v as [|b|n|s|l IH|m IH] using value_ind'; intros w Hv Hw;
    destruct w as [|b'|n'|s'|l'|m'];
    try (cbn; split; intros; (done || congruence || discriminate); fail).
  - cbn. rewrite Bool.eqb_true_iff. split; congruence.
  - cbn -[number_eqb]. apply andb_true_iff in Hv as [_ Hv].
    rewrite number_eqb_exact by done. split; congruence.
  - cbn. rewrite String.eqb_eq. split; congruence.
  - rewrite canon_eqb_array; [cbn; split; congruence|done| |]; by apply array_exact.
  - apply object_exact in Hv as [Hn Hv]. apply object_exact in Hw as [Hn' Hw].
    rewrite canon_eqb_object by done. rewrite !canonical_object by done. split.
    + intros Hp. f_equal. apply sort_keys_perm; [by rewrite canon_entry_keys|done].
    + intros [= H]. by rewrite <-(sort_by_perm key_cmp (canon_entry <$> m)), H, sort_by_perm.
Qed.
End canonical_value.

(** ** [CanonicalJson] *)

Section canonical_json.
Context {P : Platform}.

Record CanonicalJson := { cj_json : string; cj_sha256 : string }.

Definition lower_hex (bytes : list ascii) : string := of_bytes (hex_bytes bytes).

Definition from_value (value : Value) : AppResult CanonicalJson :=
  json ← ok_or Serialization (json_to_string (canonical_value value));
  Ok {| cj_json := json; cj_sha256 := lower_hex (sha256 (bytes_of json)) |}.

Definition from_stored (json expected_sha256 : string) : AppResult CanonicalJson :=
  value ← ok_or Serialization (json_from_str json);
  canonical ← from_value value;
  if negb (cj_json canonical =? json)%string
     || negb (cj_sha256 canonical =? expected_sha256)%string
  then Err (Config "stored operation payload failed canonical integrity validation")
  else Ok canonical.

Definition into_value (c : CanonicalJson) : AppResult Value :=
  ok_or Serialization (json_from_str (cj_json c)).

Definition canonical_json (value : Value) : AppResult string :=
  cj_json <$> from_value value.

Definition canonical_hash (value : Value) : AppResult string :=
  cj_sha256 <$> from_value value.

Lemma from_value_total `{!PlatformLaws P} v :
  value_wf v = true → ∃ c, from_value v = Ok c.
Proof.
  intros Hw. destruct (json_total (canonical_value v)) as [s Hs]; [by apply canonical_wf|].
  unfold from_value. rewrite Hs. cbn. eauto.
Qed.

Lemma from_value_sha v c :
  from_value v = Ok c → cj_sha256 c = lower_hex (sha256 (bytes_of (cj_json c))).
Proof. unfold from_value. intros H. inv_res. done. Qed.

Lemma from_value_json v c :
  from_value v = Ok c → json_to_string (canonical_value v) = Some (cj_json c).
Proof. unfold from_value. intros H. inv_res. done. Qed.

Lemma from_value_canonical v : value_wf v = true → from_value (canonical_value v) = from_value v.
Proof. intros H. unfold from_value. by rewrite canonical_idem. Qed.

Lemma from_stored_Ok j h c :
  from_stored j h = Ok c ↔
  ∃ v, json_from_str j = Some v ∧ from_value v = Ok c ∧ cj_json c = j ∧ cj_sha256 c = h.
Proof.
  unfold from_stored. split.
  - intros H. inv_res. bools. exists x. subst. done.
  - intros (v & Hv & Hc & <- & <-). rewrite Hv. cbn. rewrite Hc. cbn.
    by rewrite !String.eqb_refl.
Qed.

(** What [from_value] produced is accepted back, and yields the canonical value. *)
Lemma from_stored_from_value `{!PlatformLaws P} v c :
  value_exact v = true → from_value v = Ok c →
  from_stored (cj_json c) (cj_sha256 c) = Ok c ∧ into_value c = Ok (canonical_value v).
Proof.
  intros Hv Hc. assert (json_from_str (cj_json c) = Some (canonical_value v)) as Hj.
  { apply json_roundtrip; [by apply canonical_exact|by apply from_value_json]. }
  split.
  - apply from_stored_Ok. exists (canonical_value v). repeat split; [done|].
    rewrite from_value_canonical; [done|]. by apply andb_true_iff in Hv as [? _].
  - unfold into_value. by rewrite Hj.
Qed.

(** A stored text is accepted only with the digest of its own bytes. *)
Lemma from_stored_digest j h c :
  from_stored j h = Ok c → cj_json c = j ∧ h = lower_hex (sha256 (bytes_of j)).
Proof.
  rewrite from_stored_Ok. intros (v & _ & Hc & <- & <-). eauto using from_value_sha.
Qed.

Lemma lower_hex_is_sha `{!PlatformLaws P} l : is_sha256_hex (lower_hex (sha256 l)) = true.
Proof.
  unfold is_sha256_hex, lower_hex, str_len.
  rewrite <-bytes_of_length, list_ascii_of_string_of_list_ascii, hex_bytes_lower,
    hex_bytes_length, sha256_length. done.
Qed.

Lemma lower_hex_inj l l' : lower_hex l = lower_hex l' → l = l'.
Proof.
  intros H. apply (f_equal bytes_of) in H. unfold lower_hex in H.
  rewrite !list_ascii_of_string_of_list_ascii in H. by apply hex_bytes_inj.
Qed.

(** These very inputs differ and have the same SHA-256 digest (some such pair
    exists, since digests are short; the theorems name the one at hand). *)
Definition collide (x y : list ascii) : Prop := x ≠ y ∧ sha256 x = sha256 y.
Definition texts_collide (s t : string) : Prop := collide (bytes_of s) (bytes_of t).
(** ... the canonical texts of two values. *)
Definition values_collide (v w : Value) : Prop :=
  ∃ s t, canonical_json v = Ok s ∧ canonical_json w = Ok t ∧ texts_collide s t.

Lemma digest_inj x y : lower_hex (sha256 x) = lower_hex (sha256 y) → x = y ∨ collide x y.
Proof. intros H%lower_hex_inj. destruct (decide (x = y)); [by left|by right]. Qed.

Lemma text_digest_inj s t :
  lower_hex (sha256 (bytes_of s)) = lower_hex (sha256 (bytes_of t)) → s = t ∨ texts_collide s t.
Proof.
  intros [H|H]%digest_inj; [left|by right]. apply (f_equal of_bytes) in H.
  by rewrite !string_of_list_ascii_of_string in H.
Qed.

(** Equal payloads (entries in any order) have the same text and the same
    digest; distinct payloads have distinct texts. *)
Lemma from_value_eq `{!PlatformLaws P} v w :
  value_exact v = true → value_exact w = true →
  value_eqb v w = true ↔ from_value v = from_value w.
Proof.
  intros Hv Hw. rewrite canonical_normal_form by done. split.
  - intros H. unfold from_value. by rewrite H.
  - intros H. destruct (from_value_total v) as [c Hc]; [by apply andb_true_iff in Hv as [? _]|].
    pose proof Hc as Hc'. rewrite H in Hc'.
    apply from_value_json in Hc, Hc'.
    by eapply json_to_string_inj; eauto using canonical_exact.
Qed.
End canonical_json.
