(* ===== verification/Operation.v ===== *)
(** * Operation vocabulary and the lifecycle state machine

    dopedb-protocol/src/operation.rs (kinds, states, events, risk),
    src-tauri/src/operations/state_machine.rs ([ensure_transition],
    [restart_recovery]) and src-tauri/src/operations/model.rs (the durable
    records and their text codecs). *)

From S2P Require Export Canonical.

Module OperationKind.
Inductive t :=
| ReadQuery | DocumentRead | WriteSql | Ddl | Privilege | SqlScript
| TableDataChange | SchemaChange | Import | Export | Migration
| DashboardCreate | PluginAction | ProviderAction.

Definition is_read (self : t) : bool :=
  match self with ReadQuery | DocumentRead => true | _ => false end.

Definition is_resumable_job (self : t) : bool :=
  match self with Import | Export => true | _ => false end.

Definition may_mutate_target (self : t) : bool :=
  match self with
  | WriteSql | Ddl | Privilege | SqlScript | TableDataChange | SchemaChange
  | Import | Migration | PluginAction | ProviderAction => true
  | _ => false
  end.

#[export] Instance eq_dec : EqDecision t.
Proof. solve_decision. Defined.
End OperationKind.

Module OperationActorKind.
Inductive t := LocalUser | WorkspaceUser | Agent | Plugin | System.
#[export] Instance eq_dec : EqDecision t.
Proof. solve_decision. Defined.
End OperationActorKind.

Module OperationState.
Inductive t :=
| Planned | PendingApproval | Ready | Approved | Rejected | Expired
| Cancelled | Executing | Succeeded | Failed | OutcomeUnknown.

Definition is_terminal (self : t) : bool :=
  match self with
  | Rejected | Expired | Cancelled | Succeeded | Failed | OutcomeUnknown => true
  | _ => false
  end.

#[export] Instance eq_dec : EqDecision t.
Proof. solve_decision. Defined.
End OperationState.

Module OperationEventKind.
Inductive t :=
| Proposed | Planned | ApprovalRequested | Approved | Rejected
| ExecutionStarted | Progress | Succeeded | Failed | Cancelled
| OutcomeUnknown | Expired.
#[export] Instance eq_dec : EqDecision t.
Proof. solve_decision. Defined.
End OperationEventKind.

Module OperationRiskLevel.
Inductive t := Low | Medium | High | Critical.
#[export] Instance eq_dec : EqDecision t.
Proof. solve_decision. Defined.
End OperationRiskLevel.

Module OperationApprovalDecision.
Inductive t := Approved | Rejected.
#[export] Instance eq_dec : EqDecision t.
Proof. solve_decision. Defined.
End OperationApprovalDecision.

Export OperationKind OperationActorKind OperationState OperationEventKind
  OperationRiskLevel OperationApprovalDecision (eq_dec).

(** ** state_machine.rs *)

Module StateMachine.
Import OperationState.

Record TransitionError := { te_from : OperationState.t; te_to : OperationState.t }.

Inductive RestartRecovery :=
| KeepTerminal | Expire | MarkFailed | OutcomeUnknown | ValidateJobCheckpoint.

Definition ensure_transition (from to : OperationState.t) : result TransitionError unit :=
  let allowed :=
    match from, to with
    | Planned, (PendingApproval | Ready | Cancelled | Expired)
    | PendingApproval, (Approved | Rejected | Cancelled | Expired)
    | (Ready | Approved), (Executing | Cancelled | Expired)
    | Executing, (Succeeded | Failed | Cancelled | OperationState.OutcomeUnknown) => true
    | _, _ => false
    end in
  if allowed then Ok tt else Err {| te_from := from; te_to := to |}.

Definition restart_recovery (kind : OperationKind.t) (state : OperationState.t)
  : RestartRecovery :=
  if is_terminal state then KeepTerminal
  else if negb (bool_decide (state = Executing)) then Expire
  else if OperationKind.is_resumable_job kind then ValidateJobCheckpoint
  else if OperationKind.may_mutate_target kind then OutcomeUnknown
  else MarkFailed.

(** The transition relation of the lifecycle. *)
Definition step (from to : OperationState.t) : Prop := ensure_transition from to = Ok tt.
#[export] Instance step_dec s t : Decision (step s t).
Proof. refine (match ensure_transition s t as r return {r = Ok tt} + {r ≠ Ok tt} with
  | Ok tt => left eq_refl | Err _ => right _ end); done. Defined.

(** Longest distance to a terminal state. *)
Definition rank (s : OperationState.t) : nat :=
  match s with
  | Planned => 4 | PendingApproval => 3 | Ready | Approved => 2 | Executing => 1 | _ => 0
  end.

Lemma step_rank s t : step s t → (rank t < rank s)%nat.
Proof. unfold step. destruct s, t; cbn; (discriminate || lia). Qed.

Lemma terminal_no_step s t : is_terminal s = true → ¬ step s t.
Proof. unfold step. destruct s, t; cbn; congruence. Qed.

Lemma nonterminal_cancellable s : is_terminal s = false → step s Cancelled.
Proof. by destruct s. Qed.

Lemma step_Executing s : step s Executing → s = Ready ∨ s = Approved.
Proof. unfold step. destruct s; cbn; (discriminate || auto). Qed.

Lemma step_Approved s : step s Approved → s = PendingApproval.
Proof. unfold step. destruct s; cbn; (discriminate || auto). Qed.

Lemma step_not_Planned s : ¬ step s Planned.
Proof. by destruct s. Qed.

(** Paths of the state machine from [Planned]. *)
Inductive path : list OperationState.t → Prop :=
| path_start : path [Planned]
| path_step l s t : path (l ++ [s]) → step s t → path (l ++ [s; t]).
End StateMachine.

(** ** model.rs: text codecs *)

Section codecs.
Import OperationKind OperationActorKind OperationState OperationEventKind
  OperationRiskLevel OperationApprovalDecision.

Definition actor_kind_str (value : OperationActorKind.t) : string :=
  match value with
  | LocalUser => "local_user"
  | WorkspaceUser => "workspace_user"
  | Agent => "agent"
  | Plugin => "plugin"
  | System => "system"
  end.

Definition parse_actor_kind (value : string) : option OperationActorKind.t :=
  match value with
  | "local_user" => Some LocalUser
  | "workspace_user" => Some WorkspaceUser
  | "agent" => Some Agent
  | "plugin" => Some Plugin
  | "system" => Some System
  | _ => None
  end.

Definition approval_decision_str (value : OperationApprovalDecision.t) : string :=
  match value with
  | OperationApprovalDecision.Approved => "approved"
  | OperationApprovalDecision.Rejected => "rejected"
  end.

Definition parse_approval_decision (value : string) : option OperationApprovalDecision.t :=
  match value with
  | "approved" => Some OperationApprovalDecision.Approved
  | "rejected" => Some OperationApprovalDecision.Rejected
  | _ => None
  end.

Definition operation_kind_str (value : OperationKind.t) : string :=
  match value with
  | ReadQuery => "read_query"
  | DocumentRead => "document_read"
  | WriteSql => "write_sql"
  | Ddl => "ddl"
  | Privilege => "privilege"
  | SqlScript => "sql_script"
  | TableDataChange => "table_data_change"
  | SchemaChange => "schema_change"
  | Import => "import"
  | Export => "export"
  | Migration => "migration"
  | DashboardCreate => "dashboard_create"
  | PluginAction => "plugin_action"
  | ProviderAction => "provider_action"
  end.

Definition parse_operation_kind (value : string) : option OperationKind.t :=
  match value with
  | "read_query" => Some ReadQuery
  | "document_read" => Some DocumentRead
  | "write_sql" => Some WriteSql
  | "ddl" => Some Ddl
  | "privilege" => Some Privilege
  | "sql_script" => Some SqlScript
  | "table_data_change" => Some TableDataChange
  | "schema_change" => Some SchemaChange
  | "import" => Some Import
  | "export" => Some Export
  | "migration" => Some Migration
  | "dashboard_create" => Some DashboardCreate
  | "plugin_action" => Some PluginAction
  | "provider_action" => Some ProviderAction
  | _ => None
  end.

Definition risk_level_str (value : OperationRiskLevel.t) : string :=
  match value with Low => "low" | Medium => "medium" | High => "high" | Critical => "critical" end.

Definition parse_risk_level (value : string) : option OperationRiskLevel.t :=
  match value with
  | "low" => Some Low
  | "medium" => Some Medium
  | "high" => Some High
  | "critical" => Some Critical
  | _ => None
  end.

Definition state_str (value : OperationState.t) : string :=
  match value with
  | OperationState.Planned => "planned"
  | PendingApproval => "pending_approval"
  | Ready => "ready"
  | OperationState.Approved => "approved"
  | OperationState.Rejected => "rejected"
  | OperationState.Expired => "expired"
  | OperationState.Cancelled => "cancelled"
  | Executing => "executing"
  | OperationState.Succeeded => "succeeded"
  | OperationState.Failed => "failed"
  | OperationState.OutcomeUnknown => "outcome_unknown"
  end.

Definition parse_state (value : string) : option OperationState.t :=
  match value with
  | "planned" => Some OperationState.Planned
  | "pending_approval" => Some PendingApproval
  | "ready" => Some Ready
  | "approved" => Some OperationState.Approved
  | "rejected" => Some OperationState.Rejected
  | "expired" => Some OperationState.Expired
  | "cancelled" => Some OperationState.Cancelled
  | "executing" => Some Executing
  | "succeeded" => Some OperationState.Succeeded
  | "failed" => Some OperationState.Failed
  | "outcome_unknown" => Some OperationState.OutcomeUnknown
  | _ => None
  end.

Definition event_kind_str (value : OperationEventKind.t) : string :=
  match value with
  | Proposed => "proposed"
  | OperationEventKind.Planned => "planned"
  | ApprovalRequested => "approval_requested"
  | OperationEventKind.Approved => "approved"
  | OperationEventKind.Rejected => "rejected"
  | ExecutionStarted => "execution_started"
  | Progress => "progress"
  | OperationEventKind.Succeeded => "succeeded"
  | OperationEventKind.Failed => "failed"
  | OperationEventKind.Cancelled => "cancelled"
  | OperationEventKind.OutcomeUnknown => "outcome_unknown"
  | OperationEventKind.Expired => "expired"
  end.

Definition parse_event_kind (value : string) : option OperationEventKind.t :=
  match value with
  | "proposed" => Some Proposed
  | "planned" => Some OperationEventKind.Planned
  | "approval_requested" => Some ApprovalRequested
  | "approved" => Some OperationEventKind.Approved
  | "rejected" => Some OperationEventKind.Rejected
  | "execution_started" => Some ExecutionStarted
  | "progress" => Some Progress
  | "succeeded" => Some OperationEventKind.Succeeded
  | "failed" => Some OperationEventKind.Failed
  | "cancelled" => Some OperationEventKind.Cancelled
  | "outcome_unknown" => Some OperationEventKind.OutcomeUnknown
  | "expired" => Some OperationEventKind.Expired
  | _ => None
  end.
End codecs.

(** Inverting a [match] on string literals. *)
Ltac invert_literals H :=
  repeat (match type of H with
          | context [match ?s with _ => _ end] => is_var s; destruct s
          end; try discriminate H);
  injection H as <-; reflexivity.

Lemma state_codec s x : parse_state s = Some x ↔ s = state_str x.
Proof.
  split; [|by intros ->; destruct x]. unfold parse_state. intros H. invert_literals H.
Qed.
Lemma kind_codec s x : parse_operation_kind s = Some x ↔ s = operation_kind_str x.
Proof.
  split; [|by intros ->; destruct x]. unfold parse_operation_kind. intros H. invert_literals H.
Qed.
Lemma event_kind_codec s x : parse_event_kind s = Some x ↔ s = event_kind_str x.
Proof.
  split; [|by intros ->; destruct x]. unfold parse_event_kind. intros H. invert_literals H.
Qed.
Lemma actor_kind_codec s x : parse_actor_kind s = Some x ↔ s = actor_kind_str x.
Proof.
  split; [|by intros ->; destruct x]. unfold parse_actor_kind. intros H. invert_literals H.
Qed.
Lemma risk_codec s x : parse_risk_level s = Some x ↔ s = risk_level_str x.
Proof.
  split; [|by intros ->; destruct x]. unfold parse_risk_level. intros H. invert_literals H.
Qed.
Lemma decision_codec s x : parse_approval_decision s = Some x ↔ s = approval_decision_str x.
Proof.
  split; [|by intros ->; destruct x]. unfold parse_approval_decision. intros H.
  invert_literals H.
Qed.

(** ** model.rs: records *)

Record OperationActorProvenance := {
  local_account_id : option string;
  workspace_account_id : option string;
  agent_provider : option string;
  agent_model : option string;
  plugin_id : option string;
  plugin_version : option string;
  client_protocol_version : option Z;
  origin_surface : string;
}.

Record OperationActor := {
  actor_kind : OperationActorKind.t;
  actor_id : string;
  provenance : OperationActorProvenance;
}.

Record OperationApprover := {
  approver_kind : OperationActorKind.t;
  approver_id : string;
}.

#[export] Instance provenance_eq_dec : EqDecision OperationActorProvenance.
Proof. solve_decision. Defined.
#[export] Instance actor_eq_dec : EqDecision OperationActor.
Proof. solve_decision. Defined.

(** The code serde derives for [OperationActorProvenance] is generated: its
    serialiser and deserialiser are parameters with their round trip. *)
Class Serde := {
  provenance_to_value : OperationActorProvenance → Value;
  provenance_from_value : Value → option OperationActorProvenance;
}.
Class SerdeLaws (S : Serde) : Prop := {
  provenance_exact p : value_exact (provenance_to_value p) = true;
  provenance_roundtrip p :
    provenance_from_value (canonical_value (provenance_to_value p)) = Some p;
}.

Section records.
Context {P : Platform}.

Record NewOperation := {
  new_id : Uuid;
  new_workspace_id : Uuid;
  new_account_scope : string;
  new_connection_id : Uuid;
  new_connection_revision : Z;
  new_terminal_session_id : option Uuid;
  new_actor : OperationActor;
  new_kind : OperationKind.t;
  new_payload_schema_version : Z;
  new_payload : Value;
  new_schema_fingerprint : option string;
  new_risk_level : OperationRiskLevel.t;
  new_preview : Value;
  new_policy_snapshot : Value;
  new_policy_revision : string;
  new_single_use : bool;
  new_idempotency_key : string;
  new_expires_at : option DateTime;
}.

Record OperationApprovalCommand := {
  cmd_operation_id : Uuid;
  cmd_runtime_id : Uuid;
  cmd_expected_payload_hash : string;
  cmd_approver : OperationApprover;
  cmd_decision : OperationApprovalDecision.t;
  cmd_reason : option string;
  cmd_current_policy_revision : string;
  cmd_now : DateTime;
}.

Record OperationApprovalRecord := {
  ar_id : Uuid;
  ar_operation_id : Uuid;
  ar_payload_hash : string;
  ar_approver : OperationApprover;
  ar_decision : OperationApprovalDecision.t;
  ar_reason : option string;
  ar_policy_revision : string;
  ar_created_at : DateTime;
  ar_expires_at : option DateTime;
}.

Record OperationRecord := {
  op_id : Uuid;
  op_runtime_id : Uuid;
  op_workspace_id : Uuid;
  op_account_scope : string;
  op_connection_id : Uuid;
  op_connection_revision : Z;
  op_terminal_session_id : option Uuid;
  op_actor : OperationActor;
  op_kind : OperationKind.t;
  op_payload_schema_version : Z;
  op_payload : Value;
  op_payload_hash : string;
  op_schema_fingerprint : option string;
  op_risk_level : OperationRiskLevel.t;
  op_preview : Value;
  op_policy_snapshot : Value;
  op_policy_revision : string;
  op_state : OperationState.t;
  op_single_use : bool;
  op_idempotency_key : string;
  op_expires_at : option DateTime;
  op_started_at : option DateTime;
  op_finished_at : option DateTime;
  op_created_at : DateTime;
  op_updated_at : DateTime;
}.

Record OperationEventRecord := {
  ev_id : Uuid;
  ev_operation_id : Uuid;
  ev_sequence : Z;
  ev_kind : OperationEventKind.t;
  ev_state : OperationState.t;
  ev_details : Value;
  ev_created_at : DateTime;
  ev_prev_hash : option string;
  ev_hash : string;
}.

Record RestartRecoveryReport := {
  rr_expired : list Uuid;
  rr_failed : list Uuid;
  rr_outcome_unknown : list Uuid;
  rr_checkpoint_validation_required : list Uuid;
}.
End records.
