(* ===== verification/Model.v ===== *)
(** * Shared domain model (src-tauri/src/model.rs) and its store codecs

    The enums and records the safety, audit, session and service layers share,
    with the text codecs of src-tauri/src/store/mod.rs. *)

From S2P Require Export Operation.

Module Engine.
Inductive t := Postgres | Mysql | Sqlite | Mongodb.
#[global] Instance eq_dec : EqDecision t.
Proof. solve_decision. Defined.

(** Document engines have no SQL surface. *)
Definition is_document (self : t) : bool := match self with Mongodb => true | _ => false end.
End Engine.

Module QueryKind.
Inductive t := Read | Write | Ddl | Privilege.
#[global] Instance eq_dec : EqDecision t.
Proof. solve_decision. Defined.
End QueryKind.

Module QueryRisk.
Inductive t := Low | Medium | High.
#[global] Instance eq_dec : EqDecision t.
Proof. solve_decision. Defined.
End QueryRisk.

Record SafetySettings := {
  require_approval : bool;
  allow_writes : bool;
  wrap_writes_in_tx : bool;
  explain_preview : bool;
  auto_run_reads : bool;
  max_rows : Z;
  exec_preview_row_limit : Z;
}.

Definition default_settings : SafetySettings :=
  {| require_approval := true; allow_writes := false; wrap_writes_in_tx := true;
     explain_preview := true; auto_run_reads := true; max_rows := 1000;
     exec_preview_row_limit := 50000 |}.

Record Classification := {
  cl_kind : QueryKind.t;
  cl_risk : QueryRisk.t;
  cl_statement_count : Z;
  cl_no_where : bool;
  cl_tables : list string;
  cl_notes : list string;
  cl_rollback_safe : bool;
}.

(** One typed read of a document database; [Option] and [u64] fields. *)
Inductive DocumentQuery :=
| Find (collection : string) (filter projection sort : option Value) (skip limit : option Z)
| Aggregate (collection : string) (pipeline : list Value)
| Count (collection : string) (filter : option Value).

Record DocumentPage := {
  dp_documents : list Value;
  dp_doc_count : Z;
  dp_truncated : bool;
  dp_duration_ms : Z;
}.

(** ** Store codecs *)

Definition engine_str (e : Engine.t) : string :=
  match e with
  | Engine.Postgres => "postgres"
  | Engine.Mysql => "mysql"
  | Engine.Sqlite => "sqlite"
  | Engine.Mongodb => "mongodb"
  end.

Definition parse_engine (s : string) : AppResult Engine.t :=
  match s with
  | "postgres" => Ok Engine.Postgres
  | "mysql" => Ok Engine.Mysql
  | "sqlite" => Ok Engine.Sqlite
  | "mongodb" => Ok Engine.Mongodb
  | other => Err (Config ("unknown engine '" +:+ other +:+ "'"))
  end.

Definition kind_str (k : QueryKind.t) : string :=
  match k with
  | QueryKind.Read => "read"
  | QueryKind.Write => "write"
  | QueryKind.Ddl => "ddl"
  | QueryKind.Privilege => "privilege"
  end.

Definition parse_kind (s : string) : AppResult QueryKind.t :=
  match s with
  | "read" => Ok QueryKind.Read
  | "write" => Ok QueryKind.Write
  | "ddl" => Ok QueryKind.Ddl
  | "privilege" => Ok QueryKind.Privilege
  | other => Err (Config ("unknown query kind '" +:+ other +:+ "'"))
  end.

Lemma engine_codec e : parse_engine (engine_str e) = Ok e.
Proof. by destruct e. Qed.
Lemma query_kind_codec k : parse_kind (kind_str k) = Ok k.
Proof. by destruct k. Qed.
Lemma engine_str_inj e e' : engine_str e = engine_str e' → e = e'.
Proof. by destruct e, e'. Qed.
Lemma kind_str_inj k k' : kind_str k = kind_str k' → k = k'.
Proof. by destruct k, k'. Qed.

(** ** Resource scopes *)

Inductive AccountScope := Personal | WorkspaceUser (user_id : string).

Definition storage_key (self : AccountScope) : string :=
  match self with Personal => "personal" | WorkspaceUser user_id => user_id end.

#[export] Instance AccountScope_eq_dec : EqDecision AccountScope.
Proof. solve_decision. Defined.

(** ** Connections *)

Module Provider.
Inductive t := Auto | Generic | Neon | PlanetScale | GcpCloudSql.
End Provider.

Module WorkspaceKind.
Inductive t := Personal | Team.
End WorkspaceKind.

Module WorkspaceConnectionAccess.
Inductive t := View | Read | Write | Manage | Local.
#[export] Instance eq_dec : EqDecision t.
Proof. solve_decision. Defined.

Definition can_read (self : t) : bool :=
  match self with Read | Write | Manage | Local => true | View => false end.
Definition can_write (self : t) : bool :=
  match self with Write | Manage | Local => true | View | Read => false end.
Definition can_manage (self : t) : bool :=
  match self with Manage | Local => true | View | Read | Write => false end.

(** [#[serde(rename_all = "camelCase")]] *)
Definition serialize (self : t) : Value :=
  VString match self with
          | View => "view" | Read => "read" | Write => "write" | Manage => "manage"
          | Local => "local"
          end.
End WorkspaceConnectionAccess.

Module WorkspaceCredentialMode.
Inductive t := Local | MemberLocal | Managed.
Definition serialize (self : t) : Value :=
  VString match self with
          | Local => "local" | MemberLocal => "memberLocal" | Managed => "managed"
          end.
End WorkspaceCredentialMode.

Module CatalogCachePolicy.
Inductive t := Persistent | EphemeralOnly.
End CatalogCachePolicy.

(** [serde_json::to_value(&SafetySettings)] *)
Definition serialize_settings (s : SafetySettings) : Value :=
  VObject
    [("requireApproval", VBool (require_approval s));
     ("allowWrites", VBool (allow_writes s));
     ("wrapWritesInTx", VBool (wrap_writes_in_tx s));
     ("explainPreview", VBool (explain_preview s));
     ("autoRunReads", VBool (auto_run_reads s));
     ("maxRows", value_of_u64 (max_rows s));
     ("execPreviewRowLimit", value_of_i64 (exec_preview_row_limit s))].

Section scopes.
Context {P : Platform}.

Record ConnectionProfile := {
  cp_id : Uuid;
  cp_name : string;
  cp_engine : Engine.t;
  cp_provider : Provider.t;
  cp_driver_id : option string;
  cp_host : string;
  cp_port : Z;
  cp_database : string;
  cp_username : string;
  cp_sslmode : string;
  cp_extra_params : gmap string string;
  cp_readonly_default : bool;
  cp_allow_writes : bool;
  cp_secret_ref : option string;
  cp_env : option string;
  cp_schema_group : option string;
  cp_workspace_access : WorkspaceConnectionAccess.t;
  cp_credential_mode : WorkspaceCredentialMode.t;
}.

Record ActiveResourceScope := {
  sc_workspace_id : Uuid;
  sc_workspace_kind : WorkspaceKind.t;
  sc_selected_account_id : option string;
  sc_account_scope : AccountScope;
  sc_generation : Z;
}.

Record PinnedConnection := {
  pc_scope : ActiveResourceScope;
  pc_connection_id : Uuid;
  pc_connection_revision : Z;
  pc_binding_revision : Z;
  pc_binding_updated_at : string;
  pc_profile : ConnectionProfile;
  pc_requires_remote_rbac : bool;
  pc_catalog_cache_policy : CatalogCachePolicy.t;
}.
End scopes.
