(* ===== verification/SerdeJson.v ===== *)
(** * serde's derived conversions to and from [serde_json::Value]

    [#[derive(Serialize, Deserialize)]] on the structs and enums of the control
    protocol, as [serde_json::to_value] and [serde_json::from_value] run it: a
    struct is an object of its fields in declaration order, and is read back
    from an object (unknown fields denied) or from an array of its fields in
    order; a unit variant is a string, also accepted as an object with that one
    key and a null. *)

From S2P Require Export External.

(** ** Scalars *)

Definition de_u16 (v : Value) : option Z :=
  match v with
  | VNumber (PosInt n) => if n <=? u16_max then Some n else None
  | _ => None
  end.
Definition de_u32 (v : Value) : option Z :=
  match v with
  | VNumber (PosInt n) => if n <=? u32_max then Some n else None
  | _ => None
  end.
Definition de_u64 (v : Value) : option Z :=
  match v with VNumber (PosInt n) => Some n | _ => None end.
Definition de_i64 (v : Value) : option Z :=
  match v with VNumber n => number_as_i64 n | _ => None end.
Definition de_bool (v : Value) : option bool :=
  match v with VBool b => Some b | _ => None end.
Definition de_string (v : Value) : option string := as_str v.
Definition de_uuid {P : Platform} (v : Value) : option Uuid := s ← as_str v; uuid_parse s.

(** [Option<T>]: null is [None]. *)
Definition de_option {A} (de : Value → option A) (v : Value) : option (option A) :=
  match v with VNull => Some None | _ => Some <$> de v end.

(** A required field; a field with [#[serde(default)]]. *)
Definition required {A} (de : Value → option A) (field : option Value) : option A :=
  v ← field; de v.
Definition defaulted {A} (d : A) (de : Value → option A) (field : option Value) : option A :=
  match field with Some v => de v | None => Some d end.

(** [Vec<T>] *)
Definition de_list {A} (de : Value → option A) (v : Value) : option (list A) :=
  match v with VArray l => mapM de l | _ => None end.

(** chrono's [Serialize] and [Deserialize] for [DateTime<Utc>]. *)
Class ChronoSerde := {
  datetime_to_string : DateTime → string;
  datetime_from_str : string → option DateTime;
}.
Class ChronoSerdeLaws (C : ChronoSerde) : Prop := {
  datetime_roundtrip t : clock_ok t → datetime_from_str (datetime_to_string t) = Some t;
}.

(** ** Structs and enums *)

(** The fields of a struct in declaration order; [None] is a field that
    [skip_serializing_if] leaves out. *)
Definition compact (fields : list (string * option Value)) : list (string * Value) :=
  omap (λ kv, (λ v, (kv.1, v)) <$> kv.2) fields.
Definition ser_struct (fields : list (string * option Value)) : Value := VObject (compact fields).

Definition ser_list {A} (ser : A → Value) (l : list A) : Value := VArray (map ser l).

(** [deny_unknown_fields] *)
Definition known_fields (names : list string) (m : list (string * Value)) : bool :=
  forallb (λ kv, existsb (String.eqb kv.1) names) m.

(** [build] is given the value of each field, if present. *)
Definition de_struct {A} (names : list string) (build : (string → option Value) → option A)
  (v : Value) : option A :=
  match v with
  | VObject m => if known_fields names m then build (λ k, assoc k m) else None
  | VArray l => if (length l <=? length names)%nat then build (λ k, assoc k (zip names l)) else None
  | _ => None
  end.

Definition de_variant {A} (parse : string → option A) (v : Value) : option A :=
  match v with
  | VString s => parse s
  | VObject [(k, VNull)] => parse k
  | _ => None
  end.

(** ** Round trips *)

Lemma de_u16_roundtrip n : 0 ≤ n ≤ u16_max → de_u16 (value_of_u64 n) = Some n.
Proof. intros Hn. cbn. by destruct (Z.leb_spec n u16_max); [|lia]. Qed.

Lemma de_uuid_roundtrip {P : Platform} {L : PlatformLaws P} u :
  de_uuid (VString (uuid_to_string u)) = Some u.
Proof. cbn. apply uuid_roundtrip. Qed.

Lemma de_u32_roundtrip n : 0 ≤ n ≤ u32_max → de_u32 (value_of_u64 n) = Some n.
Proof. intros Hn. cbn. by destruct (Z.leb_spec n u32_max); [|lia]. Qed.

Lemma de_i64_roundtrip n : i64_min ≤ n ≤ i64_max → de_i64 (value_of_i64 n) = Some n.
Proof.
  intros Hn. unfold value_of_i64. destruct (Z.leb_spec 0 n); cbn; [|done].
  by destruct (Z.leb_spec n i64_max); [|lia].
Qed.

Lemma mapM_roundtrip {A} (ser : A → Value) (de : Value → option A) l :
  Forall (λ x, de (ser x) = Some x) l → mapM de (map ser l) = Some l.
Proof. induction 1 as [|x l Hx _ IH]; cbn; [done|]. by rewrite Hx; cbn; rewrite IH. Qed.

(** *** Fields *)

Lemma assoc_compact k fields :
  NoDup fields.*1 → assoc k (compact fields) = assoc k fields ≫= id.
Proof.
  induction fields as [|[k' o] fields IH]; cbn; [done|]. intros [Hk Hn]%NoDup_cons.
  destruct o as [v|]; cbn.
  - destruct (k =? k')%string; [done|by apply (IH Hn)].
  - change (omap _ fields) with (compact fields). rewrite (IH Hn).
    destruct (String.eqb_spec k k') as [->|]; cbn; [|done].
    by rewrite (proj2 (assoc_None k' fields)).
Qed.

Lemma compact_keys fields k v : (k, v) ∈ compact fields → (k, Some v) ∈ fields.
Proof.
  unfold compact. rewrite list_elem_of_omap. intros ([k' o] & Hin & Hv). cbn in Hv.
  destruct o as [w|]; [|done]. by injection Hv as -> ->.
Qed.

Lemma compact_NoDup fields : NoDup fields.*1 → NoDup (compact fields).*1.
Proof.
  induction fields as [|[k o] fields IH]; [constructor|]. cbn. intros [Hk Hn]%NoDup_cons.
  destruct o as [v|]; cbn; [|by apply IH]. constructor; [|by apply IH].
  change (omap _ fields) with (compact fields).
  intros ([k' w] & -> & Hin)%list_elem_of_fmap. apply Hk, list_elem_of_fmap.
  exists (k', Some w). split; [done|by apply compact_keys].
Qed.

(** Reading back what [ser_struct] wrote: every field is found, if it was
    written. *)
Lemma de_ser_struct {A} names (build : (string → option Value) → option A) fields :
  bool_decide (NoDup fields.*1) = true → forallb (λ k, existsb (String.eqb k) names) fields.*1 = true →
  de_struct names build (ser_struct fields) = build (λ k, assoc k (compact fields)).
Proof.
  intros Hn Hk. cbn. enough (known_fields names (compact fields) = true) as -> by done.
  unfold known_fields. apply forallb_Forall, Forall_forall. intros [k v] Hin%compact_keys.
  rewrite forallb_Forall, Forall_forall in Hk. apply Hk, list_elem_of_fmap.
  by exists (k, Some v).
Qed.

Lemma required_roundtrip {A} (ser : A → Value) de x :
  de (ser x) = Some x → required de (Some (ser x)) = Some x.
Proof. done. Qed.

Lemma defaulted_option_roundtrip {A} (ser : A → Value) de o :
  (∀ x, o = Some x → de (ser x) = Some x ∧ ser x ≠ VNull) →
  defaulted None (de_option de) (ser <$> o) = Some o.
Proof.
  intros Ho. destruct o as [x|]; [|done]. destruct (Ho x eq_refl) as [Hx Hne]. cbn.
  unfold de_option. rewrite Hx. by destruct (ser x).
Qed.

Lemma defaulted_list_roundtrip {A} (ser : A → Value) de l :
  Forall (λ x, de (ser x) = Some x) l →
  defaulted [] (de_list de) (Some (ser_list ser l)) = Some l.
Proof. apply mapM_roundtrip. Qed.

Lemma de_struct_Some {A} names (build : (string → option Value) → option A) v a :
  de_struct names build v = Some a → ∃ field, build field = Some a.
Proof. destruct v; cbn; intros; repeat case_match; by eauto. Qed.

Lemma defaulted_Some {A} (d : A) de field a :
  defaulted d de field = Some a → (field = None ∧ d = a) ∨ ∃ v, field = Some v ∧ de v = Some a.
Proof. destruct field; cbn; naive_solver. Qed.

Lemma de_option_inv {A} (de : Value → option A) v o :
  de_option de v = Some o → o = None ∨ ∃ a, o = Some a ∧ de v = Some a.
Proof.
  unfold de_option. destruct v; [intros [= <-]; by left|..]; intros (a & -> & ->)%fmap_Some;
    right; eauto.
Qed.

#[export] Hint Rewrite @de_uuid_roundtrip : serde.
#[export] Hint Rewrite de_u16_roundtrip using assumption : serde.

Lemma ser_struct_exact fields :
  bool_decide (NoDup fields.*1) = true →
  Forall (λ kv, match kv.2 with Some v => value_exact v = true | None => True end) fields →
  value_exact (ser_struct fields) = true.
Proof.
  intros Hn%bool_decide_eq_true Hf. apply object_exact. split.
  - by apply compact_NoDup.
  - apply Forall_forall. intros [k v] Hin%compact_keys. rewrite Forall_forall in Hf.
    apply (Hf _ Hin).
Qed.

(** Object keys known to be distinct by evaluation. *)
Lemma object_exact_dec (m : list (string * Value)) :
  bool_decide (NoDup m.*1) = true → Forall (λ kv, value_exact kv.2 = true) m →
  value_exact (VObject m) = true.
Proof. intros Hn%bool_decide_eq_true Hm. by apply object_exact. Qed.
