(* ===== verification/Protocol.v ===== *)
(** * Envelopes of the control protocol
      (dopedb-protocol/src/{lib,version,error,request,response,command}.rs)

    The structural limits, and the request and response envelopes with their serde
    conversions: the response decoder keeps the difference between an absent and a
    null result, and an error is only accepted with the message its code stands
    for. *)

From S2P Require Export SerdeJson.

(** ** Structural limits *)

Definition MAX_REQUEST_BYTES : N := 1048576.        (* 1024 * 1024 *)
Definition MAX_RESPONSE_BYTES : N := 8388608.       (* 8 * 1024 * 1024 *)
Definition MAX_JSON_DEPTH : N := 32.
Definition MAX_COLLECTION_ITEMS : N := 10000.
Definition MAX_JSON_VALUES : N := 10000.
Definition MAX_STRING_BYTES : N := 262144.          (* 256 * 1024 *)

(** [usize] on the 64-bit targets the application is built for. *)
Definition usize_max : N := 18446744073709551615.

(** [usize::saturating_add], [usize::saturating_sub] *)
Definition saturating_add (a b : N) : N := N.min usize_max (a + b).
Definition saturating_sub (a b : N) : N := (a - b)%N.

(** ** Versions *)

Definition PROTOCOL_MIN : Z := 1.
Definition PROTOCOL_MAX : Z := 1.
Definition COMMAND_SCHEMA_VERSION : Z := 1.

Record ProtocolVersionMismatch := {
  runtime_min : Z; runtime_max : Z; client_min : Z; client_max : Z;
}.

Definition negotiate_protocol (runtime_min runtime_max client_min client_max : Z)
  : result ProtocolVersionMismatch Z :=
  let lower := Z.max runtime_min client_min in
  let upper := Z.min runtime_max client_max in
  if lower <=? upper then Ok upper
  else Err {| runtime_min := runtime_min; runtime_max := runtime_max;
              client_min := client_min; client_max := client_max |}.

(** ** Errors *)

Module ErrorCode.
Inductive t :=
| InvalidRequest | RuntimeUnavailable | AuthenticationDenied | ScopeDenied | PolicyBlocked
| OperationExpired | OperationConflict | Cancelled | Timeout | TargetExecutionFailed
| ProtocolMismatch | ResponseTooLarge | Internal.
#[global] Instance eq_dec : EqDecision t.
Proof. solve_decision. Defined.

(** [#[serde(rename_all = "snake_case")]] *)
Definition serialize (self : t) : string :=
  match self with
  | InvalidRequest => "invalid_request"
  | RuntimeUnavailable => "runtime_unavailable"
  | AuthenticationDenied => "authentication_denied"
  | ScopeDenied => "scope_denied"
  | PolicyBlocked => "policy_blocked"
  | OperationExpired => "operation_expired"
  | OperationConflict => "operation_conflict"
  | Cancelled => "cancelled"
  | Timeout => "timeout"
  | TargetExecutionFailed => "target_execution_failed"
  | ProtocolMismatch => "protocol_mismatch"
  | ResponseTooLarge => "response_too_large"
  | Internal => "internal"
  end.

Definition ALL : list t :=
  [InvalidRequest; RuntimeUnavailable; AuthenticationDenied; ScopeDenied; PolicyBlocked;
   OperationExpired; OperationConflict; Cancelled; Timeout; TargetExecutionFailed;
   ProtocolMismatch; ResponseTooLarge; Internal].

Definition parse (s : string) : option t := List.find (λ c, serialize c =? s)%string ALL.

Definition safe_message (self : t) : string :=
  match self with
  | InvalidRequest => "the request is invalid"
  | RuntimeUnavailable => "the DopeDB runtime is unavailable"
  | AuthenticationDenied => "runtime authentication was denied"
  | ScopeDenied => "the requested resource is outside the active scope"
  | PolicyBlocked => "the operation is blocked by the active safety policy"
  | OperationExpired => "the operation has expired"
  | OperationConflict => "the operation state changed before it could be claimed"
  | Cancelled => "the operation was cancelled"
  | Timeout => "the operation timed out"
  | TargetExecutionFailed => "the target database operation failed"
  | ProtocolMismatch => "the client and runtime protocols are incompatible"
  | ResponseTooLarge => "the response exceeds the configured limit"
  | Internal => "the DopeDB runtime encountered an internal error"
  end.
End ErrorCode.

Record ProtocolError := { pe_code : ErrorCode.t; pe_message : string; pe_retryable : bool }.

#[export] Instance ProtocolError_eq_dec : EqDecision ProtocolError.
Proof. solve_decision. Defined.

(** [ProtocolError::new] *)
Definition protocol_error (code : ErrorCode.t) (retryable : bool) : ProtocolError :=
  {| pe_code := code; pe_message := ErrorCode.safe_message code; pe_retryable := retryable |}.

Definition protocol_error_to_value (e : ProtocolError) : Value :=
  VObject [("code", VString (ErrorCode.serialize (pe_code e)));
           ("message", VString (pe_message e));
           ("retryable", VBool (pe_retryable e))].

(** [WireProtocolError] *)
Definition wire_protocol_error (v : Value) : option ProtocolError :=
  de_struct ["code"; "message"; "retryable"]
    (λ field,
      code ← required (de_variant ErrorCode.parse) (field "code");
      message ← required de_string (field "message");
      retryable ← required de_bool (field "retryable");
      Some {| pe_code := code; pe_message := message; pe_retryable := retryable |}) v.

Definition protocol_error_from_value (v : Value) : option ProtocolError :=
  wire ← wire_protocol_error v;
  if negb (pe_message wire =? ErrorCode.safe_message (pe_code wire))%string then None
  else Some (protocol_error (pe_code wire) (pe_retryable wire)).

(** ** Commands *)

Module CommandName.
Inductive t :=
| Version | Status | AppOpen | SkillsList | SkillsGet | SkillStatus | SkillInstall
| SkillRepair | SkillRemove | ConnectionList | ConnectionShow | ConnectionTest | CatalogShow
| SchemaList | TableDescribe | QueryPlan | QueryRun | QueryCancel | SqlPropose
| OperationShow | OperationWait | OperationCancel | Unknown.
#[global] Instance eq_dec : EqDecision t.
Proof. solve_decision. Defined.

Definition ALL : list t :=
  [Version; Status; AppOpen; SkillsList; SkillsGet; SkillStatus; SkillInstall; SkillRepair;
   SkillRemove; ConnectionList; ConnectionShow; ConnectionTest; CatalogShow; SchemaList;
   TableDescribe; QueryPlan; QueryRun; QueryCancel; SqlPropose; OperationShow; OperationWait;
   OperationCancel].

Definition as_str (self : t) : string :=
  match self with
  | Version => "version" | Status => "status" | AppOpen => "app.open"
  | SkillsList => "skills.list" | SkillsGet => "skills.get" | SkillStatus => "skill.status"
  | SkillInstall => "skill.install" | SkillRepair => "skill.repair"
  | SkillRemove => "skill.remove" | ConnectionList => "connection.list"
  | ConnectionShow => "connection.show" | ConnectionTest => "connection.test"
  | CatalogShow => "catalog.show" | SchemaList => "schema.list"
  | TableDescribe => "table.describe" | QueryPlan => "query.plan" | QueryRun => "query.run"
  | QueryCancel => "query.cancel" | SqlPropose => "sql.propose"
  | OperationShow => "operation.show" | OperationWait => "operation.wait"
  | OperationCancel => "operation.cancel" | Unknown => "unknown"
  end.

(** The serde names: those of [as_str], and the variant's own for [Unknown]. *)
Definition serialize (self : t) : string :=
  match self with Unknown => "Unknown" | _ => as_str self end.

(** [#[serde(other)]]: every other name is [Unknown]. *)
Definition parse (s : string) : t :=
  default Unknown (List.find (λ c, as_str c =? s)%string ALL).
End CommandName.

(** ** Requests *)

Section envelopes.
Context {P : Platform}.

Record SessionAuthentication := { sa_terminal_session_id : Uuid; sa_token : string }.

Record RequestEnvelope := {
  rq_protocol_version : Z;
  rq_command_schema_version : Z;
  rq_request_id : Uuid;
  rq_authentication : option SessionAuthentication;
  rq_command : CommandName.t;
  rq_arguments : Value;
}.

Definition authentication_to_value (a : SessionAuthentication) : Value :=
  VObject [("terminalSessionId", VString (uuid_to_string (sa_terminal_session_id a)));
           ("token", VString (sa_token a))].

Definition authentication_from_value (v : Value) : option SessionAuthentication :=
  de_struct ["terminalSessionId"; "token"]
    (λ field,
      id ← required de_uuid (field "terminalSessionId");
      token ← required de_string (field "token");
      Some {| sa_terminal_session_id := id; sa_token := token |}) v.

Definition request_to_value (r : RequestEnvelope) : Value :=
  ser_struct
    [("protocolVersion", Some (value_of_u64 (rq_protocol_version r)));
     ("commandSchemaVersion", Some (value_of_u64 (rq_command_schema_version r)));
     ("requestId", Some (VString (uuid_to_string (rq_request_id r))));
     ("authentication", authentication_to_value <$> rq_authentication r);
     ("command", Some (VString (CommandName.serialize (rq_command r))));
     ("arguments", Some (rq_arguments r))].

Definition request_from_value (v : Value) : option RequestEnvelope :=
  de_struct ["protocolVersion"; "commandSchemaVersion"; "requestId"; "authentication";
             "command"; "arguments"]
    (λ field,
      protocol_version ← required de_u16 (field "protocolVersion");
      command_schema_version ← required de_u16 (field "commandSchemaVersion");
      request_id ← required de_uuid (field "requestId");
      authentication ←
        defaulted None (de_option authentication_from_value) (field "authentication");
      command ← required (de_variant (λ s, Some (CommandName.parse s))) (field "command");
      arguments ← defaulted VNull Some (field "arguments");
      Some {| rq_protocol_version := protocol_version;
              rq_command_schema_version := command_schema_version;
              rq_request_id := request_id;
              rq_authentication := authentication;
              rq_command := command;
              rq_arguments := arguments |}) v.

(** ** Responses *)

Record ResponseEnvelope := {
  rs_protocol_version : Z;
  rs_request_id : Uuid;
  rs_ok : bool;
  rs_result : option Value;
  rs_error : option ProtocolError;
}.

(** [ResponseEnvelope::success], [ResponseEnvelope::failure] *)
Definition response_success (protocol_version : Z) (request_id : Uuid) (result : Value)
  : ResponseEnvelope :=
  {| rs_protocol_version := protocol_version; rs_request_id := request_id; rs_ok := true;
     rs_result := Some result; rs_error := None |}.

Definition response_failure (protocol_version : Z) (request_id : Uuid) (error : ProtocolError)
  : ResponseEnvelope :=
  {| rs_protocol_version := protocol_version; rs_request_id := request_id; rs_ok := false;
     rs_result := None; rs_error := Some error |}.

Definition validate (self : ResponseEnvelope) : result string unit :=
  match rs_ok self, rs_result self, rs_error self with
  | true, Some _, None | false, None, Some _ => Ok tt
  | _, _, _ => Err "response must contain exactly one of result or error matching ok"
  end.

Definition response_to_value (r : ResponseEnvelope) : Value :=
  ser_struct
    [("protocolVersion", Some (value_of_u64 (rs_protocol_version r)));
     ("requestId", Some (VString (uuid_to_string (rs_request_id r))));
     ("ok", Some (VBool (rs_ok r)));
     ("result", rs_result r);
     ("error", protocol_error_to_value <$> rs_error r)].

(** [WireResponseEnvelope] *)
Definition wire_response (v : Value) : option ResponseEnvelope :=
  de_struct ["protocolVersion"; "requestId"; "ok"; "result"; "error"]
    (λ field,
      protocol_version ← required de_u16 (field "protocolVersion");
      request_id ← required de_uuid (field "requestId");
      ok ← required de_bool (field "ok");
      result ← defaulted None (de_option Some) (field "result");
      error ← defaulted None (de_option protocol_error_from_value) (field "error");
      Some {| rs_protocol_version := protocol_version; rs_request_id := request_id;
              rs_ok := ok; rs_result := result; rs_error := error |}) v.

Definition response_from_value (v : Value) : option ResponseEnvelope :=
  object ← as_object v;
  let result_present := bool_decide (is_Some (assoc "result" object)) in
  let error_present := bool_decide (is_Some (assoc "error" object)) in
  wire ← wire_response v;
  let response := {|
    rs_protocol_version := rs_protocol_version wire;
    rs_request_id := rs_request_id wire;
    rs_ok := rs_ok wire;
    rs_result := if result_present then Some (default VNull (rs_result wire)) else None;
    rs_error := rs_error wire |} in
  if error_present && negb (bool_decide (is_Some (rs_error response))) then None
  else if is_ok (validate response) then Some response
  else None.
End envelopes.

(** ** Typed command payloads *)

Inductive AuthenticationRequirement := NoAuthentication | TerminalSession.

Inductive CommandPayloadError := CommandMismatch | InvalidArguments.

(** [CommandSpec]: the constants of a command and the serde conversions of its
    argument and result types. *)
Record CommandSpec (Arguments Result : Type) := {
  NAME : CommandName.t;
  AUTHENTICATION : AuthenticationRequirement;
  arguments_from_value : Value → option Arguments;
  result_to_value : Result → Value;
}.
Arguments NAME {_ _}. Arguments AUTHENTICATION {_ _}.
Arguments arguments_from_value {_ _}. Arguments result_to_value {_ _}.

Definition decode_arguments `{P : Platform} {A R} (C : CommandSpec A R)
  (request : RequestEnvelope) : result CommandPayloadError A :=
  if negb (bool_decide (rq_command request = NAME C)) then Err CommandMismatch
  else ok_or InvalidArguments (arguments_from_value C (rq_arguments request)).

(** ** Facts *)

Lemma negotiate_protocol_highest a b c d n :
  negotiate_protocol a b c d = Ok n ↔
    (a ≤ n ≤ b ∧ c ≤ n ≤ d) ∧ ∀ k, a ≤ k ≤ b → c ≤ k ≤ d → k ≤ n.
Proof.
  unfold negotiate_protocol. case_match eqn:E.
  - apply Z.leb_le in E. split; [intros [= <-]; split; [|intros k]; lia|]. intros [[Hr Hc] Hmax]. f_equal.
    assert (Z.min b d ≤ n) by (apply Hmax; lia). lia.
  - apply Z.leb_gt in E. split; [done|]. intros [? _]. lia.
Qed.

#[local] Arguments ErrorCode.serialize : simpl never.
#[local] Arguments ErrorCode.parse : simpl never.
#[local] Arguments ErrorCode.safe_message : simpl never.
#[local] Arguments CommandName.serialize : simpl never.
#[local] Arguments CommandName.parse : simpl never.
#[local] Arguments value_of_u64 : simpl never.
#[local] Arguments de_u16 : simpl never.
#[local] Arguments de_uuid : simpl never.

Lemma error_code_roundtrip c : ErrorCode.parse (ErrorCode.serialize c) = Some c.
Proof. by destruct c. Qed.

Lemma command_roundtrip c : CommandName.parse (CommandName.serialize c) = c.
Proof. by destruct c. Qed.

#[export] Hint Rewrite error_code_roundtrip command_roundtrip : serde.

(** [serde]: run a decoder on the encoding of a value. *)
Ltac serde := repeat progress (cbn; autorewrite with serde; try assumption).

Section codecs.
Context {P : Platform} {L : PlatformLaws P}.

Lemma wire_protocol_error_roundtrip e :
  wire_protocol_error (protocol_error_to_value e) = Some e.
Proof. destruct e as [c m r]. by serde. Qed.

(** A decoded error carries the message of its code. *)
Lemma protocol_error_from_value_safe v e :
  protocol_error_from_value v = Some e → e = protocol_error (pe_code e) (pe_retryable e).
Proof.
  unfold protocol_error_from_value. intros (w & Hw & H)%bind_Some.
  case_match; [done|]. by injection H as <-.
Qed.

Lemma protocol_error_roundtrip e :
  e = protocol_error (pe_code e) (pe_retryable e) →
  protocol_error_from_value (protocol_error_to_value e) = Some e.
Proof.
  intros ->. unfold protocol_error_from_value. rewrite wire_protocol_error_roundtrip.
  cbn -[String.eqb]. by rewrite String.eqb_refl.
Qed.

Lemma protocol_error_option e :
  e = protocol_error (pe_code e) (pe_retryable e) →
  de_option protocol_error_from_value (protocol_error_to_value e) = Some (Some e).
Proof. intros He. unfold de_option. by rewrite protocol_error_roundtrip. Qed.

Lemma authentication_option a :
  de_option authentication_from_value (authentication_to_value a) = Some (Some a).
Proof. destruct a as [id t]. by serde. Qed.
End codecs.

#[export] Hint Rewrite @authentication_option : serde.
#[export] Hint Rewrite @protocol_error_option using assumption : serde.

#[local] Arguments authentication_to_value : simpl never.
#[local] Arguments authentication_from_value : simpl never.
#[local] Arguments protocol_error_to_value : simpl never.
#[local] Arguments protocol_error_from_value : simpl never.

Section envelope_codecs.
Context {P : Platform} {L : PlatformLaws P}.

(** The ranges of the Rust types, and values whose text round-trips. *)
Definition request_ok (r : RequestEnvelope) : Prop :=
  0 ≤ rq_protocol_version r ≤ u16_max ∧ 0 ≤ rq_command_schema_version r ≤ u16_max
  ∧ value_exact (rq_arguments r) = true.

Lemma request_roundtrip r : request_ok r → request_from_value (request_to_value r) = Some r.
Proof. destruct r as [pv sv id [a|] c args]; intros (Hp & Hs & _); cbn in Hp, Hs; by serde. Qed.

(** What the private fields of a response can hold. *)
Definition response_valid (r : ResponseEnvelope) : Prop :=
  validate r = Ok tt
  ∧ match rs_error r with
    | Some e => e = protocol_error (pe_code e) (pe_retryable e)
    | None => True
    end.

Definition response_ok (r : ResponseEnvelope) : Prop :=
  0 ≤ rs_protocol_version r ≤ u16_max ∧ response_valid r
  ∧ match rs_result r with Some v => value_exact v = true | None => True end.

Lemma de_option_Some v : de_option Some v = Some (match v with VNull => None | _ => Some v end).
Proof. by destruct v. Qed.

Lemma response_roundtrip r : response_ok r → response_from_value (response_to_value r) = Some r.
Proof.
  destruct r as [pv id [] [v|] [e|]]; intros (Hp & [Hv He] & _); cbn in Hp, Hv, He; try done;
    unfold response_from_value; serde; rewrite ?de_option_Some; cbn; [|done].
  by destruct v.
Qed.

Lemma wire_response_error v w :
  wire_response v = Some w →
  match rs_error w with
  | Some e => e = protocol_error (pe_code e) (pe_retryable e)
  | None => True
  end.
Proof.
  intros Hw. apply de_struct_Some in Hw as (field & Hw).
  do 4 apply bind_Some in Hw as (? & _ & Hw). apply bind_Some in Hw as (e & He & [= <-]).
  cbn. destruct e as [e|]; [|done]. apply defaulted_Some in He as [(_ & [=])|(v' & _ & He)].
  apply de_option_inv in He as [[=]|(e' & [= <-] & He)]. by eapply protocol_error_from_value_safe.
Qed.

(** Whatever the decoder accepts is a response the constructors could build. *)
Lemma response_from_value_valid v r : response_from_value v = Some r → response_valid r.
Proof.
  unfold response_from_value. intros (m & Hm & H)%bind_Some.
  apply bind_Some in H as (w & Hw & H). apply wire_response_error in Hw.
  case_match; [done|]. case_match eqn:Hv; [|done]. injection H as <-. split; [|done].
  by apply is_ok_unit.
Qed.
End envelope_codecs.
