(* ===== verification/Frame.v ===== *)
(** * Length-prefixed JSON frames (dopedb-protocol/src/frame.rs)

    A frame is a big-endian [u32] payload length followed by one JSON text.
    serde_json's writer is an argument: the pieces it hands to [Write::write]
    and the positions its errors report. *)

From S2P Require Export Protocol.

Definition LENGTH_PREFIX_BYTES : nat := 4.

Inductive FrameError :=
| MissingLengthPrefix
| EmptyPayload
| PayloadTooLarge (actual maximum : N)
| LengthMismatch (declared actual : N)
| JsonDepth (maximum : N)
| CollectionTooLarge (actual maximum : N)
| ItemBudgetExceeded (maximum : N)
| StringTooLarge (actual maximum : N)
| InvalidJson (line column : N)
| InvalidSchema.

(** ** [u32::to_be_bytes], [u32::from_be_bytes] *)

Definition to_be_bytes (n : N) : list ascii :=
  map (λ shift, ascii_of_N (N.land (N.shiftr n shift) 255)) [24; 16; 8; 0]%N.
Definition from_be_bytes (l : list ascii) : N :=
  fold_left (λ n a, N.lor (N.shiftl n 8) (byte a)) l 0%N.

Definition parse_frame_length (prefix : list ascii) (maximum : N) : result FrameError N :=
  let length := from_be_bytes prefix in
  if (length =? 0)%N then Err EmptyPayload
  else if (maximum <? length)%N then Err (PayloadTooLarge length maximum)
  else Ok length.

(** ** The bounded writer *)

Record BoundedWriter := { bw_bytes : list ascii; bw_maximum : N; bw_overflowed : bool }.

Definition new_writer (maximum : N) : BoundedWriter :=
  {| bw_bytes := []; bw_maximum := maximum; bw_overflowed := false |}.

Definition byte_len (l : list ascii) : N := N.of_nat (length l).

(** [Write::write]; [false] is the [io::Error]. *)
Definition write (self : BoundedWriter) (bytes : list ascii) : bool * BoundedWriter :=
  let remaining := saturating_sub (bw_maximum self) (byte_len (bw_bytes self)) in
  if (remaining <? byte_len bytes)%N then
    (false, {| bw_bytes := bw_bytes self ++ take (N.to_nat remaining) bytes;
               bw_maximum := bw_maximum self; bw_overflowed := true |})
  else
    (true, {| bw_bytes := bw_bytes self ++ bytes; bw_maximum := bw_maximum self;
              bw_overflowed := bw_overflowed self |}).

(** The serializer stops at the first failed write. *)
Fixpoint write_chunks (chunks : list string) (w : BoundedWriter) : bool * BoundedWriter :=
  match chunks with
  | [] => (true, w)
  | chunk :: chunks =>
      let '(written, w) := write w (bytes_of chunk) in
      if written then write_chunks chunks w else (false, w)
  end.

(** ** Structural limits *)

Definition validate_collection_len (actual : N) : result FrameError unit :=
  if (MAX_COLLECTION_ITEMS <? actual)%N
  then Err (CollectionTooLarge actual MAX_COLLECTION_ITEMS) else Ok tt.

Definition validate_string (value : string) : result FrameError unit :=
  let actual := str_len value in
  if (MAX_STRING_BYTES <? actual)%N
  then Err (StringTooLarge actual MAX_STRING_BYTES) else Ok tt.

(** The last entry first, as [iter().rev()] goes. *)
Definition validate_keys (values : list (string * Value)) : result FrameError unit :=
  fold_left (λ r kv, _ ← r; validate_string kv.1) (rev values) (Ok tt).

(** The loop over [pending], whose last element is the head here.  [budget] is
    [MAX_JSON_VALUES - item_budget], the values that may still be visited. *)
Fixpoint validate_pending (budget : nat) (pending : list (Value * N)) : result FrameError unit :=
  match pending with
  | [] => Ok tt
  | (value, depth) :: pending =>
      if (MAX_JSON_DEPTH <? depth)%N then Err (JsonDepth MAX_JSON_DEPTH)
      else
        match budget with
        | O => Err (ItemBudgetExceeded MAX_JSON_VALUES)
        | S budget =>
            match value with
            | VString text =>
                _ ← validate_string text;
                validate_pending budget pending
            | VArray values =>
                _ ← validate_collection_len (N.of_nat (length values));
                validate_pending budget
                  (map (λ value, (value, depth + 1)%N) values ++ pending)
            | VObject values =>
                _ ← validate_collection_len (N.of_nat (length values));
                _ ← validate_keys values;
                validate_pending budget
                  (map (λ kv, (kv.2, depth + 1)%N) values ++ pending)
            | _ => validate_pending budget pending
            end
        end
  end.

Definition validate_json_limits (value : Value) : result FrameError unit :=
  validate_pending (N.to_nat MAX_JSON_VALUES) [(value, 1%N)].

(** ** Encoding and decoding *)

Class JsonWriter := {
  (** What [to_writer] passes to [Write::write], in order. *)
  json_chunks : Value → list string;
  (** The line and column of a serializer and of a parser error. *)
  write_position : Value → N * N;
  parse_position : string → N * N;
}.

Class JsonWriterLaws {P : Platform} (W : JsonWriter) : Prop := {
  json_chunks_text v s :
    json_to_string v = Some s → concat (map bytes_of (json_chunks v)) = bytes_of s;
  json_text_nonempty v : json_to_string v ≠ Some "";
}.

(** [FramePayload], with the type's serde conversions. *)
Class FramePayload (T : Type) := {
  to_value : T → Value;
  from_value : Value → option T;
  validate_before_encode : T → result FrameError unit;
}.

Section frames.
Context {P : Platform} {W : JsonWriter}.

Definition safe_json_error (position : N * N) : FrameError :=
  InvalidJson position.1 position.2.

Definition from_slice (payload : list ascii) : result FrameError Value :=
  ok_or (safe_json_error (parse_position (of_bytes payload))) (json_from_str (of_bytes payload)).

Definition encode_frame {T} `{FramePayload T} (value : T) (maximum : N)
  : result FrameError (list ascii) :=
  _ ← validate_before_encode value;
  let maximum := N.min maximum (Z.to_N u32_max) in
  let '(written, writer) := write_chunks (json_chunks (to_value value)) (new_writer maximum) in
  if negb (written && bool_decide (is_Some (json_to_string (to_value value)))) then
    if bw_overflowed writer
    then Err (PayloadTooLarge (saturating_add maximum 1) maximum)
    else Err (safe_json_error (write_position (to_value value)))
  else
    let payload := bw_bytes writer in
    _ ← reject_if (bool_decide (payload = [])) EmptyPayload;
    json ← from_slice payload;
    _ ← validate_json_limits json;
    _ ← reject_if (maximum <? byte_len payload)%N
          (PayloadTooLarge (byte_len payload) maximum);
    Ok (to_be_bytes (byte_len payload) ++ payload).

Definition decode_frame {T} `{FramePayload T} (frame : list ascii) (maximum : N)
  : result FrameError T :=
  if (length frame <? LENGTH_PREFIX_BYTES)%nat then Err MissingLengthPrefix
  else
    declared ← parse_frame_length (take LENGTH_PREFIX_BYTES frame) maximum;
    let actual := (byte_len frame - N.of_nat LENGTH_PREFIX_BYTES)%N in
    if negb (declared =? actual)%N then Err (LengthMismatch declared actual)
    else
      value ← from_slice (drop LENGTH_PREFIX_BYTES frame);
      _ ← validate_json_limits value;
      ok_or InvalidSchema (from_value value).

#[export] Instance value_payload : FramePayload Value := {
  to_value v := v;
  from_value := Some;
  validate_before_encode := validate_json_limits;
}.

#[export] Instance request_payload : FramePayload RequestEnvelope := {
  to_value := request_to_value;
  from_value := request_from_value;
  validate_before_encode r :=
    _ ← validate_json_limits (rq_arguments r);
    match rq_authentication r with
    | Some authentication => validate_string (sa_token authentication)
    | None => Ok tt
    end;
}.

#[export] Instance response_payload : FramePayload ResponseEnvelope := {
  to_value := response_to_value;
  from_value := response_from_value;
  validate_before_encode r :=
    _ ← match rs_result r with Some result => validate_json_limits result | None => Ok tt end;
    match rs_error r with
    | Some error => validate_string (pe_message error)
    | None => Ok tt
    end;
}.
End frames.

(** ** What the limits mean *)

Fixpoint json_depth (v : Value) : N :=
  match v with
  | VArray l => 1 + fold_right (λ x n, N.max (json_depth x) n) 0%N l
  | VObject m => 1 + fold_right (λ kv n, N.max (json_depth kv.2) n) 0%N m
  | _ => 1
  end.

Fixpoint json_values (v : Value) : nat :=
  match v with
  | VArray l => S (sum_list_with (λ x, json_values x) l)
  | VObject m => S (sum_list_with (λ kv, json_values kv.2) m)
  | _ => 1
  end.

Definition short_string (s : string) : bool := (str_len s <=? MAX_STRING_BYTES)%N.
Definition short_collection {A} (l : list A) : bool :=
  (N.of_nat (length l) <=? MAX_COLLECTION_ITEMS)%N.

Fixpoint json_parts_ok (v : Value) : bool :=
  match v with
  | VString s => short_string s
  | VArray l => short_collection l && forallb (λ x, json_parts_ok x) l
  | VObject m =>
      short_collection m && forallb (λ kv, short_string kv.1) m
      && forallb (λ kv, json_parts_ok kv.2) m
  | _ => true
  end.

Definition within_limits (v : Value) : Prop :=
  (json_depth v ≤ MAX_JSON_DEPTH)%N ∧ (json_values v ≤ N.to_nat MAX_JSON_VALUES)%nat
  ∧ json_parts_ok v = true.

#[export] Instance within_limits_dec v : Decision (within_limits v).
Proof. unfold within_limits. apply _. Defined.

Lemma validate_string_Ok s : validate_string s = Ok tt ↔ short_string s = true.
Proof.
  unfold validate_string, short_string. rewrite N.leb_le. cbv zeta.
  destruct (N.ltb_spec MAX_STRING_BYTES (str_len s)); split; (done || lia).
Qed.

Lemma validate_collection_len_Ok {A} (l : list A) :
  validate_collection_len (N.of_nat (length l)) = Ok tt ↔ short_collection l = true.
Proof.
  unfold validate_collection_len, short_collection. rewrite N.leb_le.
  destruct (N.ltb_spec MAX_COLLECTION_ITEMS (N.of_nat (length l))); split; (done || lia).
Qed.

Lemma validate_keys_Ok m : validate_keys m = Ok tt ↔ forallb (λ kv, short_string kv.1) m = true.
Proof.
  unfold validate_keys. rewrite <-fold_left_rev_right, rev_involutive.
  induction m as [|[k v] m IH]; cbn; [done|].
  rewrite bind_Ok, andb_true_iff, <-IH, <-validate_string_Ok. cbn. split.
  - intros ([] & ? & ?). done.
  - intros [? ?]. by exists tt.
Qed.

Lemma fold_max_le {A} (f : A → N) l k :
  (fold_right (λ x n, N.max (f x) n) 0 l ≤ k)%N ↔ Forall (λ x, (f x ≤ k)%N) l.
Proof. induction l as [|x l IH]; cbn; rewrite ?Forall_cons, <-?IH; [split; [done|lia]|lia]. Qed.

Lemma sum_list_with_app {A} (f : A → nat) l l' :
  sum_list_with f (l ++ l') = (sum_list_with f l + sum_list_with f l')%nat.
Proof. induction l as [|x l IH]; cbn; [done|]. rewrite IH. lia. Qed.

Lemma sum_list_with_map {A B} (f : B → nat) (g : A → B) l :
  sum_list_with f (map g l) = sum_list_with (λ x, f (g x)) l.
Proof. induction l as [|x l IH]; cbn; [done|]. by rewrite IH. Qed.

(** What [pending] still has to satisfy. *)
Definition entry_ok (e : Value * N) : Prop :=
  (e.2 + json_depth e.1 ≤ MAX_JSON_DEPTH + 1)%N ∧ json_parts_ok e.1 = true.

Lemma entry_ok_unfold v d :
  entry_ok (v, d) ↔ (d + json_depth v ≤ MAX_JSON_DEPTH + 1)%N ∧ json_parts_ok v = true.
Proof. done. Qed.

Lemma json_values_pos v : (0 < json_values v)%nat.
Proof. destruct v; cbn; lia. Qed.

(** Pushing the children of a collection. *)
Lemma entries_ok {A} (f : A → Value) (l : list A) (depth : N) pending :
  (depth ≤ MAX_JSON_DEPTH)%N →
  Forall entry_ok (map (λ x, (f x, (depth + 1)%N)) l ++ pending) ↔
    (depth + (1 + fold_right (λ x n, N.max (json_depth (f x)) n) 0 l) ≤ MAX_JSON_DEPTH + 1)%N
    ∧ forallb (λ x, json_parts_ok (f x)) l = true ∧ Forall entry_ok pending.
Proof.
  intros Hd. rewrite Forall_app, Forall_map, forallb_Forall.
  assert (∀ n, (depth + (1 + n) ≤ MAX_JSON_DEPTH + 1)%N ↔ (n ≤ MAX_JSON_DEPTH - depth)%N)
    as -> by lia.
  rewrite fold_max_le, (base.assoc and), <-Forall_and.
  enough (∀ x, entry_ok (f x, (depth + 1)%N) ↔
    (json_depth (f x) ≤ MAX_JSON_DEPTH - depth)%N ∧ json_parts_ok (f x) = true) as Hx
    by (by rewrite (Forall_iff _ _ _ Hx)).
  intros x. unfold entry_ok. cbn. split; intros [? ?]; (split; [lia|done]).
Qed.

Lemma validate_pending_Ok budget pending :
  validate_pending budget pending = Ok tt ↔
    Forall entry_ok pending ∧ (sum_list_with (λ e, json_values e.1) pending ≤ budget)%nat.
Proof.
  revert pending. induction budget as [|budget IH]; intros [|[v d] pending]; cbn [validate_pending].
  - cbn. split; [auto with platform|done].
  - split; [by case_match|]. intros [_ Hs]. cbn in Hs. pose proof (json_values_pos v). lia.
  - cbn. split; [intros _; split; [constructor|lia]|done].
  - rewrite Forall_cons. destruct (N.ltb_spec MAX_JSON_DEPTH d) as [Hd|Hd].
    { split; [done|]. intros [[[He _] _] _]. cbn in He.
      assert (1 ≤ json_depth v)%N by (destruct v; cbn; lia). lia. }
    destruct v; cbn [sum_list_with fst json_values];
      rewrite ?check_Ok, ?validate_string_Ok, ?validate_collection_len_Ok, ?validate_keys_Ok,
        IH, ?entries_ok, ?sum_list_with_app, ?sum_list_with_map, entry_ok_unfold by done;
      cbn [fst json_depth json_parts_ok]; rewrite ?andb_true_iff; intuition lia.
Qed.

(** The loop computes exactly the limits, whatever the order of the walk. *)
Lemma validate_json_limits_Ok v : validate_json_limits v = Ok tt ↔ within_limits v.
Proof.
  unfold validate_json_limits, within_limits.
  rewrite validate_pending_Ok, Forall_singleton, entry_ok_unfold. cbn [sum_list_with fst].
  rewrite Nat.add_0_r. split; [intros [[? ?] ?]|intros (? & ? & ?)]; repeat split; (done || lia).
Qed.

#[global] Opaque validate_json_limits.

(** ** Prefixes *)

Lemma lor_shiftl_byte a b : (b < 256)%N → N.lor (N.shiftl a 8) b = (a * 256 + b)%N.
Proof.
  intros Hb. rewrite <-N.lxor_lor, <-N.add_nocarry_lxor, N.shiftl_mul_pow2; try done;
    apply N.bits_inj; intros i; rewrite N.land_spec, N.bits_0;
    (destruct (N.lt_ge_cases i 8); [by rewrite N.shiftl_spec_low|]);
    rewrite <-(N.mod_small b (2 ^ 8)) by done; rewrite N.mod_pow2_bits_high by done;
    apply andb_false_r.
Qed.

Lemma byte_lt a : (byte a < 256)%N.
Proof. apply N_ascii_bounded. Qed.

Lemma from_be_bytes_base l :
  from_be_bytes l = fold_left (λ n a, n * 256 + byte a)%N l 0%N.
Proof.
  unfold from_be_bytes. generalize 0%N. induction l as [|a l IH]; intros n; cbn [fold_left]; [done|].
  by rewrite IH, lor_shiftl_byte by apply byte_lt.
Qed.

Lemma byte_land n : byte (ascii_of_N (N.land n 255)) = (n mod 256)%N.
Proof.
  change 255%N with (N.ones 8). rewrite N.land_ones. apply N_ascii_embedding.
  by apply N.mod_lt.
Qed.

Lemma from_to_be_bytes n : (n < 2 ^ 32)%N → from_be_bytes (to_be_bytes n) = n.
Proof.
  intros Hn. rewrite from_be_bytes_base. unfold to_be_bytes. cbn [map fold_left].
  rewrite !byte_land, !N.shiftr_div_pow2. change (2 ^ 0)%N with 1%N. rewrite N.div_1_r.
  pose proof (N.div_mod n 256). pose proof (N.div_mod (n / 256) 256).
  pose proof (N.div_mod (n / 256 / 256) 256).
  replace (n / 2 ^ 8)%N with (n / 256)%N by done.
  replace (n / 2 ^ 16)%N with (n / 256 / 256)%N by by rewrite N.Div0.div_div.
  replace (n / 2 ^ 24)%N with (n / 256 / 256 / 256)%N by by rewrite !N.Div0.div_div.
  rewrite (N.mod_small (n / 256 / 256 / 256)); [lia|].
  rewrite !N.Div0.div_div. apply N.Div0.div_lt_upper_bound. lia.
Qed.

Lemma to_be_bytes_length n : length (to_be_bytes n) = LENGTH_PREFIX_BYTES.
Proof. done. Qed.

(** ** The bounded writer keeps what fits *)

Definition chunks_bytes (chunks : list string) : list ascii := concat (map bytes_of chunks).

Lemma byte_len_app l l' : byte_len (l ++ l') = (byte_len l + byte_len l')%N.
Proof. unfold byte_len. rewrite length_app. lia. Qed.

Lemma byte_len_of s : byte_len (bytes_of s) = str_len s.
Proof. unfold byte_len, str_len. by rewrite bytes_of_length. Qed.

Lemma write_chunks_fits chunks w :
  (byte_len (bw_bytes w) + byte_len (chunks_bytes chunks) ≤ bw_maximum w)%N →
  write_chunks chunks w =
    (true, {| bw_bytes := bw_bytes w ++ chunks_bytes chunks; bw_maximum := bw_maximum w;
              bw_overflowed := bw_overflowed w |}).
Proof.
  revert w. induction chunks as [|c chunks IH]; intros [bs m o];
    cbn [write_chunks bw_bytes bw_maximum bw_overflowed].
  - intros _. by rewrite app_nil_r.
  - unfold chunks_bytes. cbn [map concat]. fold (chunks_bytes chunks). rewrite byte_len_app.
    intros Hfit. unfold write, saturating_sub. cbn [bw_bytes bw_maximum bw_overflowed].
    destruct (N.ltb_spec (m - byte_len bs) (byte_len (bytes_of c))); [lia|].
    rewrite IH; cbn [bw_bytes bw_maximum bw_overflowed]; [by rewrite app_assoc|].
    rewrite byte_len_app. lia.
Qed.

Lemma write_chunks_overflow chunks w :
  (byte_len (bw_bytes w) ≤ bw_maximum w
   < byte_len (bw_bytes w) + byte_len (chunks_bytes chunks))%N →
  ∃ w', write_chunks chunks w = (false, w') ∧ bw_overflowed w' = true.
Proof.
  revert w. induction chunks as [|c chunks IH]; intros [bs m o];
    cbn [write_chunks bw_bytes bw_maximum].
  - unfold chunks_bytes, byte_len. cbn. lia.
  - unfold chunks_bytes. cbn [map concat]. fold (chunks_bytes chunks). rewrite byte_len_app.
    intros Hover. unfold write, saturating_sub. cbn [bw_bytes bw_maximum].
    destruct (N.ltb_spec (m - byte_len bs) (byte_len (bytes_of c))); [by eexists|].
    apply IH. cbn [bw_bytes bw_maximum]. rewrite byte_len_app. lia.
Qed.

(** ** Payloads *)

Class PayloadLaws {P : Platform} (T : Type) {F : FramePayload T} (ok : T → Prop) : Prop := {
  payload_exact x : ok x → value_exact (to_value x) = true;
  payload_roundtrip x : ok x → from_value (to_value x) = Some x;
  (** The preflight asks for nothing the limits do not. *)
  payload_preflight x : within_limits (to_value x) → validate_before_encode x = Ok tt;
}.

Section facts.
Context {P : Platform} {L : PlatformLaws P} {W : JsonWriter} {WL : JsonWriterLaws W}.

Lemma from_slice_Ok payload v :
  from_slice payload = Ok v ↔ json_from_str (of_bytes payload) = Some v.
Proof. apply ok_or_Ok. Qed.

Lemma parse_frame_length_Ok prefix maximum n :
  parse_frame_length prefix maximum = Ok n ↔
    from_be_bytes prefix = n ∧ (0 < n ≤ maximum)%N.
Proof.
  unfold parse_frame_length. cbv zeta. destruct (N.eqb_spec (from_be_bytes prefix) 0).
  { split; [done|lia]. }
  destruct (N.ltb_spec maximum (from_be_bytes prefix)); split; try done; try lia.
  - intros [= <-]. lia.
  - by intros [-> _].
Qed.

Context {T : Type} {F : FramePayload T} {ok : T → Prop} {FL : PayloadLaws T ok}.

(** [decode_frame] of a prefix and a payload. *)
Lemma decode_frame_app prefix payload maximum (x : T) :
  length prefix = LENGTH_PREFIX_BYTES →
  decode_frame (prefix ++ payload) maximum = Ok x ↔
    from_be_bytes prefix = byte_len payload ∧ (0 < byte_len payload ≤ maximum)%N
    ∧ ∃ v, json_from_str (of_bytes payload) = Some v ∧ within_limits v ∧ from_value v = Some x.
Proof.
  intros Hl. unfold decode_frame. rewrite length_app, take_app_length', drop_app_length' by done.
  destruct (Nat.ltb_spec (length prefix + length payload) LENGTH_PREFIX_BYTES); [lia|].
  rewrite bind_Ok. setoid_rewrite parse_frame_length_Ok. rewrite byte_len_app.
  replace (byte_len prefix) with (N.of_nat LENGTH_PREFIX_BYTES)
    by (unfold byte_len; by rewrite Hl).
  rewrite N.add_comm, N.add_sub. split.
  - intros (n & [Hn Hr] & H'). destruct (N.eqb_spec n (byte_len payload)) as [->|]; [|done].
    split; [done|split; [done|]]. apply bind_Ok in H' as (v & Hv & H').
    apply check_Ok in H' as [Hw Hx]. exists v. split_and!.
    + by apply from_slice_Ok.
    + by apply validate_json_limits_Ok.
    + by apply ok_or_Ok in Hx.
  - intros (Hn & Hr & v & Hv & Hw & Hx). exists (byte_len payload). split; [done|].
    rewrite N.eqb_refl. cbn [negb]. apply bind_Ok. exists v. split; [by apply from_slice_Ok|].
    apply check_Ok. split; [by apply validate_json_limits_Ok|by apply ok_or_Ok].
Qed.
Lemma text_nonempty v s : json_to_string v = Some s → (0 < str_len s)%N.
Proof.
  intros Hs. destruct s; [by apply json_text_nonempty in Hs|]. unfold str_len. cbn. lia.
Qed.

(** The part of [encode_frame] after the writer. *)
Lemma encode_frame_eq x maximum s :
  ok x → json_to_string (to_value x) = Some s → validate_before_encode x = Ok tt →
  encode_frame x maximum =
    let maximum := N.min maximum (Z.to_N u32_max) in
    if (maximum <? str_len s)%N
    then Err (PayloadTooLarge (saturating_add maximum 1) maximum)
    else _ ← validate_json_limits (to_value x);
         Ok (to_be_bytes (str_len s) ++ bytes_of s).
Proof.
  intros Hok Hs Hp. unfold encode_frame. rewrite Hp. cbn [mbind result_bind]. cbv zeta.
  generalize (N.min maximum (Z.to_N u32_max)). intros m.
  pose proof (json_chunks_text _ _ Hs) as Ht.
  fold (chunks_bytes (json_chunks (to_value x))) in Ht.
  pose proof (byte_len_of s) as Hlen. rewrite <-Ht in Hlen.
  destruct (N.ltb_spec m (str_len s)) as [Hover|Hfit].
  - destruct (write_chunks_overflow (json_chunks (to_value x)) (new_writer m)) as (w & -> & Hw).
    { cbn [new_writer bw_bytes bw_maximum]. change (byte_len []) with 0%N. lia. }
    cbn. by rewrite Hw.
  - rewrite write_chunks_fits
      by (cbn [new_writer bw_bytes bw_maximum]; change (byte_len []) with 0%N; lia).
    cbn [new_writer bw_bytes bw_overflowed app].
    rewrite Hs, Ht, bool_decide_true by eauto. cbn [andb negb].
    rewrite bool_decide_false.
    2:{ intros He. apply text_nonempty in Hs. rewrite <-byte_len_of, He in Hs. done. }
    unfold from_slice.
    rewrite string_of_list_ascii_of_string, (json_roundtrip _ _ (payload_exact _ Hok) Hs).
    rewrite byte_len_of. cbn [reject_if ok_or]. rewrite !bind_of_Ok.
    generalize (validate_json_limits (to_value x)). intros [[]|e]; cbn [mbind result_bind]; [|done].
    destruct (N.ltb_spec m (str_len s)); [lia|]. reflexivity.
Qed.
End facts.

(** ** The payload types of the protocol *)

Lemma within_entry m k x : within_limits (VObject m) → (k, x) ∈ m → within_limits x.
Proof.
  unfold within_limits. cbn [json_depth json_values json_parts_ok]. rewrite !andb_true_iff.
  intros (Hd & Hv & [_ Hp]) Hin. split_and!.
  - assert (fold_right (λ kv n, N.max (json_depth kv.2) n) 0%N m ≤ MAX_JSON_DEPTH - 1)%N
      as Hmax by lia.
    rewrite fold_max_le, Forall_forall in Hmax. specialize (Hmax _ Hin). cbn in Hmax. lia.
  - etrans; [|exact Hv]. clear -Hin. change x with (k, x).2. revert Hin.
    generalize (k, x). intros kv Hin. induction Hin; cbn [sum_list_with]; lia.
  - rewrite forallb_Forall, Forall_forall in Hp. by apply (Hp _ Hin).
Qed.

Lemma within_string s : within_limits (VString s) → validate_string s = Ok tt.
Proof. intros (_ & _ & Hs). by apply validate_string_Ok. Qed.

Lemma authentication_exact {P : Platform} a : value_exact (authentication_to_value a) = true.
Proof. by apply object_exact_dec; repeat constructor. Qed.

Lemma protocol_error_exact e : value_exact (protocol_error_to_value e) = true.
Proof. by apply object_exact_dec; repeat constructor. Qed.

Lemma value_of_u16_exact n : 0 ≤ n ≤ u16_max → value_exact (value_of_u64 n) = true.
Proof.
  intros Hn. unfold value_exact, value_of_u64. cbn. rewrite andb_true_r. apply andb_true_iff.
  unfold u16_max, u64_max in *. split; apply Z.leb_le; lia.
Qed.

Section payloads.
Context {P : Platform} {L : PlatformLaws P}.

#[export] Instance value_payload_laws : PayloadLaws Value (λ v, value_exact v = true).
Proof. split; [done|done|]. intros v Hv. by apply (proj2 (validate_json_limits_Ok v)). Qed.

Lemma request_exact r : request_ok r → value_exact (request_to_value r) = true.
Proof.
  destruct r as [pv sv id [a|] c args]; intros (Hp & Hs & Ha); cbn in Hp, Hs, Ha;
    (apply object_exact_dec; [done|]); repeat constructor; cbn [snd];
    auto using value_of_u16_exact, authentication_exact.
Qed.

#[export] Instance request_payload_laws : PayloadLaws RequestEnvelope request_ok.
Proof.
  split; [exact request_exact|exact request_roundtrip|].
  intros [pv sv id auth c args] Hw. apply check_Ok. split; [|destruct auth as [a|]; [|done]].
  - apply (proj2 (validate_json_limits_Ok _)). apply (within_entry _ "arguments" _ Hw).
    destruct auth; cbn; set_solver.
  - apply within_string.
    apply (within_entry [("terminalSessionId", VString (uuid_to_string (sa_terminal_session_id a)));
      ("token", VString (sa_token a))] "token"); [|set_solver].
    apply (within_entry _ "authentication" _ Hw). cbn. set_solver.
Qed.

Lemma response_exact r : response_ok r → value_exact (response_to_value r) = true.
Proof.
  destruct r as [pv id o [v|] [e|]]; intros (Hp & _ & Hv); cbn in Hp, Hv;
    (apply object_exact_dec; [done|]); repeat constructor; cbn [snd];
    auto using value_of_u16_exact, protocol_error_exact.
Qed.

#[export] Instance response_payload_laws : PayloadLaws ResponseEnvelope response_ok.
Proof.
  split; [exact response_exact|exact response_roundtrip|].
  intros [pv id o v e] Hw. apply check_Ok. split; [destruct v as [v|]|destruct e as [e|]]; try done.
  - apply (proj2 (validate_json_limits_Ok _)). apply (within_entry _ "result" _ Hw).
    cbn. set_solver.
  - apply within_string. apply (within_entry [("code", VString (ErrorCode.serialize (pe_code e)));
      ("message", VString (pe_message e)); ("retryable", VBool (pe_retryable e))] "message");
      [|set_solver].
    apply (within_entry _ "error" _ Hw). destruct v; cbn; set_solver.
Qed.
End payloads.

(** C36. The framing of a control message round-trips. For a message whose text
    the JSON codec reproduces, [encode_frame] succeeds exactly when the message
    is within the structural limits and its text within the byte limit; the frame
    is then the big-endian length followed by the text, and [decode_frame] under
    the same limit returns the message. A text that is too long is reported with
    the limit, and nothing else of it. *)
Theorem frame_roundtrip {P : Platform} {L : PlatformLaws P} {W : JsonWriter}
  {WL : JsonWriterLaws W} {T} {F : FramePayload T} {ok : T → Prop} {FL : PayloadLaws T ok}
  (x : T) maximum s :
  ok x → json_to_string (to_value x) = Some s →
  let limit := N.min maximum (Z.to_N u32_max) in
  (∀ frame, encode_frame x maximum = Ok frame ↔
     (within_limits (to_value x) ∧ (str_len s ≤ limit)%N)
     ∧ frame = to_be_bytes (str_len s) ++ bytes_of s)
  ∧ (∀ frame, encode_frame x maximum = Ok frame → decode_frame frame maximum = Ok x)
  ∧ (within_limits (to_value x) → (limit < str_len s)%N →
     encode_frame x maximum = Err (PayloadTooLarge (saturating_add limit 1) limit)).
Proof.
  intros Hok Hs limit. assert (∀ frame, encode_frame x maximum = Ok frame ↔
     (within_limits (to_value x) ∧ (str_len s ≤ limit)%N)
     ∧ frame = to_be_bytes (str_len s) ++ bytes_of s) as Hiff.
  { intros frame. split.
    - intros H. assert (validate_before_encode x = Ok tt) as Hp
        by (unfold encode_frame in H; by apply check_Ok in H as [? _]).
      rewrite (encode_frame_eq x maximum s Hok Hs Hp) in H. cbv zeta in H.
      case_match eqn:Hl; [done|]. apply N.ltb_ge in Hl. rewrite check_Ok in H. destruct H as [Hw He].
      split; [split; [by apply (proj1 (validate_json_limits_Ok _))|done]|congruence].
    - intros [[Hw Hl] ->].
      rewrite (encode_frame_eq x maximum s Hok Hs (payload_preflight _ Hw)).
      cbv zeta. fold limit. destruct (N.ltb_spec limit (str_len s)); [lia|].
      by rewrite (proj2 (validate_json_limits_Ok _) Hw). }
  split; [done|split].
  - intros frame [[Hw Hl] ->]%Hiff. apply decode_frame_app; [done|].
    rewrite byte_len_of. pose proof (text_nonempty _ _ Hs). split_and!; [|lia|lia|].
    + apply from_to_be_bytes. unfold limit, u32_max in Hl. lia.
    + exists (to_value x). rewrite string_of_list_ascii_of_string.
      split_and!; [|done|by apply payload_roundtrip].
      by apply json_roundtrip, Hs; apply payload_exact.
  - intros Hw Hl. rewrite (encode_frame_eq x maximum s Hok Hs (payload_preflight _ Hw)).
    cbv zeta. fold limit. by destruct (N.ltb_spec limit (str_len s)); [|lia].
Qed.

(** [decode_frame] accepts exactly the well-formed frames: a four-byte
    prefix that states, big-endian, the length of the rest; a length above zero
    and within the caller's limit; a payload that parses as JSON, is within the
    structural limits and has the shape of the message.  A prefix beyond the
    limit, a truncated frame and trailing bytes are refused. *)
Theorem decode_frame_iff {P : Platform} {W : JsonWriter} {T} {F : FramePayload T}
  frame maximum (x : T) :
  decode_frame frame maximum = Ok x ↔
    ∃ prefix payload v, frame = prefix ++ payload ∧ length prefix = LENGTH_PREFIX_BYTES
      ∧ from_be_bytes prefix = byte_len payload ∧ (0 < byte_len payload ≤ maximum)%N
      ∧ json_from_str (of_bytes payload) = Some v ∧ within_limits v ∧ from_value v = Some x.
Proof.
  split.
  - intros H. assert (LENGTH_PREFIX_BYTES ≤ length frame)%nat as Hl.
    { unfold decode_frame in H. case_match eqn:E; [done|]. by apply Nat.ltb_ge in E. }
    rewrite <-(take_drop LENGTH_PREFIX_BYTES frame) in H.
    apply decode_frame_app in H as (? & ? & v & ? & ? & ?); [|rewrite length_take; lia].
    exists (take LENGTH_PREFIX_BYTES frame), (drop LENGTH_PREFIX_BYTES frame), v.
    rewrite take_drop, length_take. split_and!; auto; lia.
  - intros (prefix & payload & v & -> & Hl & ? & ? & ? & ? & ?).
    apply decode_frame_app; [done|]. split_and!; eauto; lia.
Qed.

(** ** A concrete writer and request *)

#[local] Existing Instance Reference.platform.
#[local] Existing Instance Reference.laws.

Module FrameSample.
#[export] Instance writer : JsonWriter := {|
  json_chunks v := match json_to_string v with Some s => [s] | None => [] end;
  write_position _ := (0, 0)%N;
  parse_position _ := (1, 1)%N;
|}.
#[export] Instance writer_laws : JsonWriterLaws writer.
Proof.
  split; unfold json_chunks, json_to_string; cbn.
  - intros v s [= <-]. by rewrite app_nil_r.
  - intros v [= H]. unfold Reference.write in H. by destruct (encode v).
Qed.

Definition request : RequestEnvelope := {|
  rq_protocol_version := 1; rq_command_schema_version := 1; rq_request_id := 5%positive;
  rq_authentication := Some {| sa_terminal_session_id := 3%positive; sa_token := "t" |};
  rq_command := CommandName.QueryRun; rq_arguments := VObject [("planId", VString "p")];
|}.
End FrameSample.
Import FrameSample.

Lemma frame_roundtrip_witness :
  ∃ frame, encode_frame FrameSample.request MAX_REQUEST_BYTES = Ok frame
    ∧ decode_frame frame MAX_REQUEST_BYTES = Ok FrameSample.request.
Proof.
  assert (request_ok FrameSample.request) as Hok by (split_and!; by vm_compute).
  destruct (json_to_string (to_value FrameSample.request)) as [s|] eqn:Hs; [|done].
  destruct (frame_roundtrip FrameSample.request MAX_REQUEST_BYTES s Hok Hs)
    as (Hiff & Hdec & _).
  assert (within_limits (to_value FrameSample.request)
    ∧ (str_len s ≤ N.min MAX_REQUEST_BYTES (Z.to_N u32_max))%N) as Hfit.
  { split; [by apply (bool_decide_unpack _); vm_compute|].
    assert (Hlen : (str_len (default "" (json_to_string (to_value FrameSample.request)))
      <=? N.min MAX_REQUEST_BYTES (Z.to_N u32_max))%N = true) by (vm_compute; reflexivity).
    rewrite Hs in Hlen. by apply N.leb_le in Hlen. }
  exists (to_be_bytes (str_len s) ++ bytes_of s).
  assert (encode_frame FrameSample.request MAX_REQUEST_BYTES
    = Ok (to_be_bytes (str_len s) ++ bytes_of s)) as He by by apply Hiff.
  split; [exact He|by apply Hdec].
Defined.
