(* ===== verification/CatalogData.v ===== *)
(** * Catalog V2 data and its serde conversions (dopedb-protocol/src/catalog.rs)

    The schema metadata DTOs, each with the conversion its derived [Serialize]
    and [Deserialize] perform. *)

From S2P Require Export SerdeJson.

(** [#[serde(rename_all = "snake_case")]] on an enum without data. *)
Definition parse_name {A} (serialize : A → string) (all : list A) (s : string) : option A :=
  List.find (λ c, serialize c =? s)%string all.

Module DatabaseEngine.
Inductive t := Postgres | Mysql | Sqlite | Mongodb.
Definition serialize (self : t) : string :=
  match self with
  | Postgres => "postgres" | Mysql => "mysql" | Sqlite => "sqlite" | Mongodb => "mongodb"
  end.
Definition ALL : list t := [Postgres; Mysql; Sqlite; Mongodb].
End DatabaseEngine.

Module ObjectKind.
Inductive t := Table | View | MaterializedView | Routine | Sequence | Type_ | Trigger | Other.
Definition serialize (self : t) : string :=
  match self with
  | Table => "table" | View => "view" | MaterializedView => "materialized_view"
  | Routine => "routine" | Sequence => "sequence" | Type_ => "type" | Trigger => "trigger"
  | Other => "other"
  end.
Definition ALL : list t :=
  [Table; View; MaterializedView; Routine; Sequence; Type_; Trigger; Other].
(** [object_kind_rank] *)
Definition rank (self : t) : Z :=
  match self with
  | Table => 0 | View => 1 | MaterializedView => 2 | Routine => 3 | Sequence => 4
  | Type_ => 5 | Trigger => 6 | Other => 7
  end.
End ObjectKind.

Module NormalizedTypeFamily.
Inductive t :=
| Boolean | Integer | Decimal | Float | Text | Binary | Json | Date | Time | Timestamp | Uuid
| Array | Document | Other.
Definition serialize (self : t) : string :=
  match self with
  | Boolean => "boolean" | Integer => "integer" | Decimal => "decimal" | Float => "float"
  | Text => "text" | Binary => "binary" | Json => "json" | Date => "date" | Time => "time"
  | Timestamp => "timestamp" | Uuid => "uuid" | Array => "array" | Document => "document"
  | Other => "other"
  end.
Definition ALL : list t :=
  [Boolean; Integer; Decimal; Float; Text; Binary; Json; Date; Time; Timestamp; Uuid; Array;
   Document; Other].
End NormalizedTypeFamily.

Module ConstraintKind.
Inductive t := Primary | Unique | Foreign | Check_.
Definition serialize (self : t) : string :=
  match self with
  | Primary => "primary" | Unique => "unique" | Foreign => "foreign" | Check_ => "check"
  end.
Definition ALL : list t := [Primary; Unique; Foreign; Check_].
(** [constraint_kind_rank] *)
Definition rank (self : t) : Z :=
  match self with Primary => 0 | Unique => 1 | Foreign => 2 | Check_ => 3 end.
End ConstraintKind.

Module SortDirection.
Inductive t := Asc | Desc.
Definition serialize (self : t) : string := match self with Asc => "asc" | Desc => "desc" end.
Definition ALL : list t := [Asc; Desc].
End SortDirection.

(** ** The records *)

Record Namespace := { ns_name : string; ns_comment : option string }.

Record ObjectRef := {
  obj_catalog : option string;
  obj_namespace : option string;
  obj_name : string;
  obj_kind : ObjectKind.t;
  obj_native_id : option string;
}.

Record Column := {
  col_name : string;
  col_ordinal : Z;
  col_native_type : string;
  col_type_family : NormalizedTypeFamily.t;
  col_length : option Z;
  col_precision : option Z;
  col_scale : option Z;
  col_nullable : bool;
  col_default_expression : option string;
  col_generated_expression : option string;
  col_identity : bool;
  col_auto_increment : bool;
  col_collation : option string;
  col_comment : option string;
  col_sensitivity : option string;
}.

Record Constraint := {
  con_name : string;
  con_kind : ConstraintKind.t;
  con_columns : list string;
  con_referenced_relation : option ObjectRef;
  con_referenced_columns : list string;
  con_check_expression : option string;
  con_update_action : option string;
  con_delete_action : option string;
  con_deferrable : bool;
  con_validated : bool;
}.

Record IndexKey := {
  key_column : option string;
  key_expression : option string;
  key_direction : option SortDirection.t;
}.

Record Index := {
  ix_name : string;
  ix_method : option string;
  ix_keys : list IndexKey;
  ix_included_columns : list string;
  ix_predicate : option string;
  ix_unique : bool;
  ix_valid : bool;
}.

Record Relation := {
  rel_object : ObjectRef;
  rel_comment : option string;
  rel_row_estimate : option Z;
  rel_partition_parent : option ObjectRef;
  rel_partition_children : list ObjectRef;
  rel_columns : list Column;
  rel_constraints : list Constraint;
  rel_indexes : list Index;
}.

Record Routine := {
  rou_object : ObjectRef;
  rou_native_kind : option string;
  rou_arguments : list string;
  rou_return_type : option string;
  rou_language : option string;
  rou_comment : option string;
  rou_detail : option string;
  rou_parent : option string;
}.

Record DatabaseObject := {
  dbo_object : ObjectRef;
  dbo_native_kind : option string;
  dbo_comment : option string;
  dbo_detail : option string;
  dbo_parent : option string;
}.

(** ** [Serialize] *)

Definition engine_to_value (e : DatabaseEngine.t) : Value := VString (DatabaseEngine.serialize e).

Definition namespace_to_value (n : Namespace) : Value :=
  ser_struct [("name", Some (VString (ns_name n)));
              ("comment", VString <$> ns_comment n)].

Definition object_ref_to_value (o : ObjectRef) : Value :=
  ser_struct [("catalog", VString <$> obj_catalog o);
              ("namespace", VString <$> obj_namespace o);
              ("name", Some (VString (obj_name o)));
              ("kind", Some (VString (ObjectKind.serialize (obj_kind o))));
              ("nativeId", VString <$> obj_native_id o)].

Definition column_to_value (c : Column) : Value :=
  ser_struct [("name", Some (VString (col_name c)));
              ("ordinal", Some (value_of_u64 (col_ordinal c)));
              ("nativeType", Some (VString (col_native_type c)));
              ("typeFamily", Some (VString (NormalizedTypeFamily.serialize (col_type_family c))));
              ("length", value_of_u64 <$> col_length c);
              ("precision", value_of_u64 <$> col_precision c);
              ("scale", value_of_u64 <$> col_scale c);
              ("nullable", Some (VBool (col_nullable c)));
              ("defaultExpression", VString <$> col_default_expression c);
              ("generatedExpression", VString <$> col_generated_expression c);
              ("identity", Some (VBool (col_identity c)));
              ("autoIncrement", Some (VBool (col_auto_increment c)));
              ("collation", VString <$> col_collation c);
              ("comment", VString <$> col_comment c);
              ("sensitivity", VString <$> col_sensitivity c)].

Definition constraint_to_value (c : Constraint) : Value :=
  ser_struct [("name", Some (VString (con_name c)));
              ("kind", Some (VString (ConstraintKind.serialize (con_kind c))));
              ("columns", Some (ser_list VString (con_columns c)));
              ("referencedRelation", object_ref_to_value <$> con_referenced_relation c);
              ("referencedColumns", Some (ser_list VString (con_referenced_columns c)));
              ("checkExpression", VString <$> con_check_expression c);
              ("updateAction", VString <$> con_update_action c);
              ("deleteAction", VString <$> con_delete_action c);
              ("deferrable", Some (VBool (con_deferrable c)));
              ("validated", Some (VBool (con_validated c)))].

Definition index_key_to_value (k : IndexKey) : Value :=
  ser_struct [("column", VString <$> key_column k);
              ("expression", VString <$> key_expression k);
              ("direction", (λ d, VString (SortDirection.serialize d)) <$> key_direction k)].

Definition index_to_value (i : Index) : Value :=
  ser_struct [("name", Some (VString (ix_name i)));
              ("method", VString <$> ix_method i);
              ("keys", Some (ser_list index_key_to_value (ix_keys i)));
              ("includedColumns", Some (ser_list VString (ix_included_columns i)));
              ("predicate", VString <$> ix_predicate i);
              ("unique", Some (VBool (ix_unique i)));
              ("valid", Some (VBool (ix_valid i)))].

Definition relation_to_value (r : Relation) : Value :=
  ser_struct [("object", Some (object_ref_to_value (rel_object r)));
              ("comment", VString <$> rel_comment r);
              ("rowEstimate", value_of_i64 <$> rel_row_estimate r);
              ("partitionParent", object_ref_to_value <$> rel_partition_parent r);
              ("partitionChildren", Some (ser_list object_ref_to_value (rel_partition_children r)));
              ("columns", Some (ser_list column_to_value (rel_columns r)));
              ("constraints", Some (ser_list constraint_to_value (rel_constraints r)));
              ("indexes", Some (ser_list index_to_value (rel_indexes r)))].

Definition routine_to_value (r : Routine) : Value :=
  ser_struct [("object", Some (object_ref_to_value (rou_object r)));
              ("nativeKind", VString <$> rou_native_kind r);
              ("arguments", Some (ser_list VString (rou_arguments r)));
              ("returnType", VString <$> rou_return_type r);
              ("language", VString <$> rou_language r);
              ("comment", VString <$> rou_comment r);
              ("detail", VString <$> rou_detail r);
              ("parent", VString <$> rou_parent r)].

Definition database_object_to_value (o : DatabaseObject) : Value :=
  ser_struct [("object", Some (object_ref_to_value (dbo_object o)));
              ("nativeKind", VString <$> dbo_native_kind o);
              ("comment", VString <$> dbo_comment o);
              ("detail", VString <$> dbo_detail o);
              ("parent", VString <$> dbo_parent o)].

(** ** [Deserialize] *)

Definition de_name {A} (serialize : A → string) (all : list A) : Value → option A :=
  de_variant (parse_name serialize all).
Definition optional {A} (de : Value → option A) : option Value → option (option A) :=
  defaulted None (de_option de).
Definition list_field {A} (de : Value → option A) : option Value → option (list A) :=
  defaulted [] (de_list de).

Definition engine_from_value : Value → option DatabaseEngine.t :=
  de_name DatabaseEngine.serialize DatabaseEngine.ALL.

Definition namespace_from_value : Value → option Namespace :=
  de_struct ["name"; "comment"] (λ field,
    name ← required de_string (field "name");
    comment ← optional de_string (field "comment");
    Some {| ns_name := name; ns_comment := comment |}).

Definition object_ref_from_value : Value → option ObjectRef :=
  de_struct ["catalog"; "namespace"; "name"; "kind"; "nativeId"] (λ field,
    catalog ← optional de_string (field "catalog");
    namespace ← optional de_string (field "namespace");
    name ← required de_string (field "name");
    kind ← required (de_name ObjectKind.serialize ObjectKind.ALL) (field "kind");
    native_id ← optional de_string (field "nativeId");
    Some {| obj_catalog := catalog; obj_namespace := namespace; obj_name := name;
            obj_kind := kind; obj_native_id := native_id |}).

Definition column_from_value : Value → option Column :=
  de_struct ["name"; "ordinal"; "nativeType"; "typeFamily"; "length"; "precision"; "scale";
             "nullable"; "defaultExpression"; "generatedExpression"; "identity"; "autoIncrement";
             "collation"; "comment"; "sensitivity"] (λ field,
    name ← required de_string (field "name");
    ordinal ← required de_u32 (field "ordinal");
    native_type ← required de_string (field "nativeType");
    type_family ← required (de_name NormalizedTypeFamily.serialize NormalizedTypeFamily.ALL)
                    (field "typeFamily");
    length ← optional de_u64 (field "length");
    precision ← optional de_u32 (field "precision");
    scale ← optional de_u32 (field "scale");
    nullable ← required de_bool (field "nullable");
    default_expression ← optional de_string (field "defaultExpression");
    generated_expression ← optional de_string (field "generatedExpression");
    identity ← required de_bool (field "identity");
    auto_increment ← required de_bool (field "autoIncrement");
    collation ← optional de_string (field "collation");
    comment ← optional de_string (field "comment");
    sensitivity ← optional de_string (field "sensitivity");
    Some {| col_name := name; col_ordinal := ordinal; col_native_type := native_type;
            col_type_family := type_family; col_length := length; col_precision := precision;
            col_scale := scale; col_nullable := nullable;
            col_default_expression := default_expression;
            col_generated_expression := generated_expression; col_identity := identity;
            col_auto_increment := auto_increment; col_collation := collation;
            col_comment := comment; col_sensitivity := sensitivity |}).

Definition constraint_from_value : Value → option Constraint :=
  de_struct ["name"; "kind"; "columns"; "referencedRelation"; "referencedColumns";
             "checkExpression"; "updateAction"; "deleteAction"; "deferrable"; "validated"]
  (λ field,
    name ← required de_string (field "name");
    kind ← required (de_name ConstraintKind.serialize ConstraintKind.ALL) (field "kind");
    columns ← list_field de_string (field "columns");
    referenced_relation ← optional object_ref_from_value (field "referencedRelation");
    referenced_columns ← list_field de_string (field "referencedColumns");
    check_expression ← optional de_string (field "checkExpression");
    update_action ← optional de_string (field "updateAction");
    delete_action ← optional de_string (field "deleteAction");
    deferrable ← required de_bool (field "deferrable");
    validated ← required de_bool (field "validated");
    Some {| con_name := name; con_kind := kind; con_columns := columns;
            con_referenced_relation := referenced_relation;
            con_referenced_columns := referenced_columns;
            con_check_expression := check_expression; con_update_action := update_action;
            con_delete_action := delete_action; con_deferrable := deferrable;
            con_validated := validated |}).

Definition index_key_from_value : Value → option IndexKey :=
  de_struct ["column"; "expression"; "direction"] (λ field,
    column ← optional de_string (field "column");
    expression ← optional de_string (field "expression");
    direction ← optional (de_name SortDirection.serialize SortDirection.ALL) (field "direction");
    Some {| key_column := column; key_expression := expression; key_direction := direction |}).

Definition index_from_value : Value → option Index :=
  de_struct ["name"; "method"; "keys"; "includedColumns"; "predicate"; "unique"; "valid"]
  (λ field,
    name ← required de_string (field "name");
    method ← optional de_string (field "method");
    keys ← list_field index_key_from_value (field "keys");
    included_columns ← list_field de_string (field "includedColumns");
    predicate ← optional de_string (field "predicate");
    unique ← required de_bool (field "unique");
    valid ← required de_bool (field "valid");
    Some {| ix_name := name; ix_method := method; ix_keys := keys;
            ix_included_columns := included_columns; ix_predicate := predicate;
            ix_unique := unique; ix_valid := valid |}).

Definition relation_from_value : Value → option Relation :=
  de_struct ["object"; "comment"; "rowEstimate"; "partitionParent"; "partitionChildren";
             "columns"; "constraints"; "indexes"] (λ field,
    object ← required object_ref_from_value (field "object");
    comment ← optional de_string (field "comment");
    row_estimate ← optional de_i64 (field "rowEstimate");
    partition_parent ← optional object_ref_from_value (field "partitionParent");
    partition_children ← list_field object_ref_from_value (field "partitionChildren");
    columns ← list_field column_from_value (field "columns");
    constraints ← list_field constraint_from_value (field "constraints");
    indexes ← list_field index_from_value (field "indexes");
    Some {| rel_object := object; rel_comment := comment; rel_row_estimate := row_estimate;
            rel_partition_parent := partition_parent;
            rel_partition_children := partition_children; rel_columns := columns;
            rel_constraints := constraints; rel_indexes := indexes |}).

Definition routine_from_value : Value → option Routine :=
  de_struct ["object"; "nativeKind"; "arguments"; "returnType"; "language"; "comment"; "detail";
             "parent"] (λ field,
    object ← required object_ref_from_value (field "object");
    native_kind ← optional de_string (field "nativeKind");
    arguments ← list_field de_string (field "arguments");
    return_type ← optional de_string (field "returnType");
    language ← optional de_string (field "language");
    comment ← optional de_string (field "comment");
    detail ← optional de_string (field "detail");
    parent ← optional de_string (field "parent");
    Some {| rou_object := object; rou_native_kind := native_kind; rou_arguments := arguments;
            rou_return_type := return_type; rou_language := language; rou_comment := comment;
            rou_detail := detail; rou_parent := parent |}).

Definition database_object_from_value : Value → option DatabaseObject :=
  de_struct ["object"; "nativeKind"; "comment"; "detail"; "parent"] (λ field,
    object ← required object_ref_from_value (field "object");
    native_kind ← optional de_string (field "nativeKind");
    comment ← optional de_string (field "comment");
    detail ← optional de_string (field "detail");
    parent ← optional de_string (field "parent");
    Some {| dbo_object := object; dbo_native_kind := native_kind; dbo_comment := comment;
            dbo_detail := detail; dbo_parent := parent |}).

(** ** Ranges of the Rust integers *)

Definition opt_within (lo hi : Z) (o : option Z) : Prop :=
  match o with Some n => lo ≤ n ≤ hi | None => True end.

Record column_ok (c : Column) : Prop := {
  col_ok_ordinal : 0 ≤ col_ordinal c ≤ u32_max;
  col_ok_length : opt_within 0 u64_max (col_length c);
  col_ok_precision : opt_within 0 u32_max (col_precision c);
  col_ok_scale : opt_within 0 u32_max (col_scale c);
}.

Record relation_ok (r : Relation) : Prop := {
  rel_ok_columns : Forall column_ok (rel_columns r);
  rel_ok_estimate : opt_within i64_min i64_max (rel_row_estimate r);
}.

(** ** Round trips *)

Lemma optional_roundtrip {A} (ser : A → Value) de o :
  (∀ x, o = Some x → de (ser x) = Some x) → (∀ x, ser x ≠ VNull) →
  optional de (ser <$> o) = Some o.
Proof. intros Ho Hn. apply defaulted_option_roundtrip. auto. Qed.

Lemma list_field_roundtrip {A} (ser : A → Value) de l :
  Forall (λ x, de (ser x) = Some x) l → list_field de (Some (ser_list ser l)) = Some l.
Proof. apply defaulted_list_roundtrip. Qed.

Lemma optional_string o : optional de_string (VString <$> o) = Some o.
Proof. by apply optional_roundtrip. Qed.

Lemma list_string l : list_field de_string (Some (ser_list VString l)) = Some l.
Proof. apply list_field_roundtrip. induction l; constructor; auto. Qed.

Lemma optional_u32 o :
  opt_within 0 u32_max o → optional de_u32 (value_of_u64 <$> o) = Some o.
Proof. intros Ho. apply optional_roundtrip; [|done]. intros n ->. by apply de_u32_roundtrip. Qed.

Lemma optional_u64 o :
  opt_within 0 u64_max o → optional de_u64 (value_of_u64 <$> o) = Some o.
Proof. intros Ho. by apply optional_roundtrip. Qed.

Lemma optional_i64 o :
  opt_within i64_min i64_max o → optional de_i64 (value_of_i64 <$> o) = Some o.
Proof. intros Ho. apply optional_roundtrip; [|done]. intros n ->. by apply de_i64_roundtrip. Qed.

Lemma engine_roundtrip e : engine_from_value (engine_to_value e) = Some e.
Proof. by destruct e. Qed.
Lemma object_kind_roundtrip k :
  de_name ObjectKind.serialize ObjectKind.ALL (VString (ObjectKind.serialize k)) = Some k.
Proof. by destruct k. Qed.
Lemma type_family_roundtrip k :
  de_name NormalizedTypeFamily.serialize NormalizedTypeFamily.ALL
    (VString (NormalizedTypeFamily.serialize k)) = Some k.
Proof. by destruct k. Qed.
Lemma constraint_kind_roundtrip k :
  de_name ConstraintKind.serialize ConstraintKind.ALL (VString (ConstraintKind.serialize k))
  = Some k.
Proof. by destruct k. Qed.
Lemma direction_roundtrip o :
  optional (de_name SortDirection.serialize SortDirection.ALL)
    ((λ d, VString (SortDirection.serialize d)) <$> o) = Some o.
Proof. by destruct o as [[]|]. Qed.

Lemma required_Some {A} (de : Value → option A) v : required de (Some v) = de v.
Proof. done. Qed.
Lemma de_string_VString s : de_string (VString s) = Some s.
Proof. done. Qed.
Lemma de_bool_VBool b : de_bool (VBool b) = Some b.
Proof. done. Qed.

#[export] Hint Rewrite @required_Some de_string_VString de_bool_VBool optional_string list_string
  engine_roundtrip object_kind_roundtrip type_family_roundtrip constraint_kind_roundtrip
  direction_roundtrip : serde_fields.
#[export] Hint Rewrite optional_u32 optional_u64 optional_i64 de_u32_roundtrip
  using assumption : serde_fields.

(** Decode what [ser_struct] wrote: look every field up, then decode it. *)
Ltac serde_lookup :=
  rewrite de_ser_struct by (vm_compute; reflexivity);
  rewrite !assoc_compact by (apply (bool_decide_unpack _); vm_compute; reflexivity);
  cbn [assoc String.eqb Ascii.eqb Bool.eqb mbind option_bind id].
Ltac serde_struct :=
  serde_lookup;
  repeat (progress autorewrite with serde_fields; cbn [mbind option_bind]).

Lemma namespace_roundtrip n : namespace_from_value (namespace_to_value n) = Some n.
Proof. destruct n. unfold namespace_from_value, namespace_to_value. by serde_struct. Qed.

Lemma object_ref_roundtrip o : object_ref_from_value (object_ref_to_value o) = Some o.
Proof. destruct o. unfold object_ref_from_value, object_ref_to_value. by serde_struct. Qed.

Lemma optional_object_ref o :
  optional object_ref_from_value (object_ref_to_value <$> o) = Some o.
Proof. apply optional_roundtrip; [|done]. intros x _. apply object_ref_roundtrip. Qed.

Lemma list_object_ref l :
  list_field object_ref_from_value (Some (ser_list object_ref_to_value l)) = Some l.
Proof. apply list_field_roundtrip, Forall_true, object_ref_roundtrip. Qed.

#[export] Hint Rewrite object_ref_roundtrip optional_object_ref list_object_ref : serde_fields.

Lemma column_roundtrip c : column_ok c → column_from_value (column_to_value c) = Some c.
Proof.
  destruct c. intros [Ho Hl Hp Hs]. cbn in Ho, Hl, Hp, Hs.
  unfold column_from_value, column_to_value. by serde_struct.
Qed.

Lemma constraint_roundtrip c : constraint_from_value (constraint_to_value c) = Some c.
Proof. destruct c. unfold constraint_from_value, constraint_to_value. by serde_struct. Qed.

Lemma index_key_roundtrip k : index_key_from_value (index_key_to_value k) = Some k.
Proof. destruct k. unfold index_key_from_value, index_key_to_value. by serde_struct. Qed.

Lemma list_index_key l :
  list_field index_key_from_value (Some (ser_list index_key_to_value l)) = Some l.
Proof. apply list_field_roundtrip, Forall_true, index_key_roundtrip. Qed.

#[export] Hint Rewrite list_index_key : serde_fields.

Lemma index_roundtrip i : index_from_value (index_to_value i) = Some i.
Proof. destruct i. unfold index_from_value, index_to_value. by serde_struct. Qed.

Lemma list_column l :
  Forall column_ok l → list_field column_from_value (Some (ser_list column_to_value l)) = Some l.
Proof.
  intros Hl. apply list_field_roundtrip. eapply Forall_impl; [exact Hl|].
  intros c. apply column_roundtrip.
Qed.

Lemma list_constraint l :
  list_field constraint_from_value (Some (ser_list constraint_to_value l)) = Some l.
Proof. apply list_field_roundtrip, Forall_true, constraint_roundtrip. Qed.

Lemma list_index l : list_field index_from_value (Some (ser_list index_to_value l)) = Some l.
Proof. apply list_field_roundtrip, Forall_true, index_roundtrip. Qed.

#[export] Hint Rewrite list_constraint list_index : serde_fields.
#[export] Hint Rewrite list_column using assumption : serde_fields.

Lemma relation_roundtrip r : relation_ok r → relation_from_value (relation_to_value r) = Some r.
Proof.
  destruct r. intros [Hc He]. cbn in Hc, He.
  unfold relation_from_value, relation_to_value. by serde_struct.
Qed.

Lemma routine_roundtrip r : routine_from_value (routine_to_value r) = Some r.
Proof. destruct r. unfold routine_from_value, routine_to_value. by serde_struct. Qed.

Lemma database_object_roundtrip o :
  database_object_from_value (database_object_to_value o) = Some o.
Proof. destruct o. unfold database_object_from_value, database_object_to_value. by serde_struct. Qed.

(** ** The values are exact: their text determines them *)

Lemma string_exact s : value_exact (VString s) = true.
Proof. done. Qed.
Lemma bool_exact b : value_exact (VBool b) = true.
Proof. done. Qed.
Lemma u64_exact n : 0 ≤ n ≤ u64_max → value_exact (value_of_u64 n) = true.
Proof.
  intros Hn. unfold value_exact, value_of_u64. cbn. rewrite andb_true_r. apply andb_true_iff.
  split; apply Z.leb_le; lia.
Qed.
Lemma u32_exact n : 0 ≤ n ≤ u32_max → value_exact (value_of_u64 n) = true.
Proof. intros Hn. apply u64_exact. unfold u32_max, u64_max in *. lia. Qed.
Lemma i64_exact n : i64_min ≤ n ≤ i64_max → value_exact (value_of_i64 n) = true.
Proof.
  intros Hn. unfold value_exact, value_of_i64. destruct (Z.leb_spec 0 n); cbn;
    rewrite andb_true_r; apply andb_true_iff; unfold u64_max, i64_max, i64_min in *;
    split; (apply Z.leb_le || apply Z.ltb_lt); lia.
Qed.

(** A field that may be left out. *)
Definition field_exact (o : option Value) : Prop :=
  match o with Some v => value_exact v = true | None => True end.

Lemma option_exact {A} (ser : A → Value) o :
  (∀ x, o = Some x → value_exact (ser x) = true) → field_exact (ser <$> o).
Proof. destruct o; cbn; auto. Qed.

Lemma list_exact {A} (ser : A → Value) l :
  Forall (λ x, value_exact (ser x) = true) l → field_exact (Some (ser_list ser l)).
Proof. intros Hl. apply array_exact. by apply Forall_map. Qed.

Lemma struct_exact fields :
  bool_decide (NoDup fields.*1) = true → Forall (λ kv, field_exact kv.2) fields →
  value_exact (ser_struct fields) = true.
Proof. apply ser_struct_exact. Qed.

Lemma strings_exact l : field_exact (Some (ser_list VString l)).
Proof. apply list_exact, Forall_true. done. Qed.
Lemma option_string_exact o : field_exact (VString <$> o).
Proof. by apply option_exact. Qed.

#[export] Hint Resolve string_exact bool_exact u32_exact u64_exact i64_exact strings_exact
  option_string_exact : exact.

Ltac struct_exact :=
  apply struct_exact; [by vm_compute|];
  repeat (apply Forall_cons; split; [cbn [snd]|]); [..|by apply Forall_nil];
  auto with exact; cbn [field_exact]; auto with exact.

Lemma namespace_exact n : value_exact (namespace_to_value n) = true.
Proof. struct_exact. Qed.

Lemma object_ref_exact o : value_exact (object_ref_to_value o) = true.
Proof. struct_exact. Qed.

Lemma opt_u64_exact hi o : opt_within 0 hi o → hi ≤ u64_max → field_exact (value_of_u64 <$> o).
Proof. intros Ho Hh. apply option_exact. intros n ->. apply u64_exact. cbn in Ho. lia. Qed.

Lemma opt_object_ref_exact o : field_exact (object_ref_to_value <$> o).
Proof. apply option_exact. intros x _. apply object_ref_exact. Qed.

Lemma list_object_ref_exact l : field_exact (Some (ser_list object_ref_to_value l)).
Proof. apply list_exact, Forall_true, object_ref_exact. Qed.

#[export] Hint Resolve object_ref_exact opt_object_ref_exact list_object_ref_exact : exact.

Lemma column_exact c : column_ok c → value_exact (column_to_value c) = true.
Proof. intros [Ho Hl Hp Hs]. struct_exact; by eapply opt_u64_exact. Qed.

Lemma constraint_exact c : value_exact (constraint_to_value c) = true.
Proof. struct_exact. Qed.

Lemma index_key_exact k : value_exact (index_key_to_value k) = true.
Proof. struct_exact. by apply option_exact. Qed.

Lemma index_exact i : value_exact (index_to_value i) = true.
Proof. struct_exact. apply list_exact, Forall_true, index_key_exact. Qed.

Lemma routine_exact r : value_exact (routine_to_value r) = true.
Proof. struct_exact. Qed.

Lemma database_object_exact o : value_exact (database_object_to_value o) = true.
Proof. struct_exact. Qed.
