(* ===== verification/Catalog.v ===== *)
(** * Catalog snapshots and their fingerprint (dopedb-protocol/src/catalog.rs)

    [capture] puts the schema metadata in a canonical order and hashes its
    serialisation; [new], used by the deserializer, recomputes the hash.  Row
    estimates, the connection, the database and the capture time are not hashed.
    [serde_json::to_vec] is the crate's serializer; a computation that would
    panic in its [expect] is [None]. *)

From S2P Require Export CatalogData Canonical.

Definition CATALOG_SCHEMA_VERSION : Z := 2.

Record CatalogContents := {
  cc_namespaces : list Namespace;
  cc_relations : list Relation;
  cc_routines : list Routine;
  cc_other_objects : list DatabaseObject;
}.

Inductive CatalogValidationError :=
| SchemaVersion (actual expected : Z)
| Fingerprint
| FingerprintMismatch
| EmptyDatabase.

Definition valid_fingerprint (fingerprint : string) : bool :=
  (str_len fingerprint =? 64)%N && forallb is_lower_hex (bytes_of fingerprint).

(** [RelationFingerprintPayload] *)
Definition relation_fingerprint_payload (r : Relation) : Value :=
  ser_struct [("object", Some (object_ref_to_value (rel_object r)));
              ("comment", VString <$> rel_comment r);
              ("partitionParent", object_ref_to_value <$> rel_partition_parent r);
              ("partitionChildren", Some (ser_list object_ref_to_value (rel_partition_children r)));
              ("columns", Some (ser_list column_to_value (rel_columns r)));
              ("constraints", Some (ser_list constraint_to_value (rel_constraints r)));
              ("indexes", Some (ser_list index_to_value (rel_indexes r)))].

(** [CatalogFingerprintPayload] *)
Definition catalog_fingerprint_payload (engine : DatabaseEngine.t) (c : CatalogContents) : Value :=
  ser_struct [("schemaVersion", Some (value_of_u64 CATALOG_SCHEMA_VERSION));
              ("engine", Some (engine_to_value engine));
              ("namespaces", Some (ser_list namespace_to_value (cc_namespaces c)));
              ("relations", Some (ser_list relation_fingerprint_payload (cc_relations c)));
              ("routines", Some (ser_list routine_to_value (cc_routines c)));
              ("otherObjects", Some (ser_list database_object_to_value (cc_other_objects c)))].

(** Comparison of tuples: component by component. *)
Definition opt_str_cmp : option string → option string → comparison := option_cmp string_cmp.

Definition compare_object_ref (left_ right_ : ObjectRef) : comparison :=
  then_with (opt_str_cmp (obj_catalog left_) (obj_catalog right_))
    (then_with (opt_str_cmp (obj_namespace left_) (obj_namespace right_))
      (then_with (string_cmp (obj_name left_) (obj_name right_))
        (then_with (ObjectKind.rank (obj_kind left_) ?= ObjectKind.rank (obj_kind right_))
          (opt_str_cmp (obj_native_id left_) (obj_native_id right_))))).

Section catalog.
Context {P : Platform}.

(** [compare_serialized]: [to_vec(..).unwrap_or_default()], compared as bytes. *)
Definition serialized (v : Value) : string := default "" (json_to_string v).
Definition compare_serialized {A} (ser : A → Value) (left_ right_ : A) : comparison :=
  string_cmp (serialized (ser left_)) (serialized (ser right_)).

(** The comparators of [canonicalize_contents]. *)
Definition namespace_cmp (left_ right_ : Namespace) : comparison :=
  then_with (string_cmp (ns_name left_) (ns_name right_))
    (opt_str_cmp (ns_comment left_) (ns_comment right_)).
Definition column_cmp (left_ right_ : Column) : comparison :=
  then_with (then_with (col_ordinal left_ ?= col_ordinal right_)
               (string_cmp (col_name left_) (col_name right_)))
    (compare_serialized column_to_value left_ right_).
Definition constraint_cmp (left_ right_ : Constraint) : comparison :=
  then_with (then_with (ConstraintKind.rank (con_kind left_) ?= ConstraintKind.rank (con_kind right_))
               (string_cmp (con_name left_) (con_name right_)))
    (compare_serialized constraint_to_value left_ right_).
Definition index_cmp (left_ right_ : Index) : comparison :=
  then_with (string_cmp (ix_name left_) (ix_name right_))
    (compare_serialized index_to_value left_ right_).
Definition relation_cmp (left_ right_ : Relation) : comparison :=
  then_with (compare_object_ref (rel_object left_) (rel_object right_))
    (compare_serialized relation_fingerprint_payload left_ right_).
Definition routine_cmp (left_ right_ : Routine) : comparison :=
  then_with (compare_object_ref (rou_object left_) (rou_object right_))
    (compare_serialized routine_to_value left_ right_).
Definition database_object_cmp (left_ right_ : DatabaseObject) : comparison :=
  then_with (compare_object_ref (dbo_object left_) (dbo_object right_))
    (compare_serialized database_object_to_value left_ right_).

(** The body of [for relation in &mut contents.relations]. *)
Definition canonicalize_relation (r : Relation) : Relation :=
  {| rel_object := rel_object r;
     rel_comment := rel_comment r;
     rel_row_estimate := rel_row_estimate r;
     rel_partition_parent := rel_partition_parent r;
     rel_partition_children := sort_by compare_object_ref (rel_partition_children r);
     rel_columns := sort_by column_cmp (rel_columns r);
     rel_constraints := sort_by constraint_cmp (rel_constraints r);
     rel_indexes := sort_by index_cmp (rel_indexes r) |}.

Definition canonicalize_contents (c : CatalogContents) : CatalogContents :=
  {| cc_namespaces := sort_by namespace_cmp (cc_namespaces c);
     cc_relations := sort_by relation_cmp (map canonicalize_relation (cc_relations c));
     cc_routines := sort_by routine_cmp (cc_routines c);
     cc_other_objects := sort_by database_object_cmp (cc_other_objects c) |}.

Definition catalog_fingerprint (engine : DatabaseEngine.t) (contents : CatalogContents)
  : option string :=
  canonical ← json_to_string (catalog_fingerprint_payload engine contents);
  Some (lower_hex (sha256 (bytes_of canonical))).

Record CatalogSnapshot := {
  cs_schema_version : Z;
  cs_connection_id : Uuid;
  cs_engine : DatabaseEngine.t;
  cs_database : string;
  cs_captured_at : DateTime;
  cs_fingerprint : string;
  cs_contents : CatalogContents;
}.

Definition from_canonical_parts (connection_id : Uuid) (engine : DatabaseEngine.t)
  (database : string) (captured_at : DateTime) (fingerprint : string)
  (contents : CatalogContents) : CatalogSnapshot :=
  {| cs_schema_version := CATALOG_SCHEMA_VERSION; cs_connection_id := connection_id;
     cs_engine := engine; cs_database := database; cs_captured_at := captured_at;
     cs_fingerprint := fingerprint; cs_contents := contents |}.

Definition validate_shape (self : CatalogSnapshot) : result CatalogValidationError unit :=
  if negb (cs_schema_version self =? CATALOG_SCHEMA_VERSION)
  then Err (SchemaVersion (cs_schema_version self) CATALOG_SCHEMA_VERSION)
  else if is_blank (cs_database self) then Err EmptyDatabase
  else if negb (valid_fingerprint (cs_fingerprint self)) then Err Fingerprint
  else Ok tt.

Definition canonical_fingerprint (self : CatalogSnapshot) : option string :=
  catalog_fingerprint (cs_engine self) (canonicalize_contents (cs_contents self)).

Definition has_canonical_fingerprint (self : CatalogSnapshot) : option bool :=
  canonical ← canonical_fingerprint self;
  Some (cs_fingerprint self =? canonical)%string.

(** [validate] *)
Definition validate_snapshot (self : CatalogSnapshot)
  : option (result CatalogValidationError unit) :=
  match validate_shape self with
  | Err e => Some (Err e)
  | Ok _ =>
      matches ← has_canonical_fingerprint self;
      Some (if negb matches then Err FingerprintMismatch else Ok tt)
  end.

(** [CatalogSnapshot::capture], [CatalogSnapshot::new] *)
Definition capture (connection_id : Uuid) (engine : DatabaseEngine.t) (database : string)
  (captured_at : DateTime) (contents : CatalogContents)
  : option (result CatalogValidationError CatalogSnapshot) :=
  let contents := canonicalize_contents contents in
  fingerprint ← catalog_fingerprint engine contents;
  let snapshot :=
    from_canonical_parts connection_id engine database captured_at fingerprint contents in
  Some (_ ← validate_shape snapshot; Ok snapshot).

Definition new_snapshot (connection_id : Uuid) (engine : DatabaseEngine.t) (database : string)
  (captured_at : DateTime) (fingerprint : string) (contents : CatalogContents)
  : option (result CatalogValidationError CatalogSnapshot) :=
  let contents := canonicalize_contents contents in
  let snapshot :=
    from_canonical_parts connection_id engine database captured_at fingerprint contents in
  checked ← validate_snapshot snapshot;
  Some (_ ← checked; Ok snapshot).
End catalog.

(** ** Wire snapshots *)

Section wire.
Context {P : Platform} {C : ChronoSerde}.

Definition snapshot_to_value (s : CatalogSnapshot) : Value :=
  ser_struct
    [("schemaVersion", Some (value_of_u64 (cs_schema_version s)));
     ("connectionId", Some (VString (uuid_to_string (cs_connection_id s))));
     ("engine", Some (engine_to_value (cs_engine s)));
     ("database", Some (VString (cs_database s)));
     ("capturedAt", Some (VString (datetime_to_string (cs_captured_at s))));
     ("fingerprint", Some (VString (cs_fingerprint s)));
     ("namespaces", Some (ser_list namespace_to_value (cc_namespaces (cs_contents s))));
     ("relations", Some (ser_list relation_to_value (cc_relations (cs_contents s))));
     ("routines", Some (ser_list routine_to_value (cc_routines (cs_contents s))));
     ("otherObjects", Some (ser_list database_object_to_value (cc_other_objects (cs_contents s))))].

Definition de_datetime (v : Value) : option DateTime := s ← as_str v; datetime_from_str s.

(** [WireCatalogSnapshot] *)
Definition wire_snapshot : Value → option CatalogSnapshot :=
  de_struct ["schemaVersion"; "connectionId"; "engine"; "database"; "capturedAt"; "fingerprint";
             "namespaces"; "relations"; "routines"; "otherObjects"] (λ field,
    schema_version ← required de_u32 (field "schemaVersion");
    connection_id ← required de_uuid (field "connectionId");
    engine ← required engine_from_value (field "engine");
    database ← required de_string (field "database");
    captured_at ← required de_datetime (field "capturedAt");
    fingerprint ← required de_string (field "fingerprint");
    namespaces ← list_field namespace_from_value (field "namespaces");
    relations ← list_field relation_from_value (field "relations");
    routines ← list_field routine_from_value (field "routines");
    other_objects ← list_field database_object_from_value (field "otherObjects");
    Some {| cs_schema_version := schema_version; cs_connection_id := connection_id;
            cs_engine := engine; cs_database := database; cs_captured_at := captured_at;
            cs_fingerprint := fingerprint;
            cs_contents := {| cc_namespaces := namespaces; cc_relations := relations;
                              cc_routines := routines; cc_other_objects := other_objects |} |}).

(** A refusal of [new] is a deserialization error. *)
Definition snapshot_from_value (v : Value) : option CatalogSnapshot :=
  wire ← wire_snapshot v;
  if negb (cs_schema_version wire =? CATALOG_SCHEMA_VERSION) then None
  else
    created ← new_snapshot (cs_connection_id wire) (cs_engine wire) (cs_database wire)
                (cs_captured_at wire) (cs_fingerprint wire) (cs_contents wire);
    result_ok created.
End wire.

(** ** The comparators are total orders *)

#[export] Instance opt_str_cmp_total : TotalCmp opt_str_cmp.
Proof. apply _. Qed.

Ltac total_cmp f :=
  first [apply (TotalCmp_on f opt_str_cmp) | apply (TotalCmp_on f string_cmp)
        | apply (TotalCmp_on f Z.compare)]; apply _.

#[export] Instance compare_object_ref_total : TotalCmp compare_object_ref.
Proof.
  apply then_with_total; [total_cmp obj_catalog|].
  apply then_with_total; [total_cmp obj_namespace|].
  apply then_with_total; [total_cmp obj_name|].
  apply then_with_total; [total_cmp (λ o, ObjectKind.rank (obj_kind o))|total_cmp obj_native_id].
Qed.

Section orders.
Context {P : Platform}.

#[export] Instance compare_serialized_total {A} (ser : A → Value) :
  TotalCmp (compare_serialized ser).
Proof. apply (TotalCmp_on (λ x, serialized (ser x)) string_cmp). apply _. Qed.

#[export] Instance namespace_cmp_total : TotalCmp namespace_cmp.
Proof. apply then_with_total; [total_cmp ns_name|total_cmp ns_comment]. Qed.

#[export] Instance column_cmp_total : TotalCmp column_cmp.
Proof.
  apply then_with_total; [|apply _].
  apply then_with_total; [total_cmp col_ordinal|total_cmp col_name].
Qed.

#[export] Instance constraint_cmp_total : TotalCmp constraint_cmp.
Proof.
  apply then_with_total; [|apply _].
  apply then_with_total; [total_cmp (λ c, ConstraintKind.rank (con_kind c))|total_cmp con_name].
Qed.

#[export] Instance index_cmp_total : TotalCmp index_cmp.
Proof. apply then_with_total; [total_cmp ix_name|apply _]. Qed.

#[export] Instance routine_cmp_total : TotalCmp routine_cmp.
Proof.
  apply then_with_total; [|apply _]. apply (TotalCmp_on rou_object compare_object_ref). apply _.
Qed.

#[export] Instance database_object_cmp_total : TotalCmp database_object_cmp.
Proof.
  apply then_with_total; [|apply _]. apply (TotalCmp_on dbo_object compare_object_ref). apply _.
Qed.
End orders.

(** ** What the fingerprint identifies *)

(** The same table up to the order of its parts and the row estimate. *)
Record same_relation (r r' : Relation) : Prop := {
  sr_object : rel_object r = rel_object r';
  sr_comment : rel_comment r = rel_comment r';
  sr_partition_parent : rel_partition_parent r = rel_partition_parent r';
  sr_partition_children : rel_partition_children r ≡ₚ rel_partition_children r';
  sr_columns : rel_columns r ≡ₚ rel_columns r';
  sr_constraints : rel_constraints r ≡ₚ rel_constraints r';
  sr_indexes : rel_indexes r ≡ₚ rel_indexes r';
}.

Record same_schema (c c' : CatalogContents) : Prop := {
  ss_namespaces : cc_namespaces c ≡ₚ cc_namespaces c';
  ss_relations : ∃ l, cc_relations c' ≡ₚ l ∧ Forall2 same_relation (cc_relations c) l;
  ss_routines : cc_routines c ≡ₚ cc_routines c';
  ss_other_objects : cc_other_objects c ≡ₚ cc_other_objects c';
}.

Definition contents_ok (c : CatalogContents) : Prop := Forall relation_ok (cc_relations c).

(** A relation without its row estimate, which is what is hashed. *)
Definition erase (r : Relation) : Relation :=
  {| rel_object := rel_object r; rel_comment := rel_comment r; rel_row_estimate := None;
     rel_partition_parent := rel_partition_parent r;
     rel_partition_children := rel_partition_children r; rel_columns := rel_columns r;
     rel_constraints := rel_constraints r; rel_indexes := rel_indexes r |}.

Lemma payload_erase r : relation_fingerprint_payload r = relation_to_value (erase r).
Proof. done. Qed.

Lemma erase_ok r : relation_ok r → relation_ok (erase r).
Proof. by intros [? _]. Qed.

Lemma list_exact_ok {A} (ok : A → Prop) ser l :
  (∀ x, ok x → value_exact (ser x) = true) → Forall ok l → field_exact (Some (ser_list ser l)).
Proof. intros He Hl. apply list_exact. eapply Forall_impl; [exact Hl|done]. Qed.

Lemma relation_exact r : relation_ok r → value_exact (relation_to_value r) = true.
Proof.
  intros [Hc He]. struct_exact.
  - apply option_exact. intros n Hn. apply i64_exact. by rewrite Hn in He.
  - eapply list_exact_ok; [apply column_exact|done].
  - apply list_exact, Forall_true, constraint_exact.
  - apply list_exact, Forall_true, index_exact.
Qed.

(** An injective serialisation: its inverse decodes. *)
Lemma roundtrip_inj {A} (ok : A → Prop) (ser : A → Value) de x y :
  (∀ x, ok x → de (ser x) = Some x) → ok x → ok y → ser x = ser y → x = y.
Proof. intros Hr Hx Hy He. pose proof (Hr x Hx). pose proof (Hr y Hy). congruence. Qed.

Section fingerprint.
Context {P : Platform} {L : PlatformLaws P}.

Lemma serialized_inj v w :
  value_exact v = true → value_exact w = true → serialized v = serialized w → v = w.
Proof.
  intros Hv Hw H. unfold serialized in H.
  assert (∀ v, value_exact v = true → is_Some (json_to_string v)) as Hs.
  { intros u [Hu _]%andb_true_iff. by apply json_total. }
  destruct (Hs v Hv) as [s E], (Hs w Hw) as [t E']. rewrite E, E' in H. cbn in H. subst t.
  eapply json_to_string_inj; eauto.
Qed.

Lemma compare_serialized_eq {A} (ok : A → Prop) (ser : A → Value) de x y :
  (∀ x, ok x → value_exact (ser x) = true) → (∀ x, ok x → de (ser x) = Some x) →
  ok x → ok y → compare_serialized ser x y = Eq → x = y.
Proof.
  intros He Hr Hx Hy H%string_cmp_eq%serialized_inj; [|by apply He..].
  by apply (roundtrip_inj ok ser de).
Qed.

Lemma then_with_Eq a b : then_with a b = Eq → b = Eq.
Proof. by destruct a. Qed.

Lemma opt_str_cmp_eq o o' : opt_str_cmp o o' = Eq → o = o'.
Proof. destruct o, o'; cbn; try done. by intros ->%string_cmp_eq. Qed.

Lemma compare_object_ref_eq x y : compare_object_ref x y = Eq → x = y.
Proof.
  unfold compare_object_ref, then_with. destruct x as [a b c k i], y as [a' b' c' k' i'].
  cbn [obj_catalog obj_namespace obj_name obj_kind obj_native_id].
  repeat (case_match; [|done..]). intros Hi.
  repeat match goal with
  | H : opt_str_cmp _ _ = Eq |- _ => apply opt_str_cmp_eq in H
  | H : string_cmp _ _ = Eq |- _ => apply string_cmp_eq in H
  end. subst. destruct k, k'; done.
Qed.

Lemma namespace_cmp_eq x y : namespace_cmp x y = Eq → x = y.
Proof.
  unfold namespace_cmp, then_with. destruct x as [n c], y as [n' c']. cbn.
  case_match eqn:Hn; try done. apply string_cmp_eq in Hn as ->. by intros ->%opt_str_cmp_eq.
Qed.

Lemma column_cmp_eq x y : column_ok x → column_ok y → column_cmp x y = Eq → x = y.
Proof.
  intros Hx Hy H%then_with_Eq. revert H.
  apply (compare_serialized_eq column_ok column_to_value column_from_value);
    auto using column_exact, column_roundtrip.
Qed.

Abbreviation any := (λ _, True).

Lemma constraint_cmp_eq x y : constraint_cmp x y = Eq → x = y.
Proof.
  intros H%then_with_Eq. revert H.
  apply (compare_serialized_eq any constraint_to_value constraint_from_value);
    auto using constraint_exact, constraint_roundtrip.
Qed.

Lemma index_cmp_eq x y : index_cmp x y = Eq → x = y.
Proof.
  intros H%then_with_Eq. revert H.
  apply (compare_serialized_eq any index_to_value index_from_value);
    auto using index_exact, index_roundtrip.
Qed.

Lemma routine_cmp_eq x y : routine_cmp x y = Eq → x = y.
Proof.
  intros H%then_with_Eq. revert H.
  apply (compare_serialized_eq any routine_to_value routine_from_value);
    auto using routine_exact, routine_roundtrip.
Qed.

Lemma database_object_cmp_eq x y : database_object_cmp x y = Eq → x = y.
Proof.
  intros H%then_with_Eq. revert H.
  apply (compare_serialized_eq any database_object_to_value database_object_from_value);
    auto using database_object_exact, database_object_roundtrip.
Qed.
Lemma sort_columns_perm l l' :
  Forall column_ok l → l ≡ₚ l' → sort_by column_cmp l = sort_by column_cmp l'.
Proof.
  intros Hl. apply sort_by_perm_eq; [apply _|]. rewrite Forall_forall in Hl.
  intros x y Hx Hy. apply column_cmp_eq; auto.
Qed.

Lemma sorted_perm {A} (cmp : A → A → comparison) {T : TotalCmp cmp} l l' :
  (∀ x y, cmp x y = Eq → x = y) → l ≡ₚ l' ↔ sort_by cmp l = sort_by cmp l'.
Proof. split; [apply sort_by_perm_eq; auto|apply sort_by_eq_perm]. Qed.

Lemma canonicalize_relation_ok r : relation_ok r → relation_ok (canonicalize_relation r).
Proof. intros [Hc He]. split; [|done]. cbn. by rewrite sort_by_perm. Qed.

(** Two relations are hashed alike exactly when they are the same table. *)
Lemma same_relation_payload r r' :
  relation_ok r → relation_ok r' →
  relation_fingerprint_payload (canonicalize_relation r)
    = relation_fingerprint_payload (canonicalize_relation r')
  ↔ same_relation r r'.
Proof.
  intros Hr Hr'. rewrite !payload_erase. split.
  - intros He. assert (erase (canonicalize_relation r) = erase (canonicalize_relation r')) as E.
    { apply (roundtrip_inj relation_ok relation_to_value relation_from_value);
        auto using relation_roundtrip, erase_ok, canonicalize_relation_ok. }
    unfold erase, canonicalize_relation in E. cbn in E. injection E as E1 E2 E3 E4 E5 E6 E7.
    split; try done; by eapply sort_by_eq_perm.
  - intros [E1 E2 E3 E4 E5 E6 E7]. f_equal. unfold erase, canonicalize_relation. cbn.
    rewrite E1, E2, E3. destruct Hr as [Hc _]. f_equal.
    + apply sorted_perm; [apply _|apply compare_object_ref_eq|done].
    + by apply sort_columns_perm.
    + apply sorted_perm; [apply _|apply constraint_cmp_eq|done].
    + apply sorted_perm; [apply _|apply index_cmp_eq|done].
Qed.

(** The relations as [relation_cmp] sees them. *)
Definition relation_key (r : Relation) : ObjectRef * Value :=
  (rel_object r, relation_fingerprint_payload r).
Definition key_pair_cmp (x y : ObjectRef * Value) : comparison :=
  then_with (compare_object_ref x.1 y.1) (compare_serialized snd x y).

Instance key_pair_cmp_total : TotalCmp key_pair_cmp.
Proof.
  apply then_with_total; [|apply _]. apply (TotalCmp_on fst compare_object_ref). apply _.
Qed.

Lemma sort_relation_keys l :
  map relation_key (sort_by relation_cmp l) = sort_by key_pair_cmp (map relation_key l).
Proof. exact (sort_by_fmap relation_key key_pair_cmp l). Qed.

Lemma payload_exact_ok r :
  relation_ok r → value_exact (relation_fingerprint_payload r) = true.
Proof. intros Hr. rewrite payload_erase. by apply relation_exact, erase_ok. Qed.

Lemma same_relation_key r r' :
  relation_ok r → relation_ok r' → same_relation r r' →
  relation_key (canonicalize_relation r) = relation_key (canonicalize_relation r').
Proof.
  intros Hr Hr' Hs. unfold relation_key. f_equal; [apply Hs|by apply same_relation_payload].
Qed.

Abbreviation canonical_keys l := (map relation_key (map canonicalize_relation l)).

Lemma canonical_keys_sorted l l' :
  Forall relation_ok l → canonical_keys l ≡ₚ canonical_keys l' →
  sort_by key_pair_cmp (canonical_keys l) = sort_by key_pair_cmp (canonical_keys l').
Proof.
  intros Hl. apply sort_by_perm_eq; [apply _|]. rewrite map_map.
  assert (∀ x, x ∈ map (λ r, relation_key (canonicalize_relation r)) l → value_exact x.2 = true)
    as He.
  { intros x (r & -> & Hr)%list_elem_of_fmap. rewrite Forall_forall in Hl.
    by apply payload_exact_ok, canonicalize_relation_ok, Hl. }
  intros [o v] [o' v'] Hx Hy H. f_equal.
  - apply compare_object_ref_eq. unfold key_pair_cmp, then_with in H. cbn in H.
    by case_match.
  - apply then_with_Eq in H. apply string_cmp_eq in H.
    apply serialized_inj; [apply (He _ Hx)|apply (He _ Hy)|done].
Qed.

Lemma relations_payload l l' :
  Forall relation_ok l → Forall relation_ok l' →
  map relation_fingerprint_payload (sort_by relation_cmp (map canonicalize_relation l))
    = map relation_fingerprint_payload (sort_by relation_cmp (map canonicalize_relation l'))
  ↔ ∃ m, l' ≡ₚ m ∧ Forall2 same_relation l m.
Proof.
  intros Hl Hl'. split.
  - intros He.
    assert (map (λ r, relation_fingerprint_payload (canonicalize_relation r)) l
      ≡ₚ map (λ r, relation_fingerprint_payload (canonicalize_relation r)) l') as Hp.
    { rewrite <-(map_map canonicalize_relation relation_fingerprint_payload l),
        <-(map_map canonicalize_relation relation_fingerprint_payload l').
      rewrite <-(sort_by_perm relation_cmp (map canonicalize_relation l)), He.
      by rewrite sort_by_perm. }
    apply Permutation_map_inv in Hp as (m & Hm & Hp). exists m. split; [done|].
    assert (Forall relation_ok m) as Hok by (by rewrite <-Hp).
    apply map_eq_Forall2 in Hm. clear He Hp Hl'. induction Hm as [|r r' l m Hr Hm IH]; [done|].
    apply Forall_cons in Hl as [Hr1 Hl], Hok as [Hr2 Hok].
    constructor; [by apply (proj1 (same_relation_payload _ _ Hr1 Hr2))|by apply IH].
  - intros (m & Hp & Hs).
    assert (∀ k, map relation_fingerprint_payload (sort_by relation_cmp k)
      = map snd (sort_by key_pair_cmp (map relation_key k))) as Hk
      by (intros k; rewrite <-sort_relation_keys, map_map; done).
    rewrite !Hk. f_equal. apply canonical_keys_sorted; [done|]. rewrite Hp.
    assert (Forall relation_ok m) as Hok by (by rewrite <-Hp).
    enough (canonical_keys l = canonical_keys m) as -> by done.
    clear Hp Hk Hl'. induction Hs as [|r r' l m Hr Hs IH]; [done|].
    apply Forall_cons in Hl as [? ?], Hok as [? ?]. cbn. f_equal; [by apply same_relation_key|auto].
Qed.
Lemma namespaces_inj l l' : map namespace_to_value l = map namespace_to_value l' → l = l'.
Proof.
  apply map_inj_in. intros x y _ _. apply (roundtrip_inj any namespace_to_value namespace_from_value);
    auto using namespace_roundtrip.
Qed.
Lemma routines_inj l l' : map routine_to_value l = map routine_to_value l' → l = l'.
Proof.
  apply map_inj_in. intros x y _ _. apply (roundtrip_inj any routine_to_value routine_from_value);
    auto using routine_roundtrip.
Qed.
Lemma database_objects_inj l l' :
  map database_object_to_value l = map database_object_to_value l' → l = l'.
Proof.
  apply map_inj_in. intros x y _ _.
  apply (roundtrip_inj any database_object_to_value database_object_from_value);
    auto using database_object_roundtrip.
Qed.

(** The hashed value of two catalogs is the same exactly for the same schema. *)
Lemma catalog_payload_inj e e' c c' :
  contents_ok c → contents_ok c' →
  catalog_fingerprint_payload e (canonicalize_contents c)
    = catalog_fingerprint_payload e' (canonicalize_contents c')
  ↔ e = e' ∧ same_schema c c'.
Proof.
  intros Hc Hc'. unfold catalog_fingerprint_payload, ser_struct, canonicalize_contents.
  cbn [cc_namespaces cc_relations cc_routines cc_other_objects compact omap list_omap fst snd fmap
       option_fmap option_map]. split.
  - intros He. injection He as He Hn Hr Hro Ho. split; [by destruct e, e'|]. split.
    + by eapply sort_by_eq_perm, namespaces_inj.
    + by apply relations_payload.
    + by eapply sort_by_eq_perm, routines_inj.
    + by eapply sort_by_eq_perm, database_objects_inj.
  - intros [<- [Hn Hr Hro Ho]]. apply relations_payload in Hr; [|done..].
    unfold ser_list. rewrite Hr.
    rewrite (proj1 (sorted_perm namespace_cmp _ _ namespace_cmp_eq) Hn).
    rewrite (proj1 (sorted_perm routine_cmp _ _ routine_cmp_eq) Hro).
    by rewrite (proj1 (sorted_perm database_object_cmp _ _ database_object_cmp_eq) Ho).
Qed.

Lemma canonicalize_same c : same_schema c (canonicalize_contents c).
Proof.
  split; cbn; try by rewrite sort_by_perm.
  exists (map canonicalize_relation (cc_relations c)). split; [by rewrite sort_by_perm|].
  induction (cc_relations c) as [|r l IH]; cbn; constructor; [|done].
  split; try done; cbn; by rewrite sort_by_perm.
Qed.

Lemma canonicalize_ok c : contents_ok c → contents_ok (canonicalize_contents c).
Proof.
  intros Hc. unfold contents_ok. cbn. rewrite sort_by_perm. apply Forall_map.
  eapply Forall_impl; [exact Hc|]. apply canonicalize_relation_ok.
Qed.

Lemma catalog_payload_exact e c :
  contents_ok c → value_exact (catalog_fingerprint_payload e c) = true.
Proof.
  intros Hc. struct_exact; apply list_exact;
    [apply Forall_true, namespace_exact|eapply Forall_impl; [exact Hc|apply payload_exact_ok]
    |apply Forall_true, routine_exact|apply Forall_true, database_object_exact].
Qed.

Definition schema_fingerprint (e : DatabaseEngine.t) (c : CatalogContents) : option string :=
  catalog_fingerprint e (canonicalize_contents c).

Lemma schema_fingerprint_total e c :
  contents_ok c → ∃ f, schema_fingerprint e c = Some f ∧ valid_fingerprint f = true.
Proof.
  intros Hc. pose proof (catalog_payload_exact e _ (canonicalize_ok _ Hc)) as Hx.
  unfold schema_fingerprint, catalog_fingerprint.
  apply andb_true_iff in Hx as [[t ->]%json_total _]. cbn. eexists. split; [done|].
  apply lower_hex_is_sha.
Qed.

Lemma schema_fingerprint_same e c c' :
  contents_ok c → contents_ok c' → same_schema c c' →
  schema_fingerprint e c = schema_fingerprint e c'.
Proof.
  intros Hc Hc' Hs. unfold schema_fingerprint, catalog_fingerprint. f_equal.
  f_equal. by apply catalog_payload_inj.
Qed.

(** The fingerprinted texts of two schemas collide. *)
Definition schemas_collide (e e' : DatabaseEngine.t) (c c' : CatalogContents) : Prop :=
  ∃ s t, json_to_string (catalog_fingerprint_payload e (canonicalize_contents c)) = Some s
    ∧ json_to_string (catalog_fingerprint_payload e' (canonicalize_contents c')) = Some t
    ∧ texts_collide s t.

Lemma schema_fingerprint_inj e e' c c' f :
  contents_ok c → contents_ok c' →
  schema_fingerprint e c = Some f → schema_fingerprint e' c' = Some f →
  (e = e' ∧ same_schema c c') ∨ schemas_collide e e' c c'.
Proof.
  intros Hc Hc' (t & Ht & [= <-])%bind_Some (t' & Ht' & [= Hf])%bind_Some.
  apply eq_sym, text_digest_inj in Hf as [<-|]; [left|right; by exists t, t'].
  apply catalog_payload_inj; [done..|].
  eapply json_to_string_inj; eauto using catalog_payload_exact, canonicalize_ok.
Qed.

Lemma canonical_fingerprint_stable e c :
  contents_ok c → schema_fingerprint e (canonicalize_contents c) = schema_fingerprint e c.
Proof.
  intros Hc. symmetry. apply schema_fingerprint_same; auto using canonicalize_ok, canonicalize_same.
Qed.

Lemma capture_Ok id e db t c s :
  capture id e db t c = Some (Ok s) → schema_fingerprint e c = Some (cs_fingerprint s).
Proof.
  intros (f & Hf & H)%bind_Some. injection H as H. apply check_Ok in H as [_ [= <-]]. done.
Qed.

Lemma new_snapshot_iff id e db t f c :
  contents_ok c → is_blank db = false → valid_fingerprint f = true →
  new_snapshot id e db t f c =
    Some (if bool_decide (schema_fingerprint e c = Some f)
          then Ok (from_canonical_parts id e db t f (canonicalize_contents c))
          else Err FingerprintMismatch).
Proof.
  intros Hc Hb Hf. unfold new_snapshot, validate_snapshot, validate_shape, has_canonical_fingerprint,
    canonical_fingerprint. cbn [cs_schema_version cs_database cs_fingerprint cs_engine cs_contents
    from_canonical_parts]. rewrite Z.eqb_refl, Hb, Hf. cbn [negb].
  change (catalog_fingerprint e (canonicalize_contents (canonicalize_contents c)))
    with (schema_fingerprint e (canonicalize_contents c)).
  rewrite canonical_fingerprint_stable by done.
  destruct (schema_fingerprint_total e c Hc) as (g & -> & _). cbn -[String.eqb].
  destruct (String.eqb_spec f g) as [->|Hne]; [by rewrite bool_decide_true|].
  rewrite bool_decide_false by congruence. done.
Qed.
End fingerprint.

(** C38. The catalog fingerprint identifies the schema and nothing else.  Every
    catalog with a database name can be captured.  Captures of two catalogs have
    the same fingerprint when engine and schema metadata agree up to the order of
    namespaces, relations, columns, constraints, indexes, partitions, routines
    and other objects - whatever the connection, database, time and row
    estimates - and, unless the two fingerprinted texts are a SHA-256 collision, only then.  A snapshot that
    claims a captured fingerprint (from the wire or a cache) is accepted exactly
    when its contents are that schema. *)
Theorem catalog_fingerprint_identifies_schema {P : Platform} {L : PlatformLaws P}
  (e e' : DatabaseEngine.t) (c c' : CatalogContents) :
  contents_ok c → contents_ok c' →
  (∀ id db t, is_blank db = false → ∃ s, capture id e db t c = Some (Ok s))
  ∧ ∀ id db t s, capture id e db t c = Some (Ok s) →
    (∀ id' db' t' s', capture id' e' db' t' c' = Some (Ok s') →
      (e = e' ∧ same_schema c c' → cs_fingerprint s = cs_fingerprint s')
      ∧ (cs_fingerprint s = cs_fingerprint s' → (e = e' ∧ same_schema c c') ∨ schemas_collide e e' c c'))
    ∧ (∀ id' db' t', is_blank db' = false →
      let received := new_snapshot id' e' db' t' (cs_fingerprint s) c' in
      (e = e' ∧ same_schema c c' → ∃ s', received = Some (Ok s'))
      ∧ (∀ s', received = Some (Ok s') → (e = e' ∧ same_schema c c') ∨ schemas_collide e e' c c')).
Proof.
  intros Hc Hc'. split.
  - intros id db t Hb. destruct (schema_fingerprint_total e c Hc) as (f & Hf & Hv).
    unfold schema_fingerprint in Hf. unfold capture. rewrite Hf. cbn [mbind option_bind].
    unfold validate_shape. cbn -[is_blank valid_fingerprint]. rewrite Hb, Hv. by eexists.
  - intros id db t s Hs%capture_Ok. split.
    + intros id' db' t' s' Hs'%capture_Ok. split.
      * intros [<- Hsame]. rewrite (schema_fingerprint_same e c c') in Hs by done. congruence.
      * intros He. rewrite <-He in Hs'. by eapply schema_fingerprint_inj.
    + intros id' db' t' Hb. destruct (schema_fingerprint_total e c Hc) as (f & Hf & Hv).
      rewrite Hs in Hf. injection Hf as <-. cbv zeta. rewrite new_snapshot_iff by done. split.
      * intros [<- Hsame]. rewrite bool_decide_true; [by eexists|].
        by rewrite <-(schema_fingerprint_same e c c').
      * intros s' H. case_bool_decide as Hf; [|done]. by eapply schema_fingerprint_inj.
Qed.

(** ** A concrete catalog *)

#[local] Existing Instance Reference.platform.
#[local] Existing Instance Reference.laws.

Module CatalogSample.
Definition column (name : string) (ordinal : Z) : Column := {|
  col_name := name; col_ordinal := ordinal; col_native_type := "int";
  col_type_family := NormalizedTypeFamily.Integer; col_length := None;
  col_precision := Some 32; col_scale := None; col_nullable := false;
  col_default_expression := None; col_generated_expression := None; col_identity := false;
  col_auto_increment := false; col_collation := None; col_comment := None;
  col_sensitivity := None |}.
Definition table (columns : list Column) (estimate : option Z) : Relation := {|
  rel_object := {| obj_catalog := None; obj_namespace := Some "public"; obj_name := "users";
                   obj_kind := ObjectKind.Table; obj_native_id := None |};
  rel_comment := None; rel_row_estimate := estimate; rel_partition_parent := None;
  rel_partition_children := []; rel_columns := columns; rel_constraints := [];
  rel_indexes := [] |}.
Definition contents (columns : list Column) (estimate : option Z) : CatalogContents := {|
  cc_namespaces := [{| ns_name := "public"; ns_comment := None |}];
  cc_relations := [table columns estimate]; cc_routines := []; cc_other_objects := [] |}.

Definition first : CatalogContents := contents [column "id" 1; column "name" 2] (Some 10).
Definition second : CatalogContents := contents [column "name" 2; column "id" 1] None.

Lemma contents_ok_sample columns estimate :
  Forall column_ok columns → opt_within i64_min i64_max estimate →
  contents_ok (contents columns estimate).
Proof. intros Hc He. by repeat constructor. Qed.

Lemma column_ok_sample name ordinal : 0 ≤ ordinal ≤ u32_max → column_ok (column name ordinal).
Proof. by split. Qed.

Lemma same : same_schema first second.
Proof.
  split; try done. exists [table [column "name" 2; column "id" 1] None]. split; [done|].
  repeat constructor.
Qed.
End CatalogSample.

Lemma catalog_fingerprint_identifies_schema_witness :
  ∃ s s', capture (P := Reference.platform) 1%positive DatabaseEngine.Postgres "app" 0
            CatalogSample.first = Some (Ok s)
    ∧ new_snapshot 2%positive DatabaseEngine.Postgres "copy" 5 (cs_fingerprint s)
        CatalogSample.second = Some (Ok s').
Proof.
  assert (contents_ok CatalogSample.first) as H1
    by (apply CatalogSample.contents_ok_sample; [|by vm_compute];
        repeat constructor; by vm_compute).
  assert (contents_ok CatalogSample.second) as H2
    by (apply CatalogSample.contents_ok_sample; [|done]; repeat constructor; by vm_compute).
  destruct (catalog_fingerprint_identifies_schema DatabaseEngine.Postgres DatabaseEngine.Postgres
    CatalogSample.first CatalogSample.second H1 H2) as [Hcap Hfp].
  destruct (Hcap 1%positive "app" 0 eq_refl) as [s Hs]. exists s.
  destruct (Hfp 1%positive "app" 0 s Hs) as [_ Hnew].
  destruct (Hnew 2%positive "copy" 5 eq_refl) as [Haccept _].
  destruct (Haccept (conj eq_refl CatalogSample.same)) as [s' Hs'].
  exists s'. split; [exact Hs|exact Hs'].
Defined.
