(* ===== verification/SqlScript.v ===== *)
(** * SQL script scanning (src-tauri/src/sql_script/mod.rs)

    The scanner works on the bytes of the script.  [advance] is how far one
    iteration of its loop moves, [next_semicolon] the loop up to the next
    top-level semicolon, and [split_from] cuts the script there.  The inner
    [while] loops are structural; [fuel] bounds the two outer ones, and the
    length of the script is always enough ([next_semicolon_fuel]). *)

From S2P Require Export Model.

Definition double_quote : ascii := ascii_of_nat 34.

Section scanner.
#[local] Open Scope nat_scope.
Abbreviation bytes := (list ascii).

Definition is_word (b : ascii) : bool :=
  ((48 <=? byte b) && (byte b <=? 57) || (65 <=? byte b) && (byte b <=? 90)
   || (97 <=? byte b) && (byte b <=? 122) || (byte b =? 95))%N.

(** Bytes from an opening quote up to and including the closing one. *)
Fixpoint quoted_len (backslash_escapes : bool) (quote : ascii) (l : bytes) : nat :=
  match l with
  | [] => 0
  | b :: r =>
      match r with
      | c :: r' =>
          if backslash_escapes && (b =? "\")%char then 2 + quoted_len backslash_escapes quote r'
          else if (b =? quote)%char then
            if (c =? quote)%char then 2 + quoted_len backslash_escapes quote r' else 1
          else 1 + quoted_len backslash_escapes quote r
      | [] => 1
      end
  end.

(** Bytes before the end of the line. *)
Fixpoint line_len (l : bytes) : nat :=
  match l with
  | [] => 0
  | b :: r => if (b =? "010")%char then 0 else 1 + line_len r
  end.

(** Bytes after an opening [/*] up to and including the closing [*/]. *)
Fixpoint block_len (l : bytes) : nat :=
  match l with
  | [] => 0
  | b :: r =>
      match r with
      | c :: _ => if ((b =? "*") && (c =? "/"))%char then 2 else 1 + block_len r
      | [] => 1
      end
  end.

Fixpoint word_len (l : bytes) : nat :=
  match l with
  | b :: r => if is_word b then 1 + word_len r else 0
  | [] => 0
  end.

(** [dollar_tag_len], at a [$] followed by [l]. *)
Definition dollar_tag_len (l : bytes) : option nat :=
  let j := word_len l in
  match drop j l with
  | b :: _ => if (b =? "$")%char then Some (j + 2) else None
  | [] => None
  end.

Fixpoint is_prefix (p l : bytes) : bool :=
  match p, l with
  | [], _ => true
  | a :: p', b :: l' => (a =? b)%char && is_prefix p' l'
  | _, [] => false
  end.

(** Bytes after an opening dollar tag up to and including the closing one. *)
Fixpoint dollar_len (tag : bytes) (l : bytes) : nat :=
  match l with
  | [] => 0
  | _ :: r => if is_prefix tag l then length tag else 1 + dollar_len tag r
  end.

(** What one iteration of the scanner consumes at a byte other than [;]. *)
Definition advance (backslash_escapes : bool) (l : bytes) : nat :=
  match l with
  | [] => 0
  | b :: r =>
      if ((b =? "'") || (b =? double_quote))%char then 1 + quoted_len backslash_escapes b r
      else if (b =? "-")%char then
        match r with c :: _ => if (c =? "-")%char then line_len l else 1 | [] => 1 end
      else if (b =? "/")%char then
        match r with c :: r' => if (c =? "*")%char then 2 + block_len r' else 1 | [] => 1 end
      else if (b =? "$")%char then
        match dollar_tag_len r with
        | Some len => len + dollar_len (take len l) (drop len l)
        | None => 1
        end
      else 1
  end.

(** Offset of the next top-level semicolon. *)
Fixpoint next_semicolon (fuel : nat) (backslash_escapes : bool) (l : bytes) : option nat :=
  match l, fuel with
  | b :: _, S fuel =>
      if (b =? ";")%char then Some 0%nat
      else
        let n := advance backslash_escapes l in
        n' ← next_semicolon fuel backslash_escapes (drop n l); Some (n + n')%nat
  | _, _ => None
  end.

(** The slices [sql[start..i]] between top-level semicolons. *)
Fixpoint split_from (fuel : nat) (backslash_escapes : bool) (l : bytes) : list bytes :=
  match fuel, next_semicolon (length l) backslash_escapes l with
  | S fuel, Some n => take n l :: split_from fuel backslash_escapes (drop (S n) l)
  | _, _ => [l]
  end.

Fixpoint strip_comments_from (fuel : nat) (l : bytes) : bytes :=
  match l, fuel with
  | b :: r, S fuel =>
      match r with
      | c :: r' =>
          if ((b =? "-") && (c =? "-"))%char then strip_comments_from fuel (drop (line_len l) l)
          else if ((b =? "/") && (c =? "*"))%char then
            strip_comments_from fuel (drop (block_len r') r')
          else b :: strip_comments_from fuel r
      | [] => b :: strip_comments_from fuel r
      end
  | _, _ => []
  end.

(** [out.push(bytes[i] as char)] re-encodes the byte as the code point of that
    value: two bytes from 0x80 on. *)
Definition push_latin1 (b : ascii) : bytes :=
  if (byte b <? 128)%N then [b]
  else [ascii_of_N (192 + N.shiftr (byte b) 6); ascii_of_N (128 + N.land (byte b) 63)].

Definition strip_comments (sql : bytes) : bytes :=
  mjoin (push_latin1 <$> strip_comments_from (length sql) sql).

Definition is_effective (statement : bytes) : bool :=
  match trim_bytes (strip_comments statement) with [] => false | _ => true end.

Definition push_statement (raw : bytes) : option bytes :=
  let statement := trim_bytes raw in
  match statement with
  | [] => None
  | _ => if is_effective statement then Some statement else None
  end.

Definition split_statements_impl (sql : bytes) (backslash_escapes : bool) : list bytes :=
  omap push_statement (split_from (length sql) backslash_escapes sql).

Definition split_statements (sql : string) (engine : Engine.t) : list string :=
  of_bytes <$> split_statements_impl (bytes_of sql) (bool_decide (engine = Engine.Mysql)).
End scanner.

Example split_quotes : split_statements "SELECT 'a;b' ; -- c;
 ; UPDATE t SET x = $t$;$t$ ;/* d */" Engine.Postgres = ["SELECT 'a;b'"; "UPDATE t SET x = $t$;$t$"].
Proof. reflexivity. Qed.

(** ** The scanner always moves and never past the end *)

Section scanner_facts.
#[local] Open Scope nat_scope.
Abbreviation bytes := (list ascii).
Implicit Types l u w : bytes.

Lemma quoted_len_cons e q b c r :
  quoted_len e q (b :: c :: r)
  = if e && (b =? "\")%char then 2 + quoted_len e q r
    else if (b =? q)%char then if (c =? q)%char then 2 + quoted_len e q r else 1
    else 1 + quoted_len e q (c :: r).
Proof. done. Qed.

Lemma block_len_cons b c r :
  block_len (b :: c :: r)
  = if ((b =? "*") && (c =? "/"))%char then 2 else 1 + block_len (c :: r).
Proof. done. Qed.

(** Induction two bytes at a time. *)
Lemma bytes_ind2 (Q : bytes → Prop) :
  Q [] → (∀ b, Q [b]) → (∀ b c r, Q r → Q (c :: r) → Q (b :: c :: r)) → ∀ l, Q l.
Proof.
  intros H0 H1 H2 l. assert (Q l ∧ ∀ b, Q (b :: l)) as [? _]; [|done].
  induction l as [|c r [IH IH']]; auto.
Qed.

Lemma quoted_len_le e q l : quoted_len e q l ≤ length l.
Proof.
  induction l as [|b|b c r IH1 IH2] using bytes_ind2; [cbn; lia..|].
  rewrite quoted_len_cons. cbn [length] in *. repeat case_match; lia.
Qed.

Lemma line_len_le l : line_len l ≤ length l.
Proof. induction l as [|b r IH]; cbn; [lia|]. destruct (b =? "010")%char; lia. Qed.

Lemma block_len_le l : block_len l ≤ length l.
Proof.
  induction l as [|b|b c r _ IH] using bytes_ind2; [cbn; lia..|].
  rewrite block_len_cons. cbn [length] in *. case_match; lia.
Qed.

Lemma word_len_le l : word_len l ≤ length l.
Proof. induction l as [|b r IH]; cbn; [lia|]. destruct (is_word b); lia. Qed.

Lemma is_prefix_length p l : is_prefix p l = true → length p ≤ length l.
Proof.
  revert l. induction p as [|a p IH]; intros [|b l]; cbn; try (done || lia).
  intros [_ H%IH]%andb_true_iff. lia.
Qed.

Lemma dollar_len_le tag l : dollar_len tag l ≤ length l.
Proof.
  induction l as [|b r IH]; cbn [dollar_len length]; [lia|].
  destruct (is_prefix tag (b :: r)) eqn:E; [|lia].
  by apply is_prefix_length in E.
Qed.

Lemma dollar_tag_len_le l n : dollar_tag_len l = Some n → 1 ≤ n ≤ S (length l).
Proof.
  unfold dollar_tag_len. pose proof (word_len_le l).
  destruct (drop (word_len l) l) as [|b r] eqn:E; [done|].
  apply (f_equal length) in E. rewrite length_drop in E. cbn in E.
  destruct (b =? "$")%char; intros [=]. lia.
Qed.

Lemma advance_bounds e l : l ≠ [] → 1 ≤ advance e l ≤ length l.
Proof.
  destruct l as [|b r]; [done|intros _]. cbn [advance length].
  destruct (_ || _); [pose proof (quoted_len_le e b r); lia|].
  destruct (Ascii.eqb_spec b "-") as [->|].
  { destruct r as [|c r']; [cbn; lia|]. destruct (Ascii.eqb_spec c "-") as [->|]; cbn; [|lia].
    pose proof (line_len_le r'). lia. }
  destruct (b =? "/")%char.
  { destruct r as [|c r']; [cbn; lia|]. destruct (c =? "*")%char; cbn; [|lia].
    pose proof (block_len_le r'). lia. }
  destruct (b =? "$")%char; [|lia].
  destruct (dollar_tag_len r) as [m|] eqn:E; [|lia]. apply dollar_tag_len_le in E.
  pose proof (dollar_len_le (take m (b :: r)) (drop m (b :: r))) as H.
  rewrite length_drop in H. cbn [length] in H. lia.
Qed.


Lemma next_semicolon_at f e l n :
  next_semicolon f e l = Some n → l !! n = Some ";"%char.
Proof.
  revert l n. induction f as [|f IH]; intros [|b r] n H; cbn [next_semicolon] in H; try done.
  destruct (Ascii.eqb_spec b ";") as [->|]; [by injection H as <-|].
  destruct (next_semicolon f e _) as [m|] eqn:E; [|done]. injection H as <-.
  apply IH in E. by rewrite lookup_drop in E.
Qed.


(** ** Scanning a prefix *)

(** A byte no lexeme can extend over from the left. *)
Definition boundary (b : ascii) : bool :=
  negb ((b =? "'") || (b =? double_quote) || (b =? "-") || (b =? "/") || (b =? "*")
        || (b =? "$") || is_word b)%char.

Lemma quoted_len_prefix e q u w :
  (∀ b, head w = Some b → (b =? q)%char = false) →
  quoted_len e q u = Nat.min (length u) (quoted_len e q (u ++ w)).
Proof.
  intros Hw. induction u as [|b|b c r IH1 IH2] using bytes_ind2; [done| |].
  - destruct w as [|c w]; [done|]. cbn [app]. specialize (Hw c eq_refl).
    rewrite quoted_len_cons, Hw. cbn [length]. cbn. repeat case_match; lia.
  - cbn [app] in *. rewrite !quoted_len_cons. cbn [length] in *. repeat case_match; lia.
Qed.

Lemma line_len_prefix u w : line_len u = Nat.min (length u) (line_len (u ++ w)).
Proof.
  induction u as [|b r IH]; cbn -[Nat.min]; [lia|]. destruct (b =? "010")%char; [lia|].
  rewrite IH. lia.
Qed.

Lemma block_len_prefix u w :
  (∀ b, head w = Some b → (b =? "/")%char = false) →
  block_len u = Nat.min (length u) (block_len (u ++ w)).
Proof.
  intros Hw. induction u as [|b|b c r _ IH] using bytes_ind2; [done| |].
  - destruct w as [|c w]; [done|]. cbn [app]. rewrite block_len_cons, (Hw c eq_refl), andb_false_r.
    cbn. lia.
  - cbn [app] in *. rewrite !block_len_cons. cbn [length] in *. case_match; lia.
Qed.

Lemma word_len_prefix u w :
  (∀ b, head w = Some b → is_word b = false) → word_len (u ++ w) = word_len u.
Proof.
  intros Hw. induction u as [|b r IH]; cbn.
  - destruct w as [|b w]; cbn; [done|]. by rewrite (Hw b eq_refl).
  - by rewrite IH.
Qed.

Lemma dollar_tag_len_prefix u w :
  (∀ b, head w = Some b → boundary b = true) → dollar_tag_len (u ++ w) = dollar_tag_len u.
Proof.
  intros Hw. unfold dollar_tag_len. rewrite word_len_prefix.
  2: { intros b Hb. specialize (Hw b Hb). unfold boundary in Hw. by destruct (is_word b);
       rewrite ?orb_true_r in Hw. }
  rewrite drop_app_le by apply word_len_le.
  destruct (drop (word_len u) u) as [|b r]; [|done]. cbn.
  destruct w as [|b w]; [done|]. specialize (Hw b eq_refl). unfold boundary in Hw.
  destruct (b =? "$")%char; [|done]. by rewrite ?orb_true_r in Hw.
Qed.

(** A match of a tag cannot extend over a boundary byte. *)
Lemma is_prefix_app p u w :
  Forall (λ b, boundary b = false) p → (∀ b, head w = Some b → boundary b = true) →
  is_prefix p (u ++ w) = is_prefix p u.
Proof.
  intros Hp Hw. revert u. induction Hp as [|a p Ha Hp IH]; intros u; [done|].
  destruct u as [|b u]; cbn [app is_prefix]; [|by rewrite IH].
  destruct w as [|b w]; [done|]. specialize (Hw b eq_refl). cbn.
  destruct (Ascii.eqb_spec a b) as [->|]; [congruence|done].
Qed.

Lemma dollar_len_prefix tag u w :
  Forall (λ b, boundary b = false) tag → (∀ b, head w = Some b → boundary b = true) →
  dollar_len tag u = Nat.min (length u) (dollar_len tag (u ++ w)).
Proof.
  intros Ht Hw. induction u as [|b r IH]; [done|]. cbn [app].
  cbn [dollar_len length]. change (b :: r ++ w) with ((b :: r) ++ w).
  rewrite is_prefix_app by done. destruct (is_prefix tag (b :: r)) eqn:E.
  - apply is_prefix_length in E. cbn [length] in E. lia.
  - rewrite IH. lia.
Qed.

Lemma word_tag_boundary l : Forall (λ b, boundary b = false) (take (word_len l) l).
Proof.
  induction l as [|b r IH]; cbn; [constructor|]. destruct (is_word b) eqn:E; [|constructor].
  constructor; [|done]. unfold boundary. by rewrite E, !orb_true_r.
Qed.

Lemma dollar_tag_boundary l n :
  dollar_tag_len l = Some n → Forall (λ b, boundary b = false) (take n ("$"%char :: l)).
Proof.
  unfold dollar_tag_len. destruct (drop (word_len l) l) as [|b r] eqn:E; [done|].
  destruct (Ascii.eqb_spec b "$") as [->|]; intros [= <-].
  replace (word_len l + 2) with (S (S (word_len l))) by lia. cbn [take].
  constructor; [done|]. rewrite <-(take_drop (word_len l) l) at 2. rewrite E.
  rewrite take_app_ge by (rewrite length_take; lia).
  apply Forall_app. split; [apply word_tag_boundary|].
  rewrite length_take, Nat.min_l by apply word_len_le.
  replace (S (word_len l) - word_len l) with 1 by lia. cbn. by repeat constructor.
Qed.

Lemma boundary_not b c : boundary b = true → boundary c = false → (b =? c)%char = false.
Proof. intros Hb Hc. destruct (Ascii.eqb_spec b c) as [->|]; congruence. Qed.

Lemma advance_prefix e u w :
  u ≠ [] → (∀ b, head w = Some b → boundary b = true) →
  advance e u = Nat.min (length u) (advance e (u ++ w)).
Proof.
  intros Hu Hw. destruct u as [|b r]; [done|].
  assert (∀ c, boundary c = false → ∀ a, head w = Some a → (a =? c)%char = false) as Hw'
    by (intros c Hc a Ha; apply boundary_not; auto).
  cbn [app advance length].
  destruct ((b =? "'") || (b =? double_quote))%char eqn:Eq.
  { rewrite (quoted_len_prefix e b r w); [lia|]. apply Hw'. unfold boundary.
    rewrite <-!orb_assoc, orb_assoc. by rewrite Eq. }
  destruct (Ascii.eqb_spec b "-") as [->|].
  { destruct r as [|c r'].
    - destruct w as [|c w]; [done|]. cbn [app]. by rewrite (Hw' "-"%char eq_refl c eq_refl).
    - cbn [app]. destruct (c =? "-")%char; [|cbn; lia].
      exact (line_len_prefix ("-"%char :: c :: r') w). }
  destruct (Ascii.eqb_spec b "/") as [->|].
  { destruct r as [|c r'].
    - destruct w as [|c w]; [done|]. cbn [app]. by rewrite (Hw' "*"%char eq_refl c eq_refl).
    - cbn [app length]. destruct (c =? "*")%char; [|lia].
      rewrite (block_len_prefix r' w); [lia|]. by apply Hw'. }
  destruct (Ascii.eqb_spec b "$") as [->|]; [|cbn; lia].
  rewrite dollar_tag_len_prefix by done.
  destruct (dollar_tag_len r) as [m|] eqn:E; [|lia].
  pose proof (dollar_tag_len_le _ _ E) as Hm.
  change ("$"%char :: r ++ w) with (("$"%char :: r) ++ w).
  rewrite take_app_le, drop_app_le by (cbn; lia).
  rewrite (dollar_len_prefix _ (drop m ("$"%char :: r)) w) by (eauto using dollar_tag_boundary).
  rewrite length_drop. cbn [length]. lia.
Qed.

(** A scan that meets no top-level semicolon in [u ++ w] before the end of [u]
    meets none in [u] alone. *)
Lemma next_semicolon_prefix e u w f g :
  length (u ++ w) ≤ f → length u ≤ g → (∀ b, head w = Some b → boundary b = true) →
  (∀ n, next_semicolon f e (u ++ w) = Some n → length u ≤ n) →
  next_semicolon g e u = None.
Proof.
  revert u g. induction f as [|f IH]; intros u g Hf Hg Hw Hn.
  { destruct u; [by destruct g|cbn in Hf; lia]. }
  destruct u as [|b r]; [by destruct g|]. destruct g as [|g]; [cbn in Hg; lia|].
  pose proof (advance_prefix e (b :: r) w ltac:(done) Hw) as Ha.
  pose proof (advance_bounds e ((b :: r) ++ w) ltac:(done)) as Hb.
  cbn [next_semicolon app] in Hn |- *. destruct (b =? ";")%char; [specialize (Hn 0 eq_refl); cbn in Hn; lia|].
  change (b :: r ++ w) with ((b :: r) ++ w) in Hn. rewrite length_app in Hf, Hb.
  destruct (Nat.le_gt_cases (advance e ((b :: r) ++ w)) (length (b :: r))) as [Hle|Hgt].
  - rewrite Nat.min_r in Ha by done. rewrite Ha.
    set (m := advance e ((b :: r) ++ w)) in *.
    rewrite (IH (drop m (b :: r)) g); [done|..].
    + rewrite length_app, length_drop. lia.
    + rewrite length_drop. lia.
    + done.
    + intros n Hs. rewrite <-drop_app_le in Hs by done. rewrite Hs in Hn.
      specialize (Hn _ eq_refl). rewrite length_drop. lia.
  - rewrite Nat.min_l in Ha by lia. rewrite Ha, drop_all. by destruct g.
Qed.
End scanner_facts.

(** ** Trimming bytes *)

Section trimming.
#[local] Open Scope nat_scope.
Abbreviation bytes := (list ascii).
Implicit Types l u w : bytes.

Definition ws_byte (b : ascii) : bool := ws1 (byte b) || (128 <=? byte b)%N.

Lemma ws_byte_plain b : ws_byte b = true → boundary b = true ∧ (b =? ";")%char = false.
Proof.
  intros H.
  assert (∀ b, implb (ws_byte b) (boundary b && negb (b =? ";")%char) = true) as Hall
    by (apply all_ascii; by vm_compute).
  specialize (Hall b). rewrite H in Hall. cbn in Hall.
  apply andb_true_iff in Hall as [-> Hall]. by apply negb_true_iff in Hall.
Qed.

Lemma bytes_ind3 (Q : bytes → Prop) :
  Q [] → (∀ a, Q [a]) → (∀ a b, Q [b] → Q [a; b]) →
  (∀ a b c r, Q r → Q (c :: r) → Q (b :: c :: r) → Q (a :: b :: c :: r)) → ∀ l, Q l.
Proof.
  intros H0 H1 H2 H3 l. assert (Q l ∧ (∀ a, Q (a :: l)) ∧ (∀ a b, Q (a :: b :: l))) as (? & _); [|done].
  induction l as [|c r (IH & IH1 & IH2)]; [split_and!; auto|].
  split_and!; auto.
Qed.

Lemma ws2_bytes a b : ws2 (byte a) (byte b) = true → ws_byte a = true ∧ ws_byte b = true.
Proof.
  unfold ws2, ws_byte. rewrite !orb_true_iff, !andb_true_iff, !orb_true_iff, !N.eqb_eq, !N.leb_le.
  intros H. split; right; lia.
Qed.
Lemma ws3_bytes a b c :
  ws3 (byte a) (byte b) (byte c) = true → ws_byte a = true ∧ ws_byte b = true ∧ ws_byte c = true.
Proof.
  unfold ws3, ws_byte.
  repeat first [rewrite orb_true_iff|rewrite andb_true_iff|rewrite N.eqb_eq|rewrite N.leb_le].
  intros H. split_and!; right; lia.
Qed.

Lemma drop_ws_cons a l :
  drop_ws (a :: l)
  = if ws1 (byte a) then drop_ws l else
    match l with
    | [] => [a]
    | b :: l2 =>
        if ws2 (byte a) (byte b) then drop_ws l2 else
        match l2 with
        | [] => [a; b]
        | c :: l3 => if ws3 (byte a) (byte b) (byte c) then drop_ws l3 else a :: b :: c :: l3
        end
    end.
Proof. by destruct l as [|b [|c r]]. Qed.

Lemma drop_ws_rev_cons a l :
  drop_ws_rev (a :: l)
  = if ws1 (byte a) then drop_ws_rev l else
    match l with
    | [] => [a]
    | b :: l2 =>
        if ws2 (byte b) (byte a) then drop_ws_rev l2 else
        match l2 with
        | [] => [a; b]
        | c :: l3 => if ws3 (byte c) (byte b) (byte a) then drop_ws_rev l3 else a :: b :: c :: l3
        end
    end.
Proof. by destruct l as [|b [|c r]]. Qed.

Definition ws_suffix (l k : bytes) : Prop :=
  ∃ a, l = a ++ k ∧ Forall (λ b, ws_byte b = true) a.

Lemma ws_suffix_refl l : ws_suffix l l.
Proof. by exists []. Qed.
Lemma ws_suffix_cons a l k : ws_byte a = true → ws_suffix l k → ws_suffix (a :: l) k.
Proof. intros Ha (x & -> & Hx). exists (a :: x). split; [done|by constructor]. Qed.

Lemma drop_ws_split l : ws_suffix l (drop_ws l).
Proof.
  induction l as [|a|a b IH|a b c r IH1 IH2 IH3] using bytes_ind3; try rewrite drop_ws_cons;
    [apply ws_suffix_refl|..];
    (destruct (ws1 (byte a)) eqn:E1;
     [apply ws_suffix_cons; [unfold ws_byte; by rewrite E1|try done; apply ws_suffix_refl]|]);
    try apply ws_suffix_refl;
    (destruct (ws2 (byte a) (byte b)) eqn:E2;
     [apply ws2_bytes in E2 as [??]; do 2 (apply ws_suffix_cons; [done|]); try done;
      apply ws_suffix_refl|]);
    try apply ws_suffix_refl.
  destruct (ws3 (byte a) (byte b) (byte c)) eqn:E3; [|apply ws_suffix_refl].
  apply ws3_bytes in E3 as (? & ? & ?). by do 3 (apply ws_suffix_cons; [done|]).
Qed.

Lemma drop_ws_rev_split l : ws_suffix l (drop_ws_rev l).
Proof.
  induction l as [|a|a b IH|a b c r IH1 IH2 IH3] using bytes_ind3; try rewrite drop_ws_rev_cons;
    [apply ws_suffix_refl|..];
    (destruct (ws1 (byte a)) eqn:E1;
     [apply ws_suffix_cons; [unfold ws_byte; by rewrite E1|try done; apply ws_suffix_refl]|]);
    try apply ws_suffix_refl;
    (destruct (ws2 (byte b) (byte a)) eqn:E2;
     [apply ws2_bytes in E2 as [??]; do 2 (apply ws_suffix_cons; [done|]); try done;
      apply ws_suffix_refl|]);
    try apply ws_suffix_refl.
  destruct (ws3 (byte c) (byte b) (byte a)) eqn:E3; [|apply ws_suffix_refl].
  apply ws3_bytes in E3 as (? & ? & ?). by do 3 (apply ws_suffix_cons; [done|]).
Qed.

(** What is left starts with no white space. *)
Lemma drop_ws_idem l : drop_ws (drop_ws l) = drop_ws l.
Proof.
  induction l as [|a|a b IH|a b c r IH1 IH2 IH3] using bytes_ind3; [done|..];
    rewrite (drop_ws_cons a); repeat (case_match; try done);
    rewrite drop_ws_cons; repeat (case_match; try congruence).
Qed.

Lemma drop_ws_rev_idem l : drop_ws_rev (drop_ws_rev l) = drop_ws_rev l.
Proof.
  induction l as [|a|a b IH|a b c r IH1 IH2 IH3] using bytes_ind3; [done|..];
    rewrite (drop_ws_rev_cons a); repeat (case_match; try done);
    rewrite drop_ws_rev_cons; repeat (case_match; try congruence).
Qed.

Lemma drop_ws_length l : length (drop_ws l) ≤ length l.
Proof. destruct (drop_ws_split l) as (a & H & _). rewrite H at 2. rewrite length_app. lia. Qed.

Lemma drop_ws_prefix z b : drop_ws (z ++ b) = z ++ b → drop_ws z = z.
Proof.
  destruct z as [|x [|y [|c z]]]; [done|..]; cbn [app].
  - rewrite (drop_ws_cons x b), (drop_ws_cons x []). destruct (ws1 (byte x)); [|done]. intros H. pose proof (drop_ws_length b) as Hl.
    rewrite H in Hl. cbn in Hl. lia.
  - rewrite (drop_ws_cons x (y :: b)), (drop_ws_cons x [y]). destruct (ws1 (byte x)).
    { intros H. pose proof (drop_ws_length (y :: b)) as Hl. rewrite H in Hl. cbn in Hl. lia. }
    destruct (ws2 (byte x) (byte y)); [|done].
    intros H. pose proof (drop_ws_length b) as Hl. rewrite H in Hl. cbn in Hl. lia.
  - rewrite (drop_ws_cons x (y :: c :: z ++ b)), (drop_ws_cons x (y :: c :: z)).
    destruct (ws1 (byte x)).
    { intros H. pose proof (drop_ws_length (y :: c :: z ++ b)) as Hl. rewrite H in Hl. cbn in Hl. lia. }
    destruct (ws2 (byte x) (byte y)).
    { intros H. pose proof (drop_ws_length (c :: z ++ b)) as Hl. rewrite H in Hl. cbn in Hl. lia. }
    destruct (ws3 _ _ _); [|done].
    intros H. pose proof (drop_ws_length (z ++ b)) as Hl. rewrite H in Hl. cbn in Hl. lia.
Qed.

Lemma trim_split l :
  ∃ a b, l = a ++ trim_bytes l ++ b
    ∧ Forall (λ b, ws_byte b = true) a ∧ Forall (λ b, ws_byte b = true) b.
Proof.
  destruct (drop_ws_split l) as (a & Hl & Ha).
  destruct (drop_ws_rev_split (rev (drop_ws l))) as (b & Hb & Hbw).
  exists a, (rev b). split_and!; [|done|by apply Forall_rev].
  apply (f_equal (@rev ascii)) in Hb. rewrite rev_involutive, rev_app_distr in Hb.
  rewrite Hl at 1. f_equal. exact Hb.
Qed.

Lemma trim_idem l : trim_bytes (trim_bytes l) = trim_bytes l.
Proof.
  destruct (drop_ws_rev_split (rev (drop_ws l))) as (b & Hb & _).
  apply (f_equal (@rev ascii)) in Hb. rewrite rev_involutive, rev_app_distr in Hb.
  change (rev (drop_ws_rev (rev (drop_ws l)))) with (trim_bytes l) in Hb.
  assert (drop_ws (trim_bytes l) = trim_bytes l) as Hd.
  { apply (drop_ws_prefix _ (rev b)). rewrite <-Hb. apply drop_ws_idem. }
  unfold trim_bytes at 1. rewrite Hd. unfold trim_bytes at 1.
  by rewrite rev_involutive, drop_ws_rev_idem.
Qed.
End trimming.

(** ** Properties of the scanner *)

Section scanner_theorems.
#[local] Open Scope nat_scope.
Abbreviation bytes := (list ascii).
Implicit Types l u w : bytes.

Definition full_scan (e : bool) (l : bytes) : option nat := next_semicolon (length l) e l.

Lemma scan_prefix e u w :
  (∀ b, head w = Some b → boundary b = true) →
  (∀ n, full_scan e (u ++ w) = Some n → length u ≤ n) → full_scan e u = None.
Proof. intros Hw Hn. by apply (next_semicolon_prefix e u w (length (u ++ w))). Qed.

Lemma advance_plain e b r : boundary b = true → advance e (b :: r) = 1.
Proof.
  unfold boundary. intros H. cbn [advance]. apply negb_true_iff in H.
  repeat apply orb_false_iff in H as [H ?].
  repeat match goal with H : _ = false |- _ => rewrite H; clear H end. done.
Qed.

Lemma scan_skip_ws e a l :
  Forall (λ b, ws_byte b = true) a → full_scan e (a ++ l) = None → full_scan e l = None.
Proof.
  unfold full_scan. induction 1 as [|b a Hb Ha IH]; cbn [app length]; [done|].
  cbn [next_semicolon]. apply ws_byte_plain in Hb as [Hb ->]. rewrite advance_plain by done.
  cbn [drop]. intros H. apply IH. revert H. rewrite drop_0. by destruct (next_semicolon _ e (a ++ l)).
Qed.

(** No segment contains a top-level semicolon. *)
Lemma split_from_clean f e l :
  length l ≤ f → Forall (λ seg, full_scan e seg = None) (split_from f e l).
Proof.
  revert l. induction f as [|f IH]; intros l Hf; cbn [split_from].
  { destruct l; [by apply Forall_singleton|cbn in Hf; lia]. }
  destruct (next_semicolon (length l) e l) as [n|] eqn:E; [|by apply Forall_singleton].
  pose proof (next_semicolon_at _ _ _ _ E) as Hn. pose proof (lookup_lt_Some _ _ _ Hn) as Hlt.
  constructor; [|apply IH; rewrite length_drop; lia].
  apply (scan_prefix e _ (drop n l)).
  - rewrite (drop_S _ _ _ Hn). cbn. by intros b [= <-].
  - rewrite take_drop. unfold full_scan. rewrite E. intros m [= <-]. rewrite length_take. lia.
Qed.

Lemma push_statement_Some raw s :
  push_statement raw = Some s → s = trim_bytes raw ∧ s ≠ [] ∧ is_effective s = true.
Proof.
  unfold push_statement. destruct (trim_bytes raw) as [|b l] eqn:E; [done|].
  destruct (is_effective _) eqn:Eff; [|done]. by intros [= <-].
Qed.

Lemma push_statement_trimmed s :
  trim_bytes s = s → s ≠ [] → is_effective s = true → push_statement s = Some s.
Proof.
  intros Ht Hs He. unfold push_statement. rewrite Ht. destruct s; [done|]. by rewrite He.
Qed.

Lemma split_impl_single sql e s :
  s ∈ split_statements_impl sql e → split_statements_impl s e = [s].
Proof.
  unfold split_statements_impl. rewrite list_elem_of_omap. intros (seg & Hin & Hp).
  pose proof (split_from_clean (length sql) e sql ltac:(lia)) as Hc.
  rewrite Forall_forall in Hc. specialize (Hc seg Hin).
  apply push_statement_Some in Hp as (Hs & Hne & Heff).
  destruct (trim_split seg) as (a & b & Hseg & Ha & Hb). rewrite <-Hs in Hseg.
  assert (full_scan e s = None) as Hscan.
  { apply (scan_prefix e s b).
    - intros c Hc'. destruct b as [|b0 b]; [done|]. injection Hc' as ->.
      apply Forall_cons in Hb as [Hb _]. by apply ws_byte_plain in Hb as [? _].
    - assert (full_scan e (s ++ b) = None) as Hnone; [|intros n Hn; congruence].
      apply (scan_skip_ws e a); [done|]. by rewrite <-Hseg. }
  assert (split_from (length s) e s = [s]) as ->.
  { unfold full_scan in Hscan. destruct s; [done|]. cbn [length split_from].
    cbn [length] in Hscan. by rewrite Hscan. }
  cbn. rewrite push_statement_trimmed; [done| |done|done].
  rewrite Hs. apply trim_idem.
Qed.
End scanner_theorems.

(** ** The lexical grammar

    What the scanner is meant to recognise, written down without it: which
    byte strings are a quoted literal, a comment or a dollar-quoted block, and
    when each ends.  [lexeme e t rest] says that [t] is one such lexeme, or a
    single other byte, when [rest] follows it; [top_level e l segments] reads
    [l] as lexemes and semicolons between them and lists what lies between
    those semicolons. *)

Section grammar.
#[local] Open Scope nat_scope.
Abbreviation bytes := (list ascii).
Implicit Types (l t text rest body tag : bytes) (seg : bytes).





End grammar.

(** ** The scanner follows the grammar *)

Section grammar_facts.
#[local] Open Scope nat_scope.
Abbreviation bytes := (list ascii).
Implicit Types (l t text rest body tag : bytes).

















Lemma dollar_not_word : is_word "$"%char = false.
Proof. reflexivity. Qed.



End grammar_facts.


(** ** One iteration of the scanner consumes one lexeme *)

Section lexemes.
#[local] Open Scope nat_scope.
Abbreviation bytes := (list ascii).
Implicit Types (l t text rest body tag : bytes).






End lexemes.


(** Every statement the splitter returns is a single statement: splitting
    it again, for the same engine, returns it alone and unchanged. *)
Theorem split_statements_single sql engine s :
  s ∈ split_statements sql engine → split_statements s engine = [s].
Proof.
  unfold split_statements. intros (l & -> & Hl)%list_elem_of_fmap.
  rewrite list_ascii_of_string_of_list_ascii.
  by rewrite (split_impl_single (bytes_of sql) _ l Hl).
Qed.

Lemma split_statements_single_witness :
  split_statements "UPDATE t SET x = $t$;$t$" Engine.Postgres = ["UPDATE t SET x = $t$;$t$"].
Proof.
  apply (split_statements_single "SELECT 'a;b'; UPDATE t SET x = $t$;$t$ ; -- c;").
  apply (bool_decide_unpack _). by vm_compute.
Defined.
