(* ===== verification/Schema.v ===== *)
(** * The local SQLite tables of the Operation Runtime

    The tables [operations], [operation_approvals] and [operation_events] of
    src-tauri/src/store/migrations.rs with their CHECK, UNIQUE, foreign-key and
    trigger constraints.  Rows hold the columns as SQLite stores them (texts and
    integers); a table is the list of its rows in insertion order.  An INSERT or
    UPDATE that violates a constraint fails and changes nothing. *)

From S2P Require Export Operation.

Record OperationRow := {
  row_id : string;
  row_runtime_id : string;
  row_workspace_id : string;
  row_account_scope : string;
  row_connection_id : string;
  row_connection_revision : Z;
  row_terminal_session_id : option string;
  row_actor_kind : string;
  row_actor_id : string;
  row_actor_provenance_json : string;
  row_operation_kind : string;
  row_payload_schema_version : Z;
  row_payload_json : string;
  row_payload_hash : string;
  row_schema_fingerprint : option string;
  row_risk_level : string;
  row_preview_json : string;
  row_policy_snapshot_json : string;
  row_policy_revision : string;
  row_state : string;
  row_single_use : Z;
  row_idempotency_key : string;
  row_expires_at : option string;
  row_started_at : option string;
  row_finished_at : option string;
  row_created_at : string;
  row_updated_at : string;
}.

Record ApprovalRow := {
  apr_id : string;
  apr_operation_id : string;
  apr_payload_hash : string;
  apr_approver_kind : string;
  apr_approver_id : string;
  apr_decision : string;
  apr_reason : option string;
  apr_policy_revision : string;
  apr_created_at : string;
  apr_expires_at : option string;
}.

Record EventRow := {
  evr_id : string;
  evr_operation_id : string;
  evr_sequence : Z;
  evr_event_kind : string;
  evr_state : string;
  evr_event_json : string;
  evr_created_at : string;
  evr_prev_hash : option string;
  evr_hash : string;
}.

Record LocalDb := {
  operations : list OperationRow;
  operation_approvals : list ApprovalRow;
  operation_events : list EventRow;
}.

Definition empty_db : LocalDb :=
  {| operations := []; operation_approvals := []; operation_events := [] |}.

(** INSERT into each table. *)
Definition add_row (r : OperationRow) (db : LocalDb) : LocalDb :=
  {| operations := operations db ++ [r];
     operation_approvals := operation_approvals db;
     operation_events := operation_events db |}.
Definition add_approval (a : ApprovalRow) (db : LocalDb) : LocalDb :=
  {| operations := operations db;
     operation_approvals := operation_approvals db ++ [a];
     operation_events := operation_events db |}.
Definition add_event (e : EventRow) (db : LocalDb) : LocalDb :=
  {| operations := operations db;
     operation_approvals := operation_approvals db;
     operation_events := operation_events db ++ [e] |}.

#[export] Instance OperationRow_eq_dec : EqDecision OperationRow.
Proof. solve_decision. Defined.
#[export] Instance ApprovalRow_eq_dec : EqDecision ApprovalRow.
Proof. solve_decision. Defined.
#[export] Instance EventRow_eq_dec : EqDecision EventRow.
Proof. solve_decision. Defined.
#[export] Instance LocalDb_eq_dec : EqDecision LocalDb.
Proof. solve_decision. Defined.

Definition one_of (l : list string) (s : string) : bool := existsb (String.eqb s) l.
Definition null_or (P : string → bool) (o : option string) : bool :=
  match o with None => true | Some s => P s end.

Definition constraint_failed (what : string) : AppError :=
  Db (Database None what).

Section schema.
Context {P : Platform}.

Definition operation_states : list string :=
  ["planned"; "pending_approval"; "ready"; "approved"; "rejected"; "expired";
   "cancelled"; "executing"; "succeeded"; "failed"; "outcome_unknown"].

(** CHECK constraints of [operations]. *)
Definition operations_check (r : OperationRow) : bool :=
  one_of ["local_user"; "workspace_user"; "agent"; "plugin"; "system"] (row_actor_kind r)
  && negb (row_actor_id r =? "")%string
  && sqlite_json_valid (row_actor_provenance_json r)
  && one_of ["read_query"; "document_read"; "write_sql"; "ddl"; "privilege"; "sql_script";
             "table_data_change"; "schema_change"; "import"; "export"; "migration";
             "dashboard_create"; "plugin_action"; "provider_action"] (row_operation_kind r)
  && (0 <? row_payload_schema_version r)
  && sqlite_json_valid (row_payload_json r)
  && is_sha256_hex (row_payload_hash r)
  && null_or is_sha256_hex (row_schema_fingerprint r)
  && one_of ["low"; "medium"; "high"; "critical"] (row_risk_level r)
  && sqlite_json_valid (row_preview_json r)
  && sqlite_json_valid (row_policy_snapshot_json r)
  && negb (row_policy_revision r =? "")%string
  && one_of operation_states (row_state r)
  && ((row_single_use r =? 0) || (row_single_use r =? 1))
  && negb (row_idempotency_key r =? "")%string.

(** [idx_operations_idempotency] *)
Definition same_idempotency (a b : OperationRow) : bool :=
  (row_workspace_id a =? row_workspace_id b)%string
  && (row_actor_kind a =? row_actor_kind b)%string
  && (row_actor_id a =? row_actor_id b)%string
  && (row_idempotency_key a =? row_idempotency_key b)%string.

Definition insert_operation (r : OperationRow) (db : LocalDb) : AppResult LocalDb :=
  _ ← reject_if (negb (operations_check r)) (constraint_failed "CHECK constraint failed");
  _ ← reject_if (existsb (λ o, row_id o =? row_id r)%string (operations db))
        (constraint_failed "UNIQUE constraint failed: operations.id");
  _ ← reject_if (existsb (λ o, same_idempotency o r) (operations db))
        (constraint_failed "UNIQUE constraint failed: idx_operations_idempotency");
  Ok (add_row r db).

(** [operations_reject_immutable_update] *)
Definition immutable_changed (old new : OperationRow) : bool :=
  negb (row_runtime_id old =? row_runtime_id new)%string
  || negb (row_workspace_id old =? row_workspace_id new)%string
  || negb (row_account_scope old =? row_account_scope new)%string
  || negb (row_connection_id old =? row_connection_id new)%string
  || negb (row_connection_revision old =? row_connection_revision new)
  || negb (bool_decide (row_terminal_session_id old = row_terminal_session_id new))
  || negb (row_actor_kind old =? row_actor_kind new)%string
  || negb (row_actor_id old =? row_actor_id new)%string
  || negb (row_actor_provenance_json old =? row_actor_provenance_json new)%string
  || negb (row_operation_kind old =? row_operation_kind new)%string
  || negb (row_payload_schema_version old =? row_payload_schema_version new)
  || negb (row_payload_json old =? row_payload_json new)%string
  || negb (row_payload_hash old =? row_payload_hash new)%string
  || negb (bool_decide (row_schema_fingerprint old = row_schema_fingerprint new))
  || negb (row_risk_level old =? row_risk_level new)%string
  || negb (row_preview_json old =? row_preview_json new)%string
  || negb (row_policy_snapshot_json old =? row_policy_snapshot_json new)%string
  || negb (row_policy_revision old =? row_policy_revision new)%string
  || negb (row_single_use old =? row_single_use new)
  || negb (row_idempotency_key old =? row_idempotency_key new)%string
  || negb (bool_decide (row_expires_at old = row_expires_at new))
  || negb (row_created_at old =? row_created_at new)%string.

(** [UPDATE operations SET .. WHERE ..] with its row count. *)
Definition update_operations (where_ : OperationRow → bool)
  (set : OperationRow → OperationRow) (db : LocalDb) : AppResult (nat * LocalDb) :=
  let hits := List.filter where_ (operations db) in
  _ ← reject_if (existsb (λ r, immutable_changed r (set r)) hits)
        (constraint_failed "operation immutable fields cannot be changed");
  _ ← reject_if (negb (forallb (λ r, operations_check (set r)) hits))
        (constraint_failed "CHECK constraint failed");
  Ok (length hits,
      {| operations := map (λ r, if where_ r then set r else r) (operations db);
         operation_approvals := operation_approvals db;
         operation_events := operation_events db |}).

(** CHECK constraints of [operation_approvals]. *)
Definition approvals_check (a : ApprovalRow) : bool :=
  is_sha256_hex (apr_payload_hash a)
  && one_of ["local_user"; "workspace_user"] (apr_approver_kind a)
  && negb (apr_approver_id a =? "")%string
  && one_of ["approved"; "rejected"] (apr_decision a)
  && negb (apr_policy_revision a =? "")%string.

Definition insert_approval (a : ApprovalRow) (db : LocalDb) : AppResult LocalDb :=
  _ ← reject_if (negb (approvals_check a)) (constraint_failed "CHECK constraint failed");
  _ ← reject_if (existsb (λ o, apr_id o =? apr_id a)%string (operation_approvals db))
        (constraint_failed "UNIQUE constraint failed: operation_approvals.id");
  _ ← reject_if (negb (existsb (λ o, row_id o =? apr_operation_id a)%string (operations db)))
        (constraint_failed "FOREIGN KEY constraint failed");
  Ok (add_approval a db).

(** CHECK constraints of [operation_events]. *)
Definition events_check (e : EventRow) : bool :=
  (0 <? evr_sequence e)
  && one_of ["proposed"; "planned"; "approval_requested"; "approved"; "rejected";
             "execution_started"; "progress"; "succeeded"; "failed"; "cancelled";
             "outcome_unknown"; "expired"] (evr_event_kind e)
  && one_of operation_states (evr_state e)
  && sqlite_json_valid (evr_event_json e)
  && null_or is_sha256_hex (evr_prev_hash e)
  && is_sha256_hex (evr_hash e).

Definition insert_event (e : EventRow) (db : LocalDb) : AppResult LocalDb :=
  _ ← reject_if (negb (events_check e)) (constraint_failed "CHECK constraint failed");
  _ ← reject_if (existsb (λ o, evr_id o =? evr_id e)%string (operation_events db))
        (constraint_failed "UNIQUE constraint failed: operation_events.id");
  _ ← reject_if (existsb (λ o, (evr_operation_id o =? evr_operation_id e)%string
                               && (evr_sequence o =? evr_sequence e)) (operation_events db))
        (constraint_failed "UNIQUE constraint failed: operation_events.operation_id, sequence");
  _ ← reject_if (negb (existsb (λ o, row_id o =? evr_operation_id e)%string (operations db)))
        (constraint_failed "FOREIGN KEY constraint failed");
  Ok (add_event e db).
End schema.
