(* ===== verification/Repository.v ===== *)
(** * The Operation repository (src-tauri/src/operations/repository.rs)

    Every public method is one SQLite transaction taken under the write lock,
    so it is one atomic step on [LocalDb].  A method that returns [Err] before
    [commit] leaves the database unchanged; [claim_execution] and
    [decide_approval] also commit an expiry and then fail, which [with_tx]
    expresses by a body that succeeds with an [Err] result.  Random identifiers
    ([Uuid::new_v4]) and clock readings ([Utc::now]) are arguments. *)

From S2P Require Export Schema Protocol.

Definition operation_conflict (reason : string) : AppError := Blocked reason.

(** [begin]; body; [commit] unless the body fails. *)
Definition with_tx {A} (db : LocalDb) (body : AppResult (AppResult A * LocalDb))
  : AppResult A * LocalDb :=
  match body with
  | Ok (r, db') => (r, db')
  | Err e => (Err e, db)
  end.

Definition state_debug (s : OperationState.t) : string :=
  match s with
  | OperationState.Planned => "Planned"
  | OperationState.PendingApproval => "PendingApproval"
  | OperationState.Ready => "Ready"
  | OperationState.Approved => "Approved"
  | OperationState.Rejected => "Rejected"
  | OperationState.Expired => "Expired"
  | OperationState.Cancelled => "Cancelled"
  | OperationState.Executing => "Executing"
  | OperationState.Succeeded => "Succeeded"
  | OperationState.Failed => "Failed"
  | OperationState.OutcomeUnknown => "OutcomeUnknown"
  end.

Definition transition_error_text (e : StateMachine.TransitionError) : string :=
  "operation cannot transition from " +:+ state_debug (StateMachine.te_from e)
  +:+ " to " +:+ state_debug (StateMachine.te_to e).

Definition transition_event_kind (target : OperationState.t) : OperationEventKind.t :=
  match target with
  | OperationState.Planned | OperationState.Ready => OperationEventKind.Planned
  | OperationState.PendingApproval => OperationEventKind.ApprovalRequested
  | OperationState.Approved => OperationEventKind.Approved
  | OperationState.Rejected => OperationEventKind.Rejected
  | OperationState.Expired => OperationEventKind.Expired
  | OperationState.Cancelled => OperationEventKind.Cancelled
  | OperationState.Executing => OperationEventKind.ExecutionStarted
  | OperationState.Succeeded => OperationEventKind.Succeeded
  | OperationState.Failed => OperationEventKind.Failed
  | OperationState.OutcomeUnknown => OperationEventKind.OutcomeUnknown
  end.

Section repository.
Context {P : Platform} {SD : Serde}.

(** ** Codecs of the stored columns *)

Definition parse_uuid (value field : string) : AppResult Uuid :=
  ok_or (Config ("invalid " +:+ field +:+ " in local operation store")) (uuid_parse value).

Definition parse_bool (value : Z) (field : string) : AppResult bool :=
  if value =? 0 then Ok false
  else if value =? 1 then Ok true
  else Err (Config ("invalid " +:+ field +:+ " in local operation store")).

Definition timestamp (value : DateTime) : string := rfc3339_nanos value.

Definition parse_timestamp (value field : string) : AppResult DateTime :=
  ok_or (Config ("invalid " +:+ field +:+ " timestamp")) (parse_rfc3339 value).

Definition parse_optional_timestamp (value : option string) (field : string)
  : AppResult (option DateTime) :=
  traverse_opt (λ v, parse_timestamp v field) value.

Definition parse_canonical_json (json : string) : AppResult Value :=
  value ← ok_or Serialization (json_from_str json);
  text ← canonical_json value;
  if negb (text =? json)%string then Err (Config "stored operation JSON is not canonical")
  else Ok value.

Definition row_to_operation (row : OperationRow) : AppResult OperationRecord :=
  stored ← from_stored (row_payload_json row) (row_payload_hash row);
  payload ← into_value stored;
  actor_provenance_value ← parse_canonical_json (row_actor_provenance_json row);
  actor_provenance ← ok_or Serialization (provenance_from_value actor_provenance_value);
  preview ← parse_canonical_json (row_preview_json row);
  policy_snapshot ← parse_canonical_json (row_policy_snapshot_json row);
  id ← parse_uuid (row_id row) "operation id";
  runtime_id ← parse_uuid (row_runtime_id row) "operation runtime id";
  workspace_id ← parse_uuid (row_workspace_id row) "operation workspace id";
  connection_id ← parse_uuid (row_connection_id row) "operation connection id";
  terminal_session_id ←
    traverse_opt (λ v, parse_uuid v "operation terminal session id")
      (row_terminal_session_id row);
  kind_of_actor ← ok_or (Config "invalid stored operation actor kind")
    (parse_actor_kind (row_actor_kind row));
  kind ← ok_or (Config "invalid stored operation kind")
    (parse_operation_kind (row_operation_kind row));
  payload_schema_version ←
    (if (0 <=? row_payload_schema_version row) && (row_payload_schema_version row <=? u32_max)
     then Ok (row_payload_schema_version row)
     else Err (Config "invalid operation payload schema version"));
  risk_level ← ok_or (Config "invalid stored operation risk level")
    (parse_risk_level (row_risk_level row));
  state ← ok_or (Config "invalid stored operation state") (parse_state (row_state row));
  single_use ← parse_bool (row_single_use row) "operation single_use";
  expires_at ← parse_optional_timestamp (row_expires_at row) "operation expiry";
  started_at ← parse_optional_timestamp (row_started_at row) "operation start";
  finished_at ← parse_optional_timestamp (row_finished_at row) "operation finish";
  created_at ← parse_timestamp (row_created_at row) "operation creation";
  updated_at ← parse_timestamp (row_updated_at row) "operation update";
  Ok {| op_id := id;
        op_runtime_id := runtime_id;
        op_workspace_id := workspace_id;
        op_account_scope := row_account_scope row;
        op_connection_id := connection_id;
        op_connection_revision := row_connection_revision row;
        op_terminal_session_id := terminal_session_id;
        op_actor := {| actor_kind := kind_of_actor; actor_id := row_actor_id row;
                       provenance := actor_provenance |};
        op_kind := kind;
        op_payload_schema_version := payload_schema_version;
        op_payload := payload;
        op_payload_hash := row_payload_hash row;
        op_schema_fingerprint := row_schema_fingerprint row;
        op_risk_level := risk_level;
        op_preview := preview;
        op_policy_snapshot := policy_snapshot;
        op_policy_revision := row_policy_revision row;
        op_state := state;
        op_single_use := single_use;
        op_idempotency_key := row_idempotency_key row;
        op_expires_at := expires_at;
        op_started_at := started_at;
        op_finished_at := finished_at;
        op_created_at := created_at;
        op_updated_at := updated_at |}.

Definition row_to_approval (row : ApprovalRow) : AppResult OperationApprovalRecord :=
  id ← parse_uuid (apr_id row) "operation approval id";
  operation_id ← parse_uuid (apr_operation_id row) "operation approval operation id";
  kind ← ok_or (Config "invalid stored operation approver kind")
    (parse_actor_kind (apr_approver_kind row));
  decision ← ok_or (Config "invalid stored operation approval decision")
    (parse_approval_decision (apr_decision row));
  created_at ← parse_timestamp (apr_created_at row) "operation approval creation";
  expires_at ← parse_optional_timestamp (apr_expires_at row) "operation approval expiry";
  Ok {| ar_id := id;
        ar_operation_id := operation_id;
        ar_payload_hash := apr_payload_hash row;
        ar_approver := {| approver_kind := kind; approver_id := apr_approver_id row |};
        ar_decision := decision;
        ar_reason := apr_reason row;
        ar_policy_revision := apr_policy_revision row;
        ar_created_at := created_at;
        ar_expires_at := expires_at |}.

Definition row_to_event (row : EventRow) : AppResult OperationEventRecord :=
  id ← parse_uuid (evr_id row) "operation event id";
  operation_id ← parse_uuid (evr_operation_id row) "operation event operation id";
  kind ← ok_or (Config "invalid stored operation event kind")
    (parse_event_kind (evr_event_kind row));
  state ← ok_or (Config "invalid stored operation event state") (parse_state (evr_state row));
  details ← parse_canonical_json (evr_event_json row);
  created_at ← parse_timestamp (evr_created_at row) "operation event creation";
  Ok {| ev_id := id;
        ev_operation_id := operation_id;
        ev_sequence := evr_sequence row;
        ev_kind := kind;
        ev_state := state;
        ev_details := details;
        ev_created_at := created_at;
        ev_prev_hash := evr_prev_hash row;
        ev_hash := evr_hash row |}.

(** ** The event ledger *)

Record EventHashInput := {
  eh_event_id : Uuid;
  eh_operation_id : Uuid;
  eh_sequence : Z;
  eh_kind : OperationEventKind.t;
  eh_state : OperationState.t;
  eh_event_json : string;
  eh_created_at : DateTime;
  eh_prev_hash : option string;
}.

Definition event_hash_value (input : EventHashInput) : Value :=
  VObject
    [("createdAt", VString (timestamp (eh_created_at input)));
     ("eventId", VString (uuid_to_string (eh_event_id input)));
     ("eventJson", VString (eh_event_json input));
     ("eventKind", VString (event_kind_str (eh_kind input)));
     ("operationId", VString (uuid_to_string (eh_operation_id input)));
     ("prevHash", value_of_opt_string (eh_prev_hash input));
     ("sequence", value_of_i64 (eh_sequence input));
     ("state", VString (state_str (eh_state input)))].

Definition event_hash (input : EventHashInput) : AppResult string :=
  canonical ← canonical_json (event_hash_value input);
  Ok (lower_hex (sha256 (bytes_of canonical))).

(** Rows of one operation; [ORDER BY sequence DESC LIMIT 1]. *)
Definition events_of (id : string) (db : LocalDb) : list EventRow :=
  List.filter (λ e, evr_operation_id e =? id)%string (operation_events db).

Definition seq_cmp (a b : EventRow) : comparison := Z.compare (evr_sequence a) (evr_sequence b).

Definition event_tail (id : string) (db : LocalDb) : option EventRow :=
  last (sort_by seq_cmp (events_of id db)).

Definition append_event_tx (event_id operation_id : Uuid) (kind : OperationEventKind.t)
  (state : OperationState.t) (details : Value) (created_at : DateTime) (db : LocalDb)
  : AppResult (OperationEventRecord * LocalDb) :=
  details_json ← canonical_json details;
  _ ← reject_if (MAX_RESPONSE_BYTES <? str_len details_json)%N
        (Config "operation event details exceed the local control-message limit");
  '(sequence, prev_hash) ←
    match event_tail (uuid_to_string operation_id) db with
    | Some row =>
        next ← ok_or (Config "operation event sequence overflowed") (i64_succ (evr_sequence row));
        Ok (next, Some (evr_hash row))
    | None => Ok (1, None)
    end;
  hash ← event_hash {| eh_event_id := event_id; eh_operation_id := operation_id;
    eh_sequence := sequence; eh_kind := kind; eh_state := state;
    eh_event_json := details_json; eh_created_at := created_at; eh_prev_hash := prev_hash |};
  db' ← insert_event
    {| evr_id := uuid_to_string event_id;
       evr_operation_id := uuid_to_string operation_id;
       evr_sequence := sequence;
       evr_event_kind := event_kind_str kind;
       evr_state := state_str state;
       evr_event_json := details_json;
       evr_created_at := timestamp created_at;
       evr_prev_hash := prev_hash;
       evr_hash := hash |} db;
  parsed ← ok_or Serialization (json_from_str details_json);
  Ok ({| ev_id := event_id; ev_operation_id := operation_id; ev_sequence := sequence;
         ev_kind := kind; ev_state := state; ev_details := parsed;
         ev_created_at := created_at; ev_prev_hash := prev_hash; ev_hash := hash |}, db').

(** ** Transitions *)

Definition fetch_operation_tx (operation_id : Uuid) (db : LocalDb) : AppResult OperationRecord :=
  row ← ok_or (NotFound ("operation " +:+ uuid_to_string operation_id))
    (List.find (λ r, row_id r =? uuid_to_string operation_id)%string (operations db));
  row_to_operation row.

Definition ensure_runtime (operation : OperationRecord) (runtime_id : Uuid) : AppResult unit :=
  if bool_decide (op_runtime_id operation = runtime_id) then Ok tt
  else Err (operation_conflict "the operation belongs to a previous application runtime").

(** The WHERE and SET clauses of the compare-and-swap UPDATE. *)
Definition transition_where (current : OperationRecord) (target : OperationState.t)
  (now_text : string) (r : OperationRow) : bool :=
  (row_id r =? uuid_to_string (op_id current))%string
  && (row_state r =? state_str (op_state current))%string
  && (row_payload_hash r =? op_payload_hash current)%string
  && (negb (state_str target =? "executing")%string
      || match row_expires_at r with
         | None => true
         | Some e => bool_decide (string_cmp e now_text = Gt)
         end).

Definition transition_set (target : OperationState.t) (now_text : string)
  (r : OperationRow) : OperationRow :=
  {| row_id := row_id r;
     row_runtime_id := row_runtime_id r;
     row_workspace_id := row_workspace_id r;
     row_account_scope := row_account_scope r;
     row_connection_id := row_connection_id r;
     row_connection_revision := row_connection_revision r;
     row_terminal_session_id := row_terminal_session_id r;
     row_actor_kind := row_actor_kind r;
     row_actor_id := row_actor_id r;
     row_actor_provenance_json := row_actor_provenance_json r;
     row_operation_kind := row_operation_kind r;
     row_payload_schema_version := row_payload_schema_version r;
     row_payload_json := row_payload_json r;
     row_payload_hash := row_payload_hash r;
     row_schema_fingerprint := row_schema_fingerprint r;
     row_risk_level := row_risk_level r;
     row_preview_json := row_preview_json r;
     row_policy_snapshot_json := row_policy_snapshot_json r;
     row_policy_revision := row_policy_revision r;
     row_state := state_str target;
     row_single_use := row_single_use r;
     row_idempotency_key := row_idempotency_key r;
     row_expires_at := row_expires_at r;
     row_started_at := if (state_str target =? "executing")%string
                       then Some now_text else row_started_at r;
     row_finished_at := if OperationState.is_terminal target
                        then Some now_text else row_finished_at r;
     row_created_at := row_created_at r;
     row_updated_at := now_text |}.

Definition transition_tx (event_id : Uuid) (current : OperationRecord)
  (target : OperationState.t) (details : Value) (now : DateTime) (db : LocalDb)
  : AppResult (OperationRecord * LocalDb) :=
  _ ← map_err (λ error, operation_conflict (transition_error_text error))
        (StateMachine.ensure_transition (op_state current) target);
  let now_text := timestamp now in
  '(rows_affected, db1) ←
    update_operations (transition_where current target now_text)
      (transition_set target now_text) db;
  _ ← reject_if (negb (rows_affected =? 1)%nat)
        (operation_conflict "the operation state changed before it could be updated");
  '(_, db2) ← append_event_tx event_id (op_id current) (transition_event_kind target)
                target details now db1;
  updated ← fetch_operation_tx (op_id current) db2;
  Ok (updated, db2).

(** ** Planning *)

Definition validate_new_operation (operation : NewOperation) : AppResult unit :=
  let provenance := provenance (new_actor operation) in
  _ ← match List.find (λ nv, is_blank nv.2)
        [("account scope", new_account_scope operation);
         ("actor id", actor_id (new_actor operation));
         ("actor origin surface", origin_surface provenance);
         ("policy revision", new_policy_revision operation);
         ("idempotency key", new_idempotency_key operation)] with
      | Some (name, _) => Err (Config ("operation " +:+ name +:+ " cannot be empty"))
      | None => Ok tt
      end;
  _ ← reject_if (new_connection_revision operation <? 1)
        (Config "operation connection revision must be positive");
  _ ← reject_if (new_payload_schema_version operation =? 0)
        (Config "operation payload schema version must be positive");
  reject_if match new_schema_fingerprint operation with
            | Some value => negb (str_len value =? 64)%N
                            || negb (forallb is_lower_hex (bytes_of value))
            | None => false
            end
    (Config "operation schema fingerprint must be lowercase SHA-256").

Record PreparedOperation := {
  po_runtime_id : Uuid;
  po_operation : NewOperation;
  po_payload : CanonicalJson;
  po_actor_provenance_json : string;
  po_preview_json : string;
  po_policy_snapshot_json : string;
}.

Definition prepare (runtime_id : Uuid) (operation : NewOperation)
  : AppResult PreparedOperation :=
  _ ← validate_new_operation operation;
  payload ← from_value (new_payload operation);
  _ ← reject_if (MAX_REQUEST_BYTES <? str_len (cj_json payload))%N
        (Config "operation payload exceeds the local control-message limit");
  actor_provenance_json ←
    canonical_json (provenance_to_value (provenance (new_actor operation)));
  preview_json ← canonical_json (new_preview operation);
  policy_snapshot_json ← canonical_json (new_policy_snapshot operation);
  let metadata_bytes :=
    saturating_add (saturating_add (str_len actor_provenance_json) (str_len preview_json))
      (str_len policy_snapshot_json) in
  _ ← reject_if (MAX_RESPONSE_BYTES <? metadata_bytes)%N
        (Config "operation metadata exceeds the local control-message limit");
  Ok {| po_runtime_id := runtime_id;
        po_operation := operation;
        po_payload := payload;
        po_actor_provenance_json := actor_provenance_json;
        po_preview_json := preview_json;
        po_policy_snapshot_json := policy_snapshot_json |}.

Definition matches (self : PreparedOperation) (existing : OperationRecord) : bool :=
  let operation := po_operation self in
  bool_decide (op_runtime_id existing = po_runtime_id self)
  && bool_decide (op_workspace_id existing = new_workspace_id operation)
  && (op_account_scope existing =? new_account_scope operation)%string
  && bool_decide (op_connection_id existing = new_connection_id operation)
  && (op_connection_revision existing =? new_connection_revision operation)
  && bool_decide (op_terminal_session_id existing = new_terminal_session_id operation)
  && bool_decide (op_actor existing = new_actor operation)
  && bool_decide (op_kind existing = new_kind operation)
  && (op_payload_schema_version existing =? new_payload_schema_version operation)
  && (op_payload_hash existing =? cj_sha256 (po_payload self))%string
  && bool_decide (op_schema_fingerprint existing = new_schema_fingerprint operation)
  && bool_decide (op_risk_level existing = new_risk_level operation)
  && value_eqb (op_preview existing) (new_preview operation)
  && value_eqb (op_policy_snapshot existing) (new_policy_snapshot operation)
  && (op_policy_revision existing =? new_policy_revision operation)%string
  && Bool.eqb (op_single_use existing) (new_single_use operation)
  && (op_idempotency_key existing =? new_idempotency_key operation)%string
  && bool_decide (op_expires_at existing = new_expires_at operation).

(** The row the INSERT writes. *)
Definition planned_row (prepared : PreparedOperation) (created_at_text : string)
  : OperationRow :=
  let operation := po_operation prepared in
  {| row_id := uuid_to_string (new_id operation);
     row_runtime_id := uuid_to_string (po_runtime_id prepared);
     row_workspace_id := uuid_to_string (new_workspace_id operation);
     row_account_scope := new_account_scope operation;
     row_connection_id := uuid_to_string (new_connection_id operation);
     row_connection_revision := new_connection_revision operation;
     row_terminal_session_id := uuid_to_string <$> new_terminal_session_id operation;
     row_actor_kind := actor_kind_str (actor_kind (new_actor operation));
     row_actor_id := actor_id (new_actor operation);
     row_actor_provenance_json := po_actor_provenance_json prepared;
     row_operation_kind := operation_kind_str (new_kind operation);
     row_payload_schema_version := new_payload_schema_version operation;
     row_payload_json := cj_json (po_payload prepared);
     row_payload_hash := cj_sha256 (po_payload prepared);
     row_schema_fingerprint := new_schema_fingerprint operation;
     row_risk_level := risk_level_str (new_risk_level operation);
     row_preview_json := po_preview_json prepared;
     row_policy_snapshot_json := po_policy_snapshot_json prepared;
     row_policy_revision := new_policy_revision operation;
     row_state := "planned";
     row_single_use := if new_single_use operation then 1 else 0;
     row_idempotency_key := new_idempotency_key operation;
     row_expires_at := timestamp <$> new_expires_at operation;
     row_started_at := None;
     row_finished_at := None;
     row_created_at := created_at_text;
     row_updated_at := created_at_text |}.

Definition idempotent_row (operation : NewOperation) (r : OperationRow) : bool :=
  (row_workspace_id r =? uuid_to_string (new_workspace_id operation))%string
  && (row_actor_kind r =? actor_kind_str (actor_kind (new_actor operation)))%string
  && (row_actor_id r =? actor_id (new_actor operation))%string
  && (row_idempotency_key r =? new_idempotency_key operation)%string.

Definition insert_planned (event_id runtime_id : Uuid) (operation : NewOperation)
  (now : DateTime) (db : LocalDb) : AppResult OperationRecord * LocalDb :=
  with_tx db
    (prepared ← prepare runtime_id operation;
     match List.find (idempotent_row operation) (operations db) with
     | Some row =>
         existing ← row_to_operation row;
         if matches prepared existing then Ok (Ok existing, db)
         else Err (operation_conflict
           "the idempotency key is already bound to a different immutable operation")
     | None =>
         db1 ← insert_operation (planned_row prepared (timestamp now)) db;
         '(_, db2) ← append_event_tx event_id (new_id operation)
           OperationEventKind.Planned OperationState.Planned
           (VObject [("payloadHash", VString (cj_sha256 (po_payload prepared)));
                     ("riskLevel", VString (risk_level_str (new_risk_level operation)))])
           now db1;
         record ← fetch_operation_tx (new_id operation) db2;
         Ok (Ok record, db2)
     end).

(** ** Reads *)

Definition find (operation_id : Uuid) (db : LocalDb) : AppResult (option OperationRecord) :=
  traverse_opt row_to_operation
    (List.find (λ r, row_id r =? uuid_to_string operation_id)%string (operations db)).

Definition get (operation_id : Uuid) (db : LocalDb) : AppResult OperationRecord :=
  found ← find operation_id db;
  ok_or (NotFound ("operation " +:+ uuid_to_string operation_id)) found.

Fixpoint collect {A B} (f : A → AppResult B) (l : list A) : AppResult (list B) :=
  match l with
  | [] => Ok []
  | x :: l' => y ← f x; ys ← collect f l'; Ok (y :: ys)
  end.

Definition approvals_of (id : string) (db : LocalDb) : list ApprovalRow :=
  List.filter (λ a, apr_operation_id a =? id)%string (operation_approvals db).

Definition approval_cmp (a b : ApprovalRow) : comparison :=
  then_with (string_cmp (apr_created_at a) (apr_created_at b))
    (string_cmp (apr_id a) (apr_id b)).

Definition approvals (operation_id : Uuid) (db : LocalDb)
  : AppResult (list OperationApprovalRecord) :=
  collect row_to_approval (sort_by approval_cmp (approvals_of (uuid_to_string operation_id) db)).

Definition events (operation_id : Uuid) (db : LocalDb)
  : AppResult (list OperationEventRecord) :=
  collect row_to_event (sort_by seq_cmp (events_of (uuid_to_string operation_id) db)).

(** ** State changes *)

Definition transition (event_id operation_id runtime_id : Uuid) (target : OperationState.t)
  (details : Value) (now : DateTime) (db : LocalDb) : AppResult OperationRecord * LocalDb :=
  if bool_decide (target = OperationState.Executing)
  then (Err (Config "execution must be entered through the atomic claim API"), db)
  else with_tx db
    (current ← fetch_operation_tx operation_id db;
     _ ← ensure_runtime current runtime_id;
     '(updated, db') ← transition_tx event_id current target details now db;
     Ok (Ok updated, db')).

(** [expires_at.is_some_and(|expires_at| expires_at <= now)] *)
Definition is_expired (current : OperationRecord) (now : DateTime) : bool :=
  match op_expires_at current with Some expires_at => expires_at <=? now | None => false end.

(** The EXISTS subquery of [claim_execution]. *)
Definition exact_approval (current : OperationRecord) (now_text : string) (a : ApprovalRow)
  : bool :=
  (apr_operation_id a =? uuid_to_string (op_id current))%string
  && (apr_payload_hash a =? op_payload_hash current)%string
  && (apr_decision a =? "approved")%string
  && (apr_policy_revision a =? op_policy_revision current)%string
  && match apr_expires_at a with
     | None => true
     | Some e => bool_decide (string_cmp e now_text = Gt)
     end.

Definition claim_execution (event_id operation_id runtime_id : Uuid) (now : DateTime)
  (db : LocalDb) : AppResult OperationRecord * LocalDb :=
  with_tx db
    (current ← fetch_operation_tx operation_id db;
     _ ← ensure_runtime current runtime_id;
     _ ← reject_if
           (negb match op_state current with
                 | OperationState.Ready | OperationState.Approved => true
                 | _ => false
                 end)
           (operation_conflict "the operation is not in an executable state");
     _ ← reject_if (bool_decide (op_state current = OperationState.Ready)
                    && OperationKind.may_mutate_target (op_kind current))
           (operation_conflict
             "a target-mutating operation cannot execute without exact approval");
     if is_expired current now then
       '(_, db') ← transition_tx event_id current OperationState.Expired
         (VObject [("reason", VString "operation_expired")]) now db;
       Ok (Err (operation_conflict "the operation has expired"), db')
     else
       _ ← reject_if (bool_decide (op_state current = OperationState.Approved)
                      && negb (existsb (exact_approval current (timestamp now))
                                 (operation_approvals db)))
             (operation_conflict "the operation has no current exact approval");
       '(updated, db') ← transition_tx event_id current OperationState.Executing
         (VObject [("payloadHash", VString (op_payload_hash current))]) now db;
       Ok (Ok updated, db')).

(** The row the INSERT of [decide_approval] writes. *)
Definition approval_row (approval_id : Uuid) (current : OperationRecord)
  (command : OperationApprovalCommand) : ApprovalRow :=
  {| apr_id := uuid_to_string approval_id;
     apr_operation_id := uuid_to_string (op_id current);
     apr_payload_hash := op_payload_hash current;
     apr_approver_kind := actor_kind_str (approver_kind (cmd_approver command));
     apr_approver_id := approver_id (cmd_approver command);
     apr_decision := approval_decision_str (cmd_decision command);
     apr_reason := cmd_reason command;
     apr_policy_revision := op_policy_revision current;
     apr_created_at := timestamp (cmd_now command);
     apr_expires_at := timestamp <$> op_expires_at current |}.

Definition approval_details (approval_id : Uuid) (current : OperationRecord)
  (command : OperationApprovalCommand) : Value :=
  VObject
    [("approvalId", VString (uuid_to_string approval_id));
     ("approverId", VString (approver_id (cmd_approver command)));
     ("approverKind", VString (actor_kind_str (approver_kind (cmd_approver command))));
     ("payloadHash", VString (op_payload_hash current));
     ("policyRevision", VString (op_policy_revision current))].

Definition decided_state (decision : OperationApprovalDecision.t) : OperationState.t :=
  match decision with
  | OperationApprovalDecision.Approved => OperationState.Approved
  | OperationApprovalDecision.Rejected => OperationState.Rejected
  end.

Definition decide_approval (event_id approval_id : Uuid) (command : OperationApprovalCommand)
  (db : LocalDb) : AppResult OperationRecord * LocalDb :=
  with_tx db
    (_ ← reject_if
           (negb match approver_kind (cmd_approver command) with
                 | OperationActorKind.LocalUser | OperationActorKind.WorkspaceUser => true
                 | _ => false
                 end
            || is_blank (approver_id (cmd_approver command)))
           (operation_conflict
             "only an identified local or workspace user can approve an operation");
     _ ← reject_if match cmd_reason command with
                   | Some reason => (MAX_REQUEST_BYTES <? str_len reason)%N
                   | None => false
                   end
           (Config "operation approval reason exceeds the local control-message limit");
     current ← fetch_operation_tx (cmd_operation_id command) db;
     _ ← ensure_runtime current (cmd_runtime_id command);
     _ ← reject_if (negb (bool_decide (op_state current = OperationState.PendingApproval)))
           (operation_conflict "the operation is not awaiting an approval decision");
     _ ← reject_if (negb (op_payload_hash current =? cmd_expected_payload_hash command)%string)
           (operation_conflict
             "the reviewed payload hash does not match the stored operation");
     _ ← reject_if
           (negb (op_policy_revision current =? cmd_current_policy_revision command)%string)
           (operation_conflict
             "the active safety policy changed after the operation was planned");
     if is_expired current (cmd_now command) then
       '(_, db') ← transition_tx event_id current OperationState.Expired
         (VObject [("reason", VString "approval_expired")]) (cmd_now command) db;
       Ok (Err (operation_conflict "the operation has expired"), db')
     else
       db1 ← insert_approval (approval_row approval_id current command) db;
       '(updated, db2) ← transition_tx event_id current (decided_state (cmd_decision command))
         (approval_details approval_id current command)
         (cmd_now command) db1;
       Ok (Ok updated, db2)).

Definition append_progress (event_id operation_id runtime_id : Uuid) (details : Value)
  (now : DateTime) (db : LocalDb) : AppResult OperationEventRecord * LocalDb :=
  with_tx db
    (current ← fetch_operation_tx operation_id db;
     _ ← ensure_runtime current runtime_id;
     _ ← reject_if (negb (bool_decide (op_state current = OperationState.Executing)))
           (operation_conflict "progress can only be recorded for an executing operation");
     '(event, db') ← append_event_tx event_id operation_id OperationEventKind.Progress
       (op_state current) details now db;
     Ok (Ok event, db')).

(** ** Verification *)

Fixpoint verify_events (index : Z) (previous_hash : option string)
  (l : list OperationEventRecord) : AppResult bool :=
  match l with
  | [] => Ok true
  | event :: l' =>
      if negb (ev_sequence event =? index + 1)
         || negb (bool_decide (ev_prev_hash event = previous_hash))
         || (index =? 0)
            && (negb (bool_decide (ev_kind event = OperationEventKind.Planned))
                || negb (bool_decide (ev_state event = OperationState.Planned)))
      then Ok false
      else
        event_json ← canonical_json (ev_details event);
        expected ← event_hash {| eh_event_id := ev_id event;
          eh_operation_id := ev_operation_id event; eh_sequence := ev_sequence event;
          eh_kind := ev_kind event; eh_state := ev_state event; eh_event_json := event_json;
          eh_created_at := ev_created_at event; eh_prev_hash := ev_prev_hash event |};
        if negb (expected =? ev_hash event)%string then Ok false
        else verify_events (index + 1) (Some (ev_hash event)) l'
  end.

Definition verify_event_chain (operation_id : Uuid) (db : LocalDb) : AppResult bool :=
  projection ← get operation_id db;
  records ← events operation_id db;
  if (length records =? 0)%nat then Ok false
  else
    linked ← verify_events 0 None records;
    match linked with
    | true =>
        Ok match last records with
           | Some event => bool_decide (ev_state event = op_state projection)
           | None => false
           end
    | false => Ok false
    end.

(** ** Restart recovery *)

Definition row_cmp (a b : OperationRow) : comparison :=
  then_with (string_cmp (row_created_at a) (row_created_at b))
    (string_cmp (row_id a) (row_id b)).

Definition unfinished_of_other_runtime (current_runtime_id : Uuid) (r : OperationRow) : bool :=
  negb (row_runtime_id r =? uuid_to_string current_runtime_id)%string
  && negb (one_of ["rejected"; "expired"; "cancelled"; "succeeded"; "failed";
                   "outcome_unknown"] (row_state r)).

Definition empty_report : RestartRecoveryReport :=
  {| rr_expired := []; rr_failed := []; rr_outcome_unknown := [];
     rr_checkpoint_validation_required := [] |}.

(** One iteration of the loop; [event_id] and [now] are what the transition of
    this iteration draws. *)
Definition recover_one (event_id : Uuid) (now : DateTime) (operation : OperationRecord)
  (report : RestartRecoveryReport) (db : LocalDb)
  : AppResult (RestartRecoveryReport * LocalDb) :=
  match StateMachine.restart_recovery (op_kind operation) (op_state operation) with
  | StateMachine.KeepTerminal => Ok (report, db)
  | StateMachine.Expire =>
      '(_, db') ← transition_tx event_id operation OperationState.Expired
        (VObject [("reason", VString "runtime_restarted")]) now db;
      Ok ({| rr_expired := rr_expired report ++ [op_id operation];
             rr_failed := rr_failed report;
             rr_outcome_unknown := rr_outcome_unknown report;
             rr_checkpoint_validation_required := rr_checkpoint_validation_required report |},
          db')
  | StateMachine.MarkFailed =>
      '(_, db') ← transition_tx event_id operation OperationState.Failed
        (VObject [("reason", VString "runtime_interrupted_before_receipt")]) now db;
      Ok ({| rr_expired := rr_expired report;
             rr_failed := rr_failed report ++ [op_id operation];
             rr_outcome_unknown := rr_outcome_unknown report;
             rr_checkpoint_validation_required := rr_checkpoint_validation_required report |},
          db')
  | StateMachine.OutcomeUnknown =>
      '(_, db') ← transition_tx event_id operation OperationState.OutcomeUnknown
        (VObject [("reason", VString "target_commit_status_unknown_after_restart")]) now db;
      Ok ({| rr_expired := rr_expired report;
             rr_failed := rr_failed report;
             rr_outcome_unknown := rr_outcome_unknown report ++ [op_id operation];
             rr_checkpoint_validation_required := rr_checkpoint_validation_required report |},
          db')
  | StateMachine.ValidateJobCheckpoint =>
      Ok ({| rr_expired := rr_expired report;
             rr_failed := rr_failed report;
             rr_outcome_unknown := rr_outcome_unknown report;
             rr_checkpoint_validation_required :=
               rr_checkpoint_validation_required report ++ [op_id operation] |}, db)
  end.

(** [fresh n] and [clock n] are what the [n]-th iteration draws. *)
Fixpoint recover_rows (fresh : nat → Uuid) (clock : nat → DateTime) (n : nat)
  (rows : list OperationRow) (report : RestartRecoveryReport) (db : LocalDb)
  : AppResult (RestartRecoveryReport * LocalDb) :=
  match rows with
  | [] => Ok (report, db)
  | row :: rows =>
      operation ← row_to_operation row;
      '(report', db') ← recover_one (fresh n) (clock n) operation report db;
      recover_rows fresh clock (S n) rows report' db'
  end.

Definition recovery_rows (current_runtime_id : Uuid) (db : LocalDb) : list OperationRow :=
  sort_by row_cmp
    (List.filter (unfinished_of_other_runtime current_runtime_id) (operations db)).

Definition recover_previous_runtimes (fresh : nat → Uuid) (clock : nat → DateTime)
  (current_runtime_id : Uuid) (db : LocalDb) : AppResult RestartRecoveryReport * LocalDb :=
  with_tx db
    ('(report, db') ← recover_rows fresh clock 0 (recovery_rows current_runtime_id db)
       empty_report db;
     Ok (Ok report, db')).
End repository.
