(* ===== verification/Ledger.v ===== *)
(** * Rows, records and event chains

    A row decodes to a record ([stored]); the events of an operation form a hash
    chain ([chain]) whose trace is a run of the lifecycle ([lifecycle]). *)

From S2P Require Export Repository.

Section rows.
Context {P : Platform} {L : PlatformLaws P} {SD : Serde}.

(** ** Rows and records *)

Record stored (r : OperationRow) (op : OperationRecord) : Prop := {
  st_decode : row_to_operation r = Ok op;
  st_id : row_id r = uuid_to_string (op_id op);
  st_runtime : row_runtime_id r = uuid_to_string (op_runtime_id op);
  st_expires : row_expires_at r = timestamp <$> op_expires_at op;
  st_clock : opt_clock_ok (op_expires_at op);
}.

(** The record after a transition: the state and the time columns change. *)
Definition transitioned (target : OperationState.t) (now : DateTime)
  (op : OperationRecord) : OperationRecord :=
  {| op_id := op_id op;
     op_runtime_id := op_runtime_id op;
     op_workspace_id := op_workspace_id op;
     op_account_scope := op_account_scope op;
     op_connection_id := op_connection_id op;
     op_connection_revision := op_connection_revision op;
     op_terminal_session_id := op_terminal_session_id op;
     op_actor := op_actor op;
     op_kind := op_kind op;
     op_payload_schema_version := op_payload_schema_version op;
     op_payload := op_payload op;
     op_payload_hash := op_payload_hash op;
     op_schema_fingerprint := op_schema_fingerprint op;
     op_risk_level := op_risk_level op;
     op_preview := op_preview op;
     op_policy_snapshot := op_policy_snapshot op;
     op_policy_revision := op_policy_revision op;
     op_state := target;
     op_single_use := op_single_use op;
     op_idempotency_key := op_idempotency_key op;
     op_expires_at := op_expires_at op;
     op_started_at := if bool_decide (target = OperationState.Executing)
                      then Some now else op_started_at op;
     op_finished_at := if OperationState.is_terminal target
                       then Some now else op_finished_at op;
     op_created_at := op_created_at op;
     op_updated_at := now |}.

Lemma parse_timestamp_ok t f : clock_ok t → parse_timestamp (timestamp t) f = Ok t.
Proof. intros H. unfold parse_timestamp, timestamp. by rewrite rfc3339_roundtrip. Qed.

Lemma parse_opt_timestamp_ok t f :
  opt_clock_ok t → parse_optional_timestamp (timestamp <$> t) f = Ok t.
Proof.
  destruct t as [t|]; cbn; [|done]. intros H. unfold parse_optional_timestamp.
  cbn. by rewrite parse_timestamp_ok.
Qed.

Lemma parse_uuid_ok u f : parse_uuid (uuid_to_string u) f = Ok u.
Proof. unfold parse_uuid. by rewrite uuid_roundtrip. Qed.

(** What decoding a row says about its columns. *)
Lemma row_to_operation_columns r op :
  row_to_operation r = Ok op →
  row_state r = state_str (op_state op)
  ∧ row_operation_kind r = operation_kind_str (op_kind op)
  ∧ row_payload_hash r = op_payload_hash op
  ∧ row_policy_revision r = op_policy_revision op
  ∧ parse_uuid (row_id r) "operation id" = Ok (op_id op)
  ∧ row_payload_hash r = lower_hex (sha256 (bytes_of (row_payload_json r)))
  ∧ from_stored (row_payload_json r) (row_payload_hash r) =
      Ok {| cj_json := row_payload_json r; cj_sha256 := row_payload_hash r |}
  ∧ json_from_str (row_payload_json r) = Some (op_payload op).
Proof.
  unfold row_to_operation. intros H. inv_res. cbn.
  repeat match goal with
  | H : parse_state _ = Some _ |- _ => apply state_codec in H
  | H : parse_operation_kind _ = Some _ |- _ => apply kind_codec in H
  end.
  pose proof (from_stored_digest _ _ _ Hx) as [Hj Hh].
  pose proof Hx as Hf. apply from_stored_Ok in Hf as (v & Hv & _ & H1 & H2).
  destruct x as [j h]; cbn in *; subst j. 
  repeat split; try done.
  - by rewrite Hx, <-H2.
  - unfold into_value in *; cbn in *. by apply ok_or_Ok in Hx0.
Qed.

Lemma stored_inj r op op' : stored r op → stored r op' → op = op'.
Proof. intros [H _ _ _ _] [H' _ _ _ _]. congruence. Qed.

Lemma state_str_inj s t : state_str s = state_str t → s = t.
Proof.
  intros H. pose proof (proj2 (state_codec (state_str s) s) eq_refl) as Hs.
  pose proof (proj2 (state_codec (state_str t) t) eq_refl). congruence.
Qed.

Lemma executing_text s :
  (state_str s =? "executing")%string = bool_decide (s = OperationState.Executing).
Proof. by destruct s. Qed.

Ltac step_res :=
  repeat match goal with
  | H : ?c = Ok _ |- context [?c] => rewrite H; cbn [mbind result_bind]
  | H : ?c = Some _ |- context [ok_or _ ?c] => rewrite H; cbn [ok_or mbind result_bind]
  end.

Lemma stored_transition r op target now :
  stored r op → clock_ok now →
  stored (transition_set target (timestamp now) r) (transitioned target now op).
Proof.
  intros [Hd Hi Hr He Hc] Hn. split; cbn; try done.
  unfold row_to_operation in Hd. inv_res.
  pose proof (proj2 (state_codec _ target) eq_refl) as Hs.
  assert (parse_optional_timestamp (row_started_at (transition_set target (timestamp now) r))
    "operation start" = Ok (if bool_decide (target = OperationState.Executing)
                            then Some now else x17)) as Hst.
  { cbn. rewrite executing_text. case_bool_decide; [|done].
    by apply (parse_opt_timestamp_ok (Some now)). }
  assert (parse_optional_timestamp (row_finished_at (transition_set target (timestamp now) r))
    "operation finish" = Ok (if OperationState.is_terminal target
                             then Some now else x18)) as Hfi.
  { cbn. destruct (OperationState.is_terminal target); [|done].
    by apply (parse_opt_timestamp_ok (Some now)). }
  pose proof (parse_timestamp_ok now "operation update" Hn) as Hu.
  unfold row_to_operation. cbn [transition_set row_payload_json row_payload_hash
    row_actor_provenance_json row_preview_json row_policy_snapshot_json row_id row_runtime_id
    row_workspace_id row_connection_id row_terminal_session_id row_actor_kind
    row_operation_kind row_payload_schema_version row_risk_level row_state row_single_use
    row_expires_at row_created_at row_updated_at].
  step_res. done.
Qed.
End rows.

(** ** Event chains and the lifecycle *)

Section chain.
Context {P : Platform} {L : PlatformLaws P} {SD : Serde}.

Abbreviation trace := (list (OperationEventKind.t * OperationState.t)).

(** [e] is the row of an event of operation [id] with sequence number [n]
    linked to [prev], of the given kind and state. *)
Definition event_ok (id : Uuid) (n : Z) (prev : option string)
  (ks : OperationEventKind.t * OperationState.t) (e : EventRow) : Prop :=
  ∃ eid text details at_,
    clock_ok at_ ∧ json_from_str text = Some details ∧ canonical_json details = Ok text ∧
    event_hash {| eh_event_id := eid; eh_operation_id := id; eh_sequence := n;
      eh_kind := ks.1; eh_state := ks.2; eh_event_json := text;
      eh_created_at := at_; eh_prev_hash := prev |} = Ok (evr_hash e) ∧
    e = {| evr_id := uuid_to_string eid;
           evr_operation_id := uuid_to_string id;
           evr_sequence := n;
           evr_event_kind := event_kind_str ks.1;
           evr_state := state_str ks.2;
           evr_event_json := text;
           evr_created_at := timestamp at_;
           evr_prev_hash := prev;
           evr_hash := evr_hash e |}.

Inductive chain (id : Uuid) : list EventRow → trace → Prop :=
| chain_nil : chain id [] []
| chain_snoc l t e ks :
    chain id l t →
    event_ok id (Z.of_nat (length l) + 1) (evr_hash <$> last l) ks e →
    chain id (l ++ [e]) (t ++ [ks]).

(** Runs of the lifecycle: each entry is a transition the state machine
    allows, or progress of an executing operation. *)
Inductive lifecycle : trace → OperationState.t → Prop :=
| life_planned : lifecycle [(OperationEventKind.Planned, OperationState.Planned)]
                   OperationState.Planned
| life_step t s s' :
    lifecycle t s → StateMachine.step s s' →
    lifecycle (t ++ [(transition_event_kind s', s')]) s'
| life_progress t :
    lifecycle t OperationState.Executing →
    lifecycle (t ++ [(OperationEventKind.Progress, OperationState.Executing)])
      OperationState.Executing.

Lemma chain_length id l t : chain id l t → length t = length l.
Proof. induction 1; rewrite ?length_app; cbn; congruence. Qed.

Lemma event_ok_sequence id n prev ks e : event_ok id n prev ks e → evr_sequence e = n.
Proof. intros (? & ? & ? & ? & _ & _ & _ & _ & ->). done. Qed.

Lemma event_ok_operation id n prev ks e :
  event_ok id n prev ks e → evr_operation_id e = uuid_to_string id.
Proof. intros (? & ? & ? & ? & _ & _ & _ & _ & ->). done. Qed.

Lemma chain_sequences id l t :
  chain id l t → Forall (λ e, evr_sequence e ≤ Z.of_nat (length l)) l.
Proof.
  induction 1 as [|l t e ks Hc IH He]; [constructor|].
  rewrite length_app. cbn. apply Forall_app. split.
  - eapply Forall_impl; [exact IH|]. cbn. lia.
  - repeat constructor. rewrite (event_ok_sequence _ _ _ _ _ He). lia.
Qed.

#[export] Instance seq_cmp_total : TotalCmp seq_cmp.
Proof. unfold seq_cmp. apply _. Qed.

(** A chain is stored in sequence order. *)
Lemma chain_sorted id l t : chain id l t → sort_by seq_cmp l = l.
Proof.
  intros Hc. apply (sort_by_id seq_cmp). induction Hc as [|l t e ks Hc IH He]; [constructor|].
  apply StronglySorted_app_2; [|done|repeat constructor].
  intros x y Hx Hy%list_elem_of_singleton. subst y.
  pose proof (chain_sequences _ _ _ Hc) as Hs. rewrite Forall_forall in Hs.
  specialize (Hs x Hx). unfold seq_cmp. rewrite (event_ok_sequence _ _ _ _ _ He).
  rewrite Z.compare_ngt_iff. lia.
Qed.

Lemma chain_tail id l t :
  chain id l t →
  match last l with
  | Some e => evr_sequence e = Z.of_nat (length l)
  | None => l = []
  end.
Proof.
  intros Hc. destruct Hc as [|l t e ks Hc He]; [done|].
  rewrite last_snoc, length_app. cbn. rewrite (event_ok_sequence _ _ _ _ _ He). lia.
Qed.

Lemma events_of_add id e db :
  events_of id (add_event e db)
  = events_of id db ++ (if (evr_operation_id e =? id)%string then [e] else []).
Proof.
  unfold events_of, add_event. cbn. rewrite List.filter_app. cbn.
  by destruct (evr_operation_id e =? id)%string.
Qed.

(** Appending an event extends the chain of its operation. *)
Lemma append_event_effect eid id kind state details now db rec db' t :
  chain id (events_of (uuid_to_string id) db) t →
  clock_ok now → value_exact details = true →
  append_event_tx eid id kind state details now db = Ok (rec, db') →
  ∃ e, db' = add_event e db
    ∧ event_ok id (Z.of_nat (length (events_of (uuid_to_string id) db)) + 1)
        (evr_hash <$> last (events_of (uuid_to_string id) db)) (kind, state) e
    ∧ existsb (λ r, row_id r =? uuid_to_string id)%string (operations db) = true
    ∧ ev_state rec = state.
Proof.
  intros Hc Hn Hd. unfold append_event_tx, event_tail. rewrite (chain_sorted _ _ _ Hc).
  pose proof (chain_tail _ _ _ Hc) as Ht. intros H. inv_res.

  rename x into text, y into n, z into prev.
  assert (n = Z.of_nat (length (events_of (uuid_to_string id) db)) + 1
          ∧ prev = evr_hash <$> last (events_of (uuid_to_string id) db)) as [-> ->].
  { destruct (last (events_of (uuid_to_string id) db)) as [row|] eqn:El; inv_res.
    - simplify_eq. unfold i64_succ in *. case_match; [done|]. simplify_eq. by rewrite Ht.
    - simplify_eq. by rewrite Ht. }
  unfold insert_event in *. inv_res.
  eexists. split; [reflexivity|]. cbn. split; [|bools; done].
  unfold canonical_json in Hx. inv_res.
  eexists eid, _, (canonical_value details), now.
  split_and!; [done| | |cbn; eassumption|reflexivity].
  - apply json_roundtrip; [by apply canonical_exact|by apply from_value_json].
  - unfold canonical_json. apply andb_true_iff in Hd as [Hw _].
    rewrite from_value_canonical by done. by rewrite Hx.
Qed.
End chain.

(** ** The invariant of the Operation ledger

    [micro] lists the ways the repository's transactions change the tables.
    Every one preserves [Inv]: rows decode, the events of an operation are a hash
    chain whose trace is a run of the lifecycle, an execution is justified by an
    approval.  Every repository method is a sequence of [micro] steps. *)

(** ** Tables *)

Section tables.
Context {P : Platform} {L : PlatformLaws P} {SD : Serde}.

Definition set_row (id : string) (f : OperationRow → OperationRow) (db : LocalDb) : LocalDb :=
  {| operations := map (λ r, if (row_id r =? id)%string then f r else r) (operations db);
     operation_approvals := operation_approvals db;
     operation_events := operation_events db |}.
Lemma row_unique (l : list OperationRow) r r' :
  NoDup (row_id <$> l) → r ∈ l → r' ∈ l → row_id r = row_id r' → r = r'.
Proof.
  induction l as [|x l IH]; [by rewrite elem_of_nil|].
  intros [Hx Hn]%NoDup_cons [->|Hr]%elem_of_cons [->|Hr']%elem_of_cons He; try done.
  - exfalso. apply Hx, list_elem_of_fmap. eauto.
  - exfalso. apply Hx, list_elem_of_fmap. eauto.
  - auto.
Qed.

Lemma find_row (l : list OperationRow) r :
  NoDup (row_id <$> l) → r ∈ l →
  List.find (λ r', row_id r' =? row_id r)%string l = Some r.
Proof.
  intros Hn Hr. destruct (List.find _ l) as [r'|] eqn:E.
  - apply find_some in E as [Hin He%String.eqb_eq]. f_equal.
    apply (row_unique l); [done|by apply list_elem_of_In|done|done].
  - apply list_elem_of_In in Hr. pose proof (find_none _ _ E r Hr) as Hf; cbn in Hf.
    by rewrite String.eqb_refl in Hf.
Qed.

Lemma set_row_ids id f l :
  (∀ r, row_id (f r) = row_id r) →
  row_id <$> map (λ r, if (row_id r =? id)%string then f r else r) l = row_id <$> l.
Proof.
  intros Hf. induction l as [|r l IH]; cbn; [done|]. f_equal; [|done].
  destruct (row_id r =? id)%string; [apply Hf|done].
Qed.

(** An UPDATE that hits one row and selects by id updates exactly that row. *)
Lemma update_effect where_ set db db' r :
  NoDup (row_id <$> operations db) → r ∈ operations db →
  (∀ r', where_ r' = true → row_id r' = row_id r) →
  update_operations where_ set db = Ok (1%nat, db') →
  where_ r = true ∧ db' = set_row (row_id r) set db.
Proof.
  intros Hn Hr Hw H. unfold update_operations in H. inv_res. rename H into Hlen.
  assert (where_ r = true) as Hwr.
  { destruct (List.filter where_ (operations db)) as [|r' l] eqn:E; [done|].
    assert (In r' (List.filter where_ (operations db))) as Hin by (rewrite E; by left).
    apply filter_In in Hin as [Hin Ht]. apply list_elem_of_In in Hin.
    by rewrite (row_unique (operations db) r r') by (done || symmetry; auto). }
  split; [done|]. unfold set_row. f_equal. apply map_ext_in.
  intros r' Hr'%list_elem_of_In.
  destruct (String.eqb_spec (row_id r') (row_id r)) as [He|He].
  - by rewrite (row_unique (operations db) r' r), Hwr by done.
  - destruct (where_ r') eqn:E; [|done]. by apply Hw in E.
Qed.

Lemma ensure_runtime_Ok op rid u : ensure_runtime op rid = Ok u ↔ op_runtime_id op = rid.
Proof.
  unfold ensure_runtime. case_bool_decide; split; try done; intros; by destruct u.
Qed.

(** The effect of a successful transition. *)
Lemma transition_effect eid cur target details now db op' db' r t :
  NoDup (row_id <$> operations db) →
  r ∈ operations db → stored r cur →
  chain (op_id cur) (events_of (row_id r) db) t →
  clock_ok now → value_exact details = true →
  transition_tx eid cur target details now db = Ok (op', db') →
  StateMachine.step (op_state cur) target
  ∧ (target = OperationState.Executing →
     ∀ e, op_expires_at cur = Some e → now < e)
  ∧ op' = transitioned target now cur
  ∧ ∃ e, event_ok (op_id cur) (Z.of_nat (length (events_of (row_id r) db)) + 1)
           (evr_hash <$> last (events_of (row_id r) db)) (transition_event_kind target, target) e
    ∧ db' = add_event e (set_row (row_id r) (transition_set target (timestamp now)) db).
Proof.
  intros Hn Hr Hs Hc Hnow Hd H. unfold transition_tx in H.
  inv_res. apply negb_false_iff, Nat.eqb_eq in Hx1. subst y.
  apply (update_effect _ _ _ _ r Hn Hr) in Hx0 as [Hw ->].
  2: { intros r' Hw. unfold transition_where in Hw. bools. by rewrite (st_id _ _ Hs). }
  rewrite (st_id _ _ Hs) in Hc, Hx2 |- *.
  eapply append_event_effect in Hx2 as (e & -> & He & _ & _); [|exact Hc|done|done].
  split_and!; [done| | |by exists e].
  - intros -> e0 He0. unfold transition_where in Hw. bools.
    rewrite (st_expires _ _ Hs), He0 in *. cbn in *. bools.
    pose proof (st_clock _ _ Hs) as Hck. rewrite He0 in Hck. unfold timestamp in *.
    match goal with H : string_cmp _ _ = Gt |- _ => rewrite rfc3339_order in H by done end.
    by apply Z.compare_gt_iff.
  - unfold fetch_operation_tx in Hx3. inv_res. cbn in Hx0.
    destruct (find_some _ _ Hx0) as [Hin Hid].
    apply in_map_iff in Hin as (r' & Hr' & Hin%list_elem_of_In). bools.
    assert (row_id r' = row_id r) as Hrr.
    { rewrite (st_id _ _ Hs), <-Hid, <-Hr'.
      by destruct (row_id r' =? uuid_to_string (op_id cur))%string. }
    apply (row_unique _ _ _ Hn Hin Hr) in Hrr. subst r'.
    rewrite (st_id _ _ Hs), String.eqb_refl in Hr'. subst x.
    pose proof (st_decode _ _ (stored_transition r cur target now Hs Hnow)). congruence.
Qed.
End tables.

(** ** The steps of the ledger and its invariant *)

Section ledger.
Context {P : Platform} {L : PlatformLaws P} {SD : Serde}.

(** An approval row of [op]: an identified user's decision on exactly the
    stored payload and policy, taken before the operation expired. *)
Definition approval_ok (op : OperationRecord) (a : ApprovalRow) : Prop :=
  ∃ ar, row_to_approval a = Ok ar
    ∧ ar_operation_id ar = op_id op
    ∧ ar_payload_hash ar = op_payload_hash op
    ∧ ar_policy_revision ar = op_policy_revision op
    ∧ (approver_kind (ar_approver ar) = OperationActorKind.LocalUser
       ∨ approver_kind (ar_approver ar) = OperationActorKind.WorkspaceUser)
    ∧ is_blank (approver_id (ar_approver ar)) = false
    ∧ ar_expires_at ar = op_expires_at op
    ∧ (∀ e, op_expires_at op = Some e → ar_created_at ar < e).

(** [op] started before it expired, and a target-mutating one with an exact
    approval that was current when it started. *)
Definition justified (op : OperationRecord) (aps : list ApprovalRow) : Prop :=
  ∃ started, op_started_at op = Some started
    ∧ (∀ e, op_expires_at op = Some e → started < e)
    ∧ (OperationKind.may_mutate_target (op_kind op) = true →
       ∃ a, a ∈ aps ∧ exact_approval op (timestamp started) a = true).

Definition executed (t : list (OperationEventKind.t * OperationState.t)) : Prop :=
  (OperationEventKind.ExecutionStarted, OperationState.Executing) ∈ t.

Record entry_ok (op : OperationRecord) (t : list (OperationEventKind.t * OperationState.t))
  (evs : list EventRow) (aps : list ApprovalRow) : Prop := {
  en_chain : chain (op_id op) evs t;
  en_life : lifecycle t (op_state op);
  en_exec : executed t → justified op aps;
  en_aps : Forall (approval_ok op) aps;
  en_finished : is_Some (op_finished_at op) ↔ OperationState.is_terminal (op_state op) = true;
}.

Record Inv (db : LocalDb) : Prop := {
  inv_ids : NoDup (row_id <$> operations db);
  inv_check : Forall (λ r, operations_check r = true) (operations db);
  inv_events : Forall (λ e, evr_operation_id e ∈ row_id <$> operations db)
                 (operation_events db);
  inv_approvals : Forall (λ a, apr_operation_id a ∈ row_id <$> operations db)
                    (operation_approvals db);
  inv_entry r : r ∈ operations db →
    ∃ op t, stored r op
      ∧ entry_ok op t (events_of (row_id r) db) (approvals_of (row_id r) db);
}.

(** The next event of row [r]. *)
Abbreviation next_event := (λ db r op ks e,
  event_ok (op_id op) (Z.of_nat (length (events_of (row_id r) db)) + 1)
    (evr_hash <$> last (events_of (row_id r) db)) ks e).

Inductive micro (db : LocalDb) : LocalDb → Prop :=
| micro_plan r op e :
    row_id r ∉ row_id <$> operations db → operations_check r = true → stored r op →
    op_state op = OperationState.Planned → op_finished_at op = None →
    event_ok (op_id op) 1 None (OperationEventKind.Planned, OperationState.Planned) e →
    micro db (add_event e (add_row r db))
| micro_transition r op target now e :
    r ∈ operations db → stored r op → clock_ok now →
    StateMachine.step (op_state op) target →
    (target = OperationState.Executing →
     justified (transitioned target now op) (approvals_of (row_id r) db)) →
    next_event db r op (transition_event_kind target, target) e →
    micro db (add_event e (set_row (row_id r) (transition_set target (timestamp now)) db))
| micro_approval r op a :
    r ∈ operations db → stored r op → approval_ok op a →
    apr_operation_id a = row_id r →
    micro db (add_approval a db)
| micro_progress r op e :
    r ∈ operations db → stored r op → op_state op = OperationState.Executing →
    next_event db r op (OperationEventKind.Progress, OperationState.Executing) e →
    micro db (add_event e db).

(** *** Frame lemmas *)

Lemma approvals_of_add id a db :
  approvals_of id (add_approval a db)
  = approvals_of id db ++ (if (apr_operation_id a =? id)%string then [a] else []).
Proof.
  unfold approvals_of, add_approval. cbn. rewrite List.filter_app. cbn.
  by destruct (apr_operation_id a =? id)%string.
Qed.

Lemma events_of_other id e db :
  evr_operation_id e ≠ id → events_of id (add_event e db) = events_of id db.
Proof. intros H%String.eqb_neq. by rewrite events_of_add, H, app_nil_r. Qed.

Lemma events_of_same id e db :
  evr_operation_id e = id → events_of id (add_event e db) = events_of id db ++ [e].
Proof. intros <-. by rewrite events_of_add, String.eqb_refl. Qed.

Lemma no_events id db :
  Forall (λ e, evr_operation_id e ∈ row_id <$> operations db) (operation_events db) →
  id ∉ row_id <$> operations db → events_of id db = [].
Proof.
  intros H Hid. unfold events_of.
  induction H as [|e l He _ IH]; cbn; [done|].
  destruct (String.eqb_spec (evr_operation_id e) id); [by subst|done].
Qed.

Lemma no_approvals id db :
  Forall (λ a, apr_operation_id a ∈ row_id <$> operations db) (operation_approvals db) →
  id ∉ row_id <$> operations db → approvals_of id db = [].
Proof.
  intros H Hid. unfold approvals_of.
  induction H as [|e l He _ IH]; cbn; [done|].
  destruct (String.eqb_spec (apr_operation_id e) id); [by subst|done].
Qed.

Lemma set_row_In id f db r :
  r ∈ operations (set_row id f db) ↔
  ∃ r0, r0 ∈ operations db ∧ r = if (row_id r0 =? id)%string then f r0 else r0.
Proof.
  cbn. rewrite list_elem_of_In, in_map_iff. setoid_rewrite list_elem_of_In.
  split; intros (r0 & ? & ?); exists r0; auto.
Qed.

Lemma executed_snoc t ks :
  executed (t ++ [ks]) →
  executed t ∨ ks = (OperationEventKind.ExecutionStarted, OperationState.Executing).
Proof.
  unfold executed. rewrite elem_of_app, list_elem_of_singleton. naive_solver.
Qed.

Lemma check_transition target now r :
  operations_check r = true → operations_check (transition_set target now r) = true.
Proof.
  unfold operations_check. cbn [transition_set row_actor_kind row_actor_id
    row_actor_provenance_json row_operation_kind row_payload_schema_version row_payload_json
    row_payload_hash row_schema_fingerprint row_risk_level row_preview_json
    row_policy_snapshot_json row_policy_revision row_state row_single_use row_idempotency_key].
  rewrite !andb_true_iff. intros H. repeat split; try apply H. by destruct target.
Qed.

(** *** Entries are preserved *)

Lemma entry_transition op t evs aps target now e :
  entry_ok op t evs aps → StateMachine.step (op_state op) target → 
  (target = OperationState.Executing → justified (transitioned target now op) aps) →
  event_ok (op_id op) (Z.of_nat (length evs) + 1) (evr_hash <$> last evs)
    (transition_event_kind target, target) e →
  entry_ok (transitioned target now op) (t ++ [(transition_event_kind target, target)])
    (evs ++ [e]) aps.
Proof.
  intros [Hc Hl Hx Ha Hf] Hs Hj He. split; cbn.
  - by constructor.
  - by econstructor.
  - intros [Ht|Ht]%executed_snoc.
    + destruct (decide (target = OperationState.Executing)) as [->|Hne]; [by apply Hj|].
      destruct (Hx Ht) as (s & H1 & H2 & H3). exists s. cbn.
      rewrite bool_decide_false by done. done.
    + injection Ht as _ Ht. auto.
  - done.
  - destruct (OperationState.is_terminal target) eqn:E; [split; eauto|].
    rewrite Hf. destruct (OperationState.is_terminal (op_state op)) eqn:E'; [|done].
    by apply StateMachine.terminal_no_step in Hs.
Qed.

Lemma entry_progress op t evs aps e :
  entry_ok op t evs aps → op_state op = OperationState.Executing →
  event_ok (op_id op) (Z.of_nat (length evs) + 1) (evr_hash <$> last evs)
    (OperationEventKind.Progress, OperationState.Executing) e →
  entry_ok op (t ++ [(OperationEventKind.Progress, OperationState.Executing)]) (evs ++ [e]) aps.
Proof.
  intros [Hc Hl Hx Ha Hf] Hs He. split; try done.
  - by constructor.
  - rewrite Hs in *. by constructor.
  - intros [Ht|Ht]%executed_snoc; [auto|done].
Qed.

Lemma entry_approval op t evs aps a :
  entry_ok op t evs aps → approval_ok op a → entry_ok op t evs (aps ++ [a]).
Proof.
  intros [Hc Hl Hx Ha Hf] Hok. split; try done.
  - intros Ht. destruct (Hx Ht) as (s & H1 & H2 & H3). exists s. split_and!; [done..|].
    intros Hm. destruct (H3 Hm) as (b & Hb & He). exists b. by rewrite elem_of_app; auto.
  - apply Forall_app; auto.
Qed.

Lemma stored_id r op e n prev ks :
  stored r op → event_ok (op_id op) n prev ks e → evr_operation_id e = row_id r.
Proof. intros Hs He. by rewrite (event_ok_operation _ _ _ _ _ He), (st_id _ _ Hs). Qed.

(** *** The invariant is preserved *)

Lemma Inv_empty : Inv empty_db.
Proof. split; cbn; [constructor..|]. intros r. by rewrite elem_of_nil. Qed.

Lemma Inv_plan db r op e :
  Inv db → row_id r ∉ row_id <$> operations db → operations_check r = true → stored r op →
  op_state op = OperationState.Planned → op_finished_at op = None →
  event_ok (op_id op) 1 None (OperationEventKind.Planned, OperationState.Planned) e →
  Inv (add_event e (add_row r db)).
Proof.
  intros [Hi Hck Hev Hap Hen] Hf Hcr Hs Hst Hfin He. pose proof (stored_id _ _ _ _ _ _ Hs He) as Hid.
  split; [cbn..|].
  - rewrite fmap_app. apply NoDup_app. split_and!; [done| |by apply NoDup_singleton].
    intros x Hx ->%list_elem_of_singleton. done.
  - apply Forall_app; auto.
  - rewrite fmap_app, Forall_app. split.
    + eapply Forall_impl; [exact Hev|]. cbn. set_solver.
    + repeat constructor. rewrite Hid. set_solver.
  - rewrite fmap_app. eapply Forall_impl; [exact Hap|]. cbn. set_solver.
  - intros r0 Hr0. apply elem_of_app in Hr0 as [Hr0|Hr0].
    + destruct (Hen r0 Hr0) as (op0 & t0 & Hs0 & Hok). exists op0, t0. split; [done|].
      rewrite events_of_other; [done|]. rewrite Hid. intros Heq. apply Hf, list_elem_of_fmap; eauto.
    + apply list_elem_of_singleton in Hr0 as ->.
      exists op, [(OperationEventKind.Planned, OperationState.Planned)]. split; [done|].
      rewrite events_of_same by done.
      change (approvals_of (row_id r) (add_event e (add_row r db)))
        with (approvals_of (row_id r) db).
      change (events_of (row_id r) (add_row r db)) with (events_of (row_id r) db).
      rewrite (no_events _ _ Hev Hf), (no_approvals _ _ Hap Hf).
      split; rewrite ?Hst, ?Hfin.
      * apply (chain_snoc _ [] []); [constructor|done].
      * constructor.
      * unfold executed. rewrite list_elem_of_singleton. done.
      * constructor.
      * by rewrite is_Some_alt.
Qed.

(** Replacing the events or approvals of one row. *)
Lemma Inv_transition db r op target now e :
  Inv db → r ∈ operations db → stored r op → clock_ok now →
  StateMachine.step (op_state op) target →
  (target = OperationState.Executing →
   justified (transitioned target now op) (approvals_of (row_id r) db)) →
  next_event db r op (transition_event_kind target, target) e →
  Inv (add_event e (set_row (row_id r) (transition_set target (timestamp now)) db)).
Proof.
  intros [Hi Hck Hev Hap Hen] Hr Hs Hn Hst Hj He. pose proof (stored_id _ _ _ _ _ _ Hs He) as Hid.
  split; [cbn; rewrite ?set_row_ids by done; try done..|].
  - apply Forall_map. eapply Forall_impl; [exact Hck|]. cbn. intros r0 H0.
    destruct (row_id r0 =? row_id r)%string; [by apply check_transition|done].
  - apply Forall_app. split; [done|]. repeat constructor. rewrite Hid.
    apply list_elem_of_fmap. eauto.
  - intros r0 Hr0. apply set_row_In in Hr0 as (r1 & Hr1 & ->).
    destruct (String.eqb_spec (row_id r1) (row_id r)) as [Heq|Hne].
    + apply (row_unique _ _ _ Hi Hr1 Hr) in Heq as ->.
      destruct (Hen r Hr) as (op0 & t & Hs0 & Hok).
      rewrite (stored_inj _ _ _ Hs0 Hs) in Hok.
      exists (transitioned target now op), (t ++ [(transition_event_kind target, target)]).
      split; [by apply stored_transition|]. cbn [row_id transition_set].
      rewrite events_of_same by done. by apply entry_transition.
    + destruct (Hen r1 Hr1) as (op0 & t & Hs0 & Hok). exists op0, t. split; [done|].
      rewrite events_of_other by congruence. done.
Qed.

Lemma Inv_progress db r op e :
  Inv db → r ∈ operations db → stored r op → op_state op = OperationState.Executing →
  next_event db r op (OperationEventKind.Progress, OperationState.Executing) e →
  Inv (add_event e db).
Proof.
  intros [Hi Hck Hev Hap Hen] Hr Hs Hst He. pose proof (stored_id _ _ _ _ _ _ Hs He) as Hid.
  split; [done|done|cbn|done|].
  - apply Forall_app. split; [done|]. repeat constructor. rewrite Hid.
    apply list_elem_of_fmap. eauto.
  - intros r0 Hr0. destruct (Hen r0 Hr0) as (op0 & t & Hs0 & Hok).
    destruct (String.eqb_spec (row_id r0) (row_id r)) as [Heq|Hne].
    + apply (row_unique _ _ _ Hi Hr0 Hr) in Heq as ->.
      rewrite (stored_inj _ _ _ Hs0 Hs) in Hok.
      eexists op, _. split; [done|]. rewrite events_of_same by done.
      eapply entry_progress; [exact Hok|done|done].
    + exists op0, t. rewrite events_of_other by congruence. done.
Qed.

Lemma Inv_approval db r op a :
  Inv db → r ∈ operations db → stored r op → approval_ok op a →
  apr_operation_id a = row_id r → Inv (add_approval a db).
Proof.
  intros [Hi Hck Hev Hap Hen] Hr Hs Hok Hid. split; [done|done|done|cbn|].
  - apply Forall_app. split; [done|]. repeat constructor. rewrite Hid.
    apply list_elem_of_fmap. eauto.
  - intros r0 Hr0. destruct (Hen r0 Hr0) as (op0 & t & Hs0 & He).
    exists op0, t. split; [done|]. rewrite approvals_of_add, Hid.
    change (events_of (row_id r0) (add_approval a db)) with (events_of (row_id r0) db).
    destruct (String.eqb_spec (row_id r) (row_id r0)) as [Heq|Hne]; [|by rewrite app_nil_r].
    apply (row_unique _ _ _ Hi Hr Hr0) in Heq as ->.
    apply entry_approval; [done|]. by rewrite (stored_inj _ _ _ Hs0 Hs).
Qed.

Lemma Inv_micro db db' : Inv db → micro db db' → Inv db'.
Proof.
  intros Hi []; eauto using Inv_plan, Inv_transition, Inv_progress, Inv_approval.
Qed.

Lemma Inv_micros db db' : rtc micro db db' → Inv db → Inv db'.
Proof. induction 1; eauto using Inv_micro. Qed.
End ledger.
