(* ===== verification/Calls.v ===== *)
(** * Repository calls as ledger steps

    [Call] lists the repository's methods with their arguments, identifiers and
    clock readings; [run_call] is the database after a call.  Every call is a
    sequence of [micro] steps, so every reachable database satisfies [Inv]. *)

From S2P Require Export Ledger.

Section calls.
Context {P : Platform} {L : PlatformLaws P} {SD : Serde}.

Inductive Call :=
| CallInsert (event_id runtime_id : Uuid) (operation : NewOperation) (now : DateTime)
| CallTransition (event_id operation_id runtime_id : Uuid) (target : OperationState.t)
    (details : Value) (now : DateTime)
| CallClaim (event_id operation_id runtime_id : Uuid) (now : DateTime)
| CallDecide (event_id approval_id : Uuid) (command : OperationApprovalCommand)
| CallProgress (event_id operation_id runtime_id : Uuid) (details : Value) (now : DateTime)
| CallRecover (fresh : nat → Uuid) (clock : nat → DateTime) (runtime_id : Uuid).

Definition run_call (c : Call) (db : LocalDb) : LocalDb :=
  match c with
  | CallInsert e r o n => (insert_planned e r o n db).2
  | CallTransition e o r t d n => (transition e o r t d n db).2
  | CallClaim e o r n => (claim_execution e o r n db).2
  | CallDecide e a c => (decide_approval e a c db).2
  | CallProgress e o r d n => (append_progress e o r d n db).2
  | CallRecover f c r => (recover_previous_runtimes f c r db).2
  end.

(** Clock readings are in the RFC 3339 range; event details are JSON without
    floats, as the runtime builds them. *)
Definition call_ok (c : Call) : Prop :=
  match c with
  | CallInsert _ _ o n => clock_ok n ∧ opt_clock_ok (new_expires_at o)
  | CallTransition _ _ _ _ d n | CallProgress _ _ _ d n => clock_ok n ∧ value_exact d = true
  | CallClaim _ _ _ n => clock_ok n
  | CallDecide _ _ c => clock_ok (cmd_now c)
  | CallRecover _ clock _ => ∀ i, clock_ok (clock i)
  end.

Inductive reachable : LocalDb → Prop :=
| reachable_empty : reachable empty_db
| reachable_call db c : reachable db → call_ok c → reachable (run_call c db).

(** ** Each method is a sequence of steps *)

Lemma fetch_stored id db cur :
  Inv db → fetch_operation_tx id db = Ok cur →
  ∃ r t, r ∈ operations db ∧ stored r cur ∧ op_id cur = id
    ∧ entry_ok cur t (events_of (row_id r) db) (approvals_of (row_id r) db).
Proof.
  intros Hi H. unfold fetch_operation_tx in H. inv_res.
  apply find_some in Hx as [Hin Hid]. apply list_elem_of_In in Hin. bools.
  destruct (inv_entry _ Hi x Hin) as (op & t & Hs & He).
  assert (op = cur) as -> by (pose proof (st_decode _ _ Hs); congruence).
  exists x, t. split_and!; try done.
  apply (inj uuid_to_string). rewrite <-Hid. symmetry. by apply st_id.
Qed.

Lemma Inv_stored db r op :
  Inv db → r ∈ operations db → stored r op →
  ∃ t, entry_ok op t (events_of (row_id r) db) (approvals_of (row_id r) db).
Proof.
  intros Hi Hr Hs. destruct (inv_entry _ Hi r Hr) as (op' & t & Hs' & He).
  exists t. by rewrite <-(stored_inj _ _ _ Hs' Hs).
Qed.

Lemma transition_tx_micro eid cur target details now db op' db' r t :
  Inv db → r ∈ operations db → stored r cur →
  entry_ok cur t (events_of (row_id r) db) (approvals_of (row_id r) db) →
  clock_ok now → value_exact details = true →
  (target = OperationState.Executing →
   OperationKind.may_mutate_target (op_kind cur) = true →
   ∃ a, a ∈ approvals_of (row_id r) db ∧ exact_approval cur (timestamp now) a = true) →
  transition_tx eid cur target details now db = Ok (op', db') →
  micro db db' ∧ op' = transitioned target now cur
  ∧ operations db' = operations (set_row (row_id r) (transition_set target (timestamp now)) db).
Proof.
  intros Hi Hr Hs He Hn Hd Hj H.
  destruct (transition_effect _ _ _ _ _ _ _ _ _ _ (inv_ids _ Hi) Hr Hs (en_chain _ _ _ _ He)
    Hn Hd H) as (Hst & Hexp & -> & e & Hev & ->).
  split; [|done]. eapply micro_transition; try done.
  intros ->. exists now. split_and!; [done|by apply Hexp|]. by apply Hj.
Qed.

Lemma transition_tx_step eid cur target details now db x :
  transition_tx eid cur target details now db = Ok x → StateMachine.step (op_state cur) target.
Proof. unfold transition_tx. intros H. apply bind_Ok in H as ([] & H & _). by apply map_err_Ok in H. Qed.

Lemma with_tx_rtc {A} db (body : AppResult (AppResult A * LocalDb)) :
  (∀ r db', body = Ok (r, db') → rtc micro db db') → rtc micro db (with_tx db body).2.
Proof. intros H. destruct body as [[r db']|e]; cbn; [by eapply H|done]. Qed.

(** *** transition *)

Lemma transition_steps eid id rid target details now db :
  Inv db → clock_ok now → value_exact details = true →
  rtc micro db (transition eid id rid target details now db).2.
Proof.
  intros Hi Hn Hd. unfold transition. case_bool_decide as Ht; [done|].
  apply with_tx_rtc. intros r db' H. inv_res.
  destruct (fetch_stored _ _ _ Hi Hx) as (row & t & Hr & Hs & _ & He).
  apply rtc_once. by eapply transition_tx_micro.
Qed.

(** *** claim_execution *)

Lemma exact_approval_of cur now_text db r :
  stored r cur → existsb (exact_approval cur now_text) (operation_approvals db) = true →
  ∃ a, a ∈ approvals_of (row_id r) db ∧ exact_approval cur now_text a = true.
Proof.
  intros Hs H. apply existsb_exists in H as (a & Ha & He). exists a. split; [|done].
  apply list_elem_of_In. unfold approvals_of. apply filter_In. split; [done|].
  unfold exact_approval in He. bools. rewrite (st_id _ _ Hs). by apply String.eqb_eq.
Qed.

Lemma claim_steps eid id rid now db :
  Inv db → clock_ok now → rtc micro db (claim_execution eid id rid now db).2.
Proof.
  intros Hi Hn. unfold claim_execution. apply with_tx_rtc. intros res db' H. inv_res.
  destruct (fetch_stored _ _ _ Hi Hx) as (row & t & Hr & Hs & _ & He).
  destruct (is_expired x now); inv_res; apply rtc_once;
    (eapply transition_tx_micro; [done..| | |eassumption]); try done.
  intros _ Hm. rewrite Hm, andb_true_r in *. apply bool_decide_eq_false in Hx2.
  apply exact_approval_of; [done|]. bools.
  destruct (op_state x); try done.
  apply andb_false_iff in Hx3 as [H3|H3]; [done|by apply negb_false_iff in H3].
Qed.

(** *** decide_approval *)

Lemma approval_row_ok (cur : OperationRecord) (aid : Uuid) (command : OperationApprovalCommand) :
  clock_ok (cmd_now command) → opt_clock_ok (op_expires_at cur) →
  match approver_kind (cmd_approver command) with
  | OperationActorKind.LocalUser | OperationActorKind.WorkspaceUser => true
  | _ => false
  end = true →
  is_blank (approver_id (cmd_approver command)) = false →
  is_expired cur (cmd_now command) = false →
  approval_ok cur (approval_row aid cur command).
Proof.
  intros Hn Hc Hk Hb Hx.
  eexists. split.
  - unfold row_to_approval, approval_row. cbn [apr_id apr_operation_id apr_approver_kind apr_decision
      apr_created_at apr_expires_at].
    rewrite !parse_uuid_ok, (proj2 (actor_kind_codec _ _) eq_refl),
      (proj2 (decision_codec _ _) eq_refl), parse_timestamp_ok, parse_opt_timestamp_ok by done.
    reflexivity.
  - cbn. split_and!; try done.
    + destruct (approver_kind (cmd_approver command)); auto; done.
    + intros e He. unfold is_expired in Hx. rewrite He in Hx. lia.
Qed.

Lemma decide_steps eid aid command db :
  Inv db → clock_ok (cmd_now command) → rtc micro db (decide_approval eid aid command db).2.
Proof.
  intros Hi Hn. unfold decide_approval. apply with_tx_rtc. intros res db' H. inv_res.
  rename x1 into cur. bools.
  destruct (fetch_stored _ _ _ Hi Hx1) as (row & t & Hr & Hs & _ & He).
  destruct (is_expired cur (cmd_now command)) eqn:Hex; inv_res.
  - apply rtc_once. eapply transition_tx_micro; try eassumption; done.
  - assert (approval_ok cur (approval_row aid cur command)) as Hok.
    { apply approval_row_ok; try done. by apply (st_clock _ _ Hs). }
    unfold insert_approval in *. inv_res.
    pose proof (st_id _ _ Hs) as Hid.
    assert (micro db (add_approval (approval_row aid cur command) db)) as Hm
      by (by eapply micro_approval).
    apply (rtc_l _ _ (add_approval (approval_row aid cur command) db)); [done|].
    apply rtc_once. pose proof (Inv_micro _ _ Hi Hm) as Hi'.
    destruct (Inv_stored _ row cur Hi' Hr Hs) as (t' & He').
    eapply transition_tx_micro; try eassumption; try done.
    by destruct (cmd_decision command).
Qed.

(** *** append_progress *)

Lemma progress_steps eid id rid details now db :
  Inv db → clock_ok now → value_exact details = true →
  rtc micro db (append_progress eid id rid details now db).2.
Proof.
  intros Hi Hn Hd. unfold append_progress. apply with_tx_rtc. intros r db' H. inv_res. bools.
  destruct (fetch_stored _ _ _ Hi Hx) as (row & t & Hr & Hs & <- & He).
  rewrite Hx1 in *. pose proof (en_chain _ _ _ _ He) as Hc. rewrite (st_id _ _ Hs) in Hc.
  eapply append_event_effect in Hx2 as (e & -> & Hev & _ & _); [|exact Hc|done|done].
  apply rtc_once. eapply micro_progress; try done. by rewrite (st_id _ _ Hs).
Qed.

(** *** recover_previous_runtimes *)

(** The state a row has after recovery by another runtime. *)
Definition recovered_state (kind : OperationKind.t) (state : OperationState.t)
  : OperationState.t :=
  match StateMachine.restart_recovery kind state with
  | StateMachine.KeepTerminal | StateMachine.ValidateJobCheckpoint => state
  | StateMachine.Expire => OperationState.Expired
  | StateMachine.MarkFailed => OperationState.Failed
  | StateMachine.OutcomeUnknown => OperationState.OutcomeUnknown
  end.

Definition recovered_row (now : DateTime) (op : OperationRecord) (r : OperationRow)
  : OperationRow :=
  if bool_decide (recovered_state (op_kind op) (op_state op) = op_state op) then r
  else transition_set (recovered_state (op_kind op) (op_state op)) (timestamp now) r.

Lemma recover_one_effect eid now op report report' db db' r :
  Inv db → r ∈ operations db → stored r op → clock_ok now →
  recover_one eid now op report db = Ok (report', db') →
  rtc micro db db'
  ∧ operations db' = operations (set_row (row_id r) (recovered_row now op) db).
Proof.
  intros Hi Hr Hs Hn H. destruct (Inv_stored _ _ _ Hi Hr Hs) as (t & He).
  assert (∀ target details op', transition_tx eid op target details now db = Ok (op', db') →
    value_exact details = true → target ≠ OperationState.Executing →
    recovered_state (op_kind op) (op_state op) = target →
    rtc micro db db'
    ∧ operations db' = operations (set_row (row_id r) (recovered_row now op) db)) as Htr.
  { intros target details op' Htx Hd Hne Ht.
    pose proof (transition_tx_step _ _ _ _ _ _ _ Htx) as Hst.
    eapply transition_tx_micro in Htx as (Hm & _ & ->); [|done..].
    split; [by apply rtc_once|]. unfold recovered_row. rewrite Ht.
    rewrite bool_decide_false; [done|]. intros ->. by destruct (op_state op). }
  assert (recovered_state (op_kind op) (op_state op) = op_state op →
    operations db = operations (set_row (row_id r) (recovered_row now op) db)) as Hid.
  { intros Heq. cbn. symmetry. rewrite <-(List.map_id (operations db)) at 2.
    apply map_ext. intros r0. unfold recovered_row. rewrite bool_decide_true by done.
    by destruct (row_id r0 =? row_id r)%string. }
  unfold recover_one in H. unfold recovered_state in Htr, Hid.
  destruct (StateMachine.restart_recovery _ _) eqn:E; inv_res;
    try (by eapply Htr); split; auto using rtc_refl.
Qed.

Lemma recover_rows_steps fresh clock rows n report report' db db' :
  (∀ i, clock_ok (clock i)) → Inv db →
  NoDup (row_id <$> rows) → Forall (λ r, r ∈ operations db) rows →
  recover_rows fresh clock n rows report db = Ok (report', db') → rtc micro db db'.
Proof.
  intros Hc. revert n report db. induction rows as [|r rows IH]; intros n report db Hi Hn Hf H;
    cbn in H; inv_res; [done|].
  apply NoDup_cons in Hn as [Hr Hn]. apply Forall_cons in Hf as [Hin Hf].
  destruct (inv_entry _ Hi _ Hin) as (op & t & Hs & _).
  assert (op = x) as -> by (pose proof (st_decode _ _ Hs); congruence).
  destruct (recover_one_effect _ _ _ _ _ _ _ _ Hi Hin Hs (Hc n) Hx0) as [Hm Ho].
  etrans; [exact Hm|]. eapply IH; [by eapply Inv_micros|done| |exact H].
  rewrite Ho. rewrite Forall_forall in *. intros r' Hr'. apply set_row_In.
  exists r'. split; [auto|]. destruct (String.eqb_spec (row_id r') (row_id r)) as [Heq|]; [|done].
  destruct Hr. rewrite <-Heq. apply list_elem_of_fmap. eauto.
Qed.

Lemma recovery_rows_in rid db r :
  r ∈ recovery_rows rid db ↔
  r ∈ operations db ∧ unfinished_of_other_runtime rid r = true.
Proof.
  unfold recovery_rows. rewrite sort_by_perm, !list_elem_of_In. apply filter_In.
Qed.

Lemma recovery_rows_NoDup rid db :
  NoDup (row_id <$> operations db) → NoDup (row_id <$> recovery_rows rid db).
Proof.
  intros H. unfold recovery_rows. rewrite sort_by_perm.
  induction (operations db) as [|r l IH]; cbn; [constructor|].
  apply NoDup_cons in H as [Hr H]. destruct (unfinished_of_other_runtime rid r); [|auto].
  cbn. apply NoDup_cons. split; [|auto].
  intros (r' & Heq & Hin)%list_elem_of_fmap. apply Hr, list_elem_of_fmap.
  apply list_elem_of_In, filter_In in Hin as [Hin _]. exists r'. by rewrite list_elem_of_In.
Qed.

Lemma recover_steps fresh clock rid db :
  Inv db → (∀ i, clock_ok (clock i)) →
  rtc micro db (recover_previous_runtimes fresh clock rid db).2.
Proof.
  intros Hi Hc. unfold recover_previous_runtimes. apply with_tx_rtc. intros r db' H. inv_res.
  eapply recover_rows_steps; [exact Hc|done| | |exact Hx].
  - by apply recovery_rows_NoDup, inv_ids.
  - apply Forall_forall. intros r' Hr'. by apply recovery_rows_in in Hr' as [? _].
Qed.

(** *** insert_planned *)

Lemma planned_row_stored prepared now op :
  opt_clock_ok (new_expires_at (po_operation prepared)) →
  row_to_operation (planned_row prepared (timestamp now)) = Ok op →
  stored (planned_row prepared (timestamp now)) op
  ∧ op_id op = new_id (po_operation prepared)
  ∧ op_runtime_id op = po_runtime_id prepared
  ∧ op_state op = OperationState.Planned ∧ op_finished_at op = None.
Proof.
  intros Hc Hd. pose proof Hd as H. unfold row_to_operation in H. inv_res. cbn in *.
  rewrite parse_uuid_ok in Hx5, Hx6. rewrite parse_opt_timestamp_ok in Hx16 by done.
  repeat match goal with
  | H : Ok _ = Ok _ |- _ => injection H as <-
  | H : Some _ = Some _ |- _ => injection H as <-
  end.
  done.
Qed.

Lemma insert_steps eid rid operation now db :
  Inv db → clock_ok now → opt_clock_ok (new_expires_at operation) →
  rtc micro db (insert_planned eid rid operation now db).2.
Proof.
  intros Hi Hn Hc. unfold insert_planned. apply with_tx_rtc. intros res db' H. inv_res.
  rename x into prepared.
  assert (po_operation prepared = operation) as Hop by (unfold prepare in Hx; inv_res; done).
  subst operation.
  destruct (List.find _ (operations db)) as [row|]; inv_res.
  { destruct (matches prepared x); inv_res; done. }
  unfold insert_operation in Hx0. inv_res. bools.
  set (row := planned_row prepared (timestamp now)) in *.
  assert (row_id row ∉ row_id <$> operations db) as Hfresh.
  { intros (r & Heq & Hr)%list_elem_of_fmap. apply list_elem_of_In in Hr.
    assert (existsb (λ o, row_id o =? row_id row)%string (operations db) = true); [|congruence].
    apply existsb_exists. exists r. by rewrite Heq, String.eqb_refl. }
  assert (events_of (row_id row) (add_row row db) = []) as Hev
    by (apply (no_events (row_id row) db); [apply Hi|done]).
  assert (chain (new_id (po_operation prepared))
    (events_of (uuid_to_string (new_id (po_operation prepared))) (add_row row db)) []) as Hch.
  { change (uuid_to_string (new_id (po_operation prepared))) with (row_id row).
    rewrite Hev. constructor. }
  eapply append_event_effect in Hx1 as (e & -> & He & _ & _); [|exact Hch|done|done].
  change (uuid_to_string (new_id (po_operation prepared))) with (row_id row) in He.
  rewrite Hev in He. apply rtc_once.
  unfold fetch_operation_tx in Hx2. inv_res. cbn in Hx0.
  apply find_some in Hx0 as [Hin Hid]. bools.
  apply list_elem_of_In, elem_of_app in Hin as [Hin|Hin].
  { destruct Hfresh. apply list_elem_of_fmap. by exists x. }
  apply list_elem_of_singleton in Hin as ->.
  destruct (planned_row_stored prepared now x0 Hc Hx2) as (Hs & Hi' & _ & Hst & Hf).
  eapply micro_plan; try done. by rewrite Hi'.
Qed.

(** ** Reachable databases *)

Lemma run_call_steps c db : Inv db → call_ok c → rtc micro db (run_call c db).
Proof.
  intros Hi. destruct c; cbn; intros Hc;
    [destruct Hc; by apply insert_steps|destruct Hc; by apply transition_steps
    |by apply claim_steps|by apply decide_steps|destruct Hc; by apply progress_steps
    |by apply recover_steps].
Qed.

Lemma reachable_Inv db : reachable db → Inv db.
Proof.
  induction 1 as [|db c _ IH Hc]; [apply Inv_empty|].
  eapply Inv_micros; [by apply run_call_steps|done].
Qed.

Definition run_calls (cs : list Call) (db : LocalDb) : LocalDb :=
  fold_left (λ db c, run_call c db) cs db.

Lemma reachable_calls cs db : reachable db → Forall call_ok cs → reachable (run_calls cs db).
Proof.
  intros Hr Hc. revert db Hr. induction Hc as [|c cs Hc _ IH]; intros db Hr; [done|].
  apply IH. by constructor.
Qed.

Lemma calls_steps cs db :
  Inv db → Forall call_ok cs → rtc micro db (run_calls cs db) ∧ Inv (run_calls cs db).
Proof.
  intros Hi Hc. revert db Hi. induction Hc as [|c cs Hc _ IH]; intros db Hi; [done|].
  pose proof (run_call_steps c db Hi Hc) as Hm.
  destruct (IH (run_call c db)) as [Hm' Hi']; [by eapply Inv_micros|].
  split; [by etrans|done].
Qed.
End calls.

(** ** When the repository's transactions succeed

    On a database satisfying [Inv], a transition the state machine allows
    succeeds when the drawn event identifier is fresh, the details fit the
    control-message limit and the event counter is below [i64::MAX]. *)

Section progress.
Context {P : Platform} {L : PlatformLaws P} {SD : Serde}.

(** The canonical text of [details] is within the limit. *)
Definition fits (details : Value) : Prop :=
  ∃ text, canonical_json details = Ok text ∧ (str_len text ≤ MAX_RESPONSE_BYTES)%N.

Definition fresh_event (eid : Uuid) (db : LocalDb) : bool :=
  forallb (λ e, negb (evr_id e =? uuid_to_string eid)%string) (operation_events db).

Definition room (id : Uuid) (db : LocalDb) : Prop :=
  Z.of_nat (length (events_of (uuid_to_string id) db)) < i64_max.

Lemma event_hash_total input :
  i64_min ≤ eh_sequence input ≤ i64_max →
  ∃ h, event_hash input = Ok h ∧ is_sha256_hex h = true.
Proof.
  intros Hs. unfold event_hash, canonical_json.
  destruct (from_value_total (event_hash_value input)) as [c Hc].
  - unfold event_hash_value, value_of_i64, value_of_opt_string, i64_min, i64_max in *.
    destruct (eh_prev_hash input); cbn; unfold number_wf, i64_min, u64_max;
      destruct (Z.leb_spec 0 (eh_sequence input));
      (apply andb_true_iff; split; [by vm_compute|lia]).
  - rewrite Hc. cbn. eexists. split; [done|]. apply lower_hex_is_sha.
Qed.

Lemma event_hash_sha input h : event_hash input = Ok h → is_sha256_hex h = true.
Proof. unfold event_hash. intros H. inv_res. apply lower_hex_is_sha. Qed.

Lemma chain_hash id l t : chain id l t → null_or is_sha256_hex (evr_hash <$> last l) = true.
Proof.
  destruct 1 as [|l t e ks _ He]; [done|]. rewrite last_snoc. cbn.
  destruct He as (? & ? & ? & ? & _ & _ & _ & Hh & _). by eapply event_hash_sha.
Qed.

Lemma existsb_false {A} (f : A → bool) l : (∀ x, x ∈ l → f x = false) → existsb f l = false.
Proof.
  intros H. apply not_true_iff_false. rewrite existsb_exists. intros (x & Hx & Hf).
  apply list_elem_of_In in Hx. rewrite H in Hf; done.
Qed.

Lemma append_event_total eid id kind state details now db t :
  chain id (events_of (uuid_to_string id) db) t →
  value_exact details = true → fits details → fresh_event eid db = true → room id db →
  existsb (λ r, row_id r =? uuid_to_string id)%string (operations db) = true →
  ∃ rec db', append_event_tx eid id kind state details now db = Ok (rec, db')
    ∧ operations db' = operations db.
Proof.
  intros Hc Hd (text & Htext & Hfit) Hfresh Hroom Hex.
  unfold append_event_tx, event_tail. rewrite (chain_sorted _ _ _ Hc), Htext. cbn [mbind result_bind].
  rewrite (proj2 (N.ltb_ge _ _) Hfit). cbn [reject_if mbind result_bind].
  set (l := events_of (uuid_to_string id) db) in *.
  assert (match last l with
          | Some row =>
              next ← ok_or (Config "operation event sequence overflowed")
                       (i64_succ (evr_sequence row));
              Ok (next, Some (evr_hash row))
          | None => Ok (1, None)
          end = Ok (Z.of_nat (length l) + 1, evr_hash <$> last l)) as ->.
  { pose proof (chain_tail _ _ _ Hc) as Ht. destruct (last l) as [row|]; [|by rewrite Ht].
    unfold i64_succ. rewrite Ht, (proj2 (Z.eqb_neq _ _)); [done|].
    unfold room in Hroom. fold l in Hroom. lia. }
  cbn [mbind result_bind].
  match goal with |- context [event_hash ?i] => destruct (event_hash_total i) as (h & Hh & Hsha) end.
  { cbn. unfold room in Hroom. fold l in Hroom. unfold i64_min. lia. }
  rewrite Hh. cbn [mbind result_bind]. unfold insert_event.
  match goal with |- context [events_check ?e] => assert (events_check e = true) as Hck end.
  { unfold events_check. cbn [evr_sequence evr_event_kind evr_state evr_event_json evr_prev_hash
      evr_hash]. rewrite !andb_true_iff. split_and!; try done.
    - apply Z.ltb_lt. lia.
    - by destruct kind.
    - by destruct state.
    - unfold canonical_json in Htext. inv_res.
      eapply json_valid_printed; [|by apply from_value_json].
      apply canonical_wf. by apply andb_true_iff in Hd as [? _].
    - by eapply chain_hash. }
  rewrite Hck. cbn [negb reject_if mbind result_bind evr_id evr_operation_id evr_sequence].
  rewrite (existsb_false (λ o, (evr_id o =? uuid_to_string eid)%string)).
  2: { intros e He. unfold fresh_event in Hfresh. rewrite forallb_forall in Hfresh.
       apply list_elem_of_In, Hfresh in He. by apply negb_true_iff in He. }
  cbn [reject_if mbind result_bind]. rewrite (existsb_false _ (operation_events db)).
  2: { intros e He. destruct (String.eqb_spec (evr_operation_id e) (uuid_to_string id)) as [Hid|]; [|done].
       pose proof (chain_sequences _ _ _ Hc) as Hs. rewrite Forall_forall in Hs.
       assert (e ∈ l) as Hl.
       { unfold l, events_of. rewrite list_elem_of_In, filter_In. rewrite list_elem_of_In in He.
         by rewrite Hid, String.eqb_refl. }
       specialize (Hs e Hl). cbn beta in Hs. rewrite andb_true_l. apply Z.eqb_neq. lia. }
  cbn [reject_if mbind result_bind]. rewrite Hex. cbn [negb reject_if mbind result_bind].
  assert (json_from_str text = Some (canonical_value details)) as ->.
  { unfold canonical_json in Htext. inv_res.
    apply json_roundtrip; [by apply canonical_exact|by apply from_value_json]. }
  cbn [ok_or mbind result_bind]. eauto.
Qed.

Lemma filter_single (f : OperationRow → bool) l r :
  NoDup (row_id <$> l) → r ∈ l → f r = true →
  (∀ r', f r' = true → row_id r' = row_id r) → List.filter f l = [r].
Proof.
  intros Hn Hr Hf Hu. induction l as [|x l IH]; [by rewrite elem_of_nil in Hr|].
  apply NoDup_cons in Hn as [Hx Hn]. apply elem_of_cons in Hr as [<-|Hr]; cbn.
  - rewrite Hf. f_equal. destruct (List.filter f l) as [|y k] eqn:E; [done|exfalso].
    assert (In y (List.filter f l)) as Hy by (rewrite E; by left).
    apply filter_In in Hy as [Hy Hfy]. apply Hx, list_elem_of_fmap. exists y.
    rewrite list_elem_of_In. split; [symmetry; auto|done].
  - destruct (f x) eqn:E; [|auto]. exfalso. apply Hx, list_elem_of_fmap. exists r.
    split; [by apply Hu|done].
Qed.

Lemma immutable_kept target now r : immutable_changed r (transition_set target now r) = false.
Proof.
  unfold immutable_changed, transition_set. cbn.
  rewrite !String.eqb_refl, !Z.eqb_refl, !bool_decide_true by done. done.
Qed.

Lemma existsb_row id (l : list OperationRow) r :
  r ∈ l → row_id r = id → existsb (λ r, row_id r =? id)%string l = true.
Proof.
  intros Hr Hid. apply existsb_exists. exists r. rewrite <-list_elem_of_In, Hid.
  by rewrite String.eqb_refl.
Qed.

Lemma transition_tx_total eid cur target details now db r :
  Inv db → r ∈ operations db → stored r cur → clock_ok now →
  StateMachine.step (op_state cur) target →
  (target = OperationState.Executing → is_expired cur now = false) →
  value_exact details = true → fits details → fresh_event eid db = true → room (op_id cur) db →
  ∃ db', transition_tx eid cur target details now db = Ok (transitioned target now cur, db').
Proof.
  intros Hi Hr Hs Hn Hst Hx Hd Hfit Hfr Hroom.
  destruct (Inv_stored _ _ _ Hi Hr Hs) as (t & He).
  pose proof (en_chain _ _ _ _ He) as Hc. rewrite (st_id _ _ Hs) in Hc.
  destruct (row_to_operation_columns _ _ (st_decode _ _ Hs)) as (Hrs & _ & Hrh & _).
  assert (transition_where cur target (timestamp now) r = true) as Hw.
  { unfold transition_where. rewrite (st_id _ _ Hs), Hrs, Hrh, !String.eqb_refl. cbn.
    rewrite executing_text. case_bool_decide as Ht; [|done]. cbn.
    specialize (Hx Ht). unfold is_expired in Hx. rewrite (st_expires _ _ Hs).
    pose proof (st_clock _ _ Hs) as Hck. destruct (op_expires_at cur) as [e|]; [|done].
    cbn in *. apply bool_decide_eq_true. unfold timestamp. rewrite rfc3339_order by done.
    apply Z.compare_gt_iff. lia. }
  assert (update_operations (transition_where cur target (timestamp now))
    (transition_set target (timestamp now)) db
    = Ok (1%nat, set_row (row_id r) (transition_set target (timestamp now)) db)) as Hu.
  { assert (∃ db', update_operations (transition_where cur target (timestamp now))
      (transition_set target (timestamp now)) db = Ok (1%nat, db')) as [db' Hu].
    { unfold update_operations.
      rewrite (filter_single _ _ r (inv_ids _ Hi) Hr Hw).
      - cbn [existsb forallb]. rewrite immutable_kept, check_transition; [cbn; eauto|].
        pose proof (inv_check _ Hi) as Hck. rewrite Forall_forall in Hck. auto.
      - intros r' Hw'. unfold transition_where in Hw'. bools. by rewrite (st_id _ _ Hs). }
    rewrite Hu. do 2 f_equal. apply (update_effect _ _ _ _ r (inv_ids _ Hi) Hr) in Hu as [_ ->]; [done|].
    intros r' Hw'. unfold transition_where in Hw'. bools. by rewrite (st_id _ _ Hs). }
  set (db1 := set_row (row_id r) (transition_set target (timestamp now)) db) in *.
  destruct (append_event_total eid (op_id cur) (transition_event_kind target) target details now
    db1 t) as (rec & db2 & Ha & Ho); try done.
  { apply (existsb_row _ _ (transition_set target (timestamp now) r)); [|exact (st_id _ _ Hs)].
    apply set_row_In. exists r. by rewrite String.eqb_refl. }
  unfold transition_tx. unfold StateMachine.step in Hst. rewrite Hst.
  cbn [map_err mbind result_bind]. rewrite Hu. cbn [mbind result_bind Nat.eqb negb reject_if].
  rewrite Ha. cbn [mbind result_bind].
  unfold fetch_operation_tx. rewrite Ho, <-(st_id _ _ Hs).
  assert (NoDup (row_id <$> operations db1)) as Hn1
    by (cbn; rewrite set_row_ids by done; apply Hi).
  assert (transition_set target (timestamp now) r ∈ operations db1) as Hr1.
  { apply set_row_In. exists r. by rewrite String.eqb_refl. }
  pose proof (find_row _ _ Hn1 Hr1) as Hfind. cbn [row_id transition_set] in Hfind.
  rewrite Hfind. cbn [ok_or mbind result_bind].
  rewrite (st_decode _ _ (stored_transition r cur target now Hs Hn)). cbn. eauto.
Qed.
End progress.
