(* ===== verification/Trace.v ===== *)
(** * Facts about lifecycles and decoded event chains

    What a run of the lifecycle excludes (two executions, anything after a
    terminal state), how a stored chain decodes, that it verifies, and that the
    last hash determines a verified chain up to a SHA-256 collision. *)

From S2P Require Export Calls.

(** ** Lifecycles *)

Section lifecycles.
Context {P : Platform} {SD : Serde}.

Lemma lifecycle_last t s : lifecycle t s → ∃ k, last t = Some (k, s).
Proof. destruct 1; rewrite ?last_snoc; eauto. Qed.

Lemma lifecycle_first t s :
  lifecycle t s → ∃ t', t = (OperationEventKind.Planned, OperationState.Planned) :: t'.
Proof. induction 1 as [|t s s' _ [t' ->] _|t _ [t' ->]]; cbn; eauto. Qed.

Lemma lifecycle_executed_rank t s :
  lifecycle t s → executed t → (StateMachine.rank s ≤ 1)%nat.
Proof.
  induction 1 as [|t s s' Hl IH Hs|t Hl IH].
  - unfold executed. by rewrite list_elem_of_singleton.
  - intros [Ht|[= H1 H2]]%executed_snoc.
    + specialize (IH Ht). apply StateMachine.step_rank in Hs. lia.
    + by rewrite H2.
  - auto.
Qed.

(** The number of times an execution was started. *)
Definition executions (t : list (OperationEventKind.t * OperationState.t)) : nat :=
  length (List.filter (λ ks, bool_decide
    (ks = (OperationEventKind.ExecutionStarted, OperationState.Executing))) t).

Lemma executions_snoc t ks :
  executions (t ++ [ks]) = (executions t + if bool_decide
    (ks = (OperationEventKind.ExecutionStarted, OperationState.Executing)) then 1 else 0)%nat.
Proof.
  unfold executions. rewrite List.filter_app, length_app. f_equal. cbn.
  by case_bool_decide.
Qed.

Lemma executions_zero t : ¬ executed t → executions t = 0%nat.
Proof.
  induction t as [|ks t IH] using rev_ind; [done|]. intros H. rewrite executions_snoc, IH.
  - rewrite bool_decide_false; [done|]. intros ->. apply H. unfold executed. set_solver.
  - intros H'. apply H. unfold executed in *. set_solver.
Qed.

Lemma lifecycle_executions t s : lifecycle t s → (executions t ≤ 1)%nat.
Proof.
  induction 1 as [|t s s' Hl IH Hs|t Hl IH]; [by vm_compute; lia| |].
  - rewrite executions_snoc. case_bool_decide as E; [|lia]. injection E as _ ->.
    rewrite executions_zero; [done|]. intros Hx. apply lifecycle_executed_rank in Hl; [|done].
    apply StateMachine.step_Executing in Hs as [-> | ->]; cbn in Hl; lia.
  - rewrite executions_snoc. by rewrite bool_decide_false by done; lia.
Qed.

Lemma lifecycle_executing t s :
  lifecycle t s → s = OperationState.Executing → executed t.
Proof.
  induction 1 as [|t s s' Hl IH Hs|t Hl IH]; [done|intros ->|intros _];
    unfold executed in *; rewrite elem_of_app, ?list_elem_of_singleton; auto.
Qed.

Lemma lifecycle_kind_executing t s ks :
  lifecycle t s → ks ∈ t →
  (ks.2 = OperationState.Executing ∨ ks.1 = OperationEventKind.ExecutionStarted) → executed t.
Proof.
  induction 1 as [|t s s' Hl IH Hs|t Hl IH]; unfold executed in *;
    rewrite ?elem_of_app, ?list_elem_of_singleton.
  - intros ->. cbn. naive_solver.
  - intros [Hin| ->] Hk; [auto|right]. cbn in *.
    destruct Hk as [->|Hk]; [done|]. by destruct s'.
  - intros _ _. left. by eapply lifecycle_executing.
Qed.

(** A terminal state is the last one. *)
Lemma lifecycle_terminal_last t s k s' t' :
  lifecycle (t ++ (k, s') :: t') s → OperationState.is_terminal s' = true → t' = [].
Proof.
  remember (t ++ (k, s') :: t') as tr eqn:Htr. intros Hl Ht.
  revert t t' Htr. induction Hl as [|tr s0 s1 Hl IH Hs|tr Hl IH]; intros t t' Htr.
  - destruct t as [|? t]; [by injection Htr|]. by destruct t.
  - destruct t' as [|x t' _] using rev_ind; [done|exfalso].
    rewrite app_comm_cons, app_assoc in Htr. apply app_inj_tail in Htr as [-> _].
    rewrite (IH t t' eq_refl) in Hl. apply lifecycle_last in Hl as [k' Hk].
    rewrite last_snoc in Hk. injection Hk as -> ->.
    by apply StateMachine.terminal_no_step in Hs.
  - destruct t' as [|x t' _] using rev_ind; [done|exfalso].
    rewrite app_comm_cons, app_assoc in Htr. apply app_inj_tail in Htr as [-> _].
    rewrite (IH t t' eq_refl) in Hl. apply lifecycle_last in Hl as [k' Hk].
    rewrite last_snoc in Hk. by injection Hk as -> ->.
Qed.
End lifecycles.

(** ** Decoding and verifying a chain *)

Section decode.
Context {P : Platform} {L : PlatformLaws P} {SD : Serde}.

Lemma collect_app {A B} (f : A → AppResult B) l l' ys ys' :
  collect f l = Ok ys → collect f l' = Ok ys' → collect f (l ++ l') = Ok (ys ++ ys').
Proof.
  revert ys. induction l as [|x l IH]; intros ys H H'; cbn in *; inv_res; [done|].
  rewrite Hx. cbn. by rewrite (IH _ Hx0 H').
Qed.

(** An event row decodes to a record that hashes to its stored hash. *)
Lemma event_ok_decode id n prev ks e :
  event_ok id n prev ks e →
  ∃ ev, row_to_event e = Ok ev ∧ ev_operation_id ev = id ∧ ev_sequence ev = n
    ∧ (ev_kind ev, ev_state ev) = ks ∧ ev_prev_hash ev = prev ∧ ev_hash ev = evr_hash e
    ∧ ∃ text, canonical_json (ev_details ev) = Ok text
      ∧ event_hash {| eh_event_id := ev_id ev; eh_operation_id := id; eh_sequence := n;
          eh_kind := ks.1; eh_state := ks.2; eh_event_json := text;
          eh_created_at := ev_created_at ev; eh_prev_hash := prev |} = Ok (evr_hash e).
Proof.
  intros (eid & text & details & at_ & Hc & Hj & Hcj & Hh & ->). destruct ks as [k s].
  eexists. split.
  - unfold row_to_event. cbn [evr_id evr_operation_id evr_event_kind evr_state evr_event_json
      evr_created_at fst snd].
    rewrite !parse_uuid_ok, (proj2 (event_kind_codec _ _) eq_refl),
      (proj2 (state_codec _ _) eq_refl), parse_timestamp_ok by done.
    unfold parse_canonical_json. rewrite Hj. cbn [ok_or mbind result_bind].
    rewrite Hcj. cbn [mbind result_bind]. rewrite String.eqb_refl. reflexivity.
  - cbn. split_and!; try done. exists text. done.
Qed.

Lemma verify_events_snoc evs i prev ev :
  verify_events i prev evs = Ok true →
  verify_events i prev (evs ++ [ev])
  = verify_events (i + Z.of_nat (length evs))
      (match last evs with Some e => Some (ev_hash e) | None => prev end) [ev].
Proof.
  revert i prev. induction evs as [|e evs IH]; intros i prev H.
  - by rewrite Z.add_0_r.
  - cbn [verify_events app] in *. case_match; [done|]. inv_res.
    rewrite Hx. cbn [mbind result_bind]. rewrite Hx0. cbn [mbind result_bind].
    destruct (negb (x0 =? ev_hash e)%string); [done|]. rewrite IH by done.
    replace (i + Z.of_nat (length (e :: evs))) with (i + 1 + Z.of_nat (length evs))
      by (cbn [length]; lia).
    destruct evs as [|e' evs]; [done|]. rewrite last_cons_cons.
    by destruct (last (e' :: evs)) eqn:E; [|apply last_None in E].
Qed.

Lemma chain_decode id l t :
  chain id l t →
  (t = [] ∨ ∃ t', t = (OperationEventKind.Planned, OperationState.Planned) :: t') →
  ∃ evs, collect row_to_event l = Ok evs
    ∧ map (λ ev, (ev_kind ev, ev_state ev)) evs = t
    ∧ verify_events 0 None evs = Ok true
    ∧ length evs = length l
    ∧ (ev_hash <$> last evs) = (evr_hash <$> last l).
Proof.
  induction 1 as [|l t e ks Hc IH He]; intros Hp; [by exists []|].
  destruct IH as (evs & Hd & Ht & Hv & Hlen & Hlast).
  { destruct t as [|ks' t]; [by left|right]. destruct Hp as [Hp|[t' Hp]]; [done|].
    injection Hp as -> _. eauto. }
  destruct (event_ok_decode _ _ _ _ _ He) as (ev & Hev & Hid & Hs & Hks & Hprev & Hh & text
    & Htext & Hhash).
  exists (evs ++ [ev]). split_and!.
  - apply collect_app; [done|]. cbn. by rewrite Hev.
  - rewrite map_app, Ht. cbn. by rewrite Hks.
  - rewrite verify_events_snoc by done.
    replace (match last evs with Some e0 => Some (ev_hash e0) | None => None end)
      with (evr_hash <$> last l) by (by rewrite <-Hlast; destruct (last evs)).
    cbn [verify_events]. rewrite Hs, Hprev, Hlen.
    replace (Z.of_nat (length l) + 1 =? 0 + Z.of_nat (length l) + 1) with true
      by (symmetry; apply Z.eqb_eq; lia).
    rewrite bool_decide_true by done. cbn [negb orb].
    rewrite <-Hks in *. cbn [fst snd] in *.
    assert ((0 + Z.of_nat (length l) =? 0) &&
      (negb (bool_decide (ev_kind ev = OperationEventKind.Planned))
       || negb (bool_decide (ev_state ev = OperationState.Planned))) = false) as ->.
    { destruct (Z.eqb_spec (0 + Z.of_nat (length l)) 0) as [Hz|]; [|done].
      assert (t = []) as -> by (apply length_zero_iff_nil; rewrite (chain_length _ _ _ Hc); lia).
      destruct Hp as [Hp|[t' Hp]]; [done|]. injection Hp as -> -> _. done. }
    rewrite Htext. cbn [mbind result_bind]. rewrite Hid, Hhash. cbn [mbind result_bind].
    by rewrite Hh, String.eqb_refl.
  - by rewrite !length_app, Hlen.
  - rewrite !last_snoc. cbn. by rewrite Hh.
Qed.
End decode.

(** ** The last hash determines a verified chain *)

Section tamper.
Context {P : Platform} {L : PlatformLaws P} {SD : Serde}.

(** The ranges of the fields' Rust types. *)
Definition record_ok (e : OperationEventRecord) : Prop :=
  clock_ok (ev_created_at e) ∧ i64_min ≤ ev_sequence e ≤ i64_max.

Definition same_event (a b : OperationEventRecord) : Prop :=
  ev_id a = ev_id b ∧ ev_operation_id a = ev_operation_id b
  ∧ ev_sequence a = ev_sequence b ∧ ev_kind a = ev_kind b ∧ ev_state a = ev_state b
  ∧ canonical_json (ev_details a) = canonical_json (ev_details b)
  ∧ ev_created_at a = ev_created_at b ∧ ev_prev_hash a = ev_prev_hash b
  ∧ ev_hash a = ev_hash b.

Lemma value_of_i64_inj n m : value_of_i64 n = value_of_i64 m → n = m.
Proof. unfold value_of_i64. intros H. repeat case_match; congruence. Qed.

Lemma value_of_i64_exact n : i64_min ≤ n ≤ i64_max → value_exact (value_of_i64 n) = true.
Proof.
  unfold value_exact, value_of_i64, i64_min, i64_max. intros Hn.
  destruct (Z.leb_spec 0 n); cbn; unfold i64_min, u64_max; rewrite andb_true_r;
    apply andb_true_iff; lia.
Qed.

Lemma event_hash_value_exact i :
  i64_min ≤ eh_sequence i ≤ i64_max → value_exact (event_hash_value i) = true.
Proof.
  intros Hs. apply object_exact. split; [by apply (bool_decide_unpack _); vm_compute|].
  repeat constructor; cbn [snd]; try done; [by destruct (eh_prev_hash i)|].
  by apply value_of_i64_exact.
Qed.

Lemma event_hash_value_canonical i : canonical_value (event_hash_value i) = event_hash_value i.
Proof. unfold event_hash_value. by destruct (eh_prev_hash i). Qed.

Lemma event_hash_inj i j h :
  clock_ok (eh_created_at i) → clock_ok (eh_created_at j) →
  i64_min ≤ eh_sequence i ≤ i64_max → i64_min ≤ eh_sequence j ≤ i64_max →
  event_hash i = Ok h → event_hash j = Ok h →
  i = j ∨ values_collide (event_hash_value i) (event_hash_value j).
Proof.
  intros Hci Hcj Hsi Hsj Hi Hj. unfold event_hash in *. inv_res.
  apply text_digest_inj in Hi as [He|]; [left|right; by exists x0, x].
  - unfold canonical_json in *. inv_res. apply from_value_json in Hx, Hx0. rewrite event_hash_value_canonical in Hx, Hx0.
    rewrite He in *.
    assert (event_hash_value i = event_hash_value j) as Hv
      by (eapply json_to_string_inj; eauto using event_hash_value_exact).
    unfold event_hash_value in Hv. injection Hv as H1 H2 H3 H4 H5 H6 H7 H8.
    apply rfc3339_nanos_inj in H1; [|done..]. apply (inj uuid_to_string) in H2, H5.
    assert (eh_kind i = eh_kind j) as H4'.
    { apply event_kind_codec in H4. pose proof (proj2 (event_kind_codec _ (eh_kind i)) eq_refl).
      congruence. }
    apply state_str_inj in H8.
    assert (eh_sequence i = eh_sequence j) as H7'
      by (apply value_of_i64_inj; unfold value_of_i64; by f_equal).
    assert (eh_prev_hash i = eh_prev_hash j) as H6'
      by (destruct (eh_prev_hash i), (eh_prev_hash j); cbn in *; congruence).
    destruct i, j; cbn in *; congruence.
Qed.

Lemma verify_events_snoc_inv i prev evs ev :
  verify_events i prev (evs ++ [ev]) = Ok true →
  verify_events i prev evs = Ok true
  ∧ ev_prev_hash ev = match last evs with Some e => Some (ev_hash e) | None => prev end
  ∧ ∃ text, canonical_json (ev_details ev) = Ok text
    ∧ event_hash {| eh_event_id := ev_id ev; eh_operation_id := ev_operation_id ev;
        eh_sequence := ev_sequence ev; eh_kind := ev_kind ev; eh_state := ev_state ev;
        eh_event_json := text; eh_created_at := ev_created_at ev;
        eh_prev_hash := ev_prev_hash ev |} = Ok (ev_hash ev).
Proof.
  intros H. assert (verify_events i prev evs = Ok true) as Hv.
  { revert i prev H. induction evs as [|e evs IH]; intros i prev H; [done|].
    cbn [verify_events app] in *. case_match; [done|]. inv_res.
    rewrite Hx. cbn [mbind result_bind]. rewrite Hx0. cbn [mbind result_bind].
    destruct (negb (x0 =? ev_hash e)%string); [done|]. by apply IH. }
  split; [done|]. rewrite verify_events_snoc in H by done. cbn [verify_events] in H.
  case_match eqn:Hc; [done|]. bools. split; [done|].
  inv_res. exists x. split; [done|].
  destruct (negb (x0 =? ev_hash ev)%string) eqn:He; [done|]. bools. by rewrite Hx0, He.
Qed.

(** What the hash of an event was computed from. *)
Definition hashed_input (ev : OperationEventRecord) (i : EventHashInput) : Prop :=
  ∃ text, canonical_json (ev_details ev) = Ok text
    ∧ i = {| eh_event_id := ev_id ev; eh_operation_id := ev_operation_id ev;
             eh_sequence := ev_sequence ev; eh_kind := ev_kind ev; eh_state := ev_state ev;
             eh_event_json := text; eh_created_at := ev_created_at ev;
             eh_prev_hash := ev_prev_hash ev |}.

(** Two events, one of each history, whose hashed texts collide. *)
Definition events_collide (evs evs' : list OperationEventRecord) : Prop :=
  ∃ ev ev' i i', ev ∈ evs ∧ ev' ∈ evs' ∧ hashed_input ev i ∧ hashed_input ev' i'
    ∧ values_collide (event_hash_value i) (event_hash_value i').

Lemma events_collide_app l l' m m' : events_collide l l' → events_collide (l ++ m) (l' ++ m').
Proof.
  intros (ev & ev' & i & i' & H & H' & Hc). exists ev, ev', i, i'.
  split_and!; [apply elem_of_app; by left|apply elem_of_app; by left|apply Hc..].
Qed.

Lemma verified_chain_determined evs evs' :
  Forall record_ok evs → Forall record_ok evs' →
  verify_events 0 None evs = Ok true → verify_events 0 None evs' = Ok true →
  ev_hash <$> last evs = ev_hash <$> last evs' →
  Forall2 same_event evs evs' ∨ events_collide evs evs'.
Proof.
  revert evs'. induction evs as [|ev evs IH] using rev_ind; intros evs' Ho Ho' Hv Hv' Hl.
  - destruct evs' as [|ev' evs' _] using rev_ind; [left; constructor|].
    by rewrite last_snoc in Hl.
  - destruct evs' as [|ev' evs' _] using rev_ind; [by rewrite last_snoc in Hl|].
    rewrite !last_snoc in Hl. injection Hl as Hl.
    apply Forall_app in Ho as [Ho [[Hc Hs] _]%Forall_cons].
    apply Forall_app in Ho' as [Ho' [[Hc' Hs'] _]%Forall_cons].
    apply verify_events_snoc_inv in Hv as (Hv & Hp & text & Ht & Hh).
    apply verify_events_snoc_inv in Hv' as (Hv' & Hp' & text' & Ht' & Hh').
    rewrite Hl in Hh.
    pose proof (λ a b c d, event_hash_inj _ _ _ a b c d Hh Hh') as Hinj.
    destruct (Hinj Hc Hc' Hs Hs') as [[=]|Hcol].
    2: { right. exists ev, ev'. do 2 eexists.
         split_and!; [..|by exists text|by exists text'|exact Hcol];
           apply elem_of_app; right; left. }
    destruct (IH evs' Ho Ho' Hv Hv') as [Hf|]; [|left|right; by apply events_collide_app].
    + assert (ev_prev_hash ev = ev_prev_hash ev') as Hpp by done.
      rewrite Hp, Hp' in Hpp.
      by destruct (last evs), (last evs').
    + apply Forall2_app; [done|]. repeat constructor; try done. congruence.
Qed.
End tamper.

(** ** What a call cannot undo

    Rows are never removed, their immutable columns never change and their state
    moves along the state machine; events and approvals are only appended. *)

Section growth.
Context {P : Platform} {L : PlatformLaws P} {SD : Serde}.

Definition evolves (r r' : OperationRow) : Prop :=
  row_id r = row_id r' ∧ immutable_changed r r' = false
  ∧ ∃ s s', row_state r = state_str s ∧ row_state r' = state_str s'
      ∧ rtc StateMachine.step s s'.

Record grows (db db' : LocalDb) : Prop := {
  grows_rows : ∃ rows new, operations db' = rows ++ new ∧ Forall2 evolves (operations db) rows;
  grows_events : operation_events db `prefix_of` operation_events db';
  grows_approvals : operation_approvals db `prefix_of` operation_approvals db';
}.

(** The columns the trigger protects. *)
Definition immutable_columns (r : OperationRow) :=
  (row_runtime_id r, row_workspace_id r, row_account_scope r,
   row_connection_id r, row_connection_revision r, row_terminal_session_id r,
   row_actor_kind r, row_actor_id r, row_actor_provenance_json r,
   row_operation_kind r, row_payload_schema_version r, row_payload_json r,
   row_payload_hash r, row_schema_fingerprint r, row_risk_level r,
   row_preview_json r, row_policy_snapshot_json r, row_policy_revision r,
   row_single_use r, row_idempotency_key r, row_expires_at r,
   row_created_at r).

Lemma immutable_changed_false r r' :
  immutable_changed r r' = false ↔ immutable_columns r = immutable_columns r'.
Proof.
  unfold immutable_changed, immutable_columns. split.
  - intros H. bools.
    repeat match goal with H : (_ =? _) = true |- _ => apply Z.eqb_eq in H end.
    congruence.
  - intros [=]. repeat match goal with H : ?x r = _ |- _ => rewrite H; clear H end.
    rewrite !String.eqb_refl, !Z.eqb_refl, !bool_decide_true by done. done.
Qed.

#[export] Instance evolves_trans : Transitive evolves.
Proof.
  intros r1 r2 r3 (Hi & Hc & s1 & s2 & H1 & H2 & Hs) (Hi' & Hc' & s2' & s3 & H2' & H3 & Hs').
  split; [congruence|]. split; [rewrite immutable_changed_false in *; congruence|].
  exists s1, s3. split_and!; [done..|]. etrans; [exact Hs|].
  by rewrite (state_str_inj s2 s2') by congruence.
Qed.

#[export] Instance grows_trans : Transitive grows.
Proof.
  intros db1 db2 db3 [(l & n & H & Hf) He Ha] [(l' & n' & H' & Hf') He' Ha'].
  split; [|by etrans|by etrans].
  rewrite H in Hf'. apply Forall2_app_inv_l in Hf' as (k & k' & Hk & _ & ->).
  exists k, (k' ++ n'). split; [by rewrite app_assoc|].
  by etrans.
Qed.

Lemma evolves_refl db r : Inv db → r ∈ operations db → evolves r r.
Proof.
  intros Hi Hr. destruct (inv_entry _ Hi r Hr) as (op & t & Hs & _).
  destruct (row_to_operation_columns _ _ (st_decode _ _ Hs)) as (Hst & _).
  split; [done|]. split; [by apply immutable_changed_false|].
  exists (op_state op), (op_state op). done.
Qed.

Lemma rows_refl db : Inv db → Forall2 evolves (operations db) (operations db).
Proof.
  intros Hi. assert (Forall (λ r, evolves r r) (operations db)) as H.
  { apply Forall_forall. intros r. by apply evolves_refl. }
  induction H; constructor; auto.
Qed.

Lemma grows_refl db : Inv db → grows db db.
Proof.
  intros Hi. split; [|done..]. exists (operations db), []. rewrite app_nil_r.
  by split; [|apply rows_refl].
Qed.

Lemma grows_micro db db' : Inv db → micro db db' → grows db db'.
Proof.
  intros Hi Hm. destruct Hm as [r op e|r op target now e Hr Hs Hn Hst _ _|r op a|r op e];
    split; cbn; try done; try (by apply prefix_app_r);
    try (exists (operations db), []; rewrite app_nil_r; by split; [|apply rows_refl]).
  - exists (operations db), [r]. by split; [|apply rows_refl].
  - eexists _, []. rewrite app_nil_r. split; [done|].
    assert (∀ r0, r0 ∈ operations db → evolves r0
      (if (row_id r0 =? row_id r)%string then transition_set target (timestamp now) r0 else r0)) as H.
    { intros r0 Hr0. destruct (String.eqb_spec (row_id r0) (row_id r)) as [Heq|];
        [|by eapply evolves_refl].
      apply (row_unique _ _ _ (inv_ids _ Hi) Hr0 Hr) in Heq as ->.
      destruct (row_to_operation_columns _ _ (st_decode _ _ Hs)) as (Hrs & _).
      split; [done|]. split; [apply immutable_kept|].
      exists (op_state op), target. split_and!; [done..|]. by apply rtc_once. }
    clear -H. induction (operations db) as [|r0 l IH]; cbn; constructor; [|apply IH];
      intros; apply H; set_solver.
Qed.

Lemma grows_micros db db' : Inv db → rtc micro db db' → grows db db'.
Proof.
  intros Hi H. induction H as [|db1 db2 db3 Hm _ IH]; [by apply grows_refl|].
  etrans; [by apply grows_micro|]. apply IH. by eapply Inv_micro.
Qed.

Lemma grows_row db db' r :
  grows db db' → r ∈ operations db → ∃ r', r' ∈ operations db' ∧ evolves r r'.
Proof.
  intros [(l & n & -> & Hf) _ _] Hr. apply list_elem_of_lookup in Hr as [i Hi].
  destruct (Forall2_lookup_l _ _ _ _ _ Hf Hi) as (r' & Hi' & He). exists r'.
  split; [|done]. apply elem_of_app. left. by eapply list_elem_of_lookup_2.
Qed.

Lemma steps_rank s s' : rtc StateMachine.step s s' → (StateMachine.rank s' ≤ StateMachine.rank s)%nat.
Proof. induction 1 as [|s1 s2 s3 H _ IH]; [lia|]. apply StateMachine.step_rank in H. lia. Qed.
End growth.

(** ** Restart recovery runs to completion *)

Section recovery.
Context {P : Platform} {L : PlatformLaws P} {SD : Serde}.

Lemma append_event_id eid id kind state details now db rec db' :
  append_event_tx eid id kind state details now db = Ok (rec, db') →
  ∃ e, db' = add_event e db ∧ evr_id e = uuid_to_string eid
    ∧ evr_operation_id e = uuid_to_string id.
Proof.
  unfold append_event_tx. intros H. inv_res. unfold insert_event in *. inv_res.
  eexists. split_and!; reflexivity.
Qed.

Lemma transition_tx_event eid cur target details now db op' db' :
  transition_tx eid cur target details now db = Ok (op', db') →
  ∃ e, operation_events db' = operation_events db ++ [e] ∧ evr_id e = uuid_to_string eid
    ∧ evr_operation_id e = uuid_to_string (op_id cur).
Proof.
  unfold transition_tx. intros H. inv_res. unfold update_operations in *. inv_res.
  apply append_event_id in Hx2 as (e & -> & He & Ho). exists e. done.
Qed.

Definition restart_details : list Value :=
  [VObject [("reason", VString "runtime_restarted")];
   VObject [("reason", VString "runtime_interrupted_before_receipt")];
   VObject [("reason", VString "target_commit_status_unknown_after_restart")]].

(** Events added by one iteration: at most one, of that operation. *)
Lemma recover_one_events eid now op report report' db db' :
  recover_one eid now op report db = Ok (report', db') →
  operation_events db' = operation_events db
  ∨ ∃ e, operation_events db' = operation_events db ++ [e] ∧ evr_id e = uuid_to_string eid
      ∧ evr_operation_id e = uuid_to_string (op_id op).
Proof.
  unfold recover_one. intros H. destruct (StateMachine.restart_recovery _ _); inv_res; auto;
    right; by eapply transition_tx_event.
Qed.

Lemma recover_one_total eid now op report db r :
  Inv db → r ∈ operations db → stored r op → clock_ok now → Forall fits restart_details →
  fresh_event eid db = true → room (op_id op) db →
  ∃ report' db', recover_one eid now op report db = Ok (report', db').
Proof.
  intros Hi Hr Hs Hn Hf Hfr Hroom.
  repeat (apply Forall_cons in Hf as [? Hf]).
  unfold recover_one. destruct (StateMachine.restart_recovery _ _) eqn:E; eauto;
    match goal with |- context [transition_tx _ _ ?t ?d _ _] =>
      destruct (transition_tx_total eid op t d now db r) as [db' ->]; try done
    end; cbn [mbind result_bind]; eauto; by destruct (op_state op), (op_kind op).
Qed.

Lemma room_other id id' e db db' :
  operation_events db' = operation_events db ++ [e] → evr_operation_id e = uuid_to_string id' →
  id ≠ id' → room id db → room id db'.
Proof.
  intros He Ho Hne. unfold room, events_of. rewrite He, List.filter_app. cbn. rewrite Ho.
  destruct (String.eqb_spec (uuid_to_string id') (uuid_to_string id)) as [Heq|];
    [by apply (inj uuid_to_string) in Heq|by rewrite app_nil_r].
Qed.

Lemma fresh_other eid eid' e db db' :
  operation_events db' = operation_events db ++ [e] → evr_id e = uuid_to_string eid' →
  eid ≠ eid' → fresh_event eid db = true → fresh_event eid db' = true.
Proof.
  intros He Hid Hne. unfold fresh_event. rewrite He, forallb_app. intros ->. cbn. rewrite Hid.
  rewrite andb_true_r. apply negb_true_iff, String.eqb_neq.
  by intros Heq%(inj uuid_to_string).
Qed.

(** What the loop does to the table. *)
Definition recovered_from (clock : nat → DateTime) (rows : list OperationRow)
  (r r' : OperationRow) : Prop :=
  r ∈ rows ∧ (∃ op i, row_to_operation r = Ok op ∧ r' = recovered_row (clock i) op r)
  ∨ r ∉ rows ∧ r' = r.

Lemma recovered_row_id now op r : row_id (recovered_row now op r) = row_id r.
Proof. unfold recovered_row. by case_bool_decide. Qed.

Lemma recover_rows_total fresh clock rows n report db :
  (∀ i, clock_ok (clock i)) → Inj (=) (=) fresh → Inv db →
  NoDup (row_id <$> rows) → Forall (λ r, r ∈ operations db) rows →
  Forall fits restart_details →
  (∀ i, (n ≤ i)%nat → fresh_event (fresh i) db = true) →
  Forall (λ r, ∀ op, stored r op → room (op_id op) db) rows →
  ∃ report' db', recover_rows fresh clock n rows report db = Ok (report', db')
    ∧ Forall2 (recovered_from clock rows) (operations db) (operations db').
Proof.
  intros Hc Hinj. revert n report db. induction rows as [|r rows IH];
    intros n report db Hi Hnd Hin Hfit Hfr Hroom; cbn [recover_rows].
  - eexists _, _. split; [done|].
    apply Forall2_same_length_lookup. split; [done|].
    intros i r r' H1 H2. right. split; [by apply not_elem_of_nil|congruence].
  - apply NoDup_cons in Hnd as [Hr Hnd]. apply Forall_cons in Hin as [Hrin Hin].
    apply Forall_cons in Hroom as [Hrr Hroom].
    destruct (inv_entry _ Hi _ Hrin) as (op & t & Hs & _).
    rewrite (st_decode _ _ Hs). cbn [mbind result_bind].
    destruct (recover_one_total (fresh n) (clock n) op report db r Hi Hrin Hs (Hc n) Hfit)
      as (report1 & db1 & H1); [by apply Hfr|by apply Hrr|].
    rewrite H1. cbn [mbind result_bind].
    destruct (recover_one_effect _ _ _ _ _ _ _ _ Hi Hrin Hs (Hc n) H1) as [Hm Ho].
    pose proof (Inv_micros _ _ Hm Hi) as Hi1.
    pose proof (recover_one_events _ _ _ _ _ _ _ H1) as Hev.
    assert (∀ r', r' ∈ rows → row_id r' ≠ row_id r) as Hne.
    { intros r' Hr' Heq. apply Hr, list_elem_of_fmap. eauto. }
    assert (Forall (λ r0, r0 ∈ operations db1) rows) as Hin1.
    { rewrite Forall_forall in *. intros r' Hr'. rewrite Ho. apply set_row_In. exists r'.
      split; [auto|]. by rewrite (proj2 (String.eqb_neq _ _) (Hne r' Hr')). }
    destruct (IH (S n) report1 db1 Hi1 Hnd Hin1 Hfit) as (report' & db' & H2 & Hf2).
    { intros i Hle. specialize (Hfr i ltac:(lia)).
      destruct Hev as [Hev|(e & Hev & Hid & _)]; [unfold fresh_event in *; by rewrite Hev|].
      eapply fresh_other; [exact Hev|exact Hid| |done]. intros Heq%Hinj. lia. }
    { rewrite Forall_forall in *. intros r' Hr' op' Hs'.
      specialize (Hroom r' Hr' op' Hs').
      destruct Hev as [Hev|(e & Hev & _ & Hid)].
      - unfold room, events_of in *. by rewrite Hev.
      - eapply room_other; [exact Hev|exact Hid| |done]. intros Heq.
        apply (Hne r' Hr'). by rewrite (st_id _ _ Hs'), (st_id _ _ Hs), Heq. }
    exists report', db'. split; [done|]. rewrite Ho in Hf2. cbn [operations set_row] in Hf2.
    apply (Forall2_fmap_l (λ r0, if (row_id r0 =? row_id r)%string
      then recovered_row (clock n) op r0 else r0)) in Hf2. apply Forall2_same_length_lookup in Hf2 as [Hlen Hf2].
    apply Forall2_same_length_lookup. split; [done|]. intros i r0 r' H3 H4.
    specialize (Hf2 i r0 r' H3 H4). unfold compose in Hf2. apply list_elem_of_lookup_2 in H3 as Hr0.
    unfold recovered_from in *.
    destruct (String.eqb_spec (row_id r0) (row_id r)) as [Heq|Hneq].
    + apply (row_unique _ _ _ (inv_ids _ Hi) Hr0 Hrin) in Heq as ->.
      left. split; [by left|]. exists op, n. split; [by apply st_decode|].
      destruct Hf2 as [[Hbad _]|[_ ->]]; [|done].
      apply Hne in Hbad. by rewrite recovered_row_id in Hbad.
    + destruct Hf2 as [[Hr1 Hx]|[Hr1 ->]]; [left|right]; (split; [|done]).
      * by right.
      * intros [->|]%elem_of_cons; done.
Qed.
End recovery.
