(* ===== verification/Planning.v ===== *)
(** * Planning is idempotent

    The row a planned operation writes decodes to a record that matches the
    request it came from, and goes on matching it as the row evolves. *)

From S2P Require Export Trace.

Section planning.
Context {P : Platform} {L : PlatformLaws P} {SD : Serde} {SL : SerdeLaws SD}.

(** JSON without floats throughout, an expiry RFC 3339 can express. *)
Definition new_operation_ok (o : NewOperation) : Prop :=
  value_exact (new_payload o) = true ∧ value_exact (new_preview o) = true
  ∧ value_exact (new_policy_snapshot o) = true ∧ opt_clock_ok (new_expires_at o).

Lemma parse_canonical_roundtrip v text w :
  value_exact v = true → canonical_json v = Ok text → parse_canonical_json text = Ok w →
  w = canonical_value v.
Proof.
  unfold canonical_json, parse_canonical_json. intros Hv H Hp. inv_res.
  apply from_value_json in H. apply json_roundtrip in H; [congruence|by apply canonical_exact].
Qed.

Lemma value_eqb_canonical v : value_exact v = true → value_eqb (canonical_value v) v = true.
Proof.
  intros H. apply canonical_normal_form; [by apply canonical_exact|done|].
  apply canonical_idem. by apply andb_true_iff in H as [? _].
Qed.

Lemma prepare_operation rid o prepared :
  prepare rid o = Ok prepared →
  po_operation prepared = o ∧ po_runtime_id prepared = rid
  ∧ canonical_json (new_preview o) = Ok (po_preview_json prepared)
  ∧ canonical_json (new_policy_snapshot o) = Ok (po_policy_snapshot_json prepared)
  ∧ canonical_json (provenance_to_value (provenance (new_actor o)))
    = Ok (po_actor_provenance_json prepared).
Proof. unfold prepare. intros H. inv_res. done. Qed.

Lemma opt_uuid_roundtrip o f :
  traverse_opt (λ v, parse_uuid v f) (uuid_to_string <$> o) = Ok o.
Proof. destruct o as [u|]; cbn; [|done]. by rewrite parse_uuid_ok. Qed.

Lemma planned_row_matches rid o prepared now op :
  new_operation_ok o → prepare rid o = Ok prepared →
  row_to_operation (planned_row prepared (timestamp now)) = Ok op →
  matches prepared op = true.
Proof.
  intros (H1 & H2 & H3 & H4) Hp H.
  apply prepare_operation in Hp as (<- & <- & Hpv & Hps & Hpr).
  unfold row_to_operation in H. inv_res. cbn [planned_row row_payload_json row_payload_hash
    row_actor_provenance_json row_preview_json row_policy_snapshot_json row_id row_runtime_id
    row_workspace_id row_connection_id row_terminal_session_id row_actor_kind
    row_operation_kind row_payload_schema_version row_risk_level row_state row_single_use
    row_expires_at row_started_at row_finished_at row_created_at row_updated_at row_actor_id
    row_account_scope row_connection_revision row_schema_fingerprint row_policy_revision
    row_idempotency_key] in *.
  rewrite !parse_uuid_ok in *. rewrite opt_uuid_roundtrip in *.
  rewrite parse_opt_timestamp_ok in * by done.
  rewrite (proj2 (actor_kind_codec _ _) eq_refl) in *.
  rewrite (proj2 (kind_codec _ _) eq_refl) in *.
  rewrite (proj2 (risk_codec _ _) eq_refl) in *.
  eapply parse_canonical_roundtrip in Hx3; [|exact H2|exact Hpv].
  eapply parse_canonical_roundtrip in Hx4; [|exact H3|exact Hps].
  eapply parse_canonical_roundtrip in Hx1; [|apply provenance_exact|exact Hpr].
  subst x1 x3 x4. rewrite provenance_roundtrip in Hx2.
  assert (x15 = new_single_use (po_operation prepared)) as ->
    by (destruct (new_single_use (po_operation prepared)); cbn in Hx15; congruence).
  assert (x12 = new_payload_schema_version (po_operation prepared)) as ->
    by (destruct (_ && _) in Hx12; congruence).
  repeat match goal with
  | H : Ok _ = Ok _ |- _ => injection H as <-
  | H : Some _ = Some _ |- _ => injection H as <-
  end.
  unfold matches. cbn [op_runtime_id op_workspace_id op_account_scope op_connection_id
    op_connection_revision op_terminal_session_id op_actor op_kind op_payload_schema_version
    op_payload_hash op_schema_fingerprint op_risk_level op_preview op_policy_snapshot
    op_policy_revision op_single_use op_idempotency_key op_expires_at].
  rewrite !String.eqb_refl, !Z.eqb_refl, !value_eqb_canonical, eqb_reflx by done.
  rewrite !bool_decide_true; try done. by destruct (new_actor (po_operation prepared)).
Qed.

(** *** Matching survives evolution *)

Lemma matches_evolves prepared r r' op op' :
  evolves r r' → row_to_operation r = Ok op → row_to_operation r' = Ok op' →
  matches prepared op = true → matches prepared op' = true ∧ op_id op = op_id op'.
Proof.
  intros (Hid & Hc & _) H H' Hm. apply immutable_changed_false in Hc. injection Hc as
    ?????? ?????? ?????? ????.
  unfold row_to_operation in H, H'. inv_res.
  repeat match goal with
  | H : ?f r' = _ |- _ => rewrite H in *
  | H : ?f r = ?f r' |- _ => rewrite <-H in *; clear H
  end.
  repeat match goal with
  | H : ?c = Ok ?x, H' : ?c = Ok ?y |- _ => rewrite H in H'; injection H' as ?; subst
  | H : ?c = Some ?x, H' : ?c = Some ?y |- _ => rewrite H in H'; injection H' as ?; subst
  end.
  done.
Qed.

Lemma idempotent_evolves o r r' : evolves r r' → idempotent_row o r' = idempotent_row o r.
Proof.
  intros (_ & Hc & _). apply immutable_changed_false in Hc. injection Hc as.
  unfold idempotent_row. congruence.
Qed.

Lemma find_evolves o l l' n r :
  Forall2 evolves l l' → List.find (idempotent_row o) l = Some r →
  ∃ r', List.find (idempotent_row o) (l' ++ n) = Some r' ∧ evolves r r' ∧ r' ∈ l'.
Proof.
  induction 1 as [|x y l l' He _ IH]; cbn; [done|].
  rewrite (idempotent_evolves o x y He). destruct (idempotent_row o x).
  - intros [= ->]. exists y. split_and!; [done|done|by left].
  - intros H. destruct (IH H) as (r' & H1 & H2 & H3). exists r'. split_and!; [done..|by right].
Qed.

Lemma find_last_new (f : OperationRow → bool) l r :
  List.find f l = None → f r = true → List.find f (l ++ [r]) = Some r.
Proof.
  induction l as [|x l IH]; cbn; [by intros _ ->|]. destruct (f x); [done|auto].
Qed.

(** After a successful call the idempotency key leads to a matching row. *)
Lemma insert_finds eid rid o now db op db' prepared :
  new_operation_ok o → insert_planned eid rid o now db = (Ok op, db') →
  prepare rid o = Ok prepared →
  ∃ r, List.find (idempotent_row o) (operations db') = Some r ∧ row_to_operation r = Ok op
    ∧ matches prepared op = true.
Proof.
  intros Ho H Hp. unfold insert_planned, with_tx in H. rewrite Hp in H. cbn [mbind result_bind] in H.
  destruct (prepare_operation _ _ _ Hp) as (Hop & _).
  destruct (List.find _ (operations db)) as [row|] eqn:Hf.
  - destruct (row_to_operation row) as [existing|] eqn:Hr; cbn in H; [|done].
    destruct (matches prepared existing) eqn:Hm; [|done]. injection H as -> ->. eauto.
  - match type of H with match ?c with _ => _ end = _ => destruct c as [[res db1]|] eqn:Hb end;
      [|done].
    injection H as -> ->. inv_res. unfold insert_operation in Hx. inv_res. bools.
    exists (planned_row prepared (timestamp now)).
    apply append_event_id in Hx0 as (e & -> & _).
    assert (row_to_operation (planned_row prepared (timestamp now)) = Ok op) as Hd.
    { unfold fetch_operation_tx in Hx1. inv_res. cbn [operations add_event add_row] in Hx.
      rewrite (find_last_new _ _ (planned_row prepared (timestamp now))) in Hx.
      - by injection Hx as <-.
      - match goal with |- ?c = None => destruct c as [y'|] eqn:Hy end; [|done]. exfalso.
        apply find_some in Hy as [Hin Hid]. apply not_true_iff_false in Hx3. apply Hx3.
        apply existsb_exists. exists y'. done.
      - apply String.eqb_refl. }
    split_and!; [|done|by eapply planned_row_matches].
    cbn. apply find_last_new; [by rewrite Hf|].
    unfold idempotent_row. cbn. by rewrite !String.eqb_refl.
Qed.
End planning.

(** ** Where each repository call can take a row

    [targets c] lists the states the call [c] can move a row to; every other
    row keeps its columns and new rows are [Planned].  The facade's guarantees
    about which states an operation can be in follow from it. *)

Section moves.
Context {P : Platform} {L : PlatformLaws P} {SD : Serde}.

(** [a] approves exactly the stored row [r]. *)
Definition approves (r : OperationRow) (a : ApprovalRow) : Prop :=
  apr_operation_id a = row_id r ∧ apr_payload_hash a = row_payload_hash r
  ∧ apr_decision a = "approved" ∧ apr_policy_revision a = row_policy_revision r.

Definition targets (c : Call) (db' : LocalDb) (r : OperationRow) (s : OperationState.t) : Prop :=
  match c with
  | CallInsert _ _ _ _ | CallProgress _ _ _ _ _ => False
  | CallTransition _ id _ target _ _ =>
      row_id r = uuid_to_string id ∧ s = target ∧ target ≠ OperationState.Executing
  | CallClaim _ id _ _ =>
      row_id r = uuid_to_string id ∧ (s = OperationState.Executing ∨ s = OperationState.Expired)
  | CallDecide _ _ command =>
      row_id r = uuid_to_string (cmd_operation_id command)
      ∧ (s = OperationState.Expired ∨ s = OperationState.Rejected
         ∨ s = OperationState.Approved ∧ ∃ a, a ∈ operation_approvals db' ∧ approves r a)
  | CallRecover _ _ _ =>
      s = OperationState.Expired ∨ s = OperationState.Failed ∨ s = OperationState.OutcomeUnknown
  end.

(** Row [r'] is a row of [db], left as it was or moved to an allowed state. *)
Definition shifted (ok : OperationRow → OperationState.t → Prop) (db : LocalDb)
  (r' : OperationRow) : Prop :=
  ∃ r, r ∈ operations db ∧ immutable_columns r = immutable_columns r' ∧ row_id r = row_id r'
    ∧ (row_state r' = row_state r ∨ ∃ s, ok r s ∧ row_state r' = state_str s).

Definition moved (ok : OperationRow → OperationState.t → Prop) (db db' : LocalDb) : Prop :=
  ∀ r', r' ∈ operations db' → shifted ok db r' ∨ row_state r' = "planned".

Lemma shifted_refl (ok : OperationRow → OperationState.t → Prop) db r :
  r ∈ operations db → shifted ok db r.
Proof. intros Hr. exists r. auto. Qed.

Lemma moved_same (ok : OperationRow → OperationState.t → Prop) db db' :
  operations db' = operations db → moved ok db db'.
Proof. intros E r Hr. left. apply shifted_refl. by rewrite <-E. Qed.

Lemma shifted_set_row (ok : OperationRow → OperationState.t → Prop) id target now db r' :
  (∀ r, r ∈ operations db → row_id r = id → ok r target) →
  r' ∈ operations (set_row id (transition_set target now) db) → shifted ok db r'.
Proof.
  intros Hok Hr'. apply set_row_In in Hr' as (r & Hr & ->).
  exists r. destruct (String.eqb_spec (row_id r) id) as [Heq|]; [|by auto].
  split_and!; [done| |done|].
  - apply immutable_changed_false, immutable_kept.
  - right. exists target. split; [by apply Hok|done].
Qed.

Lemma moved_set_row (ok : OperationRow → OperationState.t → Prop) id target now db db' :
  (∀ r, r ∈ operations db → row_id r = id → ok r target) →
  operations db' = operations (set_row id (transition_set target now) db) → moved ok db db'.
Proof. intros Hok E r' Hr'. left. rewrite E in Hr'. by eapply shifted_set_row. Qed.

(** [transition_tx] moves the row it was given. *)
Lemma moved_transition_tx (ok : OperationRow → OperationState.t → Prop)
    eid id cur target details now db op' db' :
  Inv db → fetch_operation_tx id db = Ok cur → clock_ok now → value_exact details = true →
  (target = OperationState.Executing →
   OperationKind.may_mutate_target (op_kind cur) = true →
   existsb (exact_approval cur (timestamp now)) (operation_approvals db) = true) →
  (∀ r, r ∈ operations db → row_id r = uuid_to_string id → ok r target) →
  transition_tx eid cur target details now db = Ok (op', db') → moved ok db db'.
Proof.
  intros Hi Hf Hn Hd Hj Hok H. destruct (fetch_stored _ _ _ Hi Hf) as (r & t & Hr & Hs & Hid & He).
  eapply transition_tx_micro in H as (_ & _ & E); [|done..|].
  - eapply moved_set_row; [|exact E]. intros r0 Hin Hr0. apply Hok; [done|].
    by rewrite Hr0, (st_id _ _ Hs), Hid.
  - intros Ht Hm. eapply exact_approval_of; auto.
Qed.

Lemma with_tx_moved {A} (ok : OperationRow → OperationState.t → Prop) db
    (body : AppResult (AppResult A * LocalDb)) :
  (∀ r db', body = Ok (r, db') → moved ok db db') → moved ok db (with_tx db body).2.
Proof. intros H. destruct body as [[r db']|e]; cbn; [by eapply H|by apply moved_same]. Qed.

Lemma insert_moved ok eid rid o now db :
  Inv db → moved ok db (insert_planned eid rid o now db).2.
Proof.
  intros Hi. unfold insert_planned. apply with_tx_moved. intros r db' H. inv_res.
  destruct (List.find _ _); inv_res.
  - destruct (matches _ _); inv_res. by apply moved_same.
  - apply append_event_id in Hx1 as (e & -> & _). unfold insert_operation in Hx0. inv_res.
    intros r' Hr'. apply elem_of_app in Hr' as [Hr'|Hr'].
    + left. by apply shifted_refl.
    + right. apply list_elem_of_singleton in Hr' as ->. done.
Qed.

Lemma transition_moved eid id rid target details now db :
  Inv db → clock_ok now → value_exact details = true →
  moved (targets (CallTransition eid id rid target details now)
           (transition eid id rid target details now db).2)
    db (transition eid id rid target details now db).2.
Proof.
  intros Hi Hn Hd. generalize (transition eid id rid target details now db).2 at 1. intros db''.
  unfold transition. case_bool_decide as Ht; [by apply moved_same|].
  apply with_tx_moved. intros r db' H. inv_res.
  eapply moved_transition_tx; [exact Hi|exact Hx|done|done| | |eassumption]; [by intros ->|by intros r0 _ Hr0].
Qed.

Lemma claim_moved eid id rid now db db'' :
  Inv db → clock_ok now →
  moved (targets (CallClaim eid id rid now) db'') db (claim_execution eid id rid now db).2.
Proof.
  intros Hi Hn. unfold claim_execution. apply with_tx_moved. intros res db' H. inv_res.
  destruct (is_expired x now); inv_res; (eapply moved_transition_tx; [exact Hi|exact Hx|done| | | |eassumption]);
    try done; try (by intros r0 _ Hr; cbn; auto).
  intros _ Hm. rewrite Hm, andb_true_r in *. apply bool_decide_eq_false in Hx2. bools.
  destruct (op_state x); try done.
  apply andb_false_iff in Hx3 as [H3|H3]; [done|by apply negb_false_iff in H3].
Qed.

Lemma grows_approval_in db db' a :
  grows db db' → a ∈ operation_approvals db → a ∈ operation_approvals db'.
Proof. intros [_ _ [k ->]] Ha. apply elem_of_app. by left. Qed.

Lemma approval_row_approves aid cur command r :
  stored r cur → row_payload_hash r = op_payload_hash cur →
  row_policy_revision r = op_policy_revision cur →
  cmd_decision command = OperationApprovalDecision.Approved →
  approves r (approval_row aid cur command).
Proof.
  intros Hs Hp Hv Hd. unfold approves. cbn. rewrite Hd. split_and!; [|done..].
  symmetry. by apply st_id.
Qed.

Lemma decide_moved eid aid command db :
  Inv db → clock_ok (cmd_now command) →
  moved (targets (CallDecide eid aid command) (decide_approval eid aid command db).2)
    db (decide_approval eid aid command db).2.
Proof.
  intros Hi Hn. destruct (decide_approval eid aid command db) as [res db'] eqn:E. cbn [snd].
  assert (db' = (decide_approval eid aid command db).2) as Hdb by (by rewrite E). clear E.
  revert Hdb. unfold decide_approval.
  match goal with |- _ = (with_tx _ ?b).2 → _ => destruct b as [[r d]|e] eqn:H end;
    cbn; intros ->; [|by apply moved_same].
  inv_res. rename x1 into cur. bools.
  destruct (fetch_stored _ _ _ Hi Hx1) as (row & t & Hr & Hs & Hid & He).
  destruct (is_expired cur (cmd_now command)) eqn:Hex; inv_res.
  - eapply moved_transition_tx; try eassumption; try done. intros r0 _ Hr0. cbn. auto.
  - assert (approval_ok cur (approval_row aid cur command)) as Hok.
    { apply approval_row_ok; try done. by apply (st_clock _ _ Hs). }
    unfold insert_approval in Hx. inv_res.
    assert (micro db (add_approval (approval_row aid cur command) db)) as Hm
      by (eapply micro_approval; try done; symmetry; by apply st_id).
    pose proof (Inv_micro _ _ Hi Hm) as Hi'.
    assert (approval_row aid cur command ∈ operation_approvals d) as Ha.
    { destruct (Inv_stored _ row cur Hi' Hr Hs) as (t' & He').
      pose proof Hx6 as Hmt.
      eapply transition_tx_micro in Hmt as (Hmt & _ & _);
        [|done..|by destruct (cmd_decision command)].
      eapply grows_approval_in; [by apply grows_micro|]. cbn. apply elem_of_app. right. by left. }
    eapply moved_transition_tx in Hx6; [|exact Hi'|exact Hx1|done|done| |];
      [exact Hx6|by destruct (cmd_decision command)|].
    intros r0 Hin Hr0. cbn. split; [done|].
    destruct (cmd_decision command) eqn:Hdec; cbn; [|auto].
    right; right. split; [done|]. exists (approval_row aid cur command). split; [done|].
    assert (r0 = row) as -> by (eapply row_unique; [apply Hi|done..|]; by rewrite Hr0, (st_id _ _ Hs), Hid).
    destruct (row_to_operation_columns _ _ (st_decode _ _ Hs)) as (_ & _ & Hph & Hpr & _).
    by apply approval_row_approves.
Qed.

Lemma progress_moved ok eid id rid details now db :
  moved ok db (append_progress eid id rid details now db).2.
Proof.
  unfold append_progress. apply with_tx_moved. intros r db' H. inv_res.
  apply append_event_id in Hx2 as (e & -> & _). by apply moved_same.
Qed.

Definition recovery_target (r : OperationRow) (s : OperationState.t) : Prop :=
  s = OperationState.Expired ∨ s = OperationState.Failed ∨ s = OperationState.OutcomeUnknown.

Lemma recovered_shifted db db1 id now op r' :
  operations db1 = operations (set_row id (recovered_row now op) db) →
  r' ∈ operations db1 → shifted recovery_target db r'.
Proof.
  intros E Hr'. rewrite E in Hr'. unfold recovered_row in Hr'. case_bool_decide as Hb.
  - apply set_row_In in Hr' as (r & Hr & ->). case_match; by apply shifted_refl.
  - eapply (shifted_set_row _ id); [|exact Hr']. intros r0 _ _. unfold recovery_target.
    unfold recovered_state in *. destruct (StateMachine.restart_recovery _ _); auto; done.
Qed.

Lemma recover_rows_shifted fresh clock rows n report report' db db' :
  (∀ i, clock_ok (clock i)) → Inv db →
  NoDup (row_id <$> rows) → Forall (λ r, r ∈ operations db) rows →
  recover_rows fresh clock n rows report db = Ok (report', db') →
  ∀ r', r' ∈ operations db' → shifted recovery_target db r'.
Proof.
  intros Hc. revert n report db. induction rows as [|r rows IH]; intros n report db Hi Hn Hf H;
    cbn in H; inv_res; [intros r'; apply shifted_refl|].
  apply NoDup_cons in Hn as [Hr Hn]. apply Forall_cons in Hf as [Hin Hf].
  destruct (inv_entry _ Hi _ Hin) as (op & t & Hs & _).
  assert (op = x) as -> by (pose proof (st_decode _ _ Hs); congruence).
  destruct (recover_one_effect _ _ _ _ _ _ _ _ Hi Hin Hs (Hc n) Hx0) as [Hm Ho].
  intros r3 H3. eapply IH in H as (r2 & H2 & Hi2 & Hid2 & Hs2); [| |done| |exact H3].
  - destruct (recovered_shifted _ _ _ _ _ _ Ho H2) as (r1 & H1 & Hi1 & Hid1 & Hs1).
    exists r1. split_and!; [done|congruence|congruence|].
    destruct Hs2 as [->|(s & Hk & ->)]; [done|]. right. by exists s.
  - by eapply Inv_micros.
  - rewrite Ho. rewrite Forall_forall in *. intros r' Hr'. apply set_row_In.
    exists r'. split; [auto|]. destruct (String.eqb_spec (row_id r') (row_id r)) as [Heq|]; [|done].
    destruct Hr. rewrite <-Heq. apply list_elem_of_fmap. eauto.
Qed.

Lemma recover_moved fresh clock rid db :
  Inv db → (∀ i, clock_ok (clock i)) →
  moved recovery_target db (recover_previous_runtimes fresh clock rid db).2.
Proof.
  intros Hi Hc. unfold recover_previous_runtimes. apply with_tx_moved. intros r db' H. inv_res.
  intros r' Hr'. left. eapply recover_rows_shifted; [exact Hc|exact Hi| | |exact Hx|done].
  - by apply recovery_rows_NoDup, inv_ids.
  - apply Forall_forall. intros r0 Hr0. by apply recovery_rows_in in Hr0 as [? _].
Qed.

(** A call moves rows only to its targets. *)
Lemma run_call_moved c db :
  Inv db → call_ok c → moved (targets c (run_call c db)) db (run_call c db).
Proof.
  intros Hi Hc. destruct c; cbn [run_call]; cbn in Hc.
  - by apply insert_moved.
  - destruct Hc. by apply transition_moved.
  - by apply claim_moved.
  - by apply decide_moved.
  - by apply progress_moved.
  - by apply recover_moved.
Qed.
End moves.
