(* ===== verification/Runtime.v ===== *)
(** * The Operation Runtime facade (src-tauri/src/operations/{runtime,execute}.rs)

    [OperationRuntime] owns the runtime identity and is the only producer of
    [ExecutionGrant]s.  A method is a composition of repository calls on the
    shared database; between the two transactions of [plan] other tasks may run,
    which the argument [others] stands for.  Identifiers and clock readings are
    arguments. *)

From S2P Require Export Planning.

Section runtime.
Context {P : Platform} {SD : Serde}.
Local Open Scope effect_scope.

Inductive OperationPlanDisposition := Ready | ApprovalRequired.

#[export] Instance OperationPlanDisposition_eq_dec : EqDecision OperationPlanDisposition.
Proof. solve_decision. Defined.

Definition disposition_str (value : OperationPlanDisposition) : string :=
  match value with Ready => "ready" | ApprovalRequired => "approval_required" end.

Record ExactApprovalRequest := {
  ear_operation_id : Uuid;
  ear_expected_payload_hash : string;
  ear_approver : OperationApprover;
  ear_current_policy_revision : string;
  ear_reason : option string;
}.

(** execute.rs: the fields are private and [issue] is the only constructor. *)
Record ExecutionGrant := {
  eg_operation_id : Uuid;
  eg_payload_sha256 : string;
  eg_connection_id : Uuid;
}.

Definition issue (record : OperationRecord) : AppResult ExecutionGrant :=
  if negb (bool_decide (op_state record = OperationState.Executing))
  then Err (Config "an execution grant requires an atomically claimed operation")
  else Ok {| eg_operation_id := op_id record;
             eg_payload_sha256 := op_payload_hash record;
             eg_connection_id := op_connection_id record |}.

Record ClaimedOperation := { co_record : OperationRecord; co_grant : ExecutionGrant }.

Record LocalApprovalAuthority := { laa_runtime_id : Uuid }.

(** The repository is the database every method is given. *)
Record OperationRuntime := { rt_runtime_id : Uuid }.

Definition new_runtime (runtime_id : Uuid) : OperationRuntime * LocalApprovalAuthority :=
  ({| rt_runtime_id := runtime_id |}, {| laa_runtime_id := runtime_id |}).

Definition recover (fresh : nat → Uuid) (clock : nat → DateTime) (self : OperationRuntime)
  (db : LocalDb) : effect LocalDb RestartRecoveryReport :=
  recover_previous_runtimes fresh clock (rt_runtime_id self) db.

Definition disposed_state (disposition : OperationPlanDisposition) : OperationState.t :=
  match disposition with
  | Ready => OperationState.Ready
  | ApprovalRequired => OperationState.PendingApproval
  end.

Definition plan (event_id event_id' : Uuid) (now now' : DateTime) (others : LocalDb → LocalDb)
  (self : OperationRuntime) (operation : NewOperation)
  (disposition : OperationPlanDisposition) (db : LocalDb)
  : effect LocalDb OperationRecord :=
  if OperationKind.may_mutate_target (new_kind operation)
     && negb (bool_decide (disposition = ApprovalRequired))
  then (Err (Blocked "target-mutating operations always require an exact approval"), db)
  else
    let? (planned, db1) := insert_planned event_id (rt_runtime_id self) operation now db in
    if negb (bool_decide (op_state planned = OperationState.Planned)) then (Ok planned, db1)
    else
      transition event_id' (op_id planned) (rt_runtime_id self) (disposed_state disposition)
        (VObject [("disposition", VString (disposition_str disposition))]) now' (others db1).

Definition ensure_local_approval_authority (self : OperationRuntime)
  (authority : LocalApprovalAuthority) : AppResult unit :=
  if bool_decide (laa_runtime_id authority = rt_runtime_id self) then Ok tt
  else Err (Blocked "approval authority belongs to a different application runtime").

Definition exact_command (self : OperationRuntime) (request : ExactApprovalRequest)
  (decision : OperationApprovalDecision.t) (now : DateTime) : OperationApprovalCommand := {|
  cmd_operation_id := ear_operation_id request;
  cmd_runtime_id := rt_runtime_id self;
  cmd_expected_payload_hash := ear_expected_payload_hash request;
  cmd_approver := ear_approver request;
  cmd_decision := decision;
  cmd_reason := ear_reason request;
  cmd_current_policy_revision := ear_current_policy_revision request;
  cmd_now := now |}.

Definition decide_exact (event_id approval_id : Uuid) (now : DateTime) (self : OperationRuntime)
  (request : ExactApprovalRequest) (decision : OperationApprovalDecision.t) (db : LocalDb)
  : effect LocalDb OperationRecord :=
  decide_approval event_id approval_id (exact_command self request decision now) db.

Definition approve_exact (event_id approval_id : Uuid) (now : DateTime)
  (self : OperationRuntime) (authority : LocalApprovalAuthority)
  (request : ExactApprovalRequest) (db : LocalDb) : effect LocalDb OperationRecord :=
  let? (_, db) := pure_step (ensure_local_approval_authority self authority) db in
  decide_exact event_id approval_id now self request OperationApprovalDecision.Approved db.

Definition reject_exact (event_id approval_id : Uuid) (now : DateTime)
  (self : OperationRuntime) (authority : LocalApprovalAuthority)
  (request : ExactApprovalRequest) (db : LocalDb) : effect LocalDb OperationRecord :=
  let? (_, db) := pure_step (ensure_local_approval_authority self authority) db in
  decide_exact event_id approval_id now self request OperationApprovalDecision.Rejected db.

Definition claim (event_id : Uuid) (now : DateTime) (self : OperationRuntime)
  (operation_id : Uuid) (db : LocalDb) : effect LocalDb ClaimedOperation :=
  let? (record, db) := claim_execution event_id operation_id (rt_runtime_id self) now db in
  let? (grant, db) := pure_step (issue record) db in
  (Ok {| co_record := record; co_grant := grant |}, db).

Definition progress (event_id : Uuid) (now : DateTime) (self : OperationRuntime)
  (operation_id : Uuid) (details : Value) (db : LocalDb) : effect LocalDb unit :=
  let? (_, db) := append_progress event_id operation_id (rt_runtime_id self) details now db in
  (Ok tt, db).

Definition finish (event_id : Uuid) (now : DateTime) (self : OperationRuntime)
  (operation_id : Uuid) (target : OperationState.t) (details : Value) (db : LocalDb)
  : effect LocalDb OperationRecord :=
  transition event_id operation_id (rt_runtime_id self) target details now db.

Definition succeed event_id now self operation_id :=
  finish event_id now self operation_id OperationState.Succeeded.
Definition fail event_id now self operation_id :=
  finish event_id now self operation_id OperationState.Failed.
Definition confirm_cancelled event_id now self operation_id :=
  finish event_id now self operation_id OperationState.Cancelled.
Definition cancel_before_execution event_id now self operation_id :=
  finish event_id now self operation_id OperationState.Cancelled.
Definition mark_outcome_unknown event_id now self operation_id :=
  finish event_id now self operation_id OperationState.OutcomeUnknown.
End runtime.
