(* ===== verification/Samples.v ===== *)
(** * Concrete inputs

    An instance of the serialiser interface over [Reference.platform], one write
    operation and the history of its planning, approval, claim and completion.
    The witnesses of the ledger's theorems evaluate on it. *)

From S2P Require Export Trace.

#[export] Existing Instance Reference.platform.
#[export] Existing Instance Reference.laws.

Module Sample.
#[export] Instance provenance_countable : Countable OperationActorProvenance.
Proof.
  refine (inj_countable'
    (λ p, (local_account_id p, workspace_account_id p, agent_provider p, agent_model p,
           plugin_id p, plugin_version p, client_protocol_version p, origin_surface p))
    (λ '(a, b, c, d, e, f, g, h),
      {| local_account_id := a; workspace_account_id := b; agent_provider := c;
         agent_model := d; plugin_id := e; plugin_version := f;
         client_protocol_version := g; origin_surface := h |}) _).
  by intros [].
Defined.

#[export] Instance serde : Serde := {|
  provenance_to_value p := VString (Reference.write p);
  provenance_from_value v := match v with VString s => Reference.read s | _ => None end;
|}.
#[export] Instance serde_laws : SerdeLaws serde.
Proof. split; intros p; cbn; [done|]. apply Reference.read_write. Qed.

Definition uid (n : positive) : Uuid := n.
Definition runtime : Uuid := uid 7.
Definition operation : NewOperation := {|
  new_id := (uid 1);
  new_workspace_id := (uid 2);
  new_account_scope := "a";
  new_connection_id := (uid 3);
  new_connection_revision := 1;
  new_terminal_session_id := None;
  new_actor := {| actor_kind := OperationActorKind.Agent; actor_id := "g";
    provenance := {| local_account_id := None; workspace_account_id := None;
      agent_provider := None; agent_model := None; plugin_id := None; plugin_version := None;
      client_protocol_version := None; origin_surface := "t" |} |};
  new_kind := OperationKind.WriteSql;
  new_payload_schema_version := 1;
  new_payload := VObject [("q", VString "D")];
  new_schema_fingerprint := None;
  new_risk_level := OperationRiskLevel.High;
  new_preview := VNull;
  new_policy_snapshot := VNull;
  new_policy_revision := "p";
  new_single_use := true;
  new_idempotency_key := "k";
  new_expires_at := Some 1000;
|}.

Definition payload_hash : string :=
  match from_value (new_payload operation) with Ok c => cj_sha256 c | Err _ => "" end.

Definition approval : OperationApprovalCommand := {|
  cmd_operation_id := (uid 1);
  cmd_runtime_id := runtime;
  cmd_expected_payload_hash := payload_hash;
  cmd_approver := {| approver_kind := OperationActorKind.LocalUser; approver_id := "u" |};
  cmd_decision := OperationApprovalDecision.Approved;
  cmd_reason := None;
  cmd_current_policy_revision := "p";
  cmd_now := 20;
|}.

Definition planned : list Call := [CallInsert (uid 11) runtime operation 10].
Definition pending : list Call := planned ++
  [CallTransition (uid 12) (uid 1) runtime OperationState.PendingApproval VNull 11].
Definition approved : list Call := pending ++ [CallDecide (uid 13) (uid 14) approval].
Definition claimed : list Call := approved ++ [CallClaim (uid 15) (uid 1) runtime 30].
Definition finished : list Call := claimed ++
  [CallProgress (uid 16) (uid 1) runtime VNull 40;
   CallTransition (uid 17) (uid 1) runtime OperationState.Succeeded VNull 50].

Ltac calls_ok :=
  repeat constructor; try (by apply (bool_decide_unpack _); vm_compute); try by vm_compute.
Lemma finished_ok : Forall call_ok finished.
Proof. calls_ok. Qed.

Lemma approved_reachable : reachable (run_calls approved empty_db).
Proof. apply reachable_calls; [apply reachable_empty|calls_ok]. Qed.
Lemma claimed_reachable : reachable (run_calls claimed empty_db).
Proof. apply reachable_calls; [apply reachable_empty|calls_ok]. Qed.
Lemma pending_reachable : reachable (run_calls pending empty_db).
Proof. apply reachable_calls; [apply reachable_empty|calls_ok]. Qed.
Lemma planned_reachable : reachable (run_calls planned empty_db).
Proof. apply reachable_calls; [apply reachable_empty|calls_ok]. Qed.
Lemma finished_reachable : reachable (run_calls finished empty_db).
Proof. apply reachable_calls; [apply reachable_empty|apply finished_ok]. Qed.
End Sample.

#[export] Existing Instance Sample.serde.
#[export] Existing Instance Sample.serde_laws.
