(* ===== verification/OperationTheorems.v ===== *)
(** * The guarantees of the Operation repository

    Theorems about every database the repository's calls can reach, each with a
    concrete instance on the history of Samples.v. *)

From S2P Require Export Planning Samples.

Section facts.
Context {P : Platform} {L : PlatformLaws P} {SD : Serde}.

Lemma chain_event id l t e :
  chain id l t → e ∈ l → ∃ n prev ks, ks ∈ t ∧ event_ok id n prev ks e.
Proof.
  induction 1 as [|l t e' ks Hc IH He]; [by rewrite elem_of_nil|].
  intros [Hin| ->%list_elem_of_singleton]%elem_of_app.
  - destruct (IH Hin) as (n & prev & ks' & Hks & Hok). exists n, prev, ks'. set_solver.
  - eexists _, _, ks. split; [set_solver|done].
Qed.

Lemma approval_decision a ar :
  row_to_approval a = Ok ar → apr_decision a = approval_decision_str (ar_decision ar).
Proof. unfold row_to_approval. intros H. inv_res. by apply decision_codec. Qed.

Lemma event_kind_str_inj k k' : event_kind_str k = event_kind_str k' → k = k'.
Proof.
  intros H. apply event_kind_codec in H.
  pose proof (proj2 (event_kind_codec _ k) eq_refl). congruence.
Qed.

(** An operation with an execution event has a justified start. *)
Lemma execution_event_justified db r op e :
  reachable db → r ∈ operations db → row_to_operation r = Ok op →
  e ∈ events_of (row_id r) db →
  evr_event_kind e = "execution_started" ∨ evr_state e = "executing" →
  justified op (approvals_of (row_id r) db)
  ∧ Forall (approval_ok op) (approvals_of (row_id r) db).
Proof.
  intros Hi%reachable_Inv Hr Hd He Hk.
  destruct (inv_entry _ Hi r Hr) as (op' & t & Hs & Hok).
  assert (op' = op) as -> by (pose proof (st_decode _ _ Hs); congruence).
  split; [|by eapply en_aps].
  destruct (chain_event _ _ _ _ (en_chain _ _ _ _ Hok) He) as (n & prev & [k s] & Hin & Hev).
  apply (en_exec _ _ _ _ Hok). eapply lifecycle_kind_executing; [by eapply en_life|done|].
  destruct Hev as (? & ? & ? & ? & _ & _ & _ & _ & Heq). rewrite Heq in Hk. cbn in *.
  destruct Hk as [Hk|Hk].
  - right. by apply event_kind_str_inj.
  - left. by apply state_str_inj.
Qed.

Lemma get_stored id db op :
  Inv db → get id db = Ok op →
  ∃ r t, r ∈ operations db ∧ stored r op ∧ op_id op = id ∧ fetch_operation_tx id db = Ok op
    ∧ entry_ok op t (events_of (row_id r) db) (approvals_of (row_id r) db).
Proof.
  intros Hi H. assert (fetch_operation_tx id db = Ok op) as Hf.
  { unfold get, find, fetch_operation_tx in *. inv_res.
    destruct (List.find _ _) as [row|]; cbn in *; inv_res; [|done].
    by injection H as ->. }
  destruct (fetch_stored _ _ _ Hi Hf) as (r & t & ? & ? & ? & ?). eauto 10.
Qed.

Lemma get_fetch id db op : get id db = Ok op ↔ fetch_operation_tx id db = Ok op.
Proof.
  unfold get, find, fetch_operation_tx. destruct (List.find _ _) as [row|]; cbn; [|done].
  by destruct (row_to_operation row).
Qed.

Lemma stored_get r op db :
  Inv db → r ∈ operations db → stored r op → get (op_id op) db = Ok op.
Proof.
  intros Hi Hr Hs. unfold get, find. rewrite <-(st_id _ _ Hs), (find_row _ _ (inv_ids _ Hi) Hr).
  cbn. by rewrite (st_decode _ _ Hs).
Qed.

(** A successful claim leaves the operation executing. *)
Lemma claim_started eid id rid now db op db1 :
  Inv db → clock_ok now → claim_execution eid id rid now db = (Ok op, db1) →
  ∃ r, r ∈ operations db1 ∧ stored r op ∧ op_state op = OperationState.Executing ∧ op_id op = id.
Proof.
  intros Hi Hn H. unfold claim_execution, with_tx in H.
  match type of H with match ?c with _ => _ end = _ => destruct c as [[res db']|] eqn:Hb end;
    [|done].
  injection H as -> ->. inv_res. destruct (is_expired x now); inv_res.
  destruct (fetch_stored _ _ _ Hi Hx) as (row & t & Hr & Hs & <- & He).
  eapply transition_effect in Hx4 as (_ & _ & -> & e & _ & ->);
    [|apply Hi|exact Hr|exact Hs|by eapply en_chain|done|done].
  exists (transition_set OperationState.Executing (timestamp now) row).
  split_and!; [|by apply stored_transition|done|done].
  apply set_row_In. exists row. by rewrite String.eqb_refl.
Qed.

(** Executing and finished operations cannot be claimed. *)
Lemma claim_needs_rank eid id rid now db op :
  fetch_operation_tx id db = Ok op → (StateMachine.rank (op_state op) ≤ 1)%nat →
  ∃ error, claim_execution eid id rid now db = (Err error, db).
Proof.
  intros Hf Hrank. unfold claim_execution. rewrite Hf. cbn [mbind result_bind].
  destruct (ensure_runtime op rid) as [[]|e]; cbn [mbind result_bind]; [|by eexists].
  destruct (op_state op); cbn in Hrank; try lia; by eexists.
Qed.

Lemma approval_insertable aid op command db r :
  Inv db → r ∈ operations db → stored r op →
  (approver_kind (cmd_approver command) = OperationActorKind.LocalUser
   ∨ approver_kind (cmd_approver command) = OperationActorKind.WorkspaceUser) →
  is_blank (approver_id (cmd_approver command)) = false →
  forallb (λ a, negb (apr_id a =? uuid_to_string aid)%string) (operation_approvals db) = true →
  insert_approval (approval_row aid op command) db
  = Ok (add_approval (approval_row aid op command) db).
Proof.
  intros Hi Hr Hs Hk Hb Haid. unfold insert_approval.
  destruct (row_to_operation_columns _ _ (st_decode _ _ Hs)) as (_ & _ & Hh & Hp & _ & Hsha & _).
  pose proof (inv_check _ Hi) as Hck. rewrite Forall_forall in Hck. specialize (Hck r Hr).
  unfold operations_check in Hck. bools.
  assert (approvals_check (approval_row aid op command) = true) as ->.
  { unfold approvals_check, approval_row. cbn [apr_payload_hash apr_approver_kind apr_approver_id
      apr_decision apr_policy_revision].
    rewrite <-Hh, Hsha, lower_hex_is_sha, <-Hp. rewrite !andb_true_iff. split_and!; try done.
    - by destruct Hk as [-> | ->].
    - apply negb_true_iff, String.eqb_neq. intros Heq. by rewrite Heq in Hb.
    - by destruct (cmd_decision command).
    - by apply negb_true_iff, String.eqb_neq. }
  cbn [negb reject_if mbind result_bind].
  rewrite (existsb_false _ (operation_approvals db)).
  2: { intros a Ha. rewrite forallb_forall in Haid. apply list_elem_of_In, Haid in Ha.
       by apply negb_true_iff in Ha. }
  cbn [reject_if mbind result_bind].
  rewrite (existsb_row _ _ r) by (done || by apply st_id). done.
Qed.

(** What a successful decision went through and left behind. *)
Lemma decide_inv eid aid command db op' db' :
  Inv db → clock_ok (cmd_now command) → decide_approval eid aid command db = (Ok op', db') →
  ∃ op, (get (cmd_operation_id command) db = Ok op
    ∧ op' = transitioned (decided_state (cmd_decision command)) (cmd_now command) op
    ∧ (approver_kind (cmd_approver command) = OperationActorKind.LocalUser
       ∨ approver_kind (cmd_approver command) = OperationActorKind.WorkspaceUser)
    ∧ is_blank (approver_id (cmd_approver command)) = false
    ∧ (∀ reason, cmd_reason command = Some reason → (str_len reason ≤ MAX_REQUEST_BYTES)%N)
    ∧ op_runtime_id op = cmd_runtime_id command
    ∧ op_state op = OperationState.PendingApproval
    ∧ op_payload_hash op = cmd_expected_payload_hash command
    ∧ op_policy_revision op = cmd_current_policy_revision command
    ∧ is_expired op (cmd_now command) = false)
    ∧ get (cmd_operation_id command) db' = Ok op'
    ∧ operation_approvals db' = operation_approvals db ++ [approval_row aid op command].
Proof.
  intros Hi Hn H. unfold decide_approval, with_tx in H.
  match type of H with match ?c with _ => _ end = _ => destruct c as [[res d]|] eqn:Hb end; [|done].
  injection H as -> ->. inv_res. bools. rename x1 into op.
  destruct (is_expired op (cmd_now command)) eqn:Hex; inv_res.
  destruct (fetch_stored _ _ _ Hi Hx1) as (row & t & Hr & Hs & Hid & He).
  unfold insert_approval in *. inv_res.
  assert (get (cmd_operation_id command) db' = Ok op') as Hget.
  { unfold transition_tx in Hx6. inv_res. apply get_fetch. by rewrite <-Hid. }
  eapply transition_effect in Hx6 as (_ & _ & -> & e & _ & Heq);
    [|apply Hi|exact Hr|exact Hs|by eapply en_chain|done|done].
  exists op. split; [|split; [exact Hget|by rewrite Heq]]. split_and!; try done.
  - by apply get_fetch.
  - destruct (approver_kind (cmd_approver command)); auto; done.
  - intros reason Hreason. rewrite Hreason in Hx0. by apply N.ltb_ge.
  - by eapply ensure_runtime_Ok.
Qed.

Lemma transition_result eid id op target details now db db' x :
  Inv db → clock_ok now → value_exact details = true → target ≠ OperationState.Executing →
  fetch_operation_tx id db = Ok op → transition_tx eid op target details now db = Ok (x, db') →
  get id db' = Ok (transitioned target now op).
Proof.
  intros Hi Hn Hd Hne Hf H. destruct (fetch_stored _ _ _ Hi Hf) as (r & t & Hr & Hs & <- & He).
  pose proof H as H'. eapply transition_tx_micro in H as (_ & -> & _); try done.
  unfold transition_tx in H'. inv_res. by apply get_fetch.
Qed.
End facts.

(** C4. An operation that may change the target database has an event saying it
    executed only if the database holds an approval of exactly its payload hash
    and policy revision by an identified local or workspace user, and both the
    approval and the start precede the operation's expiry. *)
Theorem mutation_requires_exact_approval {P : Platform} {L : PlatformLaws P} {SD : Serde} db r op e :
  reachable db → r ∈ operations db → row_to_operation r = Ok op →
  OperationKind.may_mutate_target (op_kind op) = true →
  e ∈ events_of (row_id r) db →
  evr_event_kind e = "execution_started" ∨ evr_state e = "executing" →
  ∃ started a ar, op_started_at op = Some started
    ∧ a ∈ operation_approvals db ∧ row_to_approval a = Ok ar
    ∧ ar_operation_id ar = op_id op
    ∧ ar_decision ar = OperationApprovalDecision.Approved
    ∧ ar_payload_hash ar = op_payload_hash op
    ∧ ar_policy_revision ar = op_policy_revision op
    ∧ (approver_kind (ar_approver ar) = OperationActorKind.LocalUser
       ∨ approver_kind (ar_approver ar) = OperationActorKind.WorkspaceUser)
    ∧ is_blank (approver_id (ar_approver ar)) = false
    ∧ (∀ t, op_expires_at op = Some t → ar_created_at ar < t ∧ started < t).
Proof.
  intros Hr Hin Hd Hm He Hk.
  destruct (execution_event_justified _ _ _ _ Hr Hin Hd He Hk) as [(started & Hst & Hexp & Ha) Hall].
  destruct (Ha Hm) as (a & Hina & Hex).
  rewrite Forall_forall in Hall. destruct (Hall a Hina) as (ar & Hdec & H1 & H2 & H3 & H4 & H5 & H6 & H7).
  exists started, a, ar. split_and!; try done.
  - unfold approvals_of in Hina. apply list_elem_of_In, filter_In in Hina as [Hina _].
    by apply list_elem_of_In.
  - unfold exact_approval in Hex. bools. apply approval_decision in Hdec.
    destruct (ar_decision ar); [done|cbn in *; congruence].
  - intros t Ht. auto.
Qed.

Lemma mutation_requires_exact_approval_witness :
  ∃ a ar, a ∈ operation_approvals (run_calls Sample.finished empty_db)
    ∧ row_to_approval a = Ok ar
    ∧ ar_decision ar = OperationApprovalDecision.Approved.
Proof.
  pose proof Sample.finished_reachable as Hreach.
  assert (match operations (run_calls Sample.finished empty_db) with
          | r :: _ => match row_to_operation r, events_of (row_id r) (run_calls Sample.finished empty_db) !! 3%nat with
                      | Ok op, Some e => OperationKind.may_mutate_target (op_kind op)
                          && (evr_event_kind e =? "execution_started")%string
                      | _, _ => false
                      end
          | [] => false
          end = true) as Hc by (vm_compute; reflexivity).
  revert Hreach Hc. generalize (run_calls Sample.finished empty_db). intros db Hreach Hc.
  destruct (operations db) as [|r l] eqn:Hr; [done|].
  destruct (row_to_operation r) as [op|] eqn:Hop; [|done].
  destruct (_ !! _) as [e|] eqn:He; [|done]. bools.
  destruct (mutation_requires_exact_approval db r op e) as (started & a & ar & H1 & H2 & H3 & _ & H4 & _);
    [done|rewrite Hr; by left|done|done|by eapply list_elem_of_lookup_2|by left|].
  by exists a, ar.
Defined.

(** C25. Refinement of the lifecycle: in every reachable database the events of
    an operation decode, in sequence order, to a run of the state machine that
    starts with [Planned] and ends in the state of the operation's row; the row
    carries a finish time exactly when that state is terminal. *)
Theorem ledger_refines_lifecycle {P : Platform} {L : PlatformLaws P} {SD : Serde} db r :
  reachable db → r ∈ operations db →
  ∃ op evs, row_to_operation r = Ok op ∧ events (op_id op) db = Ok evs
    ∧ lifecycle (map (λ ev, (ev_kind ev, ev_state ev)) evs) (op_state op)
    ∧ (is_Some (op_finished_at op) ↔ OperationState.is_terminal (op_state op) = true).
Proof.
  intros Hi%reachable_Inv Hr. destruct (inv_entry _ Hi r Hr) as (op & t & Hs & [Hc Hl _ _ Hf]).
  destruct (chain_decode _ _ _ Hc) as (evs & Hd & Ht & _); [right; by eapply lifecycle_first|].
  exists op, evs. split_and!; try done; [by apply st_decode| |by rewrite Ht].
  unfold events. rewrite <-(st_id _ _ Hs), (chain_sorted _ _ _ Hc). done.
Qed.

Lemma ledger_refines_lifecycle_witness :
  ∃ op evs, events (op_id op) (run_calls Sample.finished empty_db) = Ok evs
    ∧ lifecycle (map (λ ev, (ev_kind ev, ev_state ev)) evs) (op_state op).
Proof.
  pose proof Sample.finished_reachable as Hreach.
  assert (length (operations (run_calls Sample.finished empty_db)) = 1%nat) as Hc by (vm_compute; reflexivity).
  revert Hreach Hc. generalize (run_calls Sample.finished empty_db). intros db Hreach Hc.
  destruct (operations db) as [|r l] eqn:Hr; [done|].
  destruct (ledger_refines_lifecycle db r) as (op & evs & _ & H1 & H2 & _);
    [done|rewrite Hr; by left|]. by exists op, evs.
Defined.

(** C26. An operation is executed at most once: after a successful claim no later
    sequence of repository calls, including restarts, makes a second claim of
    the same operation succeed, and the failing claim changes nothing. *)
Theorem claim_execution_exclusive {P : Platform} {L : PlatformLaws P} {SD : Serde}
    eid id rid now db op db1 cs eid' rid' now' :
  reachable db → clock_ok now → claim_execution eid id rid now db = (Ok op, db1) →
  Forall call_ok cs →
  ∃ error, claim_execution eid' id rid' now' (run_calls cs db1) = (Err error, run_calls cs db1).
Proof.
  intros Hreach Hn Hclaim Hcs. pose proof (reachable_Inv _ Hreach) as Hi.
  assert (Inv db1) as Hi1.
  { eapply Inv_micros; [|exact Hi]. replace db1 with (claim_execution eid id rid now db).2
      by (by rewrite Hclaim). by apply claim_steps. }
  destruct (claim_started _ _ _ _ _ _ _ Hi Hn Hclaim) as (r1 & Hr1 & Hs1 & Hst1 & <-).
  destruct (calls_steps cs db1 Hi1 Hcs) as [Hm Hi2].
  destruct (grows_row _ _ _ (grows_micros _ _ Hi1 Hm) Hr1) as (r2 & Hr2 & Hid & _ & s & s' & H1 & H2 & Hss).
  destruct (inv_entry _ Hi2 r2 Hr2) as (op2 & t2 & Hs2 & _).
  destruct (row_to_operation_columns _ _ (st_decode _ _ Hs1)) as (Hq1 & _).
  destruct (row_to_operation_columns _ _ (st_decode _ _ Hs2)) as (Hq2 & _).
  assert (StateMachine.rank (op_state op2) ≤ 1)%nat as Hrank.
  { apply steps_rank in Hss. rewrite (state_str_inj s (op_state op)) in Hss by congruence.
    rewrite (state_str_inj s' (op_state op2)) in Hss by congruence. by rewrite Hst1 in Hss. }
  apply (claim_needs_rank _ _ _ _ _ op2); [|done].
  apply get_fetch. replace (op_id op) with (op_id op2); [by eapply stored_get|].
  apply (inj uuid_to_string). by rewrite <-(st_id _ _ Hs2), <-(st_id _ _ Hs1).
Qed.

Lemma claim_execution_exclusive_witness :
  ∃ op db error,
    claim_execution (Sample.uid 15) (Sample.uid 1) Sample.runtime 30 (run_calls Sample.approved empty_db)
    = (Ok op, db)
    ∧ claim_execution (Sample.uid 18) (Sample.uid 1) Sample.runtime 31 db = (Err error, db).
Proof.
  pose proof Sample.approved_reachable as Hreach.
  assert (is_ok (claim_execution (Sample.uid 15) (Sample.uid 1) Sample.runtime 30
    (run_calls Sample.approved empty_db)).1 = true) as Hc by (vm_compute; reflexivity).
  destruct (claim_execution _ _ _ 30 _) as [[op|e] db] eqn:He; [|done].
  destruct (claim_execution_exclusive (Sample.uid 15) (Sample.uid 1) Sample.runtime 30
    (run_calls Sample.approved empty_db) op db [] (Sample.uid 18) Sample.runtime 31) as (error & H);
    [done|by apply (bool_decide_unpack _)|done|constructor|].
  exists op, db, error. split; [reflexivity|exact H].
Defined.

(** [claim_execution] in full: it succeeds exactly for an unexpired
    operation of the calling runtime that is [Ready] and cannot mutate its
    target, or [Approved] with a current approval of its exact payload and
    policy; the result is the record in state [Executing], started now. *)
Theorem claim_execution_iff {P : Platform} {L : PlatformLaws P} {SD : Serde}
    eid id rid now db op' :
  reachable db → clock_ok now → fresh_event eid db = true → room id db →
  (∀ op, get id db = Ok op → fits (VObject [("payloadHash", VString (op_payload_hash op))])) →
  (claim_execution eid id rid now db).1 = Ok op' ↔
  ∃ op, get id db = Ok op ∧ op' = transitioned OperationState.Executing now op
    ∧ op_runtime_id op = rid ∧ is_expired op now = false
    ∧ (op_state op = OperationState.Ready
         ∧ OperationKind.may_mutate_target (op_kind op) = false
       ∨ op_state op = OperationState.Approved
         ∧ ∃ a, a ∈ operation_approvals db ∧ exact_approval op (timestamp now) a = true).
Proof.
  intros Hi%reachable_Inv Hn Hfresh Hroom Hfits. split.
  - intros H. unfold claim_execution, with_tx in H.
    match type of H with (match ?c with _ => _ end).1 = _ => destruct c as [[res db']|] eqn:Hb end;
      [|done].
    cbn in H. subst res. inv_res. destruct (is_expired x now) eqn:Hex; inv_res.
    destruct (fetch_stored _ _ _ Hi Hx) as (row & t & Hr & Hs & <- & He).
    eapply transition_effect in Hx4 as (_ & _ & -> & _);
      [|apply Hi|exact Hr|exact Hs|by eapply en_chain|done|done].
    exists x. apply get_fetch in Hx. apply ensure_runtime_Ok in Hx0.
    split_and!; try done. apply negb_false_iff in Hx1.
    destruct (op_state x) eqn:Est; try done; [left|right]; (split; [done|]).
    + by rewrite bool_decide_true in Hx2.
    + rewrite bool_decide_true in Hx3 by done. apply negb_false_iff, existsb_exists in Hx3.
      destruct Hx3 as (a & Ha & Hea). exists a. by rewrite list_elem_of_In.
  - intros (op & Hget & -> & Hrt & Hex & Hst).
    destruct (get_stored _ _ _ Hi Hget) as (r & t & Hr & Hs & <- & Hf & He).
    assert (StateMachine.step (op_state op) OperationState.Executing) as Hstep
      by (destruct Hst as [[-> _]|[-> _]]; done).
    destruct (transition_tx_total eid op OperationState.Executing
      (VObject [("payloadHash", VString (op_payload_hash op))]) now db r) as [db' Htx]; try done.
    { by apply Hfits. }
    unfold claim_execution. rewrite Hf. cbn [mbind result_bind].
    rewrite (proj2 (ensure_runtime_Ok op rid tt) Hrt). cbn [mbind result_bind].
    rewrite Hex. destruct Hst as [[Hst Hm]|[Hst (a & Ha & Hea)]]; rewrite Hst.
    + rewrite Hm. cbn. by rewrite Htx.
    + cbn. assert (existsb (exact_approval op (timestamp now)) (operation_approvals db) = true) as ->.
      { apply existsb_exists. exists a. by rewrite <-list_elem_of_In. }
      cbn. by rewrite Htx.
Qed.

Lemma claim_execution_iff_witness :
  ∃ op op', get (Sample.uid 1) (run_calls Sample.approved empty_db) = Ok op
    ∧ (claim_execution (Sample.uid 15) (Sample.uid 1) Sample.runtime 30
         (run_calls Sample.approved empty_db)).1 = Ok op'
    ∧ op' = transitioned OperationState.Executing 30 op.
Proof.
  pose proof Sample.approved_reachable as Hreach.
  assert (is_ok (claim_execution (Sample.uid 15) (Sample.uid 1) Sample.runtime 30
    (run_calls Sample.approved empty_db)).1 = true) as Hc by (vm_compute; reflexivity).
  assert (match get (Sample.uid 1) (run_calls Sample.approved empty_db) with
          | Ok op => match canonical_json (VObject [("payloadHash", VString (op_payload_hash op))]) with
                     | Ok text => (str_len text <=? MAX_RESPONSE_BYTES)%N | Err _ => false end
          | Err _ => false end = true) as Hf by (vm_compute; reflexivity).
  assert (fresh_event (Sample.uid 15) (run_calls Sample.approved empty_db) = true) as Hfr
    by (vm_compute; reflexivity).
  assert (room (Sample.uid 1) (run_calls Sample.approved empty_db)) as Hroom by (vm_compute; reflexivity).
  revert Hreach Hc Hf Hfr Hroom. generalize (run_calls Sample.approved empty_db).
  intros db Hreach Hc Hf Hfr Hroom.
  destruct (claim_execution _ _ _ 30 db).1 as [op'|] eqn:He; [|done].
  apply (claim_execution_iff (Sample.uid 15) (Sample.uid 1) Sample.runtime 30 db op') in He
    as (op & Hget & Heq & _); [|done|by apply (bool_decide_unpack _)|done|done|].
  - by exists op, op'.
  - intros op Hop. rewrite Hop in Hf. destruct (canonical_json _) as [text|] eqn:Ht; [|done].
    exists text. split; [done|]. by apply N.leb_le.
Defined.

(** C27. Every operation of a reachable database passes [verify_event_chain]. *)
Theorem verify_event_chain_reachable {P : Platform} {L : PlatformLaws P} {SD : Serde} db r :
  reachable db → r ∈ operations db →
  ∃ op, row_to_operation r = Ok op ∧ verify_event_chain (op_id op) db = Ok true.
Proof.
  intros Hi%reachable_Inv Hr. destruct (inv_entry _ Hi r Hr) as (op & t & Hs & [Hc Hl _ _ Hf]).
  destruct (chain_decode _ _ _ Hc) as (evs & Hd & Ht & Hv & Hlen & _); [right; by eapply lifecycle_first|].
  exists op. split; [by apply st_decode|]. unfold verify_event_chain, events.
  rewrite (stored_get _ _ _ Hi Hr Hs), <-(st_id _ _ Hs), (chain_sorted _ _ _ Hc), Hd.
  cbn [mbind result_bind].
  destruct (lifecycle_last _ _ Hl) as [k Hlast]. rewrite <-Ht in Hlast.
  destruct evs as [|ev evs _] using rev_ind; [done|].
  rewrite map_app in Hlast. cbn [map] in Hlast. rewrite last_snoc in Hlast.
  injection Hlast as _ Hst.
  assert ((length (evs ++ [ev]) =? 0)%nat = false) as ->.
  { apply Nat.eqb_neq. rewrite length_app. cbn. lia. }
  rewrite Hv. cbn [mbind result_bind]. rewrite last_snoc, Hst. by rewrite bool_decide_true.
Qed.

Lemma verify_event_chain_reachable_witness :
  ∃ op, verify_event_chain (op_id op) (run_calls Sample.finished empty_db) = Ok true.
Proof.
  pose proof Sample.finished_reachable as Hreach.
  assert (length (operations (run_calls Sample.finished empty_db)) = 1%nat) as Hc by (vm_compute; reflexivity).
  revert Hreach Hc. generalize (run_calls Sample.finished empty_db). intros db Hreach Hc.
  destruct (operations db) as [|r l] eqn:Hr; [done|].
  destruct (verify_event_chain_reachable db r) as (op & _ & H);
    [done|rewrite Hr; by left|]. by exists op.
Defined.

(** C28. Tamper evidence: when the event histories of an operation in two
    databases both verify and end in the same hash, they agree event by event
    in every hashed field, or the hashed texts of an event of one and an event of
    the other are a SHA-256 collision.
    So an edited, dropped, inserted or reordered event is detected by comparing
    one hash. *)
Theorem event_chain_tamper_evident {P : Platform} {L : PlatformLaws P} {SD : Serde}
    id db db' evs evs' :
  verify_event_chain id db = Ok true → verify_event_chain id db' = Ok true →
  events id db = Ok evs → events id db' = Ok evs' →
  Forall record_ok evs → Forall record_ok evs' →
  ev_hash <$> last evs = ev_hash <$> last evs' →
  Forall2 same_event evs evs' ∨ events_collide evs evs'.
Proof.
  intros Hv Hv' He He' Ho Ho' Hl.
  assert (∀ db evs, verify_event_chain id db = Ok true → events id db = Ok evs →
    verify_events 0 None evs = Ok true) as Hver.
  { clear. intros db evs Hv He. unfold verify_event_chain in Hv. inv_res. rewrite He in Hx0.
    injection Hx0 as ->. destruct (length x0 =? 0)%nat; [done|]. inv_res.
    destruct x1; [done|]. by inv_res. }
  apply verified_chain_determined; eauto.
Qed.

Lemma event_chain_tamper_evident_witness :
  ∃ evs, events (Sample.uid 1) (run_calls Sample.finished empty_db) = Ok evs
    ∧ (Forall2 same_event evs evs ∨ events_collide evs evs).
Proof.
  pose proof Sample.finished_reachable as Hreach.
  assert (match verify_event_chain (Sample.uid 1) (run_calls Sample.finished empty_db) with
          | Ok b => b | _ => false end = true) as Hv by (vm_compute; reflexivity).
  assert (match events (Sample.uid 1) (run_calls Sample.finished empty_db) with
          | Ok evs => forallb (λ e, bool_decide (clock_ok (ev_created_at e))
              && (i64_min <=? ev_sequence e) && (ev_sequence e <=? i64_max)) evs
          | _ => false end = true) as He by (vm_compute; reflexivity).
  revert Hreach Hv He. generalize (run_calls Sample.finished empty_db). intros db Hreach Hv He.
  destruct (verify_event_chain _ db) as [[|]|] eqn:Hver; try done.
  destruct (events _ db) as [evs|] eqn:Hev; [|done].
  exists evs. split; [done|].
  assert (Forall record_ok evs) as Hok.
  { apply forallb_Forall in He. eapply Forall_impl; [exact He|]. cbn. intros e Hb. bools.
    split; [done|]. lia. }
  by apply (event_chain_tamper_evident (Sample.uid 1) db db evs evs).
Defined.

(** The store is append-only: a repository call keeps every operation row
    with its immutable columns, moves its state only along the state machine,
    and never removes or rewrites an event or an approval. *)
Theorem calls_append_only {P : Platform} {L : PlatformLaws P} {SD : Serde} db c :
  reachable db → call_ok c → grows db (run_call c db).
Proof.
  intros Hi%reachable_Inv Hc. apply grows_micros; [done|]. by apply run_call_steps.
Qed.

Lemma calls_append_only_witness :
  grows (run_calls Sample.planned empty_db)
    (run_call (CallClaim (Sample.uid 15) (Sample.uid 1) Sample.runtime 30)
       (run_calls Sample.planned empty_db)).
Proof.
  pose proof Sample.planned_reachable as Hreach.
  apply (calls_append_only (run_calls Sample.planned empty_db)); [exact Hreach|].
  by apply (bool_decide_unpack _).
Defined.

(** C29. Restart recovery completes and settles every operation of an earlier
    runtime: with fresh event identifiers and room for the events it returns a
    report, each unfinished row of another runtime moves to its recovery state
    ([Expired], [Failed] or [OutcomeUnknown]; a resumable job keeps executing)
    and every other row is untouched. *)
Theorem recovery_settles_previous_runtimes {P : Platform} {L : PlatformLaws P} {SD : Serde}
    fresh clock rid db :
  reachable db → (∀ i, clock_ok (clock i)) → Inj (=) (=) fresh →
  (∀ i, fresh_event (fresh i) db = true) → Forall fits restart_details →
  (∀ r op, r ∈ operations db → stored r op → room (op_id op) db) →
  ∃ report db', recover_previous_runtimes fresh clock rid db = (Ok report, db')
    ∧ Forall2 (λ r r',
        if unfinished_of_other_runtime rid r
        then ∃ op i, row_to_operation r = Ok op ∧ r' = recovered_row (clock i) op r
        else r' = r) (operations db) (operations db').
Proof.
  intros Hi%reachable_Inv Hc Hinj Hfr Hfit Hroom.
  destruct (recover_rows_total fresh clock (recovery_rows rid db) 0 empty_report db)
    as (report & db' & H & Hf); try done.
  - by apply recovery_rows_NoDup, inv_ids.
  - apply Forall_forall. intros r [? _]%recovery_rows_in. done.
  - apply Forall_forall. intros r [? _]%recovery_rows_in op Hs. by apply (Hroom r).
  - exists report, db'. unfold recover_previous_runtimes. rewrite H. split; [done|].
    apply Forall2_same_length_lookup in Hf as [Hlen Hf]. apply Forall2_same_length_lookup.
    split; [done|]. intros i r r' H1 H2. specialize (Hf i r r' H1 H2).
    apply list_elem_of_lookup_2 in H1.
    destruct Hf as [[Hr Hx]|[Hr ->]]; rewrite recovery_rows_in in Hr.
    + by rewrite (proj2 Hr).
    + destruct (unfinished_of_other_runtime rid r) eqn:E; [|done]. by destruct Hr.
Qed.

Lemma recovery_settles_previous_runtimes_witness :
  ∃ report db', recover_previous_runtimes (λ n, Sample.uid (Pos.of_succ_nat (100 + n))) (λ _, 99) (Sample.uid 8)
    (run_calls Sample.claimed empty_db) = (Ok report, db').
Proof.
  pose proof Sample.claimed_reachable as Hreach.
  set (db0 := run_calls Sample.claimed empty_db) in *.
  assert (forallb (λ d, match canonical_json d with
    | Ok text => (str_len text <=? MAX_RESPONSE_BYTES)%N | Err _ => false end) restart_details = true)
    as Hfit by (vm_compute; reflexivity).
  assert (forallb (λ e, match Reference.read (evr_id e) with
    | Some u => (u <? 50)%positive | None => false end) (operation_events db0) = true) as Hfr
    by (vm_compute; reflexivity).
  assert ((length (operation_events db0) <? 100)%nat = true) as Hroom by (vm_compute; reflexivity).
  clearbody db0.
  destruct (recovery_settles_previous_runtimes (λ n, Sample.uid (Pos.of_succ_nat (100 + n))) (λ _, 99)
    (Sample.uid 8) db0) as (report & db' & H & _); [exact Hreach|..].
  - intros _. by apply (bool_decide_unpack _).
  - intros i j Hij. unfold Sample.uid in Hij. apply SuccNat2Pos.inj in Hij. lia.
  - intros i. unfold fresh_event. apply forallb_forall. intros e He.
    rewrite forallb_forall in Hfr. specialize (Hfr e He).
    apply negb_true_iff, String.eqb_neq. intros Heq. rewrite Heq in Hfr.
    change (uuid_to_string ?x) with (Reference.write (x : positive)) in Hfr.
    rewrite Reference.read_write in Hfr. unfold Sample.uid in Hfr.
    apply Pos.ltb_lt in Hfr. lia.
  - apply forallb_Forall in Hfit. eapply Forall_impl; [exact Hfit|]. cbn beta. intros d Hd.
    destruct (canonical_json d) as [text|] eqn:Ht; [|done].
    exists text. split; [done|]. by apply N.leb_le.
  - intros r op _ _. unfold room, events_of. pose proof (List.filter_length_le
      (λ e, evr_operation_id e =? uuid_to_string (op_id op))%string (operation_events db0)).
    apply Nat.ltb_lt in Hroom. unfold i64_max. lia.
  - by exists report, db'.
Defined.

(** Planning is idempotent: once [insert_planned] has succeeded, repeating
    it with the same request in the same runtime, after any further calls,
    returns the same operation and changes nothing. *)
Theorem insert_planned_idempotent {P : Platform} {L : PlatformLaws P} {SD : Serde}
    {SL : SerdeLaws SD} eid rid o now db op db1 cs eid' now' :
  reachable db → clock_ok now → new_operation_ok o →
  insert_planned eid rid o now db = (Ok op, db1) → Forall call_ok cs →
  ∃ op', insert_planned eid' rid o now' (run_calls cs db1) = (Ok op', run_calls cs db1)
    ∧ op_id op' = op_id op.
Proof.
  intros Hi%reachable_Inv Hn Ho H Hcs.
  assert (∃ prepared, prepare rid o = Ok prepared) as [prepared Hp].
  { unfold insert_planned, with_tx in H. destruct (prepare rid o); [by eexists|done]. }
  destruct (insert_finds _ _ _ _ _ _ _ _ Ho H Hp) as (r & Hf & Hd & Hm).
  assert (Inv db1) as Hi1.
  { eapply Inv_micros; [|exact Hi]. replace db1 with (insert_planned eid rid o now db).2
      by (by rewrite H). apply insert_steps; [done..|]. by destruct Ho as (_ & _ & _ & ?). }
  destruct (calls_steps cs db1 Hi1 Hcs) as [Hst Hi2].
  destruct (grows_micros _ _ Hi1 Hst) as [(l & new & Hl & Hev) _ _].
  destruct (find_evolves o _ _ new r Hev Hf) as (r' & Hf' & He & Hin).
  rewrite <-Hl in Hf'.
  destruct (inv_entry _ Hi2 r') as (op' & t & Hs & _).
  { rewrite Hl. apply elem_of_app. by left. }
  destruct (matches_evolves _ _ _ _ _ He Hd (st_decode _ _ Hs) Hm) as [Hm' Hid].
  exists op'. split; [|done]. unfold insert_planned, with_tx. rewrite Hp. cbn [mbind result_bind].
  rewrite Hf'. cbn [mbind result_bind]. rewrite (st_decode _ _ Hs). cbn [mbind result_bind].
  by rewrite Hm'.
Qed.

Lemma insert_planned_idempotent_witness :
  ∃ op op' db, insert_planned (Sample.uid 11) Sample.runtime Sample.operation 10 empty_db = (Ok op, db)
    ∧ insert_planned (Sample.uid 40) Sample.runtime Sample.operation 60 db = (Ok op', db).
Proof.
  assert (is_ok (insert_planned (Sample.uid 11) Sample.runtime Sample.operation 10 empty_db).1 = true)
    as Hc by (vm_compute; reflexivity).
  destruct (insert_planned _ _ _ 10 _) as [[op|e] db] eqn:He; [|done].
  destruct (insert_planned_idempotent (Sample.uid 11) Sample.runtime Sample.operation 10 empty_db
    op db [] (Sample.uid 40) 60) as (op' & H & _);
    [apply reachable_empty|by apply (bool_decide_unpack _)| |exact He|constructor|].
  - split_and!; try reflexivity. by apply (bool_decide_unpack _).
  - exists op, op', db. split; [reflexivity|exact H].
Defined.

(** [decide_approval] in full: it succeeds exactly when an identified
    local or workspace user decides, with a bounded reason, on an unexpired
    pending operation of the calling runtime and names the stored payload hash
    and policy revision; the operation is then [Approved] or [Rejected]. *)
Theorem decide_approval_iff {P : Platform} {L : PlatformLaws P} {SD : Serde}
    eid aid command db op' :
  reachable db → clock_ok (cmd_now command) → fresh_event eid db = true →
  room (cmd_operation_id command) db →
  (∀ op, get (cmd_operation_id command) db = Ok op → fits (approval_details aid op command)) →
  forallb (λ a, negb (apr_id a =? uuid_to_string aid)%string) (operation_approvals db) = true →
  (decide_approval eid aid command db).1 = Ok op' ↔
  ∃ op, get (cmd_operation_id command) db = Ok op
    ∧ op' = transitioned (decided_state (cmd_decision command)) (cmd_now command) op
    ∧ (approver_kind (cmd_approver command) = OperationActorKind.LocalUser
       ∨ approver_kind (cmd_approver command) = OperationActorKind.WorkspaceUser)
    ∧ is_blank (approver_id (cmd_approver command)) = false
    ∧ (∀ reason, cmd_reason command = Some reason → (str_len reason ≤ MAX_REQUEST_BYTES)%N)
    ∧ op_runtime_id op = cmd_runtime_id command
    ∧ op_state op = OperationState.PendingApproval
    ∧ op_payload_hash op = cmd_expected_payload_hash command
    ∧ op_policy_revision op = cmd_current_policy_revision command
    ∧ is_expired op (cmd_now command) = false.
Proof.
  intros Hi%reachable_Inv Hn Hfresh Hroom Hfits Haid. split.
  - intros H. destruct (decide_approval eid aid command db) as [res db'] eqn:Hd. cbn in H. subst res.
    apply decide_inv in Hd as (op & H & _); [|done..]. exists op. tauto.
  - intros (op & Hget & -> & Hk & Hb & Hreason & Hrt & Hst & Hh & Hp & Hex).
    destruct (get_stored _ _ _ Hi Hget) as (r & t & Hr & Hs & Hid & Hf & He).
    assert (approval_ok op (approval_row aid op command)) as Hok.
    { apply approval_row_ok; try done; [by apply (st_clock _ _ Hs)|]. by destruct Hk as [-> | ->]. }
    pose proof (Inv_approval db r op _ Hi Hr Hs Hok (eq_sym (st_id _ _ Hs))) as Hi'.
    destruct (transition_tx_total eid op (decided_state (cmd_decision command))
      (approval_details aid op command) (cmd_now command)
      (add_approval (approval_row aid op command) db) r) as [db' Htx]; try done.
    { rewrite Hst. by destruct (cmd_decision command). }
    { exact (Hfits op Hget). }
    { by rewrite Hid. }
    unfold decide_approval. rewrite Hb.
    replace (match approver_kind (cmd_approver command) with
      | OperationActorKind.LocalUser | OperationActorKind.WorkspaceUser => true | _ => false end)
      with true by (by destruct Hk as [-> | ->]).
    cbn [negb orb reject_if mbind result_bind].
    assert (match cmd_reason command with
      | Some reason => (MAX_REQUEST_BYTES <? str_len reason)%N | None => false end = false) as ->.
    { destruct (cmd_reason command) as [reason|]; [|done]. apply N.ltb_ge. by apply Hreason. }
    cbn [reject_if mbind result_bind]. rewrite Hf. cbn [mbind result_bind].
    rewrite (proj2 (ensure_runtime_Ok op (cmd_runtime_id command) tt) Hrt).
    rewrite Hst, Hh, Hp, !String.eqb_refl, bool_decide_true by done.
    cbn [negb reject_if mbind result_bind]. rewrite Hex.
    rewrite approval_insertable with (r := r) by done.
    cbn [mbind result_bind]. rewrite Htx. done.
Qed.

Lemma decide_approval_iff_witness :
  ∃ db op op', get (Sample.uid 1) db = Ok op
    ∧ (decide_approval (Sample.uid 13) (Sample.uid 14) Sample.approval db).1 = Ok op'
    ∧ op' = transitioned OperationState.Approved 20 op.
Proof.
  pose proof Sample.pending_reachable as Hreach.
  set (db0 := run_calls Sample.pending empty_db) in *.
  assert (is_ok (decide_approval (Sample.uid 13) (Sample.uid 14) Sample.approval db0).1 = true) as Hc
    by (vm_compute; reflexivity).
  assert (match get (Sample.uid 1) db0 with
          | Ok op => match canonical_json (approval_details (Sample.uid 14) op Sample.approval) with
                     | Ok text => (str_len text <=? MAX_RESPONSE_BYTES)%N | Err _ => false end
          | Err _ => false end = true) as Hf by (vm_compute; reflexivity).
  assert (fresh_event (Sample.uid 13) db0 && forallb (λ a, negb (apr_id a =?
    uuid_to_string (Sample.uid 14))%string) (operation_approvals db0) = true) as Hfr by (vm_compute; reflexivity).
  assert (room (Sample.uid 1) db0) as Hroom by (vm_compute; reflexivity).
  clearbody db0. apply andb_true_iff in Hfr as [Hfr Hap].
  destruct (decide_approval _ _ Sample.approval db0).1 as [op'|] eqn:He; [|done].
  assert (∀ op, get (cmd_operation_id Sample.approval) db0 = Ok op →
    fits (approval_details (Sample.uid 14) op Sample.approval)) as Hfits.
  { intros op Hop. change (cmd_operation_id Sample.approval) with (Sample.uid 1) in Hop.
    rewrite Hop in Hf. destruct (canonical_json _) as [text|] eqn:Ht; [|done].
    exists text. split; [done|]. by apply N.leb_le. }
  pose proof (proj1 (decide_approval_iff (Sample.uid 13) (Sample.uid 14) Sample.approval db0 op'
    Hreach ltac:(by apply (bool_decide_unpack _)) Hfr Hroom Hfits Hap) He) as (op & Hget & Heq & _).
  exists db0, op, op'. split; [exact Hget|]. split; [exact He|exact Heq].
Defined.

(** A refused claim or decision leaves the database unchanged, unless the
    operation had expired: then exactly its expiry is recorded. *)
Theorem refusals_change_nothing {P : Platform} {L : PlatformLaws P} {SD : Serde} db :
  reachable db →
  (∀ eid id rid now error db', clock_ok now →
     claim_execution eid id rid now db = (Err error, db') →
     db' = db ∨ ∃ op, get id db = Ok op ∧ is_expired op now = true
       ∧ get id db' = Ok (transitioned OperationState.Expired now op)) ∧
  (∀ eid aid command error db', clock_ok (cmd_now command) →
     decide_approval eid aid command db = (Err error, db') →
     db' = db ∨ ∃ op, get (cmd_operation_id command) db = Ok op
       ∧ is_expired op (cmd_now command) = true
       ∧ get (cmd_operation_id command) db'
         = Ok (transitioned OperationState.Expired (cmd_now command) op)).
Proof.
  intros Hi%reachable_Inv. split.
  - intros eid id rid now error db' Hn H. unfold claim_execution, with_tx in H.
    match type of H with match ?c with _ => _ end = _ => destruct c as [[res db1]|] eqn:Hb end;
      injection H as H <-; [right|by left].
    subst res. inv_res. rename x into op. destruct (is_expired op now) eqn:Hex; inv_res; [|done].
    exists op. split; [by apply get_fetch|]. split; [done|].
    eapply transition_result; [exact Hi|exact Hn|..|eassumption]; try eassumption; done.
  - intros eid aid command error db' Hn H. unfold decide_approval, with_tx in H.
    match type of H with match ?c with _ => _ end = _ => destruct c as [[res db1]|] eqn:Hb end;
      injection H as H <-; [right|by left].
    subst res. inv_res. rename x1 into op. destruct (is_expired op (cmd_now command)) eqn:Hex; inv_res; [|done].
    exists op. split; [by apply get_fetch|]. split; [done|].
    eapply transition_result; [exact Hi|exact Hn|..|eassumption]; try eassumption; done.
Qed.

Lemma refusals_change_nothing_witness :
  ∃ error, claim_execution (Sample.uid 15) (Sample.uid 1) Sample.runtime 30
      (run_calls Sample.planned empty_db) = (Err error, run_calls Sample.planned empty_db).
Proof.
  pose proof Sample.planned_reachable as Hreach.
  set (db0 := run_calls Sample.planned empty_db) in *.
  assert (match get (Sample.uid 1) db0 with Ok op => is_expired op 30 | _ => true end = false) as Hex
    by (vm_compute; reflexivity).
  assert (is_ok (claim_execution (Sample.uid 15) (Sample.uid 1) Sample.runtime 30 db0).1 = false)
    as Hc by (vm_compute; reflexivity).
  clearbody db0.
  destruct (claim_execution _ _ _ 30 db0) as [[op|error] db'] eqn:He; [done|].
  destruct (refusals_change_nothing db0 Hreach) as [Hclaim _].
  assert (clock_ok 30) as H30 by (by apply (bool_decide_unpack _)).
  destruct (Hclaim _ _ _ _ _ _ H30 He) as [->|(op & Hget & Hx & _)].
  - by exists error.
  - rewrite Hget in Hex. congruence.
Defined.
