(* ===== verification/RuntimeTheorems.v ===== *)
(** * What the Operation Runtime facade guarantees

    Every database its methods produce, in any interleaving and across any
    number of application runtimes, is a reachable one in which no mutating
    operation is [Ready] and every [Approved] operation has its approval; a
    grant names the stored payload by its digest. *)

From S2P Require Export Runtime OperationTheorems.

Section activity.
Context {P : Platform} {L : PlatformLaws P} {SD : Serde} {SL : SerdeLaws SD}.

(** What the application does to the database: its runtimes' method calls, with
    the calls of other tasks between the two transactions of a plan. *)
Inductive activity : LocalDb → LocalDb → Prop :=
| act_none db : activity db db
| act_plan e e' n n' others self o d db db' :
    clock_ok n → clock_ok n' → new_operation_ok o →
    activity (insert_planned e (rt_runtime_id self) o n db).2
      (others (insert_planned e (rt_runtime_id self) o n db).2) →
    activity (plan e e' n n' others self o d db).2 db' → activity db db'
| act_approve e a n self authority request db db' :
    clock_ok n → activity (approve_exact e a n self authority request db).2 db' →
    activity db db'
| act_reject e a n self authority request db db' :
    clock_ok n → activity (reject_exact e a n self authority request db).2 db' →
    activity db db'
| act_claim e n self id db db' :
    clock_ok n → activity (claim e n self id db).2 db' → activity db db'
| act_progress e n self id details db db' :
    clock_ok n → value_exact details = true →
    activity (progress e n self id details db).2 db' → activity db db'
| act_finish e n self id target details db db' :
    clock_ok n → value_exact details = true → OperationState.is_terminal target = true →
    activity (finish e n self id target details db).2 db' → activity db db'
| act_recover fresh clock self db db' :
    (∀ i, clock_ok (clock i)) → activity (recover fresh clock self db).2 db' → activity db db'.

(** A plan and an approval with no other task running. *)
Lemma activity_plan e e' n n' self o d db :
  clock_ok n → clock_ok n' → new_operation_ok o →
  activity db (plan e e' n n' (λ x, x) self o d db).2.
Proof.
  intros. eapply (act_plan e e' n n' (λ x, x) self o d); [done..|apply act_none|apply act_none].
Qed.

Lemma activity_plan_approve e e' n n' self o d e2 a n2 authority request db :
  clock_ok n → clock_ok n' → new_operation_ok o → clock_ok n2 →
  activity db (approve_exact e2 a n2 self authority request
                 (plan e e' n n' (λ x, x) self o d db).2).2.
Proof.
  intros. eapply (act_plan e e' n n' (λ x, x) self o d); [done..|apply act_none|].
  eapply act_approve; [done|apply act_none].
Qed.

Definition row_mutates (r : OperationRow) : bool :=
  match parse_operation_kind (row_operation_kind r) with
  | Some k => OperationKind.may_mutate_target k
  | None => false
  end.

Lemma row_mutates_immutable r r' :
  immutable_columns r = immutable_columns r' → row_mutates r' = row_mutates r.
Proof. intros [=]. unfold row_mutates. by replace (row_operation_kind r') with (row_operation_kind r). Qed.

Lemma approves_immutable r r' a :
  immutable_columns r = immutable_columns r' → row_id r = row_id r' →
  approves r a → approves r' a.
Proof. intros [=] ? (? & ? & ? & ?). unfold approves. split_and!; congruence. Qed.

Definition row_safe (db : LocalDb) (r : OperationRow) : Prop :=
  (row_state r = "ready" → row_mutates r = false)
  ∧ (row_state r = "approved" → ∃ a, a ∈ operation_approvals db ∧ approves r a).

Record safe (db : LocalDb) : Prop := {
  safe_reachable : reachable db;
  safe_rows r : r ∈ operations db → row_safe db r;
}.

Lemma safe_empty : safe empty_db.
Proof. split; [constructor|]. intros r Hr. by apply elem_of_nil in Hr. Qed.

(** A call that moves rows only into states it justifies keeps the database safe. *)
Lemma safe_call c db :
  safe db → call_ok c →
  (∀ r s, r ∈ operations db → targets c (run_call c db) r s →
     (s = OperationState.Ready → row_mutates r = false)
     ∧ (s = OperationState.Approved →
        ∃ a, a ∈ operation_approvals (run_call c db) ∧ approves r a)) →
  safe (run_call c db) ∧ grows db (run_call c db).
Proof.
  intros [Hr Hs] Hc Ht. pose proof (reachable_Inv _ Hr) as Hi.
  assert (grows db (run_call c db)) as Hg by (by apply grows_micros, run_call_steps).
  split; [|done]. split; [by constructor|]. intros r' Hr'.
  destruct (run_call_moved c db Hi Hc r' Hr') as [(r & Hin & Him & Hid & Hst)|Hst].
  - pose proof (row_mutates_immutable _ _ Him) as Hm.
    pose proof (λ a, approves_immutable _ _ a Him Hid) as Ha.
    destruct Hst as [Hst|(s & Hok & Hst)].
    + destruct (Hs r Hin) as [H1 H2]. split; rewrite Hst.
      * rewrite Hm. auto.
      * intros H. destruct (H2 H) as (a & Hia & Hap). exists a. split; [|auto].
        by eapply grows_approval_in.
    + destruct (Ht r s Hin Hok) as [H1 H2]. split; rewrite Hst; intros H.
      * rewrite Hm. apply H1. by apply state_str_inj.
      * destruct H2 as (a & Hia & Hap); [by apply state_str_inj|]. exists a. auto.
  - split; rewrite Hst; done.
Qed.

Ltac plain_targets :=
  let H := fresh in intros ? ? ? H; cbn in H; destruct_and?; destruct_or?; subst; done.

Lemma safe_finish e n self id target details db :
  safe db → clock_ok n → value_exact details = true → OperationState.is_terminal target = true →
  safe (finish e n self id target details db).2
  ∧ grows db (finish e n self id target details db).2.
Proof.
  intros Hs Hn Hd Ht.
  apply (safe_call (CallTransition e id (rt_runtime_id self) target details n)); [done..|].
  intros r s _ (_ & -> & _). split; intros ->; done.
Qed.

Lemma safe_decide e a command db :
  safe db → clock_ok (cmd_now command) →
  safe (decide_approval e a command db).2 ∧ grows db (decide_approval e a command db).2.
Proof.
  intros Hs Hn. apply (safe_call (CallDecide e a command)); [done..|].
  intros r s _ (_ & Ht). split; intros ->; [naive_solver|].
  destruct Ht as [?|[?|(_ & Ht)]]; done.
Qed.

Lemma safe_refl db : safe db → safe db ∧ grows db db.
Proof. intros Hs. split; [done|]. by apply grows_refl, reachable_Inv, Hs. Qed.

Lemma and_then_state {St A B} (m : effect St A) (k : A → St → effect St B) :
  (∀ a s, (k a s).2 = s) → (and_then m k).2 = m.2.
Proof. intros Hk. destruct m as [[a|e] s]; cbn; auto. Qed.

Lemma claim_state e n self id db :
  (claim e n self id db).2 = (claim_execution e id (rt_runtime_id self) n db).2.
Proof. unfold claim. apply and_then_state. intros a s. by destruct (issue a). Qed.

Lemma progress_state e n self id details db :
  (progress e n self id details db).2
  = (append_progress e id (rt_runtime_id self) details n db).2.
Proof. unfold progress. by apply and_then_state. Qed.

(** The record a successful [insert_planned] returns is stored and matches. *)
Lemma insert_record e rid o n db op db1 :
  new_operation_ok o → insert_planned e rid o n db = (Ok op, db1) →
  ∃ prepared r, prepare rid o = Ok prepared ∧ matches prepared op = true
    ∧ r ∈ operations db1 ∧ row_to_operation r = Ok op.
Proof.
  intros Ho H. pose proof H as H'. unfold insert_planned, with_tx in H'.
  destruct (prepare rid o) as [prepared|] eqn:Hp; cbn in H'; [|done]. clear H'.
  destruct (insert_finds _ _ _ _ _ _ _ _ Ho H Hp) as (r & Hf & Hd & Hm).
  apply find_some in Hf as [Hin _]. apply list_elem_of_In in Hin. eauto 10.
Qed.

Lemma matches_kind prepared op :
  matches prepared op = true → op_kind op = new_kind (po_operation prepared)
  ∧ op_payload_hash op = cj_sha256 (po_payload prepared).
Proof. unfold matches. intros H. bools. done. Qed.

Lemma row_mutates_record r op :
  row_to_operation r = Ok op → row_mutates r = OperationKind.may_mutate_target (op_kind op).
Proof.
  intros H. destruct (row_to_operation_columns _ _ H) as (_ & Hk & _).
  unfold row_mutates. rewrite Hk. by rewrite (proj2 (kind_codec _ _) eq_refl).
Qed.

Lemma safe_plan e e' n n' others self o d db :
  safe db → clock_ok n → clock_ok n' → new_operation_ok o →
  (∀ db1, db1 = (insert_planned e (rt_runtime_id self) o n db).2 → safe db1 →
     safe (others db1) ∧ grows db1 (others db1)) →
  safe (plan e e' n n' others self o d db).2 ∧ grows db (plan e e' n n' others self o d db).2.
Proof.
  intros Hs Hn Hn' Ho Hot. unfold plan.
  destruct (_ && _) eqn:Hg; [by apply safe_refl|].
  assert (call_ok (CallInsert e (rt_runtime_id self) o n)) as Hc by (split; [done|apply Ho]).
  destruct (safe_call _ db Hs Hc) as [Hs1 Hg1]; [by intros ? ? ? []|]. cbn [run_call] in *.
  destruct (insert_planned e (rt_runtime_id self) o n db) as [[planned|error] db1] eqn:Hins;
    cbn in *; [|done].
  case_match; [done|].
  destruct (Hot db1 eq_refl Hs1) as [Hs2 Hg2].
  edestruct (safe_call (CallTransition e' (op_id planned) (rt_runtime_id self)
    (disposed_state d) (VObject [("disposition", VString (disposition_str d))]) n') (others db1))
    as [Hs3 Hg3]; [done| | |].
  - split; [done|]. by destruct d.
  - intros r s Hr (Hid & -> & _). destruct d; cbn; [|by split].
    split; [|done]. intros _. cbn in Hg. rewrite andb_true_r in Hg.
    destruct (insert_record _ _ _ _ _ _ _ Ho Hins) as (prepared & r0 & Hp & Hm & Hr0 & Hd0).
    apply matches_kind in Hm as [Hk _]. apply prepare_operation in Hp as (Hpo & _).
    rewrite Hpo in Hk.
    destruct (grows_row _ _ _ Hg2 Hr0) as (r1 & Hr1 & Hid1 & Hc1 & _).
    assert (r = r1) as ->.
    { eapply row_unique; [apply (inv_ids _ (reachable_Inv _ (safe_reachable _ Hs2)))|done..|].
      rewrite Hid, <-Hid1. destruct (inv_entry _ (reachable_Inv _ (safe_reachable _ Hs1)) _ Hr0)
        as (op' & t & Hst & _). assert (op' = planned) as -> by (pose proof (st_decode _ _ Hst); congruence).
      symmetry. by apply st_id. }
    apply immutable_changed_false in Hc1. rewrite (row_mutates_immutable _ _ Hc1).
    by rewrite (row_mutates_record _ _ Hd0), Hk.
  - split; [exact Hs3|]. etrans; [exact Hg1|]. etrans; [exact Hg2|exact Hg3].
Qed.

Lemma safe_authorised (b : AppResult unit) (k : LocalDb → effect LocalDb OperationRecord) db :
  safe db → (safe (k db).2 ∧ grows db (k db).2) →
  safe (and_then (pure_step b db) (λ _ s, k s)).2
  ∧ grows db (and_then (pure_step b db) (λ _ s, k s)).2.
Proof. intros Hs Hk. destruct b; cbn; [done|by apply safe_refl]. Qed.

Lemma safe_step db db1 db' :
  safe db1 ∧ grows db db1 → (safe db1 → safe db' ∧ grows db1 db') → safe db' ∧ grows db db'.
Proof. intros [H1 H2] H. destruct (H H1). split; [done|by etrans]. Qed.

Lemma activity_safe db db' : activity db db' → safe db → safe db' ∧ grows db db'.
Proof.
  induction 1; intros Hs; [by apply safe_refl|..];
    (eapply safe_step; [|by eauto]).
  - apply safe_plan; try done. intros db1 ->. auto.
  - apply safe_authorised; [done|]. by apply safe_decide.
  - apply safe_authorised; [done|]. by apply safe_decide.
  - rewrite claim_state. apply (safe_call (CallClaim e id (rt_runtime_id self) n)); [done..|].
    plain_targets.
  - rewrite progress_state.
    apply (safe_call (CallProgress e id (rt_runtime_id self) details n)); [done..|]. by intros ? ? ? [].
  - by apply safe_finish.
  - apply (safe_call (CallRecover fresh clock (rt_runtime_id self))); [done..|]. plain_targets.
Qed.
End activity.

Section facade.
Context {P : Platform} {L : PlatformLaws P} {SD : Serde} {SL : SerdeLaws SD}.

(** The stored hash is the canonical hash of the stored payload. *)
Lemma record_payload_hash r op :
  row_to_operation r = Ok op → canonical_hash (op_payload op) = Ok (op_payload_hash op).
Proof.
  intros H. destruct (row_to_operation_columns _ _ H) as (_ & _ & Hh & _ & _ & _ & Hf & Hj).
  apply from_stored_Ok in Hf as (v & Hv & Hc & _ & _). cbn in Hc.
  rewrite Hj in Hv. injection Hv as ->. unfold canonical_hash. rewrite Hc. cbn. by rewrite Hh.
Qed.

Lemma exact_approval_approves r op t a :
  stored r op → exact_approval op t a = true → approves r a.
Proof.
  intros Hs H. unfold exact_approval in H. bools.
  destruct (row_to_operation_columns _ _ (st_decode _ _ Hs)) as (_ & _ & Hph & Hpr & _).
  unfold approves. rewrite (st_id _ _ Hs). split_and!; congruence.
Qed.

Lemma claim_inv e n self id db claimed db' :
  claim e n self id db = (Ok claimed, db') →
  claim_execution e id (rt_runtime_id self) n db = (Ok (co_record claimed), db')
  ∧ issue (co_record claimed) = Ok (co_grant claimed).
Proof.
  unfold claim. intros H. inv_eff. done.
Qed.

Lemma claim_started_at e id rid n db op db' :
  Inv db → clock_ok n → claim_execution e id rid n db = (Ok op, db') → op_started_at op = Some n.
Proof.
  intros Hi Hn H. unfold claim_execution, with_tx in H.
  match type of H with match ?c with _ => _ end = _ => destruct c as [[res d]|] eqn:Hb end; [|done].
  injection H as -> ->. inv_res. destruct (is_expired x n); inv_res.
  destruct (fetch_stored _ _ _ Hi Hx) as (row & t & Hr & Hs & <- & He).
  by eapply transition_effect in Hx4 as (_ & _ & -> & _);
    [|apply Hi|exact Hr|exact Hs|by eapply en_chain|done|done].
Qed.

Lemma issue_inv record grant :
  issue record = Ok grant →
  op_state record = OperationState.Executing
  ∧ grant = {| eg_operation_id := op_id record; eg_payload_sha256 := op_payload_hash record;
               eg_connection_id := op_connection_id record |}.
Proof. unfold issue. case_bool_decide; cbn; naive_solver. Qed.

Lemma prepare_hash rid o prepared :
  prepare rid o = Ok prepared → canonical_hash (new_payload o) = Ok (cj_sha256 (po_payload prepared)).
Proof. unfold prepare. intros H. inv_res. unfold canonical_hash. by rewrite Hx0. Qed.

Lemma transition_stored e id rid target details n db op db' :
  Inv db → clock_ok n → value_exact details = true →
  transition e id rid target details n db = (Ok op, db') →
  ∃ cur, get id db = Ok cur ∧ op = transitioned target n cur ∧ get id db' = Ok op.
Proof.
  intros Hi Hn Hd H. unfold transition, with_tx in H. case_bool_decide as Ht; [done|].
  match type of H with match ?c with _ => _ end = _ => destruct c as [[r d]|] eqn:Hb end; [|done].
  injection H as -> ->. inv_res. exists x. split; [by apply get_fetch|].
  assert (get id db' = Ok (transitioned target n x)) as Hg by (by eapply transition_result).
  destruct (fetch_stored _ _ _ Hi Hx) as (r & t & Hr & Hs & _ & He).
  by eapply transition_tx_micro in Hx1 as (_ & -> & _).
Qed.

Lemma insert_existing e rid o n db op db1 :
  Inv db → clock_ok n → opt_clock_ok (new_expires_at o) →
  insert_planned e rid o n db = (Ok op, db1) → op_state op ≠ OperationState.Planned →
  db1 = db ∧ get (op_id op) db = Ok op.
Proof.
  intros Hi Hn Hc H Hst. unfold insert_planned, with_tx in H.
  match type of H with match ?c with _ => _ end = _ => destruct c as [[r d]|] eqn:Hb end; [|done].
  injection H as -> ->. inv_res. destruct (List.find _ _) as [row|] eqn:Hf; inv_res.
  - destruct (matches x x0); inv_res. split; [done|].
    apply find_some in Hf as [Hin _]. apply list_elem_of_In in Hin.
    destruct (inv_entry _ Hi _ Hin) as (op' & t & Hs & _).
    assert (op' = op) as -> by (pose proof (st_decode _ _ Hs); congruence).
    by eapply stored_get.
  - exfalso. apply Hst. unfold fetch_operation_tx in Hx2. inv_res. apply find_some in Hx3 as [Hin Hid].
    apply append_event_id in Hx1 as (ev & -> & _). unfold insert_operation in Hx0. inv_res.
    apply not_true_iff_false in Hx3. bools.
    apply in_app_or in Hin as [Hin|[<-|[]]].
    + destruct Hx3. apply existsb_exists. exists x1. split; [done|]. cbn. rewrite Hid.
      apply prepare_operation in Hx as (-> & _). apply String.eqb_refl.
    + apply prepare_operation in Hx as (<- & _). by apply planned_row_stored in Hx2 as (_ & _ & _ & Hs & _).
Qed.

(** [op] in another state, with other lifecycle times. *)
Definition with_lifecycle (op : OperationRecord) (state : OperationState.t)
  (started finished : option DateTime) (updated : DateTime) : OperationRecord :=
  {| op_id := op_id op; op_runtime_id := op_runtime_id op; op_workspace_id := op_workspace_id op;
     op_account_scope := op_account_scope op; op_connection_id := op_connection_id op;
     op_connection_revision := op_connection_revision op;
     op_terminal_session_id := op_terminal_session_id op; op_actor := op_actor op;
     op_kind := op_kind op; op_payload_schema_version := op_payload_schema_version op;
     op_payload := op_payload op; op_payload_hash := op_payload_hash op;
     op_schema_fingerprint := op_schema_fingerprint op; op_risk_level := op_risk_level op;
     op_preview := op_preview op; op_policy_snapshot := op_policy_snapshot op;
     op_policy_revision := op_policy_revision op; op_state := state;
     op_single_use := op_single_use op; op_idempotency_key := op_idempotency_key op;
     op_expires_at := op_expires_at op; op_started_at := started; op_finished_at := finished;
     op_created_at := op_created_at op; op_updated_at := updated |}.

Lemma evolves_record r r' op op' :
  evolves r r' → row_to_operation r = Ok op → row_to_operation r' = Ok op' →
  op' = with_lifecycle op (op_state op') (op_started_at op') (op_finished_at op')
          (op_updated_at op').
Proof.
  intros (Hid & Hc & _) H H'. apply immutable_changed_false in Hc. injection Hc as
    ?????? ?????? ?????? ????.
  unfold row_to_operation in H, H'. inv_res.
  repeat match goal with
  | H : ?f r' = _ |- _ => rewrite H in *
  | H : ?f r = ?f r' |- _ => rewrite <-H in *; clear H
  end.
  repeat match goal with
  | H : ?c = Ok ?x, H' : ?c = Ok ?y |- _ => rewrite H in H'; injection H' as ?; subst
  | H : ?c = Some ?x, H' : ?c = Some ?y |- _ => rewrite H in H'; injection H' as ?; subst
  end.
  done.
Qed.

(** What a stored operation means does not change. *)
Lemma get_grows db db2 id op op2 :
  Inv db → Inv db2 → grows db db2 → get id db = Ok op → get id db2 = Ok op2 →
  op2 = with_lifecycle op (op_state op2) (op_started_at op2) (op_finished_at op2)
          (op_updated_at op2).
Proof.
  intros Hi Hi2 Hg H H2.
  destruct (get_stored _ _ _ Hi H) as (r & t & Hr & Hs & Hid & _).
  destruct (get_stored _ _ _ Hi2 H2) as (r2 & t2 & Hr2 & Hs2 & Hid2 & _).
  destruct (grows_row _ _ _ Hg Hr) as (r1 & Hr1 & He).
  assert (r1 = r2) as ->.
  { eapply row_unique; [apply (inv_ids _ Hi2)|done..|]. destruct He as (Hid1 & _).
    by rewrite <-Hid1, (st_id _ _ Hs), (st_id _ _ Hs2), Hid, Hid2. }
  eapply evolves_record; [exact He|by apply st_decode..].
Qed.
End facade.

(** ** Concrete runs *)

Module RuntimeSample.
Definition self : @OperationRuntime Reference.platform := {| rt_runtime_id := Sample.runtime |}.
Definition authority : @LocalApprovalAuthority Reference.platform :=
  {| laa_runtime_id := Sample.runtime |}.
Definition request : @ExactApprovalRequest Reference.platform := {|
  ear_operation_id := Sample.uid 1;
  ear_expected_payload_hash := Sample.payload_hash;
  ear_approver := cmd_approver Sample.approval;
  ear_current_policy_revision := "p";
  ear_reason := None |}.
Definition planned : effect LocalDb OperationRecord :=
  plan (Sample.uid 11) (Sample.uid 12) 10 11 (λ x, x) self Sample.operation ApprovalRequired empty_db.
Definition approved : effect LocalDb OperationRecord :=
  approve_exact (Sample.uid 13) (Sample.uid 14) 20 self authority request planned.2.

Lemma operation_ok : new_operation_ok Sample.operation.
Proof. repeat split; by vm_compute. Qed.
End RuntimeSample.

(** Whatever the application does, in any interleaving of its tasks and
    over any number of restarts, the database stays a reachable one, a mutating
    operation is never [Ready], and an [Approved] operation has an approval of
    exactly its payload hash and policy revision. *)
Theorem runtime_activity_safe {P : Platform} {L : PlatformLaws P} {SD : Serde} {SL : SerdeLaws SD}
    db r op :
  activity empty_db db → r ∈ operations db → row_to_operation r = Ok op →
  reachable db
  ∧ (OperationKind.may_mutate_target (op_kind op) = true → op_state op ≠ OperationState.Ready)
  ∧ (op_state op = OperationState.Approved →
     ∃ a, a ∈ operation_approvals db ∧ approves r a).
Proof.
  intros Ha Hr Hd. destruct (activity_safe _ _ Ha safe_empty) as [[Hreach Hs] _].
  destruct (Hs r Hr) as [H1 H2]. destruct (row_to_operation_columns _ _ Hd) as (Hst & _).
  split_and!; [done| |].
  - intros Hm Hrd. rewrite (row_mutates_record _ _ Hd), Hst, Hrd in H1. by rewrite H1 in Hm.
  - intros Hap. apply H2. by rewrite Hst, Hap.
Qed.

Lemma runtime_activity_safe_witness :
  ∃ r op, r ∈ operations RuntimeSample.approved.2 ∧ row_to_operation r = Ok op
    ∧ op_state op = OperationState.Approved
    ∧ ∃ a, a ∈ operation_approvals RuntimeSample.approved.2 ∧ approves r a.
Proof.
  assert (activity empty_db RuntimeSample.approved.2) as Hact.
  { exact (activity_plan_approve (Sample.uid 11) (Sample.uid 12) 10 11 RuntimeSample.self
      Sample.operation ApprovalRequired (Sample.uid 13) (Sample.uid 14) 20
      RuntimeSample.authority RuntimeSample.request empty_db
      ltac:(by apply (bool_decide_unpack _)) ltac:(by apply (bool_decide_unpack _))
      RuntimeSample.operation_ok ltac:(by apply (bool_decide_unpack _))). }
  assert (match operations RuntimeSample.approved.2 with
          | r :: _ => match row_to_operation r with
                      | Ok op => bool_decide (op_state op = OperationState.Approved)
                      | Err _ => false
                      end
          | [] => false
          end = true) as Hc by (vm_compute; reflexivity).
  revert Hact Hc. generalize (RuntimeSample.approved.2). intros db Hact Hc.
  destruct (operations db) as [|r l] eqn:Hr; [done|].
  destruct (row_to_operation r) as [op|] eqn:Hop; [|done]. bools.
  destruct (runtime_activity_safe db r op) as (_ & _ & H);
    [exact Hact|rewrite Hr; by left|exact Hop|].
  exists r, op. split_and!; [by left|done|done|by apply H].
Defined.

(** A grant is exact: [claim] returns the stored record, now executing,
    and a grant naming it, its connection and the digest of the very payload the
    executor receives; if the operation may mutate the target, the database
    holds an approval of that digest that was still valid at the claim. *)
Theorem claim_grant_exact {P : Platform} {L : PlatformLaws P} {SD : Serde} {SL : SerdeLaws SD}
    e n self id db claimed db' :
  reachable db → clock_ok n → claim e n self id db = (Ok claimed, db') →
  let record := co_record claimed in
  let grant := co_grant claimed in
  get id db' = Ok record ∧ op_state record = OperationState.Executing
  ∧ op_started_at record = Some n
  ∧ eg_operation_id grant = id ∧ eg_connection_id grant = op_connection_id record
  ∧ canonical_hash (op_payload record) = Ok (eg_payload_sha256 grant)
  ∧ (OperationKind.may_mutate_target (op_kind record) = true →
     ∃ a, a ∈ operation_approvals db' ∧ exact_approval record (timestamp n) a = true
       ∧ apr_payload_hash a = eg_payload_sha256 grant).
Proof.
  intros Hreach Hn H record grant. apply claim_inv in H as [H Hg].
  apply issue_inv in Hg as [Hst Hg]. fold record grant in H, Hst, Hg.
  pose proof (reachable_Inv _ Hreach) as Hi.
  assert (reachable db') as Hreach'.
  { replace db' with (run_call (CallClaim e id (rt_runtime_id self) n) db) by (cbn; by rewrite H).
    by constructor. }
  destruct (claim_started _ _ _ _ _ _ _ Hi Hn H) as (r & Hr & Hs & _ & Hid).
  destruct (Inv_stored _ _ _ (reachable_Inv _ Hreach') Hr Hs) as (t & He).
  assert (op_started_at record = Some n) as Hstart by (by eapply claim_started_at).
  split_and!; [|done|done|by rewrite Hg|by rewrite Hg| |].
  - rewrite <-Hid. eapply stored_get; [by apply reachable_Inv|done|done].
  - rewrite Hg. eapply record_payload_hash, st_decode. exact Hs.
  - intros Hm. destruct (en_exec _ _ _ _ He) as (started & Hst' & _ & Ha).
    { eapply lifecycle_executing; [by eapply en_life|done]. }
    rewrite Hstart in Hst'. injection Hst' as <-.
    destruct (Ha Hm) as (a & Hina & Hex). exists a. split_and!; [|done|].
    + unfold approvals_of in Hina. apply list_elem_of_In, filter_In in Hina as [Hina _].
      by apply list_elem_of_In.
    + rewrite Hg. unfold exact_approval in Hex. by bools.
Qed.

Lemma claim_grant_exact_witness :
  ∃ claimed db', claim (Sample.uid 15) 30 RuntimeSample.self (Sample.uid 1)
      (run_calls Sample.approved empty_db) = (Ok claimed, db')
    ∧ canonical_hash (op_payload (co_record claimed)) = Ok (eg_payload_sha256 (co_grant claimed))
    ∧ ∃ a, a ∈ operation_approvals db'
        ∧ apr_payload_hash a = eg_payload_sha256 (co_grant claimed).
Proof.
  pose proof Sample.approved_reachable as Hreach.
  assert (match claim (Sample.uid 15) 30 RuntimeSample.self (Sample.uid 1)
            (run_calls Sample.approved empty_db) with
          | (Ok c, _) => OperationKind.may_mutate_target (op_kind (co_record c))
          | _ => false
          end = true) as Hc by (vm_compute; reflexivity).
  revert Hreach Hc. generalize (run_calls Sample.approved empty_db). intros db Hreach Hc.
  destruct (claim _ 30 _ _ db) as [[claimed|err] db'] eqn:He; [|done].
  destruct (claim_grant_exact (Sample.uid 15) 30 RuntimeSample.self (Sample.uid 1) db claimed db')
    as (_ & _ & _ & _ & _ & Hh & Ha); [exact Hreach|by apply (bool_decide_unpack _)|exact He|].
  destruct (Ha Hc) as (a & Hin & _ & Hah).
  exists claimed, db'. split_and!; [reflexivity|exact Hh|]. exists a. split; [exact Hin|exact Hah].
Defined.

(** Planning in full: a success returns the stored operation with the
    requested kind and the digest of the requested payload; a mutating request
    succeeds only under the approval disposition; the operation is in the state
    of its disposition since this call, or it is a replay of an earlier request
    and nothing changed. *)
Theorem plan_outcome {P : Platform} {L : PlatformLaws P} {SD : Serde} {SL : SerdeLaws SD}
    e e' n n' others self o d db op db' :
  reachable db → clock_ok n → clock_ok n' → new_operation_ok o →
  (∀ db1, reachable db1 → ∃ cs, Forall call_ok cs ∧ others db1 = run_calls cs db1) →
  plan e e' n n' others self o d db = (Ok op, db') →
  get (op_id op) db' = Ok op
  ∧ op_kind op = new_kind o ∧ canonical_hash (new_payload o) = Ok (op_payload_hash op)
  ∧ (OperationKind.may_mutate_target (op_kind op) = true → d = ApprovalRequired)
  ∧ (op_state op = disposed_state d ∧ op_updated_at op = n'
     ∨ db' = db ∧ op_state op ≠ OperationState.Planned).
Proof.
  intros Hreach Hn Hn' Ho Hot H. pose proof (reachable_Inv _ Hreach) as Hi.
  unfold plan in H. destruct (_ && _) eqn:Hgd; [done|]. inv_eff.
  destruct (insert_record _ _ _ _ _ _ _ Ho Hx) as (prepared & r & Hp & Hm & Hr & Hd).
  apply matches_kind in Hm as [Hk Hh]. pose proof (prepare_hash _ _ _ Hp) as Hph.
  apply prepare_operation in Hp as (Hpo & _). rewrite Hpo in Hk. rewrite <-Hh in Hph.
  assert (∀ k, k = new_kind o → OperationKind.may_mutate_target k = true → d = ApprovalRequired) as Hda.
  { intros k -> Hmut. rewrite Hmut in Hgd. cbn in Hgd. by bools. }
  assert (reachable s) as Hreach1.
  { replace s with (run_call (CallInsert e (rt_runtime_id self) o n) db) by (cbn; by rewrite Hx).
    constructor; [done|]. split; [done|apply Ho]. }
  case_bool_decide as Hst; cbn in H.
  - destruct (Hot _ Hreach1) as (cs & Hcs & Hos). rewrite Hos in H.
    destruct (calls_steps cs s (reachable_Inv _ Hreach1) Hcs) as [Hms Hi2].
    assert (get (op_id x) s = Ok x) as Hgx.
    { destruct (inv_entry _ (reachable_Inv _ Hreach1) r Hr) as (op0 & t & Hs0 & _).
      assert (op0 = x) as -> by (pose proof (st_decode _ _ Hs0); congruence).
      eapply stored_get; [by apply reachable_Inv|done|done]. }
    eapply transition_stored in H as (cur & Hcur & -> & Hg'); [|done|done|by destruct d].
    pose proof (get_grows _ _ _ _ _ (reachable_Inv _ Hreach1) Hi2
      (grows_micros _ _ (reachable_Inv _ Hreach1) Hms) Hgx Hcur) as Hsame.
    rewrite Hsame. rewrite Hsame in Hg'. cbn in *.
    rewrite Hk. split_and!; [done|done|done|by apply Hda|by left].
  - injection H as <- <-.
    destruct (insert_existing _ _ _ _ _ _ _ Hi Hn ltac:(apply Ho) Hx Hst) as [-> Hg].
    rewrite Hk. split_and!; [done|done|done|by apply Hda|by right].
Qed.

Lemma plan_outcome_witness :
  ∃ op db', plan (Sample.uid 11) (Sample.uid 12) 10 11 (λ x, x) RuntimeSample.self
      Sample.operation ApprovalRequired empty_db = (Ok op, db')
    ∧ op_state op = OperationState.PendingApproval
    ∧ canonical_hash (new_payload Sample.operation) = Ok (op_payload_hash op).
Proof.
  assert (match plan (Sample.uid 11) (Sample.uid 12) 10 11 (λ x, x) RuntimeSample.self
            Sample.operation ApprovalRequired empty_db with
          | (Ok op, _) => bool_decide (op_state op = OperationState.PendingApproval)
          | _ => false
          end = true) as Hc by (vm_compute; reflexivity).
  pose proof RuntimeSample.operation_ok as Hok. revert Hok Hc.
  generalize Sample.operation as o. generalize RuntimeSample.self as self. intros self o Hok Hc.
  destruct (plan _ _ 10 11 _ self o _ empty_db) as [[op|err] db'] eqn:He; [|done].
  apply bool_decide_eq_true in Hc.
  destruct (plan_outcome (Sample.uid 11) (Sample.uid 12) 10 11 (λ x, x) self o ApprovalRequired
    empty_db op db' reachable_empty ltac:(by apply (bool_decide_unpack _))
    ltac:(by apply (bool_decide_unpack _)) Hok) as (_ & _ & Hh & _); [|exact He|].
  - intros db1 _. exists []. split; [constructor|reflexivity].
  - exists op, db'. split; [reflexivity|]. split; [exact Hc|exact Hh].
Defined.
