(* ===== verification/Session.v ===== *)
(** * Terminal session capabilities (src-tauri/src/broker/session.rs)

    [DashMap<Uuid, SessionRecord>] is a finite map; each of its calls is atomic.
    [authenticate] is two of them, a read and a later removal, so it is modelled
    as [authenticate_read] followed by [authenticate_finish].  The random token,
    the clock and chrono's duration conversion are arguments. *)

From S2P Require Export Model Protocol.

Definition SESSION_TOKEN_BYTES : nat := 32.

Module BrokerCapability.
Inductive t :=
| ConnectionRead | ConnectionTest | CatalogRead | QueryPlan | QueryRun | SqlPropose
| OperationRead | OperationCancel.
#[global] Instance eq_dec : EqDecision t.
Proof. solve_decision. Defined.

Definition ALL : list t :=
  [ConnectionRead; ConnectionTest; CatalogRead; QueryPlan; QueryRun; SqlPropose;
   OperationRead; OperationCancel].

Definition index (c : t) : nat :=
  match c with
  | ConnectionRead => 0 | ConnectionTest => 1 | CatalogRead => 2 | QueryPlan => 3
  | QueryRun => 4 | SqlPropose => 5 | OperationRead => 6 | OperationCancel => 7
  end.
#[global] Instance countable : Countable t.
Proof. apply (inj_countable index (λ n, ALL !! n)). by intros []. Defined.
End BrokerCapability.

(** The [hex] crate: lowercase encoding, and decoding into a slice of a given
    length. *)
Class Hex := {
  hex_encode : list ascii → string;
  hex_decode_to_slice : string → nat → option (list ascii);
}.
Class HexLaws (H : Hex) : Prop := {
  hex_roundtrip l n : length l = n → hex_decode_to_slice (hex_encode l) n = Some l;
}.

Section session.
Context {P : Platform} {H : Hex}.

Record AuthenticatedSession := {
  as_terminal_session_id : Uuid;
  as_runtime_id : Uuid;
  as_workspace_id : Uuid;
  as_account_scope : string;
  as_connection_id : Uuid;
  as_connection_revision : Z;
  as_capabilities : gset BrokerCapability.t;
  as_expires_at : DateTime;
}.

Definition require (self : AuthenticatedSession) (capability : BrokerCapability.t)
  : AppResult unit :=
  if bool_decide (capability ∈ as_capabilities self) then Ok tt
  else Err (Blocked "terminal session does not have the required broker capability").

Record SessionRecord := { sr_metadata : AuthenticatedSession; sr_token : list ascii }.

Record IssuedSessionCapability := {
  is_terminal_session_id : Uuid;
  is_token : string;
  is_expires_at : DateTime;
}.

Record BrokerSessionRegistry := {
  reg_runtime_id : Uuid;
  reg_sessions : gmap Uuid SessionRecord;
}.

Definition new_registry (runtime_id : Uuid) : BrokerSessionRegistry :=
  {| reg_runtime_id := runtime_id; reg_sessions := ∅ |}.

Definition with_sessions (self : BrokerSessionRegistry) (m : gmap Uuid SessionRecord)
  : BrokerSessionRegistry :=
  {| reg_runtime_id := reg_runtime_id self; reg_sessions := m |}.

Definition session_metadata (runtime_id terminal_session_id : Uuid) (pin : PinnedConnection)
  (capabilities : list BrokerCapability.t) (expires_at : DateTime) : AuthenticatedSession :=
  {| as_terminal_session_id := terminal_session_id;
     as_runtime_id := runtime_id;
     as_workspace_id := sc_workspace_id (pc_scope pin);
     as_account_scope := storage_key (sc_account_scope (pc_scope pin));
     as_connection_id := pc_connection_id pin;
     as_connection_revision := pc_connection_revision pin;
     as_capabilities := list_to_set capabilities;
     as_expires_at := expires_at |}.

(** [ttl] in nanoseconds; [random] is what [getrandom::fill] wrote, if it
    succeeded; [from_std] is [chrono::Duration::from_std]. *)
Definition issue (from_std : Z → option Z) (self : BrokerSessionRegistry)
  (terminal_session_id : Uuid) (pin : PinnedConnection)
  (capabilities : list BrokerCapability.t) (ttl : Z) (random : option (list ascii))
  (now : DateTime) : AppResult IssuedSessionCapability * BrokerSessionRegistry :=
  match
    _ ← reject_if (ttl =? 0) (Config "terminal session capability TTL must be positive");
    token ← ok_or (Config "operating system random source is unavailable") random;
    duration ← ok_or (Config "terminal session TTL is too large") (from_std ttl);
    Ok (token, now + duration)
  with
  | Ok (token, expires_at) =>
      (Ok {| is_terminal_session_id := terminal_session_id;
             is_token := hex_encode token; is_expires_at := expires_at |},
       with_sessions self
         (<[terminal_session_id :=
             {| sr_metadata := session_metadata (reg_runtime_id self) terminal_session_id pin
                                 capabilities expires_at;
                sr_token := token |}]> (reg_sessions self)))
  | Err e => (Err e, self)
  end.

Definition authentication_denied : AppError :=
  Blocked "terminal session authentication was denied".

(** What the guarded read of [authenticate] decides. *)
Inductive AuthDecision := Denied | Expired | Granted (session : AuthenticatedSession).

Definition authenticate_read (self : BrokerSessionRegistry)
  (authentication : SessionAuthentication) (now : DateTime) : AuthDecision :=
  match reg_sessions self !! sa_terminal_session_id authentication with
  | None => Denied
  | Some record =>
      if negb (bool_decide (as_runtime_id (sr_metadata record) = reg_runtime_id self))
         || (as_expires_at (sr_metadata record) <=? now)
      then Expired
      else
        match hex_decode_to_slice (sa_token authentication) SESSION_TOKEN_BYTES with
        | None => Denied
        | Some supplied =>
            if negb (bool_decide (sr_token record = supplied)) then Denied
            else Granted (sr_metadata record)
        end
  end.

Definition authenticate_finish (self : BrokerSessionRegistry)
  (authentication : SessionAuthentication) (decision : AuthDecision)
  : AppResult AuthenticatedSession * BrokerSessionRegistry :=
  match decision with
  | Granted session => (Ok session, self)
  | Denied => (Err authentication_denied, self)
  | Expired =>
      (Err authentication_denied,
       with_sessions self
         (delete (sa_terminal_session_id authentication) (reg_sessions self)))
  end.

Definition authenticate (self : BrokerSessionRegistry)
  (authentication : SessionAuthentication) (now : DateTime)
  : AppResult AuthenticatedSession * BrokerSessionRegistry :=
  authenticate_finish self authentication (authenticate_read self authentication now).

Definition revoke (self : BrokerSessionRegistry) (terminal_session_id : Uuid)
  : bool * BrokerSessionRegistry :=
  (bool_decide (is_Some (reg_sessions self !! terminal_session_id)),
   with_sessions self (delete terminal_session_id (reg_sessions self))).

Definition revoke_connection (self : BrokerSessionRegistry) (connection_id : Uuid)
  : nat * BrokerSessionRegistry :=
  let ids := omap (λ entry,
    if bool_decide (as_connection_id (sr_metadata entry.2) = connection_id)
    then Some entry.1 else None) (map_to_list (reg_sessions self)) in
  (length ids, with_sessions self (foldl (λ m id, delete id m) (reg_sessions self) ids)).

Definition revoke_all (self : BrokerSessionRegistry) : BrokerSessionRegistry :=
  with_sessions self ∅.

(** ** Histories *)

Inductive SessionOp :=
| OpIssue (terminal_session_id : Uuid) (pin : PinnedConnection)
    (capabilities : list BrokerCapability.t) (ttl : Z) (random : option (list ascii))
    (now : DateTime)
| OpAuthenticate (authentication : SessionAuthentication) (now : DateTime)
| OpRevoke (terminal_session_id : Uuid)
| OpRevokeConnection (connection_id : Uuid)
| OpRevokeAll.

Definition run_op (from_std : Z → option Z) (self : BrokerSessionRegistry) (op : SessionOp)
  : BrokerSessionRegistry :=
  match op with
  | OpIssue id pin caps ttl random now => (issue from_std self id pin caps ttl random now).2
  | OpAuthenticate a now => (authenticate self a now).2
  | OpRevoke id => (revoke self id).2
  | OpRevokeConnection id => (revoke_connection self id).2
  | OpRevokeAll => revoke_all self
  end.

Definition run_ops (from_std : Z → option Z) (runtime_id : Uuid) (ops : list SessionOp)
  : BrokerSessionRegistry :=
  foldl (run_op from_std) (new_registry runtime_id) ops.

(** [op] ends session [id] of connection [connection_id]: a revocation, or a
    successful issue that replaces it. *)
Definition ends (from_std : Z → option Z) (id connection_id : Uuid) (op : SessionOp) : bool :=
  match op with
  | OpIssue id' _ _ ttl (Some _) _ =>
      bool_decide (id' = id) && negb (ttl =? 0) && bool_decide (is_Some (from_std ttl))
  | OpIssue _ _ _ _ None _ => false
  | OpAuthenticate _ _ => false
  | OpRevoke id' => bool_decide (id' = id)
  | OpRevokeConnection cid => bool_decide (cid = connection_id)
  | OpRevokeAll => true
  end.

(** ** Facts *)

Lemma foldl_delete_lookup (ids : list Uuid) (m : gmap Uuid SessionRecord) i :
  foldl (λ m id, delete id m) m ids !! i = if bool_decide (i ∈ ids) then None else m !! i.
Proof.
  revert m. induction ids as [|id ids IH]; intros m; [done|].
  cbn [foldl]. rewrite IH. destruct (decide (i = id)) as [->|Hne].
  - rewrite lookup_delete_eq. rewrite (bool_decide_true (id ∈ id :: ids)) by left.
    by case_bool_decide.
  - rewrite lookup_delete_ne by done.
    rewrite (bool_decide_ext (i ∈ id :: ids) (i ∈ ids)); [done|]. rewrite elem_of_cons.
    naive_solver.
Qed.

Lemma revoke_connection_lookup self cid i :
  reg_sessions (revoke_connection self cid).2 !! i
  = r ← reg_sessions self !! i;
    if bool_decide (as_connection_id (sr_metadata r) = cid) then None else Some r.
Proof.
  unfold revoke_connection. cbn. rewrite foldl_delete_lookup. case_bool_decide as Hin.
  - apply list_elem_of_omap in Hin as ([j r] & Hj & Hd). apply elem_of_map_to_list in Hj.
    cbn in Hd. case_bool_decide as Hc; [|done]. injection Hd as ->.
    by rewrite Hj; cbn; rewrite bool_decide_true.
  - destruct (reg_sessions self !! i) as [r|] eqn:E; cbn; [|done].
    case_bool_decide as Hc; [|done]. destruct Hin. apply list_elem_of_omap.
    exists (i, r). split; [by apply elem_of_map_to_list|]. cbn. by rewrite bool_decide_true.
Qed.

Definition count_of (self : BrokerSessionRegistry) (connection_id : Uuid) : nat :=
  (revoke_connection self connection_id).1.

Lemma revoked_count self cid :
  count_of self cid
  = size (filter (λ entry, as_connection_id (sr_metadata entry.2) = cid) (reg_sessions self)).
Proof.
  unfold count_of, revoke_connection. cbn [fst]. rewrite <-length_map_to_list, map_filter_alt.
  rewrite map_to_list_to_map.
  - induction (map_to_list (reg_sessions self)) as [|[i r] l IH]; [done|]. cbn [omap list_omap snd fst].
    destruct (decide (as_connection_id (sr_metadata r) = cid)) as [Hc|Hc].
    + rewrite bool_decide_true, filter_cons_True by done. cbn [length]. by rewrite IH.
    + rewrite bool_decide_false, filter_cons_False by done. exact IH.
  - apply (sublist_NoDup _ (map_to_list (reg_sessions self)).*1); [apply NoDup_fst_map_to_list|apply fmap_sublist, sublist_filter].
Qed.

(** What a stored session goes back to. *)
Definition issued_by (from_std : Z → option Z) (runtime_id : Uuid) (ops : list SessionOp)
  (id : Uuid) (record : SessionRecord) : Prop :=
  ∃ before pin caps ttl token now duration after,
    ops = before ++ OpIssue id pin caps ttl (Some token) now :: after
    ∧ ttl ≠ 0 ∧ from_std ttl = Some duration
    ∧ record = {| sr_metadata := session_metadata runtime_id id pin caps (now + duration);
                  sr_token := token |}
    ∧ Forall (λ op, ends from_std id (pc_connection_id pin) op = false) after.

Lemma issued_by_snoc from_std rt ops id record op :
  issued_by from_std rt ops id record →
  ends from_std id (as_connection_id (sr_metadata record)) op = false →
  issued_by from_std rt (ops ++ [op]) id record.
Proof.
  intros (before & pin & caps & ttl & token & now & duration & after & -> & Ht & Hd & -> & Hf) He.
  exists before, pin, caps, ttl, token, now, duration, (after ++ [op]).
  split_and!; try done; [by rewrite <-app_assoc|]. apply Forall_app. auto.
Qed.

Lemma run_op_runtime from_std self op : reg_runtime_id (run_op from_std self op) = reg_runtime_id self.
Proof.
  destruct op; cbn; try done; unfold issue, authenticate, authenticate_finish; by repeat case_match.
Qed.

Lemma run_ops_runtime from_std rt ops : reg_runtime_id (run_ops from_std rt ops) = rt.
Proof.
  unfold run_ops. induction ops as [|op ops IH] using rev_ind; [done|].
  rewrite foldl_app. cbn. by rewrite run_op_runtime.
Qed.

Lemma run_ops_issued from_std rt ops id record :
  reg_sessions (run_ops from_std rt ops) !! id = Some record →
  issued_by from_std rt ops id record.
Proof.
  revert id record. induction ops as [|op ops IH] using rev_ind; intros id record Hl.
  { cbn in Hl. by rewrite lookup_empty in Hl. }
  pose proof (run_ops_runtime from_std rt ops) as Hrt.
  unfold run_ops in *. rewrite foldl_app in Hl. cbn [foldl] in Hl.
  set (self := foldl (run_op from_std) (new_registry rt) ops) in *.
  destruct op as [id' pin caps ttl random now|a now|id'|cid|]; cbn [run_op] in Hl.
  - unfold issue in Hl. destruct (ttl =? 0) eqn:Ht.
    { apply issued_by_snoc; [by apply IH|]. cbn. rewrite Ht.
      by destruct random; rewrite ?andb_false_r. }
    destruct random as [token|]; [|by apply issued_by_snoc; [apply IH|]].
    cbn [reject_if ok_or mbind result_bind] in Hl.
    destruct (from_std ttl) as [duration|] eqn:Hd.
    2: { apply issued_by_snoc; [by apply IH|]. cbn. rewrite Hd.
         rewrite (bool_decide_false (is_Some None)) by (by intros []). by rewrite andb_false_r. }
    cbn in Hl. destruct (decide (id = id')) as [->|Hne].
    + rewrite lookup_insert_eq in Hl. injection Hl as <-.
      exists ops, pin, caps, ttl, token, now, duration, []. split_and!; try done; [lia|].
      by rewrite Hrt.
    + rewrite lookup_insert_ne in Hl by done. apply issued_by_snoc; [by apply IH|]. cbn.
      by rewrite bool_decide_false.
  - assert (reg_sessions self !! id = Some record) as Hs.
    { unfold authenticate, authenticate_finish in Hl.
      destruct (authenticate_read self a now); cbn in Hl; try done.
      by apply lookup_delete_Some in Hl as [_ Hl]. }
    by apply issued_by_snoc; [apply IH|].
  - cbn in Hl. apply lookup_delete_Some in Hl as [Hne Hl].
    apply issued_by_snoc; [by apply IH|]. cbn. by apply bool_decide_eq_false.
  - rewrite revoke_connection_lookup in Hl.
    destruct (reg_sessions self !! id) as [r|] eqn:E; cbn in Hl; [|done].
    case_bool_decide as Hc; [done|]. injection Hl as <-.
    apply issued_by_snoc; [by apply IH|]. cbn. apply bool_decide_eq_false. congruence.
  - cbn in Hl. by rewrite lookup_empty in Hl.
Qed.

Lemma authenticate_Ok self a now session self' :
  authenticate self a now = (Ok session, self') →
  self' = self ∧ ∃ record, reg_sessions self !! sa_terminal_session_id a = Some record
    ∧ sr_metadata record = session ∧ now < as_expires_at session
    ∧ as_runtime_id session = reg_runtime_id self
    ∧ hex_decode_to_slice (sa_token a) SESSION_TOKEN_BYTES = Some (sr_token record).
Proof.
  unfold authenticate, authenticate_finish, authenticate_read.
  destruct (reg_sessions self !! _) as [record|]; [|done].
  destruct (negb _ || _) eqn:E; [done|]. bools.
  destruct (hex_decode_to_slice _ _) as [supplied|] eqn:Hh; [|done].
  destruct (negb _) eqn:Ht; [done|]. bools. intros [= <- <-]. split; [done|].
  exists record. split_and!; try done; [lia|congruence].
Qed.
End session.

(** A concrete encoding, for instances. *)
Module HexReference.
#[global] Instance hex : Hex := {|
  hex_encode := Reference.write;
  hex_decode_to_slice s n :=
    l ← Reference.read s; if (length l =? n)%nat then Some l else None;
|}.
#[global] Instance laws : HexLaws hex.
Proof.
  split. intros l n <-. unfold hex_decode_to_slice, hex_encode, hex.
  rewrite Reference.read_write. cbn. by rewrite Nat.eqb_refl.
Qed.

Definition pin : @PinnedConnection Reference.platform := {|
  pc_scope := {| sc_workspace_id := 2%positive : @Uuid Reference.platform;
    sc_workspace_kind := WorkspaceKind.Personal; sc_selected_account_id := None;
    sc_account_scope := Personal; sc_generation := 1 |};
  pc_connection_id := 3%positive : @Uuid Reference.platform;
  pc_connection_revision := 1; pc_binding_revision := 0; pc_binding_updated_at := "";
  pc_profile := {| cp_id := 3%positive : @Uuid Reference.platform; cp_name := "db";
    cp_engine := Engine.Postgres; cp_provider := Provider.Auto; cp_driver_id := None;
    cp_host := "h"; cp_port := 5432; cp_database := "d"; cp_username := "u"; cp_sslmode := "";
    cp_extra_params := ∅; cp_readonly_default := true; cp_allow_writes := false;
    cp_secret_ref := None; cp_env := Some "prod"; cp_schema_group := None;
    cp_workspace_access := WorkspaceConnectionAccess.Local;
    cp_credential_mode := WorkspaceCredentialMode.Local |};
  pc_requires_remote_rbac := false;
  pc_catalog_cache_policy := CatalogCachePolicy.Persistent |}.

Definition registry : @BrokerSessionRegistry Reference.platform :=
  run_ops Some (7%positive : @Uuid Reference.platform)
    [OpIssue (1%positive : @Uuid Reference.platform) pin
       [BrokerCapability.QueryRun] 60 (Some (replicate 32 "a"%char)) 100].
Definition authentication : @SessionAuthentication Reference.platform :=
  {| sa_terminal_session_id := 1%positive : @Uuid Reference.platform;
     sa_token := hex_encode (replicate 32 "a"%char) |}.
End HexReference.

(** C31. Authentication is sound for every history of the registry: it succeeds
    only with the token of an earlier issue for that terminal session, before
    that capability expires, when nothing since has revoked the session, its
    connection or all sessions, or re-issued it; the session returned is the
    scope pinned at that issue. *)
Theorem authenticate_sound {P : Platform} {H : Hex} from_std runtime_id ops authentication now
    session self :
  authenticate (run_ops from_std runtime_id ops) authentication now = (Ok session, self) →
  ∃ before pin caps ttl token issued_at duration after,
    ops = before ++ OpIssue (sa_terminal_session_id authentication) pin caps ttl (Some token)
                      issued_at :: after
    ∧ from_std ttl = Some duration
    ∧ session = session_metadata runtime_id (sa_terminal_session_id authentication) pin caps
                  (issued_at + duration)
    ∧ now < issued_at + duration
    ∧ hex_decode_to_slice (sa_token authentication) SESSION_TOKEN_BYTES = Some token
    ∧ Forall (λ op, ends from_std (sa_terminal_session_id authentication)
                      (pc_connection_id pin) op = false) after.
Proof.
  intros (-> & record & Hl & <- & Hexp & _ & Htok)%authenticate_Ok.
  apply run_ops_issued in Hl as
    (before & pin & caps & ttl & token & at_ & duration & after & -> & _ & Hd & -> & Hf).
  cbn in *. exists before, pin, caps, ttl, token, at_, duration, after. done.
Qed.

Lemma authenticate_sound_witness :
  ∃ session, (authenticate HexReference.registry HexReference.authentication 159).1 = Ok session
    ∧ 159 < as_expires_at session.
Proof.
  assert (is_ok (authenticate HexReference.registry HexReference.authentication 159).1 = true) as Hok
    by (vm_compute; reflexivity).
  destruct (authenticate HexReference.registry HexReference.authentication 159)
    as [[session|e] self] eqn:E; [|discriminate Hok].
  exists session. split; [reflexivity|].
  destruct (authenticate_sound Some (7%positive : @Uuid Reference.platform)
    [OpIssue (1%positive : @Uuid Reference.platform) HexReference.pin
       [BrokerCapability.QueryRun] 60 (Some (replicate 32 "a"%char)) 100]
    HexReference.authentication 159 session self E)
    as (before & pin & caps & ttl & token & at_ & d & after & _ & _ & -> & Hlt & _).
  exact Hlt.
Defined.

(** Issue and authenticate round trip: the token handed out authenticates
    exactly the pinned scope until it expires, and is refused from then on, when
    the entry is dropped. *)
Theorem issue_authenticate {P : Platform} {H : Hex} {HL : HexLaws H} from_std self id pin caps ttl
    token issued_at issued self' now :
  length token = SESSION_TOKEN_BYTES →
  issue from_std self id pin caps ttl (Some token) issued_at = (Ok issued, self') →
  authenticate self' {| sa_terminal_session_id := id; sa_token := is_token issued |} now
  = if is_expires_at issued <=? now
    then (Err authentication_denied, with_sessions self (delete id (reg_sessions self)))
    else (Ok (session_metadata (reg_runtime_id self) id pin caps (is_expires_at issued)), self').
Proof.
  intros Hlen Hi. unfold issue in Hi. destruct (ttl =? 0); [done|].
  cbn [reject_if ok_or mbind result_bind] in Hi. destruct (from_std ttl) as [d|]; [|done].
  cbn in Hi. injection Hi as <- <-. unfold authenticate, authenticate_read. cbn.
  rewrite lookup_insert_eq. cbn. rewrite bool_decide_true by done. cbn.
  destruct (issued_at + d <=? now) eqn:E; cbn.
  - by rewrite delete_insert_eq.
  - rewrite hex_roundtrip by done. cbn. by rewrite bool_decide_true.
Qed.

Lemma issue_authenticate_witness :
  ∃ issued self', issue Some (new_registry (7%positive : @Uuid Reference.platform))
      (1%positive : @Uuid Reference.platform) HexReference.pin [] 60
      (Some (replicate 32 "a"%char)) 100 = (Ok issued, self')
    ∧ authenticate self' {| sa_terminal_session_id := 1%positive : @Uuid Reference.platform;
                            sa_token := is_token issued |} 159
      = (if is_expires_at issued <=? 159 then (Err authentication_denied, with_sessions
           (new_registry (7%positive : @Uuid Reference.platform))
           (delete (1%positive : @Uuid Reference.platform) ∅))
         else (Ok (session_metadata (7%positive : @Uuid Reference.platform)
           (1%positive : @Uuid Reference.platform) HexReference.pin [] (is_expires_at issued)), self')).
Proof.
  assert (is_ok (issue Some (new_registry (7%positive : @Uuid Reference.platform))
      (1%positive : @Uuid Reference.platform) HexReference.pin [] 60
      (Some (replicate 32 "a"%char)) 100).1 = true) as Hok by (vm_compute; reflexivity).
  destruct (issue Some (new_registry (7%positive : @Uuid Reference.platform))
      (1%positive : @Uuid Reference.platform) HexReference.pin [] 60
      (Some (replicate 32 "a"%char)) 100) as [[issued|e] self'] eqn:E; [|discriminate Hok].
  exists issued, self'. split; [reflexivity|].
  refine (issue_authenticate Some _ _ _ _ _ (replicate 32 "a"%char) _ _ _ 159 _ E).
  reflexivity.
Defined.

(** Revoking a connection ends exactly its sessions: every session of the
    connection is gone, every other one is untouched, and the count returned is
    how many there were. *)
Theorem revoke_connection_exact {P : Platform} {H : Hex} self connection_id :
  let '(count, self') := revoke_connection self connection_id in
  reg_sessions self' = filter (λ entry, as_connection_id (sr_metadata entry.2) ≠ connection_id)
                         (reg_sessions self)
  ∧ (count + size (reg_sessions self') = size (reg_sessions self))%nat.
Proof.
  assert (reg_sessions (revoke_connection self connection_id).2
    = filter (λ entry, as_connection_id (sr_metadata entry.2) ≠ connection_id) (reg_sessions self))
    as Heq.
  { apply map_eq. intros i. rewrite revoke_connection_lookup, map_lookup_filter.
    destruct (reg_sessions self !! i) as [r|]; cbn; [|done].
    case_bool_decide as Hc; [by rewrite option_guard_False by naive_solver|].
    by rewrite option_guard_True. }
  assert (count_of self connection_id = size (filter (λ entry,
    as_connection_id (sr_metadata entry.2) = connection_id) (reg_sessions self))) as Hcount
    by apply revoked_count.
  unfold revoke_connection in *. cbn [reg_sessions with_sessions snd] in *.
  split; [exact Heq|]. rewrite Heq. change (length _) with (count_of self connection_id).
  rewrite Hcount, <-map_size_disj_union by apply map_disjoint_filter_complement.
  by rewrite map_filter_union_complement.
Qed.
