(* ===== verification/Cancel.v ===== *)
(** * Query cancellation (src-tauri/src/executor/cancel.rs)

    The registry maps a query id to a slot holding the sender of a [watch]
    channel and the number of handles that share it; a handle holds a receiver
    of the channel it subscribed to.  Channels live in a store ([channels]) so
    that handles and slots alias them as in the code.  Live handles are named by
    numbers; dropping one runs its destructor. *)

From S2P Require Export Model.

Definition QUERY_TIMEOUT_SECS : Z := 300.

Section cancel.
Context {P : Platform}.

Record CancelSlot := { sender : nat; handles : nat }.
Record CancelHandle := { ch_id : Uuid; ch_rx : nat }.

Record CancelState := {
  registry : gmap Uuid CancelSlot;
  channels : gmap nat bool;
  live : gmap nat CancelHandle;
}.

Definition empty_cancel : CancelState := {| registry := ∅; channels := ∅; live := ∅ |}.

(** [register]: join the slot of [id] or open a fresh channel. *)
Definition register (id : Uuid) (s : CancelState) : nat * CancelState :=
  let handle := fresh (dom (live s)) in
  match registry s !! id with
  | Some slot =>
      (handle,
       {| registry := <[id := {| sender := sender slot; handles := handles slot + 1 |}]> (registry s);
          channels := channels s;
          live := <[handle := {| ch_id := id; ch_rx := sender slot |}]> (live s) |})
  | None =>
      let channel := fresh (dom (channels s)) in
      (handle,
       {| registry := <[id := {| sender := channel; handles := 1 |}]> (registry s);
          channels := <[channel := false]> (channels s);
          live := <[handle := {| ch_id := id; ch_rx := channel |}]> (live s) |})
  end.

(** [Drop for CancelHandle] *)
Definition drop_handle (handle : nat) (s : CancelState) : CancelState :=
  match live s !! handle with
  | None => s
  | Some h =>
      {| registry :=
           match registry s !! ch_id h with
           | None => registry s
           | Some slot =>
               if (1 <? handles slot)%nat
               then <[ch_id h := {| sender := sender slot; handles := handles slot - 1 |}]> (registry s)
               else delete (ch_id h) (registry s)
           end;
         channels := channels s;
         live := delete handle (live s) |}
  end.

(** [watch::Sender::send] stores the value when a receiver exists. *)
Definition send_true (channel : nat) (s : CancelState) : gmap nat bool :=
  if bool_decide (map_Exists (λ _ h, ch_rx h = channel) (live s))
  then <[channel := true]> (channels s) else channels s.

Definition cancel (id : Uuid) (s : CancelState) : bool * CancelState :=
  match registry s !! id with
  | Some slot =>
      (true, {| registry := registry s; channels := send_true (sender slot) s; live := live s |})
  | None => (false, s)
  end.

Definition cancel_query (query_id : Uuid) (s : CancelState) : bool * CancelState :=
  cancel query_id s.

(** [CancelHandle::is_cancelled] *)
Definition is_cancelled (handle : nat) (s : CancelState) : bool :=
  match h ← live s !! handle; channels s !! ch_rx h with Some b => b | None => false end.

(** ** Invariant *)

Definition sharing (id : Uuid) (s : CancelState) : gmap nat CancelHandle :=
  filter (λ kh, ch_id kh.2 = id) (live s).

Record CancelInv (s : CancelState) : Prop := {
  (** A slot counts its live handles and has at least one. *)
  ci_slot id slot : registry s !! id = Some slot →
    handles slot = size (sharing id s) ∧ (0 < handles slot)%nat
    ∧ is_Some (channels s !! sender slot);
  (** A live handle's query is registered and they share the channel. *)
  ci_live n h : live s !! n = Some h →
    ∃ slot, registry s !! ch_id h = Some slot ∧ ch_rx h = sender slot;
  (** Channels are not shared between queries. *)
  ci_inj i j si sj : registry s !! i = Some si → registry s !! j = Some sj →
    sender si = sender sj → i = j;
}.

Inductive CancelOp := Register (id : Uuid) | DropHandle (handle : nat) | Cancel (id : Uuid).
Definition run_cancel (s : CancelState) (op : CancelOp) : CancelState :=
  match op with
  | Register id => (register id s).2
  | DropHandle n => drop_handle n s
  | Cancel id => (cancel id s).2
  end.

Lemma sharing_insert id n h s m r c :
  live s !! n = None → m = <[n := h]> (live s) →
  size (sharing id {| registry := r; channels := c; live := m |})
  = (size (sharing id s) + if bool_decide (ch_id h = id) then 1 else 0)%nat.
Proof.
  intros Hn ->. unfold sharing. cbn. case_bool_decide as Hid.
  - rewrite map_filter_insert_True by done. rewrite map_size_insert_None; [lia|].
    apply map_lookup_filter_None. by left.
  - rewrite map_filter_insert_False by done. rewrite delete_id by done. lia.
Qed.

Lemma sharing_delete id n h s r c :
  live s !! n = Some h →
  size (sharing id {| registry := r; channels := c; live := delete n (live s) |})
  = (size (sharing id s) - if bool_decide (ch_id h = id) then 1 else 0)%nat.
Proof.
  intros Hn. unfold sharing. cbn. rewrite map_filter_delete. case_bool_decide as Hid.
  - rewrite map_size_delete_Some; [lia|]. eexists. by apply map_lookup_filter_Some.
  - rewrite delete_id; [lia|]. apply map_lookup_filter_None. right. intros h' Hh'. cbn.
    congruence.
Qed.

Lemma sharing_empty id s :
  CancelInv s → registry s !! id = None → size (sharing id s) = 0%nat.
Proof.
  intros Hi Hr. apply map_size_empty_iff, map_empty. intros n.
  apply map_lookup_filter_None. right. intros h Hl Hid. cbn in Hid.
  destruct (ci_live _ Hi n h Hl) as (slot & Hs & _). congruence.
Qed.

Lemma CancelInv_empty : CancelInv empty_cancel.
Proof. split; cbn; intros *; rewrite lookup_empty; done. Qed.

Lemma CancelInv_register id s : CancelInv s → CancelInv (register id s).2.
Proof.
  intros Hi. unfold register.
  assert (live s !! fresh (dom (live s)) = None) as Hfl
    by (apply not_elem_of_dom, is_fresh).
  assert (channels s !! fresh (dom (channels s)) = None) as Hfc
    by (apply not_elem_of_dom, is_fresh).
  destruct (registry s !! id) as [slot|] eqn:Hr; cbn.
  - destruct (ci_slot _ Hi _ _ Hr) as (Hc & Hp & Hch). split; cbn.
    + intros i si Hsi. rewrite (sharing_insert i _ _ s _ _ _ Hfl eq_refl). cbn.
      destruct (decide (i = id)) as [->|Hne].
      * rewrite lookup_insert_eq in Hsi. injection Hsi as <-. cbn.
        rewrite bool_decide_true by done. split_and!; [lia|lia|done].
      * rewrite lookup_insert_ne in Hsi by done. rewrite bool_decide_false by done.
        rewrite Nat.add_0_r. by apply (ci_slot _ Hi).
    + intros n h Hn. destruct (decide (n = fresh (dom (live s)))) as [->|Hne].
      * rewrite lookup_insert_eq in Hn. injection Hn as <-. cbn. rewrite lookup_insert_eq. eauto.
      * rewrite lookup_insert_ne in Hn by done.
        destruct (ci_live _ Hi n h Hn) as (si & Hsi & Hrx).
        destruct (decide (ch_id h = id)) as [Heq|]; [|rewrite lookup_insert_ne by done; eauto].
        rewrite Heq in *. rewrite lookup_insert_eq. rewrite Hr in Hsi. injection Hsi as <-. eauto.
    + intros i j si sj Hsi Hsj Heq.
      assert (∀ k sk, <[id:={| sender := sender slot; handles := handles slot + 1 |}]> (registry s) !! k
        = Some sk → ∃ sk', registry s !! k = Some sk' ∧ sender sk' = sender sk) as Hk.
      { intros k sk Hsk. destruct (decide (k = id)) as [->|].
        - rewrite lookup_insert_eq in Hsk. injection Hsk as <-. eauto.
        - rewrite lookup_insert_ne in Hsk by done. eauto. }
      apply Hk in Hsi as (si' & Hsi & Hei). apply Hk in Hsj as (sj' & Hsj & Hej).
      eapply (ci_inj _ Hi); [exact Hsi|exact Hsj|congruence].
  - pose proof (sharing_empty id s Hi Hr) as H0. split; cbn.
    + intros i si Hsi. rewrite (sharing_insert i _ _ s _ _ _ Hfl eq_refl). cbn.
      destruct (decide (i = id)) as [->|Hne].
      * rewrite lookup_insert_eq in Hsi. injection Hsi as <-. cbn.
        rewrite H0, bool_decide_true, lookup_insert_eq by done. split_and!; [lia|lia|eauto].
      * rewrite lookup_insert_ne in Hsi by done. rewrite bool_decide_false by done.
        rewrite Nat.add_0_r. destruct (ci_slot _ Hi _ _ Hsi) as (? & ? & Hch).
        split_and!; [done|done|]. rewrite lookup_insert_ne; [done|]. intros Heq.
        rewrite <-Heq, Hfc in Hch. by destruct Hch.
    + intros n h Hn. destruct (decide (n = fresh (dom (live s)))) as [->|Hne].
      * rewrite lookup_insert_eq in Hn. injection Hn as <-. cbn. rewrite lookup_insert_eq. eauto.
      * rewrite lookup_insert_ne in Hn by done.
        destruct (ci_live _ Hi n h Hn) as (si & Hsi & Hrx).
        rewrite lookup_insert_ne by congruence. eauto.
    + assert (∀ k sk, registry s !! k = Some sk → sender sk ≠ fresh (dom (channels s))) as Hk.
      { intros k sk Hsk Heq. destruct (ci_slot _ Hi _ _ Hsk) as (_ & _ & Hc).
        rewrite Heq, Hfc in Hc. by destruct Hc. }
      intros i j si sj Hsi Hsj Heq.
      apply lookup_insert_Some in Hsi as [[<- <-]|[Hni Hsi]];
        apply lookup_insert_Some in Hsj as [[<- <-]|[Hnj Hsj]]; cbn in Heq; try done.
      * destruct (Hk _ _ Hsj). by rewrite <-Heq.
      * by destruct (Hk _ _ Hsi).
      * by eapply (ci_inj _ Hi).
Qed.

Lemma CancelInv_drop n s : CancelInv s → CancelInv (drop_handle n s).
Proof.
  intros Hi. unfold drop_handle. destruct (live s !! n) as [h|] eqn:Hn; [|done].
  destruct (ci_live _ Hi n h Hn) as (slot & Hr & Hrx). rewrite Hr.
  destruct (ci_slot _ Hi _ _ Hr) as (Hc & Hp & Hch).
  assert (∀ k h', delete n (live s) !! k = Some h' → ch_id h' = ch_id h →
    (2 ≤ size (sharing (ch_id h) s))%nat) as Htwo.
  { intros k h' Hk Hid. apply lookup_delete_Some in Hk as [Hne Hk].
    assert (0 < size (delete n (sharing (ch_id h) s)))%nat.
    { apply Nat.neq_0_lt_0. intros H0. apply map_size_empty_inv in H0.
      apply (f_equal (lookup k)) in H0. rewrite lookup_delete_ne, lookup_empty in H0 by done.
      apply map_lookup_filter_None in H0 as [H0|H0]; [congruence|]. by apply (H0 h'). }
    rewrite map_size_delete_Some in H; [lia|]. eexists. by apply map_lookup_filter_Some. }
  destruct (Nat.ltb_spec 1 (handles slot)) as [Hlt|Hle]; split; cbn.
  - intros i si Hsi. rewrite (sharing_delete i n h) by done.
    destruct (decide (i = ch_id h)) as [->|Hne].
    + rewrite lookup_insert_eq in Hsi. injection Hsi as <-. cbn.
      rewrite bool_decide_true by done. split_and!; [lia|lia|done].
    + rewrite lookup_insert_ne in Hsi by done. rewrite bool_decide_false by congruence.
      rewrite Nat.sub_0_r. by apply (ci_slot _ Hi).
  - intros k h' Hk. apply lookup_delete_Some in Hk as [Hne Hk].
    destruct (ci_live _ Hi k h' Hk) as (si & Hsi & Hx).
    destruct (decide (ch_id h' = ch_id h)) as [Heq|]; [|rewrite lookup_insert_ne by done; eauto].
    rewrite Heq in *. rewrite lookup_insert_eq. rewrite Hr in Hsi. injection Hsi as <-. eauto.
  - intros i j si sj Hsi Hsj Heq.
    assert (∀ k sk, <[ch_id h:={| sender := sender slot; handles := handles slot - 1 |}]>
      (registry s) !! k = Some sk → ∃ sk', registry s !! k = Some sk' ∧ sender sk' = sender sk) as Hk.
    { intros k sk Hsk. destruct (decide (k = ch_id h)) as [->|].
      - rewrite lookup_insert_eq in Hsk. injection Hsk as <-. eauto.
      - rewrite lookup_insert_ne in Hsk by done. eauto. }
    apply Hk in Hsi as (si' & Hsi & Hei). apply Hk in Hsj as (sj' & Hsj & Hej).
    eapply (ci_inj _ Hi); [exact Hsi|exact Hsj|congruence].
  - intros i si Hsi. apply lookup_delete_Some in Hsi as [Hne Hsi].
    rewrite (sharing_delete i n h) by done. rewrite bool_decide_false by congruence.
    rewrite Nat.sub_0_r. by apply (ci_slot _ Hi).
  - intros k h' Hk. pose proof (Htwo k h' Hk) as H2.
    apply lookup_delete_Some in Hk as [Hne Hk].
    destruct (ci_live _ Hi k h' Hk) as (si & Hsi & Hx).
    destruct (decide (ch_id h' = ch_id h)) as [Heq|]; [specialize (H2 Heq); lia|].
    rewrite lookup_delete_ne by congruence. eauto.
  - intros i j si sj Hsi Hsj Heq. apply lookup_delete_Some in Hsi as [_ Hsi].
    apply lookup_delete_Some in Hsj as [_ Hsj]. by eapply (ci_inj _ Hi).
Qed.

Lemma CancelInv_cancel id s : CancelInv s → CancelInv (cancel id s).2.
Proof.
  intros Hi. unfold cancel. destruct (registry s !! id) as [slot|] eqn:Hr; [|done].
  split; cbn; [|apply Hi|apply Hi].
  intros i si Hsi. destruct (ci_slot _ Hi _ _ Hsi) as (? & ? & Hc). split_and!; [done|done|].
  unfold send_true. case_bool_decide; [|done].
  destruct (decide (sender si = sender slot)) as [->|];
    [rewrite lookup_insert_eq; eauto|by rewrite lookup_insert_ne].
Qed.

Definition reachable_cancel (ops : list CancelOp) : CancelState :=
  foldl run_cancel empty_cancel ops.

Lemma CancelInv_reachable ops : CancelInv (reachable_cancel ops).
Proof.
  unfold reachable_cancel. induction ops as [|op ops IH] using rev_ind; [apply CancelInv_empty|].
  rewrite foldl_app. destruct op; cbn;
    [by apply CancelInv_register|by apply CancelInv_drop|by apply CancelInv_cancel].
Qed.

(** [cancel] in every history: found exactly when a handle is live, and only the
    named query's handles are signalled. *)
Lemma cancel_spec ops id :
  let s := reachable_cancel ops in
  let '(found, s') := cancel id s in
  (found = true ↔ ∃ n h, live s !! n = Some h ∧ ch_id h = id)
  ∧ (∀ n h, live s !! n = Some h → ch_id h = id → is_cancelled n s' = true)
  ∧ (∀ n h, live s !! n = Some h → ch_id h ≠ id → is_cancelled n s' = is_cancelled n s).
Proof.
  intros s. pose proof (CancelInv_reachable ops) as Hi. change (CancelInv s) in Hi.
  unfold cancel. destruct (registry s !! id) as [slot|] eqn:Hr.
  - destruct (ci_slot _ Hi _ _ Hr) as (Hc & Hp & Hch).
    assert (∃ n h, live s !! n = Some h ∧ ch_id h = id) as Hex.
    { destruct (map_choose (sharing id s)) as (n & h & Hn).
      - intros He. rewrite He, map_size_empty in Hc. lia.
      - apply map_lookup_filter_Some in Hn as [Hn Hid]. eauto. }
    assert (∀ n h, live s !! n = Some h → ch_id h = id → ch_rx h = sender slot) as Hrx.
    { intros n h Hn Hid. destruct (ci_live _ Hi n h Hn) as (si & Hsi & ->). congruence. }
    assert (send_true (sender slot) s = <[sender slot := true]> (channels s)) as Hsend.
    { unfold send_true. rewrite bool_decide_true; [done|].
      destruct Hex as (n & h & Hn & Hid). exists n, h. eauto. }
    split_and!; [done| |]; intros n h Hn Hid; unfold is_cancelled; cbn; rewrite Hn; cbn;
      rewrite Hsend.
    + by rewrite (Hrx n h Hn Hid), lookup_insert_eq.
    + rewrite lookup_insert_ne; [done|]. intros Heq.
      destruct (ci_live _ Hi n h Hn) as (si & Hsi & Hx). apply Hid.
      eapply (ci_inj _ Hi); [exact Hsi|exact Hr|congruence].
  - split_and!; [|intros n h Hn Hid|done].
    + split; [done|]. intros (n & h & Hn & Hid).
      destruct (ci_live _ Hi n h Hn) as (si & Hsi & _). congruence.
    + destruct (ci_live _ Hi n h Hn) as (si & Hsi & _). congruence.
Qed.

(** ** The wall-clock guard

    [guard_registered] races, in this order of preference at a tie, the cancel
    signal, the query future and the timeout.  Times are in nanoseconds from
    the call; [None] never happens. *)
Definition before (a b : option Z) : bool :=
  match a, b with Some x, Some y => x <=? y | Some _, None => true | None, _ => false end.

Definition guard_registered {T} (cancelled_at : option Z) (wall : Z)
  (fut : option (Z * AppResult T)) : AppResult T :=
  let finish := fst <$> fut in
  if before cancelled_at (Some wall) && (before cancelled_at finish || negb (before finish (Some wall)))
  then Err (Safety "query cancelled")
  else
    match fut with
    | Some (t, inner) =>
        if t <=? wall then inner
        else Err (Safety ("query timed out after " +:+ pretty (wall / 10 ^ 9) +:+ "s and was aborted"))
    | None => Err (Safety ("query timed out after " +:+ pretty (wall / 10 ^ 9) +:+ "s and was aborted"))
    end.
End cancel.

(** Cancellation reaches exactly the queries it names: in every history of
    the registry [cancel] reports true exactly when a handle of that id is live,
    afterwards every live handle of the id is cancelled and every other handle's
    signal is unchanged. *)
Theorem cancel_reaches_live_handles {P : Platform} ops id :
  let s := reachable_cancel ops in
  let '(found, s') := cancel id s in
  (found = true ↔ ∃ n h, live s !! n = Some h ∧ ch_id h = id)
  ∧ (∀ n h, live s !! n = Some h → ch_id h = id → is_cancelled n s' = true)
  ∧ (∀ n h, live s !! n = Some h → ch_id h ≠ id → is_cancelled n s' = is_cancelled n s).
Proof. apply cancel_spec. Qed.

(** The registry leaks no slot and loses none: a query id is registered
    exactly while one of its handles is live and its count is their number, so
    once the last one is dropped the id is gone, and a later registration of the
    id starts uncancelled. *)
Theorem cancel_slot_lifetime {P : Platform} ops id :
  let s := reachable_cancel ops in
  (registry s !! id = None ↔ size (sharing id s) = 0%nat)
  ∧ (∀ slot, registry s !! id = Some slot → handles slot = size (sharing id s))
  ∧ (registry s !! id = None →
     let '(n, s') := register id s in is_cancelled n s' = false).
Proof.
  intros s. pose proof (CancelInv_reachable ops) as Hi. change (CancelInv s) in Hi.
  split_and!.
  - split; [by apply sharing_empty|]. intros H0.
    destruct (registry s !! id) as [slot|] eqn:Hr; [|done].
    destruct (ci_slot _ Hi _ _ Hr) as (Hc & Hp & _). lia.
  - intros slot Hr. by destruct (ci_slot _ Hi _ _ Hr) as (Hc & _).
  - intros Hr. unfold register. rewrite Hr. unfold is_cancelled. cbn.
    by rewrite lookup_insert_eq; cbn; rewrite lookup_insert_eq.
Qed.
