(* ===== verification/OperationService.v ===== *)
(** * Approval orchestration and Terminal views of operations
      (src-tauri/src/services/{operation_service,terminal_authority}.rs)

    The service derives the approver and the current policy from the active
    scope; the connection manager's [pin_connection_for_view] and the store's
    [get_safety] are arguments, given as functions of the connection id. *)

From S2P Require Export Model Cancel RuntimeTheorems.

Definition CRITICAL_CONFIRMATION : string := "RUN CRITICAL".
Definition PRODUCTION_CONFIRMATION : string := "PROD".

Section service.
Context {P : Platform} {SD : Serde}.
Local Open Scope effect_scope.

(** terminal_authority.rs *)
Record TerminalAuthority := {
  ta_terminal_session_id : Uuid;
  ta_workspace_id : Uuid;
  ta_account_scope : string;
  ta_connection_id : Uuid;
  ta_connection_revision : Z;
  ta_client_protocol_version : Z;
}.

Definition ensure_pin (self : TerminalAuthority) (pin : PinnedConnection) : AppResult unit :=
  if bool_decide (sc_workspace_id (pc_scope pin) = ta_workspace_id self)
     && (storage_key (sc_account_scope (pc_scope pin)) =? ta_account_scope self)%string
     && bool_decide (pc_connection_id pin = ta_connection_id self)
     && (pc_connection_revision pin =? ta_connection_revision self)
  then Ok tt
  else Err (Blocked "Terminal connection authority is no longer current").

Record OperationDecisionRequest := {
  odr_operation_id : Uuid;
  odr_expected_payload_hash : string;
  odr_reason : option string;
}.

Record OperationDecisionReceipt := {
  rcpt_operation_id : Uuid;
  rcpt_payload_hash : string;
  rcpt_state : OperationState.t;
}.

Definition receipt_from (record : OperationRecord) : OperationDecisionReceipt :=
  {| rcpt_operation_id := op_id record;
     rcpt_payload_hash := op_payload_hash record;
     rcpt_state := op_state record |}.

(** dopedb-protocol/src/operation_command.rs *)
Record OperationSummary := {
  sum_operation_id : Uuid;
  sum_connection_id : Uuid;
  sum_kind : OperationKind.t;
  sum_state : OperationState.t;
  sum_risk_level : OperationRiskLevel.t;
  sum_payload_hash : string;
  sum_expires_at : option DateTime;
  sum_started_at : option DateTime;
  sum_finished_at : option DateTime;
  sum_created_at : DateTime;
  sum_updated_at : DateTime;
}.

Definition operation_summary (record : OperationRecord) : OperationSummary :=
  {| sum_operation_id := op_id record;
     sum_connection_id := op_connection_id record;
     sum_kind := op_kind record;
     sum_state := op_state record;
     sum_risk_level := op_risk_level record;
     sum_payload_hash := op_payload_hash record;
     sum_expires_at := op_expires_at record;
     sum_started_at := op_started_at record;
     sum_finished_at := op_finished_at record;
     sum_created_at := op_created_at record;
     sum_updated_at := op_updated_at record |}.

Definition ensure_terminal_scope (record : OperationRecord) (scope : TerminalAuthority)
  : AppResult unit :=
  if bool_decide (op_terminal_session_id record = Some (ta_terminal_session_id scope))
     && bool_decide (op_workspace_id record = ta_workspace_id scope)
     && (op_account_scope record =? ta_account_scope scope)%string
     && bool_decide (op_connection_id record = ta_connection_id scope)
     && (op_connection_revision record =? ta_connection_revision scope)
  then Ok tt
  else Err (Blocked "operation belongs to a different Terminal or connection scope").

Definition ensure_operation_scope (record : OperationRecord) (pin : PinnedConnection)
  : AppResult unit :=
  if bool_decide (op_workspace_id record = sc_workspace_id (pc_scope pin))
     && (op_account_scope record =? storage_key (sc_account_scope (pc_scope pin)))%string
     && bool_decide (op_connection_id record = pc_connection_id pin)
     && (op_connection_revision record =? pc_connection_revision pin)
  then Ok tt
  else Err (Blocked
    "operation scope or connection revision changed after the proposal was created").

(** [policy_snapshot.get("environment").and_then(Value::as_str)
    .is_some_and(|e| e.eq_ignore_ascii_case("prod"))] *)
Definition is_production (policy_snapshot : Value) : bool :=
  match value_get "environment" policy_snapshot with
  | Some v => match as_str v with
              | Some environment => eq_ignore_ascii_case environment "prod"
              | None => false
              end
  | None => false
  end.

Definition required_confirmation (record : OperationRecord) : option string :=
  if negb (OperationKind.may_mutate_target (op_kind record)) then None
  else if bool_decide (op_risk_level record = OperationRiskLevel.Critical)
  then Some CRITICAL_CONFIRMATION
  else if is_production (op_policy_snapshot record) then Some PRODUCTION_CONFIRMATION
  else None.

Record CapturedOperationPolicy := { cop_snapshot : Value; cop_revision : string }.

(** The [json!] object of [capture_policy]. *)
Definition policy_snapshot (pin : PinnedConnection) (settings : SafetySettings) : Value :=
  VObject
    [("accountScope", VString (storage_key (sc_account_scope (pc_scope pin))));
     ("bindingRevision", value_of_i64 (pc_binding_revision pin));
     ("bindingUpdatedAt", VString (pc_binding_updated_at pin));
     ("connectionRevision", value_of_i64 (pc_connection_revision pin));
     ("credentialMode", WorkspaceCredentialMode.serialize (cp_credential_mode (pc_profile pin)));
     ("environment", value_of_opt_string (cp_env (pc_profile pin)));
     ("safety", serialize_settings settings);
     ("scopeGeneration", value_of_i64 (sc_generation (pc_scope pin)));
     ("workspaceAccess",
       WorkspaceConnectionAccess.serialize (cp_workspace_access (pc_profile pin)));
     ("workspaceId", VString (uuid_to_string (sc_workspace_id (pc_scope pin))))].

Definition capture_policy (pin : PinnedConnection) (settings : SafetySettings)
  : AppResult CapturedOperationPolicy :=
  let snapshot := policy_snapshot pin settings in
  revision ← canonical_hash snapshot;
  Ok {| cop_snapshot := snapshot; cop_revision := revision |}.

(** [OperationActorProvenance { local_account_id, workspace_account_id,
    origin_surface, ..default() }] *)
Definition scope_provenance (pin : PinnedConnection) (origin_surface : string)
  : OperationActorProvenance :=
  {| local_account_id := match sc_account_scope (pc_scope pin) with
                         | Model.Personal => Some "local-user" | Model.WorkspaceUser _ => None end;
     workspace_account_id := match sc_account_scope (pc_scope pin) with
                             | Model.Personal => None | Model.WorkspaceUser id => Some id end;
     agent_provider := None; agent_model := None; plugin_id := None; plugin_version := None;
     client_protocol_version := None; origin_surface := origin_surface |}.

Definition actor_for_pin (pin : PinnedConnection) (origin_surface : string) : OperationActor :=
  match sc_account_scope (pc_scope pin) with
  | Model.Personal =>
      {| actor_kind := OperationActorKind.LocalUser; actor_id := "local-user";
         provenance := scope_provenance pin origin_surface |}
  | Model.WorkspaceUser id =>
      {| actor_kind := OperationActorKind.WorkspaceUser; actor_id := id;
         provenance := scope_provenance pin origin_surface |}
  end.

Definition agent_actor_for_pin (pin : PinnedConnection) (actor_id : string)
  (origin_surface : string) : OperationActor :=
  {| actor_kind := OperationActorKind.Agent; Operation.actor_id := actor_id;
     provenance := scope_provenance pin origin_surface |}.

Definition approver_for_pin (pin : PinnedConnection) : OperationApprover :=
  match sc_account_scope (pc_scope pin) with
  | Model.Personal =>
      {| approver_kind := OperationActorKind.LocalUser; approver_id := "local-user" |}
  | Model.WorkspaceUser id =>
      {| approver_kind := OperationActorKind.WorkspaceUser; approver_id := id |}
  end.

(** *** Approvals *)

Record Resolver := {
  pin_connection_for_view : Uuid → AppResult PinnedConnection;
  get_safety : Uuid → AppResult SafetySettings;
}.

Definition exact_request (resolver : Resolver) (request : OperationDecisionRequest)
  (validate_confirmation : bool) (db : LocalDb) : AppResult ExactApprovalRequest :=
  record ← get (odr_operation_id request) db;
  _ ← (if validate_confirmation then
         match required_confirmation record with
         | Some expected =>
             reject_if (negb (bool_decide (odr_reason request = Some expected)))
               (Blocked ("type the exact confirmation phrase `" +:+ expected
                         +:+ "` before approving this operation"))
         | None => Ok tt
         end
       else Ok tt);
  pin ← pin_connection_for_view resolver (op_connection_id record);
  _ ← ensure_operation_scope record pin;
  settings ← get_safety resolver (pc_connection_id pin);
  policy ← capture_policy pin settings;
  Ok {| ear_operation_id := odr_operation_id request;
        ear_expected_payload_hash := odr_expected_payload_hash request;
        ear_approver := approver_for_pin pin;
        ear_current_policy_revision := cop_revision policy;
        ear_reason := odr_reason request |}.

(** [others]: the calls of other tasks between the reads of [exact_request] and
    the deciding transaction. *)
Definition approve_local (event_id approval_id : Uuid) (now : DateTime) (resolver : Resolver)
  (others : LocalDb → LocalDb) (runtime : OperationRuntime) (authority : LocalApprovalAuthority)
  (request : OperationDecisionRequest) (db : LocalDb)
  : effect LocalDb OperationDecisionReceipt :=
  let? (exact, db) := pure_step (exact_request resolver request true db) db in
  let? (record, db) := approve_exact event_id approval_id now runtime authority exact (others db) in
  (Ok (receipt_from record), db).

Definition reject_local (event_id approval_id : Uuid) (now : DateTime) (resolver : Resolver)
  (others : LocalDb → LocalDb) (runtime : OperationRuntime) (authority : LocalApprovalAuthority)
  (request : OperationDecisionRequest) (db : LocalDb)
  : effect LocalDb OperationDecisionReceipt :=
  let? (exact, db) := pure_step (exact_request resolver request false db) db in
  let? (record, db) := reject_exact event_id approval_id now runtime authority exact (others db) in
  (Ok (receipt_from record), db).

(** *** Terminal views *)

Definition show_terminal (scope : TerminalAuthority) (operation_id : Uuid) (db : LocalDb)
  : AppResult OperationSummary :=
  record ← get operation_id db;
  _ ← ensure_terminal_scope record scope;
  Ok (operation_summary record).

(** The poll interval, in nanoseconds. *)
Definition poll_interval : Z := 50 * 10 ^ 6.

(** The loop of [wait_terminal]: [db_at k] is the database the [k]-th poll reads,
    [clock k] the reading of [Instant::now] after it; [None] is out of fuel. *)
Fixpoint wait_loop (fuel k : nat) (scope : TerminalAuthority) (operation_id : Uuid)
  (deadline : Z) (db_at : nat → LocalDb) (clock : nat → Z)
  : option (AppResult OperationSummary) :=
  match fuel with
  | O => None
  | S fuel =>
      match show_terminal scope operation_id (db_at k) with
      | Err e => Some (Err e)
      | Ok summary =>
          if OperationState.is_terminal (sum_state summary) then Some (Ok summary)
          else if deadline <=? clock k then Some (Err (Safety "operation wait timed out"))
          else wait_loop fuel (S k) scope operation_id deadline db_at clock
      end
  end.

Definition wait_terminal (fuel : nat) (scope : TerminalAuthority) (operation_id : Uuid)
  (timeout start : Z) (db_at : nat → LocalDb) (clock : nat → Z)
  : option (AppResult OperationSummary) :=
  wait_loop fuel 0 scope operation_id (start + timeout) db_at clock.

(** [sleep(deadline.saturating_duration_since(now).min(50ms))] between polls: the
    clock advances at least that long. *)
Definition sleeps (start timeout : Z) (clock : nat → Z) : Prop :=
  start ≤ clock 0%nat ∧ ∀ k, clock k < start + timeout →
    clock k + Z.min (start + timeout - clock k) poll_interval ≤ clock (S k).

(** The database and the cancellation registry change together. *)
Definition cancel_terminal (event_id : Uuid) (now : DateTime) (others : LocalDb → LocalDb)
  (runtime : OperationRuntime) (scope : TerminalAuthority) (operation_id : Uuid)
  (db : LocalDb) (cs : CancelState) : effect (LocalDb * CancelState) OperationSummary :=
  match get operation_id db with
  | Err e => (Err e, (db, cs))
  | Ok record =>
      match ensure_terminal_scope record scope with
      | Err e => (Err e, (db, cs))
      | Ok _ =>
          if OperationState.is_terminal (op_state record)
          then (Ok (operation_summary record), (db, cs))
          else if bool_decide (op_state record = OperationState.Executing)
          then (Ok (operation_summary record), (db, (Cancel.cancel operation_id cs).2))
          else
            let '(result, db') := cancel_before_execution event_id now runtime operation_id
              (VObject [("origin", VString "cli");
                        ("terminalSessionId",
                          VString (uuid_to_string (ta_terminal_session_id scope)))]) (others db) in
            (operation_summary <$> result, (db', cs))
      end
  end.
End service.

Section service_facts.
Context {P : Platform} {L : PlatformLaws P} {SD : Serde} {SL : SerdeLaws SD}.

(** *** Captured policies *)

Lemma canonical_hash_inj v w h :
  value_exact v = true → value_exact w = true →
  canonical_hash v = Ok h → canonical_hash w = Ok h →
  canonical_value v = canonical_value w ∨ values_collide v w.
Proof.
  intros Hv Hw H1 H2. apply fmap_Ok in H1 as (x & H1 & ->), H2 as (x0 & H2 & Hh).
  pose proof (from_value_sha _ _ H1) as S1. pose proof (from_value_sha _ _ H2) as S2.
  rewrite S1, S2 in Hh. apply text_digest_inj in Hh as [He|]; [left|right].
  2: { exists (cj_json x), (cj_json x0). unfold canonical_json. by rewrite H1, H2. }
  apply from_value_json in H1, H2. rewrite He in H1.
  eapply json_to_string_inj; eauto using canonical_exact.
Qed.

Definition in_i64 (n : Z) : Prop := i64_min ≤ n ≤ i64_max.

(** The ranges of the Rust types. *)
Definition policy_ranges (pin : PinnedConnection) (settings : SafetySettings) : Prop :=
  in_i64 (pc_binding_revision pin) ∧ in_i64 (pc_connection_revision pin)
  ∧ in_i64 (sc_generation (pc_scope pin)) ∧ 0 ≤ max_rows settings ≤ u64_max
  ∧ in_i64 (exec_preview_row_limit settings).

(** Everything a policy revision depends on. *)
Definition policy_inputs (pin : PinnedConnection) (settings : SafetySettings) :=
  (storage_key (sc_account_scope (pc_scope pin)), sc_workspace_id (pc_scope pin),
   sc_generation (pc_scope pin), pc_connection_revision pin, pc_binding_revision pin,
   pc_binding_updated_at pin, cp_credential_mode (pc_profile pin), cp_env (pc_profile pin),
   cp_workspace_access (pc_profile pin), settings).

Lemma settings_exact s :
  0 ≤ max_rows s ≤ u64_max → in_i64 (exec_preview_row_limit s) →
  value_exact (serialize_settings s) = true.
Proof.
  intros Hm He. apply object_exact. split; [by apply (bool_decide_unpack _); vm_compute|].
  repeat constructor; cbn [snd]; [|by apply value_of_i64_exact].
  unfold value_exact, value_of_u64. cbn. rewrite andb_true_r. apply andb_true_iff. lia.
Qed.

Lemma policy_snapshot_exact pin s :
  policy_ranges pin s → value_exact (policy_snapshot pin s) = true.
Proof.
  intros (H1 & H2 & H3 & H4 & H5). apply object_exact.
  split; [by apply (bool_decide_unpack _); vm_compute|].
  repeat constructor; cbn [snd]; try by apply value_of_i64_exact.
  - by destruct (cp_env (pc_profile pin)).
  - by apply settings_exact.
Qed.

(** The keys of the snapshot are in canonical order; the nested settings are not. *)
Definition canonical_settings (s : SafetySettings) : Value :=
  VObject
    [("allowWrites", VBool (allow_writes s));
     ("autoRunReads", VBool (auto_run_reads s));
     ("execPreviewRowLimit", value_of_i64 (exec_preview_row_limit s));
     ("explainPreview", VBool (explain_preview s));
     ("maxRows", value_of_u64 (max_rows s));
     ("requireApproval", VBool (require_approval s));
     ("wrapWritesInTx", VBool (wrap_writes_in_tx s))].

Lemma policy_snapshot_canonical pin s :
  canonical_value (policy_snapshot pin s)
  = match policy_snapshot pin s with
    | VObject m => VObject (Json.map_insert "safety" (canonical_settings s) m)
    | v => v
    end.
Proof. unfold policy_snapshot. by destruct (cp_env (pc_profile pin)). Qed.

Lemma access_serialize_inj a b :
  WorkspaceConnectionAccess.serialize a = WorkspaceConnectionAccess.serialize b → a = b.
Proof. by destruct a, b. Qed.
Lemma credential_serialize_inj a b :
  WorkspaceCredentialMode.serialize a = WorkspaceCredentialMode.serialize b → a = b.
Proof. by destruct a, b. Qed.

Lemma canonical_settings_inj s s' : canonical_settings s = canonical_settings s' → s = s'.
Proof.
  unfold canonical_settings. intros [= ? ? He ? ? ? ?].
  assert (exec_preview_row_limit s = exec_preview_row_limit s') as He'
    by (apply value_of_i64_inj; unfold value_of_i64; by f_equal).
  destruct s, s'; cbn in *; congruence.
Qed.

Lemma number_inj n m :
  (if 0 <=? n then PosInt n else NegInt n) = (if 0 <=? m then PosInt m else NegInt m) → n = m.
Proof. intros H. apply value_of_i64_inj. unfold value_of_i64. by f_equal. Qed.

Lemma opt_string_inj o o' : value_of_opt_string o = value_of_opt_string o' → o = o'.
Proof. destruct o, o'; cbn; congruence. Qed.

Lemma policy_snapshot_inj pin pin' s s' :
  canonical_value (policy_snapshot pin s) = canonical_value (policy_snapshot pin' s') →
  policy_inputs pin s = policy_inputs pin' s'.
Proof.
  rewrite !policy_snapshot_canonical. unfold policy_snapshot.
  cbn [Json.map_insert String.eqb Ascii.eqb Bool.eqb].
  intros H. injection H as H1 H2 H3 H4 H5 H6 S1 S2 S3 S4 S5 S6 S7 H7 H8 H9.
  apply number_inj in H2, H4, H7, S3. apply opt_string_inj in H6.
  apply (inj uuid_to_string) in H9.
  assert (cp_credential_mode (pc_profile pin) = cp_credential_mode (pc_profile pin')) as H5'
    by (apply credential_serialize_inj; unfold WorkspaceCredentialMode.serialize; by f_equal).
  assert (cp_workspace_access (pc_profile pin) = cp_workspace_access (pc_profile pin')) as H8'
    by (apply access_serialize_inj; unfold WorkspaceConnectionAccess.serialize; by f_equal).
  assert (s = s') as -> by (destruct s, s'; cbn in *; congruence).
  unfold policy_inputs. congruence.
Qed.

(** *** Waiting *)

Definition wait_fuel (timeout : Z) : nat := Z.to_nat (timeout / poll_interval) + 2.

Lemma sleeps_reach start timeout clock k :
  sleeps start timeout clock → (∀ j, (j < k)%nat → clock j < start + timeout) →
  start + timeout ≤ clock k ∨ start + Z.of_nat k * poll_interval ≤ clock k.
Proof.
  intros [H0 Hs]. induction k as [|k IH]; intros Hlt; [right; lia|].
  assert (clock k < start + timeout) as Hk by (apply Hlt; lia).
  specialize (Hs k Hk). destruct IH as [IH|IH]; [intros j Hj; apply Hlt; lia|lia|].
  unfold poll_interval in *. lia.
Qed.

(** The polls before the last one found the operation running, before the deadline. *)
Definition polled (scope : TerminalAuthority) (operation_id : Uuid) (deadline : Z)
  (db_at : nat → LocalDb) (clock : nat → Z) (j : nat) : Prop :=
  clock j < deadline ∧ ∃ summary, show_terminal scope operation_id (db_at j) = Ok summary
    ∧ OperationState.is_terminal (sum_state summary) = false.

Lemma wait_loop_settles scope operation_id start timeout db_at clock fuel k :
  0 ≤ timeout → sleeps start timeout clock →
  (∀ j, (j < k)%nat → polled scope operation_id (start + timeout) db_at clock j) →
  (wait_fuel timeout ≤ fuel + k)%nat →
  ∃ n, (k ≤ n)%nat
    ∧ (∀ j, (j < n)%nat → polled scope operation_id (start + timeout) db_at clock j)
    ∧ match show_terminal scope operation_id (db_at n) with
      | Err e => wait_loop fuel k scope operation_id (start + timeout) db_at clock = Some (Err e)
      | Ok summary =>
          if OperationState.is_terminal (sum_state summary)
          then wait_loop fuel k scope operation_id (start + timeout) db_at clock = Some (Ok summary)
          else start + timeout ≤ clock n
               ∧ wait_loop fuel k scope operation_id (start + timeout) db_at clock
                 = Some (Err (Safety "operation wait timed out"))
      end.
Proof.
  intros Ht Hs. revert k. induction fuel as [|fuel IH]; intros k Hp Hf.
  - exfalso. destruct k as [|k]; [unfold wait_fuel in Hf; lia|].
    destruct (sleeps_reach start timeout clock k Hs) as [H|H].
    + intros j Hj. apply Hp. lia.
    + specialize (Hp k ltac:(lia)) as [Hp _]. lia.
    + specialize (Hp k ltac:(lia)) as [Hp _]. unfold wait_fuel in Hf.
      assert (timeout < (timeout / poll_interval + 1) * poll_interval) as Hd
        by (pose proof (Z.mod_pos_bound timeout poll_interval ltac:(done));
            pose proof (Z.div_mod timeout poll_interval ltac:(done)); lia).
      unfold poll_interval in *. lia.
  - cbn [wait_loop]. destruct (show_terminal scope operation_id (db_at k)) as [summary|e] eqn:Hsh.
    + destruct (OperationState.is_terminal (sum_state summary)) eqn:Hterm;
        [exists k; split_and!; [done|done|by rewrite Hsh, Hterm]|].
      destruct (Z.leb_spec (start + timeout) (clock k)) as [Hc|Hc];
        [exists k; split_and!; [done|done|by rewrite Hsh, Hterm]|].
      destruct (IH (S k)) as (n & Hn & Hpn & Hr); [|lia|exists n; split_and!; [lia|done|done]].
      intros j Hj. destruct (decide (j = k)) as [->|]; [|apply Hp; lia].
      split; [done|]. by exists summary.
    + exists k. split_and!; [done|done|by rewrite Hsh].
Qed.

(** *** Approvals *)

Lemma ensure_operation_scope_lifecycle op pin st a b c :
  ensure_operation_scope (with_lifecycle op st a b c) pin = ensure_operation_scope op pin.
Proof. done. Qed.

Lemma exact_request_inv resolver request db exact :
  exact_request resolver request true db = Ok exact →
  ∃ record pin settings policy,
    get (odr_operation_id request) db = Ok record
    ∧ (required_confirmation record = None ∨ odr_reason request = required_confirmation record)
    ∧ pin_connection_for_view resolver (op_connection_id record) = Ok pin
    ∧ ensure_operation_scope record pin = Ok tt
    ∧ get_safety resolver (pc_connection_id pin) = Ok settings
    ∧ capture_policy pin settings = Ok policy
    ∧ exact = {| ear_operation_id := odr_operation_id request;
                 ear_expected_payload_hash := odr_expected_payload_hash request;
                 ear_approver := approver_for_pin pin;
                 ear_current_policy_revision := cop_revision policy;
                 ear_reason := odr_reason request |}.
Proof.
  unfold exact_request. intros H. inv_res. exists x, x1, x3, x4. split_and!; try done.
  destruct (required_confirmation x) as [expected|]; [right|by left].
  inv_res. by bools.
Qed.

Lemma approve_exact_inv eid aid now self authority request db op db' :
  approve_exact eid aid now self authority request db = (Ok op, db') →
  laa_runtime_id authority = rt_runtime_id self
  ∧ decide_approval eid aid (exact_command self request OperationApprovalDecision.Approved now) db
    = (Ok op, db').
Proof.
  unfold approve_exact, ensure_local_approval_authority. intros H. inv_eff.
  case_bool_decide; [|done]. done.
Qed.
End service_facts.

(** ** Concrete inputs *)

Module ServiceSample.
Definition pin : @PinnedConnection Reference.platform := {|
  pc_scope := {| sc_workspace_id := Sample.uid 2; sc_workspace_kind := WorkspaceKind.Team;
    sc_selected_account_id := Some "a"; sc_account_scope := Model.WorkspaceUser "a";
    sc_generation := 4 |};
  pc_connection_id := Sample.uid 3;
  pc_connection_revision := 1; pc_binding_revision := 2; pc_binding_updated_at := "t";
  pc_profile := {| cp_id := Sample.uid 3; cp_name := "db"; cp_engine := Engine.Postgres;
    cp_provider := Provider.Auto; cp_driver_id := None; cp_host := "h"; cp_port := 5432;
    cp_database := "d"; cp_username := "u"; cp_sslmode := ""; cp_extra_params := ∅;
    cp_readonly_default := true; cp_allow_writes := true; cp_secret_ref := None;
    cp_env := Some "Prod"; cp_schema_group := None;
    cp_workspace_access := WorkspaceConnectionAccess.Write;
    cp_credential_mode := WorkspaceCredentialMode.Managed |};
  pc_requires_remote_rbac := true;
  pc_catalog_cache_policy := CatalogCachePolicy.EphemeralOnly |}.

Definition policy : CapturedOperationPolicy :=
  match capture_policy pin default_settings with
  | Ok p => p
  | Err _ => {| cop_snapshot := VNull; cop_revision := "" |}
  end.

(** A write planned on the production connection above. *)
Definition operation : NewOperation := {|
  new_id := Sample.uid 1; new_workspace_id := Sample.uid 2; new_account_scope := "a";
  new_connection_id := Sample.uid 3; new_connection_revision := 1;
  new_terminal_session_id := Some (Sample.uid 5);
  new_actor := agent_actor_for_pin pin "g" "cli";
  new_kind := OperationKind.WriteSql; new_payload_schema_version := 1;
  new_payload := VObject [("q", VString "D")]; new_schema_fingerprint := None;
  new_risk_level := OperationRiskLevel.High; new_preview := VNull;
  new_policy_snapshot := cop_snapshot policy; new_policy_revision := cop_revision policy;
  new_single_use := true; new_idempotency_key := "k"; new_expires_at := Some 1000 |}.

Definition pending : list Call :=
  [CallInsert (Sample.uid 11) Sample.runtime operation 10;
   CallTransition (Sample.uid 12) (Sample.uid 1) Sample.runtime
     OperationState.PendingApproval VNull 11].
Lemma service_pending_reachable : reachable (run_calls pending empty_db).
Proof. apply reachable_calls; [apply reachable_empty|Sample.calls_ok]. Qed.

Definition resolver : @Resolver Reference.platform :=
  {| pin_connection_for_view _ := Ok pin; get_safety _ := Ok default_settings |}.
Definition request : @OperationDecisionRequest Reference.platform :=
  {| odr_operation_id := Sample.uid 1; odr_expected_payload_hash := Sample.payload_hash;
     odr_reason := Some "PROD" |}.
Definition scope : @TerminalAuthority Reference.platform :=
  {| ta_terminal_session_id := Sample.uid 5; ta_workspace_id := Sample.uid 2;
     ta_account_scope := "a"; ta_connection_id := Sample.uid 3; ta_connection_revision := 1;
     ta_client_protocol_version := 1 |}.
End ServiceSample.

(** A local approval is exact: when [approve_local] succeeds, the stored
    operation was pending in this runtime, unexpired and carried the reviewed
    hash; the confirmation phrase its risk and environment call for was typed;
    the active scope and connection revision are those of the proposal; the
    policy captured now has the operation's policy revision; and the approval
    added names the account of the active scope, which the caller cannot choose.
    Other tasks may act between the service's reads and the decision. *)
Theorem approve_local_exact {P : Platform} {L : PlatformLaws P} {SD : Serde} {SL : SerdeLaws SD}
    eid aid now resolver others self authority request db receipt db' :
  reachable db → clock_ok now →
  (∃ cs, Forall call_ok cs ∧ others db = run_calls cs db) →
  approve_local eid aid now resolver others self authority request db = (Ok receipt, db') →
  ∃ op pin settings policy a,
    get (odr_operation_id request) (others db) = Ok op
    ∧ laa_runtime_id authority = rt_runtime_id self ∧ op_runtime_id op = rt_runtime_id self
    ∧ op_state op = OperationState.PendingApproval ∧ is_expired op now = false
    ∧ op_payload_hash op = odr_expected_payload_hash request
    ∧ (required_confirmation op = None ∨ odr_reason request = required_confirmation op)
    ∧ pin_connection_for_view resolver (op_connection_id op) = Ok pin
    ∧ ensure_operation_scope op pin = Ok tt
    ∧ get_safety resolver (pc_connection_id pin) = Ok settings
    ∧ capture_policy pin settings = Ok policy ∧ op_policy_revision op = cop_revision policy
    ∧ operation_approvals db' = operation_approvals (others db) ++ [a]
    ∧ apr_approver_kind a = actor_kind_str (approver_kind (approver_for_pin pin))
    ∧ apr_approver_id a = approver_id (approver_for_pin pin)
    ∧ get (odr_operation_id request) db' = Ok (transitioned OperationState.Approved now op)
    ∧ receipt = receipt_from (transitioned OperationState.Approved now op).
Proof.
  intros Hreach Hn (cs & Hcs & Hot) H. pose proof (reachable_Inv _ Hreach) as Hi.
  destruct (calls_steps cs db Hi Hcs) as [Hms Hi2]. unfold approve_local in H. inv_eff.
  apply exact_request_inv in Hx as (record & pin & settings & policy & Hget & Hconf & Hpin & Hscope
    & Hset & Hpol & ->).
  rewrite Hot in *. apply approve_exact_inv in Hx0 as [Hauth Hd].
  apply decide_inv in Hd as (op & (Hop & -> & _ & _ & _ & Hrt & Hst & Hh & Hrev & Hex) & Hg' & Happ);
    [|done|done].
  cbn in *. pose proof (get_grows _ _ _ _ _ Hi Hi2 (grows_micros _ _ Hi Hms) Hget Hop) as Hsame.
  exists op, pin, settings, policy, (approval_row aid op (exact_command self
    {| ear_operation_id := odr_operation_id request;
       ear_expected_payload_hash := odr_expected_payload_hash request;
       ear_approver := approver_for_pin pin; ear_current_policy_revision := cop_revision policy;
       ear_reason := odr_reason request |} OperationApprovalDecision.Approved now)).
  split_and!; try done; rewrite Hsame; done.
Qed.

Lemma approve_local_exact_witness :
  ∃ receipt op, receipt = receipt_from (transitioned OperationState.Approved 20 op)
    ∧ required_confirmation op = Some PRODUCTION_CONFIRMATION.
Proof.
  pose proof ServiceSample.service_pending_reachable as Hreach.
  assert (is_ok (approve_local (Sample.uid 13) (Sample.uid 14) 20 ServiceSample.resolver (λ x, x)
      RuntimeSample.self RuntimeSample.authority ServiceSample.request
      (run_calls ServiceSample.pending empty_db)).1
    && match get (Sample.uid 1) (run_calls ServiceSample.pending empty_db) with
       | Ok op => bool_decide (required_confirmation op = Some PRODUCTION_CONFIRMATION)
       | Err _ => false
       end = true) as Hc by (vm_compute; reflexivity).
  revert Hreach Hc. generalize (run_calls ServiceSample.pending empty_db).
  generalize ServiceSample.resolver. intros resolver db Hreach Hc.
  destruct (approve_local _ _ 20 resolver _ _ _ _ db) as [[receipt|e] db'] eqn:He; [|done].
  destruct (approve_local_exact (Sample.uid 13) (Sample.uid 14) 20 resolver (λ x, x)
    RuntimeSample.self RuntimeSample.authority ServiceSample.request db receipt db' Hreach
    ltac:(by apply (bool_decide_unpack _))) as (op & pin & settings & policy & a & Hg & H);
    [exists []; split; [constructor|reflexivity]|exact He|].
  change (odr_operation_id ServiceSample.request) with (Sample.uid 1) in Hg.
  rewrite Hg in Hc. cbn [is_ok fst andb] in Hc. apply bool_decide_eq_true in Hc.
  exists receipt, op. split; [|exact Hc]. tauto.
Defined.

(** A policy revision binds every safety-relevant setting: two captures with
    the same revision agree on the account, workspace, scope generation,
    connection and binding revisions, credential mode, environment, access level
    and all safety settings, or the two snapshots' texts are a SHA-256 collision.  So after any change of them an
    approval of the old revision is refused. *)
Theorem policy_revision_binds {P : Platform} {L : PlatformLaws P} {SD : Serde}
    pin pin' settings settings' policy policy' :
  policy_ranges pin settings → policy_ranges pin' settings' →
  capture_policy pin settings = Ok policy → capture_policy pin' settings' = Ok policy' →
  cop_revision policy = cop_revision policy' →
  policy_inputs pin settings = policy_inputs pin' settings'
  ∨ values_collide (policy_snapshot pin settings) (policy_snapshot pin' settings').
Proof.
  unfold capture_policy. intros Hr Hr' H H' E. inv_res. cbn in E. subst.
  destruct (canonical_hash_inj _ _ _ (policy_snapshot_exact _ _ Hr) (policy_snapshot_exact _ _ Hr')
    Hx0 Hx) as [Hc|]; [left|by right].
  by apply policy_snapshot_inj.
Qed.

Lemma policy_revision_binds_witness :
  policy_inputs ServiceSample.pin default_settings = policy_inputs ServiceSample.pin default_settings
  ∨ values_collide (policy_snapshot ServiceSample.pin default_settings)
      (policy_snapshot ServiceSample.pin default_settings).
Proof.
  assert (is_ok (capture_policy ServiceSample.pin default_settings) = true) as Hc by (vm_compute; reflexivity).
  destruct (capture_policy ServiceSample.pin default_settings) as [policy|e] eqn:He; [|done].
  apply (policy_revision_binds ServiceSample.pin ServiceSample.pin default_settings
    default_settings policy policy); [| |exact He|exact He|reflexivity];
    repeat split; vm_compute; discriminate.
Defined.

(** Waiting settles: with a clock that advances by each sleep,
    [wait_terminal] returns within [timeout / 50ms + 2] polls; every earlier
    poll found the operation unfinished before the deadline, and the result is
    the error of the last poll, the summary it found finished, or a timeout at
    or after the deadline. *)
Theorem wait_terminal_settles {P : Platform} {L : PlatformLaws P} {SD : Serde}
    scope operation_id timeout start db_at clock :
  0 ≤ timeout → sleeps start timeout clock →
  ∃ n, (∀ j, (j < n)%nat → polled scope operation_id (start + timeout) db_at clock j)
    ∧ match show_terminal scope operation_id (db_at n) with
      | Err e =>
          wait_terminal (wait_fuel timeout) scope operation_id timeout start db_at clock
          = Some (Err e)
      | Ok summary =>
          if OperationState.is_terminal (sum_state summary)
          then wait_terminal (wait_fuel timeout) scope operation_id timeout start db_at clock
               = Some (Ok summary)
          else start + timeout ≤ clock n
               ∧ wait_terminal (wait_fuel timeout) scope operation_id timeout start db_at clock
                 = Some (Err (Safety "operation wait timed out"))
      end.
Proof.
  intros Ht Hs. destruct (wait_loop_settles scope operation_id start timeout db_at clock
    (wait_fuel timeout) 0 Ht Hs) as (n & _ & Hp & Hr); [lia|lia|].
  by exists n.
Qed.

(** A poll every 50 ms of an operation that is never found. *)
Lemma wait_terminal_settles_witness :
  ∃ e, wait_terminal (wait_fuel 1000) ServiceSample.scope (Sample.uid 1) 1000 0
         (λ _, empty_db) (λ k, Z.of_nat k * poll_interval) = Some (Err e).
Proof.
  destruct (wait_terminal_settles ServiceSample.scope (Sample.uid 1) 1000 0 (λ _, empty_db)
    (λ k, Z.of_nat k * poll_interval)) as (n & _ & H).
  - discriminate.
  - split; [discriminate|]. intros k _. cbn beta. unfold poll_interval. lia.
  - eexists. exact H.
Defined.

(** A Terminal's cancellation is confined: whatever it returns, an operation
    of another Terminal, account, workspace or connection revision is untouched;
    an executing operation keeps its row and exactly the live handles of its
    query are signalled; otherwise no query is signalled, and a success reports
    an operation that had already finished or is now [Cancelled]. *)
Theorem cancel_terminal_confined {P : Platform} {L : PlatformLaws P} {SD : Serde} {SL : SerdeLaws SD}
    eid now self scope id db ops op :
  reachable db → clock_ok now → get id db = Ok op →
  let cs := reachable_cancel ops in
  let '(result, (db', cs')) := cancel_terminal eid now (λ x, x) self scope id db cs in
  (∀ e, ensure_terminal_scope op scope = Err e → result = Err e ∧ db' = db ∧ cs' = cs)
  ∧ (op_state op = OperationState.Executing →
     db' = db
     ∧ (∀ n h, live cs !! n = Some h → ch_id h ≠ id → is_cancelled n cs' = is_cancelled n cs)
     ∧ (ensure_terminal_scope op scope = Ok tt →
        ∀ n h, live cs !! n = Some h → ch_id h = id → is_cancelled n cs' = true))
  ∧ (op_state op ≠ OperationState.Executing → cs' = cs)
  ∧ (∀ summary, result = Ok summary →
     summary = operation_summary op ∧ db' = db
     ∨ op_state op ≠ OperationState.Executing
       ∧ get id db' = Ok (transitioned OperationState.Cancelled now op)
       ∧ summary = operation_summary (transitioned OperationState.Cancelled now op)).
Proof.
  intros Hreach Hn Hget cs. pose proof (cancel_spec ops id) as Hspec. cbn zeta in Hspec.
  fold cs in Hspec. unfold cancel_terminal. rewrite Hget.
  destruct (ensure_terminal_scope op scope) as [[]|e] eqn:Hsc.
  2: { split_and!; [naive_solver|done|done|done]. }
  destruct (OperationState.is_terminal (op_state op)) eqn:Hterm.
  { split_and!; [done|by intros He; rewrite He in Hterm|done|]. intros summary [= <-]. by left. }
  case_bool_decide as Hex.
  { destruct (Cancel.cancel id cs) as [found cs'] eqn:Hc. cbn. destruct Hspec as (_ & H1 & H2).
    split_and!; [done|done|by intros|]. intros summary [= <-]. by left. }
  destruct (cancel_before_execution eid now self id _ db) as [result db'] eqn:Hcb.
  split_and!; [done|done|done|]. intros summary Hs. right. split; [done|].
  destruct result as [record|e]; [|done]. cbn in Hs. injection Hs as <-.
  apply transition_stored in Hcb as (cur & Hcur & -> & Hg'); [|by apply reachable_Inv|done|done].
  rewrite Hget in Hcur. injection Hcur as <-. done.
Qed.

Lemma cancel_terminal_confined_witness :
  ∃ op summary db', get (Sample.uid 1) (run_calls ServiceSample.pending empty_db) = Ok op
    ∧ cancel_terminal (Sample.uid 13) 20 (λ x, x) RuntimeSample.self ServiceSample.scope
        (Sample.uid 1) (run_calls ServiceSample.pending empty_db) (reachable_cancel [])
      = (Ok summary, (db', reachable_cancel []))
    ∧ summary = operation_summary (transitioned OperationState.Cancelled 20 op).
Proof.
  pose proof ServiceSample.service_pending_reachable as Hreach.
  assert (match get (Sample.uid 1) (run_calls ServiceSample.pending empty_db) with
          | Ok op => bool_decide (op_state op = OperationState.PendingApproval)
          | Err _ => false
          end
    && match (cancel_terminal (Sample.uid 13) 20 (λ x, x) RuntimeSample.self ServiceSample.scope
        (Sample.uid 1) (run_calls ServiceSample.pending empty_db) (reachable_cancel [])).1 with
       | Ok sum => bool_decide (sum_state sum = OperationState.Cancelled)
       | Err _ => false
       end = true) as Hc by (vm_compute; reflexivity).
  revert Hreach Hc. generalize (run_calls ServiceSample.pending empty_db).
  generalize ServiceSample.scope. intros scope db Hreach Hc.
  destruct (get _ db) as [op|e] eqn:Hg; [|done].
  pose proof (cancel_terminal_confined (Sample.uid 13) 20 RuntimeSample.self scope (Sample.uid 1)
    db [] op Hreach ltac:(by apply (bool_decide_unpack _)) Hg) as H. cbn zeta in H.
  destruct (cancel_terminal _ 20 _ _ scope _ db _) as [[sum|e] [db' cs']] eqn:He; cbn [fst] in Hc;
    [|by rewrite andb_false_r in Hc].
  apply andb_true_iff in Hc as [Hst Hcan]. apply bool_decide_eq_true in Hst, Hcan.
  destruct H as (_ & _ & Hcs & Hres).
  exists op, sum, db'. split; [reflexivity|]. split.
  - rewrite Hcs; [reflexivity|]. rewrite Hst. discriminate.
  - destruct (Hres sum eq_refl) as [[-> _]|(_ & _ & ->)]; [|reflexivity].
    cbn in Hcan. rewrite Hst in Hcan. discriminate.
Defined.
