(* ===== verification/AuditLog.v ===== *)
(** * The audit log (src-tauri/src/audit)

    [canonical] length-prefixes each audited field, [compute_hash] chains rows,
    [record] appends under the chain lock (one atomic step), [verify_entries]
    recomputes a connection's chain.  The table is the list of its rows in
    rowid order; timestamps are stored losslessly by the SQLite driver. *)

From S2P Require Export Model Samples.

Section fields.
Context {P : Platform}.

Record AuditFields := {
  af_connection_id : Uuid;
  af_ts : DateTime;
  af_engine : Engine.t;
  af_agent_prompt : option string;
  af_sql : string;
  af_kind : QueryKind.t;
  af_action : string;
  af_approved_by : option string;
  af_affected_estimate : option Z;
  af_error : option string;
}.

(** The closure [field]: [<byte-len>:<field>]. *)
Definition field (s : string) : string := pretty (str_len s) +:+ ":" +:+ s.

Definition unwrap_or_empty (o : option string) : string := default "" o.

Definition audit_texts (f : AuditFields) : list string :=
  [uuid_to_string (af_connection_id f);
   rfc3339 (af_ts f);
   engine_str (af_engine f);
   unwrap_or_empty (af_agent_prompt f);
   af_sql f;
   kind_str (af_kind f);
   af_action f;
   unwrap_or_empty (af_approved_by f);
   unwrap_or_empty (pretty <$> af_affected_estimate f);
   unwrap_or_empty (af_error f)].

Definition canonical (f : AuditFields) : string :=
  foldl (λ out s, out +:+ field s) "" (audit_texts f).

Definition record_separator : ascii := ascii_of_nat 30.

Definition compute_hash (prev_hash : option string) (fields : AuditFields) : string :=
  lower_hex (sha256 (bytes_of (unwrap_or_empty prev_hash) ++ [record_separator]
                     ++ bytes_of (canonical fields))).

(** ** Rows and entries *)

Record AuditEntry := {
  ae_id : Uuid;
  ae_fields : AuditFields;
  ae_prev_hash : option string;
  ae_hash : string;
}.

Record AuditRow := {
  au_id : string;
  au_connection_id : string;
  au_ts : DateTime;
  au_engine : string;
  au_agent_prompt : option string;
  au_sql : string;
  au_kind : string;
  au_action : string;
  au_approved_by : option string;
  au_affected_estimate : option Z;
  au_error : option string;
  au_prev_hash : option string;
  au_hash : string;
}.

Definition store_parse_uuid (s : string) : AppResult Uuid :=
  ok_or (Config ("bad uuid '" +:+ s +:+ "'")) (uuid_parse s).

Definition row_to_audit (r : AuditRow) : AppResult AuditEntry :=
  id ← store_parse_uuid (au_id r);
  connection_id ← store_parse_uuid (au_connection_id r);
  engine ← parse_engine (au_engine r);
  kind ← parse_kind (au_kind r);
  Ok {| ae_id := id;
        ae_fields := {| af_connection_id := connection_id; af_ts := au_ts r;
          af_engine := engine; af_agent_prompt := au_agent_prompt r; af_sql := au_sql r;
          af_kind := kind; af_action := au_action r; af_approved_by := au_approved_by r;
          af_affected_estimate := au_affected_estimate r; af_error := au_error r |};
        ae_prev_hash := au_prev_hash r;
        ae_hash := au_hash r |}.

(** [WHERE connection_id = ?1 ORDER BY rowid] *)
Definition audit_rows (connection_id : Uuid) (db : list AuditRow) : list AuditRow :=
  List.filter (λ r, au_connection_id r =? uuid_to_string connection_id)%string db.

(** [record], with the drawn identifier and clock reading; [fields] are the
    arguments with [ts] set to that reading. *)
Definition record (id : Uuid) (fields : AuditFields) (db : list AuditRow)
  : AuditEntry * list AuditRow :=
  let prev_hash := au_hash <$> last (audit_rows (af_connection_id fields) db) in
  let hash := compute_hash prev_hash fields in
  ({| ae_id := id; ae_fields := fields; ae_prev_hash := prev_hash; ae_hash := hash |},
   db ++ [{| au_id := uuid_to_string id;
             au_connection_id := uuid_to_string (af_connection_id fields);
             au_ts := af_ts fields;
             au_engine := engine_str (af_engine fields);
             au_agent_prompt := af_agent_prompt fields;
             au_sql := af_sql fields;
             au_kind := kind_str (af_kind fields);
             au_action := af_action fields;
             au_approved_by := af_approved_by fields;
             au_affected_estimate := af_affected_estimate fields;
             au_error := af_error fields;
             au_prev_hash := prev_hash;
             au_hash := hash |}]).

(** [verify_entries], at insertion position [i]. *)
Fixpoint verify_from (i : Z) (expected_prev : option string) (entries : list AuditEntry)
  : bool * option Z :=
  match entries with
  | [] => (true, None)
  | e :: entries =>
      if negb (bool_decide (ae_prev_hash e = expected_prev)) then (false, Some i)
      else if negb (compute_hash (ae_prev_hash e) (ae_fields e) =? ae_hash e)%string
      then (false, Some i)
      else verify_from (i + 1) (Some (ae_hash e)) entries
  end.
Definition verify_entries (entries : list AuditEntry) : bool * option Z :=
  verify_from 0 None entries.

Definition verify_chain (connection_id : Uuid) (db : list AuditRow)
  : AppResult (bool * option Z) :=
  entries ← collect row_to_audit (audit_rows connection_id db);
  Ok (verify_entries entries).

Definition snapshot (connection_id : Uuid) (db : list AuditRow)
  : AppResult (list AuditEntry * bool * option Z) :=
  entries ← collect row_to_audit (audit_rows connection_id db);
  let '(ok, first_bad_index) := verify_entries entries in
  Ok (rev entries, ok, first_bad_index).
End fields.

(** ** Length-prefixed fields are uniquely readable *)

Section netstring.
Definition no_colon (l : list ascii) : Prop := Forall (λ a, a ≠ ":"%char) l.

Lemma pretty_N_char_no_colon x : pretty_N_char x ≠ ":"%char.
Proof. unfold pretty_N_char. by repeat case_match. Qed.

Lemma pretty_N_go_no_colon x s :
  no_colon (bytes_of s) → no_colon (bytes_of (pretty_N_go x s)).
Proof.
  revert s. induction (N.lt_wf_0 x) as [x _ IH]; intros s Hs.
  destruct (decide (x = 0)%N) as [->|Hx]; [by rewrite pretty_N_go_0|].
  rewrite pretty_N_go_step by lia. apply IH; [apply N.div_lt; lia|].
  constructor; [apply pretty_N_char_no_colon|done].
Qed.

Lemma pretty_N_no_colon (n : N) : no_colon (bytes_of (pretty n)).
Proof.
  unfold pretty, pretty_N. case_decide; [by repeat constructor|].
  apply pretty_N_go_no_colon. constructor.
Qed.

Lemma colon_split (a b x y : list ascii) :
  no_colon a → no_colon b → a ++ ":"%char :: x = b ++ ":"%char :: y → a = b ∧ x = y.
Proof.
  intros Ha. revert b. induction Ha as [|c a Hc Ha IH]; intros b Hb H.
  - destruct b as [|d b]; [by injection H|]. injection H as <- _.
    by apply Forall_cons in Hb as [Hb _].
  - destruct Hb as [|d b Hd Hb]; [by injection H as ->|].
    injection H as -> H. apply IH in H as [-> ->]; done.
Qed.

Lemma bytes_of_inj s t : bytes_of s = bytes_of t → s = t.
Proof.
  intros H. apply (f_equal of_bytes) in H. by rewrite !string_of_list_ascii_of_string in H.
Qed.

Lemma field_inj s t x y :
  bytes_of (field s) ++ x = bytes_of (field t) ++ y → s = t ∧ x = y.
Proof.
  unfold field. rewrite !bytes_of_app. cbn. rewrite <-!app_assoc. cbn. intros H.
  apply colon_split in H as [Hlen H]; [|apply pretty_N_no_colon..].
  apply bytes_of_inj, (inj pretty) in Hlen.
  apply app_inj_1 in H as [H ->].
  - split; [by apply bytes_of_inj|done].
  - unfold str_len in Hlen. rewrite !bytes_of_length. lia.
Qed.

Lemma fields_bytes l out :
  bytes_of (foldl (λ out s, out +:+ field s) out l) = bytes_of out ++ mjoin ((bytes_of ∘ field) <$> l).
Proof.
  revert out. induction l as [|s l IH]; intros out; cbn [foldl]; [by rewrite app_nil_r|].
  rewrite IH, bytes_of_app, <-app_assoc. done.
Qed.

Lemma fields_inj l l' :
  length l = length l' →
  mjoin ((bytes_of ∘ field) <$> l) = mjoin ((bytes_of ∘ field) <$> l') → l = l'.
Proof.
  revert l'. induction l as [|s l IH]; intros [|t l'] Hlen H; try done.
  cbn in H. apply field_inj in H as [-> H]. f_equal. apply IH; [by injection Hlen|done].
Qed.
End netstring.

(** ** Canonical rows *)

Section canonical.
Context {P : Platform} {L : PlatformLaws P}.

(** The fields up to the confusion of an absent text with an empty one. *)
Definition same_fields (f g : AuditFields) : Prop :=
  af_connection_id f = af_connection_id g ∧ af_ts f = af_ts g ∧ af_engine f = af_engine g
  ∧ unwrap_or_empty (af_agent_prompt f) = unwrap_or_empty (af_agent_prompt g)
  ∧ af_sql f = af_sql g ∧ af_kind f = af_kind g ∧ af_action f = af_action g
  ∧ unwrap_or_empty (af_approved_by f) = unwrap_or_empty (af_approved_by g)
  ∧ af_affected_estimate f = af_affected_estimate g
  ∧ unwrap_or_empty (af_error f) = unwrap_or_empty (af_error g).

Lemma pretty_Z_nonempty (n : Z) : (pretty n : string) ≠ "".
Proof.
  destruct n as [|p|p]; [done| |done]. intros H.
  assert (∀ x s, s ≠ "" → pretty_N_go x s ≠ "") as Hgo.
  { intros x. induction (N.lt_wf_0 x) as [x _ IH]; intros s Hs.
    destruct (decide (x = 0)%N) as [->|Hx]; [by rewrite pretty_N_go_0|].
    rewrite pretty_N_go_step by lia. apply IH; [apply N.div_lt; lia|done]. }
  unfold pretty, pretty_Z, pretty, pretty_positive, pretty, pretty_N in H.
  case_decide; [done|]. rewrite pretty_N_go_step in H by lia. by apply Hgo in H.
Qed.

Lemma canonical_bytes f :
  bytes_of (canonical f) = mjoin ((bytes_of ∘ field) <$> audit_texts f).
Proof. unfold canonical. by rewrite fields_bytes. Qed.

Lemma canonical_inj f g :
  clock_ok (af_ts f) → clock_ok (af_ts g) →
  canonical f = canonical g ↔ same_fields f g.
Proof.
  intros Hf Hg. split.
  - intros H. apply (f_equal bytes_of) in H. rewrite !canonical_bytes in H.
    apply fields_inj in H; [|done]. unfold audit_texts in H.
    injection H as H1 H2 H3 H4 H5 H6 H7 H8 H9 H10.
    unfold same_fields. split_and!; try done.
    + by apply (inj uuid_to_string).
    + by apply rfc3339_auto_inj.
    + by apply engine_str_inj.
    + by apply kind_str_inj.
    + destruct (af_affected_estimate f) as [n|], (af_affected_estimate g) as [m|]; cbn in H9;
        [by apply (inj pretty) in H9 as ->|by apply pretty_Z_nonempty in H9| |done].
      symmetry in H9. by apply pretty_Z_nonempty in H9.
  - intros (H1 & H2 & H3 & H4 & H5 & H6 & H7 & H8 & H9 & H10).
    unfold canonical, audit_texts. by rewrite H1, H2, H3, H4, H5, H6, H7, H8, H9, H10.
Qed.
End canonical.

(** ** The chain *)

Section audit_chain.
Context {P : Platform} {L : PlatformLaws P}.

Lemma verify_from_cons i prev e l :
  verify_from i prev (e :: l)
  = if negb (bool_decide (ae_prev_hash e = prev)) then (false, Some i)
    else if negb (compute_hash (ae_prev_hash e) (ae_fields e) =? ae_hash e)%string
    then (false, Some i)
    else verify_from (i + 1) (Some (ae_hash e)) l.
Proof. done. Qed.

Lemma verify_from_snoc i prev l e :
  (verify_from i prev l).1 = true →
  verify_from i prev (l ++ [e])
  = verify_from (i + Z.of_nat (length l))
      (match last l with Some x => Some (ae_hash x) | None => prev end) [e].
Proof.
  revert i prev. induction l as [|x l IH]; intros i prev H; [by rewrite Z.add_0_r|].
  cbn [app]. rewrite verify_from_cons in H |- *. destruct (negb (bool_decide _)); [done|].
  destruct (negb (compute_hash _ _ =? _)%string); [done|]. rewrite IH by done.
  replace (i + Z.of_nat (length (x :: l))) with (i + 1 + Z.of_nat (length l))
    by (cbn [length]; lia).
  destruct l as [|y l]; [done|]. rewrite last_cons_cons.
  by destruct (last (y :: l)) eqn:E; [|apply last_None in E].
Qed.

(** The outcome is the first broken link, or none. *)
Lemma verify_from_spec i prev l :
  match verify_from i prev l with
  | (true, o) => o = None
  | (false, o) => ∃ n, o = Some (i + Z.of_nat n) ∧ (n < length l)%nat
      ∧ (verify_from i prev (take n l)).1 = true
      ∧ (verify_from i prev (take (S n) l)).1 = false
  end.
Proof.
  revert i prev. induction l as [|e l IH]; intros i prev; cbn [verify_from]; [done|].
  destruct (negb (bool_decide _)) eqn:E1.
  { exists 0%nat. cbn. rewrite E1. split_and!; [f_equal; lia|lia|done|done]. }
  destruct (negb (compute_hash _ _ =? _)%string) eqn:E2.
  { exists 0%nat. cbn. rewrite E1, E2. split_and!; [f_equal; lia|lia|done|done]. }
  specialize (IH (i + 1) (Some (ae_hash e))).
  destruct (verify_from (i + 1) (Some (ae_hash e)) l) as [[] o]; [done|].
  destruct IH as (n & -> & Hlt & H1 & H2). exists (S n). cbn [take verify_from length].
  rewrite E1, E2. split_and!; [f_equal; lia|lia|done|exact H2].
Qed.

(** Rows written by [record]. *)
Inductive audit_history : list AuditRow → Prop :=
| history_empty : audit_history []
| history_record id fields db :
    audit_history db → audit_history (record id fields db).2.

Lemma audit_rows_snoc c r db :
  audit_rows c (db ++ [r]) = audit_rows c db
    ++ (if (au_connection_id r =? uuid_to_string c)%string then [r] else []).
Proof.
  unfold audit_rows. rewrite List.filter_app. cbn.
  by destruct (au_connection_id r =? uuid_to_string c)%string.
Qed.

Lemma record_decodes id fields db :
  ∃ row, (record id fields db).2 = db ++ [row]
    ∧ au_connection_id row = uuid_to_string (af_connection_id fields)
    ∧ au_hash row = ae_hash (record id fields db).1
    ∧ row_to_audit row = Ok (record id fields db).1.
Proof.
  eexists. split_and!; [reflexivity..|].
  unfold row_to_audit, store_parse_uuid.
  cbn [au_id au_connection_id au_engine au_kind au_ts au_agent_prompt au_sql au_action
    au_approved_by au_affected_estimate au_error au_prev_hash au_hash].
  rewrite !uuid_roundtrip, engine_codec, query_kind_codec. cbn. by destruct fields.
Qed.

Lemma history_verifies db c :
  audit_history db →
  ∃ entries, collect row_to_audit (audit_rows c db) = Ok entries
    ∧ verify_entries entries = (true, None)
    ∧ (ae_hash <$> last entries) = (au_hash <$> last (audit_rows c db)).
Proof.
  induction 1 as [|id fields db _ (entries & Hd & Hv & Hl)]; [by exists []|].
  destruct (record_decodes id fields db) as (row & -> & Hc & Hh & Hrow).
  rewrite audit_rows_snoc, Hc.
  destruct (String.eqb_spec (uuid_to_string (af_connection_id fields)) (uuid_to_string c))
    as [Heq|]; [|rewrite app_nil_r; eauto].
  apply (inj uuid_to_string) in Heq. subst c.
  exists (entries ++ [(record id fields db).1]). split_and!.
  - apply collect_app; [done|]. cbn [collect]. by rewrite Hrow.
  - unfold verify_entries in *. rewrite verify_from_snoc by (by rewrite Hv).
    cbn [verify_from record fst ae_prev_hash ae_fields ae_hash].
    rewrite <-Hl. rewrite bool_decide_true by (by destruct (last entries)).
    by rewrite String.eqb_refl.
  - rewrite !last_snoc. cbn [fmap option_fmap option_map]. by rewrite Hh.
Qed.

Definition same_entry (a b : AuditEntry) : Prop :=
  same_fields (ae_fields a) (ae_fields b) ∧ ae_prev_hash a = ae_prev_hash b
  ∧ ae_hash a = ae_hash b.

Lemma compute_hash_sha prev f : is_sha256_hex (compute_hash prev f) = true.
Proof. apply lower_hex_is_sha. Qed.

Definition no_separator (l : list ascii) : Prop := Forall (λ a, a ≠ record_separator) l.

Lemma hex_no_separator s : is_sha256_hex s = true → no_separator (bytes_of s).
Proof.
  unfold is_sha256_hex, no_separator. intros [_ H]%andb_true_iff.
  apply forallb_Forall in H. eapply Forall_impl; [exact H|]. by intros a Ha ->.
Qed.

Lemma separator_split (a b x y : list ascii) :
  no_separator a → no_separator b →
  a ++ record_separator :: x = b ++ record_separator :: y → a = b ∧ x = y.
Proof.
  intros Ha. revert b. induction Ha as [|c a Hc Ha IH]; intros b Hb H.
  - destruct b as [|d b]; [by injection H|]. injection H as <- _.
    by apply Forall_cons in Hb as [Hb _].
  - destruct Hb as [|d b Hd Hb]; [by injection H as ->|].
    injection H as -> H. apply IH in H as [-> ->]; done.
Qed.

Definition prev_ok (o : option string) : Prop :=
  match o with Some s => is_sha256_hex s = true | None => True end.

Lemma prev_ok_inj o o' :
  prev_ok o → prev_ok o' → unwrap_or_empty o = unwrap_or_empty o' → o = o'.
Proof.
  destruct o as [s|], o' as [s'|]; cbn; intros H H' Heq; subst; done.
Qed.

(** The bytes [compute_hash] hashes. *)
Definition hashed_bytes (prev_hash : option string) (fields : AuditFields) : list ascii :=
  bytes_of (unwrap_or_empty prev_hash) ++ [record_separator] ++ bytes_of (canonical fields).

(** Two entries, one of each log, whose hashed bytes collide. *)
Definition entries_collide (l l' : list AuditEntry) : Prop :=
  ∃ e e', e ∈ l ∧ e' ∈ l'
    ∧ collide (hashed_bytes (ae_prev_hash e) (ae_fields e))
        (hashed_bytes (ae_prev_hash e') (ae_fields e')).

Lemma entries_collide_app l l' m m' :
  entries_collide l l' → entries_collide (l ++ m) (l' ++ m').
Proof.
  intros (e & e' & H & H' & Hc). exists e, e'. split_and!; [..|done]; apply elem_of_app; by left.
Qed.

Lemma compute_hash_inj o o' f g :
  prev_ok o → prev_ok o' → clock_ok (af_ts f) → clock_ok (af_ts g) →
  compute_hash o f = compute_hash o' g →
  o = o' ∧ same_fields f g ∨ collide (hashed_bytes o f) (hashed_bytes o' g).
Proof.
  intros Ho Ho' Hf Hg H. unfold compute_hash in H. apply digest_inj in H as [Heq|]; [left|by right].
  cbn [app] in Heq.
  assert (∀ p, prev_ok p → no_separator (bytes_of (unwrap_or_empty p))) as Hsep.
  { intros [s|] Hp; cbn; [by apply hex_no_separator|constructor]. }
  apply separator_split in Heq as [H1 H2]; [|auto..].
  split; [apply prev_ok_inj; [done..|]; by apply bytes_of_inj|].
  apply canonical_inj; [done..|]. by apply bytes_of_inj.
Qed.

Lemma verify_snoc_inv i prev l e :
  prev_ok prev → (verify_from i prev (l ++ [e])).1 = true →
  (verify_from i prev l).1 = true
  ∧ ae_prev_hash e = match last l with Some x => Some (ae_hash x) | None => prev end
  ∧ compute_hash (ae_prev_hash e) (ae_fields e) = ae_hash e ∧ prev_ok (ae_prev_hash e).
Proof.
  intros Hp H. assert ((verify_from i prev l).1 = true
    ∧ prev_ok match last l with Some x => Some (ae_hash x) | None => prev end) as [Hv Hpl].
  { revert i prev Hp H. induction l as [|x l IH]; intros i prev Hp H; [done|].
    cbn [verify_from app] in *. destruct (negb (bool_decide _)); [done|].
    destruct (negb (compute_hash _ _ =? _)%string) eqn:E; [done|].
    assert (prev_ok (Some (ae_hash x))) as Hx.
    { cbn. apply negb_false_iff, String.eqb_eq in E. rewrite <-E. apply compute_hash_sha. }
    destruct (IH _ _ Hx H) as [H1 H2]. split; [done|].
    destruct l as [|y l]; [done|]. rewrite last_cons_cons.
    by destruct (last (y :: l)) eqn:El; [|apply last_None in El]. }
  split; [done|]. rewrite verify_from_snoc in H by done. cbn [verify_from] in H.
  destruct (negb (bool_decide _)) eqn:E1; [done|].
  destruct (negb (compute_hash _ _ =? _)%string) eqn:E2; [done|]. bools.
  split_and!; try done. by rewrite E1.
Qed.

Lemma verified_entries_determined l l' :
  Forall (λ e, clock_ok (af_ts (ae_fields e))) l →
  Forall (λ e, clock_ok (af_ts (ae_fields e))) l' →
  verify_entries l = (true, None) → verify_entries l' = (true, None) →
  (ae_hash <$> last l) = (ae_hash <$> last l') →
  Forall2 same_entry l l' ∨ entries_collide l l'.
Proof.
  unfold verify_entries. intros Hc Hc' Hv Hv'.
  apply (f_equal fst) in Hv, Hv'. cbn in Hv, Hv'.
  revert l' Hc' Hv'. induction l as [|e l IH] using rev_ind; intros l' Hc' Hv' Hl.
  - destruct l' as [|e' l' _] using rev_ind; [left; constructor|]. by rewrite last_snoc in Hl.
  - destruct l' as [|e' l' _] using rev_ind; [by rewrite last_snoc in Hl|].
    rewrite !last_snoc in Hl. injection Hl as Hl.
    apply verify_snoc_inv in Hv as (Hv & Hp & Hh & Hok); [|done].
    apply verify_snoc_inv in Hv' as (Hv' & Hp' & Hh' & Hok'); [|done].
    apply Forall_app in Hc as [Hc [Hce _]%Forall_cons].
    apply Forall_app in Hc' as [Hc' [Hce' _]%Forall_cons].
    rewrite <-Hh, <-Hh' in Hl.
    destruct (compute_hash_inj _ _ _ _ Hok Hok' Hce Hce' Hl) as [[Hpp Hs]|Hcol].
    2: { right. exists e, e'. split_and!; [..|done]; apply elem_of_app; right; left. }
    destruct (IH Hc Hv l' Hc' Hv') as [Hf|]; [|left|right; by apply entries_collide_app].
    + rewrite Hp, Hp' in Hpp. by destruct (last l), (last l').
    + apply Forall2_app; [done|]. repeat constructor; try apply Hs; [done|congruence].
Qed.
End audit_chain.

(** The audited fields are recovered from the canonical row up to one
    confusion: an absent text and an empty one serialise alike.  In particular
    no byte can move between the SQL, prompt and error texts. *)
Theorem audit_canonical_injective {P : Platform} {L : PlatformLaws P} f g :
  clock_ok (af_ts f) → clock_ok (af_ts g) → canonical f = canonical g ↔ same_fields f g.
Proof. apply canonical_inj. Qed.

Module AuditSample.
Definition fields (prompt : option string) : @AuditFields Reference.platform :=
  {| af_connection_id := 3%positive : @Uuid Reference.platform; af_ts := 10;
     af_engine := Engine.Postgres; af_agent_prompt := prompt; af_sql := "SELECT 1";
     af_kind := QueryKind.Read; af_action := "execute"; af_approved_by := None;
     af_affected_estimate := Some (-5); af_error := None |}.
Definition db : list (@AuditRow) :=
  (record (2%positive : @Uuid Reference.platform) (fields (Some "p"))
    (record (1%positive : @Uuid Reference.platform) (fields None) []).2).2.
End AuditSample.

(** The confusion is real: an entry without a prompt and one with an empty
    prompt have the same canonical text, hence the same hash. *)
Lemma audit_canonical_injective_witness :
  canonical (AuditSample.fields None) = canonical (AuditSample.fields (Some "")).
Proof.
  assert (clock_ok 10) as H10 by (by apply (bool_decide_unpack _)).
  refine (proj2 (audit_canonical_injective (AuditSample.fields None) (AuditSample.fields (Some ""))
    H10 H10) _).
  unfold same_fields. split_and!; reflexivity.
Defined.

(** A log written only by [record] verifies for every connection, however
    the connections' entries interleave. *)
Theorem audit_history_verifies {P : Platform} {L : PlatformLaws P} db connection_id :
  audit_history db → verify_chain connection_id db = Ok (true, None).
Proof.
  intros Hh. destruct (history_verifies db connection_id Hh) as (entries & Hd & Hv & _).
  unfold verify_chain. rewrite Hd. cbn. by rewrite Hv.
Qed.

Lemma audit_history_verifies_witness :
  verify_chain (3%positive : @Uuid Reference.platform) AuditSample.db = Ok (true, None).
Proof.
  apply (audit_history_verifies AuditSample.db). apply history_record, history_record, history_empty.
Defined.

(** C32. Tamper evidence of the audit log: two verified logs of a connection
    whose last hashes agree have the same entries (up to absent/empty texts), or
    the hashed bytes of an entry of one and an entry of the other are a SHA-256
    collision; and when verification fails it names the first entry whose
    link or hash is broken. *)
Theorem audit_tamper_evident {P : Platform} {L : PlatformLaws P} :
  (∀ l l', Forall (λ e, clock_ok (af_ts (ae_fields e))) l →
     Forall (λ e, clock_ok (af_ts (ae_fields e))) l' →
     verify_entries l = (true, None) → verify_entries l' = (true, None) →
     (ae_hash <$> last l) = (ae_hash <$> last l') →
     Forall2 same_entry l l' ∨ entries_collide l l')
  ∧ (∀ l bad, verify_entries l = (false, bad) →
       ∃ n, bad = Some (Z.of_nat n) ∧ (n < length l)%nat
         ∧ verify_entries (take n l) = (true, None)
         ∧ (verify_entries (take (S n) l)).1 = false).
Proof.
  split; [apply verified_entries_determined|].
  intros l bad Hv. pose proof (verify_from_spec 0 None l) as Hs.
  unfold verify_entries in *. rewrite Hv in Hs. destruct Hs as (n & -> & Hlt & H1 & H2).
  exists n. split_and!; [f_equal; lia|done| |done].
  pose proof (verify_from_spec 0 None (take n l)) as Hs.
  destruct (verify_from 0 None (take n l)) as [[] o]; [by rewrite Hs|done].
Qed.

Lemma audit_tamper_evident_witness :
  ∃ e l, collect row_to_audit AuditSample.db = Ok (e :: l)
    ∧ (Forall2 same_entry (e :: l) (e :: l) ∨ entries_collide (e :: l) (e :: l)).
Proof.
  assert (match collect row_to_audit AuditSample.db with
          | Ok l => match l with [] => false | _ => true end
              && forallb (λ e, bool_decide (clock_ok (af_ts (ae_fields e)))) l
              && bool_decide (verify_entries l = (true, None))
          | Err _ => false end = true) as Hc by (vm_compute; reflexivity).
  destruct (collect row_to_audit AuditSample.db) as [[|e l]|] eqn:He; try discriminate Hc.
  apply andb_true_iff in Hc as [Hc Hv%bool_decide_eq_true].
  apply andb_true_iff in Hc as [_ Hck%forallb_Forall].
  exists e, l. split; [reflexivity|].
  assert (Forall (λ e, clock_ok (af_ts (ae_fields e))) (e :: l)) as Hok.
  { eapply Forall_impl; [exact Hck|]. intros x Hx. by apply bool_decide_eq_true in Hx. }
  destruct audit_tamper_evident as [H _].
  exact (H (e :: l) (e :: l) Hok Hok Hv Hv eq_refl).
Defined.
