(* ===== verification/Safety.v ===== *)
(** * Statement safety (src-tauri/src/safety/{l1_parse,l4_gate}.rs)

    L1 classifies one SQL text from the tree the [sqlparser] crate returns; L4
    decides whether a classified statement may run, needs an approval or is
    refused.  [parse_sql] is the crate's parser, an argument; the trees below
    have the constructors and fields of the crate's AST the code looks at, and
    beside them, in [inner], the queries inside the fields it does not look at:
    those of expressions, so that what the classification misses can be stated
    ([overlooked]). *)

From S2P Require Export Model.

(** ** The parsed statements *)

(** [Query { with, body, locks, .. }]: the queries of [with.cte_tables] and the
    [Debug] texts of the locks; an absent optional field is [None]. *)
Inductive Query :=
| MkQuery (with_ : option (list Query)) (body : SetExpr) (locks : list string)
    (inner : list Query)
with SetExpr :=
| SetSelect (into : option string) (from : list TableWithJoins) (inner : list Query)
| SetQuery (query : Query)
| SetOperation (left_ right_ : SetExpr)
| SetInsert (statement : Statement)
| SetUpdate (statement : Statement)
| SetDelete (statement : Statement)
| SetMerge (statement : Statement)
| SetValues (inner : list Query)
| SetTable
with TableWithJoins :=
| MkTableWithJoins (relation : TableFactor) (joins : list TableFactor)
with TableFactor :=
| FactorTable (name : string)
| FactorDerived (subquery : Query)
| FactorOther (inner : list Query)
with Statement :=
| StQuery (query : Query)
| StExplain (analyze : bool) (statement : Statement)
| StInsert (source : option Query)
| StUpdate (table : TableWithJoins) (selection : option string)
| StDelete (from : list TableWithJoins) (selection : option string)
| StCreateTable | StCreateIndex | StCreateView | StCreateSchema | StCreateDatabase
| StAlterTable | StDrop | StTruncate
| StGrant | StRevoke
| StOther.

Definition q_body (q : Query) : SetExpr := match q with MkQuery _ body _ _ => body end.
Definition q_locks (q : Query) : list string := match q with MkQuery _ _ locks _ => locks end.

Class SqlParser := {
  (** [Parser::parse_sql]; the error is its [Display] text. *)
  parse_sql : Engine.t → string → result string (list Statement);
}.

(** ** L1 *)

Definition fail_safe (note : string) : Classification :=
  {| cl_kind := QueryKind.Write; cl_risk := QueryRisk.High; cl_statement_count := 1;
     cl_no_where := false; cl_tables := []; cl_notes := [note]; cl_rollback_safe := false |}.

Definition has_dialect (engine : Engine.t) : bool :=
  match engine with
  | Engine.Postgres | Engine.Mysql | Engine.Sqlite => true
  | Engine.Mongodb => false
  end.

Fixpoint query_has_dml (q : Query) {struct q} : bool :=
  match q with
  | MkQuery with_ body _ _ =>
      match with_ with
      | Some cte_tables => existsb query_has_dml cte_tables
      | None => false
      end || setexpr_has_dml body
  end
with setexpr_has_dml (se : SetExpr) {struct se} : bool :=
  match se with
  | SetInsert _ | SetUpdate _ => true
  | SetQuery q => query_has_dml q
  | SetOperation l r => setexpr_has_dml l || setexpr_has_dml r
  | _ => false
  end.

Definition query_selects_into (q : Query) : bool :=
  match q_body q with SetSelect (Some _) _ _ => true | _ => false end.

Definition short_kind (stmt : Statement) : string :=
  match stmt with
  | StQuery _ => "Query"
  | StInsert _ => "Insert"
  | StUpdate _ _ => "Update"
  | StDelete _ _ => "Delete"
  | _ => "Other"
  end.

(** [notes] and [no_where] are the [&mut] arguments. *)
Fixpoint classify_stmt (stmt : Statement) (notes : list string) (no_where : bool)
  : QueryKind.t * list string * bool :=
  match stmt with
  | StQuery q =>
      if query_has_dml q then
        (QueryKind.Write, notes ++ ["write DML inside a CTE — reclassified as a write"], no_where)
      else if query_selects_into q then
        (QueryKind.Write,
         notes ++ ["SELECT ... INTO creates a table — reclassified as a write"], no_where)
      else if negb (bool_decide (q_locks q = [])) then
        (QueryKind.Write,
         notes ++ ["SELECT ... FOR UPDATE/SHARE takes row locks — reclassified as a write"],
         no_where)
      else (QueryKind.Read, notes, no_where)
  | StExplain analyze statement =>
      if analyze then
        classify_stmt statement
          (notes ++
            ["EXPLAIN ANALYZE executes the statement — classified by its inner statement"])
          no_where
      else (QueryKind.Read, notes, no_where)
  | StInsert _ => (QueryKind.Write, notes, no_where)
  | StUpdate _ selection => (QueryKind.Write, notes, bool_decide (selection = None))
  | StDelete _ selection => (QueryKind.Write, notes, bool_decide (selection = None))
  | StCreateTable | StCreateIndex | StCreateView | StCreateSchema | StCreateDatabase
  | StAlterTable | StDrop | StTruncate => (QueryKind.Ddl, notes, no_where)
  | StGrant | StRevoke => (QueryKind.Privilege, notes, no_where)
  | StOther =>
      (QueryKind.Write,
       notes ++ ["unrecognized statement shape — treated as a write (fail-safe): "
                 +:+ short_kind stmt], no_where)
  end.

(** [collect_tables] and the [walk_*] functions push onto [out]. *)
Fixpoint walk_query (q : Query) (out : list string) {struct q} : list string :=
  match q with
  | MkQuery with_ body _ _ =>
      walk_setexpr body
        (match with_ with
         | Some cte_tables => fold_left (λ out cte, walk_query cte out) cte_tables out
         | None => out
         end)
  end
with walk_setexpr (se : SetExpr) (out : list string) {struct se} : list string :=
  match se with
  | SetSelect _ from _ => fold_left (λ out twj, walk_twj twj out) from out
  | SetQuery q => walk_query q out
  | SetOperation l r => walk_setexpr r (walk_setexpr l out)
  | SetInsert stmt | SetUpdate stmt => collect_tables stmt out
  | _ => out
  end
with walk_twj (twj : TableWithJoins) (out : list string) {struct twj} : list string :=
  match twj with
  | MkTableWithJoins relation joins =>
      fold_left (λ out join, walk_tf join out) joins (walk_tf relation out)
  end
with walk_tf (tf : TableFactor) (out : list string) {struct tf} : list string :=
  match tf with
  | FactorTable name => out ++ [name]
  | FactorDerived subquery => walk_query subquery out
  | FactorOther _ => out
  end
with collect_tables (stmt : Statement) (out : list string) {struct stmt} : list string :=
  match stmt with
  | StQuery q => walk_query q out
  | StUpdate table _ => walk_twj table out
  | StDelete from _ => fold_left (λ out twj, walk_twj twj out) from out
  | StInsert source => match source with Some src => walk_query src out | None => out end
  | _ => out
  end.

(** [v.retain(|t| seen.insert(t.clone()))] *)
Fixpoint dedup_from (seen : gset string) (v : list string) : list string :=
  match v with
  | [] => []
  | t :: v' => if bool_decide (t ∈ seen) then dedup_from seen v'
               else t :: dedup_from ({[t]} ∪ seen) v'
  end.
Definition dedup (v : list string) : list string := dedup_from ∅ v.

Definition rollback_safe (stmt : Statement) : bool :=
  match stmt with StInsert _ | StUpdate _ _ | StDelete _ _ => true | _ => false end.

Section safety.
Context `{SqlParser}.

(** [statements.len() as u32] *)
Definition as_u32 (n : Z) : Z := n mod 2 ^ 32.

Definition classify (sql : string) (engine : Engine.t) : AppResult Classification :=
  if negb (has_dialect engine) then
    Ok (fail_safe "MongoDB document operations must use the typed document-query API")
  else
    match parse_sql engine sql with
    | Err e => Ok (fail_safe ("parse error — treated as a write (fail-safe): " +:+ e))
    | Ok [] => Ok (fail_safe "no parseable statement — treated as a write (fail-safe)")
    | Ok [stmt] =>
        let '(kind, notes, no_where) := classify_stmt stmt [] false in
        Ok {| cl_kind := kind;
              cl_risk := match kind with
                         | QueryKind.Read => QueryRisk.Low
                         | QueryKind.Write =>
                             if no_where then QueryRisk.High else QueryRisk.Medium
                         | QueryKind.Ddl | QueryKind.Privilege => QueryRisk.High
                         end;
              cl_statement_count := 1;
              cl_no_where := no_where;
              cl_tables := dedup (collect_tables stmt []);
              cl_notes := if no_where
                then notes ++ ["UPDATE/DELETE without a WHERE clause — affects every row"]
                else notes;
              cl_rollback_safe := rollback_safe stmt |}
    | Ok statements =>
        Ok {| cl_kind := QueryKind.Write;
              cl_risk := QueryRisk.High;
              cl_statement_count := as_u32 (Z.of_nat (length statements));
              cl_no_where := false;
              cl_tables := dedup (fold_left (λ out s, collect_tables s out) statements []);
              cl_notes := [pretty (Z.of_nat (length statements))
                           +:+ " statements found — only single statements are allowed"];
              cl_rollback_safe := false |}
    end.
End safety.

(** ** L4 *)

Inductive GateDecision := AutoRun | RequireApproval | Block (reason : string).

Definition kind_label (kind : QueryKind.t) : string :=
  match kind with
  | QueryKind.Read => "reading"
  | QueryKind.Write => "writing"
  | QueryKind.Ddl => "schema change (DDL)"
  | QueryKind.Privilege => "privilege change"
  end.

Definition decide (settings : SafetySettings) (c : Classification) : GateDecision :=
  if 1 <? cl_statement_count c then
    Block "multiple statements are not allowed — submit one statement at a time"
  else
    match cl_kind c with
    | QueryKind.Read => if auto_run_reads settings then AutoRun else RequireApproval
    | QueryKind.Privilege =>
        Block "arbitrary privilege SQL is blocked; use a supported, narrowly scoped administrative action"
    | QueryKind.Write | QueryKind.Ddl =>
        if negb (allow_writes settings) then
          Block (kind_label (cl_kind c) +:+
            " is disabled for this connection (writes are off by default). Enable writes in the connection's safety settings to propose it.")
        else RequireApproval
    end.

(** ** What the classification means *)

(** What in a statement can make it do more than read: the body of a query that
    is an INSERT, UPDATE, DELETE or MERGE, the INTO of a SELECT, the row locks of
    a query, and a statement that is neither a query nor an EXPLAIN. *)
Module Change.
Inductive t := Insert | Update | Delete | Merge | Into | Locks | Other.
End Change.

(** How a query sits in the one around it: as a common table expression, in
    parentheses as its body, as an operand of a set operation, as a table of its
    FROM, or inside an expression. *)
Inductive hop := InCte | InNested | InOperand | InTable | InExpression.

(** The changes of a query, each with the way down to it. *)
Inductive in_query : Query → list hop → Change.t → Prop :=
| query_locks with_ body locks inner :
    locks ≠ [] → in_query (MkQuery with_ body locks inner) [] Change.Locks
| query_cte ctes body locks inner q p c :
    q ∈ ctes → in_query q p c → in_query (MkQuery (Some ctes) body locks inner) (InCte :: p) c
| query_body with_ body locks inner p c :
    in_body body p c → in_query (MkQuery with_ body locks inner) p c
| query_expression with_ body locks inner q p c :
    q ∈ inner → in_query q p c → in_query (MkQuery with_ body locks inner) (InExpression :: p) c
with in_body : SetExpr → list hop → Change.t → Prop :=
| body_into table from inner : in_body (SetSelect (Some table) from inner) [] Change.Into
| body_from into from inner twj p c :
    twj ∈ from → in_tables twj p c → in_body (SetSelect into from inner) p c
| body_expression into from inner q p c :
    q ∈ inner → in_query q p c → in_body (SetSelect into from inner) (InExpression :: p) c
| body_nested q p c : in_query q p c → in_body (SetQuery q) (InNested :: p) c
| body_left l r p c : in_body l p c → in_body (SetOperation l r) (InOperand :: p) c
| body_right l r p c : in_body r p c → in_body (SetOperation l r) (InOperand :: p) c
| body_insert s : in_body (SetInsert s) [] Change.Insert
| body_update s : in_body (SetUpdate s) [] Change.Update
| body_delete s : in_body (SetDelete s) [] Change.Delete
| body_merge s : in_body (SetMerge s) [] Change.Merge
| body_values inner q p c :
    q ∈ inner → in_query q p c → in_body (SetValues inner) (InExpression :: p) c
with in_tables : TableWithJoins → list hop → Change.t → Prop :=
| tables_relation relation joins p c :
    in_factor relation p c → in_tables (MkTableWithJoins relation joins) p c
| tables_join relation joins tf p c :
    tf ∈ joins → in_factor tf p c → in_tables (MkTableWithJoins relation joins) p c
with in_factor : TableFactor → list hop → Change.t → Prop :=
| factor_derived q p c : in_query q p c → in_factor (FactorDerived q) (InTable :: p) c
| factor_other inner q p c :
    q ∈ inner → in_query q p c → in_factor (FactorOther inner) (InExpression :: p) c.

Scheme in_query_mut := Minimality for in_query Sort Prop
with in_body_mut := Minimality for in_body Sort Prop
with in_tables_mut := Minimality for in_tables Sort Prop
with in_factor_mut := Minimality for in_factor Sort Prop.

(** The changes of a statement; EXPLAIN runs its argument only with ANALYZE. *)
Inductive changes : Statement → list hop → Change.t → Prop :=
| changes_query q p c : in_query q p c → changes (StQuery q) p c
| changes_analyze s p c : changes s p c → changes (StExplain true s) p c
| changes_other s :
    (∀ q, s ≠ StQuery q) → (∀ analyze t, s ≠ StExplain analyze t) → changes s [] Change.Other.

(** A statement that only reads, as far as its tree shows. *)
Definition pure (s : Statement) : Prop := ∀ p c, ¬ changes s p c.

(** The changes [classify_stmt] does not look for. *)
Definition overlooked (p : list hop) (c : Change.t) : Prop :=
  match c with
  | Change.Insert | Change.Update => InTable ∈ p ∨ InExpression ∈ p
  | Change.Delete | Change.Merge => True
  | Change.Into | Change.Locks => p ≠ []
  | Change.Other => False
  end.

(** The statement that runs: EXPLAIN ANALYZE runs its argument. *)
Inductive executes : Statement → Statement → Prop :=
| executes_self s : executes s s
| executes_analyze s t : executes s t → executes (StExplain true s) t.

Definition unfiltered (s : Statement) : Prop :=
  (∃ table, s = StUpdate table None) ∨ (∃ from, s = StDelete from None).

(** Whether [query_has_dml] goes down a hop. *)
Definition scanned (h : hop) : Prop := h ≠ InTable ∧ h ≠ InExpression.

#[local] Instance hop_eq_dec : EqDecision hop.
Proof. solve_decision. Defined.
#[local] Instance scanned_dec h : Decision (scanned h).
Proof. unfold scanned. apply _. Defined.

Lemma scanned_path p : Forall scanned p ↔ ¬ (InTable ∈ p ∨ InExpression ∈ p).
Proof.
  unfold scanned. rewrite Forall_forall. split.
  - intros H [Ht|Ht]; by destruct (H _ Ht).
  - intros H h Hh. split; intros ->; apply H; auto.
Qed.

Definition dml_at (P : list hop → Change.t → Prop) : Prop :=
  ∃ p c, P p c ∧ (c = Change.Insert ∨ c = Change.Update) ∧ Forall scanned p.

Lemma dml_hop (P R : list hop → Change.t → Prop) h :
  scanned h → (∀ p c, P p c → R (h :: p) c) → dml_at P → dml_at R.
Proof. intros Hh HR (p & c & Hp & Hc & Hs). exists (h :: p), c. split_and!; auto. Qed.

Lemma dml_same (P R : list hop → Change.t → Prop) :
  (∀ p c, P p c → R p c) → dml_at P → dml_at R.
Proof. intros HR (p & c & Hp & Hc & Hs). exists p, c. auto. Qed.

Fixpoint query_dml_sound (q : Query) : query_has_dml q = true → dml_at (in_query q)
with set_dml_sound (se : SetExpr) : setexpr_has_dml se = true → dml_at (in_body se).
Proof.
  - destruct q as [[ctes|] body locks inner]; cbn; intros H.
    2: { apply (dml_same (in_body body)); [by constructor|by apply set_dml_sound]. }
    apply orb_true_iff in H as [H|H].
    2: { apply (dml_same (in_body body)); [by constructor|by apply set_dml_sound]. }
    assert (∃ q, q ∈ ctes ∧ dml_at (in_query q)) as (q & Hq & Hd).
    { revert H. clear -query_dml_sound. induction ctes as [|c ctes IH]; cbn; [done|]. intros H.
      apply orb_true_iff in H as [H|H].
      - exists c. split; [by left|]. by apply query_dml_sound.
      - destruct (IH H) as (q & Hq & Hd). exists q. split; [by right|done]. }
    apply (dml_hop (in_query q) _ InCte); [done|by econstructor|done].
  - destruct se as [| q | l r | | | | | |]; cbn; intros H; try done.
    + apply (dml_hop (in_query q) _ InNested); [done|by constructor|by apply query_dml_sound].
    + apply orb_true_iff in H as [H|H];
        [apply (dml_hop (in_body l) _ InOperand)|apply (dml_hop (in_body r) _ InOperand)];
        try done; try (intros p c Hp; by constructor); by apply set_dml_sound.
    + exists [], Change.Insert. split_and!; [constructor|by left|done].
    + exists [], Change.Update. split_and!; [constructor|by right|done].
Qed.

Lemma query_has_dml_iff q : query_has_dml q = true ↔ dml_at (in_query q).
Proof.
  split; [apply query_dml_sound|]. intros (p & c & Hq & Hc & Hp). revert q p c Hq Hc Hp.
  apply (in_query_mut
    (λ q p c, c = Change.Insert ∨ c = Change.Update → Forall scanned p → query_has_dml q = true)
    (λ se p c, c = Change.Insert ∨ c = Change.Update → Forall scanned p → setexpr_has_dml se = true)
    (λ twj p c, Forall scanned p → False) (λ tf p c, Forall scanned p → False)); cbn.
  all: try naive_solver.
  all: try (intros * ?; intros; decompose_Forall_hyps; by unfold scanned in *; naive_solver).
  - intros ctes body locks inner q p c Hin _ IH Hc [_ Hp]%Forall_cons. apply orb_true_iff. left.
    apply existsb_exists. exists q. rewrite <-list_elem_of_In. auto.
  - intros with_ body locks inner p c _ IH Hc Hp. rewrite IH by done. apply orb_true_r.
  - intros l r p c _ IH Hc [_ Hp]%Forall_cons. by rewrite IH.
  - intros l r p c _ IH Hc [_ Hp]%Forall_cons. rewrite IH by done. apply orb_true_r.
Qed.

(** Only the outermost SELECT and the outermost locks have the empty way. *)
Lemma in_query_outermost q c :
  in_query q [] c ↔
  c = Change.Locks ∧ q_locks q ≠ [] ∨ in_body (q_body q) [] c.
Proof.
  split.
  - inversion 1; subst; cbn; [by left|by right].
  - destruct q as [with_ body locks inner]; cbn. intros [[-> Hl]|Hb]; by constructor.
Qed.

Lemma in_tables_hop twj p c : in_tables twj p c → p ≠ [].
Proof. inversion 1; subst; match goal with H : in_factor _ _ _ |- _ => by inversion H end. Qed.

Lemma in_body_outermost se c :
  in_body se [] c →
  c = Change.Into ∧ (∃ table from inner, se = SetSelect (Some table) from inner)
  ∨ c = Change.Insert ∨ c = Change.Update ∨ c = Change.Delete ∨ c = Change.Merge.
Proof.
  inversion 1; subst; try naive_solver.
  match goal with H : in_tables _ [] _ |- _ => by apply in_tables_hop in H end.
Qed.

Lemma query_selects_into_iff q : query_selects_into q = true ↔ in_query q [] Change.Into.
Proof.
  rewrite in_query_outermost. unfold query_selects_into. split.
  - destruct (q_body q) as [[into|] from inner| | | | | | | |]; intros; try done. right. constructor.
  - intros [[? _]|Hb]; [done|].
    apply in_body_outermost in Hb as [[_ (table & from & inner & ->)]|Hb]; naive_solver.
Qed.

Lemma locks_iff q : q_locks q ≠ [] ↔ in_query q [] Change.Locks.
Proof.
  rewrite in_query_outermost. split; [by left|]. intros [[_ ?]|Hb]; [done|].
  apply in_body_outermost in Hb. naive_solver.
Qed.

Lemma in_query_not_other q p c : in_query q p c → c ≠ Change.Other.
Proof.
  apply (in_query_mut (λ _ _ c, c ≠ Change.Other) (λ _ _ c, c ≠ Change.Other)
           (λ _ _ c, c ≠ Change.Other) (λ _ _ c, c ≠ Change.Other)); done.
Qed.

(** The three checks of a query fail together exactly when every change in it
    is one they overlook. *)
Lemma checks_overlook q :
  query_has_dml q = false ∧ query_selects_into q = false ∧ q_locks q = []
  ↔ ∀ p c, in_query q p c → overlooked p c.
Proof.
  rewrite <-!not_true_iff_false, query_has_dml_iff, query_selects_into_iff. split.
  - intros (Hd & Hi & Hl) p c Hq.
    destruct c; cbn; try done.
    1, 2: destruct (base.decide (Forall scanned p)) as [Hp|Hp];
          [by destruct Hd; exists p; eauto|rewrite scanned_path in Hp; by apply dec_stable].
    + by intros ->.
    + intros ->. by apply locks_iff in Hq.
    + by apply in_query_not_other in Hq.
  - intros H. split_and!.
    + intros (p & c & Hq & Hc & Hp). apply H in Hq. apply scanned_path in Hp.
      by destruct Hc as [-> | ->].
    + intros Hi. by apply H in Hi.
    + destruct (q_locks q) eqn:El; [done|]. assert (q_locks q ≠ []) as Hl by (by rewrite El).
      apply locks_iff in Hl. by apply H in Hl.
Qed.

(** A statement is classified as a read exactly when every change in it is one
    the classification overlooks. *)
Lemma classify_stmt_read stmt notes no_where kind notes' no_where' :
  classify_stmt stmt notes no_where = (kind, notes', no_where') →
  kind = QueryKind.Read ↔ ∀ p c, changes stmt p c → overlooked p c.
Proof.
  assert (∀ kind s, kind ≠ QueryKind.Read → (∀ q, s ≠ StQuery q) →
    (∀ analyze t, s ≠ StExplain analyze t) →
    kind = QueryKind.Read ↔ ∀ p c, changes s p c → overlooked p c) as Hother.
  { intros k s Hk Hq He. split; [done|]. intros H. by destruct (H [] Change.Other); constructor. }
  revert notes. induction stmt; intros notes Hc; cbn in Hc; simplify_eq;
    try (by apply Hother).
  - assert ((∀ p c, changes (StQuery query) p c → overlooked p c)
      ↔ ∀ p c, in_query query p c → overlooked p c) as ->.
    { split; [intros H p c Hq; apply H; by constructor|].
      intros H p c Hq. inversion Hq; subst; [by apply H|naive_solver]. }
    rewrite <-checks_overlook. destruct (query_has_dml query); simplify_eq; [naive_solver|].
    destruct (query_selects_into query); simplify_eq; [naive_solver|].
    case_bool_decide; cbn in Hc; simplify_eq; naive_solver.
  - destruct analyze; simplify_eq.
    + rewrite (IHstmt _ Hc). split; intros H p c Hs.
      * inversion Hs; subst; [by apply H|naive_solver].
      * apply H. by constructor.
    + split; [|done]. intros _ p c Hs. inversion Hs; subst; naive_solver.
Qed.

Lemma classify_stmt_no_where stmt notes kind notes' no_where' :
  classify_stmt stmt notes false = (kind, notes', no_where') →
  (no_where' = true ↔ ∃ s, executes stmt s ∧ unfiltered s)
  ∧ (no_where' = true → kind = QueryKind.Write).
Proof.
  assert (∀ s, (∀ b t, s = StExplain b t → b = false) → ¬ unfiltered s →
    false = true ↔ ∃ s', executes s s' ∧ unfiltered s') as Hno.
  { intros s Hs Hu. split; [done|]. intros (s' & He & Hu'). inversion He; subst; [done|].
    by specialize (Hs _ _ eq_refl). }
  assert (∀ s sel, executes s s → (bool_decide (sel = None) = true ↔ unfiltered s) →
    (∀ b t, s ≠ StExplain b t) →
    bool_decide (sel = @None string) = true ↔ ∃ s', executes s s' ∧ unfiltered s') as Hyes.
  { intros s sel _ Hu Hs. rewrite Hu. split; [exists s; split; [constructor|done]|].
    intros (s' & He & Hu'). inversion He; subst; [done|]. by destruct (Hs true s0). }
  revert notes. induction stmt; intros notes Hc; cbn in Hc; simplify_eq;
    try (split; [apply Hno; [done|by intros [(? & ?)|(? & ?)]]|done]).
  - repeat case_match; simplify_eq;
      (split; [apply Hno; [done|by intros [(? & ?)|(? & ?)]]|done]).
  - destruct analyze; simplify_eq.
    + destruct (IHstmt _ Hc) as [H1 H2]. split; [|done]. rewrite H1. split.
      * intros (s & He & Hu). exists s. split; [by constructor|done].
      * intros (s & He & Hu). inversion He; subst; [by destruct Hu as [(? & ?)|(? & ?)]|eauto].
    + split; [apply Hno; [naive_solver|by intros [(? & ?)|(? & ?)]]|done].
  - split; [|done]. apply Hyes; [constructor| |done]. rewrite bool_decide_eq_true.
    split; [intros ->; left; eauto|]. intros [(? & ?)|(? & ?)]; by simplify_eq.
  - split; [|done]. apply Hyes; [constructor| |done]. rewrite bool_decide_eq_true.
    split; [intros ->; right; eauto|]. intros [(? & ?)|(? & ?)]; by simplify_eq.
Qed.

Section gate.
Context {SQ : SqlParser}.

(** The single statement [classify] looks at, if there is exactly one. *)
Definition single_statement (sql : string) (engine : Engine.t) (stmt : Statement) : Prop :=
  has_dialect engine = true ∧ parse_sql engine sql = Ok [stmt].

(** [classify] always answers: from the one statement, or as an unsafe write. *)
Lemma classify_cases sql engine :
  ∃ c, classify sql engine = Ok c
    ∧ ((∃ stmt kind notes no_where, single_statement sql engine stmt
          ∧ classify_stmt stmt [] false = (kind, notes, no_where)
          ∧ cl_kind c = kind ∧ cl_no_where c = no_where ∧ cl_statement_count c = 1
          ∧ cl_rollback_safe c = rollback_safe stmt
          ∧ cl_risk c = match kind with
                        | QueryKind.Read => QueryRisk.Low
                        | QueryKind.Write =>
                            if no_where then QueryRisk.High else QueryRisk.Medium
                        | QueryKind.Ddl | QueryKind.Privilege => QueryRisk.High
                        end)
       ∨ (∀ stmt, ¬ single_statement sql engine stmt)
         ∧ cl_kind c = QueryKind.Write ∧ cl_risk c = QueryRisk.High
         ∧ cl_no_where c = false ∧ cl_rollback_safe c = false).
Proof.
  unfold classify, single_statement. destruct (has_dialect engine); cbn.
  - destruct (parse_sql engine sql) as [[|stmt [|stmt' l]]|e].
    + eexists. split; [done|]. right. split_and!; [naive_solver|done..].
    + destruct (classify_stmt stmt [] false) as [[kind notes] no_where] eqn:Hc.
      eexists. split; [done|]. left. exists stmt, kind, notes, no_where. cbn. naive_solver.
    + eexists. split; [done|]. right. cbn. split_and!; [naive_solver|done..].
    + eexists. split; [done|]. right. split_and!; [naive_solver|done..].
  - eexists. split; [done|]. right. split_and!; [naive_solver|done..].
Qed.

Lemma single_statement_unique sql engine s t :
  single_statement sql engine s → single_statement sql engine t → s = t.
Proof. intros [_ H] [_ H']. rewrite H in H'. by injection H'. Qed.

Lemma decide_auto_run settings c :
  decide settings c = AutoRun ↔
  cl_statement_count c ≤ 1 ∧ cl_kind c = QueryKind.Read ∧ auto_run_reads settings = true.
Proof.
  unfold decide. destruct (Z.ltb_spec 1 (cl_statement_count c)).
  - split; [done|]. lia.
  - split.
    + intros Hd. destruct (cl_kind c); try done.
      * by destruct (auto_run_reads settings).
      * by destruct (allow_writes settings).
      * by destruct (allow_writes settings).
    + intros (_ & -> & ->). done.
Qed.
End gate.

(** C33. What runs without a human: the gate decides [AutoRun] on the
    classification of a text exactly when reads run automatically and the text
    parses, in the engine's dialect, to a single statement in which every change
    at any depth (a data-modifying body, an INTO, a row lock, a statement that is
    neither a query nor an EXPLAIN) is of the kinds the classification overlooks:
    DELETE and MERGE bodies, an INTO or locks below the outermost query, and
    INSERT and UPDATE bodies inside derived tables and expressions.  So a
    statement that only reads always runs by itself, and a text that is
    unparsable, empty, stacked, for the document engine, or holds any other
    change never does. *)
Theorem auto_run_exact {SQ : SqlParser} sql engine settings :
  ∃ c, classify sql engine = Ok c
    ∧ (decide settings c = AutoRun ↔
       auto_run_reads settings = true
       ∧ ∃ stmt, single_statement sql engine stmt ∧ ∀ p ch, changes stmt p ch → overlooked p ch)
    ∧ (∀ stmt, single_statement sql engine stmt → pure stmt →
       (decide settings c = AutoRun ↔ auto_run_reads settings = true)).
Proof.
  destruct (classify_cases sql engine) as (c & Hc & Hcases). exists c. split; [done|].
  assert (decide settings c = AutoRun ↔
    auto_run_reads settings = true
    ∧ ∃ stmt, single_statement sql engine stmt ∧ ∀ p ch, changes stmt p ch → overlooked p ch) as Hiff.
  { rewrite decide_auto_run.
    destruct Hcases as [(stmt & kind & notes & nw & Hs & Hk & -> & _ & -> & _)|(Hno & -> & _)].
    - apply classify_stmt_read in Hk. split.
      + intros (_ & Hr & Ha). split; [done|]. exists stmt. by rewrite <-Hk.
      + intros (Ha & stmt' & Hs' & Hr). split_and!; [done| |done].
        rewrite Hk. by rewrite (single_statement_unique _ _ _ _ Hs Hs').
    - split; [by intros (_ & ? & _)|]. intros (_ & stmt & Hs & _). by destruct (Hno stmt). }
  split; [done|]. intros stmt Hs Hp. rewrite Hiff. split; [by intros [? _]|]. intros Ha.
  split; [done|]. exists stmt. split; [done|]. intros p ch Hch. by destruct (Hp p ch).
Qed.

(** The flags of a classification: a text that is not one parsable statement
    is a high-risk write that is never previewed by execution; [no_where] holds
    exactly when the statement that runs is an UPDATE or DELETE without a filter,
    which is then a high-risk write; [rollback_safe] exactly for one direct
    INSERT, UPDATE or DELETE; and a classification that is not a read is refused
    outright unless writes are enabled, when it needs an approval. *)
Theorem classification_fails_safe {SQ : SqlParser} sql engine settings :
  ∃ c, classify sql engine = Ok c
    ∧ ((∀ stmt, ¬ single_statement sql engine stmt) →
       cl_kind c = QueryKind.Write ∧ cl_risk c = QueryRisk.High ∧ cl_rollback_safe c = false)
    ∧ (cl_no_where c = true ↔
       ∃ stmt s, single_statement sql engine stmt ∧ executes stmt s ∧ unfiltered s)
    ∧ (cl_no_where c = true → cl_kind c = QueryKind.Write ∧ cl_risk c = QueryRisk.High)
    ∧ (cl_rollback_safe c = true ↔
       ∃ stmt, single_statement sql engine stmt ∧ rollback_safe stmt = true)
    ∧ (cl_kind c ≠ QueryKind.Read →
       decide settings c ≠ AutoRun
       ∧ (decide settings c = RequireApproval →
          allow_writes settings = true ∧ cl_kind c ≠ QueryKind.Privilege)).
Proof.
  destruct (classify_cases sql engine) as (c & Hc & Hcases). exists c. split; [done|].
  assert (cl_kind c ≠ QueryKind.Read →
       decide settings c ≠ AutoRun
       ∧ (decide settings c = RequireApproval →
          allow_writes settings = true ∧ cl_kind c ≠ QueryKind.Privilege)) as Hgate.
  { intros Hr. split; [by rewrite decide_auto_run; intros (_ & ? & _)|].
    unfold decide. destruct (1 <? cl_statement_count c); [done|].
    destruct (cl_kind c); try done; by destruct (allow_writes settings). }
  destruct Hcases as [(stmt & kind & notes & nw & Hs & Hk & Ek & En & _ & Er & Erisk)
    |(Hno & Ek & Erisk & En & Er)].
  - apply classify_stmt_no_where in Hk as [Hnw Hw]. rewrite En, Ek, Er, Erisk.
    split_and!; [by intros H; destruct (H stmt)| | | |by rewrite <-Ek].
    + rewrite Hnw. split; [naive_solver|]. intros (stmt' & s & Hs' & H).
      rewrite (single_statement_unique _ _ _ _ Hs Hs'). by exists s.
    + intros ->. by rewrite (Hw eq_refl).
    + split; [naive_solver|]. intros (stmt' & Hs' & H).
      by rewrite (single_statement_unique _ _ _ _ Hs Hs').
  - rewrite Ek, Erisk, En, Er. split_and!; try done.
    + split; [done|]. intros (stmt & s & Hs & _). by destruct (Hno stmt).
    + split; [done|]. intros (stmt & Hs & _). by destruct (Hno stmt).
    + by rewrite <-Ek.
Qed.

Lemma overlooked_auto_run {SQ : SqlParser} sql engine q settings :
  has_dialect engine = true → parse_sql engine sql = Ok [StQuery q] →
  auto_run_reads settings = true → (∀ p ch, in_query q p ch → overlooked p ch) →
  ∃ c, classify sql engine = Ok c ∧ decide settings c = AutoRun.
Proof.
  intros Hd Hp Ha (Hdml & Hinto & Hlocks)%checks_overlook. unfold classify.
  rewrite Hd, Hp. cbn. rewrite Hdml, Hinto, Hlocks. cbn. eexists. split; [done|].
  unfold decide. cbn. by rewrite Ha.
Qed.

(** A CTE whose body is a DELETE is not among the forms [setexpr_has_dml] looks
    for: the statement is classified as a read. *)
Lemma delete_cte_is_read {SQ : SqlParser} sql engine from_ settings :
  has_dialect engine = true →
  parse_sql engine sql
  = Ok [StQuery (MkQuery (Some [MkQuery None (SetDelete (StDelete from_ None)) [] []])
         (SetSelect None [] []) [] [])] → auto_run_reads settings = true →
  ∃ c, classify sql engine = Ok c ∧ decide settings c = AutoRun.
Proof. intros Hd Hp Ha. apply (overlooked_auto_run _ _ _ _ Hd Hp Ha), checks_overlook. done. Qed.

(** [SELECT .. INTO t .. UNION SELECT ..], which PostgreSQL runs by creating
    [t], has its INTO below the set operation, where [query_selects_into] does
    not look: it is classified as a read. *)
Lemma union_into_is_read {SQ : SqlParser} sql engine table settings :
  has_dialect engine = true →
  parse_sql engine sql
  = Ok [StQuery (MkQuery None (SetOperation (SetSelect (Some table) [] []) (SetSelect None [] []))
         [] [])] → auto_run_reads settings = true →
  ∃ c, classify sql engine = Ok c ∧ decide settings c = AutoRun.
Proof. intros Hd Hp Ha. apply (overlooked_auto_run _ _ _ _ Hd Hp Ha), checks_overlook. done. Qed.
