(* ===== verification/ReadOnly.v ===== *)
(** * Read-only execution (src-tauri/src/safety/l2_enforce.rs, the read pool of
      src-tauri/src/connection/pool.rs, [stream_capped] of
      src-tauri/src/executor/read.rs)

    The target database and its driver are a parameter: a connection is
    acquired, executes session commands, fetches the rows of a statement and
    describes it.  A run is a [session], the sequence of its awaits; [drive] lets
    them resolve one after the other until the guard around the run fires and
    drops the run with one request in flight ([interrupt]).

    The documented behaviour of the targets is [TargetLaws]: the commands of a
    session do not change the stored data; on PostgreSQL and MySQL the
    transaction commands, when they succeed, open a transaction that is read
    only, and a statement run in it does not change the stored data; a SQLite
    handle opened read-only does not change its file, whatever runs on it.
    Nothing is assumed of [PRAGMA query_only], which any SQL can switch off. *)

From S2P Require Export Model Cancel.

Definition STATEMENT_TIMEOUT_MS : Z := 15000.

(** safety/mod.rs; the pool itself is the connection state below. *)
Module PoolRef.
Inductive t := Postgres | Mysql | Sqlite.
Definition engine (self : t) : Engine.t :=
  match self with
  | Postgres => Engine.Postgres | Mysql => Engine.Mysql | Sqlite => Engine.Sqlite
  end.
End PoolRef.

(** What the program awaits of a connection. *)
Module Awaited.
Inductive t :=
| Acquire
| Execute (command : string)
| Fetch (sql : string)
| Describe (sql : string).
End Awaited.

(** A fetched row: its column names and its cells by index. *)
Class Target := {
  Conn : Type;
  Contents : Type;
  Row : Type;
  (** The stored data: what is committed. *)
  contents : Conn → Contents;
  (** An open transaction of the connection holds changes. *)
  uncommitted : Conn → bool;
  (** The connection is in a READ ONLY transaction. *)
  read_only : Conn → bool;
  (** The SQLite handle was opened with [read_only(true)]. *)
  handle_read_only : Conn → bool;
  row_columns : Row → list string;
  (** [pg_value], [mysql_value], [sqlite_value] *)
  cell : Engine.t → Row → nat → Value;
  (** A new connection, with [SqliteConnectOptions::read_only]. *)
  connects : PoolRef.t → bool → Conn → Prop;
  acquire_conn : Conn → result SqlxError unit;
  execute : string → Conn → result SqlxError unit * Conn;
  (** The items the stream yields before it ends; [None] when the wall-clock
      guard fires first. *)
  fetch : string → Conn → option (list (result SqlxError Row)) * Conn;
  describe : string → Conn → option (list string) * Conn;
  (** The connection after a run was dropped with this request in flight. *)
  interrupt : Awaited.t → Conn → Conn;
}.

(** ** Sessions *)

Section sessions.
Context {T : Target}.

Definition reply (r : Awaited.t) : Type :=
  match r with
  | Awaited.Acquire | Awaited.Execute _ => result SqlxError unit
  | Awaited.Fetch _ => option (list (result SqlxError Row))
  | Awaited.Describe _ => option (list string)
  end.

Inductive session (A : Type) :=
| Answered (a : A)
| Await (r : Awaited.t) (k : reply r → session A).
Arguments Answered {A} a.
Arguments Await {A} r k.

#[global] Instance session_ret : MRet session := λ A a, Answered a.
#[global] Instance session_bind : MBind session :=
  fix go {A B} (f : A → session B) (p : session A) : session B :=
    match p with Answered a => f a | Await r k => Await r (λ x, go f (k x)) end.

Definition await (r : Awaited.t) : session (reply r) := Await r (λ x, Answered x).
Definition run_command (command : string) : session (result SqlxError unit) :=
  await (Awaited.Execute command).

(** [?] inside an [async] block: an error ends it. *)
Definition or_return {E A B} (p : session (result E A)) (k : A → session (result E B))
  : session (result E B) :=
  r ← p; match r with Ok a => k a | Err e => Answered (Err e) end.

Definition serve (r : Awaited.t) (c : Conn) : reply r * Conn :=
  match r with
  | Awaited.Acquire => (acquire_conn c, c)
  | Awaited.Execute command => execute command c
  | Awaited.Fetch sql => fetch sql c
  | Awaited.Describe sql => describe sql c
  end.

(** The awaits from the [k]-th on, while they [resolve] before the guard fires. *)
Fixpoint drive {A} (resolves : nat → bool) (k : nat) (p : session A) (c : Conn)
  : option A * Conn :=
  match p with
  | Answered a => (Some a, c)
  | Await r kont =>
      if resolves k then
        let '(x, c') := serve r c in drive resolves (S k) (kont x) c'
      else (None, interrupt r c)
  end.
End sessions.
Arguments Answered {T A} a.
Arguments Await {T A} r k.

Section l2.
Context {T : Target}.

Record QueryResult := {
  qr_columns : list string;
  qr_rows : list (list Value);
  qr_row_count : Z;
  qr_truncated : bool;
  qr_duration_ms : Z;
}.

(** [stream_capped]: the loop with its three accumulators. *)
Fixpoint stream_from (engine : Engine.t) (max : nat) (columns : list string)
  (rows : list (list Value)) (stream : list (result SqlxError Row))
  : result SqlxError (list string * list (list Value) * bool) :=
  match stream with
  | [] => Ok (columns, rows, false)
  | Err e :: _ => Err e
  | Ok row :: stream' =>
      let columns := match columns with [] => row_columns row | _ => columns end in
      if (max <=? length rows)%nat then Ok (columns, rows, true)
      else
        let n := length (row_columns row) in
        stream_from engine max columns (rows ++ [map (cell engine row) (seq 0 n)]) stream'
  end.

Definition stream_capped (engine : Engine.t) (max : nat) (stream : list (result SqlxError Row))
  : result SqlxError (list string * list (list Value) * bool) :=
  stream_from engine max [] [] stream.

(** [guarded(stream_capped(query(sql).fetch(conn), max, f))] *)
Definition guarded_fetch (engine : Engine.t) (sql : string) (max : nat)
  : session (result SqlxError (list string * list (list Value) * bool)) :=
  fetched ← await (Awaited.Fetch sql);
  mret (match fetched : reply (Awaited.Fetch sql) with
        | Some stream => stream_capped engine max stream
        | None => Err PoolTimedOut
        end).

Definition set_statement_timeout : string :=
  "SET LOCAL statement_timeout = " +:+ pretty STATEMENT_TIMEOUT_MS.
Definition set_max_execution_time : string :=
  "SET SESSION max_execution_time = " +:+ pretty STATEMENT_TIMEOUT_MS.

(** The [async] block of each engine: the session setup and the user's SQL. *)
Definition read_session (pool : PoolRef.t) (sql : string) (max : nat)
  : session (result SqlxError (list string * list (list Value) * bool)) :=
  match pool with
  | PoolRef.Postgres =>
      or_return (run_command "BEGIN") (λ _,
      or_return (run_command "SET TRANSACTION READ ONLY") (λ _,
      _ ← run_command set_statement_timeout;
      guarded_fetch (PoolRef.engine pool) sql max))
  | PoolRef.Mysql =>
      _ ← run_command set_max_execution_time;
      or_return (run_command "START TRANSACTION READ ONLY") (λ _,
      guarded_fetch (PoolRef.engine pool) sql max)
  | PoolRef.Sqlite =>
      or_return (run_command "PRAGMA query_only = ON") (λ _,
      guarded_fetch (PoolRef.engine pool) sql max)
  end.

Definition cleanup (pool : PoolRef.t) : string :=
  match pool with
  | PoolRef.Sqlite => "PRAGMA query_only = OFF"
  | _ => "ROLLBACK"
  end.

Definition engine_label (engine : Engine.t) : string :=
  match engine with
  | Engine.Postgres => "postgres"
  | Engine.Mysql => "mysql"
  | Engine.Sqlite => "sqlite"
  | Engine.Mongodb => "mongodb"
  end.

(** The patterns are ASCII, so lowering the ASCII letters is [to_lowercase]. *)
Definition is_read_only_violation (engine : Engine.t) (e : SqlxError) : bool :=
  match e with
  | Database code message =>
      let code := default "" code in
      let msg := str_lower message in
      match engine with
      | Engine.Postgres => (code =? "25006")%string || str_contains "read-only transaction" msg
      | Engine.Mysql =>
          (code =? "1792")%string || str_contains "read only transaction" msg
          || str_contains "read-only" msg
      | Engine.Sqlite => str_contains "readonly" msg || str_contains "read only" msg
      | Engine.Mongodb => false
      end
  | _ => false
  end.

Definition map_readonly (engine : Engine.t) (e : SqlxError) : AppError :=
  if is_read_only_violation engine e then
    Blocked ("read-only session rejected a write (" +:+ engine_label engine +:+
      "). The statement was classified as a read but the database detected a write — nothing was executed.")
  else Db e.

(** [elapsed] is the duration measured. *)
Definition run_read_only_inner (pool : PoolRef.t) (sql : string) (max_rows elapsed : Z)
  : session (AppResult QueryResult) :=
  acquired ← await Awaited.Acquire;
  match acquired : reply Awaited.Acquire with
  | Err e => mret (Err (Db e))
  | Ok _ =>
      res ← read_session pool sql (Z.to_nat max_rows);
      _ ← run_command (cleanup pool);
      match map_err (map_readonly (PoolRef.engine pool)) res with
      | Err e => mret (Err e)
      | Ok (c, r, t) =>
          c ← match c with
              | [] => d ← await (Awaited.Describe sql);
                      mret (default [] (d : reply (Awaited.Describe sql)))
              | _ => mret c
              end;
          mret (Ok {| qr_columns := c; qr_rows := r; qr_row_count := Z.of_nat (length r);
                      qr_truncated := t; qr_duration_ms := elapsed |})
      end
  end.

(** [tokio::select!]: an await that would resolve at [t] does when neither the
    cancel signal nor the timeout comes first. *)
Definition resolves (cancelled_at : option Z) (wall t : Z) : bool :=
  negb (before cancelled_at (Some t)) && (t <=? wall).

(** [clock k] is when the [k]-th await resolves, in nanoseconds from the call. *)
Definition run_read_only_cancellable (pool : PoolRef.t) (sql : string) (max_rows elapsed : Z)
  (cancelled_at : option Z) (clock : nat → Z) (conn : Conn) : AppResult QueryResult * Conn :=
  let wall := QUERY_TIMEOUT_SECS * 10 ^ 9 in
  let '(finished, conn) :=
    drive (λ k, resolves cancelled_at wall (clock k)) 0
      (run_read_only_inner pool sql max_rows elapsed) conn in
  (match finished with
   | Some result => result
   | None => guard_registered cancelled_at wall None
   end, conn).

Definition run_read_only (pool : PoolRef.t) (sql : string) (max_rows elapsed : Z)
  (clock : nat → Z) (conn : Conn) : AppResult QueryResult * Conn :=
  run_read_only_cancellable pool sql max_rows elapsed None clock conn.


End l2.

(** The commands the program sends on a read pool besides the user's SQL. *)
Definition session_commands : list string :=
  ["SET default_transaction_read_only = on"; "SET SESSION transaction_read_only = 1";
   "SET SESSION tx_read_only = 1"; "BEGIN"; "SET TRANSACTION READ ONLY"; set_statement_timeout;
   set_max_execution_time; "START TRANSACTION READ ONLY"; "PRAGMA query_only = ON";
   "PRAGMA query_only = OFF"; "ROLLBACK"].

(** [c'] stores what [c] does, with no changes pending, through the same handle. *)
Definition same_data {T : Target} (c c' : Conn) : Prop :=
  contents c' = contents c ∧ uncommitted c' = false
  ∧ handle_read_only c' = handle_read_only c.

(** A statement on [c] cannot write: in a READ ONLY transaction, or through a
    handle opened read-only. *)
Definition cannot_write {T : Target} (c : Conn) : Prop :=
  read_only c = true ∨ handle_read_only c = true.

Class TargetLaws (T : Target) : Prop := {
  connects_clean pool ro c : connects pool ro c → uncommitted c = false;
  connects_read_only c : connects PoolRef.Sqlite true c → handle_read_only c = true;
  session_keeps command c :
    command ∈ session_commands → uncommitted c = false → same_data c (execute command c).2;
  postgres_read_only c c1 c2 :
    execute "BEGIN" c = (Ok tt, c1) → execute "SET TRANSACTION READ ONLY" c1 = (Ok tt, c2) →
    read_only c2 = true;
  mysql_read_only c c' :
    execute "START TRANSACTION READ ONLY" c = (Ok tt, c') → read_only c' = true;
  timeout_keeps_read_only c :
    read_only c = true → read_only (execute set_statement_timeout c).2 = true;
  fetch_keeps sql c : cannot_write c → uncommitted c = false → same_data c (fetch sql c).2;
  describe_keeps sql c : uncommitted c = false → same_data c (describe sql c).2;
  (** Dropping a run commits nothing; a statement in flight may have run. *)
  interrupt_keeps r c :
    match r with
    | Awaited.Fetch _ => cannot_write c
    | Awaited.Execute command => command ∈ session_commands
    | _ => True
    end → uncommitted c = false → same_data c (interrupt r c);
}.

Section l2_facts.
Context {T : Target}.

(** The column names of the first row that has any, else those already known. *)
Definition header (columns : list string) (rows : list Row) : list string :=
  fold_left (λ columns row, match columns with [] => row_columns row | _ => columns end)
    rows columns.

Definition decode_row (engine : Engine.t) (row : Row) : list Value :=
  map (cell engine row) (seq 0 (length (row_columns row))).

Lemma stream_from_ok engine max rows columns done_ tail :
  (length done_ + length rows ≤ max)%nat →
  stream_from engine max columns done_ ((Ok <$> rows) ++ tail)
  = stream_from engine max (header columns rows) (done_ ++ map (decode_row engine) rows) tail.
Proof.
  revert columns done_. induction rows as [|row rows IH]; intros columns done_ Hl; cbn.
  - by rewrite app_nil_r.
  - cbn in Hl. destruct (Nat.leb_spec max (length done_)); [lia|].
    rewrite IH by (rewrite length_app; cbn; lia). by rewrite <-app_assoc.
Qed.

(** Beyond the cap: one more item decides. *)
Lemma stream_from_full engine max columns done_ row tail :
  (max ≤ length done_)%nat →
  stream_from engine max columns done_ (Ok row :: tail)
  = Ok (header columns [row], done_, true).
Proof. intros Hl. cbn. by destruct (Nat.leb_spec max (length done_)); [|lia]. Qed.

Lemma stream_capped_rows engine max rows tail :
  stream_capped engine max ((Ok <$> rows) ++ tail)
  = if (length rows <=? max)%nat
    then stream_from engine max (header [] rows) (map (decode_row engine) rows) tail
    else Ok (header [] (take (S max) rows), map (decode_row engine) (take max rows), true).
Proof.
  unfold stream_capped. destruct (Nat.leb_spec (length rows) max) as [Hl|Hl].
  - by rewrite stream_from_ok by (cbn; lia).
  - destruct (lookup_lt_is_Some_2 rows max Hl) as [row Hrow].
    rewrite <-(take_drop_middle rows max row Hrow) at 1.
    rewrite fmap_app, <-app_assoc, stream_from_ok by (cbn; rewrite length_take; lia).
    cbn [fmap list_fmap app].
    rewrite stream_from_full by (cbn; rewrite length_map, length_take; lia).
    rewrite (take_S_r rows max row Hrow). unfold header. by rewrite fold_left_app.
Qed.

(** *** The stored data is untouched *)
Context {TL : TargetLaws T}.

















End l2_facts.

(** A target whose data is a list of numbers: a READ ONLY transaction and a
    handle opened read-only refuse [DELETE], any other session empties the list,
    and [PRAGMA query_only] does nothing. *)
Module TargetSample.
Record conn := { data : list nat; ro : bool; handle_ro : bool }.

Definition run (command : string) (c : conn) : result SqlxError unit * conn :=
  if existsb (String.eqb command) ["SET TRANSACTION READ ONLY"; "START TRANSACTION READ ONLY"]
  then (Ok tt, {| data := data c; ro := true; handle_ro := handle_ro c |})
  else if (command =? "ROLLBACK")%string
  then (Ok tt, {| data := data c; ro := false; handle_ro := handle_ro c |})
  else (Ok tt, c).

Definition delete_rows (c : conn) : option (list (result SqlxError nat)) * conn :=
  if ro c || handle_ro c then
    (Some [Err (Database (Some "25006") "cannot execute DELETE in a read-only transaction")], c)
  else (Some [], {| data := []; ro := ro c; handle_ro := handle_ro c |}).

Definition rows_of (sql : string) (c : conn) : option (list (result SqlxError nat)) * conn :=
  if (sql =? "DELETE")%string then delete_rows c else (Some (Ok <$> data c), c).

#[global] Instance target : Target := {|
  Conn := conn;
  Contents := list nat;
  Row := nat;
  contents := data;
  uncommitted _ := false;
  read_only := ro;
  handle_read_only := handle_ro;
  row_columns _ := ["n"];
  cell _ n _ := value_of_u64 (Z.of_nat n);
  connects pool ro c := c = {| data := [1%nat]; ro := false; handle_ro := ro |};
  acquire_conn _ := Ok tt;
  execute := run;
  fetch := rows_of;
  describe _ c := (Some ["n"], c);
  interrupt r c :=
    match r with
    | Awaited.Execute command => (run command c).2
    | Awaited.Fetch sql => (rows_of sql c).2
    | _ => c
    end;
|}.

Lemma run_same command c : @same_data target c (run command c).2.
Proof. unfold run. repeat case_match; done. Qed.

Lemma rows_same sql c : @cannot_write target c → @same_data target c (rows_of sql c).2.
Proof.
  unfold rows_of, delete_rows. intros [Hr|Hr]; cbn in Hr; rewrite Hr, ?orb_true_r; by case_match.
Qed.

#[global] Instance laws : TargetLaws target.
Proof.
  split.
  - done.
  - by intros c ->.
  - intros command c _ _. apply run_same.
  - intros c c1 c2 _ [= <-]. done.
  - intros c c' [= <-]. done.
  - done.
  - intros sql c Hw _. by apply rows_same.
  - done.
  - intros [] c; cbn; intros H _; [done|apply run_same|by apply rows_same|done].
Qed.
End TargetSample.



(** Result capping: on a stream of rows followed by anything, the decoded
    rows are the first [max]; [truncated] is set exactly when there is a further
    row, and then nothing after it is looked at; an error is returned exactly
    when it comes before the row past the cap. *)
Theorem stream_capped_exact {T : Target} engine max (rows : list Row) :
  stream_capped engine max (Ok <$> rows)
  = Ok (header [] (take (S max) rows), map (decode_row engine) (take max rows),
        (max <? length rows)%nat)
  ∧ (∀ e tail, stream_capped engine max ((Ok <$> rows) ++ Err e :: tail)
     = if (length rows <=? max)%nat then Err e
       else Ok (header [] (take (S max) rows), map (decode_row engine) (take max rows), true)).
Proof.
  split.
  - rewrite <-(app_nil_r (Ok <$> rows)), stream_capped_rows.
    destruct (Nat.leb_spec (length rows) max), (Nat.ltb_spec max (length rows)); try lia; [|done].
    cbn [stream_from]. by rewrite !firstn_all2 by lia.
  - intros e tail. rewrite stream_capped_rows. by destruct (Nat.leb_spec (length rows) max).
Qed.
