(* ===== verification/Mongo.v ===== *)
(** * Document queries (src-tauri/src/mongo/query.rs, [int_json]/[uint_json] of
      src-tauri/src/executor/read.rs)

    [classify] walks a typed request against an allowlist of read-only stages;
    [run] calls the driver's typed operations.  The driver and the BSON
    conversion are a parameter. *)

From S2P Require Export Safety.

Definition JS_MAX_SAFE_INT : Z := 2 ^ 53.

Definition ALLOWED_STAGES : list string :=
  ["$addFields"; "$bucket"; "$bucketAuto"; "$count"; "$densify"; "$facet"; "$fill"; "$geoNear";
   "$graphLookup"; "$group"; "$limit"; "$lookup"; "$match"; "$project"; "$redact";
   "$replaceRoot"; "$replaceWith"; "$sample"; "$set"; "$setWindowFields"; "$skip"; "$sort";
   "$sortByCount"; "$unionWith"; "$unset"; "$unwind"].

Definition BANNED_OPERATORS : list string := ["$where"; "$function"; "$accumulator"].

Definition contains (l : list string) (s : string) : bool := existsb (String.eqb s) l.
#[global] Arguments contains : simpl never.

(** [<str as Debug>]: the escapes of ASCII; other code points are kept. *)
Definition debug_char (a : ascii) : string :=
  let n := N_of_ascii a in
  if (n =? 34)%N then of_bytes ["\"%char; a]
  else if (n =? 92)%N then "\\"
  else if (n =? 9)%N then "\t"
  else if (n =? 10)%N then "\n"
  else if (n =? 13)%N then "\r"
  else if (n =? 0)%N then "\0"
  else if ((n <? 32) || (n =? 127))%N then
    "\u{" +:+ (if (n <? 16)%N then of_bytes [hex_digit n]
               else of_bytes [hex_digit (n / 16); hex_digit (n mod 16)]) +:+ "}"
  else of_bytes [a].
Definition debug_str (s : string) : string :=
  let quote := of_bytes [ascii_of_nat 34] in
  quote +:+ foldr (λ a t, debug_char a +:+ t) "" (bytes_of s) +:+ quote.

(** Depth-first scan for server-side JavaScript operators. *)
Fixpoint banned_operator (value : Value) : option string :=
  match value with
  | VObject map =>
      find_map (λ kv,
        if contains BANNED_OPERATORS kv.1
        then Some ("operator " +:+ debug_str kv.1 +:+ " (server-side JavaScript) is not allowed")
        else banned_operator kv.2) map
  | VArray items => find_map banned_operator items
  | _ => None
  end.

Definition bad_stage_shape : string :=
  "each aggregate stage must be an object with exactly one $stage key".
Definition stage_not_allowed (name : string) : string :=
  "aggregate stage " +:+ debug_str name +:+ " is not in the read-only allowlist".
Definition bad_facet : string := "$facet values must be arrays of stages".

(** [stage_violation]; [pipeline_violation] is [find_map stage_violation].  The
    inner [fix] is [body.get("pipeline")] followed by the recursive call. *)
Fixpoint stage_violation (stage : Value) : option string :=
  match stage with
  | VObject [(name, body)] =>
      if negb (contains ALLOWED_STAGES name) then Some (stage_not_allowed name)
      else
        match banned_operator body with
        | Some banned => Some banned
        | None =>
            if contains ["$lookup"; "$unionWith"] name then
              match body with
              | VObject m =>
                  (fix get_pipeline (m : list (string * Value)) : option string :=
                     match m with
                     | [] => None
                     | (k, p) :: m' =>
                         if (k =? "pipeline")%string then
                           match p with
                           | VArray stages => find_map stage_violation stages
                           | _ => None
                           end
                         else get_pipeline m'
                     end) m
              | _ => None
              end
            else if (name =? "$facet")%string then
              match body with
              | VObject facets =>
                  find_map (λ kv, match kv.2 with
                                  | VArray stages => find_map stage_violation stages
                                  | _ => Some bad_facet
                                  end) facets
              | _ => None
              end
            else None
        end
  | _ => Some bad_stage_shape
  end.

Definition pipeline_violation (pipeline : list Value) : option string :=
  find_map stage_violation pipeline.

Definition classify (query : DocumentQuery) : Classification :=
  let '(collection, violation) :=
    match query with
    | Find collection filter projection sort _ _ =>
        (collection,
         find_map banned_operator (omap (λ o, o) [filter; projection; sort]))
    | Aggregate collection pipeline => (collection, pipeline_violation pipeline)
    | Count collection filter =>
        (collection, match filter with Some f => banned_operator f | None => None end)
    end in
  match violation with
  | None =>
      {| cl_kind := QueryKind.Read; cl_risk := QueryRisk.Low; cl_statement_count := 1;
         cl_no_where := false; cl_tables := [collection]; cl_notes := [];
         cl_rollback_safe := false |}
  | Some note =>
      {| cl_kind := QueryKind.Write; cl_risk := QueryRisk.High; cl_statement_count := 1;
         cl_no_where := false; cl_tables := [collection]; cl_notes := [note];
         cl_rollback_safe := false |}
  end.

(** ** Numbers JavaScript can hold *)

Definition int_json (v : Z) : Value :=
  if JS_MAX_SAFE_INT <? Z.abs v then VString (pretty v) else value_of_i64 v.
Definition uint_json (v : Z) : Value :=
  if JS_MAX_SAFE_INT <? v then VString (pretty v) else value_of_u64 v.

Fixpoint stringify_unsafe_ints (value : Value) : Value :=
  match value with
  | VNumber n =>
      match number_as_i64 n with
      | Some v => int_json v
      | None => match number_as_u64 n with
                | Some v => uint_json v
                | None => VNumber n
                end
      end
  | VArray items => VArray (map stringify_unsafe_ints items)
  | VObject m => VObject (map (λ kv, (kv.1, stringify_unsafe_ints kv.2)) m)
  | other => other
  end.

(** ** Execution *)

Class MongoDriver := {
  Document : Type;
  empty_document : Document;
  (** [Bson::try_from]; [Ok None] is a value that is not a document. *)
  bson_try_from : Value → result string (option Document);
  into_relaxed_extjson : Document → Value;
  (** The cursor's items; [find] and [aggregate] may fail before the first. *)
  driver_find : string → Document → option Document → option Document → option Z →
    Z → Z → result string (list (result string Document));
  driver_aggregate : string → list Document → Z →
    result string (list (result string Document));
  driver_count : string → Document → Z → result string Z;
}.

Section run.
Context {D : MongoDriver}.

Definition to_document (value : option Value) (what : string) : AppResult Document :=
  match value with
  | None => Ok empty_document
  | Some value =>
      match bson_try_from value with
      | Ok (Some doc) => Ok doc
      | Ok None => Err (Config (what +:+ " must be a JSON object"))
      | Err e => Err (Config ("invalid " +:+ what +:+ ": " +:+ e))
      end
  end.

(** [(max + 1) as u64] on [usize]. *)
Definition fetch_limit (limit : option Z) (max : Z) : option Z :=
  match limit with
  | Some l =>
      if l =? 0 then None
      else if l <=? max then Some l
      else Some ((max + 1) mod 2 ^ 64)
  | None => Some ((max + 1) mod 2 ^ 64)
  end.

(** [drain]: the loop over the cursor. *)
Fixpoint drain_from (documents : list Value) (max : Z) (cursor : list (result string Document))
  : AppResult (list Value * bool) :=
  match cursor with
  | [] => Ok (documents, false)
  | Err e :: _ => Err (Mongo e)
  | Ok doc :: cursor' =>
      if max <=? Z.of_nat (length documents) then Ok (documents, true)
      else drain_from (documents ++ [stringify_unsafe_ints (into_relaxed_extjson doc)])
             max cursor'
  end.

Definition drain (cursor : list (result string Document)) (max : Z)
  : AppResult (list Value * bool) := drain_from [] max cursor.

(** [Option<Value>] converted when present. *)
Definition to_optional_document (value : option Value) (what : string)
  : AppResult (option Document) :=
  match value with
  | None => Ok None
  | Some v => doc ← to_document (Some v) what; Ok (Some doc)
  end.

(** [pipeline.iter().map(..).collect::<AppResult<Vec<_>>>()] *)
Fixpoint to_stages (pipeline : list Value) : AppResult (list Document) :=
  match pipeline with
  | [] => Ok []
  | s :: rest =>
      doc ← to_document (Some s) "pipeline stage"; docs ← to_stages rest; Ok (doc :: docs)
  end.

Definition run (query : DocumentQuery) (max_rows max_time elapsed : Z) : AppResult DocumentPage :=
  let max := Z.max max_rows 1 in
  '(documents, truncated) ←
    match query with
    | Find collection filter projection sort skip limit =>
        filter ← to_document filter "filter";
        projection ← to_optional_document projection "projection";
        sort ← to_optional_document sort "sort";
        match fetch_limit limit max with
        | None => Ok ([], false)
        | Some fetch =>
            let fetch := if fetch <=? i64_max then fetch else i64_max in
            cursor ← map_err Mongo
              (driver_find collection filter projection sort skip fetch max_time);
            drain cursor max
        end
    | Aggregate collection pipeline =>
        stages ← to_stages pipeline;
        cursor ← map_err Mongo (driver_aggregate collection stages max_time);
        drain cursor max
    | Count collection filter =>
        filter ← to_document filter "filter";
        n ← map_err Mongo (driver_count collection filter max_time);
        Ok ([stringify_unsafe_ints (VObject [("count", value_of_u64 n)])], false)
    end;
  Ok {| dp_documents := documents; dp_doc_count := Z.of_nat (length documents);
        dp_truncated := truncated; dp_duration_ms := elapsed |}.
End run.

(** ** What a read-only request is *)

Inductive mentions_js : Value → Prop :=
| js_key m k v : (k, v) ∈ m → contains BANNED_OPERATORS k = true → mentions_js (VObject m)
| js_field m k v : (k, v) ∈ m → mentions_js v → mentions_js (VObject m)
| js_item l v : v ∈ l → mentions_js v → mentions_js (VArray l).

(** The pipelines a stage embeds. *)
Inductive sub_pipeline : string → Value → list Value → Prop :=
| sub_lookup name m p :
    contains ["$lookup"; "$unionWith"] name = true → assoc "pipeline" m = Some (VArray p) →
    sub_pipeline name (VObject m) p
| sub_facet m k p : (k, VArray p) ∈ m → sub_pipeline "$facet" (VObject m) p.

(** A stage of the allowlist, free of server-side JavaScript, whose embedded
    pipelines consist of such stages. *)
Inductive read_stage : Value → Prop :=
| read_stage_intro name body :
    contains ALLOWED_STAGES name = true → ¬ mentions_js body →
    (name = "$facet" → ∀ m k v, body = VObject m → (k, v) ∈ m → ∃ p, v = VArray p) →
    (∀ p s, sub_pipeline name body p → s ∈ p → read_stage s) →
    read_stage (VObject [(name, body)]).

Definition read_only_query (query : DocumentQuery) : Prop :=
  match query with
  | Find _ filter projection sort _ _ =>
      ∀ v, Some v ∈ [filter; projection; sort] → ¬ mentions_js v
  | Aggregate _ pipeline => ∀ s, s ∈ pipeline → read_stage s
  | Count _ filter => ∀ v, filter = Some v → ¬ mentions_js v
  end.

Lemma banned_operator_None v : banned_operator v = None ↔ ¬ mentions_js v.
Proof.
  induction v as [| | | |l IH|m IH] using value_ind'; cbn;
    try (split; [by inversion 2|done]).
  - rewrite find_map_None, Forall_forall. rewrite Forall_forall in IH. split.
    + intros H Hj. inversion Hj as [| |l' v Hv Hjv]; subst. by apply (IH v Hv) in Hjv; [|apply H].
    + intros H v Hv. apply IH; [done|]. intros Hj. apply H. by eapply js_item.
  - rewrite find_map_None, Forall_forall. rewrite Forall_forall in IH. split.
    + intros H Hj. inversion Hj as [m' k v Hv Hb|m' k v Hv Hjv|]; subst.
      * specialize (H _ Hv). cbn in H. by rewrite Hb in H.
      * specialize (H _ Hv). cbn in H. destruct (contains BANNED_OPERATORS k); [done|].
        by apply (IH _ Hv) in H.
    + intros H [k v] Hv. cbn. destruct (contains BANNED_OPERATORS k) eqn:Hb.
      * destruct H. by eapply js_key.
      * apply (IH _ Hv). intros Hj. apply H. by eapply js_field.
Qed.

Fixpoint value_size (v : Value) : nat :=
  match v with
  | VArray l => S (sum_list_with value_size l)
  | VObject m => S (sum_list_with (λ kv, value_size kv.2) m)
  | _ => 1
  end.

Lemma sum_list_in {A} (f : A → nat) l x : x ∈ l → (f x ≤ sum_list_with f l)%nat.
Proof. induction 1 as [|x y l _ IH]; cbn; lia. Qed.

Lemma assoc_In k (m : list (string * Value)) v : assoc k m = Some v → (k, v) ∈ m.
Proof.
  induction m as [|[k' v'] m IH]; cbn; [done|].
  destruct (String.eqb_spec k k') as [->|]; [intros [= ->]; by left|right; auto].
Qed.

Lemma sub_pipeline_smaller name body p s :
  sub_pipeline name body p → s ∈ p → (value_size s < value_size (VObject [(name, body)]))%nat.
Proof.
  intros Hp Hs. pose proof (sum_list_in value_size p s Hs) as H1.
  destruct Hp as [name m p _ Ha|m k p Hin].
  - apply assoc_In in Ha. pose proof (sum_list_in (λ kv, value_size kv.2) m _ Ha) as H2.
    cbn in *. lia.
  - pose proof (sum_list_in (λ kv, value_size kv.2) m _ Hin) as H2. cbn in *. lia.
Qed.

(** One unfolding of [stage_violation], as the source reads. *)
Lemma stage_violation_stage name body :
  stage_violation (VObject [(name, body)])
  = if negb (contains ALLOWED_STAGES name) then Some (stage_not_allowed name)
    else
      match banned_operator body with
      | Some banned => Some banned
      | None =>
          if contains ["$lookup"; "$unionWith"] name then
            match value_get "pipeline" body with
            | Some (VArray stages) => pipeline_violation stages
            | _ => None
            end
          else if (name =? "$facet")%string then
            match as_object body with
            | Some facets =>
                find_map (λ kv, match kv.2 with
                                | VArray stages => pipeline_violation stages
                                | _ => Some bad_facet
                                end) facets
            | None => None
            end
          else None
      end.
Proof.
  cbn [stage_violation]. destruct (negb _); [done|]. destruct (banned_operator body); [done|].
  destruct (contains _ name); [|by destruct body].
  unfold value_get. destruct body as [| | | | |m]; cbn -[String.eqb]; try done.
  induction m as [|[k p] m IH]; cbn -[String.eqb]; [done|].
  destruct (String.eqb_spec k "pipeline") as [->|Hne]; [by destruct p|].
  destruct (String.eqb_spec "pipeline" k); [congruence|exact IH].
Qed.

Lemma stage_violation_None stage : stage_violation stage = None ↔ read_stage stage.
Proof.
  remember (value_size stage) as n eqn:Hn. revert stage Hn.
  induction n as [n IH] using lt_wf_ind. intros stage ->.
  destruct stage as [| | | | |m]; try (split; [done|by inversion 1]).
  destruct m as [|[name body] [|kv m]]; [by split; [|inversion 1]| |by split; [|inversion 1]].
  assert (∀ p, sub_pipeline name body p →
    pipeline_violation p = None ↔ ∀ s, s ∈ p → read_stage s) as Hsub.
  { intros p Hp. unfold pipeline_violation. rewrite find_map_None, Forall_forall.
    split; intros H s Hs; pose proof (sub_pipeline_smaller _ _ _ _ Hp Hs) as Hlt;
      apply (IH _ Hlt s eq_refl); auto. }
  clear IH. rewrite stage_violation_stage. split.
  - intros H. destruct (contains ALLOWED_STAGES name) eqn:Ha; cbn in H; [|done].
    destruct (banned_operator body) eqn:Hb; [done|]. apply banned_operator_None in Hb.
    constructor; [done|done| |].
    + intros -> m k v -> Hin. change (find_map (λ kv : string * Value, match kv.2 with
        | VArray stages => pipeline_violation stages | _ => Some bad_facet end) m = None) in H.
      rewrite find_map_None, Forall_forall in H.
      specialize (H _ Hin). cbn in H. destruct v; try done. eauto.
    + intros p s Hp. apply Hsub; [done|]. destruct Hp as [name m p Hl Hp|m k p Hin].
      * rewrite Hl in H. cbn in H. by rewrite Hp in H.
      * change (find_map (λ kv : string * Value, match kv.2 with
          | VArray stages => pipeline_violation stages | _ => Some bad_facet end) m = None) in H.
        rewrite find_map_None, Forall_forall in H. by specialize (H _ Hin).
  - inversion 1 as [name' body' Ha Hj Hf Hs]; subst. rewrite Ha. cbn [negb].
    rewrite (proj2 (banned_operator_None body)) by done.
    destruct (contains ["$lookup"; "$unionWith"] name) eqn:Hl.
    + destruct (value_get "pipeline" body) as [[| | | |p|]|] eqn:Hg; try done.
      destruct body as [| | | | |m]; try done. cbn in Hg.
      assert (sub_pipeline name (VObject m) p) as Hp by (by apply sub_lookup).
      apply Hsub; [done|]. intros s. by apply Hs.
    + destruct (String.eqb_spec name "$facet") as [->|]; [|done].
      destruct body as [| | | | |m]; try done. cbn. rewrite find_map_None, Forall_forall.
      intros [k v] Hin. destruct (Hf eq_refl m k v eq_refl Hin) as [p ->]. cbn.
      assert (sub_pipeline "$facet" (VObject m) p) as Hp by (by eapply sub_facet).
      apply Hsub; [done|]. intros s. by apply Hs.
Qed.

Definition violation (query : DocumentQuery) : option string :=
  match query with
  | Find _ filter projection sort _ _ =>
      find_map banned_operator (omap (λ o, o) [filter; projection; sort])
  | Aggregate _ pipeline => pipeline_violation pipeline
  | Count _ filter => match filter with Some f => banned_operator f | None => None end
  end.

Lemma classify_violation query :
  cl_statement_count (classify query) = 1
  ∧ cl_kind (classify query)
    = match violation query with None => QueryKind.Read | Some _ => QueryKind.Write end
  ∧ cl_risk (classify query)
    = match violation query with None => QueryRisk.Low | Some _ => QueryRisk.High end.
Proof. unfold classify, violation. destruct query; by case_match. Qed.

Lemma violation_None query : violation query = None ↔ read_only_query query.
Proof.
  destruct query as [coll filter projection sort skip limit|coll pipeline|coll filter];
    cbn [violation read_only_query].
  - rewrite find_map_None, Forall_forall. split.
    + intros H v Hv. apply banned_operator_None, H. apply list_elem_of_omap. eauto.
    + intros H v (o & Hv & ->)%list_elem_of_omap. by apply banned_operator_None, H.
  - unfold pipeline_violation. rewrite find_map_None, Forall_forall.
    by setoid_rewrite stage_violation_None.
  - destruct filter as [f|]; [rewrite banned_operator_None; naive_solver|naive_solver].
Qed.

(** ** Numbers *)

Fixpoint js_safe (v : Value) : bool :=
  match v with
  | VNumber (PosInt n) | VNumber (NegInt n) => Z.abs n <=? JS_MAX_SAFE_INT
  | VArray l => forallb js_safe l
  | VObject m => forallb (λ kv, js_safe kv.2) m
  | _ => true
  end.

Lemma int_json_safe v :
  js_safe (int_json v) = true ∧ (Z.abs v ≤ JS_MAX_SAFE_INT → int_json v = value_of_i64 v).
Proof.
  unfold int_json. destruct (Z.ltb_spec JS_MAX_SAFE_INT (Z.abs v)) as [Hv|Hv].
  - split; [done|lia].
  - split; [|done]. unfold value_of_i64. destruct (0 <=? v); cbn; by apply Z.leb_le.
Qed.

Lemma number_json_safe n :
  number_wf n = true →
  js_safe (stringify_unsafe_ints (VNumber n)) = true
  ∧ (js_safe (VNumber n) = true → stringify_unsafe_ints (VNumber n) = VNumber n).
Proof.
  destruct n as [n|n|f]; intros Hw; [| |done]; cbn in Hw; apply andb_true_iff in Hw as [H1 H2].
  - cbn [stringify_unsafe_ints number_as_i64 js_safe]. apply Z.leb_le in H1.
    destruct (Z.leb_spec n i64_max) as [Hi|Hi].
    + split; [apply int_json_safe|]. intros Hs%Z.leb_le.
      rewrite (proj2 (int_json_safe n) Hs). unfold value_of_i64.
      by rewrite (proj2 (Z.leb_le 0 n) H1).
    + cbn [number_as_u64]. unfold uint_json. unfold i64_max in Hi.
      assert (JS_MAX_SAFE_INT < n) as Hn by (unfold JS_MAX_SAFE_INT; lia).
      rewrite (proj2 (Z.ltb_lt _ _) Hn). split; [done|]. intros Hs%Z.leb_le. lia.
  - cbn [stringify_unsafe_ints number_as_i64 js_safe]. apply Z.ltb_lt in H2.
    split; [apply int_json_safe|]. intros Hs%Z.leb_le. rewrite (proj2 (int_json_safe n) Hs).
    unfold value_of_i64. by rewrite (proj2 (Z.leb_gt 0 n) H2).
Qed.

Lemma stringify_safe v :
  value_wf v = true →
  js_safe (stringify_unsafe_ints v) = true
  ∧ (js_safe v = true → stringify_unsafe_ints v = v).
Proof.
  induction v as [|b|n|s|l IH|m IH] using value_ind'; intros Hw; try done.
  - by apply number_json_safe.
  - cbn [value_wf] in Hw. cbn [stringify_unsafe_ints js_safe].
    enough (forallb js_safe (map stringify_unsafe_ints l) = true
      ∧ (forallb js_safe l = true → map stringify_unsafe_ints l = l)) as [H1 H2]
      by (split; [done|]; intros H; by rewrite H2).
    induction IH as [|v l Hv _ IH]; cbn in *; [done|]. apply andb_true_iff in Hw as [Hw1 Hw2].
    destruct (Hv Hw1) as [Hs1 Hs2], (IH Hw2) as [Hl1 Hl2]. rewrite Hs1, Hl1. split; [done|].
    intros [? ?]%andb_true_iff. by rewrite Hs2, Hl2.
  - cbn [value_wf] in Hw. apply andb_true_iff in Hw as [_ Hw]. cbn [stringify_unsafe_ints js_safe].
    enough (forallb (λ kv, js_safe kv.2) (map (λ kv, (kv.1, stringify_unsafe_ints kv.2)) m) = true
      ∧ (forallb (λ kv, js_safe kv.2) m = true →
         map (λ kv, (kv.1, stringify_unsafe_ints kv.2)) m = m)) as [H1 H2]
      by (split; [done|]; intros H; by rewrite H2).
    induction IH as [|[k v] m Hv _ IH]; cbn in *; [done|]. apply andb_true_iff in Hw as [Hw1 Hw2].
    destruct (Hv Hw1) as [Hs1 Hs2], (IH Hw2) as [Hl1 Hl2]. rewrite Hs1, Hl1. split; [done|].
    intros [? ?]%andb_true_iff. by rewrite Hs2, Hl2.
Qed.

(** ** Pages *)

Section pages.
Context {D : MongoDriver}.

Definition render (doc : Document) : Value := stringify_unsafe_ints (into_relaxed_extjson doc).

Lemma drain_docs max docs :
  0 ≤ max →
  drain (Ok <$> docs) max
  = Ok (map render (take (Z.to_nat max) docs), (max <? Z.of_nat (length docs))).
Proof.
  intros Hm. unfold drain.
  assert (∀ documents, Z.of_nat (length documents) ≤ max →
    drain_from documents max (Ok <$> docs)
    = Ok (documents ++ map render (take (Z.to_nat max - length documents) docs),
          (max <? Z.of_nat (length documents + length docs)))) as H.
  { induction docs as [|doc docs IH]; intros documents Hd; cbn.
    - rewrite take_nil, app_nil_r. do 2 f_equal. symmetry. apply Z.ltb_ge. lia.
    - destruct (Z.leb_spec max (Z.of_nat (length documents))) as [Hle|Hlt].
      + replace (Z.to_nat max - length documents)%nat with 0%nat by lia. cbn.
        rewrite app_nil_r. do 2 f_equal. symmetry. apply Z.ltb_lt. lia.
      + rewrite IH by (rewrite length_app; cbn; lia). rewrite length_app. cbn.
        replace (Z.to_nat max - length documents)%nat
          with (S (Z.to_nat max - (length documents + 1))) by lia. cbn.
        rewrite <-app_assoc. do 2 f_equal. f_equal. lia. }
  rewrite H by (cbn; lia). cbn. by rewrite Nat.sub_0_r.
Qed.
End pages.

(** A limit asks for the first documents of the whole result; zero asks for all
    of it. *)
Class MongoLaws (D : MongoDriver) : Prop := {
  find_limit coll filter projection sort skip limit max_time :
    0 ≤ limit →
    driver_find coll filter projection sort skip limit max_time
    = match driver_find coll filter projection sort skip 0 max_time with
      | Ok items => Ok (if limit =? 0 then items else take (Z.to_nat limit) items)
      | Err e => Err e
      end;
}.

(** C35. The allowlist is exact: [classify] calls a document query a read if and
    only if every stage it runs, at any depth of embedded pipelines, is an
    allowed one and no server-side JavaScript occurs anywhere; everything else is
    a high-risk write that never runs automatically and is refused while writes
    are disabled. *)
Theorem document_read_iff query settings :
  (cl_kind (classify query) = QueryKind.Read ↔ read_only_query query)
  ∧ (decide settings (classify query) = AutoRun ↔
     auto_run_reads settings = true ∧ read_only_query query)
  ∧ (¬ read_only_query query →
     cl_kind (classify query) = QueryKind.Write ∧ cl_risk (classify query) = QueryRisk.High
     ∧ (allow_writes settings = false →
        ∃ reason, decide settings (classify query) = Block reason)).
Proof.
  destruct (classify_violation query) as (Hc & Hk & Hr). rewrite decide_auto_run, Hc, Hk, Hr.
  rewrite <-violation_None. destruct (violation query) as [note|] eqn:Hv.
  - split_and!; [done|by split; [intros (_ & ? & _)|intros (_ & ?)]|]. intros _.
    split_and!; [done|done|]. intros Ha. unfold decide. rewrite Hc, Hk, Ha. cbn. eauto.
  - split_and!; [done| |done]. split; [naive_solver|]. intros [? _]. by split_and!.
Qed.

(** Numbers survive JavaScript: after [stringify_unsafe_ints] every integer
    of a well-formed value lies within the safe range, and a value all of whose
    integers already did is unchanged. *)
Theorem stringified_ints_safe v :
  value_wf v = true →
  js_safe (stringify_unsafe_ints v) = true
  ∧ (js_safe v = true ↔ stringify_unsafe_ints v = v).
Proof.
  intros Hw. destruct (stringify_safe v Hw) as [H1 H2]. split; [done|].
  split; [done|]. intros <-. done.
Qed.

Lemma stringified_ints_safe_witness :
  js_safe (stringify_unsafe_ints (VArray [VNumber (PosInt (2 ^ 53 + 1)); VNumber (NegInt (-5))]))
  = true
  ∧ stringify_unsafe_ints (VArray [VNumber (PosInt (2 ^ 53 + 1)); VNumber (NegInt (-5))])
    = VArray [VString "9007199254740993"; VNumber (NegInt (-5))].
Proof. split; [apply stringified_ints_safe; reflexivity|reflexivity]. Defined.

(** A page of [find] is exact: when every matching document can be read, the
    page holds the first of them up to the smaller of the caller's limit and the
    cap (at least one), a limit of zero gives none, and [truncated] is set exactly
    when the cap, not the caller's limit, cut the result. *)
Theorem find_page_exact {D : MongoDriver} {DL : MongoLaws D}
    coll filter projection sort skip limit max_rows max_time elapsed f p s docs :
  0 ≤ max_rows < i64_max → (∀ l, limit = Some l → 0 ≤ l) →
  to_document filter "filter" = Ok f → to_optional_document projection "projection" = Ok p →
  to_optional_document sort "sort" = Ok s →
  driver_find coll f p s skip 0 max_time = Ok (Ok <$> docs) →
  let cap := Z.max max_rows 1 in
  let want := match limit with Some l => Z.min l cap | None => cap end in
  let cut := match limit with Some l => cap <? l | None => true end in
  run (Find coll filter projection sort skip limit) max_rows max_time elapsed
  = Ok {| dp_documents := map render (take (Z.to_nat want) docs);
          dp_doc_count := Z.of_nat (Nat.min (Z.to_nat want) (length docs));
          dp_truncated := cut && (cap <? Z.of_nat (length docs));
          dp_duration_ms := elapsed |}.
Proof.
  intros Hm Hl Hf Hp Hs Hd cap want cut. unfold run. rewrite Hf, Hp, Hs. cbn [mbind result_bind].
  fold cap. assert (1 ≤ cap < i64_max) as Hcap by (unfold cap, i64_max in *; lia).
  assert (∀ fetch, 0 < fetch ≤ cap + 1 →
    (cursor ← map_err Mongo (driver_find coll f p s skip
       (if fetch <=? i64_max then fetch else i64_max) max_time); drain cursor cap)
    = Ok (map render (take (Z.to_nat cap) (take (Z.to_nat fetch) docs)),
          cap <? Z.of_nat (length (take (Z.to_nat fetch) docs)))) as Hrun.
  { intros fetch Hfetch. rewrite (proj2 (Z.leb_le fetch i64_max)) by lia.
    rewrite (find_limit coll f p s skip fetch max_time), Hd by lia.
    rewrite (proj2 (Z.eqb_neq fetch 0)) by lia. cbn [map_err mbind result_bind].
    rewrite <-fmap_take. by rewrite drain_docs by lia. }
  assert (∀ fetch, fetch = cap + 1 →
    map render (take (Z.to_nat cap) (take (Z.to_nat fetch) docs))
      = map render (take (Z.to_nat cap) docs)
    ∧ (cap <? Z.of_nat (length (take (Z.to_nat fetch) docs))) = (cap <? Z.of_nat (length docs))) as Hover.
  { intros fetch ->. rewrite take_take, length_take. split; [f_equal; f_equal; lia|].
    destruct (Z.ltb_spec cap (Z.of_nat (length docs))), (Z.ltb_spec cap
      (Z.of_nat (Z.to_nat (cap + 1) `min` length docs))); lia. }
  assert ((cap + 1) mod 2 ^ 64 = cap + 1) as Hmod by (apply Z.mod_small; unfold i64_max in *; lia).
  unfold fetch_limit, want, cut. destruct limit as [l|].
  - specialize (Hl l eq_refl). destruct (Z.eqb_spec l 0) as [->|Hl0].
    + cbn [mbind result_bind]. rewrite Z.min_l by lia. cbn. rewrite (proj2 (Z.ltb_ge cap 0)) by lia.
      done.
    + destruct (Z.leb_spec l cap).
      * rewrite Hrun by lia. cbn [mbind result_bind]. rewrite take_take, Z.min_l by lia.
        replace (Z.to_nat cap `min` Z.to_nat l)%nat with (Z.to_nat l) by lia.
        rewrite (proj2 (Z.ltb_ge cap l)) by lia.
        rewrite (proj2 (Z.ltb_ge cap (Z.of_nat (length (take (Z.to_nat l) docs)))))
          by (rewrite length_take; lia).
        cbn [andb]. by rewrite length_map, length_take.
      * rewrite Hmod, Hrun by lia. destruct (Hover (cap + 1) eq_refl) as [-> ->].
        cbn [mbind result_bind]. rewrite Z.min_r by lia. rewrite (proj2 (Z.ltb_lt cap l)) by lia.
        cbn [andb]. by rewrite length_map, length_take.
  - rewrite Hmod, Hrun by lia. destruct (Hover (cap + 1) eq_refl) as [-> ->].
    cbn [mbind result_bind andb]. by rewrite length_map, length_take.
Qed.

(** A collection of three documents, whatever is asked for. *)
Module MongoSample.
Definition docs : list Value := [VString "a"; VString "b"; VString "c"].
#[global] Instance driver : MongoDriver := {|
  Document := Value;
  empty_document := VObject [];
  bson_try_from v := Ok (match v with VObject _ => Some v | _ => None end);
  into_relaxed_extjson v := v;
  driver_find _ _ _ _ _ limit _ :=
    Ok (Ok <$> (if limit =? 0 then docs else take (Z.to_nat limit) docs));
  driver_aggregate _ _ _ := Ok (Ok <$> docs);
  driver_count _ _ _ := Ok 3;
|}.
#[global] Instance laws : MongoLaws driver.
Proof.
  split. intros coll f p s skip limit t Hl. unfold driver_find, driver. rewrite Z.eqb_refl.
  destruct (limit =? 0); [done|]. by rewrite fmap_take.
Qed.
End MongoSample.

Lemma find_page_exact_witness :
  run (Find "c" None None None None None) 2 0 0
  = Ok {| dp_documents := [VString "a"; VString "b"]; dp_doc_count := 2;
          dp_truncated := true; dp_duration_ms := 0 |}.
Proof.
  exact (find_page_exact "c" None None None None None 2 0 0 (VObject []) None None
    MongoSample.docs ltac:(split; [discriminate|reflexivity]) ltac:(discriminate)
    eq_refl eq_refl eq_refl eq_refl).
Defined.
