(* ===== verification/Commands.v ===== *)
(** * Typed command payloads
      (dopedb-protocol/src/{connection,query_command,operation_command,catalog_command,command}.rs)

    The argument types with their deserialization, the result types with their
    serialization, and the [CommandSpec] of every command the broker runs. *)

From S2P Require Export Protocol Catalog ReadOnly OperationService.

Definition MAX_CONNECTION_NAME_BYTES : N := 256.

Section commands.
Context {P : Platform} {C : ChronoSerde}.

(** ** Connection selectors *)

Inductive ConnectionSelector := Id (id : Uuid) | Name (name : string) | Current.

Inductive ConnectionSelectorError := MissingKind | InvalidId | InvalidName.

(** [FromStr], [Display] *)
Definition selector_from_str (value : string)
  : result ConnectionSelectorError ConnectionSelector :=
  if (value =? "current")%string then Ok Current
  else
    match strip_prefix "id:" value with
    | Some id => Id <$> ok_or InvalidId (uuid_parse id)
    | None =>
        match strip_prefix "name:" value with
        | Some name =>
            if (name =? "")%string || (MAX_CONNECTION_NAME_BYTES <? str_len name)%N
               || any_control name
            then Err InvalidName else Ok (Name name)
        | None => Err MissingKind
        end
    end.

Definition selector_to_string (self : ConnectionSelector) : string :=
  match self with
  | Id id => "id:" +:+ uuid_to_string id
  | Name name => "name:" +:+ name
  | Current => "current"
  end.

Definition selector_from_value (v : Value) : option ConnectionSelector :=
  s ← de_string v; result_ok (selector_from_str s).

(** ** Arguments *)

(** [EmptyArguments] *)
Definition empty_from_value : Value → option unit := de_struct [] (λ _, Some tt).

Record AppOpenArguments := { wait : bool }.
Definition app_open_from_value : Value → option AppOpenArguments :=
  de_struct ["wait"] (λ field,
    wait ← defaulted false de_bool (field "wait"); Some {| wait := wait |}).

Record ConnectionSelectorArguments := { csa_connection : ConnectionSelector }.
Definition connection_selector_arguments_from_value
  : Value → option ConnectionSelectorArguments :=
  de_struct ["connection"] (λ field,
    connection ← required selector_from_value (field "connection");
    Some {| csa_connection := connection |}).

Record CatalogArguments := { cat_connection : ConnectionSelector }.
Definition catalog_arguments_from_value : Value → option CatalogArguments :=
  de_struct ["connection"] (λ field,
    connection ← required selector_from_value (field "connection");
    Some {| cat_connection := connection |}).

Record TableDescribeArguments := { tda_connection : ConnectionSelector; tda_table : string }.
Definition table_describe_arguments_from_value : Value → option TableDescribeArguments :=
  de_struct ["connection"; "table"] (λ field,
    connection ← required selector_from_value (field "connection");
    table ← required de_string (field "table");
    Some {| tda_connection := connection; tda_table := table |}).

Record QueryPlanArguments := {
  qpa_connection : ConnectionSelector; qpa_sql : string; qpa_max_rows : option Z;
}.
Definition query_plan_arguments_from_value : Value → option QueryPlanArguments :=
  de_struct ["connection"; "sql"; "maxRows"] (λ field,
    connection ← required selector_from_value (field "connection");
    sql ← required de_string (field "sql");
    max_rows ← optional de_u64 (field "maxRows");
    Some {| qpa_connection := connection; qpa_sql := sql; qpa_max_rows := max_rows |}).

Record QueryRunArguments := { qra_plan_id : Uuid }.
Definition query_run_arguments_from_value : Value → option QueryRunArguments :=
  de_struct ["planId"] (λ field,
    plan_id ← required de_uuid (field "planId"); Some {| qra_plan_id := plan_id |}).

Record QueryCancelArguments := { qca_operation_id : Uuid }.
Definition query_cancel_arguments_from_value : Value → option QueryCancelArguments :=
  de_struct ["operationId"] (λ field,
    operation_id ← required de_uuid (field "operationId");
    Some {| qca_operation_id := operation_id |}).

Record SqlProposeArguments := { spa_connection : ConnectionSelector; spa_sql : string }.
Definition sql_propose_arguments_from_value : Value → option SqlProposeArguments :=
  de_struct ["connection"; "sql"] (λ field,
    connection ← required selector_from_value (field "connection");
    sql ← required de_string (field "sql");
    Some {| spa_connection := connection; spa_sql := sql |}).

Record OperationArguments := { opa_operation_id : Uuid }.
Definition operation_arguments_from_value : Value → option OperationArguments :=
  de_struct ["operationId"] (λ field,
    operation_id ← required de_uuid (field "operationId");
    Some {| opa_operation_id := operation_id |}).

Record OperationWaitArguments := { owa_operation_id : Uuid; owa_timeout_ms : Z }.
Definition operation_wait_arguments_from_value : Value → option OperationWaitArguments :=
  de_struct ["operationId"; "timeoutMs"] (λ field,
    operation_id ← required de_uuid (field "operationId");
    timeout_ms ← required de_u64 (field "timeoutMs");
    Some {| owa_operation_id := operation_id; owa_timeout_ms := timeout_ms |}).

(** ** Results *)

Definition uuid_to_value (u : Uuid) : Value := VString (uuid_to_string u).
Definition datetime_to_value (t : DateTime) : Value := VString (datetime_to_string t).
(** [f64]: a value that is not finite is null. *)
Definition f64_to_value (f : spec_float) : Value :=
  match f with
  | S754_finite _ _ _ | S754_zero _ => VNumber (Float f)
  | _ => VNull
  end.

Record VersionResult := {
  vr_app_version : string; vr_protocol_min : Z; vr_protocol_max : Z;
  vr_command_schema_version : Z; vr_runtime_id : Uuid;
}.
Definition version_result_to_value (r : VersionResult) : Value :=
  ser_struct [("appVersion", Some (VString (vr_app_version r)));
              ("protocolMin", Some (value_of_u64 (vr_protocol_min r)));
              ("protocolMax", Some (value_of_u64 (vr_protocol_max r)));
              ("commandSchemaVersion", Some (value_of_u64 (vr_command_schema_version r)));
              ("runtimeId", Some (uuid_to_value (vr_runtime_id r)))].

Record StatusResult := {
  sr_app_version : string; sr_protocol_min : Z; sr_protocol_max : Z; sr_runtime_id : Uuid;
}.
Definition status_result_to_value (r : StatusResult) : Value :=
  ser_struct [("appVersion", Some (VString (sr_app_version r)));
              ("protocolMin", Some (value_of_u64 (sr_protocol_min r)));
              ("protocolMax", Some (value_of_u64 (sr_protocol_max r)));
              ("runtimeId", Some (uuid_to_value (sr_runtime_id r)))].

Record AppOpenResult := { aor_runtime_id : option Uuid; aor_launched : bool; aor_ready : bool }.
Definition app_open_result_to_value (r : AppOpenResult) : Value :=
  ser_struct [("runtimeId", uuid_to_value <$> aor_runtime_id r);
              ("launched", Some (VBool (aor_launched r)));
              ("ready", Some (VBool (aor_ready r)))].

Record ConnectionSummary := {
  cns_id : Uuid; cns_name : string; cns_engine : DatabaseEngine.t; cns_database : string;
  cns_environment : option string; cns_readonly : bool; cns_allow_writes : bool;
}.
Definition connection_summary_to_value (c : ConnectionSummary) : Value :=
  ser_struct [("id", Some (uuid_to_value (cns_id c)));
              ("name", Some (VString (cns_name c)));
              ("engine", Some (engine_to_value (cns_engine c)));
              ("database", Some (VString (cns_database c)));
              ("environment", VString <$> cns_environment c);
              ("readonly", Some (VBool (cns_readonly c)));
              ("allowWrites", Some (VBool (cns_allow_writes c)))].

Record ConnectionListResult := { clr_connections : list ConnectionSummary }.
Definition connection_list_result_to_value (r : ConnectionListResult) : Value :=
  ser_struct [("connections", Some (ser_list connection_summary_to_value (clr_connections r)))].

Record ConnectionTestResult := { ctr_connection : ConnectionSummary; ctr_reachable : bool }.
Definition connection_test_result_to_value (r : ConnectionTestResult) : Value :=
  ser_struct [("connection", Some (connection_summary_to_value (ctr_connection r)));
              ("reachable", Some (VBool (ctr_reachable r)))].

Record SchemaSummary := {
  scs_name : string; scs_relation_count : Z; scs_routine_count : Z; scs_object_count : Z;
}.
Definition schema_summary_to_value (s : SchemaSummary) : Value :=
  ser_struct [("name", Some (VString (scs_name s)));
              ("relationCount", Some (value_of_u64 (scs_relation_count s)));
              ("routineCount", Some (value_of_u64 (scs_routine_count s)));
              ("objectCount", Some (value_of_u64 (scs_object_count s)))].

Record SchemaListResult := { slr_connection_id : Uuid; slr_schemas : list SchemaSummary }.
Definition schema_list_result_to_value (r : SchemaListResult) : Value :=
  ser_struct [("connectionId", Some (uuid_to_value (slr_connection_id r)));
              ("schemas", Some (ser_list schema_summary_to_value (slr_schemas r)))].

Record TableDescribeResult := { tdr_connection_id : Uuid; tdr_relation : Relation }.
Definition table_describe_result_to_value (r : TableDescribeResult) : Value :=
  ser_struct [("connectionId", Some (uuid_to_value (tdr_connection_id r)));
              ("relation", Some (relation_to_value (tdr_relation r)))].

Record QueryHealth := {
  qh_level : string; qh_coverage : string; qh_total_connections : option Z;
  qh_max_connections : option Z; qh_connection_usage_percent : option spec_float;
  qh_active_queries : option Z; qh_long_running_queries : option Z; qh_lock_waits : option Z;
  qh_replication_lag_seconds : option spec_float; qh_reasons : list string;
  qh_captured_at : DateTime;
}.
Definition query_health_to_value (h : QueryHealth) : Value :=
  ser_struct [("level", Some (VString (qh_level h)));
              ("coverage", Some (VString (qh_coverage h)));
              ("totalConnections", value_of_i64 <$> qh_total_connections h);
              ("maxConnections", value_of_i64 <$> qh_max_connections h);
              ("connectionUsagePercent", f64_to_value <$> qh_connection_usage_percent h);
              ("activeQueries", value_of_i64 <$> qh_active_queries h);
              ("longRunningQueries", value_of_i64 <$> qh_long_running_queries h);
              ("lockWaits", value_of_i64 <$> qh_lock_waits h);
              ("replicationLagSeconds", f64_to_value <$> qh_replication_lag_seconds h);
              ("reasons", Some (ser_list VString (qh_reasons h)));
              ("capturedAt", Some (datetime_to_value (qh_captured_at h)))].

Record QueryPlanResult := {
  qpr_connection_id : Uuid; qpr_connection_name : string; qpr_environment : option string;
  qpr_plan_id : Uuid; qpr_decision : string; qpr_notices : list string;
  qpr_suggestions : list string; qpr_estimated_rows : option Z; qpr_health : QueryHealth;
  qpr_expires_at : DateTime;
}.
Definition query_plan_result_to_value (r : QueryPlanResult) : Value :=
  ser_struct [("connectionId", Some (uuid_to_value (qpr_connection_id r)));
              ("connectionName", Some (VString (qpr_connection_name r)));
              ("environment", VString <$> qpr_environment r);
              ("planId", Some (uuid_to_value (qpr_plan_id r)));
              ("decision", Some (VString (qpr_decision r)));
              ("notices", Some (ser_list VString (qpr_notices r)));
              ("suggestions", Some (ser_list VString (qpr_suggestions r)));
              ("estimatedRows", value_of_i64 <$> qpr_estimated_rows r);
              ("health", Some (query_health_to_value (qpr_health r)));
              ("expiresAt", Some (datetime_to_value (qpr_expires_at r)))].

Record QueryResultPage := {
  qrp_columns : list string; qrp_rows : list (list Value); qrp_row_count : Z;
  qrp_truncated : bool; qrp_duration_ms : Z;
}.
Definition query_result_page_to_value (r : QueryResultPage) : Value :=
  ser_struct [("columns", Some (ser_list VString (qrp_columns r)));
              ("rows", Some (ser_list VArray (qrp_rows r)));
              ("rowCount", Some (value_of_u64 (qrp_row_count r)));
              ("truncated", Some (VBool (qrp_truncated r)));
              ("durationMs", Some (value_of_u64 (qrp_duration_ms r)))].

Record QueryRunResult := {
  qrr_connection_id : Uuid; qrr_connection_name : string; qrr_plan_id : Uuid;
  qrr_query_run_id : Uuid; qrr_planning_decision : string; qrr_result : QueryResultPage;
}.
Definition query_run_result_to_value (r : QueryRunResult) : Value :=
  ser_struct [("connectionId", Some (uuid_to_value (qrr_connection_id r)));
              ("connectionName", Some (VString (qrr_connection_name r)));
              ("planId", Some (uuid_to_value (qrr_plan_id r)));
              ("queryRunId", Some (uuid_to_value (qrr_query_run_id r)));
              ("planningDecision", Some (VString (qrr_planning_decision r)));
              ("result", Some (query_result_page_to_value (qrr_result r)))].

(** The snake_case names of the operation enums are the stored ones. *)
Definition operation_summary_to_value (s : OperationSummary) : Value :=
  ser_struct [("operationId", Some (uuid_to_value (sum_operation_id s)));
              ("connectionId", Some (uuid_to_value (sum_connection_id s)));
              ("kind", Some (VString (operation_kind_str (sum_kind s))));
              ("state", Some (VString (state_str (sum_state s))));
              ("riskLevel", Some (VString (risk_level_str (sum_risk_level s))));
              ("payloadHash", Some (VString (sum_payload_hash s)));
              ("expiresAt", datetime_to_value <$> sum_expires_at s);
              ("startedAt", datetime_to_value <$> sum_started_at s);
              ("finishedAt", datetime_to_value <$> sum_finished_at s);
              ("createdAt", Some (datetime_to_value (sum_created_at s)));
              ("updatedAt", Some (datetime_to_value (sum_updated_at s)))].

(** ** Command specifications *)

Definition VersionCommand : CommandSpec unit VersionResult := {|
  NAME := CommandName.Version; AUTHENTICATION := NoAuthentication;
  arguments_from_value := empty_from_value; result_to_value := version_result_to_value |}.
Definition StatusCommand : CommandSpec unit StatusResult := {|
  NAME := CommandName.Status; AUTHENTICATION := NoAuthentication;
  arguments_from_value := empty_from_value; result_to_value := status_result_to_value |}.
Definition AppOpenCommand : CommandSpec AppOpenArguments AppOpenResult := {|
  NAME := CommandName.AppOpen; AUTHENTICATION := NoAuthentication;
  arguments_from_value := app_open_from_value; result_to_value := app_open_result_to_value |}.
Definition ConnectionListCommand : CommandSpec unit ConnectionListResult := {|
  NAME := CommandName.ConnectionList; AUTHENTICATION := TerminalSession;
  arguments_from_value := empty_from_value; result_to_value := connection_list_result_to_value |}.
Definition ConnectionShowCommand : CommandSpec ConnectionSelectorArguments ConnectionSummary := {|
  NAME := CommandName.ConnectionShow; AUTHENTICATION := TerminalSession;
  arguments_from_value := connection_selector_arguments_from_value;
  result_to_value := connection_summary_to_value |}.
Definition ConnectionTestCommand : CommandSpec ConnectionSelectorArguments ConnectionTestResult := {|
  NAME := CommandName.ConnectionTest; AUTHENTICATION := TerminalSession;
  arguments_from_value := connection_selector_arguments_from_value;
  result_to_value := connection_test_result_to_value |}.
Definition CatalogShowCommand : CommandSpec CatalogArguments CatalogSnapshot := {|
  NAME := CommandName.CatalogShow; AUTHENTICATION := TerminalSession;
  arguments_from_value := catalog_arguments_from_value; result_to_value := snapshot_to_value |}.
Definition SchemaListCommand : CommandSpec CatalogArguments SchemaListResult := {|
  NAME := CommandName.SchemaList; AUTHENTICATION := TerminalSession;
  arguments_from_value := catalog_arguments_from_value;
  result_to_value := schema_list_result_to_value |}.
Definition TableDescribeCommand : CommandSpec TableDescribeArguments TableDescribeResult := {|
  NAME := CommandName.TableDescribe; AUTHENTICATION := TerminalSession;
  arguments_from_value := table_describe_arguments_from_value;
  result_to_value := table_describe_result_to_value |}.
Definition QueryPlanCommand : CommandSpec QueryPlanArguments QueryPlanResult := {|
  NAME := CommandName.QueryPlan; AUTHENTICATION := TerminalSession;
  arguments_from_value := query_plan_arguments_from_value;
  result_to_value := query_plan_result_to_value |}.
Definition QueryRunCommand : CommandSpec QueryRunArguments QueryRunResult := {|
  NAME := CommandName.QueryRun; AUTHENTICATION := TerminalSession;
  arguments_from_value := query_run_arguments_from_value;
  result_to_value := query_run_result_to_value |}.
Definition QueryCancelCommand : CommandSpec QueryCancelArguments OperationSummary := {|
  NAME := CommandName.QueryCancel; AUTHENTICATION := TerminalSession;
  arguments_from_value := query_cancel_arguments_from_value;
  result_to_value := operation_summary_to_value |}.
Definition SqlProposeCommand : CommandSpec SqlProposeArguments OperationSummary := {|
  NAME := CommandName.SqlPropose; AUTHENTICATION := TerminalSession;
  arguments_from_value := sql_propose_arguments_from_value;
  result_to_value := operation_summary_to_value |}.
Definition OperationShowCommand : CommandSpec OperationArguments OperationSummary := {|
  NAME := CommandName.OperationShow; AUTHENTICATION := TerminalSession;
  arguments_from_value := operation_arguments_from_value;
  result_to_value := operation_summary_to_value |}.
Definition OperationWaitCommand : CommandSpec OperationWaitArguments OperationSummary := {|
  NAME := CommandName.OperationWait; AUTHENTICATION := TerminalSession;
  arguments_from_value := operation_wait_arguments_from_value;
  result_to_value := operation_summary_to_value |}.
Definition OperationCancelCommand : CommandSpec OperationArguments OperationSummary := {|
  NAME := CommandName.OperationCancel; AUTHENTICATION := TerminalSession;
  arguments_from_value := operation_arguments_from_value;
  result_to_value := operation_summary_to_value |}.
End commands.
Arguments ConnectionSelector {P}.
