(* ===== verification/Programs.v ===== *)
(** * Services as programs over effects

    A service method awaits calls of the local store, the Operation Runtime, the
    control plane and the target database, and other tasks run while it waits.
    It is written as a [prog]: a tree of calls [Vis op k] whose continuation [k]
    receives the answer.  [reaches] runs a program in a world that other tasks
    change between its calls; [wp] is the logic of the histories it can see. *)

From S2P Require Export Prelude.

Section programs.
Context {Op : Type} {Res : Op → Type}.

Inductive prog (A : Type) : Type :=
| Ret (a : A)
| Vis (op : Op) (k : Res op → prog A).
Arguments Ret {A} a.
Arguments Vis {A} op k.

Definition call (op : Op) : prog (Res op) := Vis op Ret.

#[export] Instance prog_ret : MRet prog := λ A, Ret.
#[export] Instance prog_bind : MBind prog := λ A B f,
  fix bind (p : prog A) := match p with Ret a => f a | Vis op k => Vis op (λ r, bind (k r)) end.
#[export] Instance prog_fmap : FMap prog := λ A B f p, p ≫= (λ a, Ret (f a)).

(** [m.await.map_err(f)?], with the rest of the method as continuation. *)
Definition try_with {E F A B} (f : E → F) (m : prog (result E A))
  (k : A → prog (result F B)) : prog (result F B) :=
  m ≫= λ r, match r with Ok a => k a | Err e => Ret (Err (f e)) end.

(** A pure fallible step. *)
Definition try_pure {E F A B} (f : E → F) (r : result E A) (k : A → prog (result F B))
  : prog (result F B) :=
  match r with Ok a => k a | Err e => Ret (Err (f e)) end.

(** [for x in l { f(x).await }] *)
Fixpoint for_each {X S} (f : S → X → prog S) (l : list X) (s : S) : prog S :=
  match l with [] => Ret s | x :: l => f s x ≫= for_each f l end.

(** One call with its answer; a history lists them, the latest first. *)
Record entry := Entry { called : Op; answer : Res called }.

(** ** Histories a program can see *)

Section logic.
Variable ok : ∀ op, Res op → Prop.
Variable allowed : list entry → Op → Prop.

(** From history [h] every call of [p] is allowed, and its result satisfies [Q]. *)
Fixpoint wp {A} (p : prog A) (Q : A → list entry → Prop) (h : list entry) : Prop :=
  match p with
  | Ret a => Q a h
  | Vis op k => allowed h op ∧ ∀ r, ok op r → wp (k r) Q (Entry op r :: h)
  end.

Lemma wp_ret {A} (a : A) Q h : Q a h → wp (Ret a) Q h.
Proof. done. Qed.

Lemma wp_call op Q h :
  allowed h op → (∀ r, ok op r → Q r (Entry op r :: h)) → wp (call op) Q h.
Proof. by split. Qed.

Lemma wp_mono {A} (p : prog A) (Q Q' : A → list entry → Prop) h :
  (∀ a h, Q a h → Q' a h) → wp p Q h → wp p Q' h.
Proof. revert h. induction p as [a|op k IH]; cbn; naive_solver. Qed.

Lemma wp_bind {A B} (p : prog A) (f : A → prog B) Q h :
  wp p (λ a h, wp (f a) Q h) h → wp (p ≫= f) Q h.
Proof. revert h. induction p as [a|op k IH]; cbn; naive_solver. Qed.

Lemma wp_try {E F A B} (f : E → F) (m : prog (result E A)) (k : A → prog (result F B)) Q h :
  wp m (λ r h, match r with Ok a => wp (k a) Q h | Err e => Q (Err (f e)) h end) h →
  wp (try_with f m k) Q h.
Proof. intros H. apply wp_bind. eapply wp_mono; [|exact H]. by intros [a|e] ?. Qed.

Lemma wp_try_pure {E F A B} (f : E → F) (r : result E A) (k : A → prog (result F B)) Q h :
  (∀ a, r = Ok a → wp (k a) Q h) → (∀ e, r = Err e → Q (Err (f e)) h) →
  wp (try_pure f r k) Q h.
Proof. destruct r; cbn; auto. Qed.

(** The invariant rule of a loop; [I] may depend on the elements left. *)
Lemma wp_for_each {X S} (f : S → X → prog S) (I : list X → S → list entry → Prop) l s Q h :
  I l s h → (∀ s h, I [] s h → Q s h) →
  (∀ x l s h, I (x :: l) s h → wp (f s x) (I l) h) → wp (for_each f l s) Q h.
Proof.
  revert s h. induction l as [|x l IH]; intros s h HI HQ Hf; cbn; [auto|].
  apply wp_bind. eapply wp_mono; [|by apply Hf]. intros s' h' H. cbn in H. by apply IH.
Qed.
End logic.

(** A weaker contract on the calls. *)
Lemma wp_allowed_mono ok (allowed allowed' : list entry → Op → Prop) {A} (p : prog A) Q h :
  (∀ h op, allowed h op → allowed' h op) → wp ok allowed p Q h → wp ok allowed' p Q h.
Proof. intros Ha. revert h. induction p as [a|op k IH]; cbn; naive_solver. Qed.

(** ** Running a program *)

Section world.
Context {W : Type}.
(** What other tasks may do, and what a call does and answers. *)
Variable env : W → W → Prop.
Variable respond : ∀ op, W → Res op → W → Prop.

(** After the calls that extend [h] to [h'], [q] is left to run. *)
Fixpoint reaches {A} (p : prog A) (w : W) (h : list entry) (q : prog A) (w' : W)
  (h' : list entry) : Prop :=
  (h' = h ∧ q = p ∧ env w w')
  ∨ match p with
    | Ret _ => False
    | Vis op k => ∃ r w1 w2, env w w1 ∧ respond op w1 r w2
        ∧ reaches (k r) w2 (Entry op r :: h) q w' h'
    end.

Lemma reaches_wp (ok : ∀ op, Res op → Prop) allowed {A} (p q : prog A) Q w h w' h' :
  (∀ op w r w', respond op w r w' → ok op r) →
  reaches p w h q w' h' → wp ok allowed p Q h → wp ok allowed q Q h'.
Proof.
  intros Hok. revert w h. induction p as [a|op k IH]; cbn; intros w h H Hp.
  - by destruct H as [(-> & -> & _)|[]].
  - destruct H as [(-> & -> & _)|(r & w1 & w2 & _ & Hr & H)]; [done|].
    eapply IH; [exact H|]. apply Hp. by eapply Hok.
Qed.

(** An invariant of the world and the history. *)
Lemma reaches_invariant (ok : ∀ op, Res op → Prop) allowed (I : W → list entry → Prop)
  {A} (p q : prog A) Q w h w' h' :
  (∀ op w r w', respond op w r w' → ok op r) →
  (∀ w w' h, I w h → env w w' → I w' h) →
  (∀ w w' h op r, I w h → allowed h op → respond op w r w' → I w' (Entry op r :: h)) →
  reaches p w h q w' h' → wp ok allowed p Q h → I w h → I w' h'.
Proof.
  intros Hok Henv Hres. revert w h. induction p as [a|op k IH]; cbn; intros w h H Hp Hi.
  - destruct H as [(-> & -> & H)|[]]. by eapply Henv.
  - destruct H as [(-> & -> & H)|(r & w1 & w2 & He & Hr & H)]; [by eapply Henv|].
    destruct Hp as [Ha Hp]. eapply IH; [exact H|by eapply Hp, Hok|].
    eapply Hres; [by eapply Henv|done|exact Hr].
Qed.

(** Running with an answering function. *)
Fixpoint exec {A} (oracle : ∀ op, W → Res op * W) (p : prog A) (w : W) (h : list entry)
  : A * W * list entry :=
  match p with
  | Ret a => (a, w, h)
  | Vis op k => let '(r, w) := oracle op w in exec oracle (k r) w (Entry op r :: h)
  end.

(** The first state of such a run whose next call satisfies [stop]. *)
Fixpoint exec_until {A} (oracle : ∀ op, W → Res op * W) (stop : Op → bool) (p : prog A) (w : W)
  (h : list entry) : option (prog A * W * list entry) :=
  match p with
  | Ret _ => None
  | Vis op k =>
      if stop op then Some (p, w, h)
      else let '(r, w) := oracle op w in exec_until oracle stop (k r) w (Entry op r :: h)
  end.

Lemma exec_reaches {A} oracle (p : prog A) w h a w' h' :
  (∀ w, env w w) → (∀ op w, respond op w (oracle op w).1 (oracle op w).2) →
  exec oracle p w h = (a, w', h') → reaches p w h (Ret a) w' h'.
Proof.
  intros He Ho. revert w h. induction p as [b|op k IH]; cbn; intros w h H.
  - injection H as -> -> ->. by left.
  - pose proof (Ho op w) as Hop. destruct (oracle op w) as [r w1]. right.
    exists r, w, w1. split_and!; [done|exact Hop|by apply IH].
Qed.

Lemma exec_until_reaches {A} oracle stop (p q : prog A) w h w' h' :
  (∀ w, env w w) → (∀ op w, respond op w (oracle op w).1 (oracle op w).2) →
  exec_until oracle stop p w h = Some (q, w', h') → reaches p w h q w' h'.
Proof.
  intros He Ho. revert w h. induction p as [b|op k IH]; cbn; intros w h H; [done|].
  destruct (stop op); [injection H as <- <- <-; by left|].
  pose proof (Ho op w) as Hop. destruct (oracle op w) as [r w1]. right.
  exists r, w, w1. split_and!; [done|exact Hop|by apply IH].
Qed.
End world.
End programs.

Arguments prog {Op} Res A.
Arguments Ret {Op Res A} a.
Arguments Vis {Op Res A} op k.
Arguments entry {Op} Res.
Arguments Entry {Op Res} called answer.
Arguments called {Op Res} e : rename.
Arguments answer {Op Res} e : rename.

Declare Scope prog_scope.
Delimit Scope prog_scope with prog.
Notation "'try' x ← m 'or' f ; k" := (try_with f m (λ x, k))
  (at level 200, x binder, m at level 100, f at level 99, k at level 200,
   format "'try'  x  ←  m  'or'  f ;  '//' k") : prog_scope.
Notation "'check' x ← r 'or' f ; k" := (try_pure f r (λ x, k))
  (at level 200, x binder, r at level 100, f at level 99, k at level 200,
   format "'check'  x  ←  r  'or'  f ;  '//' k") : prog_scope.
