(* ===== verification/Effects.v ===== *)
(** * What the application services call

    [Call.t] lists the calls the services of src-tauri/src/services/ await: the
    Operation Runtime, the local store, the connection manager, the
    cancellation registry and the target database.  A [World] holds the parts of
    the local store whose evolution the theorems follow, the operation ledger and
    the audit log; [respond] answers the ledger's calls by Runtime.v and the
    audit's by AuditLog.v, and lets every other call answer anything of its type.
    Other tasks act between two calls ([others]). *)

From S2P Require Export Programs Safety ReadOnly AuditLog OperationService.

(** connection/runtime.rs *)
Module ConnectionAccess.
Inductive t := Read | Write.
#[global] Instance eq_dec : EqDecision t.
Proof. solve_decision. Defined.
End ConnectionAccess.

(** connection/pool.rs, connection/mod.rs: a pool is named by a number. *)
Record DbPool := { pool_engine : PoolRef.t; pool_id : nat }.
Record LiveConnection := {
  read_pool : DbPool; write_pool : DbPool; skip_fk_metadata : bool;
}.
Inductive Live := LiveSql (live : LiveConnection) | LiveMongo (connection : nat).

Definition live_sql (self : Live) : AppResult LiveConnection :=
  match self with
  | LiveSql live => Ok live
  | LiveMongo _ => Err (Config
      "this is a MongoDB document connection — SQL operations are not available on it")
  end.
Definition live_mongo (self : Live) : AppResult nat :=
  match self with
  | LiveMongo connection => Ok connection
  | LiveSql _ => Err (Config
      "this is a SQL connection — document operations are not available on it")
  end.

(** A transaction opened on a pool. *)
Record Transaction := { tx_pool : DbPool; tx_id : nat }.

(** One row of an EXPLAIN: what [try_get] finds in its columns. *)
Record ExplainRow := { er_json : option Value; er_text : option string; er_detail : option string }.

(** What the wall-clock guard sees when it is polled. *)
Inductive Signal := Running | Cancelled | TimedOut.

Section types.
Context {P : Platform}.

(** monitoring/mod.rs *)
Record HealthSnapshot := {
  hs_level : string; hs_coverage : string; hs_total_connections : option Z;
  hs_max_connections : option Z; hs_connection_usage_percent : option spec_float;
  hs_active_queries : option Z; hs_long_running_queries : option Z; hs_lock_waits : option Z;
  hs_replication_lag_seconds : option spec_float; hs_reasons : list string;
  hs_captured_at : DateTime;
}.

(** audit/mod.rs *)
Record RecordArgs := {
  ra_connection_id : Uuid; ra_engine : Engine.t; ra_agent_prompt : option string;
  ra_sql : string; ra_kind : QueryKind.t; ra_action : string; ra_approved_by : option string;
  ra_affected_estimate : option Z; ra_error : option string;
}.

(** model.rs *)
Record HistoryEntry := {
  he_id : Uuid; he_connection_id : Uuid; he_sql : string; he_kind : QueryKind.t;
  he_status : string; he_row_count : option Z; he_duration_ms : option Z;
  he_error : option string; he_executed_at : DateTime; he_origin : string;
}.

(** monitoring/mod.rs: what [try_get] finds in the columns of the status query *)
Record StatusRow := {
  sr_role_available : result SqlxError bool; sr_role_granted : result SqlxError bool;
  sr_current_user : result SqlxError string; sr_can_manage : result SqlxError bool;
}.

End types.

Module Call.
Section call.
Context {P : Platform}.

Inductive t :=
(** operations/runtime.rs *)
| OperationGet (id : Uuid)
| OperationPlan (operation : NewOperation) (disposition : OperationPlanDisposition)
| OperationClaim (id : Uuid)
| OperationFinish (id : Uuid) (target : OperationState.t) (details : Value)
(** store/mod.rs *)
| PinForRead (id : Uuid)
| PinForView (id : Uuid)
| IsPinCurrent (pin : PinnedConnection)
| GetSafety (id : Uuid)
| InsertHistory (pin : PinnedConnection) (entry : HistoryEntry)
| ClearSchemaCache (id : Uuid)
(** audit/mod.rs *)
| AuditRecord (args : RecordArgs)
(** workspace_auth.rs: the revision of the authority granted *)
| AuthorizeConnection (user_id : string) (workspace_id connection_id : Uuid) (write : bool)
(** connection/runtime.rs: [ConnectionContext::connect] *)
| OpenLive (pin : PinnedConnection) (access : ConnectionAccess.t)
(** executor/cancel.rs *)
| Register (id : Uuid)
| IsCancelled (handle : nat)
| DropHandle (handle : nat)
| Poll (handle : option nat)
(** the target database *)
| FetchRows (pool : DbPool) (sql : string) (max : Z)
| Describe (pool : DbPool) (sql : string)
| ReadOnlyRun (pool : DbPool) (sql : string) (max : Z)
| ExplainOne (pool : DbPool) (query : string)
| ExplainAll (pool : DbPool) (query : string)
| Health (live : LiveConnection) (engine : Engine.t)
| StatusQuery (pool : DbPool)
(** a statement outside a transaction, under a timeout *)
| ExecutePool (pool : DbPool) (sql : string)
(** mongo/query.rs: [run] (Mongo.v) on a connection *)
| DocumentRun (connection : nat) (query : DocumentQuery) (max_rows max_time : Z)
| Begin (pool : DbPool)
| Execute (tx : Transaction) (sql : string)
| Commit (tx : Transaction)
| Rollback (tx : Transaction)
(** the clock and the random source *)
| NewUuid
| Now
| ElapsedMillis.

Definition res (c : t) : Type :=
  match c with
  | OperationGet _ | OperationPlan _ _ | OperationFinish _ _ _ => AppResult OperationRecord
  | OperationClaim _ => AppResult ClaimedOperation
  | PinForRead _ | PinForView _ => AppResult PinnedConnection
  | IsPinCurrent _ => AppResult bool
  | GetSafety _ => AppResult SafetySettings
  | InsertHistory _ _ | ClearSchemaCache _ => AppResult unit
  | AuditRecord _ => AppResult AuditEntry
  | AuthorizeConnection _ _ _ _ => AppResult Z
  | OpenLive _ _ => AppResult Live
  | Register _ => nat
  | IsCancelled _ => bool
  | DropHandle _ => unit
  | Poll _ => Signal
  | FetchRows _ _ _ => result SqlxError (list string * list (list Value) * bool)
  | Describe _ _ => option (list string)
  | ReadOnlyRun _ _ _ => AppResult QueryResult
  | ExplainOne _ _ => option ExplainRow
  | ExplainAll _ _ => option (list ExplainRow)
  | Health _ _ => HealthSnapshot
  | StatusQuery _ => option (result SqlxError StatusRow)
  | ExecutePool _ _ => option (result SqlxError unit)
  | DocumentRun _ _ _ _ => AppResult DocumentPage
  | Begin _ => result SqlxError Transaction
  | Execute _ _ => result SqlxError Z
  | Commit _ | Rollback _ => result SqlxError unit
  | NewUuid => Uuid
  | Now => DateTime
  | ElapsedMillis => Z
  end.
End call.
End Call.

Abbreviation program A := (prog Call.res A).
Abbreviation history := (list (entry Call.res)).

(** ** Calls *)

Section calls.
Context {P : Platform}.

Definition operation_get id : program (AppResult OperationRecord) := call (Call.OperationGet id).
Definition operation_plan o d : program (AppResult OperationRecord) := call (Call.OperationPlan o d).
Definition operation_claim id : program (AppResult ClaimedOperation) := call (Call.OperationClaim id).
Definition operation_finish id target details : program (AppResult OperationRecord) :=
  call (Call.OperationFinish id target details).
Definition operation_succeed id := operation_finish id OperationState.Succeeded.
Definition operation_fail id := operation_finish id OperationState.Failed.
Definition operation_confirm_cancelled id := operation_finish id OperationState.Cancelled.
Definition operation_outcome_unknown id := operation_finish id OperationState.OutcomeUnknown.
Definition store_pin_for_read id : program (AppResult PinnedConnection) := call (Call.PinForRead id).
Definition store_pin_for_view id : program (AppResult PinnedConnection) := call (Call.PinForView id).
Definition store_is_pin_current pin : program (AppResult bool) := call (Call.IsPinCurrent pin).
Definition store_get_safety id : program (AppResult SafetySettings) := call (Call.GetSafety id).
Definition store_insert_history pin entry : program (AppResult unit) :=
  call (Call.InsertHistory pin entry).
Definition store_clear_schema_cache id : program (AppResult unit) := call (Call.ClearSchemaCache id).
Definition audit_record args : program (AppResult AuditEntry) := call (Call.AuditRecord args).
Definition authorize_connection u w c write : program (AppResult Z) :=
  call (Call.AuthorizeConnection u w c write).
Definition open_live pin access : program (AppResult Live) := call (Call.OpenLive pin access).
Definition cancel_register id : program nat := call (Call.Register id).
Definition cancel_is_cancelled handle : program bool := call (Call.IsCancelled handle).
Definition cancel_drop handle : program unit := call (Call.DropHandle handle).
Definition poll handle : program Signal := call (Call.Poll handle).
Definition fetch_rows pool sql max
  : program (result SqlxError (list string * list (list Value) * bool)) :=
  call (Call.FetchRows pool sql max).
Definition describe_columns pool sql : program (option (list string)) := call (Call.Describe pool sql).
Definition read_only_run pool sql max : program (AppResult QueryResult) :=
  call (Call.ReadOnlyRun pool sql max).
Definition explain_one pool query : program (option ExplainRow) := call (Call.ExplainOne pool query).
Definition explain_all pool query : program (option (list ExplainRow)) :=
  call (Call.ExplainAll pool query).
Definition health_snapshot live engine : program HealthSnapshot := call (Call.Health live engine).
Definition status_query pool : program (option (result SqlxError StatusRow)) :=
  call (Call.StatusQuery pool).
Definition execute_pool pool sql : program (option (result SqlxError unit)) :=
  call (Call.ExecutePool pool sql).
Definition document_run connection query max_rows max_time : program (AppResult DocumentPage) :=
  call (Call.DocumentRun connection query max_rows max_time).
Definition tx_begin pool : program (result SqlxError Transaction) := call (Call.Begin pool).
Definition tx_execute tx sql : program (result SqlxError Z) := call (Call.Execute tx sql).
Definition tx_commit tx : program (result SqlxError unit) := call (Call.Commit tx).
Definition tx_rollback tx : program (result SqlxError unit) := call (Call.Rollback tx).
Definition new_uuid : program Uuid := call Call.NewUuid.
Definition utc_now : program DateTime := call Call.Now.
Definition elapsed_millis : program Z := call Call.ElapsedMillis.

(** [cancel::guard_registered]: the guard is polled before the future starts and
    whenever it is woken; a cancelled or expired guard drops the future, whatever
    the call in flight answers. *)
Definition interrupted {A} (signal : Signal) : option (AppResult A) :=
  match signal with
  | Running => None
  | Cancelled => Some (Err (Safety "query cancelled"))
  | TimedOut => Some (Err (Safety ("query timed out after " +:+ pretty QUERY_TIMEOUT_SECS
                                   +:+ "s and was aborted")))
  end.

Fixpoint guarded_run {A} (handle : option nat) (fut : program (AppResult A))
  : program (AppResult A) :=
  match fut with
  | Ret r => Ret r
  | Vis c k =>
      Vis c (λ answer, signal ← poll handle;
        match interrupted signal with
        | Some r => Ret r
        | None => guarded_run handle (k answer)
        end)
  end.

Definition guarded {A} (handle : option nat) (fut : program (AppResult A))
  : program (AppResult A) :=
  signal ← poll handle;
  match interrupted signal with
  | Some r => Ret r
  | None => guarded_run handle fut
  end.

(** The slot registered for [id] lives until [body] returns. *)
Definition with_cancellation {A} (id : Uuid) (body : nat → program A) : program A :=
  handle ← cancel_register id;
  r ← body handle;
  _ ← cancel_drop handle;
  Ret r.
End calls.
