(* ===== verification/World.v ===== *)
(** * The world the services act on

    [others] is what other tasks do between two calls, [respond] what a call
    does and answers: the ledger's calls run Runtime.v's methods on the stored
    tables, [audit_record] appends as AuditLog.v does, and a call of the store
    may fail with a driver error that changes nothing.  [world_ok] is the
    invariant every run keeps: the ledger is safe, and what the history says was
    read, claimed and audited is still there. *)

From S2P Require Export Effects.

Section world.
Context {P : Platform} {SD : Serde}.

Record World := { w_ops : LocalDb; w_audit : list AuditRow }.

Definition others (w w' : World) : Prop :=
  activity (w_ops w) (w_ops w') ∧ w_audit w `prefix_of` w_audit w'.

(** The ranges of the Rust types. *)
Definition pin_ranges (pin : PinnedConnection) : Prop :=
  in_i64 (pc_binding_revision pin) ∧ in_i64 (pc_connection_revision pin)
  ∧ in_i64 (sc_generation (pc_scope pin)).
Definition settings_ranges (settings : SafetySettings) : Prop :=
  0 ≤ max_rows settings ≤ u64_max ∧ in_i64 (exec_preview_row_limit settings).

(** Answers have the ranges of their Rust types; the clock is not within a day of
    the year 10000. *)
Definition answer_ok (c : Call.t) : Call.res c → Prop :=
  match c with
  | Call.Now => λ t, min_rfc3339 ≤ t < max_rfc3339 - 86400 * 10 ^ 9
  | Call.PinForRead _ | Call.PinForView _ => λ r, ∀ pin, r = Ok pin → pin_ranges pin
  | Call.GetSafety _ => λ r, ∀ settings, r = Ok settings → settings_ranges settings
  | Call.ElapsedMillis => λ n, 0 ≤ n ≤ u64_max
  | Call.Execute _ _ => λ r, ∀ n, r = Ok n → 0 ≤ n ≤ u64_max
  | Call.ReadOnlyRun _ _ _ => λ r, ∀ q, r = Ok q →
      0 ≤ qr_row_count q ≤ u64_max ∧ 0 ≤ qr_duration_ms q ≤ u64_max
  | Call.FetchRows _ _ _ => λ r, ∀ x, r = Ok x → Z.of_nat (length x.1.2) ≤ u64_max
  | Call.DocumentRun _ _ _ _ => λ r, ∀ page, r = Ok page →
      0 ≤ dp_doc_count page ≤ u64_max ∧ 0 ≤ dp_duration_ms page ≤ u64_max
  | Call.ExplainOne _ _ => λ r, ∀ row v, r = Some row → er_json row = Some v → value_wf v = true
  | _ => λ _, True
  end.

(** The row [audit::record] inserts for [args]. *)
Definition audit_fields (ts : DateTime) (args : RecordArgs) : AuditFields := {|
  af_connection_id := ra_connection_id args; af_ts := ts; af_engine := ra_engine args;
  af_agent_prompt := ra_agent_prompt args; af_sql := ra_sql args; af_kind := ra_kind args;
  af_action := ra_action args; af_approved_by := ra_approved_by args;
  af_affected_estimate := ra_affected_estimate args; af_error := ra_error args |}.

Definition stored_answer {A} (w : World) (m : effect LocalDb A) (r : AppResult A) (w' : World)
  : Prop := r = m.1 ∧ w' = {| w_ops := m.2; w_audit := w_audit w |}.

Definition storage_failure {A} (w : World) (r : AppResult A) (w' : World) : Prop :=
  w' = w ∧ ∃ e, r = Err (Db e).

Variable self : OperationRuntime.

Definition respond (c : Call.t) (w : World) : Call.res c → World → Prop :=
  match c with
  | Call.OperationGet id => λ r w', w' = w ∧ (r = get id (w_ops w) ∨ ∃ e, r = Err (Db e))
  | Call.OperationPlan o d => λ r w', storage_failure w r w'
      ∨ ∃ e e' n n' between, clock_ok n ∧ clock_ok n'
        ∧ (let db := (insert_planned e (rt_runtime_id self) o n (w_ops w)).2 in
           activity db (between db))
        ∧ stored_answer w (plan e e' n n' between self o d (w_ops w)) r w'
  | Call.OperationClaim id => λ r w', storage_failure w r w'
      ∨ ∃ e n, clock_ok n ∧ stored_answer w (claim e n self id (w_ops w)) r w'
  | Call.OperationFinish id target details => λ r w', storage_failure w r w'
      ∨ ∃ e n, clock_ok n ∧ stored_answer w (finish e n self id target details (w_ops w)) r w'
  | Call.AuditRecord args => λ r w', storage_failure w r w'
      ∨ ∃ id ts, clock_ok ts ∧ r = Ok (record id (audit_fields ts args) (w_audit w)).1
          ∧ w' = {| w_ops := w_ops w;
                    w_audit := (record id (audit_fields ts args) (w_audit w)).2 |}
  | c => λ r w', w' = w ∧ answer_ok c r
  end.

(** What the services promise about the calls they make. *)
Definition call_wf (c : Call.t) : Prop :=
  match c with
  | Call.OperationPlan o _ => new_operation_ok o
  | Call.OperationFinish _ target details =>
      value_exact details = true ∧ OperationState.is_terminal target = true
  | _ => True
  end.

Lemma respond_answer_ok c w r w' : respond c w r w' → answer_ok c r.
Proof. destruct c; cbn; naive_solver. Qed.
End world.

(** ** The invariant of a run *)

Section invariant.
Context {P : Platform} {L : PlatformLaws P} {SD : Serde} {SL : SerdeLaws SD}.

(** [op] was read earlier; the stored operation differs in its lifecycle only. *)
Definition stored_as (w : World) (op : OperationRecord) : Prop :=
  ∃ op', get (op_id op) (w_ops w) = Ok op'
    ∧ op' = with_lifecycle op (op_state op') (op_started_at op') (op_finished_at op')
              (op_updated_at op').

(** An approval of exactly what [op] holds, by an identified local or workspace
    user (the table's CHECK). *)
Definition approval_of (w : World) (op : OperationRecord) : Prop :=
  ∃ a, a ∈ operation_approvals (w_ops w)
    ∧ apr_operation_id a = uuid_to_string (op_id op)
    ∧ apr_payload_hash a = op_payload_hash op ∧ apr_decision a = "approved"
    ∧ apr_policy_revision a = op_policy_revision op.

Record claimed_fact (w : World) (id : Uuid) (claimed : ClaimedOperation) : Prop := {
  cf_id : op_id (co_record claimed) = id;
  cf_stored : stored_as w (co_record claimed);
  cf_payload : canonical_hash (op_payload (co_record claimed))
    = Ok (op_payload_hash (co_record claimed));
  cf_grant : co_grant claimed =
    {| eg_operation_id := id; eg_payload_sha256 := op_payload_hash (co_record claimed);
       eg_connection_id := op_connection_id (co_record claimed) |};
  cf_approved : OperationKind.may_mutate_target (op_kind (co_record claimed)) = true →
    approval_of w (co_record claimed);
}.

Definition audited (w : World) (args : RecordArgs) : Prop :=
  ∃ row, row ∈ w_audit w ∧ au_connection_id row = uuid_to_string (ra_connection_id args)
    ∧ au_sql row = ra_sql args ∧ au_kind row = kind_str (ra_kind args)
    ∧ au_action row = ra_action args ∧ au_approved_by row = ra_approved_by args.

(** [op] stores what [o] asked for: its payload is the canonical form of the
    requested one, unless the two texts collide. *)
Definition planned_from (o : NewOperation) (op : OperationRecord) : Prop :=
  canonical_hash (new_payload o) = Ok (op_payload_hash op)
  ∧ (op_payload op = canonical_value (new_payload o)
     ∨ values_collide (op_payload op) (new_payload o)).

(** The operation is in the terminal state [target], for good. *)
Definition finished_as (w : World) (id : Uuid) (target : OperationState.t) : Prop :=
  ∃ op, get id (w_ops w) = Ok op ∧ op_state op = target
    ∧ OperationState.is_terminal target = true.

Definition entry_fact (w : World) (e : entry Call.res) : Prop :=
  match e with
  | Entry c r =>
      match c return Call.res c → Prop with
      | Call.OperationGet id => λ r, ∀ op, r = Ok op → op_id op = id ∧ stored_as w op
      | Call.OperationPlan o _ => λ r, ∀ op, r = Ok op → planned_from o op
      | Call.OperationClaim id => λ r, ∀ claimed, r = Ok claimed → claimed_fact w id claimed
      | Call.OperationFinish id target _ => λ r, ∀ op, r = Ok op → finished_as w id target
      | Call.AuditRecord args => λ r, ∀ entry, r = Ok entry → audited w args
      | _ => λ _, True
      end r
  end.

Record world_ok (w : World) (h : history) : Prop := {
  wo_safe : safe (w_ops w);
  wo_facts e : e ∈ h → entry_fact w e;
}.

(** [w'] keeps what [w] stores. *)
Definition keeps (w w' : World) : Prop :=
  grows (w_ops w) (w_ops w') ∧ w_audit w `prefix_of` w_audit w'.

Lemma safe_Inv db : safe db → Inv db.
Proof. intros H. by apply reachable_Inv, safe_reachable. Qed.

Lemma get_later db db' id op :
  Inv db → Inv db' → grows db db' → get id db = Ok op → ∃ op', get id db' = Ok op'.
Proof.
  intros Hi Hi' Hg H. destruct (get_stored _ _ _ Hi H) as (r & t & Hr & Hs & Hid & _).
  destruct (grows_row _ _ _ Hg Hr) as (r' & Hr' & (Hid' & _)).
  destruct (inv_entry _ Hi' _ Hr') as (op' & t' & Hs' & _). exists op'.
  rewrite <-(stored_get _ _ _ Hi' Hr' Hs'). f_equal. apply (inj uuid_to_string).
  by rewrite <-(st_id _ _ Hs'), <-Hid', (st_id _ _ Hs), Hid.
Qed.

Lemma stored_as_keeps w w' op :
  safe (w_ops w) → safe (w_ops w') → keeps w w' → stored_as w op → stored_as w' op.
Proof.
  intros Hs%safe_Inv Hs'%safe_Inv [Hg _] (op1 & H1 & He1).
  destruct (get_later _ _ _ _ Hs Hs' Hg H1) as [op2 H2]. exists op2. split; [done|].
  pose proof (get_grows _ _ _ _ _ Hs Hs' Hg H1 H2) as He2.
  rewrite He1 in He2. by rewrite He2.
Qed.

Lemma finished_as_keeps w w' id target :
  safe (w_ops w) → safe (w_ops w') → keeps w w' → finished_as w id target → finished_as w' id target.
Proof.
  intros Hs%safe_Inv Hs'%safe_Inv [Hg _] (op & H & Hst & Ht).
  destruct (get_later _ _ _ _ Hs Hs' Hg H) as [op' H']. exists op'. split_and!; [done| |done].
  destruct (get_stored _ _ _ Hs H) as (r & t & Hr & Hsr & Hid & _).
  destruct (get_stored _ _ _ Hs' H') as (r' & t' & Hr' & Hsr' & Hid' & _).
  destruct (grows_row _ _ _ Hg Hr) as (r1 & Hr1 & Hid1 & _ & s & s' & Hst1 & Hst2 & Hsteps).
  assert (r1 = r') as ->.
  { eapply row_unique; [apply (inv_ids _ Hs')|done..|].
    by rewrite <-Hid1, (st_id _ _ Hsr), (st_id _ _ Hsr'), Hid, Hid'. }
  destruct (row_to_operation_columns _ _ (st_decode _ _ Hsr)) as (Hc & _).
  destruct (row_to_operation_columns _ _ (st_decode _ _ Hsr')) as (Hc' & _).
  rewrite Hc in Hst1. rewrite Hc' in Hst2. apply state_str_inj in Hst1, Hst2. subst.
  destruct Hsteps as [|s1 s2 s3 Hstep _]; [done|].
  by apply StateMachine.terminal_no_step in Hstep.
Qed.

Lemma entry_fact_keeps w w' e :
  safe (w_ops w) → safe (w_ops w') → keeps w w' → entry_fact w e → entry_fact w' e.
Proof.
  intros Hs Hs' Hk. destruct e as [c r]. destruct c; cbn; try done.
  - intros H op Hr. destruct (H op Hr). eauto using stored_as_keeps.
  - intros H claimed Hr. destruct (H claimed Hr) as [H1 H2 H3 H4 H5].
    split; eauto using stored_as_keeps. intros Hm. destruct (H5 Hm) as (a & Ha & Hrest).
    exists a. split; [|done]. by eapply grows_approval_in; [apply Hk|].
  - intros H op Hr. by eapply finished_as_keeps; [..|eapply H].
  - intros H entry Hr. destruct (H entry Hr) as (row & Hin & Hrest). exists row.
    split; [|done]. destruct Hk as [_ [l ->]]. apply elem_of_app. by left.
Qed.

Lemma world_ok_keeps w w' h :
  world_ok w h → safe (w_ops w') → keeps w w' → world_ok w' h.
Proof.
  intros [Hs Hf] Hs' Hk. split; [done|]. intros e He. by eapply entry_fact_keeps; [..|apply Hf].
Qed.

Lemma world_ok_others w w' h : world_ok w h → others w w' → world_ok w' h.
Proof.
  intros Hw [Ha Hp]. destruct (activity_safe _ _ Ha (wo_safe _ _ Hw)) as [Hs Hg].
  by eapply world_ok_keeps; [..|split].
Qed.

Lemma world_ok_cons w h e : world_ok w h → entry_fact w e → world_ok w (e :: h).
Proof.
  intros [Hs Hf] He. split; [done|]. intros e' [->|H]%elem_of_cons; [done|by apply Hf].
Qed.

(** A stored call: the ledger moves to [db'] and the fact holds there. *)
Lemma world_ok_stored w h db' e :
  world_ok w h → activity (w_ops w) db' →
  (safe db' → entry_fact {| w_ops := db'; w_audit := w_audit w |} e) →
  world_ok {| w_ops := db'; w_audit := w_audit w |} (e :: h).
Proof.
  intros Hw Ha He. destruct (activity_safe _ _ Ha (wo_safe _ _ Hw)) as [Hs Hg].
  apply world_ok_cons; [|by apply He]. eapply world_ok_keeps; [done|done|]. by split.
Qed.

Lemma claim_fact e n self id db w claimed db' :
  safe db → clock_ok n → claim e n self id db = (Ok claimed, db') → safe db' → w_ops w = db' →
  claimed_fact w id claimed.
Proof.
  intros Hs Hn H Hs' Hw. pose proof (safe_reachable _ Hs) as Hreach.
  pose proof (safe_Inv _ Hs) as Hi. apply claim_inv in H as [H Hg].
  apply issue_inv in Hg as [Hst Hg].
  destruct (claim_started _ _ _ _ _ _ _ Hi Hn H) as (r & Hr & Hsr & _ & Hid).
  destruct (Inv_stored _ _ _ (safe_Inv _ Hs') Hr Hsr) as (t & He).
  pose proof (stored_get _ _ _ (safe_Inv _ Hs') Hr Hsr) as Hget.
  split.
  - done.
  - exists (co_record claimed). rewrite Hw. split; [done|]. by destruct (co_record claimed).
  - by eapply record_payload_hash, st_decode.
  - by rewrite Hg, Hid.
  - intros Hm. destruct (en_exec _ _ _ _ He) as (started & Hst' & _ & Ha).
    { eapply lifecycle_executing; [by eapply en_life|done]. }
    destruct (Ha Hm) as (a & Hina & Hex). exists a. unfold exact_approval in Hex. bools.
    rewrite Hw. split_and!; try done. apply list_elem_of_In in Hina.
    unfold approvals_of in Hina. apply filter_In in Hina as [Hina _]. by apply list_elem_of_In.
Qed.

Lemma row_payload_text r op :
  row_to_operation r = Ok op → canonical_json (op_payload op) = Ok (row_payload_json r).
Proof.
  intros H. destruct (row_to_operation_columns _ _ H) as (_ & _ & _ & _ & _ & _ & Hf & Hj).
  apply from_stored_Ok in Hf as (v & Hv & Hc & _ & _). cbn in Hc.
  rewrite Hj in Hv. injection Hv as ->. unfold canonical_json. by rewrite Hc.
Qed.

(** A stored payload with the digest of [v] is the canonical form of [v]. *)
Lemma stored_payload r op v :
  value_exact v = true → row_to_operation r = Ok op →
  canonical_hash v = Ok (op_payload_hash op) →
  op_payload op = canonical_value v ∨ values_collide (op_payload op) v.
Proof.
  intros Hv Hr H. destruct (row_to_operation_columns _ _ Hr) as (_ & _ & Hh & _ & _ & Hd & _ & Hj).
  pose proof (row_payload_text _ _ Hr) as Ht.
  apply fmap_Ok in H as (c & Hc & He). rewrite <-Hh, Hd, (from_value_sha _ _ Hc) in He.
  apply text_digest_inj in He as [He|]; [left|right].
  2: { exists (row_payload_json r), (cj_json c). unfold canonical_json at 2. by rewrite Hc. }
  apply from_value_json in Hc. apply json_roundtrip in Hc; [|by apply canonical_exact].
  congruence.
Qed.

Lemma plan_fact e e' n n' between self o d db op db' :
  safe db → clock_ok n → clock_ok n' → new_operation_ok o →
  activity (insert_planned e (rt_runtime_id self) o n db).2
    (between (insert_planned e (rt_runtime_id self) o n db).2) →
  plan e e' n n' between self o d db = (Ok op, db') → planned_from o op.
Proof.
  intros Hs Hn Hn' Ho Hb H.
  assert (canonical_hash (new_payload o) = Ok (op_payload_hash op) ∧ ∃ r, row_to_operation r = Ok op)
    as [Hh [r Hr]]; [|split; [done|]; eapply stored_payload; [apply Ho|exact Hr|exact Hh]].
  destruct (safe_call (CallInsert e (rt_runtime_id self) o n) db Hs) as [Hs1 _];
    [split; [done|apply Ho]|by intros ? ? ? []|]. cbn [run_call] in Hs1.
  unfold plan in H. destruct (_ && _); [done|]. inv_eff. rewrite Hx in Hs1, Hb. cbn [snd] in Hs1, Hb.
  destruct (insert_record _ _ _ _ _ _ _ Ho Hx) as (prepared & r & Hp & Hm & Hr & Hdec).
  apply matches_kind in Hm as [_ Hh]. apply prepare_hash in Hp. rewrite <-Hh in Hp.
  case_bool_decide; cbn in H; [|by injection H as <- <-; eauto].
  destruct (activity_safe _ _ Hb Hs1) as [Hs2 Hg].
  assert (get (op_id x) s = Ok x) as Hgx.
  { destruct (inv_entry _ (safe_Inv _ Hs1) r Hr) as (op0 & t & Hs0 & _).
    assert (op0 = x) as -> by (pose proof (st_decode _ _ Hs0); congruence).
    eapply stored_get; [by apply safe_Inv|done|done]. }
  apply transition_stored in H as (cur & Hcur & -> & Hg'); [|by apply safe_Inv|done|by destruct d].
  pose proof (get_grows _ _ _ _ _ (safe_Inv _ Hs1) (safe_Inv _ Hs2) Hg Hgx Hcur) as Hsame.
  rewrite Hsame in *. split; [exact Hp|].
  unfold get, find in Hg'. inv_res. destruct (List.find _ _) as [row|]; cbn in *; inv_res; [|done].
  exists row. congruence.
Qed.

Lemma world_ok_respond self w w' h c r :
  world_ok w h → call_wf c → respond self c w r w' → world_ok w' (Entry c r :: h).
Proof.
  intros Hw Hc Hr. pose proof (wo_safe _ _ Hw) as Hs.
  destruct c; cbn in Hr, Hc; try (destruct Hr as [-> _]; by apply world_ok_cons).
  - destruct Hr as [-> Hr]. apply world_ok_cons; [done|]. cbn. intros op ->.
    destruct Hr as [Hr|(? & [=])]. symmetry in Hr.
    destruct (get_stored _ _ _ (safe_Inv _ Hs) Hr) as (_ & _ & _ & _ & Hid & _).
    split; [done|]. exists op. rewrite Hid. split; [done|]. by destruct op.
  - destruct Hr as [[-> [err ->]]|(e & e' & n & n' & between & Hn & Hn' & Hb & Hr & ->)];
      [by apply world_ok_cons|]. apply world_ok_stored; [done| |].
    { eapply act_plan; [exact Hn|exact Hn'|exact Hc|exact Hb|apply act_none]. }
    intros _ op ->. eapply (plan_fact e e' n n' between self _ _ _ _ (plan _ _ _ _ _ _ _ _ _).2);
      [done..|exact Hb|].
    rewrite Hr. apply surjective_pairing.
  - destruct Hr as [[-> [e ->]]|(e & n & Hn & Hr & ->)]; [by apply world_ok_cons|].
    apply world_ok_stored; [done|by eapply act_claim, act_none|]. cbn. intros Hs' claimed Hcl.
    eapply (claim_fact e n self id (w_ops w)); [done|done| |exact Hs'|done].
    rewrite <-Hcl, Hr. by destruct (claim _ _ _ _ _).
  - destruct Hr as [[-> [e ->]]|(e & n & Hn & Hr & ->)]; [by apply world_ok_cons|].
    destruct Hc as [Hd Ht]. apply world_ok_stored; [done|by eapply act_finish, act_none|].
    cbn [entry_fact]. intros Hs' op Hop. rewrite Hop in Hr.
    destruct (finish e n self id target details (w_ops w)) as [r0 db'] eqn:Hf.
    cbn [fst snd w_ops] in *. subst r0. unfold finish in Hf.
    pose proof (safe_Inv _ Hs) as Hi.
    destruct (transition_stored _ _ _ _ _ _ _ _ _ Hi Hn Hd Hf) as (cur & _ & -> & Hg).
    by exists (transitioned target n cur).
  - destruct Hr as [[-> [e ->]]|(id & ts & _ & -> & ->)]; [by apply world_ok_cons|].
    apply world_ok_cons.
    + eapply world_ok_keeps; [done|done|]. split; cbn; [by apply grows_refl, safe_Inv|].
      by apply prefix_app_r.
    + cbn. intros ? _. eexists. split; [apply elem_of_app; right; by left|]. done.
Qed.

(** Every program that makes well-formed calls keeps the invariant. *)
Lemma world_ok_reaches {A} self (p q : program A) Q (allowed : history → Call.t → Prop) w w' h :
  (∀ h c, allowed h c → call_wf c) →
  reaches others (respond self) p w [] q w' h →
  wp answer_ok allowed p Q [] → safe (w_ops w) → world_ok w' h.
Proof.
  intros Ha Hr Hp Hs.
  eapply (reaches_invariant others (respond self) answer_ok allowed world_ok); [..|exact Hr|exact Hp|].
  - apply respond_answer_ok.
  - apply world_ok_others.
  - intros. eapply world_ok_respond; eauto.
  - split; [done|]. intros e He. by apply elem_of_nil in He.
Qed.
End invariant.
