(* ===== verification/Connections.v ===== *)
(** * Authorised connections (src-tauri/src/connection/{mod,runtime}.rs)

    A connection is pinned in the local store, authorised for the access asked
    for and opened; [authorize_pin] is the check every path to a target database
    passes.  The pool slots of the manager are behind [open_live]. *)

From S2P Require Export World.

(** The [Display] texts of the driver's and of serde_json's errors. *)
Class ErrorDisplay := {
  sqlx_display : SqlxError → string;
  serialization_display : string;
}.

(** [AppError]'s [Display] (thiserror, src-tauri/src/error.rs) *)
Definition error_to_string {D : ErrorDisplay} (e : AppError) : string :=
  match e with
  | Db e => "database error: " +:+ sqlx_display e
  | Mongo m => "database error: " +:+ m
  | Agent m => "agent error: " +:+ m
  | Network m => "network error: " +:+ m
  | Safety m => "safety violation: " +:+ m
  | Parse m => "parse error: " +:+ m
  | Keychain m => "credential store error: " +:+ m
  | Io m => "io error: " +:+ m
  | Serialization => "serialization error: " +:+ serialization_display
  | Config m => "config error: " +:+ m
  | NotFound m => "not found: " +:+ m
  | Blocked reason => "blocked: " +:+ reason
  | OutcomeUnknown m => "operation outcome is unknown: " +:+ m
  end.

Section connections.
Context {P : Platform}.
Local Open Scope prog_scope.

Record ConnectionAuthorization := { ca_user_id : option string; ca_workspace_id : option Uuid }.

Record ConnectionContext := {
  cx_pin : PinnedConnection;
  cx_access : ConnectionAccess.t;
  cx_authorization : ConnectionAuthorization;
}.

Record ConnectionLease := { ls_pin : PinnedConnection; ls_live : Live }.

Definition scope_changed : AppError :=
  Blocked "workspace or connection access changed; retry the operation".

Definition local_authority (pin : PinnedConnection) (access : ConnectionAccess.t)
  : AppResult unit :=
  let write := bool_decide (access = ConnectionAccess.Write) in
  let granted := cp_workspace_access (pc_profile pin) in
  reject_if (negb (WorkspaceConnectionAccess.can_read granted)
             || write && (negb (WorkspaceConnectionAccess.can_write granted)
                          || negb (cp_allow_writes (pc_profile pin))))
    (Blocked "your workspace role does not permit this database action").

Definition authorize_pin (pin : PinnedConnection) (access : ConnectionAccess.t)
  : program (AppResult ConnectionAuthorization) :=
  check _ ← local_authority pin access or id;
  if negb (pc_requires_remote_rbac pin)
  then Ret (Ok {| ca_user_id := None; ca_workspace_id := None |})
  else
    check user_id ← ok_or (Config "shared connection access requires an active workspace account")
                      (sc_selected_account_id (pc_scope pin)) or id;
    try revision ← authorize_connection user_id (sc_workspace_id (pc_scope pin))
                     (pc_connection_id pin) (bool_decide (access = ConnectionAccess.Write)) or id;
    if negb (revision =? pc_connection_revision pin)
    then Ret (Err (Blocked "the shared connection changed; refresh the workspace and retry"))
    else Ret (Ok {| ca_user_id := Some user_id;
                    ca_workspace_id := Some (sc_workspace_id (pc_scope pin)) |}).

Definition context_connect (self : ConnectionContext) : program (AppResult ConnectionLease) :=
  try live ← open_live (cx_pin self) (cx_access self) or id;
  Ret (Ok {| ls_pin := cx_pin self; ls_live := live |}).

(** [ConnectionOperationScope::connect] *)
Definition scope_connect (pin : PinnedConnection) (access : ConnectionAccess.t)
  : program (AppResult ConnectionLease) :=
  try authorization ← authorize_pin pin access or id;
  try current ← store_is_pin_current pin or id;
  if negb current then Ret (Err scope_changed)
  else context_connect
    {| cx_pin := pin; cx_access := access; cx_authorization := authorization |}.

(** [ConnectionManager::pin] *)
Definition manager_pin (id : Uuid) (access : ConnectionAccess.t)
  : program (AppResult ConnectionContext) :=
  try pin ← store_pin_for_read id or Datatypes.id;
  try authorization ← authorize_pin pin access or Datatypes.id;
  try current ← store_is_pin_current pin or Datatypes.id;
  if negb current then Ret (Err scope_changed)
  else Ret (Ok {| cx_pin := pin; cx_access := access; cx_authorization := authorization |}).

(** [ConnectionManager::acquire] *)
Definition manager_acquire (id : Uuid) (access : ConnectionAccess.t)
  : program (AppResult ConnectionLease) :=
  try context ← manager_pin id access or Datatypes.id;
  context_connect context.
End connections.
