(* ===== verification/Executor.v ===== *)
(** * Executing one classified statement
      (src-tauri/src/executor/{mod,read,write}.rs, safety/l3_preview.rs)

    Reads go to the read-only pool, mutations to one transaction of the write
    pool and only with an execution grant; both run under the cancellation
    guard.  The impact preview sends EXPLAIN only. *)

From S2P Require Export Connections.

(** [as i64] on [u64] and [usize] *)
Definition wrap_i64 (n : Z) : Z := (n + 2 ^ 63) mod 2 ^ 64 - 2 ^ 63.

Lemma wrap_i64_range n : i64_min ≤ wrap_i64 n ≤ i64_max.
Proof. unfold wrap_i64, i64_min, i64_max. pose proof (Z.mod_pos_bound (n + 2 ^ 63) (2 ^ 64)). lia. Qed.

Section executor.
Context {P : Platform} {D : ErrorDisplay}.
Local Open Scope prog_scope.

Record ExecOutcome := {
  eo_result : option QueryResult;
  eo_affected : option Z;
  eo_committed : bool;
}.

(** A handle of the cancellation slot of [cn_id]. *)
Record Cancellation := { cn_id : Uuid; cn_handle : nat }.

(** ** Reads *)

Definition with_headers (cols : list string) (pool : DbPool) (sql : string)
  : program (list string) :=
  match cols with
  | [] => described ← describe_columns pool sql; Ret (default [] described)
  | _ => Ret cols
  end.

Definition run_read_registered (live : LiveConnection) (sql : string) (max_rows : Z)
  (cancellation : option Cancellation) : program (AppResult QueryResult) :=
  let inner :=
    try fetched ← fetch_rows (read_pool live) sql max_rows or Db;
    let '(columns, rows, truncated) := fetched in
    columns ← with_headers columns (read_pool live) sql;
    Ret (Ok {| qr_columns := columns; qr_rows := rows; qr_row_count := Z.of_nat (length rows);
               qr_truncated := truncated; qr_duration_ms := 0 |}) in
  try result ← guarded (cn_handle <$> cancellation) inner or id;
  duration ← elapsed_millis;
  Ret (Ok {| qr_columns := qr_columns result; qr_rows := qr_rows result;
             qr_row_count := qr_row_count result; qr_truncated := qr_truncated result;
             qr_duration_ms := duration |}).

(** [read::run_read] *)
Definition run_read (live : LiveConnection) (sql : string) (max_rows : Z) (query_id : option Uuid)
  : program (AppResult QueryResult) :=
  match query_id with
  | None => run_read_registered live sql max_rows None
  | Some id => with_cancellation id
      (λ handle, run_read_registered live sql max_rows (Some {| cn_id := id; cn_handle := handle |}))
  end.

(** [safety::run_read_only_cancellable] *)
Definition read_only_cancellable (pool : DbPool) (sql : string) (max_rows : Z)
  (cancellation : option Cancellation) : program (AppResult QueryResult) :=
  guarded (cn_handle <$> cancellation) (read_only_run pool sql max_rows).

(** ** Writes *)

Definition commit_engine (pool : PoolRef.t) : string :=
  match pool with
  | PoolRef.Postgres => "PostgreSQL" | PoolRef.Mysql => "MySQL" | PoolRef.Sqlite => "SQLite"
  end.

(** The [async] block of [run_write]: on an error the transaction is dropped,
    which rolls it back. *)
Definition write_transaction (pool : DbPool) (sql : string) : program (AppResult Z) :=
  try tx ← tx_begin pool or Db;
  try n ← tx_execute tx sql or Db;
  try _ ← tx_commit tx or (λ error, OutcomeUnknown
    (commit_engine (pool_engine pool) +:+ " commit acknowledgement failed: " +:+ sqlx_display error));
  Ret (Ok n).

Definition run_write (live : LiveConnection) (sql : string) (settings : SafetySettings)
  (grant : ExecutionGrant) (cancellation : Cancellation) : program (AppResult ExecOutcome) :=
  if negb (bool_decide (cn_id cancellation = eg_operation_id grant))
  then Ret (Err (Blocked "write cancellation scope does not match its approved operation"))
  else if negb (allow_writes settings)
  then Ret (Err (Blocked "writes are disabled for this connection (allow_writes = 0)"))
  else
    try affected ← guarded (Some (cn_handle cancellation))
                     (write_transaction (write_pool live) sql) or id;
    Ret (Ok {| eo_result := None; eo_affected := Some affected; eo_committed := true |}).

(** [executor::execute] *)
Definition execute_classified (live : LiveConnection) (classification : Classification)
  (sql : string) (settings : SafetySettings) (grant : option ExecutionGrant)
  (cancellation : option Cancellation) : program (AppResult ExecOutcome) :=
  match cl_kind classification with
  | QueryKind.Read =>
      try result ← run_read_registered live sql (max_rows settings) cancellation or id;
      Ret (Ok {| eo_result := Some result; eo_affected := None; eo_committed := false |})
  | QueryKind.Write | QueryKind.Ddl | QueryKind.Privilege =>
      check grant ← ok_or (Blocked "this statement requires an exact approved operation grant")
                      grant or id;
      check cancellation ← ok_or
        (Blocked "write execution requires an operation cancellation scope") cancellation or id;
      run_write live sql settings grant cancellation
  end.

(** ** Impact preview *)

Inductive PreviewMode := Explain | ExecRollback | Skipped.

Record PreviewReport := {
  pv_mode : PreviewMode;
  pv_estimated_rows : option Z;
  pv_exact_rows : option Z;
  pv_plan : option string;
  pv_note : option string;
}.

(** [f as i64]: truncation towards zero, saturating. *)
Definition f64_as_i64 (f : spec_float) : Z :=
  match f with
  | S754_zero _ | S754_nan => 0
  | S754_infinity true => i64_min
  | S754_infinity false => i64_max
  | S754_finite negative m e =>
      let magnitude := if 0 <=? e then Z.pos m * 2 ^ e else Z.pos m / 2 ^ (- e) in
      clamp i64_min i64_max (if negative then - magnitude else magnitude)
  end.

(** [str::parse::<i64>] *)
Fixpoint parse_digits (acc : Z) (l : list ascii) : option Z :=
  match l with
  | [] => Some acc
  | a :: l =>
      if (48 <=? byte a)%N && (byte a <=? 57)%N
      then parse_digits (10 * acc + (Z.of_N (byte a) - 48)) l else None
  end.
Definition parse_i64 (s : string) : option Z :=
  let magnitude l := match l with [] => None | _ => parse_digits 0 l end in
  let value :=
    match bytes_of s with
    | "-"%char :: l => Z.opp <$> magnitude l
    | "+"%char :: l => magnitude l
    | l => magnitude l
    end in
  n ← value; if (i64_min <=? n) && (n <=? i64_max) then Some n else None.

(** A [u64] above [i64::MAX] is read as [f64] and saturates. *)
Definition value_as_i64 (v : Value) : option Z :=
  match v with
  | VNumber (PosInt n) => Some (if n <=? i64_max then n else i64_max)
  | VNumber (NegInt n) => Some n
  | VNumber (Float f) => Some (f64_as_i64 f)
  | VString s => parse_i64 s
  | _ => None
  end.

Fixpoint find_number (keys : list string) (v : Value) : option Z :=
  match v with
  | VObject m =>
      match find_map (λ k, Json.assoc k m ≫= value_as_i64) keys with
      | Some n => Some n
      | None =>
          (fix go m := match m with
           | [] => None
           | (_, x) :: m => match find_number keys x with Some n => Some n | None => go m end
           end) m
      end
  | VArray a =>
      (fix go a := match a with
       | [] => None
       | x :: a => match find_number keys x with Some n => Some n | None => go a end
       end) a
  | _ => None
  end.

Definition string_join (sep : string) (l : list string) : string := String.concat sep l.

Definition explain (pool : DbPool) (sql : string) : program (option Z * option string) :=
  match pool_engine pool with
  | PoolRef.Postgres =>
      row ← explain_one pool ("EXPLAIN (FORMAT JSON) " +:+ sql);
      Ret match row with
          | None => (None, None)
          | Some row =>
              let v := match er_json row with
                       | Some v => v
                       | None => default VNull (er_text row ≫= json_from_str)
                       end in
              (find_number ["Plan Rows"] v, Some (default "" (json_to_string v)))
          end
  | PoolRef.Mysql =>
      row ← explain_one pool ("EXPLAIN FORMAT=JSON " +:+ sql);
      Ret match row ≫= er_text with
          | None => (None, None)
          | Some s =>
              (find_number ["rows_produced_per_join"; "rows_examined_per_scan"; "rows"]
                 (default VNull (json_from_str s)), Some s)
          end
  | PoolRef.Sqlite =>
      rows ← explain_all pool ("EXPLAIN QUERY PLAN " +:+ sql);
      Ret match rows with
          | None => (None, None)
          | Some rows => (None, Some (string_join (String "010" "") (omap er_detail rows)))
          end
  end.

Definition preview (pool : DbPool) (sql : string) (classification : Classification)
  (settings : SafetySettings) : program (AppResult PreviewReport) :=
  match cl_kind classification with
  | QueryKind.Read =>
      '(estimated_rows, plan) ← explain pool sql;
      Ret (Ok {| pv_mode := Explain; pv_estimated_rows := estimated_rows; pv_exact_rows := None;
                 pv_plan := plan; pv_note := None |})
  | QueryKind.Ddl | QueryKind.Privilege =>
      Ret (Ok {| pv_mode := Skipped; pv_estimated_rows := None; pv_exact_rows := None;
                 pv_plan := None;
                 pv_note := Some "DDL / privilege change — no row-count preview; review the statement directly." |})
  | QueryKind.Write =>
      '(estimated_rows, plan) ← explain pool sql;
      let note :=
        match estimated_rows with
        | Some rows =>
            if exec_preview_row_limit settings <? rows
            then "EXPLAIN estimates " +:+ pretty rows +:+ " rows, above the configured "
                 +:+ pretty (exec_preview_row_limit settings)
                 +:+ "-row review threshold; no statement was executed"
            else "EXPLAIN-only preview; no target-mutating statement was executed before approval"
        | None =>
            "EXPLAIN-only preview; no target-mutating statement was executed before approval"
        end in
      Ret (Ok {| pv_mode := Explain; pv_estimated_rows := estimated_rows; pv_exact_rows := None;
                 pv_plan := plan; pv_note := Some note |})
  end.

(** serde: [#[serde(rename_all = "camelCase")]] *)
Definition preview_mode_to_value (m : PreviewMode) : Value :=
  VString match m with
          | Explain => "explain" | ExecRollback => "execRollback" | Skipped => "skipped" end.
Definition value_of_opt_i64 (o : option Z) : Value :=
  match o with Some n => value_of_i64 n | None => VNull end.
Definition preview_report_to_value (r : PreviewReport) : Value :=
  VObject
    [("mode", preview_mode_to_value (pv_mode r));
     ("estimatedRows", value_of_opt_i64 (pv_estimated_rows r));
     ("exactRows", value_of_opt_i64 (pv_exact_rows r));
     ("plan", value_of_opt_string (pv_plan r));
     ("note", value_of_opt_string (pv_note r))].
End executor.
