(* ===== verification/QueryService.v ===== *)
(** * The query service (src-tauri/src/services/query_service.rs)

    Planning, approval-bound execution and agent reads of SQL.  A method is a
    [program]; a receipt that only keeps a guard alive is the value it carries.
    The two long methods are cut where their straight-line code changes phase:
    [authorize_desktop_run], [run_claimed] and [settle_run] are consecutive parts
    of [run_desktop_sql]; [confirm_plan] is the part of [prepare_agent_run_scoped]
    after the claim. *)

From S2P Require Export Commands Executor.

(** [Duration::from_secs(30)] and [ChronoDuration::minutes(5)], in nanoseconds *)
Definition QUERY_PLAN_TTL : Z := 30 * 10 ^ 9.
Definition APPROVAL_TTL : Z := 300 * 10 ^ 9.
Definition MAX_AGENT_ROWS : Z := 1000.

(** ** Requests, receipts, errors *)

Section types.
Context {P : Platform}.

Record DesktopSqlPreviewRequest := { dpr_connection_id : Uuid; dpr_sql : string }.
Record DesktopSqlProposalRequest := {
  dsp_connection_id : Uuid; dsp_sql : string; dsp_origin : option string;
}.
Record TerminalSqlProposalRequest := {
  tsp_connection_id : Uuid; tsp_sql : string; tsp_authority : TerminalAuthority;
}.
Record DesktopSqlProposalReceipt := {
  dpc_operation_id : Uuid; dpc_payload_hash : string; dpc_state : OperationState.t;
  dpc_approval_required : bool; dpc_auto_run : bool; dpc_confirmation_phrase : option string;
  dpc_expires_at : DateTime; dpc_classification : Classification; dpc_preview : PreviewReport;
}.

(** The stored payload of a desktop proposal. *)
Record StoredDesktopSqlPayload := { sdp_sql : string; sdp_history_origin : string }.
Definition desktop_payload_to_value (p : StoredDesktopSqlPayload) : Value :=
  VObject [("sql", VString (sdp_sql p)); ("historyOrigin", VString (sdp_history_origin p))].
Definition desktop_payload_from_value : Value → option StoredDesktopSqlPayload :=
  de_struct ["sql"; "historyOrigin"] (λ field,
    sql ← required de_string (field "sql");
    history_origin ← required de_string (field "historyOrigin");
    Some {| sdp_sql := sql; sdp_history_origin := history_origin |}).

Inductive DesktopSqlInspectionError := InspectionApplication (error : AppError).
Inductive DesktopSqlRunError :=
| RunBlocked (reason : string)
| RunApplication (error : AppError)
| RunExecution (error : AppError).

Definition run_error_into_error (self : DesktopSqlRunError) : AppError :=
  match self with
  | RunBlocked reason => Blocked reason
  | RunApplication error => error
  | RunExecution error => error
  end.

Inductive AgentQueryInvocationOrigin := Mcp | Cli.
#[export] Instance AgentQueryInvocationOrigin_eq_dec : EqDecision AgentQueryInvocationOrigin.
Proof. solve_decision. Defined.

Definition origin_as_str (self : AgentQueryInvocationOrigin) : string :=
  match self with Mcp => "mcp" | Cli => "cli" end.
Definition plan_audit_action (self : AgentQueryInvocationOrigin) : string :=
  match self with Mcp => "mcp:plan_query" | Cli => "cli:plan_query" end.
Definition run_audit_action (self : AgentQueryInvocationOrigin) : string :=
  match self with Mcp => "mcp:run_query" | Cli => "cli:run_query" end.
Definition origin_parse (s : string) : option AgentQueryInvocationOrigin :=
  match s with "mcp" => Some Mcp | "cli" => Some Cli | _ => None end.

Record StoredAgentReadPayload := {
  sap_sql : string; sap_max_rows : Z; sap_decision : string; sap_origin : AgentQueryInvocationOrigin;
}.
Definition agent_payload_to_value (p : StoredAgentReadPayload) : Value :=
  VObject [("sql", VString (sap_sql p)); ("maxRows", value_of_u64 (sap_max_rows p));
           ("decision", VString (sap_decision p));
           ("origin", VString (origin_as_str (sap_origin p)))].
Definition agent_payload_from_value : Value → option StoredAgentReadPayload :=
  de_struct ["sql"; "maxRows"; "decision"; "origin"] (λ field,
    sql ← required de_string (field "sql");
    max_rows ← required de_u64 (field "maxRows");
    decision ← required de_string (field "decision");
    origin ← required (de_variant origin_parse) (field "origin");
    Some {| sap_sql := sql; sap_max_rows := max_rows; sap_decision := decision;
            sap_origin := origin |}).

Record AgentQueryPlanRequest := {
  apq_connection_id : Uuid; apq_sql : string; apq_max_rows : option Z;
  apq_origin : AgentQueryInvocationOrigin;
}.
Record TerminalQueryPlanRequest := {
  tqp_connection_id : Uuid; tqp_sql : string; tqp_max_rows : option Z;
  tqp_authority : TerminalAuthority;
}.
Record AgentQueryPlan := {
  aqp_connection_id : Uuid; aqp_connection_name : string; aqp_environment : option string;
  aqp_sql : string; aqp_plan_id : Uuid; aqp_decision : string; aqp_notices : list string;
  aqp_suggestions : list string; aqp_estimated_rows : option Z; aqp_health : HealthSnapshot;
  aqp_expires_at : DateTime;
}.
Record RejectedAgentQueryPlan := {
  rej_connection_id : Uuid; rej_connection_name : string; rej_engine : Engine.t;
  rej_sql : string; rej_kind : QueryKind.t; rej_origin : AgentQueryInvocationOrigin;
}.
Inductive AgentQueryPlanError (Rejected : Type) :=
| DocumentConnection
| NotSingleRead (rejected : Rejected)
| PlanApplication (error : AppError).

Record AgentQueryRunEventContext := {
  evc_connection_id : Uuid; evc_connection_name : string; evc_plan_id : Uuid; evc_sql : string;
}.
Record AgentQueryRun := {
  aqr_connection_id : Uuid; aqr_connection_name : string; aqr_plan_id : Uuid;
  aqr_planning_decision : string; aqr_query_run_id : Uuid; aqr_sql : string;
  aqr_result : QueryResult;
}.
Inductive AgentQueryRunPrepareError :=
| UnknownOrAlreadyUsed
| PlanExpired
| SessionMismatch
| AuthorityChanged
| StoredPlanInvalid
| PrepareApplication (error : AppError).
(** The errors the failures carry. *)
Inductive AgentQueryRunError :=
| ConnectionFailed (error : AppError)
| ExecutionFailed (error : AppError)
| ConsentHandlePersistence (error : AppError).

Record PreparedAgentQueryRun := {
  par_context : ConnectionContext; par_pin : PinnedConnection; par_claimed : ClaimedOperation;
  par_event_context : AgentQueryRunEventContext; par_decision : string; par_max_rows : Z;
  par_origin : AgentQueryInvocationOrigin; par_cancellation : Cancellation;
}.
End types.
Arguments DocumentConnection {_}. Arguments NotSingleRead {_}. Arguments PlanApplication {_}.

(** ** Pure helpers *)

Definition bounded_max_rows (requested : option Z) (configured : Z) : Z :=
  Z.min (default configured requested) MAX_AGENT_ROWS.

Definition operation_kind (kind : QueryKind.t) : OperationKind.t :=
  match kind with
  | QueryKind.Read => OperationKind.ReadQuery
  | QueryKind.Write => OperationKind.WriteSql
  | QueryKind.Ddl => OperationKind.Ddl
  | QueryKind.Privilege => OperationKind.Privilege
  end.

Definition is_read (kind : QueryKind.t) : bool :=
  match kind with QueryKind.Read => true | _ => false end.

Definition operation_risk (classification : Classification) : OperationRiskLevel.t :=
  if cl_no_where classification && negb (is_read (cl_kind classification))
  then OperationRiskLevel.Critical
  else match cl_risk classification with
       | QueryRisk.Low => OperationRiskLevel.Low
       | QueryRisk.Medium => OperationRiskLevel.Medium
       | QueryRisk.High => OperationRiskLevel.High
       end.

Definition skipped_preview_report (note : string) : PreviewReport :=
  {| pv_mode := Skipped; pv_estimated_rows := None; pv_exact_rows := None; pv_plan := None;
     pv_note := Some note |}.

(** [Vec::dedup]: consecutive repetitions are removed. *)
Fixpoint vec_dedup (l : list string) : list string :=
  match l with
  | [] => []
  | x :: l =>
      match vec_dedup l with
      | y :: l' => if (x =? y)%string then y :: l' else x :: y :: l'
      | [] => [x]
      end
  end.

Section guidance.
Context {P : Platform}.

(** Each branch of [planning_guidance]: caution, notices, suggestions. *)
Definition Guidance : Type := bool * list string * list string.
Definition guided (a b : Guidance) : Guidance :=
  (a.1.1 || b.1.1, a.1.2 ++ b.1.2, a.2 ++ b.2).

Definition planning_guidance (profile : ConnectionProfile) (health : HealthSnapshot)
  (estimated_rows : option Z) (estimate_limit : Z) : string * list string * list string :=
  let production := bool_decide (cp_env profile = Some "prod") in
  let env_branch : Guidance :=
    if production
    then (true, ["This connection is labeled production."],
          ["Prefer a read replica or a bounded time range for production analysis."])
    else (false, [], []) in
  let level_branch : Guidance :=
    (negb (hs_level health =? "normal")%string, hs_reasons health, []) in
  let coverage_branch : Guidance :=
    if (hs_coverage health =? "limited")%string
    then (true, [], ["Enable PostgreSQL pg_monitor in DopeDB settings for fuller aggregate load checks."])
    else (false, [], []) in
  let estimate_branch : Guidance :=
    match estimated_rows with
    | Some rows =>
        if Z.max estimate_limit 0 <? rows
        then (true, ["EXPLAIN estimates " +:+ pretty rows +:+ " result/plan rows, above the configured "
                     +:+ pretty estimate_limit +:+ " review threshold."],
              ["Add a selective time/filter condition or aggregate before joining large log tables."])
        else (false, [], [])
    | None =>
        if production
        then (true, ["EXPLAIN did not provide a usable row estimate for this production query."],
              ["Review the plan and narrow the query before execution."])
        else (false, [], [])
    end in
  let busy_branch : Guidance :=
    if (hs_level health =? "busy")%string
    then (false, [], ["Wait for database pressure to fall before running this query."])
    else (false, [], []) in
  let '(caution, notices, suggestions) :=
    guided (guided (guided (guided env_branch level_branch) coverage_branch) estimate_branch)
      busy_branch in
  ((if caution then "caution" else "ready"), notices, vec_dedup (sort_by string_cmp suggestions)).

(** The [json!] object of [capture_agent_read_policy]. *)
Definition agent_policy_snapshot (pin : PinnedConnection) : Value :=
  VObject
    [("accountScope", VString (storage_key (sc_account_scope (pc_scope pin))));
     ("bindingRevision", value_of_i64 (pc_binding_revision pin));
     ("bindingUpdatedAt", VString (pc_binding_updated_at pin));
     ("connectionRevision", value_of_i64 (pc_connection_revision pin));
     ("credentialMode", WorkspaceCredentialMode.serialize (cp_credential_mode (pc_profile pin)));
     ("environment", value_of_opt_string (cp_env (pc_profile pin)));
     ("scopeGeneration", value_of_i64 (sc_generation (pc_scope pin)));
     ("workspaceAccess",
       WorkspaceConnectionAccess.serialize (cp_workspace_access (pc_profile pin)));
     ("workspaceId", VString (uuid_to_string (sc_workspace_id (pc_scope pin))))].

Definition capture_agent_read_policy (pin : PinnedConnection) : AppResult (Value * string) :=
  let snapshot := agent_policy_snapshot pin in
  revision ← canonical_hash snapshot;
  Ok (snapshot, revision).
End guidance.

(** serde: [#[serde(rename_all = "camelCase")]] *)
Definition query_kind_to_value (k : QueryKind.t) : Value := VString (kind_str k).
Definition query_risk_to_value (r : QueryRisk.t) : Value :=
  VString match r with
          | QueryRisk.Low => "low" | QueryRisk.Medium => "medium" | QueryRisk.High => "high"
          end.
Definition classification_to_value (c : Classification) : Value :=
  VObject [("kind", query_kind_to_value (cl_kind c)); ("risk", query_risk_to_value (cl_risk c));
           ("statementCount", value_of_u64 (cl_statement_count c));
           ("noWhere", VBool (cl_no_where c)); ("tables", ser_list VString (cl_tables c));
           ("notes", ser_list VString (cl_notes c)); ("rollbackSafe", VBool (cl_rollback_safe c))].

(** ** Methods *)

Section query_service.
Context {P : Platform} {SD : Serde} {C : ChronoSerde} {D : ErrorDisplay} {parser : SqlParser}.
Local Open Scope prog_scope.

Definition health_to_value (h : HealthSnapshot) : Value :=
  VObject
    [("level", VString (hs_level h)); ("coverage", VString (hs_coverage h));
     ("totalConnections", value_of_opt_i64 (hs_total_connections h));
     ("maxConnections", value_of_opt_i64 (hs_max_connections h));
     ("connectionUsagePercent", from_option f64_to_value VNull (hs_connection_usage_percent h));
     ("activeQueries", value_of_opt_i64 (hs_active_queries h));
     ("longRunningQueries", value_of_opt_i64 (hs_long_running_queries h));
     ("lockWaits", value_of_opt_i64 (hs_lock_waits h));
     ("replicationLagSeconds", from_option f64_to_value VNull (hs_replication_lag_seconds h));
     ("reasons", ser_list VString (hs_reasons h));
     ("capturedAt", datetime_to_value (hs_captured_at h))].

(** *** Best-effort records *)

Definition audit_best_effort (connection_id : Uuid) (engine : Engine.t) (sql : string)
  (kind : QueryKind.t) (action : string) (error : option string) : program unit :=
  _ ← audit_record
    {| ra_connection_id := connection_id; ra_engine := engine; ra_agent_prompt := None;
       ra_sql := sql; ra_kind := kind; ra_action := action; ra_approved_by := None;
       ra_affected_estimate := None; ra_error := error |};
  Ret tt.

Definition persist_history (pin : PinnedConnection) (sql status : string)
  (rows duration_ms : option Z) (error : option string) : program (AppResult Uuid) :=
  id ← new_uuid;
  executed_at ← utc_now;
  try _ ← store_insert_history pin
    {| he_id := id; he_connection_id := pc_connection_id pin; he_sql := sql;
       he_kind := QueryKind.Read; he_status := status; he_row_count := rows;
       he_duration_ms := duration_ms; he_error := error; he_executed_at := executed_at;
       he_origin := "agent" |} or Datatypes.id;
  Ret (Ok id).

Definition record_run_failure (pin : PinnedConnection) (sql : string) (engine : Engine.t)
  (origin : AgentQueryInvocationOrigin) (error : AppError) : program unit :=
  let message := error_to_string error in
  _ ← audit_best_effort (pc_connection_id pin) engine sql QueryKind.Read (run_audit_action origin)
        (Some message);
  _ ← persist_history pin sql "error" None None (Some message);
  Ret tt.

Record DesktopRunRecord := {
  drr_sql : string; drr_kind : QueryKind.t; drr_action : string; drr_status : string;
  drr_row_count : option Z; drr_duration_ms : option Z; drr_error : option string;
  drr_origin : string;
}.

Definition record_desktop_run (pin : PinnedConnection) (record : DesktopRunRecord)
  : program unit :=
  _ ← audit_record
    {| ra_connection_id := pc_connection_id pin; ra_engine := cp_engine (pc_profile pin);
       ra_agent_prompt := None; ra_sql := drr_sql record; ra_kind := drr_kind record;
       ra_action := drr_action record; ra_approved_by := None;
       ra_affected_estimate := drr_row_count record; ra_error := drr_error record |};
  id ← new_uuid;
  executed_at ← utc_now;
  _ ← store_insert_history pin
    {| he_id := id; he_connection_id := pc_connection_id pin; he_sql := drr_sql record;
       he_kind := drr_kind record; he_status := drr_status record;
       he_row_count := drr_row_count record; he_duration_ms := drr_duration_ms record;
       he_error := drr_error record; he_executed_at := executed_at;
       he_origin := drr_origin record |};
  Ret tt.

(** *** Classification, preview and proposal *)

Definition classify_desktop_sql (connection_id : Uuid) (sql : string)
  : program (result DesktopSqlInspectionError Classification) :=
  try pin ← store_pin_for_view connection_id or InspectionApplication;
  check classification ← classify sql (cp_engine (pc_profile pin)) or InspectionApplication;
  Ret (Ok classification).

Definition preview_sql (request : DesktopSqlPreviewRequest) (terminal : option TerminalAuthority)
  : program (result DesktopSqlInspectionError (PreviewReport * PinnedConnection)) :=
  try pin ← store_pin_for_view (dpr_connection_id request) or InspectionApplication;
  check _ ← match terminal with Some authority => ensure_pin authority pin | None => Ok tt end
    or InspectionApplication;
  try settings ← store_get_safety (pc_connection_id pin) or InspectionApplication;
  check classification ← classify (dpr_sql request) (cp_engine (pc_profile pin))
    or InspectionApplication;
  let is_non_read := negb (is_read (cl_kind classification)) in
  let granted := cp_workspace_access (pc_profile pin) in
  if negb is_non_read && negb (WorkspaceConnectionAccess.can_read granted)
  then Ret (Err (InspectionApplication
    (Blocked "workspace role cannot execute this connection")))
  else if is_non_read && negb (WorkspaceConnectionAccess.can_write granted)
  then Ret (Ok (skipped_preview_report
    "workspace role is read-only — write preview skipped", pin))
  else if is_non_read && negb (allow_writes settings)
  then Ret (Ok (skipped_preview_report
    "writes are disabled for this connection — impact preview skipped (no rows locked)", pin))
  else
    match cl_kind classification with
    | QueryKind.Ddl | QueryKind.Privilege =>
        Ret (Ok (skipped_preview_report
          "DDL / privilege change — no row-count preview; review the statement directly.", pin))
    | _ =>
        try lease ← scope_connect pin ConnectionAccess.Read or InspectionApplication;
        check live ← live_sql (ls_live lease) or InspectionApplication;
        try report ← preview (read_pool live) (dpr_sql request) classification settings
          or InspectionApplication;
        Ret (Ok (report, pin))
    end.

Definition preview_desktop_sql (request : DesktopSqlPreviewRequest)
  : program (result DesktopSqlInspectionError (PreviewReport * PinnedConnection)) :=
  preview_sql request None.

(** The actor of a proposal: the account of the scope, or the terminal's agent. *)
Definition with_client_version (version : Z) (actor : OperationActor) : OperationActor :=
  {| actor_kind := actor_kind actor; actor_id := actor_id actor;
     provenance :=
       {| local_account_id := local_account_id (provenance actor);
          workspace_account_id := workspace_account_id (provenance actor);
          agent_provider := agent_provider (provenance actor);
          agent_model := agent_model (provenance actor);
          plugin_id := plugin_id (provenance actor);
          plugin_version := plugin_version (provenance actor);
          client_protocol_version := Some version;
          origin_surface := origin_surface (provenance actor) |} |}.

Definition propose_sql (request : DesktopSqlProposalRequest) (terminal : option TerminalAuthority)
  : program (result DesktopSqlInspectionError DesktopSqlProposalReceipt) :=
  try previewed ← preview_sql {| dpr_connection_id := dsp_connection_id request;
                                 dpr_sql := dsp_sql request |} terminal or id;
  let '(report, pin) := previewed in
  try settings ← store_get_safety (pc_connection_id pin) or InspectionApplication;
  check classification ← classify (dsp_sql request) (cp_engine (pc_profile pin))
    or InspectionApplication;
  let is_write := negb (is_read (cl_kind classification)) in
  if is_write && negb (WorkspaceConnectionAccess.can_write (cp_workspace_access (pc_profile pin)))
  then Ret (Err (InspectionApplication
    (Blocked "your workspace role grants read-only database access")))
  else
    match Safety.decide settings classification with
    | Block reason => Ret (Err (InspectionApplication (Blocked reason)))
    | _ =>
        check policy ← capture_policy pin settings or InspectionApplication;
        let history_origin := default "manual" (dsp_origin request) in
        let payload := desktop_payload_to_value
          {| sdp_sql := dsp_sql request; sdp_history_origin := history_origin |} in
        operation_id ← new_uuid;
        now ← utc_now;
        let expires_at := now + (if is_write then APPROVAL_TTL else QUERY_PLAN_TTL) in
        let actor :=
          match terminal with
          | Some authority => with_client_version (ta_client_protocol_version authority)
                                (agent_actor_for_pin pin "cli" "cli")
          | None => actor_for_pin pin history_origin
          end in
        try operation ← operation_plan
          {| new_id := operation_id;
             new_workspace_id := sc_workspace_id (pc_scope pin);
             new_account_scope := storage_key (sc_account_scope (pc_scope pin));
             new_connection_id := pc_connection_id pin;
             new_connection_revision := pc_connection_revision pin;
             new_terminal_session_id := ta_terminal_session_id <$> terminal;
             new_actor := actor;
             new_kind := operation_kind (cl_kind classification);
             new_payload_schema_version := 1;
             new_payload := payload;
             new_schema_fingerprint := None;
             new_risk_level := operation_risk classification;
             new_preview := preview_report_to_value report;
             new_policy_snapshot := cop_snapshot policy;
             new_policy_revision := cop_revision policy;
             new_single_use := true;
             new_idempotency_key := uuid_to_string operation_id;
             new_expires_at := Some expires_at |}
          (if is_write then ApprovalRequired else Runtime.Ready) or InspectionApplication;
        Ret (Ok {| dpc_operation_id := op_id operation;
                   dpc_payload_hash := op_payload_hash operation;
                   dpc_state := op_state operation;
                   dpc_approval_required := is_write;
                   dpc_auto_run := negb is_write && auto_run_reads settings;
                   dpc_confirmation_phrase := required_confirmation operation;
                   dpc_expires_at := expires_at;
                   dpc_classification := classification;
                   dpc_preview := report |})
    end.

Definition propose_desktop_sql (request : DesktopSqlProposalRequest)
  : program (result DesktopSqlInspectionError DesktopSqlProposalReceipt) :=
  propose_sql request None.

Definition propose_terminal_sql (request : TerminalSqlProposalRequest)
  : program (result DesktopSqlInspectionError DesktopSqlProposalReceipt) :=
  propose_sql {| dsp_connection_id := tsp_connection_id request; dsp_sql := tsp_sql request;
                 dsp_origin := Some "cli" |} (Some (tsp_authority request)).
End query_service.

(** ** Running queries (src-tauri/src/services/query_service.rs)

    [run_desktop_sql] executes a stored proposal by its identifier, the agent
    methods plan, claim and execute a bounded read. *)

Section query_runs.
Context {P : Platform} {SD : Serde} {C : ChronoSerde} {D : ErrorDisplay} {parser : SqlParser}.
Local Open Scope prog_scope.

Definition reason_details (reason : string) : Value := VObject [("reason", VString reason)].
Definition error_details (error : AppError) (reason : string) : Value :=
  VObject [("error", VString (error_to_string error)); ("reason", VString reason)].

(** The two reasons of [guard_registered]. *)
Definition is_cancellation (error : AppError) : bool :=
  match error with Safety reason => (reason =? "query cancelled")%string | _ => false end.
Definition is_timeout (error : AppError) : bool :=
  match error with Safety reason => starts_with "query timed out after " reason | _ => false end.
Definition is_outcome_unknown (error : AppError) : bool :=
  match error with OutcomeUnknown _ => true | _ => false end.

(** *** [run_desktop_sql] *)

(** What the checks before the claim establish. *)
Record DesktopRun := {
  dr_planned : OperationRecord; dr_payload : StoredDesktopSqlPayload; dr_pin : PinnedConnection;
  dr_settings : SafetySettings; dr_classification : Classification;
}.

Definition dr_is_write (run : DesktopRun) : bool :=
  negb (is_read (cl_kind (dr_classification run))).

Definition desktop_record (run : DesktopRun) (action status : string) (row_count duration : option Z)
  (error : option string) : DesktopRunRecord :=
  {| drr_sql := sdp_sql (dr_payload run); drr_kind := cl_kind (dr_classification run);
     drr_action := action; drr_status := status; drr_row_count := row_count;
     drr_duration_ms := duration; drr_error := error;
     drr_origin := sdp_history_origin (dr_payload run) |}.

Definition supported_desktop_kind (kind : OperationKind.t) : bool :=
  match kind with
  | OperationKind.ReadQuery | OperationKind.WriteSql | OperationKind.Ddl
  | OperationKind.Privilege => true
  | _ => false
  end.

Definition authorize_desktop_run (operation_id : Uuid)
  : program (result DesktopSqlRunError DesktopRun) :=
  try planned ← operation_get operation_id or RunApplication;
  if negb (op_payload_schema_version planned =? 1) || negb (supported_desktop_kind (op_kind planned))
  then Ret (Err (RunApplication (Blocked "operation is not a supported desktop SQL proposal")))
  else
    check payload ← ok_or Serialization (desktop_payload_from_value (op_payload planned))
      or RunApplication;
    try pin ← store_pin_for_read (op_connection_id planned) or RunApplication;
    check _ ← ensure_operation_scope planned pin or RunApplication;
    try settings ← store_get_safety (pc_connection_id pin) or RunApplication;
    check policy ← capture_policy pin settings or RunApplication;
    if negb (cop_revision policy =? op_policy_revision planned)%string
    then Ret (Err (RunBlocked
      "the connection or safety policy changed; create a new proposal"))
    else
      check classification ← classify (sdp_sql payload) (cp_engine (pc_profile pin))
        or RunApplication;
      if negb (bool_decide (operation_kind (cl_kind classification) = op_kind planned))
      then Ret (Err (RunBlocked
        "stored SQL classification no longer matches its immutable proposal"))
      else
        let run := {| dr_planned := planned; dr_payload := payload; dr_pin := pin;
                      dr_settings := settings; dr_classification := classification |} in
        let granted := cp_workspace_access (pc_profile pin) in
        if negb (if dr_is_write run then WorkspaceConnectionAccess.can_write granted
                 else WorkspaceConnectionAccess.can_read granted)
        then Ret (Err (RunBlocked "your workspace role no longer grants this database access"))
        else
          match Safety.decide settings classification with
          | Block reason =>
              _ ← record_desktop_run pin
                    (desktop_record run "blocked" "blocked" None None (Some reason));
              Ret (Err (RunBlocked reason))
          | _ => Ret (Ok run)
          end.

(** The outcome an interrupted write reports. *)
Definition desktop_failure (is_write : bool) (error : AppError) : AppError :=
  if is_write && (is_cancellation error || is_timeout error || is_outcome_unknown error)
  then match error with
       | OutcomeUnknown m => OutcomeUnknown m
       | other => OutcomeUnknown
           ("write execution was interrupted before rollback or commit could be confirmed: "
            +:+ error_to_string other)
       end
  else error.

(** The [match executor::execute(..)] of [run_desktop_sql]. *)
Definition settle_run (operation_id : Uuid) (run : DesktopRun) (executed : AppResult ExecOutcome)
  : program (result DesktopSqlRunError ExecOutcome) :=
  match executed with
  | Ok outcome =>
      let row_count :=
        match eo_result outcome with
        | Some result => Some (wrap_i64 (qr_row_count result))
        | None => wrap_i64 <$> eo_affected outcome
        end in
      let duration_ms := (λ result, wrap_i64 (qr_duration_ms result)) <$> eo_result outcome in
      succeeded ← operation_succeed operation_id
        (VObject [("committed", VBool (eo_committed outcome));
                  ("durationMs", value_of_opt_i64 duration_ms);
                  ("rowCount", value_of_opt_i64 row_count)]);
      match succeeded with
      | Err error =>
          _ ← (if dr_is_write run then operation_outcome_unknown else operation_fail)
                operation_id (reason_details "local_receipt_failed");
          Ret (Err (RunExecution error))
      | Ok _ =>
          _ ← (if bool_decide (cl_kind (dr_classification run) = QueryKind.Ddl)
                  && eo_committed outcome
               then _ ← store_clear_schema_cache (pc_connection_id (dr_pin run)); Ret tt
               else Ret tt);
          _ ← record_desktop_run (dr_pin run)
                (desktop_record run (if eo_committed outcome then "execute" else "read") "ok"
                   row_count duration_ms None);
          Ret (Ok outcome)
      end
  | Err error =>
      let cancelled := is_cancellation error in
      let error := desktop_failure (dr_is_write run) error in
      _ ← (if is_outcome_unknown error
           then operation_outcome_unknown operation_id (reason_details "target_outcome_unconfirmed")
           else if cancelled
           then operation_confirm_cancelled operation_id (reason_details "user_cancelled")
           else operation_fail operation_id (reason_details (error_kind error)));
      _ ← record_desktop_run (dr_pin run)
            (desktop_record run "error" "error" None None (Some (error_to_string error)));
      Ret (Err (RunExecution error))
  end.

(** A failure before the statement runs: record it and fail the operation. *)
Definition abandon_run (operation_id : Uuid) (run : DesktopRun) (error : AppError)
  (reason : string) : program unit :=
  _ ← record_desktop_run (dr_pin run)
        (desktop_record run "error" "error" None None (Some (error_to_string error)));
  _ ← operation_fail operation_id (reason_details reason);
  Ret tt.

Definition audit_attempt (run : DesktopRun) : RecordArgs :=
  {| ra_connection_id := pc_connection_id (dr_pin run);
     ra_engine := cp_engine (pc_profile (dr_pin run)); ra_agent_prompt := None;
     ra_sql := sdp_sql (dr_payload run); ra_kind := cl_kind (dr_classification run);
     ra_action := "execute:attempt";
     ra_approved_by := Some (actor_id (op_actor (dr_planned run)));
     ra_affected_estimate := None; ra_error := None |}.

(** [if is_write { audit::record(..) }]; [false] refuses the run. *)
Definition pre_record (run : DesktopRun) : program (AppResult unit) :=
  if dr_is_write run then
    recorded ← audit_record (audit_attempt run);
    Ret match recorded with
        | Ok _ => Ok tt
        | Err error => Err (Config
            ("audit pre-record failed — refusing to run write: " +:+ error_to_string error))
        end
  else Ret (Ok tt).

Definition run_claimed (operation_id : Uuid) (run : DesktopRun) (cancellation : Cancellation)
  : program (result DesktopSqlRunError ExecOutcome) :=
  try claimed ← operation_claim operation_id or RunApplication;
  cancelled ← cancel_is_cancelled (cn_handle cancellation);
  if (cancelled : bool) then
    try _ ← operation_confirm_cancelled operation_id
              (reason_details "user_cancelled_before_target_access") or RunApplication;
    Ret (Err (RunApplication (Safety "query cancelled")))
  else
    recorded ← pre_record run;
    match recorded with
    | Err refusal =>
        _ ← operation_fail operation_id (reason_details "audit_pre_record_failed");
        Ret (Err (RunApplication refusal))
    | Ok _ =>
        connected ← scope_connect (dr_pin run)
          (if dr_is_write run then ConnectionAccess.Write else ConnectionAccess.Read);
        match connected with
        | Err error =>
            _ ← abandon_run operation_id run error "connection_failed";
            Ret (Err (RunApplication error))
        | Ok lease =>
            match live_sql (ls_live lease) with
            | Err error =>
                _ ← abandon_run operation_id run error "sql_backend_unavailable";
                Ret (Err (RunExecution error))
            | Ok live =>
                executed ← execute_classified live (dr_classification run) (sdp_sql (dr_payload run))
                  (dr_settings run) (if dr_is_write run then Some (co_grant claimed) else None)
                  (Some cancellation);
                settle_run operation_id run executed
            end
        end
    end.

Definition run_desktop_sql (operation_id : Uuid)
  : program (result DesktopSqlRunError ExecOutcome) :=
  try run ← authorize_desktop_run operation_id or id;
  with_cancellation operation_id
    (λ handle, run_claimed operation_id run {| cn_id := operation_id; cn_handle := handle |}).
End query_runs.
