(* ===== verification/ServiceLogic.v ===== *)
(** * Reasoning about service programs

    Proof rules and tactics for [wp] over the calls of Effects.v: the
    cancellation guard, stepping through straight-line code, programs that touch
    neither the ledger nor a transaction, the histories of a claimed operation,
    and the authorised ways to a target database. *)

From S2P Require Export Executor.

(** Every history of a run extends the one it started from. *)
Lemma wp_frame {Op : Type} {Res : Op → Type} (ok : ∀ op, Res op → Prop)
    (allowed : list (entry Res) → Op → Prop) {A} (p : prog Res A) Q h :
  wp ok allowed p Q h → wp ok allowed p (λ a h', Q a h' ∧ ∃ l, h' = l ++ h) h.
Proof.
  cut (∀ h0, (∃ l, h0 = l ++ h) → wp ok allowed p Q h0 →
         wp ok allowed p (λ a h', Q a h' ∧ ∃ l, h' = l ++ h) h0).
  { intros H. apply H. by exists []. }
  induction p as [a|op k IH]; cbn; intros h0 Hl Hp; [done|].
  destruct Hp as [Ha Hp]. split; [done|]. intros r Hr. apply IH; [|by apply Hp].
  destruct Hl as [l ->]. by exists (Entry op r :: l).
Qed.

Lemma value_of_u64_exact n : 0 ≤ n ≤ u64_max → value_exact (value_of_u64 n) = true.
Proof.
  unfold value_exact, value_of_u64. intros H. cbn. rewrite andb_true_r.
  apply andb_true_iff. lia.
Qed.

(** A history without the polls of the guard. *)
Definition is_poll {P : Platform} (e : entry Call.res) : bool :=
  match called e with Call.Poll _ => true | _ => false end.
Definition unpolled {P : Platform} (h : history) : history :=
  List.filter (λ e, negb (is_poll e)) h.

Section guard.
Context {P : Platform} {A : Type}.
Variable ok : ∀ c, Call.res c → Prop.
Variable allowed : history → Call.t → Prop.
Variable Q : AppResult A → history → Prop.
Hypothesis allowed_unpolled : ∀ h h' c, unpolled h = unpolled h' → allowed h c → allowed h' c.
Hypothesis Q_unpolled : ∀ r h h', unpolled h = unpolled h' → Q r h → Q r h'.
Hypothesis Q_interrupted : ∀ signal r h, interrupted signal = Some r → Q r h.

Lemma wp_guarded_run handle (fut : program (AppResult A)) h h' :
  (∀ h, allowed h (Call.Poll handle)) → unpolled h = unpolled h' →
  wp ok allowed fut Q h → wp ok allowed (guarded_run handle fut) Q h'.
Proof.
  intros Hp. revert h h'. induction fut as [r|c k IH]; cbn; intros h h' Hh Hw; [by eapply Q_unpolled|].
  destruct Hw as [Ha Hw]. split; [by eapply allowed_unpolled|]. intros r Hr. split; [done|].
  intros signal _. destruct (interrupted signal) as [x|] eqn:Hi; cbn; [by eapply Q_interrupted|].
  eapply IH; [|by apply Hw]. unfold unpolled in *. cbn. by rewrite Hh.
Qed.

Lemma wp_guarded handle (fut : program (AppResult A)) h :
  (∀ h, allowed h (Call.Poll handle)) →
  wp ok allowed fut Q h → wp ok allowed (guarded handle fut) Q h.
Proof.
  intros Hp Hw. apply wp_bind. split; [done|]. intros signal _. cbn.
  destruct (interrupted signal) as [x|] eqn:Hi; [by eapply Q_interrupted|].
  eapply wp_guarded_run; [exact Hp| |exact Hw]. reflexivity.
Qed.
End guard.

(** One step: a composition, a pure check, a call or a result. *)
Ltac wp_step :=
  lazymatch goal with
  | |- wp _ _ (try_with _ _ _) _ _ => apply wp_try
  | |- wp _ _ (try_pure _ _ _) _ _ =>
      apply wp_try_pure; [let x := fresh "x" in let H := fresh "Hx" in intros x H|intros ? _]
  | |- wp _ _ (mbind _ _) _ _ => apply wp_bind
  | |- wp ?ok ?al ?p ?Q ?h =>
      let p' := eval hnf in p in
      lazymatch p' with
      | Vis ?op ?k =>
          change (al h op ∧ ∀ r, ok op r → wp ok al (k r) Q (Entry op r :: h)); split;
          [|let r := fresh "r" in let H := fresh "Hr" in intros r H]
      | Ret ?a => change (Q a h); cbv beta
      end
  end.
Ltac wp_if H :=
  cbv zeta; lazymatch goal with |- wp _ _ (if ?b then _ else _) _ _ => destruct b eqn:H end.

(** ** Quiet programs *)

(** Programs that only make the calls [good] accepts. *)
Section only.
Context {P : Platform}.
Variable good : Call.t → bool.

Fixpoint only_calls {A} (p : program A) : Prop :=
  match p with Ret _ => True | Vis c k => good c = true ∧ ∀ r, only_calls (k r) end.

Definition only_history (h : history) : Prop := Forall (λ e, good (called e) = true) h.

Lemma only_history_app l l' : only_history l → only_history l' → only_history (l ++ l').
Proof. intros H H'. by apply Forall_app. Qed.

Lemma wp_only_later ok allowed {A} (p : program A) (Q : A → history → Prop) h :
  (∀ l c, only_history l → good c = true → allowed (l ++ h) c) → only_calls p →
  (∀ a l, only_history l → Q a (l ++ h)) → wp ok allowed p Q h.
Proof.
  intros Ha Hp HQ. cut (∀ l, only_history l → wp ok allowed p Q (l ++ h));
    [intros H; by apply (H []), List.Forall_nil|].
  induction p as [a|c k IH]; cbn; intros l Hl; [by apply HQ|].
  destruct Hp as [Hc Hp]. split; [by apply Ha|]. intros r _.
  apply (IH r (Hp r) (Entry c r :: l)). by constructor.
Qed.

Lemma wp_only ok allowed {A} (p : program A) (Q : A → history → Prop) h :
  (∀ h c, good c = true → allowed h c) → only_calls p →
  (∀ a l, only_history l → Q a (l ++ h)) → wp ok allowed p Q h.
Proof. intros Ha. apply wp_only_later. auto. Qed.

(** Such a program only adds such entries. *)
Lemma wp_only_frame ok allowed {A} (p : program A) (Q : A → history → Prop) h :
  only_calls p → wp ok allowed p Q h →
  wp ok allowed p (λ a h', Q a h' ∧ ∃ l, h' = l ++ h ∧ only_history l) h.
Proof.
  intros Hq. cut (∀ l, only_history l → wp ok allowed p Q (l ++ h) →
    wp ok allowed p (λ a h', Q a h' ∧ ∃ l, h' = l ++ h ∧ only_history l) (l ++ h)).
  { intros H. by apply (H []), List.Forall_nil. }
  induction p as [a|c k IH]; cbn; intros l Hl Hp; [by eauto|].
  destruct Hq as [Hc Hq], Hp as [Ha Hp]. split; [done|]. intros r Hr.
  apply (IH r (Hq r) (Entry c r :: l)); [by constructor|by apply Hp].
Qed.

Lemma only_bind {A B} (p : program A) (f : A → program B) :
  only_calls p → (∀ a, only_calls (f a)) → only_calls (p ≫= f).
Proof. intros Hp Hf. induction p as [a|c k IH]; cbn; [apply Hf|]. destruct Hp. naive_solver. Qed.

Lemma only_try {E F A B} (f : E → F) (m : program (result E A)) (k : A → program (result F B)) :
  only_calls m → (∀ a, only_calls (k a)) → only_calls (try_with f m k).
Proof. intros Hm Hk. apply only_bind; [done|]. intros [a|e]; [apply Hk|done]. Qed.

Lemma only_try_pure {E F A B} (f : E → F) (r : result E A) (k : A → program (result F B)) :
  (∀ a, only_calls (k a)) → only_calls (try_pure f r k).
Proof. intros Hk. destruct r; cbn; [apply Hk|done]. Qed.

Hypothesis good_poll : ∀ handle, good (Call.Poll handle) = true.

Lemma only_guarded_run {A} handle (fut : program (AppResult A)) :
  only_calls fut → only_calls (guarded_run handle fut).
Proof.
  induction fut as [r|c k IH]; cbn; intros H; [done|]. destruct H as [Hc H].
  split; [done|]. intros r. split; [done|]. intros signal.
  destruct (interrupted signal); cbn; auto.
Qed.

Lemma only_guarded {A} handle (fut : program (AppResult A)) :
  only_calls fut → only_calls (guarded handle fut).
Proof.
  intros H. apply only_bind; [by split|]. intros signal.
  destruct (interrupted signal); [done|by apply only_guarded_run].
Qed.
End only.

(** By the composition of the program. *)
Ltac solve_only :=
  intros;
  repeat first
    [ apply only_bind; [|intros]
    | apply only_try; [|intros]
    | apply only_try_pure; intros
    | apply only_guarded
    | match goal with
      | |- only_calls _ (match ?x with _ => _ end) => destruct x
      | |- only_calls _ (if ?b then _ else _) => destruct b
      | |- only_calls _ (let '(_, _) := ?x in _) => destruct x
      end
    | progress (intros ?)
    | done ].

Section quiet.
Context {P : Platform}.

(** Calls that run a statement of the user. *)
Definition is_fetch (c : Call.t) : bool :=
  match c with
  | Call.FetchRows _ _ _ | Call.ReadOnlyRun _ _ _ | Call.DocumentRun _ _ _ _ => true
  | _ => false
  end.

(** Calls that change the target database. *)
Definition in_transaction (c : Call.t) : bool :=
  match c with
  | Call.Begin _ | Call.Execute _ _ | Call.Commit _ | Call.Rollback _ | Call.ExecutePool _ _ => true
  | _ => false
  end.

(** Calls that neither change the ledger nor run a statement of the user. *)
Definition quiet (c : Call.t) : bool :=
  match c with
  | Call.OperationPlan _ _ | Call.OperationClaim _ | Call.OperationFinish _ _ _ => false
  | c => negb (is_fetch c) && negb (in_transaction c)
  end.

(** Calls of a read. *)
Definition reading (c : Call.t) : bool := quiet c || is_fetch c.

Lemma quiet_not_transaction c : in_transaction c = true → quiet c = false.
Proof. by destruct c. Qed.
Lemma quiet_not_fetch c : is_fetch c = true → quiet c = false.
Proof. by destruct c. Qed.
End quiet.

Abbreviation quiet_program := (only_calls quiet).
Abbreviation quiet_history := (only_history quiet).

Section quiet_facts.
Context {P : Platform}.

Lemma reading_run_read_registered live sql n c :
  only_calls reading (run_read_registered live sql n c).
Proof. unfold run_read_registered, with_headers. solve_only. Qed.
Lemma quiet_preview pool sql classification settings :
  quiet_program (preview pool sql classification settings).
Proof. unfold preview, explain. solve_only. Qed.
End quiet_facts.

(** ** Histories of a claimed run *)

Section histories.
Context {P : Platform}.

Definition is_commit (c : Call.t) : bool := match c with Call.Commit _ => true | _ => false end.

Definition no_commit (h : history) : Prop := Forall (λ e, is_commit (called e) = false) h.
Definition committed (h : history) : Prop := ∃ tx, Entry (Call.Commit tx) (Ok tt) ∈ h.

Lemma no_commit_reading l h : only_history reading l → no_commit h → no_commit (l ++ h).
Proof.
  intros Hl Hh. apply Forall_app. split; [|done]. eapply Forall_impl; [exact Hl|].
  intros [c r]. by destruct c.
Qed.
Lemma no_commit_quiet l h : quiet_history l → no_commit h → no_commit (l ++ h).
Proof.
  intros Hl. apply no_commit_reading. eapply Forall_impl; [exact Hl|].
  intros [c r]. by destruct c.
Qed.

Lemma committed_app l h : committed h → committed (l ++ h).
Proof. intros [tx H]. exists tx. apply elem_of_app. by right. Qed.

Definition claimed_in (h : history) (id : Uuid) : Prop :=
  ∃ claimed, Entry (Call.OperationClaim id) (Ok claimed) ∈ h.

Definition is_claimed (e : entry Call.res) : bool :=
  match e with
  | Entry c r => match c return Call.res c → bool with
                 | Call.OperationClaim _ => is_ok
                 | _ => λ _, false
                 end r
  end.

Lemma claimed_in_cons e h id : is_claimed e = false → claimed_in (e :: h) id → claimed_in h id.
Proof.
  intros He [cl [Hc|Hc]%elem_of_cons]; [|by exists cl].
  apply (f_equal is_claimed) in Hc. by rewrite He in Hc.
Qed.

Lemma claimed_in_app l h id : claimed_in h id → claimed_in (l ++ h) id.
Proof. intros [cl H]. exists cl. apply elem_of_app. by right. Qed.

Lemma unpolled_in e h h' : unpolled h = unpolled h' → is_poll e = false → e ∈ h → e ∈ h'.
Proof.
  intros Hu Hp He. apply list_elem_of_In. apply list_elem_of_In in He.
  assert (In e (unpolled h)) as H by (apply filter_In; by rewrite Hp).
  rewrite Hu in H. by apply filter_In in H as [H _].
Qed.

Lemma unpolled_no_commit h h' : unpolled h = unpolled h' → no_commit h → no_commit h'.
Proof.
  intros Hu H. apply List.Forall_forall. intros e He. apply list_elem_of_In in He.
  destruct (is_poll e) eqn:Hp; [by destruct e as [[] ?]|].
  unfold no_commit in H. rewrite Forall_forall in H. apply H. by eapply unpolled_in.
Qed.

Lemma unpolled_committed h h' : unpolled h = unpolled h' → committed h → committed h'.
Proof. intros Hu [tx H]. exists tx. by eapply unpolled_in. Qed.

Definition settled (h : history) (operation_id : Uuid) : Prop :=
  ∃ target details answer, Entry (Call.OperationFinish operation_id target details) answer ∈ h.

Lemma settled_app l h id : settled h id → settled (l ++ h) id.
Proof. intros (t & d & a & H). exists t, d, a. apply elem_of_app. by right. Qed.

(** The operation claimed as [operation_id], by either of its names. *)
Definition names_plan (operation_id : Uuid) (h : history) (id : Uuid) : Prop :=
  ∃ claimed, Entry (Call.OperationClaim operation_id) (Ok claimed) ∈ h
    ∧ (id = operation_id ∨ id = op_id (co_record claimed)).

Definition plan_settled (operation_id : Uuid) (h : history) : Prop :=
  ∃ id, names_plan operation_id h id ∧ settled h id.

Lemma names_plan_app operation_id l h id :
  names_plan operation_id h id → names_plan operation_id (l ++ h) id.
Proof. intros (cl & H & Hid). exists cl. split; [|done]. apply elem_of_app. by right. Qed.

Lemma plan_settled_app operation_id l h :
  plan_settled operation_id h → plan_settled operation_id (l ++ h).
Proof. intros (id & H & Hs). exists id. split; [by apply names_plan_app|by apply settled_app]. Qed.

Lemma quiet_unclaimed h id : quiet_history h → ¬ claimed_in h id.
Proof.
  intros H [cl Hc]. unfold only_history in H. rewrite Forall_forall in H. by apply H in Hc.
Qed.
End histories.

(** ** Connecting *)

Section connecting.
Context {P : Platform}.
Variable allowed : history → Call.t → Prop.
Hypothesis allowed_quiet : ∀ h c, quiet c = true → allowed h c.

(** The history only grows by quiet calls, and a success has [F]. *)
Definition quietly {A} (F : A → history → Prop) (h : history) (r : AppResult A) (h' : history)
  : Prop :=
  ∃ l, h' = l ++ h ∧ quiet_history l ∧ ∀ a, r = Ok a → F a h'.

Lemma wp_authorize_pin pin access h :
  wp answer_ok allowed (authorize_pin pin access)
    (quietly (λ _ _, local_authority pin access = Ok tt) h) h.
Proof.
  assert (∀ (r : AppResult ConnectionAuthorization) l, quiet_history l →
    local_authority pin access = Ok tt →
    quietly (λ _ _, local_authority pin access = Ok tt) h r (l ++ h)) as Hok
    by (intros r l Hl Ha; exists l; split_and!; [done|done|by intros]).
  assert (∀ e l, quiet_history l → quietly (λ _ _, local_authority pin access = Ok tt) h
    (Err e : AppResult ConnectionAuthorization) (l ++ h)) as Herr
    by (intros e l Hl; exists l; split_and!; [done|done|done]).
  unfold authorize_pin. wp_step; [|by apply (Herr _ []), List.Forall_nil].
  destruct x. wp_if Hr; [by apply (Hok _ []); [constructor|]|].
  wp_step; [|by apply (Herr _ []), List.Forall_nil].
  wp_step. wp_step; [by apply allowed_quiet|]. wp_step. destruct r as [revision|e].
  - wp_if Hv; [apply (Herr _ [_])|apply (Hok _ [_]); [|done]]; by repeat constructor.
  - apply (Herr _ [_]). by repeat constructor.
Qed.

(** The pin is authorised and still current. *)
Definition pin_confirmed (pin : PinnedConnection) (access : ConnectionAccess.t) (h : history)
  : Prop := local_authority pin access = Ok tt ∧ Entry (Call.IsPinCurrent pin) (Ok true) ∈ h.

(** [live] was opened for the pin with that access. *)
Definition opened (pin : PinnedConnection) (access : ConnectionAccess.t) (live : Live) (h : history)
  : Prop := Entry (Call.OpenLive pin access) (Ok live) ∈ h.

Lemma wp_context_opens context h :
  wp answer_ok allowed (context_connect context)
    (quietly (λ lease h', opened (cx_pin context) (cx_access context) (ls_live lease) h') h) h.
Proof.
  unfold context_connect. wp_step. wp_step; [by apply allowed_quiet|]. wp_step.
  destruct r as [live|e]; (eexists [_]; split_and!; [done|by repeat constructor|]); [|done].
  intros lease [= <-]. left.
Qed.

Lemma quietly_weaken {A} (F G : A → history → Prop) h r h' :
  (∀ a h', F a h' → G a h') → quietly F h r h' → quietly G h r h'.
Proof. intros HF (l & -> & Hl & Ha). exists l. split_and!; auto. Qed.

Lemma wp_context_connect context h :
  wp answer_ok allowed (context_connect context) (quietly (λ _ _, True) h) h.
Proof.
  eapply wp_mono; [|apply wp_context_opens]. intros r h'. by apply quietly_weaken.
Qed.

Lemma wp_scope_opens pin access h :
  wp answer_ok allowed (scope_connect pin access)
    (quietly (λ lease h', pin_confirmed pin access h' ∧ opened pin access (ls_live lease) h') h) h.
Proof.
  unfold scope_connect. wp_step. eapply wp_mono; [|apply wp_authorize_pin].
  intros r h1 (l1 & -> & Hl1 & Ha). destruct r as [a|e]; [|by exists l1].
  wp_step. wp_step; [by apply allowed_quiet|]. wp_step.
  assert (∀ a, quiet_history (Entry (Call.IsPinCurrent pin) a :: l1)) as Hl by (by constructor).
  destruct r as [current|e]; [|by exists (Entry (Call.IsPinCurrent pin) (Err e) :: l1)].
  wp_if Hc; [by exists (Entry (Call.IsPinCurrent pin) (Ok current) :: l1)|]. bools. subst.
  eapply wp_mono; [|apply wp_context_opens].
  intros r h2 (l2 & -> & Hl2 & Ho). exists (l2 ++ Entry (Call.IsPinCurrent pin) (Ok true) :: l1).
  split_and!.
  - by rewrite <-app_assoc.
  - by apply only_history_app.
  - intros lease Hlease. split; [|by apply Ho]. split; [by apply (Ha a)|].
    apply elem_of_app. right. left.
Qed.

Lemma wp_scope_connect pin access h :
  wp answer_ok allowed (scope_connect pin access)
    (quietly (λ _ h', pin_confirmed pin access h') h) h.
Proof.
  eapply wp_mono; [|apply wp_scope_opens]. intros r h'. apply quietly_weaken. by intros ? ? [? _].
Qed.

Lemma wp_manager_pin id access h :
  wp answer_ok allowed (manager_pin id access)
    (quietly (λ context h', pin_ranges (cx_pin context)
                ∧ Entry (Call.PinForRead id) (Ok (cx_pin context)) ∈ h'
                ∧ pin_confirmed (cx_pin context) access h') h) h.
Proof.
  unfold manager_pin. wp_step. wp_step; [by apply allowed_quiet|]. wp_step.
  destruct r as [pin|e]; [|exists [Entry (Call.PinForRead id) (Err e)]; split_and!;
    [done|by repeat constructor|done]].
  wp_step. eapply wp_mono; [|apply wp_authorize_pin].
  intros r h1 (l1 & -> & Hl1 & Ha).
  set (pinned := Entry (Call.PinForRead id) (Ok pin)).
  assert (∀ l, quiet_history l → quiet_history (l ++ [pinned])) as Hq
    by (intros l Hl; apply only_history_app; [done|by repeat constructor]).
  destruct r as [a|e]; [|exists (l1 ++ [pinned]); split_and!; [by rewrite <-app_assoc|by apply Hq|done]].
  wp_step. wp_step; [by apply allowed_quiet|]. wp_step.
  assert (∀ a, quiet_history (Entry (Call.IsPinCurrent pin) a :: l1)) as Hl by (by constructor).
  destruct r as [current|e].
  - wp_if Hc; wp_step; (exists ((Entry (Call.IsPinCurrent pin) (Ok current) :: l1) ++ [pinned]);
      split_and!; [by cbn; rewrite <-app_assoc|by apply Hq|]); [done|].
    bools. subst. intros context [= <-]. split; [by apply Hr|]. split; [|split; [by apply (Ha a)|left]].
    right. apply elem_of_app. right. left.
  - exists ((Entry (Call.IsPinCurrent pin) (Err e) :: l1) ++ [pinned]).
    split_and!; [by cbn; rewrite <-app_assoc|by apply Hq|done].
Qed.
End connecting.
