(* ===== verification/QueryTheorems.v ===== *)
(** * What the query service guarantees

    A statement reaches a write transaction only under a claimed operation whose
    stored payload, policy, approval and audit record are exactly the ones the
    run checked; a claimed operation is always settled, and never as failed or
    cancelled once a commit was sent. *)

From S2P Require Export ServiceLogic QueryService.

Section quiet_facts.
Context {P : Platform} {SD : Serde} {C : ChronoSerde} {D : ErrorDisplay} {parser : SqlParser}.

Lemma quiet_record_desktop_run pin r : quiet_program (record_desktop_run pin r).
Proof. unfold record_desktop_run. solve_only. Qed.
Lemma quiet_authorize_desktop_run id : quiet_program (authorize_desktop_run id).
Proof. unfold authorize_desktop_run, record_desktop_run. solve_only. Qed.
End quiet_facts.

(** ** What the checks before the claim establish *)

Section desktop.
Context {P : Platform} {SD : Serde} {C : ChronoSerde} {D : ErrorDisplay} {parser : SqlParser}.

(** A run that passed [authorize_desktop_run], as its history shows. *)
Record ready_run (h : history) (operation_id : Uuid) (run : DesktopRun) : Prop := {
  rr_planned : Entry (Call.OperationGet operation_id) (Ok (dr_planned run)) ∈ h;
  rr_pin : Entry (Call.PinForRead (op_connection_id (dr_planned run))) (Ok (dr_pin run)) ∈ h;
  rr_settings : Entry (Call.GetSafety (pc_connection_id (dr_pin run))) (Ok (dr_settings run)) ∈ h;
  rr_version : op_payload_schema_version (dr_planned run) = 1;
  rr_payload : desktop_payload_from_value (op_payload (dr_planned run)) = Some (dr_payload run);
  rr_scope : ensure_operation_scope (dr_planned run) (dr_pin run) = Ok tt;
  rr_policy : ∃ policy, capture_policy (dr_pin run) (dr_settings run) = Ok policy
    ∧ cop_revision policy = op_policy_revision (dr_planned run);
  rr_classified : classify (sdp_sql (dr_payload run)) (cp_engine (pc_profile (dr_pin run)))
    = Ok (dr_classification run);
  rr_kind : op_kind (dr_planned run) = operation_kind (cl_kind (dr_classification run));
  rr_gate reason : Safety.decide (dr_settings run) (dr_classification run) ≠ Block reason;
  rr_access : (if dr_is_write run then WorkspaceConnectionAccess.can_write
               else WorkspaceConnectionAccess.can_read)
                (cp_workspace_access (pc_profile (dr_pin run))) = true;
}.

Lemma ready_run_later h l id run : ready_run h id run → ready_run (l ++ h) id run.
Proof. intros []. split; try done; apply elem_of_app; by right. Qed.

Variable allowed : history → Call.t → Prop.
Hypothesis allowed_quiet : ∀ h c, quiet c = true → allowed h c.

Lemma wp_authorize operation_id h :
  wp answer_ok allowed (authorize_desktop_run operation_id)
    (λ r h', match r with Ok run => ready_run h' operation_id run | Err _ => True end) h.
Proof.
  unfold authorize_desktop_run. wp_step. wp_step; [by apply allowed_quiet|].
  wp_step. destruct r as [planned|e]; [|done].
  wp_if Hk; [done|]. wp_step; [|done].
  wp_step. wp_step; [by apply allowed_quiet|]. wp_step. destruct r as [pin|e]; [|done].
  wp_step; [|done].
  wp_step. wp_step; [by apply allowed_quiet|]. wp_step. destruct r as [settings|e]; [|done].
  wp_step; [|done]. wp_if Hrev; [done|].
  wp_step; [|done]. wp_if Hkind; [done|].
  wp_if Hacc; [done|].
  apply ok_or_Ok in Hx. destruct x0 as []. bools.
  assert (∀ d, (∀ reason, d ≠ Block reason) →
    Safety.decide settings x2 = d →
    ready_run (Entry (Call.GetSafety (pc_connection_id pin)) (Ok settings)
      :: Entry (Call.PinForRead (op_connection_id planned)) (Ok pin)
      :: Entry (Call.OperationGet operation_id) (Ok planned) :: h) operation_id
      {| dr_planned := planned; dr_payload := x; dr_pin := pin; dr_settings := settings;
         dr_classification := x2 |}) as Hready.
  { intros d Hd Hdec. split; cbn; try done.
    - right; right; left.
    - right; left.
    - left.
    - lia.
    - by exists x1.
    - intros reason Hb. by apply (Hd reason); rewrite <-Hdec.
    - by destruct (dr_is_write _). }
  destruct (Safety.decide settings x2) as [| |reason] eqn:Hdec.
  - by apply (Hready AutoRun).
  - by apply (Hready RequireApproval).
  - wp_step. apply (wp_only quiet); [done|apply quiet_record_desktop_run|]. done.
Qed.
End desktop.

(** ** Histories of a claimed run *)

Section histories.
Context {P : Platform}.

(** A lifecycle verdict that the history supports: nothing was committed when it
    says failed or cancelled, and the commit was acknowledged when a write is
    said to have succeeded. *)
Definition honest (is_write : bool) (h : history) (target : OperationState.t) : Prop :=
  match target with
  | OperationState.Failed | OperationState.Cancelled => no_commit h
  | OperationState.Succeeded => if is_write then committed h else no_commit h
  | _ => True
  end.
End histories.

Section claimed.
Context {P : Platform} {SD : Serde} {C : ChronoSerde} {D : ErrorDisplay} {parser : SqlParser}.

(** What the history of a run shows when it reaches the write transaction. *)
Record write_authority (h : history) (operation_id : Uuid) (run : DesktopRun) : Prop := {
  wa_ready : ready_run h operation_id run;
  wa_write : dr_is_write run = true;
  wa_enabled : allow_writes (dr_settings run) = true;
  wa_claimed : claimed_in h operation_id;
  wa_audited : ∃ entry, Entry (Call.AuditRecord (audit_attempt run)) (Ok entry) ∈ h;
  wa_granted : local_authority (dr_pin run) ConnectionAccess.Write = Ok tt;
  wa_current : Entry (Call.IsPinCurrent (dr_pin run)) (Ok true) ∈ h;
}.

(** [pool] is the write pool of a connection opened for writing under the run's pin. *)
Definition write_pool_of (h : history) (run : DesktopRun) (pool : DbPool) : Prop :=
  ∃ live, opened (dr_pin run) ConnectionAccess.Write (LiveSql live) h ∧ pool = write_pool live.

(** The transaction of the call is one the run began on such a pool. *)
Definition own_transaction (h : history) (run : DesktopRun) (c : Call.t) : Prop :=
  match c with
  | Call.Begin pool => write_pool_of h run pool
  | Call.Execute tx _ | Call.Commit tx | Call.Rollback tx =>
      ∃ pool, write_pool_of h run pool ∧ Entry (Call.Begin pool) (Ok tx) ∈ h
  | _ => False
  end.

Definition desktop_allowed (operation_id : Uuid) (run : DesktopRun) (h : history) (c : Call.t)
  : Prop :=
  match c with
  | Call.OperationPlan _ _ | Call.ExecutePool _ _ => False
  | Call.OperationClaim id => id = operation_id ∧ ready_run h operation_id run
  | Call.OperationFinish id target details =>
      id = operation_id ∧ value_exact details = true ∧ OperationState.is_terminal target = true
      ∧ honest (dr_is_write run) h target ∧ claimed_in h operation_id
      ∧ ready_run h operation_id run
  | Call.Begin _ | Call.Commit _ | Call.Rollback _ =>
      write_authority h operation_id run ∧ own_transaction h run c
  | Call.Execute _ sql =>
      write_authority h operation_id run ∧ own_transaction h run c
      ∧ sql = sdp_sql (dr_payload run)
  | _ => True
  end.

Lemma write_authority_later h l id run : write_authority h id run → write_authority (l ++ h) id run.
Proof.
  intros [? ? ? ? [en He] ? ?]. split; try done.
  - by apply ready_run_later.
  - by apply claimed_in_app.
  - exists en. apply elem_of_app. by right.
  - apply elem_of_app. by right.
Qed.

Lemma write_pool_later h l run pool : write_pool_of h run pool → write_pool_of (l ++ h) run pool.
Proof. intros (live & Ho & ->). exists live. split; [|done]. apply elem_of_app. by right. Qed.

Lemma desktop_allowed_quiet id run h c : quiet c = true → desktop_allowed id run h c.
Proof. by destruct c. Qed.

Lemma reason_exact s : value_exact (reason_details s) = true.
Proof. done. Qed.

Lemma receipt_exact b m n :
  (∀ x, m = Some x → in_i64 x) → (∀ x, n = Some x → in_i64 x) →
  value_exact (VObject [("committed", VBool b); ("durationMs", value_of_opt_i64 m);
                        ("rowCount", value_of_opt_i64 n)]) = true.
Proof.
  intros Hm Hn. apply object_exact. split; [by apply (bool_decide_unpack _); vm_compute|].
  assert (∀ o, (∀ x, o = Some x → in_i64 x) → value_exact (value_of_opt_i64 o) = true) as H.
  { intros [x|] Ho; [|done]. by apply value_of_i64_exact, Ho. }
  repeat constructor; cbn [snd]; auto.
Qed.

(** *** The write transaction *)

(** What an executed write may answer, given the history it leaves. *)
Definition write_outcome {A} (r : AppResult A) (h : history) : Prop :=
  match r with
  | Ok _ => committed h
  | Err e => no_commit h ∨ is_outcome_unknown (desktop_failure true e) = true
  end.

Lemma interrupted_unknown {A} signal (r : AppResult A) :
  interrupted signal = Some r →
  ∃ e, r = Err e ∧ is_outcome_unknown (desktop_failure true e) = true.
Proof. destruct signal; cbn; [done|intros [= <-]; eexists; split; [done|reflexivity]..]. Qed.

Lemma wp_write_transaction_on allowed pool sql h :
  allowed h (Call.Begin pool) →
  (∀ l tx, Entry (Call.Begin pool) (Ok tx) ∈ l →
     allowed (l ++ h) (Call.Execute tx sql) ∧ allowed (l ++ h) (Call.Commit tx)) →
  no_commit h →
  wp answer_ok allowed (write_transaction pool sql) write_outcome h.
Proof.
  intros Hb Htx Hn. unfold write_transaction. wp_step. wp_step; [done|].
  wp_step. destruct r as [tx|e]; [|left; by constructor].
  wp_step. wp_step; [apply (Htx [_]); left|]. wp_step.
  destruct r as [n|e]; [|left; by repeat constructor].
  wp_step. wp_step; [apply (Htx [_; _]); right; left|]. wp_step.
  destruct r as [[]|e]; [|by right]. exists tx. left.
Qed.

Lemma wp_write_transaction allowed pool sql h :
  (∀ l, allowed (l ++ h) (Call.Begin pool)) → (∀ l tx, allowed (l ++ h) (Call.Execute tx sql)) →
  (∀ l tx, allowed (l ++ h) (Call.Commit tx)) → no_commit h →
  wp answer_ok allowed (write_transaction pool sql) write_outcome h.
Proof. intros Hb He Hc. apply wp_write_transaction_on; [apply (Hb [])|auto]. Qed.

Lemma unpolled_write_outcome {A} (r : AppResult A) h h' :
  unpolled h = unpolled h' → write_outcome r h → write_outcome r h'.
Proof.
  intros Hu. destruct r; cbn; [by apply unpolled_committed|].
  intros [?|?]; [left; by eapply unpolled_no_commit|by right].
Qed.

Lemma unpolled_ready h h' id run : unpolled h = unpolled h' → ready_run h id run → ready_run h' id run.
Proof. intros Hu []. split; try done; by eapply unpolled_in. Qed.

Lemma unpolled_claimed h h' id : unpolled h = unpolled h' → claimed_in h id → claimed_in h' id.
Proof. intros Hu [cl H]. exists cl. by eapply unpolled_in. Qed.

Lemma unpolled_authority h h' id run :
  unpolled h = unpolled h' → write_authority h id run → write_authority h' id run.
Proof.
  intros Hu [? ? ? ? [en ?] ? ?].
  split; eauto using unpolled_ready, unpolled_claimed; [exists en|]; by eapply unpolled_in.
Qed.

Lemma unpolled_honest b h h' target : unpolled h = unpolled h' → honest b h target → honest b h' target.
Proof.
  intros Hu. destruct target; cbn; try done; try destruct b;
    eauto using unpolled_no_commit, unpolled_committed.
Qed.

Lemma unpolled_transaction run h h' c :
  unpolled h = unpolled h' → own_transaction h run c → own_transaction h' run c.
Proof.
  intros Hu.
  assert (∀ pool, write_pool_of h run pool → write_pool_of h' run pool) as Hp.
  { intros pool (live & Ho & ->). exists live. split; [|done]. by eapply unpolled_in. }
  destruct c; cbn; try done; [by apply Hp|..];
    (intros (pool & Hpool & Hin); exists pool; split; [auto|by eapply unpolled_in]).
Qed.

Lemma unpolled_allowed id run h h' c :
  unpolled h = unpolled h' → desktop_allowed id run h c → desktop_allowed id run h' c.
Proof.
  intros Hu. pose proof (unpolled_authority h h' id run Hu) as Hauth.
  pose proof (unpolled_ready h h' id run Hu) as Hready.
  pose proof (unpolled_transaction run h h' c Hu) as Htx.
  destruct c; cbn in Htx |- *; try done; try (intros (? & ? & ?); by auto);
    try (intros (? & ?); by auto).
  intros (? & ? & ? & ? & ? & ?).
  split_and!; try done; [by eapply unpolled_honest|by eapply unpolled_claimed|auto].
Qed.

(** *** Executing *)

Lemma wp_run_write operation_id run live grant cancellation h :
  no_commit h →
  (allow_writes (dr_settings run) = true →
     write_authority h operation_id run ∧ write_pool_of h run (write_pool live)) →
  wp answer_ok (desktop_allowed operation_id run)
    (run_write live (sdp_sql (dr_payload run)) (dr_settings run) grant cancellation)
    write_outcome h.
Proof.
  intros Hn Hw. unfold run_write. wp_if Hid; [by left|]. wp_if Hal; [by left|]. bools.
  destruct (Hw Hal) as [Hauth Hpool].
  pose proof (λ l, write_authority_later h l _ _ Hauth) as Hl.
  wp_step. eapply (wp_mono _ _ _ write_outcome); [by intros [n|e] h'|].
  apply wp_guarded.
  - apply unpolled_allowed.
  - apply unpolled_write_outcome.
  - intros signal r h' Hi. apply interrupted_unknown in Hi as (e & -> & He). by right.
  - done.
  - apply wp_write_transaction_on; [by split| |done]. intros l tx Hb.
    assert (∃ pool, write_pool_of (l ++ h) run pool ∧ Entry (Call.Begin pool) (Ok tx) ∈ l ++ h).
    { exists (write_pool live). split; [by apply write_pool_later|].
      apply elem_of_app. by left. }
    split; cbn; auto.
Qed.

Lemma wp_execute operation_id run live grant handle h :
  no_commit h →
  (dr_is_write run = true → allow_writes (dr_settings run) = true →
     write_authority h operation_id run ∧ write_pool_of h run (write_pool live)) →
  wp answer_ok (desktop_allowed operation_id run)
    (execute_classified live (dr_classification run) (sdp_sql (dr_payload run)) (dr_settings run)
       grant (Some {| cn_id := operation_id; cn_handle := handle |}))
    (λ r h', if dr_is_write run then write_outcome r h' else no_commit h') h.
Proof.
  intros Hn Hw. unfold execute_classified.
  destruct (dr_is_write run) eqn:Hwr; unfold dr_is_write in Hwr.
  - assert (wp answer_ok (desktop_allowed operation_id run)
      (check grant ← ok_or (Blocked "this statement requires an exact approved operation grant")
                       grant or id;
       check cancellation ← ok_or
         (Blocked "write execution requires an operation cancellation scope")
         (Some {| cn_id := operation_id; cn_handle := handle |}) or id;
       run_write live (sdp_sql (dr_payload run)) (dr_settings run) grant cancellation)%prog
      write_outcome h) as H.
    { wp_step; [|by left]. wp_step; [|by left]. apply wp_run_write; auto. }
    destruct (cl_kind (dr_classification run)); [done|exact H..].
  - destruct (cl_kind (dr_classification run)); [|done..].
    apply (wp_only reading); [by intros ? []| |].
    + apply only_try; [apply reading_run_read_registered|done].
    + intros r l Hl. by apply no_commit_reading.
Qed.

(** *** Settling *)

Lemma wp_finish id run target details h (Q : AppResult OperationRecord → history → Prop) :
  desktop_allowed id run h (Call.OperationFinish id target details) →
  (∀ r, settled (Entry (Call.OperationFinish id target details) r :: h) id →
     Q r (Entry (Call.OperationFinish id target details) r :: h)) →
  wp answer_ok (desktop_allowed id run) (operation_finish id target details) Q h.
Proof. intros Ha HQ. split; [done|]. intros r _. apply HQ. exists target, details, r. left. Qed.

Lemma wp_abandon id run error reason h (Q : unit → history → Prop) :
  ready_run h id run → claimed_in h id → no_commit h → (∀ h', settled h' id → Q tt h') →
  wp answer_ok (desktop_allowed id run) (abandon_run id run error reason) Q h.
Proof.
  intros Hr Hc Hn HQ. unfold abandon_run. wp_step.
  apply (wp_only quiet); [by intros; apply desktop_allowed_quiet|apply quiet_record_desktop_run|].
  intros _ l Hl. wp_step. apply wp_finish.
  - cbn. split_and!; [done..|by apply no_commit_quiet|by apply claimed_in_app|
      by apply ready_run_later].
  - intros r Hs. wp_step. by apply HQ.
Qed.

Lemma wp_record_after id run (Q : unit → history → Prop) record h :
  settled h id → (∀ h', settled h' id → Q tt h') →
  wp answer_ok (desktop_allowed id run) (record_desktop_run (dr_pin run) record) Q h.
Proof.
  intros Hs HQ. apply (wp_only quiet); [by intros; apply desktop_allowed_quiet|apply quiet_record_desktop_run|].
  intros [] l Hl. by apply HQ, settled_app.
Qed.

Lemma wp_settle id run executed h (Q : result DesktopSqlRunError ExecOutcome → history → Prop) :
  ready_run h id run → claimed_in h id →
  (if dr_is_write run then write_outcome executed h else no_commit h) →
  (∀ r h', settled h' id → Q r h') →
  wp answer_ok (desktop_allowed id run) (settle_run id run executed) Q h.
Proof.
  intros Hr Hc Hout HQ. unfold settle_run. destruct executed as [outcome|error]; cbv zeta.
  - wp_step. apply wp_finish.
    { cbn. split_and!; [done| |done|by destruct (dr_is_write run)|done|done].
      apply receipt_exact.
      - intros x Hx. destruct (eo_result outcome); [|done]. injection Hx as <-. apply wrap_i64_range.
      - intros x Hx. destruct (eo_result outcome), (eo_affected outcome); try done;
          injection Hx as <-; apply wrap_i64_range. }
    intros r Hs. destruct r as [op|e].
    + wp_step. apply (wp_mono _ _ _ (λ _ h', settled h' id)).
      * intros _ h' Hs'. wp_step. apply wp_record_after; [done|]. intros h2 Hs2. by apply HQ.
      * destruct (_ && _); [|done]. wp_step. wp_step; [done|]. by apply (settled_app [_]).
    + wp_step. destruct (dr_is_write run) eqn:Hw; apply wp_finish; cbn; rewrite ?Hw;
        try (intros r Hs'; by apply HQ);
        (split_and!; [done..| |by apply (claimed_in_app [_])|by apply (ready_run_later _ [_])]);
        [done|by constructor].
  - set (e := desktop_failure (dr_is_write run) error). wp_step.
    apply (wp_mono _ _ _ (λ _ h', settled h' id)).
    + intros _ h' Hs. wp_step. apply wp_record_after; [done|]. intros h2 Hs2. by apply HQ.
    + assert (is_outcome_unknown e = false → no_commit h) as Hn.
      { unfold e. destruct (dr_is_write run); [|done]. cbn in Hout. intros He.
        destruct Hout as [?|Hu]; [done|]. by rewrite Hu in He. }
      destruct (is_outcome_unknown e) eqn:He; [|destruct (is_cancellation error)];
        (apply wp_finish; [cbn; split_and!; auto|by intros r]).
Qed.

(** *** The whole run *)

Lemma live_sql_Ok l live : live_sql l = Ok live → l = LiveSql live.
Proof. destruct l; [by intros [= ->]|done]. Qed.

Lemma quiet_no_commit h : quiet_history h → no_commit h.
Proof. intros H. rewrite <-(app_nil_r h). apply no_commit_quiet; [done|constructor]. Qed.

Lemma wp_run_claimed id run handle h :
  ready_run h id run → quiet_history h →
  wp answer_ok (desktop_allowed id run)
    (run_claimed id run {| cn_id := id; cn_handle := handle |})
    (λ _ h', claimed_in h' id → settled h' id) h.
Proof.
  intros Hr Hq. pose proof (quiet_no_commit _ Hq) as Hn. unfold run_claimed.
  wp_step. wp_step; [by split|]. wp_step. destruct r as [claimed|e]; cycle 1.
  { intros Hc. apply claimed_in_cons in Hc; [|done]. by destruct (quiet_unclaimed h id Hq). }
  set (h1 := Entry _ _ :: h).
  assert (claimed_in h1 id) as Hcl by (exists claimed; left).
  assert (ready_run h1 id run) as Hrd1 by (by apply (ready_run_later _ [_])).
  assert (no_commit h1) as Hn1 by (by constructor).
  wp_step. wp_step; [done|]. wp_step. destruct r.
  - wp_step. apply wp_finish.
    { cbn. split_and!; [done..|by constructor|by apply (claimed_in_app [_])|by apply (ready_run_later _ [_])]. }
    intros r Hs. by destruct r; intros _.
  - set (h2 := Entry _ _ :: h1).
    assert (claimed_in h2 id) as Hcl2 by (by apply (claimed_in_app [_])).
    assert (ready_run h2 id run) as Hrd2 by (by apply (ready_run_later _ [_])).
    assert (no_commit h2) as Hn2 by (by constructor).
    clearbody h2. clear h1 Hcl Hrd1 Hn1 Hq Hn. wp_step.
    apply (wp_mono _ _ _ (λ r h', ∃ l, h' = l ++ h2 ∧ quiet_history l
      ∧ (r = Ok tt → dr_is_write run = true →
         ∃ entry, Entry (Call.AuditRecord (audit_attempt run)) (Ok entry) ∈ h'))).
    2: { unfold pre_record. destruct (dr_is_write run) eqn:Hw; [|exists []; split_and!; [done|constructor|done]].
         wp_step. wp_step; [done|]. wp_step. wp_step. eexists [_]. split_and!; [done|by repeat constructor|].
         intros Ho _. destruct r as [en|]; [|done]. exists en. left. }
    intros recorded h3 (l & -> & Hl & Haud).
    pose proof (claimed_in_app l _ _ Hcl2) as Hcl3.
    pose proof (ready_run_later _ l _ _ Hrd2) as Hrd3.
    pose proof (no_commit_quiet _ _ Hl Hn2) as Hn3.
    destruct recorded as [[]|refusal].
    + specialize (Haud eq_refl). wp_step.
      eapply wp_mono; [|apply wp_scope_opens; by intros; apply desktop_allowed_quiet].
      intros connected h4 (l4 & -> & Hl4 & Hconn).
      pose proof (claimed_in_app l4 _ _ Hcl3) as Hcl4.
      pose proof (ready_run_later _ l4 _ _ Hrd3) as Hrd4.
      pose proof (no_commit_quiet _ _ Hl4 Hn3) as Hn4.
      destruct connected as [lease|e].
      * destruct (live_sql (ls_live lease)) as [live|e] eqn:Hlive.
        -- wp_step.
           eapply wp_mono; [|apply wp_frame, wp_execute; [exact Hn4|]].
           ++ intros executed h5 [Hout [l5 ->]].
              apply wp_settle; [by apply ready_run_later|by apply claimed_in_app|done|by intros].
           ++ intros Hw Hal. destruct (Hconn lease eq_refl) as [[Hauth Hcur] Hopen].
              rewrite Hw in Hauth, Hopen.
              split; [|exists live; split; [|done]; by rewrite <-(live_sql_Ok _ _ Hlive)].
              split; try done. destruct (Haud Hw) as [en Hen]. exists en.
              apply elem_of_app. by right.
        -- wp_step. apply wp_abandon; [done..|]. intros h5 Hs. by wp_step.
      * wp_step. apply wp_abandon; [done..|]. intros h5 Hs. by wp_step.
    + wp_step. apply wp_finish; [cbn; split_and!; done|]. intros r Hs. by wp_step.
Qed.

(** What [run_desktop_sql] may call, with the run its checks determined. *)
Definition desktop_calls (id : Uuid) (h : history) (c : Call.t) : Prop :=
  quiet c = true ∨ ∃ run, desktop_allowed id run h c.

Lemma wp_run_desktop_sql id :
  wp answer_ok (desktop_calls id) (run_desktop_sql id)
    (λ _ h', claimed_in h' id → settled h' id) [].
Proof.
  unfold run_desktop_sql. wp_step.
  eapply wp_mono; [|apply (wp_only_frame quiet); [apply quiet_authorize_desktop_run|]].
  2: { apply wp_authorize. by left. }
  intros r h [Hr (l & -> & Hl)]. rewrite app_nil_r in *. destruct r as [run|e]; cbv beta iota.
  2: { intros Hc. by destruct (quiet_unclaimed l id). }
  unfold with_cancellation. wp_step. wp_step; [by left|]. wp_step. wp_step.
  eapply wp_mono; [|eapply wp_allowed_mono; [|apply wp_run_claimed]].
  - intros res h' Hs. wp_step. wp_step; [by left|]. wp_step. wp_step.
    intros Hc. apply claimed_in_cons in Hc; [|done]. by apply (settled_app [_]), Hs.
  - intros h' c Hc. right. by exists run.
  - by apply (ready_run_later _ [_]).
  - by constructor.
Qed.
End claimed.
