(* ===== verification/QuerySafety.v ===== *)
(** * Desktop SQL runs against a live world

    The theorems of [run_desktop_sql] in a world that other tasks change between
    its calls: what is true of the stored operation, its approvals and the audit
    log when a statement reaches the target database, and how the operation is
    settled afterwards. *)

From S2P Require Export QueryTheorems.

Section safety.
Context {P : Platform} {L : PlatformLaws P} {SD : Serde} {SL : SerdeLaws SD}
  {D : ErrorDisplay} {parser : SqlParser}.

Lemma desktop_calls_wf id h c : desktop_calls id h c → call_wf c.
Proof. destruct c; cbn; try done; intros [?|(run & H)]; try done. cbn in H. tauto. Qed.

(** Where a run of [run_desktop_sql] stands before its next call. *)
Lemma run_desktop_point self id w w' h c k :
  safe (w_ops w) →
  reaches others (respond self) (run_desktop_sql id) w [] (Vis c k) w' h →
  world_ok w' h ∧ desktop_calls id h c.
Proof.
  intros Hs Hr. pose proof (wp_run_desktop_sql id) as Hwp. split.
  - eapply world_ok_reaches; [apply desktop_calls_wf|exact Hr|exact Hwp|exact Hs].
  - eapply reaches_wp in Hwp; [|apply respond_answer_ok|exact Hr]. by destruct Hwp.
Qed.

(** What the stored tables of [w] hold for a write that may run: [run] is what
    the checks read, [op] the stored operation. *)
Record write_permit (w : World) (id : Uuid) (op : OperationRecord) (run : DesktopRun) : Prop := {
  permit_stored : get id (w_ops w) = Ok op;
  permit_digest : canonical_hash (op_payload op) = Ok (op_payload_hash op);
  permit_payload : desktop_payload_from_value (op_payload op) = Some (dr_payload run);
  permit_mutates : OperationKind.may_mutate_target (op_kind op) = true;
  permit_classified : ∃ c, classify (sdp_sql (dr_payload run))
      (cp_engine (pc_profile (dr_pin run))) = Ok c ∧ op_kind op = operation_kind (cl_kind c);
  permit_approved : approval_of w op;
  permit_scope : ensure_operation_scope op (dr_pin run) = Ok tt;
  permit_policy : ∃ policy, capture_policy (dr_pin run) (dr_settings run) = Ok policy
    ∧ cop_revision policy = op_policy_revision op;
  permit_enabled : allow_writes (dr_settings run) = true;
  permit_granted : local_authority (dr_pin run) ConnectionAccess.Write = Ok tt;
  permit_audited : audited w (audit_attempt run);
}.

Lemma approval_of_lifecycle w op s a b c :
  approval_of w op ↔ approval_of w (with_lifecycle op s a b c).
Proof. done. Qed.

Lemma write_authority_permit w h id run :
  world_ok w h → write_authority h id run → ∃ op, write_permit w id op run.
Proof.
  intros [Hs Hf] [Hready Hw Hen [claimed Hcl] [entry Haud] Hgr _].
  pose proof (Hf _ (rr_planned _ _ _ Hready)) as Hplanned.
  pose proof (Hf _ Hcl) as Hclaimed. pose proof (Hf _ Haud) as Haudited. cbn in *.
  destruct (Hplanned _ eq_refl) as [Hid (op & Hget & Hop)].
  destruct (Hclaimed _ eq_refl) as [Hcid (op' & Hget' & Hop') _ _ Happ].
  rewrite Hid in Hget. rewrite Hcid, Hget in Hget'. injection Hget' as <-.
  destruct Hready as [_ _ _ _ Hpay Hscope (policy & Hpol & Hrev) Hclass Hkind _ _].
  assert (op_kind op = operation_kind (cl_kind (dr_classification run))) as Hk
    by (rewrite Hop; exact Hkind).
  assert (OperationKind.may_mutate_target (op_kind op) = true) as Hmut.
  { rewrite Hk. unfold dr_is_write in Hw. by destruct (cl_kind _). }
  exists op. split.
  - done.
  - destruct (get_stored _ _ _ (safe_Inv _ Hs) Hget) as (r & t & _ & Hst & _).
    by eapply record_payload_hash, st_decode.
  - by rewrite Hop.
  - done.
  - by exists (dr_classification run).
  - rewrite Hop'. apply approval_of_lifecycle, Happ. by rewrite Hop' in Hmut.
  - by rewrite Hop.
  - exists policy. split; [done|]. by rewrite Hop.
  - done.
  - done.
  - by apply (Haudited entry).
Qed.
End safety.

(** C1. A statement reaches a write transaction only as the stored, approved and
    audited operation says: whatever other tasks do meanwhile, when
    [run_desktop_sql] is about to begin a transaction, execute in it, or commit
    it, the operation's stored payload decodes to the SQL that is sent and has the
    approved hash, its kind is the one the SQL is classified as, an approval of
    that hash and policy revision is stored, the policy captured from the
    connection and the safety settings this run itself read ([ready_run]: the
    answers of its [PinForRead] and [GetSafety] calls) still has that revision,
    writes are enabled in those settings, the access level of that connection
    grants writing, it was confirmed current, the attempt is in the audit log, and
    the transaction is one the run began on the write pool opened for writing on
    that very connection. *)
Theorem desktop_write_authorized {P : Platform} {L : PlatformLaws P} {SD : Serde}
    {SL : SerdeLaws SD} {D : ErrorDisplay} {parser : SqlParser} self id w w' h c k :
  safe (w_ops w) →
  reaches others (respond self) (run_desktop_sql id) w [] (Vis c k) w' h →
  in_transaction c = true →
  ∃ op run, write_permit w' id op run
    ∧ write_authority h id run
    ∧ own_transaction h run c
    ∧ ∀ tx sql, c = Call.Execute tx sql → sql = sdp_sql (dr_payload run).
Proof.
  intros Hs Hr Hc. destruct (run_desktop_point _ _ _ _ _ _ _ Hs Hr) as [Hw [Hq|(run & Hall)]].
  { by rewrite (quiet_not_transaction _ Hc) in Hq. }
  assert (write_authority h id run ∧ own_transaction h run c ∧ ∀ tx sql, c = Call.Execute tx sql →
    sql = sdp_sql (dr_payload run)) as (Ha & Htx & Hsql).
  { destruct c; try done; cbn in Hall; try (destruct Hall as [? ?]; by split_and!).
    destruct Hall as (? & ? & ->). split_and!; [done..|]. by intros ? ? [= _ <-]. }
  destruct (write_authority_permit _ _ _ _ Hw Ha) as [op Hop]. exists op, run. by split_and!.
Qed.

(** C6. A claimed run never leaves its operation open: when [run_desktop_sql]
    returns after a successful claim, it has sent a terminal verdict for the
    operation, and if the store accepted it the operation is in that state. *)
Theorem desktop_run_settles {P : Platform} {L : PlatformLaws P} {SD : Serde} {SL : SerdeLaws SD}
    {D : ErrorDisplay} {parser : SqlParser} self id w w' h r claimed :
  safe (w_ops w) →
  reaches others (respond self) (run_desktop_sql id) w [] (Ret r) w' h →
  Entry (Call.OperationClaim id) (Ok claimed) ∈ h →
  ∃ target details answer, Entry (Call.OperationFinish id target details) answer ∈ h
    ∧ ∀ op, answer = Ok op → finished_as w' id target.
Proof.
  intros Hs Hr Hcl. pose proof (wp_run_desktop_sql id) as Hwp.
  assert (world_ok w' h) as [_ Hf].
  { eapply world_ok_reaches; [apply desktop_calls_wf|exact Hr|exact Hwp|exact Hs]. }
  eapply reaches_wp in Hwp; [|apply respond_answer_ok|exact Hr].
  destruct Hwp as (target & details & answer & Hin); [by exists claimed|].
  exists target, details, answer. split; [done|]. exact (Hf _ Hin).
Qed.

(** C5. The verdict is honest: [run_desktop_sql] finishes only the operation it
    claimed, says [Failed] or [Cancelled] only when no commit was sent, and
    [Succeeded] for a write only after the database acknowledged a commit; a
    commit whose acknowledgement is missing is never reported as either. *)
Theorem desktop_verdict_honest {P : Platform} {L : PlatformLaws P} {SD : Serde}
    {SL : SerdeLaws SD} {D : ErrorDisplay} {parser : SqlParser} self id w w' h id' target details k :
  safe (w_ops w) →
  reaches others (respond self) (run_desktop_sql id) w []
    (Vis (Call.OperationFinish id' target details) k) w' h →
  id' = id ∧ claimed_in h id ∧ OperationState.is_terminal target = true
  ∧ ∃ run, ready_run h id run ∧ honest (dr_is_write run) h target.
Proof.
  intros Hs Hr. destruct (run_desktop_point _ _ _ _ _ _ _ Hs Hr) as [_ [Hq|(run & Hall)]]; [done|].
  destruct Hall as (-> & _ & Ht & Hh & Hcl & Hrd). split_and!; try done. by exists run.
Qed.

(** ** A concrete run *)

Module RunSample.
#[export] Instance display : ErrorDisplay := {|
  sqlx_display _ := "driver"; serialization_display := "json" |}.
#[export] Instance parser : SqlParser := {|
  parse_sql _ sql :=
    if (sql =? "SELECT 1")%string then Ok [StQuery (MkQuery None (SetSelect None [] []) [] [])]
    else Ok [StDelete [] (Some "a = 1")] |}.

Definition settings : SafetySettings :=
  {| require_approval := true; allow_writes := true; wrap_writes_in_tx := true;
     explain_preview := true; auto_run_reads := true; max_rows := 1000;
     exec_preview_row_limit := 50000 |}.
Definition pin : @PinnedConnection Reference.platform := ServiceSample.pin.
Definition policy : CapturedOperationPolicy :=
  match capture_policy pin settings with
  | Ok p => p
  | Err _ => {| cop_snapshot := VNull; cop_revision := "" |}
  end.
Definition sql : string := "DELETE FROM t WHERE a = 1".

Definition operation : NewOperation := {|
  new_id := Sample.uid 1; new_workspace_id := Sample.uid 2; new_account_scope := "a";
  new_connection_id := Sample.uid 3; new_connection_revision := 1;
  new_terminal_session_id := None; new_actor := actor_for_pin pin "manual";
  new_kind := OperationKind.WriteSql; new_payload_schema_version := 1;
  new_payload := desktop_payload_to_value {| sdp_sql := sql; sdp_history_origin := "manual" |};
  new_schema_fingerprint := None; new_risk_level := OperationRiskLevel.Medium;
  new_preview := VNull; new_policy_snapshot := cop_snapshot policy;
  new_policy_revision := cop_revision policy; new_single_use := true;
  new_idempotency_key := "k"; new_expires_at := Some 1000 |}.
Lemma run_operation_ok : new_operation_ok operation.
Proof. repeat split; by vm_compute. Qed.

Definition request : @ExactApprovalRequest Reference.platform := {|
  ear_operation_id := Sample.uid 1;
  ear_expected_payload_hash := match canonical_hash (new_payload operation) with
                               | Ok h => h | Err _ => "" end;
  ear_approver := cmd_approver Sample.approval;
  ear_current_policy_revision := cop_revision policy; ear_reason := None |}.
Definition world : World :=
  {| w_ops := (approve_exact (Sample.uid 13) (Sample.uid 14) 20 RuntimeSample.self
       RuntimeSample.authority request
       (plan (Sample.uid 11) (Sample.uid 12) 10 11 (λ x, x) RuntimeSample.self operation
          ApprovalRequired empty_db).2).2;
     w_audit := [] |}.
Lemma world_safe : safe (w_ops world).
Proof.
  eapply activity_safe; [|apply safe_empty].
  apply activity_plan_approve; [by apply (bool_decide_unpack _)..|apply run_operation_ok|].
  by apply (bool_decide_unpack _).
Qed.

(** One way the world answers: every call succeeds, 3 rows are deleted. *)
Definition pool : DbPool := {| pool_engine := PoolRef.Postgres; pool_id := 0 |}.
Definition stored {A} (w : World) (m : effect LocalDb A) : AppResult A * World :=
  (m.1, {| w_ops := m.2; w_audit := w_audit w |}).
Definition oracle (c : Call.t) (w : World) : Call.res c * World :=
  match c return Call.res c * World with
  | Call.OperationGet id => (get id (w_ops w), w)
  | Call.OperationPlan _ _ => (Err (Db PoolTimedOut), w)
  | Call.OperationClaim id => stored w (claim (Sample.uid 21) 30 RuntimeSample.self id (w_ops w))
  | Call.OperationFinish id target details =>
      stored w (finish (Sample.uid 22) 40 RuntimeSample.self id target details (w_ops w))
  | Call.PinForRead _ | Call.PinForView _ => (Ok pin, w)
  | Call.IsPinCurrent _ => (Ok true, w)
  | Call.GetSafety _ => (Ok settings, w)
  | Call.InsertHistory _ _ | Call.ClearSchemaCache _ => (Ok tt, w)
  | Call.AuditRecord args =>
      let '(entry, rows) := record (Sample.uid 23) (audit_fields 35 args) (w_audit w) in
      (Ok entry, {| w_ops := w_ops w; w_audit := rows |})
  | Call.AuthorizeConnection _ _ _ _ => (Ok 1, w)
  | Call.OpenLive _ _ => (Ok (LiveSql {| read_pool := pool; write_pool := pool; skip_fk_metadata := false |}), w)
  | Call.Register _ => (0%nat, w)
  | Call.IsCancelled _ => (false, w)
  | Call.DropHandle _ => (tt, w)
  | Call.Poll _ => (Running, w)
  | Call.FetchRows _ _ _ => (Ok ([], [], false), w)
  | Call.Describe _ _ => (None, w)
  | Call.ReadOnlyRun _ _ _ =>
      (Ok {| qr_columns := ["1"]; qr_rows := [[value_of_u64 1]]; qr_row_count := 1;
             qr_truncated := false; qr_duration_ms := 5 |}, w)
  | Call.ExplainOne _ _ => (None, w)
  | Call.ExplainAll _ _ => (None, w)
  | Call.Health _ _ =>
      ({| hs_level := "normal"; hs_coverage := "full"; hs_total_connections := None;
          hs_max_connections := None; hs_connection_usage_percent := None;
          hs_active_queries := None; hs_long_running_queries := None; hs_lock_waits := None;
          hs_replication_lag_seconds := None; hs_reasons := []; hs_captured_at := 0 |}, w)
  | Call.StatusQuery _ =>
      (Some (Ok {| sr_role_available := Ok true; sr_role_granted := Ok true;
                   sr_current_user := Ok "me"; sr_can_manage := Ok true |}), w)
  | Call.ExecutePool _ _ => (Some (Ok tt), w)
  | Call.DocumentRun _ _ _ _ =>
      (Ok {| dp_documents := []; dp_doc_count := 0; dp_truncated := false; dp_duration_ms := 5 |}, w)
  | Call.Begin pool => (Ok {| tx_pool := pool; tx_id := 0 |}, w)
  | Call.Execute _ _ => (Ok 3, w)
  | Call.Commit _ | Call.Rollback _ => (Ok tt, w)
  | Call.NewUuid => (Sample.uid 24, w)
  | Call.Now => (36, w)
  | Call.ElapsedMillis => (5, w)
  end.

Lemma oracle_responds c w :
  respond RuntimeSample.self c w (oracle c w).1 (oracle c w).2.
Proof.
  destruct c; cbn [oracle respond];
    try (split; [done|cbn; try done; by intros ? [= <-]]).
  - split; [done|by left].
  - left. split; [done|by eexists].
  - right. exists (Sample.uid 21), 30. split; [by apply (bool_decide_unpack _)|]. done.
  - right. exists (Sample.uid 22), 40. split; [by apply (bool_decide_unpack _)|]. done.
  - right. exists (Sample.uid 23), 35. destruct (record _ _ _) as [entry rows].
    split; [by apply (bool_decide_unpack _)|]. done.
Qed.

Lemma world_still (w : World) : others w w.
Proof. split; [constructor|done]. Qed.

Definition is_execute (c : Call.t) : bool := match c with Call.Execute _ _ => true | _ => false end.
Definition is_finish (c : Call.t) : bool :=
  match c with Call.OperationFinish _ _ _ => true | _ => false end.
Definition is_plan (c : Call.t) : bool :=
  match c with Call.OperationPlan _ _ => true | _ => false end.
Definition claims (id : Uuid) (e : entry Call.res) : bool :=
  match e with
  | Entry c r =>
      match c return Call.res c → bool with
      | Call.OperationClaim id' => λ r, is_ok r && bool_decide (id' = id)
      | _ => λ _, false
      end r
  end.
End RunSample.

#[export] Existing Instance RunSample.display.
#[export] Existing Instance RunSample.parser.

Lemma desktop_write_authorized_witness :
  ∃ w' h op run tx k, reaches others (respond RuntimeSample.self)
      (run_desktop_sql (Sample.uid 1)) RunSample.world []
      (Vis (Call.Execute tx RunSample.sql) k) w' h
    ∧ write_permit w' (Sample.uid 1) op run ∧ write_authority h (Sample.uid 1) run
    ∧ (∃ pool, write_pool_of h run pool ∧ Entry (Call.Begin pool) (Ok tx) ∈ h)
    ∧ RunSample.sql = sdp_sql (dr_payload run).
Proof.
  pose proof RunSample.world_safe as Hs.
  assert (match exec_until RunSample.oracle RunSample.is_execute
            (run_desktop_sql (Sample.uid 1)) RunSample.world [] with
          | Some (Vis (Call.Execute _ sql) _, _, _) => (sql =? RunSample.sql)%string
          | _ => false
          end = true) as Hc by (vm_compute; reflexivity).
  revert Hs Hc. generalize RunSample.world. intros w Hs Hc.
  destruct (exec_until _ _ _ w _) as [[[q w'] h]|] eqn:He; [|done].
  destruct q as [|c k]; [done|]. destruct c; try done. apply String.eqb_eq in Hc as ->.
  apply (exec_until_reaches others (respond RuntimeSample.self)) in He;
    [|apply RunSample.world_still|apply RunSample.oracle_responds].
  destruct (desktop_write_authorized RuntimeSample.self (Sample.uid 1) w w' h _ k Hs He eq_refl)
    as (op & run & Hp & Ha & Htx & Hsql).
  exists w', h, op, run, tx, k. split_and!; [exact He|exact Hp|exact Ha|exact Htx|]. by eapply Hsql.
Defined.

(** The run above ends with the operation settled. *)
Lemma desktop_run_settles_witness :
  ∃ w' h r target details answer, reaches others (respond RuntimeSample.self)
      (run_desktop_sql (Sample.uid 1)) RunSample.world [] (Ret r) w' h
    ∧ Entry (Call.OperationFinish (Sample.uid 1) target details) answer ∈ h
    ∧ ∀ op, answer = Ok op → finished_as w' (Sample.uid 1) target.
Proof.
  pose proof RunSample.world_safe as Hs.
  assert (existsb (RunSample.claims (Sample.uid 1))
            (exec RunSample.oracle (run_desktop_sql (Sample.uid 1)) RunSample.world []).2 = true)
    as Hc by (vm_compute; reflexivity).
  revert Hs Hc. generalize RunSample.world. intros w Hs Hc.
  destruct (exec _ _ w _) as [[r w'] h] eqn:He. cbn [snd] in Hc.
  apply existsb_exists in Hc as ([c a] & Hin & Hcl). apply list_elem_of_In in Hin.
  apply (exec_reaches others (respond RuntimeSample.self)) in He;
    [|apply RunSample.world_still|apply RunSample.oracle_responds].
  destruct c; try done. destruct a as [claimed|]; [|done]. apply bool_decide_eq_true in Hcl as ->.
  destruct (desktop_run_settles RuntimeSample.self (Sample.uid 1) w w' h r claimed Hs He Hin)
    as (target & details & answer & H1 & H2).
  exists w', h, r, target, details, answer. split_and!; [exact He|exact H1|exact H2].
Defined.

(** It is settled as succeeded, after the commit. *)
Lemma desktop_verdict_honest_witness :
  ∃ w' h details k run, reaches others (respond RuntimeSample.self)
      (run_desktop_sql (Sample.uid 1)) RunSample.world []
      (Vis (Call.OperationFinish (Sample.uid 1) OperationState.Succeeded details) k) w' h
    ∧ ready_run h (Sample.uid 1) run ∧ honest (dr_is_write run) h OperationState.Succeeded.
Proof.
  pose proof RunSample.world_safe as Hs.
  assert (match exec_until RunSample.oracle RunSample.is_finish
            (run_desktop_sql (Sample.uid 1)) RunSample.world [] with
          | Some (Vis (Call.OperationFinish _ target _) _, _, _) =>
              bool_decide (target = OperationState.Succeeded)
          | _ => false
          end = true) as Hc by (vm_compute; reflexivity).
  revert Hs Hc. generalize RunSample.world. intros w Hs Hc.
  destruct (exec_until _ _ _ w _) as [[[q w'] h]|] eqn:He; [|done].
  destruct q as [|c k]; [done|]. destruct c; try done. apply bool_decide_eq_true in Hc as ->.
  apply (exec_until_reaches others (respond RuntimeSample.self)) in He;
    [|apply RunSample.world_still|apply RunSample.oracle_responds].
  destruct (desktop_verdict_honest RuntimeSample.self (Sample.uid 1) w w' h id
    OperationState.Succeeded details k Hs He) as (Hid & _ & _ & run & Hrd & Hh).
  subst id. exists w', h, details, k, run. split_and!; [exact He|exact Hrd|exact Hh].
Defined.

(** ** Proposals of SQL

    [propose_sql] asks the Operation Runtime for an operation of exactly the SQL
    it classified, behind an approval whenever that SQL is not a read. *)

Section proposals.
Context {P : Platform} {SD : Serde} {D : ErrorDisplay} {parser : SqlParser}.

(** The pin and settings the proposal was made under. *)
Record proposal_facts (request : DesktopSqlProposalRequest) (terminal : option TerminalAuthority)
  (h : history) (pin : PinnedConnection) (settings : SafetySettings) (c : Classification)
  : Prop := {
  pf_pin : Entry (Call.PinForView (dsp_connection_id request)) (Ok pin) ∈ h;
  pf_settings : Entry (Call.GetSafety (pc_connection_id pin)) (Ok settings) ∈ h;
  pf_terminal : match terminal with Some a => ensure_pin a pin = Ok tt | None => True end;
  pf_classified : classify (dsp_sql request) (cp_engine (pc_profile pin)) = Ok c;
  pf_gate reason : Safety.decide settings c ≠ Block reason;
  pf_access : is_read (cl_kind c) = false →
    WorkspaceConnectionAccess.can_write (cp_workspace_access (pc_profile pin)) = true;
}.

Record proposed (request : DesktopSqlProposalRequest) (terminal : option TerminalAuthority)
  (h : history) (o : NewOperation) (d : OperationPlanDisposition) : Prop := {
  pp_facts : ∃ pin settings c policy, proposal_facts request terminal h pin settings c
    ∧ new_kind o = operation_kind (cl_kind c)
    ∧ new_risk_level o = operation_risk c
    ∧ new_connection_id o = pc_connection_id pin
    ∧ new_connection_revision o = pc_connection_revision pin
    ∧ new_workspace_id o = sc_workspace_id (pc_scope pin)
    ∧ capture_policy pin settings = Ok policy ∧ new_policy_revision o = cop_revision policy;
  pp_payload : ∃ origin, new_payload o
    = desktop_payload_to_value {| sdp_sql := dsp_sql request; sdp_history_origin := origin |};
  pp_approval : d = if OperationKind.may_mutate_target (new_kind o) then ApprovalRequired
                    else Runtime.Ready;
  pp_session : new_terminal_session_id o = ta_terminal_session_id <$> terminal;
  pp_single_use : new_single_use o = true;
}.

Definition proposal_allowed (request : DesktopSqlProposalRequest)
  (terminal : option TerminalAuthority) (h : history) (c : Call.t) : Prop :=
  match c with
  | Call.OperationPlan o d => proposed request terminal h o d
  | c => quiet c = true
  end.

Lemma operation_kind_mutates k :
  OperationKind.may_mutate_target (operation_kind k) = negb (is_read k).
Proof. by destruct k. Qed.

(** What a preview shows of the pin it returns. *)
Definition viewed (id : Uuid) (terminal : option TerminalAuthority) (h : history)
  (r : result DesktopSqlInspectionError (PreviewReport * PinnedConnection)) : Prop :=
  ∀ report pin, r = Ok (report, pin) →
    Entry (Call.PinForView id) (Ok pin) ∈ h
    ∧ match terminal with Some a => ensure_pin a pin = Ok tt | None => True end.

Lemma viewed_app l id terminal h r : viewed id terminal h r → viewed id terminal (l ++ h) r.
Proof. intros H report pin Hr. destruct (H _ _ Hr). split; [apply elem_of_app; by right|done]. Qed.

Lemma wp_preview_sql allowed request terminal :
  (∀ h c, quiet c = true → allowed h c) →
  wp answer_ok allowed (preview_sql request terminal)
    (λ r h, viewed (dpr_connection_id request) terminal h r) [].
Proof.
  intros Ha. unfold preview_sql. wp_step. wp_step; [by apply Ha|]. wp_step.
  destruct r as [pin|e]; [|done]. wp_step; [|done].
  set (h := [Entry (Call.PinForView _) _]).
  assert (∀ l report, viewed (dpr_connection_id request) terminal (l ++ h) (Ok (report, pin))) as Hok.
  { intros l report. apply viewed_app. intros ? ? [= _ <-]. split; [left|].
    by destruct terminal, x. }
  clearbody h. wp_step. wp_step; [by apply Ha|]. wp_step. destruct r as [settings|e]; [|done].
  set (h2 := _ :: h). assert (∀ l report, viewed (dpr_connection_id request) terminal (l ++ h2)
    (Ok (report, pin))) as Hok2.
  { intros l report. unfold h2. rewrite cons_middle, app_assoc. apply Hok. }
  clearbody h2. clear Hok. wp_step; [|done].
  wp_if H1; [done|]. wp_if H2; [apply (Hok2 [])|]. wp_if H3; [apply (Hok2 [])|].
  assert (wp answer_ok allowed
    (try lease ← scope_connect pin ConnectionAccess.Read or InspectionApplication;
     check live ← live_sql (ls_live lease) or InspectionApplication;
     try report ← preview (read_pool live) (dpr_sql request) x0 settings
       or InspectionApplication;
     Ret (Ok (report, pin)))%prog
    (λ r h, viewed (dpr_connection_id request) terminal h r) h2) as Hlive.
  { wp_step. eapply wp_mono; [|by apply wp_scope_connect].
    intros r h3 (l1 & -> & _ & _). destruct r as [lease|e]; [|done]. wp_step; [|done].
    wp_step. apply (wp_only quiet); [done|apply quiet_preview|]. intros r l2 _.
    destruct r as [report|e]; [|done]. wp_step. rewrite app_assoc. apply Hok2. }
  destruct (cl_kind x0); [exact Hlive|exact Hlive|apply (Hok2 [])..].
Qed.

Lemma proposal_facts_app l request terminal h pin settings c :
  proposal_facts request terminal h pin settings c →
  proposal_facts request terminal (l ++ h) pin settings c.
Proof. intros []. split; try done; apply elem_of_app; by right. Qed.

Lemma wp_propose_sql request terminal :
  wp answer_ok (proposal_allowed request terminal) (propose_sql request terminal) (λ _ _, True) [].
Proof.
  assert (∀ h c, quiet c = true → proposal_allowed request terminal h c) as Ha by (by intros h []).
  unfold propose_sql. wp_step. eapply wp_mono; [|by apply wp_preview_sql].
  intros r h Hpre. destruct r as [[report pin]|e]; [|done].
  destruct (Hpre report pin eq_refl) as [Hpin Hterm]. cbn [dpr_connection_id] in Hpin. clear Hpre.
  wp_step. wp_step; [done|]. wp_step. destruct r as [settings|e]; [|done].
  wp_step; [|done]. cbv zeta. wp_if Hw; [done|].
  set (h1 := Entry (Call.GetSafety _) _ :: h).
  assert ((∀ reason, Safety.decide settings x ≠ Block reason) →
    proposal_facts request terminal h1 pin settings x) as Hfacts.
  { intros Hd. split; try done; [by right|left|].
    intros Hnr. rewrite Hnr in Hw. by destruct (WorkspaceConnectionAccess.can_write _). }
  clearbody h1. clear Hpin Hterm.
  destruct (Safety.decide settings x) as [| |reason]; [| |done];
    (specialize (Hfacts ltac:(done));
     wp_step; [|done]; wp_step; wp_step; [done|]; wp_step; wp_step; wp_step; [done|]; wp_step;
     wp_step; wp_step; [|wp_step; lazymatch goal with |- match ?a with _ => _ end =>
                          destruct a; exact I end];
     split; cbn; [exists pin, settings, x, x0; split_and!; try done|by eexists|
                  rewrite operation_kind_mutates; by destruct (is_read _)|done|done];
     by apply (proposal_facts_app [_; _])).
Qed.
End proposals.

(** C7. A mutation is only ever proposed behind an approval: whatever its answers,
    [propose_sql] makes lookups, EXPLAIN previews and one plan, and the plan is of
    exactly the request's SQL, as the kind and risk it is classified with, under
    the policy captured from the pinned connection and its settings, in the
    requesting Terminal's session; it needs an approval exactly when its kind may
    mutate the target, and then the access level grants writing and the gate does
    not refuse it. *)
Theorem proposal_needs_approval {P : Platform} {SD : Serde} {D : ErrorDisplay}
    {parser : SqlParser} self request terminal w w' h c k :
  reaches others (respond self) (propose_sql request terminal) w [] (Vis c k) w' h →
  quiet c = true
  ∨ ∃ o d, c = Call.OperationPlan o d ∧ proposed request terminal h o d
      ∧ (OperationKind.may_mutate_target (new_kind o) = true →
         d = ApprovalRequired ∧ ∃ pin settings cl,
           proposal_facts request terminal h pin settings cl
           ∧ allow_writes settings = true
           ∧ WorkspaceConnectionAccess.can_write (cp_workspace_access (pc_profile pin)) = true).
Proof.
  intros Hr. pose proof (wp_propose_sql request terminal) as Hwp.
  eapply reaches_wp in Hwp; [|apply respond_answer_ok|exact Hr]. destruct Hwp as [Ha _].
  destruct c; try (by left). right. exists operation, disposition. split_and!; [done|done|].
  intros Hm. cbn in Ha. rewrite (pp_approval _ _ _ _ _ Ha), Hm. split; [done|].
  destruct (pp_facts _ _ _ _ _ Ha) as (pin & settings & cl & policy & Hf & Hk & _).
  rewrite Hk, operation_kind_mutates in Hm. apply negb_true_iff in Hm.
  exists pin, settings, cl. split_and!; [done| |by apply Hf].
  pose proof (pf_gate _ _ _ _ _ _ Hf) as Hg. unfold Safety.decide in Hg.
  destruct (1 <? _); [by destruct (Hg _ eq_refl)|].
  destruct (cl_kind cl), (allow_writes settings); try done; by destruct (Hg _ eq_refl).
Qed.

(** The DELETE of the sample is proposed behind an approval. *)
Lemma proposal_needs_approval_witness :
  ∃ w' h o d k, reaches others (respond RuntimeSample.self)
      (propose_sql {| dsp_connection_id := Sample.uid 3; dsp_sql := RunSample.sql;
         dsp_origin := None |} None) RunSample.world [] (Vis (Call.OperationPlan o d) k) w' h
    ∧ new_kind o = OperationKind.WriteSql ∧ d = ApprovalRequired.
Proof.
  set (request := Build_DesktopSqlProposalRequest _ _ _).
  assert (match exec_until RunSample.oracle RunSample.is_plan (propose_sql request None)
            RunSample.world [] with
          | Some (Vis (Call.OperationPlan o _) _, _, _) =>
              bool_decide (new_kind o = OperationKind.WriteSql)
          | _ => false
          end = true) as Hc by (vm_compute; reflexivity).
  revert Hc. generalize RunSample.world. intros w Hc.
  destruct (exec_until _ _ _ w _) as [[[q w'] h]|] eqn:He; [|done].
  destruct q as [|c k]; [done|]. destruct c; try done. apply bool_decide_eq_true in Hc.
  apply (exec_until_reaches others (respond RuntimeSample.self)) in He;
    [|apply RunSample.world_still|apply RunSample.oracle_responds].
  destruct (proposal_needs_approval RuntimeSample.self request None w w' h _ k He)
    as [Hq|(o & d & Heq & _ & Hm)]; [done|]. injection Heq as <- <-.
  destruct Hm as [-> _]; [by rewrite Hc|].
  exists w', h, operation, ApprovalRequired, k. split_and!; [exact He|exact Hc|done].
Defined.
