(* ===== verification/MonitoringService.v ===== *)
(** * The monitoring service (src-tauri/src/services/monitoring_service.rs,
    src-tauri/src/monitoring/mod.rs)

    The monitoring status of a connection and the grant or withdrawal of
    PostgreSQL's pg_monitor role: two fixed statements, proposed, approved, claimed
    and executed as operations of the ledger.  [run_postgres_role] is cut where it
    changes phase: [authorize_role_change] checks, [run_role_claimed] claims,
    audits and connects, [change_role] executes and settles. *)

From S2P Require Export QueryService.

(** ** Data *)

(** model.rs *)
Record MonitoringStatus := {
  ms_engine : Engine.t; ms_coverage : string; ms_role_available : bool; ms_role_granted : bool;
  ms_current_user : option string; ms_can_manage : bool; ms_note : string;
}.

Section types.
Context {P : Platform}.

Record MonitoringProposalRequest := { mpr_connection_id : Uuid; mpr_enabled : bool }.
Record MonitoringProposalReceipt := {
  mpc_operation_id : Uuid; mpc_payload_hash : string; mpc_state : OperationState.t;
  mpc_enabled : bool; mpc_sql : string; mpc_confirmation_phrase : option string;
  mpc_expires_at : DateTime;
}.

Record StoredMonitoringPayload := { smp_enabled : bool; smp_sql : string }.
Definition monitoring_payload_to_value (p : StoredMonitoringPayload) : Value :=
  VObject [("enabled", VBool (smp_enabled p)); ("sql", VString (smp_sql p))].
Definition monitoring_payload_from_value : Value → option StoredMonitoringPayload :=
  de_struct ["enabled"; "sql"] (λ field,
    enabled ← required de_bool (field "enabled");
    sql ← required de_string (field "sql");
    Some {| smp_enabled := enabled; smp_sql := sql |}).

(** A failure that keeps the operation scope or the lease alive carries only its
    error. *)
Inductive MonitoringServiceError :=
| MonitoringApplication (error : AppError)
| MonitoringScoped (error : AppError)
| MonitoringExecution (error : AppError).
Definition monitoring_into_error (self : MonitoringServiceError) : AppError :=
  match self with
  | MonitoringApplication error | MonitoringScoped error | MonitoringExecution error => error
  end.

Definition monitoring_role_sql (enabled : bool) : string :=
  if enabled then "GRANT pg_monitor TO CURRENT_USER" else "REVOKE pg_monitor FROM CURRENT_USER".

Record MonitoringRunRecord := {
  mrr_sql : string; mrr_status : string; mrr_error : option string; mrr_approved_by : option string;
}.
End types.

(** ** monitoring/mod.rs *)

Section monitoring.
Context {P : Platform} {SD : Serde} {C : ChronoSerde} {D : ErrorDisplay} {parser : SqlParser}.
Local Open Scope prog_scope.

Definition basic_status (engine : Engine.t) (note : string) : MonitoringStatus := {|
  ms_engine := engine; ms_coverage := "basic"; ms_role_available := false;
  ms_role_granted := false; ms_current_user := None; ms_can_manage := false; ms_note := note |}.

Definition role_note (available granted : bool) : string :=
  if granted then "pg_monitor is enabled; MCP planning can see aggregate server activity."
  else if available then "Only limited activity is visible until pg_monitor is granted."
  else "This PostgreSQL server does not expose the pg_monitor predefined role.".

Definition monitoring_status (live : LiveConnection) (engine : Engine.t)
  : program (AppResult MonitoringStatus) :=
  match engine, pool_engine (read_pool live) with
  | Engine.Postgres, PoolRef.Postgres =>
      probed ← status_query (read_pool live);
      check fetched ← ok_or (Safety "monitoring status check timed out") probed or id;
      check row ← fetched or Db;
      check available ← sr_role_available row or Db;
      check granted ← sr_role_granted row or Db;
      check current_user ← sr_current_user row or Db;
      check can_manage ← sr_can_manage row or Db;
      Ret (Ok {| ms_engine := engine; ms_coverage := if granted : bool then "full" else "limited";
                 ms_role_available := available; ms_role_granted := granted;
                 ms_current_user := Some current_user; ms_can_manage := can_manage;
                 ms_note := role_note available granted |})
  | Engine.Mysql, PoolRef.Mysql => Ret (Ok (basic_status engine
      "MCP planning uses available Performance Schema aggregates; no role setup is required."))
  | Engine.Sqlite, PoolRef.Sqlite => Ret (Ok (basic_status engine
      "SQLite is local; MCP planning relies on query plans and bounded execution."))
  | _, _ => Ret (Err (Config "connection engine does not match its monitoring pool"))
  end.

Definition set_postgres_role (live : LiveConnection) (enabled : bool) (grant : ExecutionGrant)
    (operation_id connection_id : Uuid) : program (AppResult unit) :=
  if negb (bool_decide (eg_operation_id grant = operation_id))
     || negb (bool_decide (eg_connection_id grant = connection_id))
  then Ret (Err (Blocked "monitoring role change does not match its approved operation"))
  else
    match pool_engine (write_pool live) with
    | PoolRef.Postgres =>
        executed ← execute_pool (write_pool live) (monitoring_role_sql enabled);
        check r ← ok_or (Safety "pg_monitor role change timed out") executed or id;
        check _ ← r or Db;
        Ret (Ok tt)
    | _ => Ret (Err (Config "pg_monitor is only available for PostgreSQL connections"))
    end.

(** *** Aggregate health *)

(** [as f64], and the operations of [f64] *)
Definition as_f64 (n : Z) : spec_float := binary_normalize 53 1024 n 0 false.
Definition f64_le (x y : spec_float) : bool := SFleb x y.
Definition percent_of (total max : Z) : spec_float :=
  SFdiv 53 1024 (SFmul 53 1024 (as_f64 total) (as_f64 100)) (as_f64 max).

(** [{:.0}]: the nearest integer, ties to even. *)
Definition round_half_even (m e : Z) : Z :=
  if 0 <=? e then m * 2 ^ e
  else
    let d := 2 ^ (- e) in
    let q := m / d in
    let r := 2 * (m mod d) in
    if (d <? r) || ((r =? d) && Z.odd q) then q + 1 else q.
Definition show_rounded (f : spec_float) : string :=
  match f with
  | S754_zero s => (if s : bool then "-0" else "0")
  | S754_infinity s => (if s : bool then "-inf" else "inf")
  | S754_nan => "NaN"
  | S754_finite s m e => (if s : bool then "-" else "") +:+ pretty (round_half_even (Zpos m) e)
  end.

Definition LONG_QUERY_SECONDS : Z := 30.

(** [HealthSnapshot::unknown] *)
Definition unknown_health (coverage reason : string) (now : DateTime) : HealthSnapshot := {|
  hs_level := "caution"; hs_coverage := coverage; hs_total_connections := None;
  hs_max_connections := None; hs_connection_usage_percent := None; hs_active_queries := None;
  hs_long_running_queries := None; hs_lock_waits := None; hs_replication_lag_seconds := None;
  hs_reasons := [reason]; hs_captured_at := now |}.

(** The columns of a pressure probe: what [try_get(..).ok()] gives. *)
Record PressureRow := {
  pr_total_connections : option Z; pr_max_connections : option Z; pr_active_queries : option Z;
  pr_long_running_queries : option Z; pr_lock_waits : option Z;
  pr_replication_lag_seconds : option spec_float;
}.

Definition connection_usage (row : PressureRow) : option spec_float :=
  match pr_total_connections row, pr_max_connections row with
  | Some total, Some max => if 0 <? max then Some (percent_of total max) else None
  | _, _ => None
  end.

(** The score and the reasons, step by step as [evaluate] accumulates them. *)
Definition score_usage (row : PressureRow) (acc : Z * list string) : Z * list string :=
  let '(score, reasons) := acc in
  match connection_usage row with
  | Some usage =>
      if f64_le (as_f64 80) usage
      then (2, reasons ++ ["Connection usage is high (" +:+ show_rounded usage +:+ "%)."])
      else if f64_le (as_f64 60) usage
      then (Z.max score 1,
            reasons ++ ["Connection usage is elevated (" +:+ show_rounded usage +:+ "%)."])
      else acc
  | None => acc
  end.
Definition positive (n : option Z) : option Z := n ← n; if 0 <? n then Some n else None.
Definition score_long_queries (row : PressureRow) (acc : Z * list string) : Z * list string :=
  let '(score, reasons) := acc in
  match positive (pr_long_running_queries row) with
  | Some n =>
      (Z.max score 1, reasons ++ [pretty n +:+ " queries have been active for at least "
                                  +:+ pretty LONG_QUERY_SECONDS +:+ "s."])
  | None => acc
  end.
Definition score_locks (row : PressureRow) (acc : Z * list string) : Z * list string :=
  let '(score, reasons) := acc in
  match positive (pr_lock_waits row) with
  | Some n => (if 3 <=? n then 2 else Z.max score 1,
               reasons ++ [pretty n +:+ " sessions are waiting on locks."])
  | None => acc
  end.
Definition score_lag (row : PressureRow) (acc : Z * list string) : Z * list string :=
  let '(score, reasons) := acc in
  match pr_replication_lag_seconds row with
  | Some lag =>
      if f64_le (as_f64 30) lag
      then (Z.max score 1, reasons ++ ["Read-replica replay lag is " +:+ show_rounded lag +:+ "s."])
      else acc
  | None => acc
  end.
Definition pressure (row : PressureRow) : Z * list string :=
  score_lag row (score_locks row (score_long_queries row (score_usage row (0, [])))).
Definition level_of_score (score : Z) : string :=
  if score =? 2 then "busy" else if score =? 1 then "caution" else "normal".

Definition evaluate (coverage : string) (row : PressureRow) (now : DateTime) : HealthSnapshot :=
  let '(score, reasons) := pressure row in
  let reasons :=
    if (coverage =? "limited")%string
    then reasons ++ ["Monitoring coverage is limited without pg_monitor."] else reasons in
  let reasons :=
    match reasons with
    | [] => ["No aggregate database-pressure warning was detected."]
    | _ => reasons
    end in
  {| hs_level := level_of_score score; hs_coverage := coverage;
     hs_total_connections := pr_total_connections row;
     hs_max_connections := pr_max_connections row;
     hs_connection_usage_percent := connection_usage row;
     hs_active_queries := pr_active_queries row;
     hs_long_running_queries := pr_long_running_queries row;
     hs_lock_waits := pr_lock_waits row;
     hs_replication_lag_seconds := pr_replication_lag_seconds row;
     hs_reasons := reasons; hs_captured_at := now |}.

(** [snapshot] from the answers to its two probes: [None] is a time-out. *)
Definition probed_health (coverage failed timed_out : string) (columns : PressureRow → PressureRow)
    (probe : option (result SqlxError PressureRow)) (now : DateTime) : HealthSnapshot :=
  match probe with
  | Some (Ok row) => evaluate coverage (columns row) now
  | Some (Err error) => unknown_health coverage (failed +:+ sqlx_display error) now
  | None => unknown_health coverage timed_out now
  end.
Definition without_lag (row : PressureRow) : PressureRow := {|
  pr_total_connections := pr_total_connections row; pr_max_connections := pr_max_connections row;
  pr_active_queries := pr_active_queries row;
  pr_long_running_queries := pr_long_running_queries row; pr_lock_waits := pr_lock_waits row;
  pr_replication_lag_seconds := None |}.
Definition snapshot (live : LiveConnection) (engine : Engine.t) (status : AppResult MonitoringStatus)
    (probe : option (result SqlxError PressureRow)) (now : DateTime) : HealthSnapshot :=
  match status with
  | Err error => unknown_health "unknown" ("Monitoring unavailable: " +:+ error_to_string error) now
  | Ok status =>
      match pool_engine (read_pool live), engine with
      | PoolRef.Postgres, Engine.Postgres =>
          probed_health (ms_coverage status) "PostgreSQL monitoring probe failed: "
            "PostgreSQL monitoring probe timed out" (λ row, row) probe now
      | PoolRef.Mysql, Engine.Mysql =>
          probed_health (ms_coverage status) "MySQL Performance Schema monitoring is unavailable: "
            "MySQL monitoring probe timed out" without_lag probe now
      | PoolRef.Sqlite, Engine.Sqlite =>
          {| hs_level := "normal"; hs_coverage := ms_coverage status;
             hs_total_connections := None; hs_max_connections := None;
             hs_connection_usage_percent := None; hs_active_queries := None;
             hs_long_running_queries := None; hs_lock_waits := None;
             hs_replication_lag_seconds := None;
             hs_reasons := ["SQLite is local; server saturation metrics do not apply. Query-plan and timeout guards remain active."];
             hs_captured_at := now |}
      | _, _ => unknown_health "unknown" "Monitoring pool/engine mismatch" now
      end
  end.

(** ** services/monitoring_service.rs *)

Definition is_postgres (engine : Engine.t) : bool :=
  match engine with Engine.Postgres => true | _ => false end.

Definition monitoring_connection_status (connection_id : Uuid)
  : program (result MonitoringServiceError MonitoringStatus) :=
  try pin ← store_pin_for_view connection_id or MonitoringScoped;
  let engine := cp_engine (pc_profile pin) in
  if Engine.is_document engine
  then Ret (Ok (basic_status engine "MongoDB connections use the basic, role-free collector."))
  else
    try lease ← scope_connect pin ConnectionAccess.Read or MonitoringApplication;
    check live ← live_sql (ls_live lease) or MonitoringExecution;
    try status ← monitoring_status live engine or MonitoringExecution;
    Ret (Ok status).

(** The checks a proposal and a run share; [role_error] is what each says to a
    role that may not write. *)
Definition role_change_settings (pin : PinnedConnection) (role_error : string)
  : program (result MonitoringServiceError SafetySettings) :=
  if negb (WorkspaceConnectionAccess.can_write (cp_workspace_access (pc_profile pin)))
  then Ret (Err (MonitoringScoped (Blocked role_error)))
  else if negb (is_postgres (cp_engine (pc_profile pin)))
  then Ret (Err (MonitoringScoped
    (Config "pg_monitor is only available for PostgreSQL connections")))
  else
    try settings ← store_get_safety (pc_connection_id pin) or MonitoringApplication;
    if negb (allow_writes settings)
    then Ret (Err (MonitoringScoped (Blocked "writes are disabled for this connection")))
    else Ret (Ok settings).

Definition propose_postgres_role (request : MonitoringProposalRequest)
  : program (result MonitoringServiceError MonitoringProposalReceipt) :=
  try pin ← store_pin_for_view (mpr_connection_id request) or MonitoringScoped;
  try settings ← role_change_settings pin
        "your workspace role cannot change database monitoring grants" or id;
  check policy ← capture_policy pin settings or MonitoringApplication;
  let sql := monitoring_role_sql (mpr_enabled request) in
  let payload := monitoring_payload_to_value
    {| smp_enabled := mpr_enabled request; smp_sql := sql |} in
  operation_id ← new_uuid;
  now ← utc_now;
  let expires_at := now + APPROVAL_TTL in
  try operation ← operation_plan
    {| new_id := operation_id;
       new_workspace_id := sc_workspace_id (pc_scope pin);
       new_account_scope := storage_key (sc_account_scope (pc_scope pin));
       new_connection_id := pc_connection_id pin;
       new_connection_revision := pc_connection_revision pin;
       new_terminal_session_id := None;
       new_actor := actor_for_pin pin "settings-safety-monitoring";
       new_kind := OperationKind.Privilege;
       new_payload_schema_version := 1;
       new_payload := payload;
       new_schema_fingerprint := None;
       new_risk_level := OperationRiskLevel.High;
       new_preview := VObject
         [("action", VString (if mpr_enabled request then "grant" else "revoke"));
          ("role", VString "pg_monitor"); ("sql", VString sql)];
       new_policy_snapshot := cop_snapshot policy;
       new_policy_revision := cop_revision policy;
       new_single_use := true;
       new_idempotency_key := uuid_to_string operation_id;
       new_expires_at := Some expires_at |}
    ApprovalRequired or MonitoringApplication;
  Ret (Ok {| mpc_operation_id := op_id operation; mpc_payload_hash := op_payload_hash operation;
             mpc_state := op_state operation; mpc_enabled := mpr_enabled request; mpc_sql := sql;
             mpc_confirmation_phrase := required_confirmation operation;
             mpc_expires_at := expires_at |}).

Definition monitoring_action (record : MonitoringRunRecord) : string :=
  if (mrr_status record =? "blocked")%string then "monitoring:blocked"
  else if starts_with "GRANT" (mrr_sql record) then "monitoring:grant" else "monitoring:revoke".

Definition record_monitoring_change (pin : PinnedConnection) (record : MonitoringRunRecord)
  : program unit :=
  _ ← audit_record
    {| ra_connection_id := pc_connection_id pin; ra_engine := cp_engine (pc_profile pin);
       ra_agent_prompt := None; ra_sql := mrr_sql record; ra_kind := QueryKind.Privilege;
       ra_action := monitoring_action record; ra_approved_by := mrr_approved_by record;
       ra_affected_estimate := None; ra_error := mrr_error record |};
  id ← new_uuid;
  executed_at ← utc_now;
  _ ← store_insert_history pin
    {| he_id := id; he_connection_id := pc_connection_id pin; he_sql := mrr_sql record;
       he_kind := QueryKind.Privilege; he_status := mrr_status record; he_row_count := None;
       he_duration_ms := None; he_error := mrr_error record; he_executed_at := executed_at;
       he_origin := "manual" |};
  Ret tt.

(** What the checks before the claim establish. *)
Record RoleChange := {
  rc_planned : OperationRecord; rc_payload : StoredMonitoringPayload; rc_pin : PinnedConnection;
  rc_settings : SafetySettings;
}.

Definition authorize_role_change (operation_id : Uuid)
  : program (result MonitoringServiceError RoleChange) :=
  try planned ← operation_get operation_id or MonitoringApplication;
  if negb (op_payload_schema_version planned =? 1)
     || negb (bool_decide (op_kind planned = OperationKind.Privilege))
  then Ret (Err (MonitoringApplication
    (Blocked "operation is not a PostgreSQL monitoring-role proposal")))
  else
    check payload ← ok_or Serialization (monitoring_payload_from_value (op_payload planned))
      or MonitoringApplication;
    if negb (smp_sql payload =? monitoring_role_sql (smp_enabled payload))%string
    then Ret (Err (MonitoringApplication
      (Blocked "stored monitoring operation does not match the fixed role action")))
    else
      try pin ← store_pin_for_read (op_connection_id planned) or MonitoringScoped;
      check _ ← ensure_operation_scope planned pin or MonitoringApplication;
      try settings ← role_change_settings pin
            "your workspace role no longer grants monitoring changes" or id;
      check policy ← capture_policy pin settings or MonitoringApplication;
      if negb (cop_revision policy =? op_policy_revision planned)%string
      then Ret (Err (MonitoringScoped
        (Blocked "the connection or safety policy changed; create a new proposal")))
      else Ret (Ok {| rc_planned := planned; rc_payload := payload; rc_pin := pin;
                      rc_settings := settings |}).

Definition role_attempt (change : RoleChange) (claimed : ClaimedOperation) : RecordArgs := {|
  ra_connection_id := pc_connection_id (rc_pin change);
  ra_engine := cp_engine (pc_profile (rc_pin change)); ra_agent_prompt := None;
  ra_sql := smp_sql (rc_payload change); ra_kind := QueryKind.Privilege;
  ra_action := if smp_enabled (rc_payload change) then "monitoring:grant:attempt"
               else "monitoring:revoke:attempt";
  ra_approved_by := Some (actor_id (op_actor (co_record claimed)));
  ra_affected_estimate := None; ra_error := None |}.

Definition role_record (change : RoleChange) (claimed : ClaimedOperation) (error : option AppError)
  : MonitoringRunRecord := {|
  mrr_sql := smp_sql (rc_payload change);
  mrr_status := match error with None => "ok" | Some _ => "error" end;
  mrr_error := error_to_string <$> error;
  mrr_approved_by := Some (actor_id (op_actor (co_record claimed))) |}.

(** After the connection: the statement, the receipt and the new status. *)
Definition change_role (operation_id : Uuid) (change : RoleChange) (claimed : ClaimedOperation)
    (live : LiveConnection) : program (result MonitoringServiceError MonitoringStatus) :=
  let pin := rc_pin change in
  let enabled := smp_enabled (rc_payload change) in
  changed ← set_postgres_role live enabled (co_grant claimed) operation_id (pc_connection_id pin);
  match changed with
  | Err error =>
      _ ← record_monitoring_change pin (role_record change claimed (Some error));
      _ ← operation_outcome_unknown operation_id
            (error_details error "monitoring_role_execution_failed");
      Ret (Err (MonitoringExecution error))
  | Ok _ =>
      _ ← record_monitoring_change pin (role_record change claimed None);
      succeeded ← operation_succeed operation_id
        (VObject [("enabled", VBool enabled); ("role", VString "pg_monitor")]);
      match succeeded with
      | Err error =>
          _ ← operation_outcome_unknown operation_id (reason_details "local_receipt_failed");
          Ret (Err (MonitoringExecution error))
      | Ok _ =>
          try status ← monitoring_status live (cp_engine (pc_profile pin)) or MonitoringExecution;
          Ret (Ok status)
      end
  end.

Definition run_role_claimed (operation_id : Uuid) (change : RoleChange)
  : program (result MonitoringServiceError MonitoringStatus) :=
  let pin := rc_pin change in
  try claimed ← operation_claim operation_id or MonitoringScoped;
  recorded ← audit_record (role_attempt change claimed);
  match recorded with
  | Err error =>
      _ ← operation_fail operation_id (error_details error "audit_pre_record_failed");
      Ret (Err (MonitoringScoped (Config
        ("audit pre-record failed — refusing to change pg_monitor: " +:+ error_to_string error))))
  | Ok _ =>
      connected ← scope_connect pin ConnectionAccess.Write;
      match connected with
      | Err error =>
          _ ← record_monitoring_change pin (role_record change claimed (Some error));
          _ ← operation_fail operation_id (error_details error "target_connection_failed");
          Ret (Err (MonitoringApplication error))
      | Ok lease =>
          match live_sql (ls_live lease) with
          | Err error =>
              _ ← operation_fail operation_id (error_details error "target_pool_unavailable");
              Ret (Err (MonitoringExecution error))
          | Ok live => change_role operation_id change claimed live
          end
      end
  end.

Definition run_postgres_role (operation_id : Uuid)
  : program (result MonitoringServiceError MonitoringStatus) :=
  try change ← authorize_role_change operation_id or id;
  run_role_claimed operation_id change.
End monitoring.
