(* ===== verification/MonitoringSafety.v ===== *)
(** * What a change of the monitoring role promises

    [run_postgres_role] sends one of two fixed statements, once, only under a
    claimed, approved and audited operation that stores exactly that statement;
    the operation it claims is always settled, with an honest verdict.  The health
    level shown to an agent is the worst of the pressures found. *)

From S2P Require Export QuerySafety MonitoringService.

(** ** Aggregate health *)

Section health.
Context {P : Platform}.
Implicit Types (row : PressureRow).

Definition holds {A} (p : A → bool) (x : option A) : bool :=
  match x with Some x => p x | None => false end.
Definition saturated row : bool :=
  holds (f64_le (as_f64 80)) (connection_usage row) || holds (Z.leb 3) (pr_lock_waits row).
Definition under_pressure row : bool :=
  saturated row || holds (f64_le (as_f64 60)) (connection_usage row)
  || holds (Z.ltb 0) (pr_long_running_queries row) || holds (Z.ltb 0) (pr_lock_waits row)
  || holds (f64_le (as_f64 30)) (pr_replication_lag_seconds row).

(** A pressure of weight [w] joins the score by maximum, with a reason if it is
    there. *)
Definition adds (f : Z * list string → Z * list string) (w : Z) : Prop :=
  0 ≤ w ≤ 2 ∧ ∀ score reasons, 0 ≤ score ≤ 2 →
    ∃ l, f (score, reasons) = (Z.max score w, reasons ++ l) ∧ (l = [] ↔ w = 0).

Lemma adds_nothing f : (∀ acc, f acc = acc) → adds f 0.
Proof. intros Hf. split; [lia|]. intros s l Hs. exists []. rewrite Hf, app_nil_r. split; [f_equal; lia|done]. Qed.
Lemma adds_reason f w reason :
  1 ≤ w ≤ 2 → (∀ s l, 0 ≤ s ≤ 2 → f (s, l) = (Z.max s w, l ++ [reason])) → adds f w.
Proof. intros Hw Hf. split; [lia|]. intros s l Hs. exists [reason]. rewrite Hf by done. split; [done|]. by split; [|lia]. Qed.

Definition usage_weight row : Z :=
  if holds (f64_le (as_f64 80)) (connection_usage row) then 2
  else if holds (f64_le (as_f64 60)) (connection_usage row) then 1 else 0.
Definition lock_weight row : Z :=
  if holds (Z.leb 3) (pr_lock_waits row) then 2
  else if holds (Z.ltb 0) (pr_lock_waits row) then 1 else 0.
Definition weight_if (b : bool) : Z := if b then 1 else 0.

Lemma usage_adds row : adds (score_usage row) (usage_weight row).
Proof.
  unfold usage_weight, score_usage. destruct (connection_usage row) as [usage|]; cbn [holds];
    [|by apply adds_nothing; intros []].
  destruct (f64_le (as_f64 80) usage); [|destruct (f64_le (as_f64 60) usage)].
  - eapply adds_reason; [lia|]. intros s l Hs. do 2 f_equal. lia.
  - eapply adds_reason; [lia|done].
  - by apply adds_nothing; intros [].
Qed.
Lemma queries_adds row :
  adds (score_long_queries row) (weight_if (holds (Z.ltb 0) (pr_long_running_queries row))).
Proof.
  unfold score_long_queries, positive. destruct (pr_long_running_queries row) as [n|];
    cbn [holds mbind option_bind]; [|by apply adds_nothing; intros []].
  destruct (0 <? n); [by eapply adds_reason|by apply adds_nothing; intros []].
Qed.
Lemma locks_adds row : adds (score_locks row) (lock_weight row).
Proof.
  unfold score_locks, lock_weight, positive. destruct (pr_lock_waits row) as [n|];
    cbn [holds mbind option_bind]; [|by apply adds_nothing; intros []].
  destruct (Z.ltb_spec 0 n), (Z.leb_spec 3 n); try lia; try (by apply adds_nothing; intros []).
  all: eapply adds_reason; [lia|]; intros s l Hs; do 2 f_equal; lia.
Qed.
Lemma lag_adds row :
  adds (score_lag row) (weight_if (holds (f64_le (as_f64 30)) (pr_replication_lag_seconds row))).
Proof.
  unfold score_lag. destruct (pr_replication_lag_seconds row) as [lag|]; cbn [holds];
    [|by apply adds_nothing; intros []].
  destruct (f64_le _ lag); [by eapply adds_reason|by apply adds_nothing; intros []].
Qed.
Lemma adds_then f g w v : adds f w → adds g v → adds (λ acc, g (f acc)) (Z.max w v).
Proof.
  intros [Hw Hf] [Hv Hg]. split; [lia|]. intros s l Hs.
  destruct (Hf s l Hs) as (a & -> & Ha). destruct (Hg (Z.max s w) (l ++ a)) as (b & -> & Hb); [lia|].
  exists (a ++ b). rewrite <-app_assoc, Z.max_assoc. split; [done|]. rewrite app_nil, Ha, Hb. lia.
Qed.

Lemma pressure_spec row :
  ((pressure row).1 = 2 ↔ saturated row = true)
  ∧ ((pressure row).1 = 0 ↔ under_pressure row = false) ∧ 0 ≤ (pressure row).1 ≤ 2
  ∧ ((pressure row).2 = [] ↔ under_pressure row = false).
Proof.
  destruct (adds_then _ _ _ _ (adds_then _ _ _ _ (adds_then _ _ _ _ (usage_adds row)
    (queries_adds row)) (locks_adds row)) (lag_adds row)) as [Hw Hf].
  destruct (Hf 0 [] ltac:(lia)) as (l & Hp & Hl). unfold pressure. rewrite Hp. cbn [fst snd app].
  unfold under_pressure, saturated, usage_weight, lock_weight, weight_if in *. rewrite Hl. clear Hp Hf Hl.
  destruct (pr_lock_waits row) as [n|]; cbn [holds] in *; [destruct (Z.leb_spec 3 n), (Z.ltb_spec 0 n); [|lia|..]|].
  all: repeat match goal with |- context [holds ?p ?x] => destruct (holds p x) end.
  all: by split_and!.
Qed.

(** The level [evaluate] reports: busy when the server is nearly saturated, normal
    when there is no pressure at all; there is always a reason, and limited
    visibility is always one. *)
Lemma health_level coverage row now :
  let health := evaluate coverage row now in
  (hs_level health = "busy" ↔ saturated row = true)
  ∧ (hs_level health = "normal" ↔ under_pressure row = false)
  ∧ hs_reasons health ≠ []
  ∧ (coverage = "limited" → "Monitoring coverage is limited without pg_monitor." ∈ hs_reasons health).
Proof.
  destruct (pressure_spec row) as (Hbusy & Hnormal & Hrange & Hreasons). unfold evaluate.
  destruct (pressure row) as [score reasons]; cbn [fst snd] in *. cbn [hs_level hs_reasons].
  assert (score = 0 ∨ score = 1 ∨ score = 2) as Hs by lia. split_and!.
  - rewrite <-Hbusy. by destruct Hs as [->|[->| ->]].
  - rewrite <-Hnormal. by destruct Hs as [->|[->| ->]].
  - destruct (coverage =? "limited")%string, reasons; done.
  - intros ->. cbn. assert ("Monitoring coverage is limited without pg_monitor."
      ∈ reasons ++ ["Monitoring coverage is limited without pg_monitor."]) as Hin
      by (apply elem_of_app; right; by left).
    by destruct (reasons ++ _); [apply not_elem_of_nil in Hin|].
Qed.
End health.

(** ** Histories of a change *)

Section histories.
Context {P : Platform}.

Definition is_execute_pool (c : Call.t) : bool :=
  match c with Call.ExecutePool _ _ => true | _ => false end.
Definition unchanged (h : history) : Prop := Forall (λ e, is_execute_pool (called e) = false) h.
Definition acknowledged (h : history) : Prop :=
  ∃ pool sql, Entry (Call.ExecutePool pool sql) (Some (Ok tt)) ∈ h.

Lemma unchanged_quiet l h : quiet_history l → unchanged h → unchanged (l ++ h).
Proof.
  intros Hl Hh. apply Forall_app. split; [|done]. eapply Forall_impl; [exact Hl|].
  intros [c r]. by destruct c.
Qed.

(** A verdict the history supports. *)
Definition role_verdict (h : history) (target : OperationState.t) : Prop :=
  match target with
  | OperationState.Failed | OperationState.Cancelled => unchanged h
  | OperationState.Succeeded => acknowledged h
  | _ => True
  end.
End histories.

Section change.
Context {P : Platform} {SD : Serde} {C : ChronoSerde} {D : ErrorDisplay} {parser : SqlParser}.
Implicit Types (h : history) (change : RoleChange).

(** A change that passed [authorize_role_change], as its history shows. *)
Record ready_change h (operation_id : Uuid) change : Prop := {
  rch_planned : Entry (Call.OperationGet operation_id) (Ok (rc_planned change)) ∈ h;
  rch_pin : Entry (Call.PinForRead (op_connection_id (rc_planned change))) (Ok (rc_pin change)) ∈ h;
  rch_settings : Entry (Call.GetSafety (pc_connection_id (rc_pin change)))
    (Ok (rc_settings change)) ∈ h;
  rch_kind : op_kind (rc_planned change) = OperationKind.Privilege;
  rch_payload : monitoring_payload_from_value (op_payload (rc_planned change))
    = Some (rc_payload change);
  rch_sql : smp_sql (rc_payload change) = monitoring_role_sql (smp_enabled (rc_payload change));
  rch_scope : ensure_operation_scope (rc_planned change) (rc_pin change) = Ok tt;
  rch_policy : ∃ policy, capture_policy (rc_pin change) (rc_settings change) = Ok policy
    ∧ cop_revision policy = op_policy_revision (rc_planned change);
  rch_enabled : allow_writes (rc_settings change) = true;
}.

Lemma ready_change_later l h id change : ready_change h id change → ready_change (l ++ h) id change.
Proof. intros []. split; try done; apply elem_of_app; by right. Qed.

(** What the history shows when the statement is sent. *)
Record change_authority h (operation_id : Uuid) change (claimed : ClaimedOperation) : Prop := {
  cha_ready : ready_change h operation_id change;
  cha_claimed : Entry (Call.OperationClaim operation_id) (Ok claimed) ∈ h;
  cha_audited : ∃ entry, Entry (Call.AuditRecord (role_attempt change claimed)) (Ok entry) ∈ h;
  cha_pin : pin_confirmed (rc_pin change) ConnectionAccess.Write h;
}.

Variables (id : Uuid) (change : RoleChange).

Definition role_allowed h (c : Call.t) : Prop :=
  match c with
  | Call.OperationPlan _ _ | Call.FetchRows _ _ _ | Call.ReadOnlyRun _ _ _
  | Call.DocumentRun _ _ _ _
  | Call.Begin _ | Call.Execute _ _ | Call.Commit _ | Call.Rollback _ => False
  | Call.OperationClaim operation_id => operation_id = id
  | Call.OperationFinish operation_id target details =>
      operation_id = id ∧ value_exact details = true ∧ OperationState.is_terminal target = true
      ∧ role_verdict h target ∧ claimed_in h id
  | Call.ExecutePool pool sql =>
      unchanged h ∧ pool_engine pool = PoolRef.Postgres ∧ sql = smp_sql (rc_payload change)
      ∧ ∃ claimed, change_authority h id change claimed
  | _ => True
  end.

Lemma role_allowed_quiet h c : quiet c = true → role_allowed h c.
Proof. by destruct c. Qed.

Lemma quiet_role_settings pin s : quiet_program (role_change_settings pin s).
Proof. unfold role_change_settings. solve_only. Qed.
Lemma quiet_authorize_role_change operation_id : quiet_program (authorize_role_change operation_id).
Proof. unfold authorize_role_change, role_change_settings. solve_only. Qed.
Lemma quiet_record_change pin r : quiet_program (record_monitoring_change pin r).
Proof. unfold record_monitoring_change. solve_only. Qed.
Lemma quiet_monitoring_status live engine : quiet_program (monitoring_status live engine).
Proof. unfold monitoring_status. solve_only. Qed.

Abbreviation wpr := (wp answer_ok role_allowed).

Lemma wp_quiet {A} (p : program A) h (Q : A → history → Prop) :
  quiet_program p → (∀ a l, quiet_history l → Q a (l ++ h)) → wpr p Q h.
Proof. intros Hp HQ. apply (wp_only quiet); [by intros; apply role_allowed_quiet|done..]. Qed.

Lemma wp_settle_role target details h (Q : AppResult OperationRecord → history → Prop) :
  value_exact details = true → OperationState.is_terminal target = true → role_verdict h target →
  claimed_in h id → (∀ r l, settled (l ++ h) id → Q r (l ++ h)) →
  wpr (operation_finish id target details) Q h.
Proof.
  intros Hd Ht Hv Hc HQ. split; [done|]. intros r _. apply (HQ r [_]). exists target, details, r. left.
Qed.

(** What was settled stays settled. *)
Lemma wp_settled {A} (p : program A) h :
  quiet_program p → settled h id → wpr p (λ _ h', settled h' id) h.
Proof. intros Hp Hs. apply wp_quiet; [done|]. intros _ l _. by apply settled_app. Qed.

(** [set_postgres_role] sends the statement at most once and does not fail after
    it was acknowledged. *)
Lemma wp_set_role live claimed h :
  unchanged h → change_authority h id change claimed →
  wpr (set_postgres_role live (smp_enabled (rc_payload change)) (co_grant claimed) id
         (pc_connection_id (rc_pin change)))
    (λ r h', ∃ l, h' = l ++ h ∧ (r = Ok tt → acknowledged h')) h.
Proof.
  intros Hu Ha. unfold set_postgres_role. wp_if Hg; [by exists []|].
  destruct (pool_engine (write_pool live)) eqn:Hp; [|by exists []..].
  wp_step. wp_step.
  { split_and!; [done|done| |by exists claimed]. symmetry. apply Ha. }
  wp_step. set (h' := _ :: h).
  assert (∀ r : AppResult unit, (r = Ok tt → acknowledged h') →
    ∃ l, h' = l ++ h ∧ (r = Ok tt → acknowledged h')) as Hl by (intros; by exists [Entry (Call.ExecutePool (write_pool live) (monitoring_role_sql (smp_enabled (rc_payload change)))) r]).
  wp_step; [|by apply Hl]. apply ok_or_Ok in Hx as ->. wp_step; [|by apply Hl].
  wp_step. apply Hl. intros _. destruct x0. exists (write_pool live). eexists. subst x. left.
Qed.

Lemma wp_change_role live claimed h :
  unchanged h → change_authority h id change claimed →
  wpr (change_role id change claimed live) (λ _ h', settled h' id) h.
Proof.
  intros Hu Ha. pose proof (cha_claimed _ _ _ _ Ha) as Hcl. unfold change_role. wp_step.
  eapply wp_mono; [|by apply wp_set_role]. intros r h1 (l1 & -> & Hok).
  assert (∀ l, claimed_in (l ++ l1 ++ h) id) as Hc
    by (intros l; apply claimed_in_app, claimed_in_app; by exists claimed).
  destruct r as [[]|error].
  - specialize (Hok eq_refl). wp_step. apply wp_quiet; [apply quiet_record_change|]. intros _ l2 _.
    assert (acknowledged (l2 ++ l1 ++ h)) as Hack.
    { destruct Hok as (pool & sql & Hin). exists pool, sql. apply elem_of_app. by right. }
    wp_step. apply wp_settle_role; [by destruct (smp_enabled _)|done|done|done|]. intros r l3 Hs.
    destruct r as [op|e].
    + wp_step. eapply wp_mono; [|by apply wp_settled, Hs; apply quiet_monitoring_status].
      intros [status|e] h4 Hs4; [by wp_step|done].
    + wp_step. apply wp_settle_role; [done..| |].
      * rewrite app_assoc. apply Hc.
      * intros r l4 Hs4. by wp_step.
  - wp_step. apply wp_quiet; [apply quiet_record_change|]. intros _ l2 _. wp_step.
    apply wp_settle_role; [done..|]. intros r l3 Hs. by wp_step.
Qed.

Lemma wp_run_role_claimed h :
  ready_change h id change → quiet_history h →
  wpr (run_role_claimed id change) (λ _ h', claimed_in h' id → settled h' id) h.
Proof.
  intros Hr Hq. assert (unchanged h) as Hu.
  { rewrite <-(app_nil_r h). apply unchanged_quiet; [done|constructor]. }
  unfold run_role_claimed. wp_step. wp_step; [done|]. wp_step. destruct r as [claimed|e]; cycle 1.
  { intros Hc. apply claimed_in_cons in Hc; [|done]. by destruct (quiet_unclaimed h id Hq). }
  set (h1 := Entry _ _ :: h).
  assert (Entry (Call.OperationClaim id) (Ok claimed) ∈ h1) as Hcl by left.
  assert (ready_change h1 id change) as Hr1 by (by apply (ready_change_later [_])).
  assert (unchanged h1) as Hu1 by (by constructor). clearbody h1. clear Hr Hq Hu h.
  wp_step. wp_step; [done|]. wp_step. destruct r as [entry|e].
  - set (h2 := Entry (Call.AuditRecord _) _ :: h1).
    wp_step. eapply wp_mono; [|apply wp_scope_connect; by intros; apply role_allowed_quiet].
    intros connected h3 (l & -> & Hl & Hpin).
    assert (unchanged (l ++ h2)) as Hu3 by (apply unchanged_quiet; [done|by constructor]).
    assert (∀ l', claimed_in (l' ++ l ++ h2) id) as Hc3
      by (intros l'; apply claimed_in_app, claimed_in_app, (claimed_in_app [_]); by exists claimed).
    destruct connected as [lease|e].
    + destruct (live_sql (ls_live lease)) as [live|e].
      * eapply wp_mono; [|apply wp_change_role; [exact Hu3|]]; [by intros|]. split.
        -- by apply ready_change_later, (ready_change_later [_]).
        -- apply elem_of_app. right. by right.
        -- exists entry. apply elem_of_app. right. left.
        -- by apply (Hpin lease).
      * wp_step. apply wp_settle_role; [done|done|done|apply (Hc3 [])|]. intros r l2 Hs. by wp_step.
    + wp_step. apply wp_quiet; [apply quiet_record_change|]. intros _ l2 Hl2. wp_step.
      apply wp_settle_role; [done|done|by apply unchanged_quiet|done|]. intros r l3 Hs. by wp_step.
  - wp_step. apply wp_settle_role; [done|done|by constructor|by apply (claimed_in_app [_]); exists claimed|].
    intros r l Hs. by wp_step.
Qed.
End change.

Section run.
Context {P : Platform} {SD : Serde} {C : ChronoSerde} {D : ErrorDisplay} {parser : SqlParser}.

Lemma wp_role_settings allowed pin s h :
  (∀ h c, quiet c = true → allowed h c) →
  wp answer_ok allowed (role_change_settings pin s)
    (λ r h', ∃ l, h' = l ++ h ∧ ∀ settings, r = Ok settings →
       Entry (Call.GetSafety (pc_connection_id pin)) (Ok settings) ∈ h' ∧ allow_writes settings = true) h.
Proof.
  intros Ha. unfold role_change_settings. wp_if H1; [by exists []|]. wp_if H2; [by exists []|].
  wp_step. wp_step; [by apply Ha|]. wp_step.
  set (e := Entry _ _). destruct r as [settings|error]; [|by exists [e]].
  wp_if H3; exists [e]; (split; [done|]); [done|]. bools. intros ? [= <-]. split; [left|done].
Qed.

Lemma wp_authorize_role allowed id h :
  (∀ h c, quiet c = true → allowed h c) →
  wp answer_ok allowed (authorize_role_change id)
    (λ r h', ∀ change, r = Ok change → ready_change h' id change) h.
Proof.
  intros Ha. unfold authorize_role_change. wp_step. wp_step; [by apply Ha|]. wp_step.
  destruct r as [planned|e]; [|done]. wp_if H1; [done|]. wp_step; [|done]. wp_if H2; [done|].
  apply ok_or_Ok in Hx. bools. wp_step. wp_step; [by apply Ha|]. wp_step.
  destruct r as [pin|e]; [|done]. wp_step; [|done]. wp_step.
  eapply wp_mono; [|by apply wp_role_settings]. intros r h1 (l & -> & Hset).
  destruct r as [settings|e]; [|done]. destruct (Hset settings eq_refl) as [Hs Hw].
  wp_step; [|done]. wp_if H3; [done|]. wp_step. bools. intros change [= <-].
  split; cbn; try done; [| |by destruct x0|by exists x1];
    apply elem_of_app; right; [right; left|left].
Qed.

(** What [run_postgres_role] may call, with the change its checks determined. *)
Definition role_calls (id : Uuid) (h : history) (c : Call.t) : Prop :=
  quiet c = true ∨ ∃ change, role_allowed id change h c.

Lemma wp_run_postgres_role id :
  wp answer_ok (role_calls id) (run_postgres_role id)
    (λ _ h', claimed_in h' id → settled h' id) [].
Proof.
  unfold run_postgres_role. wp_step.
  eapply wp_mono; [|apply (wp_only_frame quiet); [apply quiet_authorize_role_change|]].
  2: { apply wp_authorize_role. by left. }
  intros r h [Hr (l & -> & Hl)]. rewrite app_nil_r in *. destruct r as [change|e].
  - eapply wp_allowed_mono; [|apply wp_run_role_claimed; [by apply Hr|done]].
    intros h c Hc. right. by exists change.
  - intros Hc. by destruct (quiet_unclaimed l id).
Qed.
End run.

(** ** Against a live world *)

Section safety.
Context {P : Platform} {L : PlatformLaws P} {SD : Serde} {SL : SerdeLaws SD}
  {D : ErrorDisplay} {parser : SqlParser}.

Lemma role_calls_wf id h c : role_calls id h c → call_wf c.
Proof. destruct c; cbn; try done; intros [?|(change & H)]; try done. cbn in H. tauto. Qed.


End safety.


(** A claimed change is settled, and honestly: a terminal verdict was sent, and
    whenever one is, it names the claimed operation, says [Failed] only if no
    statement was sent and [Succeeded] only if the database acknowledged it. *)
Theorem role_change_settles {P : Platform} {L : PlatformLaws P} {SD : Serde} {SL : SerdeLaws SD}
    {D : ErrorDisplay} {parser : SqlParser} self id w w' h q :
  safe (w_ops w) →
  reaches others (respond self) (run_postgres_role id) w [] q w' h →
  match q with
  | Ret _ => claimed_in h id → ∃ target details answer,
      Entry (Call.OperationFinish id target details) answer ∈ h
      ∧ ∀ op, answer = Ok op → finished_as w' id target
  | Vis (Call.OperationFinish id' target _) _ =>
      id' = id ∧ claimed_in h id ∧ OperationState.is_terminal target = true ∧ role_verdict h target
  | Vis _ _ => True
  end.
Proof.
  intros Hs Hr. pose proof (wp_run_postgres_role id) as Hwp.
  assert (world_ok w' h) as [_ Hf]
    by (eapply world_ok_reaches; [apply role_calls_wf|exact Hr|exact Hwp|exact Hs]).
  eapply reaches_wp in Hwp; [|apply respond_answer_ok|exact Hr]. destruct q as [r|c k].
  - intros Hc. destruct (Hwp Hc) as (target & details & answer & Hin).
    exists target, details, answer. split; [done|]. exact (Hf _ Hin).
  - destruct Hwp as [Ha _]. destruct c; try done. destruct Ha as [Hq|(change & Ha)]; [done|].
    destruct Ha as (-> & _ & Ht & Hv & Hc). done.
Qed.

(** A change is only proposed behind an approval, with its literal statement, by
    a role that may write where writes are enabled. *)
Theorem role_proposal_needs_approval {P : Platform} {SD : Serde} {D : ErrorDisplay}
    {parser : SqlParser} self request w w' h c k :
  reaches others (respond self) (propose_postgres_role request) w [] (Vis c k) w' h →
  quiet c = true
  ∨ ∃ o pin settings, c = Call.OperationPlan o ApprovalRequired
      ∧ new_kind o = OperationKind.Privilege ∧ new_risk_level o = OperationRiskLevel.High
      ∧ new_payload o = monitoring_payload_to_value {| smp_enabled := mpr_enabled request;
                          smp_sql := monitoring_role_sql (mpr_enabled request) |}
      ∧ Entry (Call.PinForView (mpr_connection_id request)) (Ok pin) ∈ h
      ∧ Entry (Call.GetSafety (pc_connection_id pin)) (Ok settings) ∈ h
      ∧ allow_writes settings = true
      ∧ ∃ policy, capture_policy pin settings = Ok policy
          ∧ new_policy_revision o = cop_revision policy.
Proof.
  intros Hr.
  set (allowed (h : history) (c : Call.t) := quiet c = true ∨ ∃ o pin settings,
    c = Call.OperationPlan o ApprovalRequired
      ∧ new_kind o = OperationKind.Privilege ∧ new_risk_level o = OperationRiskLevel.High
      ∧ new_payload o = monitoring_payload_to_value {| smp_enabled := mpr_enabled request;
                          smp_sql := monitoring_role_sql (mpr_enabled request) |}
      ∧ Entry (Call.PinForView (mpr_connection_id request)) (Ok pin) ∈ h
      ∧ Entry (Call.GetSafety (pc_connection_id pin)) (Ok settings) ∈ h
      ∧ allow_writes settings = true
      ∧ ∃ policy, capture_policy pin settings = Ok policy
          ∧ new_policy_revision o = cop_revision policy).
  assert (wp answer_ok allowed (propose_postgres_role request) (λ _ _, True) []) as Hwp.
  { unfold propose_postgres_role. wp_step. wp_step; [by left|]. wp_step.
    destruct r as [pin|e]; [|done]. wp_step.
    eapply wp_mono; [|apply wp_role_settings; by left]. intros r h1 (l & -> & Hset).
    destruct r as [settings|e]; [|done]. destruct (Hset settings eq_refl) as [Hs Hw].
    wp_step; [|done]. cbv zeta. wp_step. wp_step; [by left|]. wp_step. wp_step.
    wp_step; [by left|]. wp_step. wp_step. wp_step; [|wp_step; by destruct r1].
    right. eexists _, pin, settings. split_and!; try reflexivity; [| |done|by exists x].
    - do 2 right. apply elem_of_app. right. left.
    - do 2 right. exact Hs. }
  eapply reaches_wp in Hwp; [|apply respond_answer_ok|exact Hr]. by destruct Hwp.
Qed.

(** ** A concrete grant *)

Module MonitoringSample.
Import RunSample.

Definition grant : StoredMonitoringPayload :=
  {| smp_enabled := true; smp_sql := monitoring_role_sql true |}.
Definition operation : NewOperation := {|
  new_id := Sample.uid 1; new_workspace_id := Sample.uid 2; new_account_scope := "a";
  new_connection_id := Sample.uid 3; new_connection_revision := 1;
  new_terminal_session_id := None; new_actor := actor_for_pin pin "settings-safety-monitoring";
  new_kind := OperationKind.Privilege; new_payload_schema_version := 1;
  new_payload := monitoring_payload_to_value grant;
  new_schema_fingerprint := None; new_risk_level := OperationRiskLevel.High;
  new_preview := VNull; new_policy_snapshot := cop_snapshot policy;
  new_policy_revision := cop_revision policy; new_single_use := true;
  new_idempotency_key := "k"; new_expires_at := Some 1000 |}.
Lemma role_operation_ok : new_operation_ok operation.
Proof. repeat split; by vm_compute. Qed.

Definition request : @ExactApprovalRequest Reference.platform := {|
  ear_operation_id := Sample.uid 1;
  ear_expected_payload_hash := match canonical_hash (new_payload operation) with
                               | Ok h => h | Err _ => "" end;
  ear_approver := cmd_approver Sample.approval;
  ear_current_policy_revision := cop_revision policy; ear_reason := None |}.
Definition world : World :=
  {| w_ops := (approve_exact (Sample.uid 13) (Sample.uid 14) 20 RuntimeSample.self
       RuntimeSample.authority request
       (plan (Sample.uid 11) (Sample.uid 12) 10 11 (λ x, x) RuntimeSample.self operation
          ApprovalRequired empty_db).2).2;
     w_audit := [] |}.
Lemma role_world_safe : safe (w_ops world).
Proof.
  eapply activity_safe; [|apply safe_empty].
  apply activity_plan_approve; [by apply (bool_decide_unpack _)..|apply role_operation_ok|].
  by apply (bool_decide_unpack _).
Qed.
End MonitoringSample.


Lemma role_change_settles_witness :
  ∃ w' h r target details answer, reaches others (respond RuntimeSample.self)
      (run_postgres_role (Sample.uid 1)) MonitoringSample.world [] (Ret r) w' h
    ∧ Entry (Call.OperationFinish (Sample.uid 1) target details) answer ∈ h
    ∧ ∀ op, answer = Ok op → finished_as w' (Sample.uid 1) target.
Proof.
  pose proof MonitoringSample.role_world_safe as Hs.
  assert (existsb (RunSample.claims (Sample.uid 1))
            (exec RunSample.oracle (run_postgres_role (Sample.uid 1)) MonitoringSample.world []).2
          = true) as Hc by (vm_compute; reflexivity).
  revert Hs Hc. generalize MonitoringSample.world. intros w Hs Hc.
  destruct (exec _ _ w _) as [[r w'] h] eqn:He. cbn [snd] in Hc.
  apply existsb_exists in Hc as ([c a] & Hin & Hcl). apply list_elem_of_In in Hin.
  apply (exec_reaches others (respond RuntimeSample.self)) in He;
    [|apply RunSample.world_still|apply RunSample.oracle_responds].
  destruct c; try done. destruct a as [claimed|]; [|done]. apply bool_decide_eq_true in Hcl as ->.
  destruct (role_change_settles RuntimeSample.self (Sample.uid 1) w w' h (Ret r) Hs He)
    as (target & details & answer & H1 & H2); [by exists claimed|].
  exists w', h, r, target, details, answer. split_and!; [exact He|exact H1|exact H2].
Defined.
