(* ===== verification/AgentRuns.v ===== *)
(** * Agent reads (src-tauri/src/services/query_service.rs)

    An agent's read is planned as a single-use operation, claimed by
    [prepare_agent_run_scoped], which checks the stored plan against the current
    scope and policy again, and run by [PreparedAgentQueryRun::execute] in the
    database's read-only session.  [confirm_plan] is the part of
    [prepare_agent_run_scoped] after the claim. *)

From S2P Require Export QueryService.

Section agent_runs.
Context {P : Platform} {SD : Serde} {C : ChronoSerde} {D : ErrorDisplay} {parser : SqlParser}.
Local Open Scope prog_scope.

(** *** Planning *)

Definition single_read (classification : Classification) : bool :=
  is_read (cl_kind classification) && (cl_statement_count classification =? 1).

Definition plan_preview (decision : string) (estimated_rows : option Z) (health : HealthSnapshot)
  (notices suggestions : list string) : Value :=
  VObject [("decision", VString decision); ("estimatedRows", value_of_opt_i64 estimated_rows);
           ("health", health_to_value health); ("notices", ser_list VString notices);
           ("suggestions", ser_list VString suggestions)].

Definition agent_actor (pin : PinnedConnection) (origin : AgentQueryInvocationOrigin)
  (terminal : option TerminalAuthority) : OperationActor :=
  let actor := agent_actor_for_pin pin (origin_as_str origin) (origin_as_str origin) in
  match terminal with
  | Some authority => with_client_version (ta_client_protocol_version authority) actor
  | None => actor
  end.

Definition plan_agent_read_scoped (request : AgentQueryPlanRequest)
  (terminal : option TerminalAuthority)
  : program (result (AgentQueryPlanError RejectedAgentQueryPlan) AgentQueryPlan) :=
  try context ← manager_pin (apq_connection_id request) ConnectionAccess.Read or PlanApplication;
  let pin := cx_pin context in
  let profile := pc_profile pin in
  if Engine.is_document (cp_engine profile) then Ret (Err DocumentConnection)
  else
    check classification ← classify (apq_sql request) (cp_engine profile) or PlanApplication;
    if negb (single_read classification)
    then Ret (Err (NotSingleRead
      {| rej_connection_id := cp_id profile; rej_connection_name := cp_name profile;
         rej_engine := cp_engine profile; rej_sql := apq_sql request;
         rej_kind := cl_kind classification; rej_origin := apq_origin request |}))
    else
      try settings ← store_get_safety (cp_id profile) or PlanApplication;
      let max_rows := bounded_max_rows (apq_max_rows request) (max_rows settings) in
      check _ ← match terminal with
                | Some authority => ensure_pin authority pin
                | None => Ok tt
                end or PlanApplication;
      check policy ← capture_agent_read_policy pin or PlanApplication;
      try lease ← context_connect context or PlanApplication;
      check live ← live_sql (ls_live lease) or PlanApplication;
      try report ← preview (read_pool live) (apq_sql request) classification settings
        or PlanApplication;
      health ← health_snapshot live (cp_engine profile);
      let '(decision, notices, suggestions) :=
        planning_guidance profile health (pv_estimated_rows report)
          (exec_preview_row_limit settings) in
      plan_id ← new_uuid;
      _ ← audit_best_effort (cp_id profile) (cp_engine profile) (apq_sql request) QueryKind.Read
            (plan_audit_action (apq_origin request)) None;
      now ← utc_now;
      let expires_at := now + QUERY_PLAN_TTL in
      try _ ← operation_plan
        {| new_id := plan_id;
           new_workspace_id := sc_workspace_id (pc_scope pin);
           new_account_scope := storage_key (sc_account_scope (pc_scope pin));
           new_connection_id := pc_connection_id pin;
           new_connection_revision := pc_connection_revision pin;
           new_terminal_session_id := ta_terminal_session_id <$> terminal;
           new_actor := agent_actor pin (apq_origin request) terminal;
           new_kind := OperationKind.ReadQuery;
           new_payload_schema_version := 1;
           new_payload := agent_payload_to_value
             {| sap_sql := apq_sql request; sap_max_rows := max_rows; sap_decision := decision;
                sap_origin := apq_origin request |};
           new_schema_fingerprint := None;
           new_risk_level := operation_risk classification;
           new_preview := plan_preview decision (pv_estimated_rows report) health notices
                            suggestions;
           new_policy_snapshot := policy.1;
           new_policy_revision := policy.2;
           new_single_use := true;
           new_idempotency_key := uuid_to_string plan_id;
           new_expires_at := Some expires_at |} Runtime.Ready or PlanApplication;
      Ret (Ok {| aqp_connection_id := cp_id profile; aqp_connection_name := cp_name profile;
                 aqp_environment := cp_env profile; aqp_sql := apq_sql request;
                 aqp_plan_id := plan_id; aqp_decision := decision; aqp_notices := notices;
                 aqp_suggestions := suggestions;
                 aqp_estimated_rows := pv_estimated_rows report; aqp_health := health;
                 aqp_expires_at := expires_at |}).

Definition plan_agent_read (request : AgentQueryPlanRequest) := plan_agent_read_scoped request None.

Definition plan_terminal_read (request : TerminalQueryPlanRequest) :=
  plan_agent_read_scoped
    {| apq_connection_id := tqp_connection_id request; apq_sql := tqp_sql request;
       apq_max_rows := tqp_max_rows request; apq_origin := Cli |}
    (Some (tqp_authority request)).

(** [RejectedAgentQueryPlan::audit_after_result] *)
Definition audit_after_result (self : RejectedAgentQueryPlan) : program unit :=
  audit_best_effort (rej_connection_id self) (rej_engine self) (rej_sql self) (rej_kind self)
    (plan_audit_action (rej_origin self)) (Some "plan_query accepts exactly one read-only SELECT statement").

(** *** Claiming *)

(** [operation.fail(..)], its result ignored, and the error. *)
Definition refuse_plan {A} (plan_id : Uuid) (details : Value) (error : AgentQueryRunPrepareError)
  : program (result AgentQueryRunPrepareError A) :=
  _ ← operation_fail plan_id details;
  Ret (Err error).

Definition confirm_plan (plan_id : Uuid) (planned : OperationRecord)
  (payload : StoredAgentReadPayload) (terminal : option TerminalAuthority)
  (claimed : ClaimedOperation) (cancellation : Cancellation)
  : program (result AgentQueryRunPrepareError PreparedAgentQueryRun) :=
  let refuse details error := refuse_plan plan_id details error in
  pinned ← manager_pin (op_connection_id planned) ConnectionAccess.Read;
  match pinned with
  | Err error => refuse (error_details error "connection_scope_unavailable")
                   (PrepareApplication error)
  | Ok context =>
    let pin := cx_pin context in
    match match terminal with Some authority => ensure_pin authority pin | None => Ok tt end with
    | Err _ => refuse (reason_details "terminal_authority_changed") AuthorityChanged
    | Ok _ =>
      match ensure_operation_scope planned pin with
      | Err _ => refuse (reason_details "operation_authority_changed") AuthorityChanged
      | Ok _ =>
        safety ← store_get_safety (pc_connection_id pin);
        match safety with
        | Err error => refuse (error_details error "safety_policy_unavailable")
                         (PrepareApplication error)
        | Ok settings =>
          match capture_agent_read_policy pin with
          | Err error => refuse (error_details error "policy_snapshot_failed")
                           (PrepareApplication error)
          | Ok policy =>
            if negb (policy.2 =? op_policy_revision planned)%string
            then refuse (reason_details "operation_policy_changed") AuthorityChanged
            else
              match classify (sap_sql payload) (cp_engine (pc_profile pin)) with
              | Err error => refuse (error_details error "stored_plan_reclassification_failed")
                               (PrepareApplication error)
              | Ok classification =>
                if negb (single_read classification)
                then refuse (reason_details "stored_plan_classification_changed")
                       StoredPlanInvalid
                else
                  Ret (Ok
                    {| par_context := context; par_pin := pin; par_claimed := claimed;
                       par_event_context :=
                         {| evc_connection_id := pc_connection_id pin;
                            evc_connection_name := cp_name (pc_profile pin);
                            evc_plan_id := plan_id; evc_sql := sap_sql payload |};
                       par_decision := sap_decision payload;
                       par_max_rows := Z.min (Z.min (sap_max_rows payload) (max_rows settings))
                                         MAX_AGENT_ROWS;
                       par_origin := sap_origin payload;
                       par_cancellation := cancellation |})
              end
          end
        end
      end
    end
  end.

(** [expires_at.is_some_and(|e| e <= Utc::now())] *)
Definition plan_expired (planned : OperationRecord) : program bool :=
  match op_expires_at planned with
  | None => Ret false
  | Some expires_at => now ← utc_now; Ret (expires_at <=? now)
  end.

Definition invocation_origin (terminal : option TerminalAuthority) : AgentQueryInvocationOrigin :=
  match terminal with Some _ => Cli | None => Mcp end.

Definition prepare_agent_run_scoped (plan_id : Uuid) (terminal : option TerminalAuthority)
  : program (result AgentQueryRunPrepareError PreparedAgentQueryRun) :=
  try planned ← operation_get plan_id
    or (λ error, match error with
                 | NotFound _ => UnknownOrAlreadyUsed
                 | error => PrepareApplication error
                 end);
  if negb (op_payload_schema_version planned =? 1)
     || negb (bool_decide (op_kind planned = OperationKind.ReadQuery))
     || negb (bool_decide (actor_kind (op_actor planned) = OperationActorKind.Agent))
  then Ret (Err StoredPlanInvalid)
  else
    check payload ← ok_or StoredPlanInvalid (agent_payload_from_value (op_payload planned)) or id;
    if negb (actor_id (op_actor planned) =? origin_as_str (sap_origin payload))%string
    then Ret (Err StoredPlanInvalid)
    else if negb (bool_decide (op_terminal_session_id planned
                               = (ta_terminal_session_id <$> terminal)))
            || negb (bool_decide (sap_origin payload = invocation_origin terminal))
    then Ret (Err SessionMismatch)
    else if bool_decide (op_state planned = OperationState.Expired)
    then Ret (Err UnknownOrAlreadyUsed)
    else
      expired ← plan_expired planned;
      handle ← cancel_register plan_id;
      claimed ← operation_claim plan_id;
      prepared ←
        match claimed with
        | Err error =>
            Ret (Err (if (expired : bool) then PlanExpired
                      else if negb (bool_decide (op_state planned = OperationState.Ready))
                      then UnknownOrAlreadyUsed
                      else PrepareApplication error))
        | Ok claimed => confirm_plan plan_id planned payload terminal claimed
                          {| cn_id := plan_id; cn_handle := handle |}
        end;
      match prepared with
      | Ok run => Ret (Ok run)
      | Err error => _ ← cancel_drop handle; Ret (Err error)
      end.

Definition prepare_agent_run (plan_id : Uuid) := prepare_agent_run_scoped plan_id None.
Definition prepare_terminal_run (plan_id : Uuid) (authority : TerminalAuthority) :=
  prepare_agent_run_scoped plan_id (Some authority).

(** *** Executing *)

Definition plan_record_id (self : PreparedAgentQueryRun) : Uuid := op_id (co_record (par_claimed self)).

(** Record the failure, fail the operation. *)
Definition abandon_plan (self : PreparedAgentQueryRun) (error : AppError) (reason : string)
  : program unit :=
  _ ← record_run_failure (par_pin self) (evc_sql (par_event_context self))
        (cp_engine (pc_profile (par_pin self))) (par_origin self) error;
  _ ← operation_fail (plan_record_id self) (error_details error reason);
  Ret tt.

(** The receipts of a successful [read]. *)
Definition receive_read (self : PreparedAgentQueryRun) (read : QueryResult)
  : program (result AgentQueryRunError AgentQueryRun) :=
  let operation_id := plan_record_id self in
  let event_context := par_event_context self in
  _ ← audit_best_effort (pc_connection_id (par_pin self)) (cp_engine (pc_profile (par_pin self)))
        (evc_sql event_context) QueryKind.Read (run_audit_action (par_origin self)) None;
  persisted ← persist_history (par_pin self) (evc_sql event_context) "ok"
                (Some (wrap_i64 (qr_row_count read))) (Some (wrap_i64 (qr_duration_ms read))) None;
  match persisted with
  | Err error =>
      _ ← operation_fail operation_id (error_details error "history_receipt_failed");
      Ret (Err (ConsentHandlePersistence error))
  | Ok query_run_id =>
      succeeded ← operation_succeed operation_id
        (VObject [("durationMs", value_of_u64 (qr_duration_ms read));
                  ("queryRunId", uuid_to_value query_run_id);
                  ("rowCount", value_of_u64 (qr_row_count read))]);
      match succeeded with
      | Err error =>
          _ ← operation_fail operation_id (error_details error "operation_receipt_failed");
          Ret (Err (ConsentHandlePersistence error))
      | Ok _ =>
          Ret (Ok {| aqr_connection_id := evc_connection_id event_context;
                     aqr_connection_name := evc_connection_name event_context;
                     aqr_plan_id := evc_plan_id event_context;
                     aqr_planning_decision := par_decision self;
                     aqr_query_run_id := query_run_id;
                     aqr_sql := evc_sql event_context;
                     aqr_result := read |})
      end
  end.

(** The body of [execute]; the cancellation handle is dropped when it returns. *)
Definition execute_read (self : PreparedAgentQueryRun)
  : program (result AgentQueryRunError AgentQueryRun) :=
  let operation_id := plan_record_id self in
  connected ← context_connect (par_context self);
  match connected with
  | Err error =>
      _ ← abandon_plan self error "target_connection_failed";
      Ret (Err (ConnectionFailed error))
  | Ok lease =>
      match live_sql (ls_live lease) with
      | Err error =>
          _ ← abandon_plan self error "target_pool_unavailable";
          Ret (Err (ExecutionFailed error))
      | Ok live =>
          executed ← read_only_cancellable (read_pool live) (evc_sql (par_event_context self))
                       (par_max_rows self) (Some (par_cancellation self));
          match executed with
          | Err error =>
              _ ← (if is_cancellation error
                   then _ ← record_run_failure (par_pin self) (evc_sql (par_event_context self))
                              (cp_engine (pc_profile (par_pin self))) (par_origin self) error;
                        _ ← operation_confirm_cancelled operation_id (reason_details "user_cancelled");
                        Ret tt
                   else abandon_plan self error "read_execution_failed");
              Ret (Err (ExecutionFailed error))
          | Ok read => receive_read self read
          end
      end
  end.

Definition execute_prepared_run (self : PreparedAgentQueryRun)
  : program (result AgentQueryRunError AgentQueryRun) :=
  run ← execute_read self;
  _ ← cancel_drop (cn_handle (par_cancellation self));
  Ret run.
End agent_runs.
