(* ===== verification/AgentSafety.v ===== *)
(** * What agent reads guarantee

    Planning asks for nothing but a bounded read; a run sends the target only the
    SQL of the plan it claimed, on the read-only path, after checking the plan
    against the current scope and policy, and settles the operation. *)

From S2P Require Export AgentRuns QuerySafety.

(** What the adapters (mcp/tools.rs, broker/dispatch.rs) do with a plan:
    [prepare_agent_run], then [PreparedAgentQueryRun::execute]. *)
Definition agent_run {P : Platform} {SD : Serde} {D : ErrorDisplay} {parser : SqlParser}
  (plan_id : Uuid) (terminal : option TerminalAuthority)
  : program (result AgentQueryRunPrepareError (result AgentQueryRunError AgentQueryRun)) :=
  prepared ← prepare_agent_run_scoped plan_id terminal;
  match prepared with
  | Err error => Ret (Err error)
  | Ok run => executed ← execute_prepared_run run; Ret (Ok executed)
  end.

Section agent.
Context {P : Platform} {SD : Serde} {D : ErrorDisplay} {parser : SqlParser}.
Variable plan_id : Uuid.
Variable terminal : option TerminalAuthority.

(** *** What the history shows *)

Definition ensure_terminal_pin (pin : PinnedConnection) : Prop :=
  match terminal with Some authority => ensure_pin authority pin = Ok tt | None => True end.

(** The checks before the claim. *)
Record plan_valid (h : history) (planned : OperationRecord) (payload : StoredAgentReadPayload)
  : Prop := {
  pv_planned : Entry (Call.OperationGet plan_id) (Ok planned) ∈ h;
  pv_version : op_payload_schema_version planned = 1;
  pv_kind : op_kind planned = OperationKind.ReadQuery;
  pv_agent : actor_kind (op_actor planned) = OperationActorKind.Agent;
  pv_payload : agent_payload_from_value (op_payload planned) = Some payload;
  pv_session : op_terminal_session_id planned = ta_terminal_session_id <$> terminal;
  pv_origin : sap_origin payload = invocation_origin terminal;
}.

(** The checks after it. *)
Record plan_confirmed (h : history) (planned : OperationRecord) (payload : StoredAgentReadPayload)
  (run : PreparedAgentQueryRun) : Prop := {
  pc_valid : plan_valid h planned payload;
  pc_claimed : Entry (Call.OperationClaim plan_id) (Ok (par_claimed run)) ∈ h;
  pc_pinned : Entry (Call.PinForRead (op_connection_id planned)) (Ok (par_pin run)) ∈ h;
  pc_current : pin_confirmed (par_pin run) ConnectionAccess.Read h;
  pc_terminal : ensure_terminal_pin (par_pin run);
  pc_scope_kept : ensure_operation_scope planned (par_pin run) = Ok tt;
  pc_policy : ∃ policy, capture_agent_read_policy (par_pin run) = Ok policy
    ∧ policy.2 = op_policy_revision planned;
  pc_read : ∃ c, classify (sap_sql payload) (cp_engine (pc_profile (par_pin run))) = Ok c
    ∧ single_read c = true;
  pc_context : cx_pin (par_context run) = par_pin run;
  pc_sql : evc_sql (par_event_context run) = sap_sql payload;
  pc_rows : par_max_rows run ≤ Z.min (sap_max_rows payload) MAX_AGENT_ROWS;
}.

Definition agent_allowed (h : history) (c : Call.t) : Prop :=
  match c with
  | Call.OperationPlan _ _ | Call.FetchRows _ _ _ | Call.DocumentRun _ _ _ _
  | Call.Begin _ | Call.Execute _ _ | Call.Commit _ | Call.Rollback _ | Call.ExecutePool _ _ => False
  | Call.OperationClaim id => id = plan_id
  | Call.OperationFinish id target details =>
      value_exact details = true ∧ OperationState.is_terminal target = true ∧ names_plan plan_id h id
  | Call.ReadOnlyRun pool sql max =>
      ∃ planned payload run, plan_confirmed h planned payload run ∧ sql = sap_sql payload
        ∧ max ≤ Z.min (sap_max_rows payload) MAX_AGENT_ROWS
  | _ => True
  end.

Lemma agent_allowed_quiet h c : quiet c = true → agent_allowed h c.
Proof. by destruct c. Qed.

Lemma plan_valid_app l h planned payload :
  plan_valid h planned payload → plan_valid (l ++ h) planned payload.
Proof. intros []. split; try done. apply elem_of_app. by right. Qed.

Lemma plan_confirmed_app l h planned payload run :
  plan_confirmed h planned payload run → plan_confirmed (l ++ h) planned payload run.
Proof.
  intros [Hv ? ? [? ?]]. split; try done; [by apply plan_valid_app|..|split; [done|]];
    apply elem_of_app; by right.
Qed.

(** *** Settling *)

Lemma wp_finish_plan id target details h (Q : AppResult OperationRecord → history → Prop) :
  value_exact details = true → OperationState.is_terminal target = true → names_plan plan_id h id →
  (∀ r, plan_settled plan_id (Entry (Call.OperationFinish id target details) r :: h) →
     Q r (Entry (Call.OperationFinish id target details) r :: h)) →
  wp answer_ok agent_allowed (operation_finish id target details) Q h.
Proof.
  intros Hd Ht Hn HQ. split; [done|]. intros r _. apply HQ.
  exists id. split; [by apply (names_plan_app _ [_])|]. exists target, details, r. left.
Qed.

Lemma wp_quiet_after {A} (p : program A) h (Q : A → history → Prop) :
  quiet_program p → (∀ a l, quiet_history l → Q a (l ++ h)) →
  wp answer_ok agent_allowed p Q h.
Proof. intros Hp HQ. apply (wp_only quiet); [by intros; apply agent_allowed_quiet|done..]. Qed.

Lemma error_details_exact e s : value_exact (error_details e s) = true.
Proof. done. Qed.

Lemma wp_refuse_plan {A} details error h (Q : result AgentQueryRunPrepareError A → history → Prop) :
  value_exact details = true → names_plan plan_id h plan_id → (∀ h', plan_settled plan_id h' → Q (Err error) h') →
  wp answer_ok agent_allowed (refuse_plan plan_id details error) Q h.
Proof.
  intros Hd Hn HQ. unfold refuse_plan. wp_step. apply wp_finish_plan; [done..|].
  intros r Hs. wp_step. by apply HQ.
Qed.

(** *** Claiming *)

(** A plan that is refused is settled, one that is prepared is confirmed. *)
Definition prepared_or_settled (planned : OperationRecord) (payload : StoredAgentReadPayload)
  (r : result AgentQueryRunPrepareError PreparedAgentQueryRun) (h : history) : Prop :=
  match r with
  | Ok run => plan_confirmed h planned payload run
  | Err _ => plan_settled plan_id h
  end.

Lemma wp_confirm_plan planned payload claimed cancellation h :
  plan_valid h planned payload → Entry (Call.OperationClaim plan_id) (Ok claimed) ∈ h →
  wp answer_ok agent_allowed
    (confirm_plan plan_id planned payload terminal claimed cancellation)
    (prepared_or_settled planned payload) h.
Proof.
  intros Hv Hcl. assert (names_plan plan_id h plan_id) as Hn by (by exists claimed; split; [|left]).
  unfold confirm_plan. wp_step.
  eapply wp_mono; [|apply wp_manager_pin, agent_allowed_quiet].
  intros r h1 (l1 & -> & _ & Hpin).
  pose proof (names_plan_app _ l1 _ _ Hn) as Hn1.
  destruct r as [context|e]; [|by apply wp_refuse_plan].
  destruct (Hpin context eq_refl) as (_ & Hpinned & Hcur). cbv zeta.
  destruct (match terminal with Some authority => _ | None => _ end) as [[]|e] eqn:Hterm;
    [|by apply wp_refuse_plan].
  destruct (ensure_operation_scope planned (cx_pin context)) as [[]|e] eqn:Hscope;
    [|by apply wp_refuse_plan].
  wp_step. wp_step; [done|]. wp_step.
  pose proof (names_plan_app _ [Entry (Call.GetSafety (pc_connection_id (cx_pin context))) r]
    _ _ Hn1) as Hn2.
  destruct r as [settings|e]; [|by apply wp_refuse_plan].
  destruct (capture_agent_read_policy (cx_pin context)) as [policy|e] eqn:Hpol;
    [|by apply wp_refuse_plan].
  wp_if Hrev; [by apply wp_refuse_plan|].
  destruct (classify _ _) as [classification|e] eqn:Hclass; [|by apply wp_refuse_plan].
  wp_if Hread; [by apply wp_refuse_plan|]. bools. wp_step.
  split; cbn; try done.
  - by apply (plan_valid_app (_ :: l1)).
  - right. apply elem_of_app. by right.
  - by right.
  - split; [apply Hcur|]. right. apply Hcur.
  - unfold ensure_terminal_pin. by destruct terminal.
  - by exists policy.
  - by exists classification.
  - lia.
Qed.

Lemma wp_plan_expired planned h :
  wp answer_ok agent_allowed (plan_expired planned)
    (λ _ h', ∃ l, h' = l ++ h ∧ quiet_history l) h.
Proof.
  apply (wp_only quiet); [by intros; apply agent_allowed_quiet|unfold plan_expired; solve_only|].
  intros _ l Hl. by exists l.
Qed.

Lemma wp_prepare :
  wp answer_ok agent_allowed (prepare_agent_run_scoped plan_id terminal)
    (λ r h, match r with
            | Ok run => ∃ planned payload, plan_confirmed h planned payload run
            | Err _ => claimed_in h plan_id → plan_settled plan_id h
            end) [].
Proof.
  unfold prepare_agent_run_scoped. wp_step. wp_step; [done|]. wp_step.
  set (h0 := [Entry (Call.OperationGet plan_id) r]).
  assert (∀ l, quiet_history l → claimed_in (l ++ h0) plan_id → plan_settled plan_id (l ++ h0)) as Hno.
  { intros l Hl H. exfalso. eapply quiet_unclaimed; [|exact H].
    apply only_history_app; [done|by repeat constructor]. }
  assert (claimed_in h0 plan_id → plan_settled plan_id h0) as Hno0 by (by apply (Hno []), List.Forall_nil).
  destruct r as [planned|e]; [|done].
  wp_if Hkind; [exact Hno0|]. wp_step; [|exact Hno0].
  wp_if Hactor; [exact Hno0|]. wp_if Hsession; [exact Hno0|]. wp_if Hstate; [exact Hno0|].
  wp_step. eapply wp_mono; [|apply wp_plan_expired]. intros expired h1 (l1 & -> & Hl1).
  wp_step. wp_step; [done|]. wp_step. wp_step. wp_step; [done|]. wp_step. wp_step.
  set (registered := Entry (Call.Register plan_id) r).
  rename r0 into claimed. set (h2 := Entry (Call.OperationClaim plan_id) claimed :: _).
  assert (plan_valid h2 planned x) as Hv.
  { bools. apply ok_or_Ok in Hx. split; try done; [|lia].
    right. right. apply elem_of_app. right. left. }
  destruct claimed as [claimed|e].
  - eapply wp_mono; [|apply (wp_confirm_plan planned); [exact Hv|left]].
    intros [run|e] h3 H3; [by wp_step; exists planned, x|].
    wp_step. wp_step; [done|]. wp_step. wp_step. intros _. by apply (plan_settled_app _ [_]).
  - wp_step. cbv beta iota. wp_step. wp_step; [done|]. wp_step. wp_step. intros H. exfalso.
    apply claimed_in_cons in H; [|done]. apply claimed_in_cons in H; [|done].
    apply claimed_in_cons in H; [|done]. revert H. apply quiet_unclaimed.
    apply only_history_app; [done|by repeat constructor].
Qed.

(** *** Executing *)

Lemma unpolled_confirmed h h' planned payload run :
  unpolled h = unpolled h' → plan_confirmed h planned payload run →
  plan_confirmed h' planned payload run.
Proof.
  intros Hu [[] ? ? [? ?]]. split; try done; [split; try done|..|split; [done|]];
    by eapply unpolled_in.
Qed.

Lemma unpolled_agent h h' c :
  unpolled h = unpolled h' → agent_allowed h c → agent_allowed h' c.
Proof.
  intros Hu. destruct c; cbn; try done.
  - intros (? & ? & cl & Hcl & ?). split_and!; try done. exists cl. split; [|done].
    by eapply unpolled_in.
  - intros (planned & payload & run & Hp & ?). exists planned, payload, run.
    split; [by eapply unpolled_confirmed|done].
Qed.

Lemma wp_read_only planned payload run pool h :
  plan_confirmed h planned payload run →
  wp answer_ok agent_allowed
    (read_only_cancellable pool (evc_sql (par_event_context run)) (par_max_rows run)
       (Some (par_cancellation run)))
    (λ r _, ∀ q, r = Ok q → 0 ≤ qr_row_count q ≤ u64_max ∧ 0 ≤ qr_duration_ms q ≤ u64_max) h.
Proof.
  intros Hc. apply wp_guarded; [apply unpolled_agent|done| |done|].
  - intros signal r h' Hi q ->. by destruct signal.
  - unfold read_only_run. wp_step; [|exact Hr].
    exists planned, payload, run. split_and!; [done|by eapply pc_sql|by eapply pc_rows].
Qed.

Lemma wp_abandon_plan run error reason h (Q : unit → history → Prop) :
  names_plan plan_id h (plan_record_id run) → (∀ h', plan_settled plan_id h' → Q tt h') →
  wp answer_ok agent_allowed (abandon_plan run error reason) Q h.
Proof.
  intros Hn HQ. unfold abandon_plan. wp_step.
  apply wp_quiet_after; [unfold record_run_failure, audit_best_effort, persist_history; solve_only|].
  intros _ l Hl. wp_step. apply wp_finish_plan; [done..|by apply names_plan_app|].
  intros r Hs. wp_step. by apply HQ.
Qed.

Lemma read_receipt_exact q id :
  0 ≤ qr_row_count q ≤ u64_max → 0 ≤ qr_duration_ms q ≤ u64_max →
  value_exact (VObject [("durationMs", value_of_u64 (qr_duration_ms q));
                        ("queryRunId", uuid_to_value id);
                        ("rowCount", value_of_u64 (qr_row_count q))]) = true.
Proof.
  intros Hr Hd. apply object_exact. split; [by apply (bool_decide_unpack _); vm_compute|].
  apply List.Forall_cons; [by apply value_of_u64_exact|].
  apply List.Forall_cons; [done|]. apply List.Forall_cons; [by apply value_of_u64_exact|constructor].
Qed.

Lemma wp_receive_read run q h (Q : result AgentQueryRunError AgentQueryRun → history → Prop) :
  0 ≤ qr_row_count q ≤ u64_max → 0 ≤ qr_duration_ms q ≤ u64_max →
  names_plan plan_id h (plan_record_id run) → (∀ r h', plan_settled plan_id h' → Q r h') →
  wp answer_ok agent_allowed (receive_read run q) Q h.
Proof.
  intros Hrows Hdur Hn HQ. unfold receive_read. cbv zeta. wp_step.
  apply wp_quiet_after; [unfold audit_best_effort; solve_only|]. intros _ l1 Hl1.
  wp_step. apply wp_quiet_after; [unfold persist_history; solve_only|]. intros persisted l2 Hl2.
  pose proof (names_plan_app _ l2 _ _ (names_plan_app _ l1 _ _ Hn)) as Hn2.
  destruct persisted as [id|e]; wp_step.
  - apply wp_finish_plan; [by apply read_receipt_exact|done|exact Hn2|].
    intros [op|e] Hs; [wp_step; by apply HQ|]. wp_step.
    apply wp_finish_plan; [done..|by apply (names_plan_app _ [_])|].
    intros r Hs'. wp_step. by apply HQ.
  - apply wp_finish_plan; [done..|]. intros r Hs. wp_step. by apply HQ.
Qed.

Lemma wp_execute_read planned payload run h :
  plan_confirmed h planned payload run →
  wp answer_ok agent_allowed (execute_read run) (λ _ h', plan_settled plan_id h') h.
Proof.
  intros Hc. assert (names_plan plan_id h (plan_record_id run)) as Hn.
  { exists (par_claimed run). split; [by eapply pc_claimed|by right]. }
  unfold execute_read. cbv zeta. wp_step.
  eapply wp_mono; [|apply wp_context_connect, agent_allowed_quiet].
  intros connected h1 (l1 & -> & _ & _).
  pose proof (names_plan_app _ l1 _ _ Hn) as Hn1. clear Hn.
  pose proof (plan_confirmed_app l1 _ _ _ _ Hc) as Hc1. clear Hc.
  destruct connected as [lease|e]; [|wp_step; apply wp_abandon_plan; [done|]; by intros; wp_step].
  destruct (live_sql (ls_live lease)) as [live|e];
    [|wp_step; apply wp_abandon_plan; [done|]; by intros; wp_step].
  wp_step. eapply wp_mono; [|by eapply wp_frame, wp_read_only].
  intros executed h2 [Hq [l2 ->]]. pose proof (names_plan_app _ l2 _ _ Hn1) as Hn2.
  destruct executed as [q|e].
  - destruct (Hq q eq_refl). by apply wp_receive_read.
  - wp_step. wp_if Hcan; [|apply wp_abandon_plan; [done|]; by intros; wp_step].
    wp_step. apply wp_quiet_after;
      [unfold record_run_failure, audit_best_effort, persist_history; solve_only|].
    intros _ l Hl. wp_step. apply wp_finish_plan; [done..|by apply names_plan_app|].
    intros r Hs. wp_step. by wp_step.
Qed.

Lemma wp_agent_run :
  wp answer_ok agent_allowed (agent_run plan_id terminal)
    (λ _ h, claimed_in h plan_id → plan_settled plan_id h) [].
Proof.
  unfold agent_run. wp_step. eapply wp_mono; [|apply wp_prepare].
  intros [run|e] h; [|done]. intros (planned & payload & Hc). wp_step.
  unfold execute_prepared_run. wp_step. eapply wp_mono; [|by eapply wp_execute_read].
  intros executed h1 Hs. wp_step. wp_step; [done|]. wp_step. wp_step. wp_step.
  intros _. by apply (plan_settled_app _ [_]).
Qed.

End agent.

(** *** Planning *)

Section planning.
Context {P : Platform} {SD : Serde} {C : ChronoSerde} {D : ErrorDisplay} {parser : SqlParser}.
Variable terminal : option TerminalAuthority.

(** What a plan asks of the runtime. *)
Record read_plan (request : AgentQueryPlanRequest) (h : history) (o : NewOperation)
  (d : OperationPlanDisposition) : Prop := {
  rp_disposition : d = Runtime.Ready;
  rp_kind : new_kind o = OperationKind.ReadQuery;
  rp_agent : actor_kind (new_actor o) = OperationActorKind.Agent;
  rp_single_use : new_single_use o = true;
  rp_key : new_idempotency_key o = uuid_to_string (new_id o);
  rp_session : new_terminal_session_id o = ta_terminal_session_id <$> terminal;
  rp_pin : ∃ pin settings decision policy,
    Entry (Call.PinForRead (apq_connection_id request)) (Ok pin) ∈ h
    ∧ Entry (Call.GetSafety (cp_id (pc_profile pin))) (Ok settings) ∈ h
    ∧ pin_confirmed pin ConnectionAccess.Read h ∧ ensure_terminal_pin terminal pin
    ∧ (∃ c, classify (apq_sql request) (cp_engine (pc_profile pin)) = Ok c
         ∧ single_read c = true)
    ∧ capture_agent_read_policy pin = Ok policy
    ∧ new_policy_snapshot o = policy.1 ∧ new_policy_revision o = policy.2
    ∧ new_connection_id o = pc_connection_id pin
    ∧ new_workspace_id o = sc_workspace_id (pc_scope pin)
    ∧ new_connection_revision o = pc_connection_revision pin
    ∧ new_payload o = agent_payload_to_value
        {| sap_sql := apq_sql request;
           sap_max_rows := bounded_max_rows (apq_max_rows request) (max_rows settings);
           sap_decision := decision; sap_origin := apq_origin request |};
}.

(** Planning runs no statement of the user: the preview is an EXPLAIN. *)
Definition planning_allowed (request : AgentQueryPlanRequest) (h : history) (c : Call.t) : Prop :=
  match c with
  | Call.OperationPlan o d => read_plan request h o d
  | c => quiet c = true
  end.

Lemma wp_plan_agent_read request :
  wp answer_ok (planning_allowed request) (plan_agent_read_scoped request terminal)
    (λ _ _, True) [].
Proof.
  assert (∀ h c, quiet c = true → planning_allowed request h c) as Ha by (by intros h []).
  unfold plan_agent_read_scoped. wp_step. eapply wp_mono; [|by apply wp_manager_pin].
  intros r h1 (l1 & -> & _ & Hpin). rewrite app_nil_r in *. destruct r as [context|e]; [|done].
  destruct (Hpin context eq_refl) as (_ & Hpinned & Hcur). cbv zeta. wp_if Hdoc; [done|].
  wp_step; [|done]. wp_if Hread; [done|]. bools. wp_step. wp_step; [done|]. wp_step.
  destruct r as [settings|e]; [|done]. wp_step; [|done]. wp_step; [|done].
  assert (ensure_terminal_pin terminal (cx_pin context)) as Hterm.
  { unfold ensure_terminal_pin. destruct terminal; [|done]. by destruct x0. }
  clear Hpin. set (h2 := Entry (Call.GetSafety _) _ :: l1).
  wp_step. eapply wp_mono; [|by apply wp_context_connect].
  intros r h3 (l3 & -> & _ & _). destruct r as [lease|e]; [|done]. wp_step; [|done].
  wp_step. apply (wp_only quiet); [done|apply quiet_preview|]. intros r l4 _.
  destruct r as [report|e]; [|done]. wp_step. wp_step; [done|]. wp_step.
  destruct (planning_guidance _ _ _ _) as [[decision notices] suggestions].
  wp_step. wp_step; [done|]. wp_step. wp_step.
  apply (wp_only quiet); [done|unfold audit_best_effort; solve_only|]. intros _ l5 _.
  wp_step. wp_step; [done|]. wp_step. wp_step. wp_step; [|wp_step; lazymatch goal with |- match ?a with _ => _ end => destruct a; exact I end].
  set (h6 := Entry Call.Now _ :: _).
  assert (∀ e, e ∈ h2 → e ∈ h6) as Hin.
  { intros en Hen. right. apply elem_of_app. right. right. right. apply elem_of_app. right.
    apply elem_of_app. by right. }
  split; cbn; try done; [by unfold agent_actor; destruct terminal|].
  exists (cx_pin context), settings, decision, x1.
  split_and!; try done.
  - apply Hin. by right.
  - apply Hin. left.
  - destruct Hcur as [? Hcur]. split; [done|]. apply Hin. by right.
  - by exists x.
Qed.
End planning.

(** ** Agent reads against a live world

    The theorems of AgentTheorems.v in a world that other tasks change between
    the calls of a run. *)

Section safety.
Context {P : Platform} {L : PlatformLaws P} {SD : Serde} {SL : SerdeLaws SD}
  {D : ErrorDisplay} {parser : SqlParser}.

Lemma agent_allowed_wf plan_id terminal h c : agent_allowed plan_id terminal h c → call_wf c.
Proof. destruct c; cbn; try done. tauto. Qed.

Lemma agent_run_world {A} self plan_id terminal w w' h (q : program A) p Q :
  safe (w_ops w) → reaches others (respond self) p w [] q w' h →
  wp answer_ok (agent_allowed plan_id terminal) p Q [] →
  world_ok w' h ∧ wp answer_ok (agent_allowed plan_id terminal) q Q h.
Proof.
  intros Hs Hr Hwp. split.
  - eapply world_ok_reaches; [apply agent_allowed_wf|exact Hr|exact Hwp|exact Hs].
  - eapply reaches_wp; [apply respond_answer_ok|exact Hr|exact Hwp].
Qed.

Lemma names_plan_id w h plan_id id : world_ok w h → names_plan plan_id h id → id = plan_id.
Proof.
  intros [_ Hf] (claimed & Hcl & [->| ->]); [done|].
  destruct (Hf _ Hcl claimed eq_refl) as [-> _ _ _ _]. done.
Qed.

(** What the stored tables hold for a read that is sent. *)
Record read_permit (w : World) (plan_id : Uuid) (terminal : option TerminalAuthority)
  (op : OperationRecord) (payload : StoredAgentReadPayload) (pin : PinnedConnection) : Prop := {
  rd_stored : get plan_id (w_ops w) = Ok op;
  rd_digest : canonical_hash (op_payload op) = Ok (op_payload_hash op);
  rd_kind : op_kind op = OperationKind.ReadQuery;
  rd_payload : agent_payload_from_value (op_payload op) = Some payload;
  rd_session : op_terminal_session_id op = ta_terminal_session_id <$> terminal;
  rd_terminal : ensure_terminal_pin terminal pin;
  rd_scope : ensure_operation_scope op pin = Ok tt;
  rd_policy : ∃ policy, capture_agent_read_policy pin = Ok policy
    ∧ policy.2 = op_policy_revision op;
  rd_granted : local_authority pin ConnectionAccess.Read = Ok tt;
  rd_read : ∃ c, classify (sap_sql payload) (cp_engine (pc_profile pin)) = Ok c
    ∧ single_read c = true;
}.

Lemma plan_confirmed_permit w h plan_id terminal planned payload run :
  world_ok w h → plan_confirmed plan_id terminal h planned payload run →
  ∃ op, read_permit w plan_id terminal op payload (par_pin run).
Proof.
  intros [Hs Hf] [[Hget _ Hkind _ Hpay Hses _] _ _ [Hgr _] Hterm Hscope (policy & Hpol & Hrev)
    Hread _ _ _].
  destruct (Hf _ Hget planned eq_refl) as [Hid (op & Hst & Hop)]. rewrite Hid in Hst.
  exists op. split; try (rewrite Hop; done); try done.
  - destruct (get_stored _ _ _ (safe_Inv _ Hs) Hst) as (r & t & _ & Hr & _).
    by eapply record_payload_hash, st_decode.
  - exists policy. split; [done|]. by rewrite Hop.
Qed.
End safety.

(** C3. An agent's run only reads: whatever other tasks do meanwhile, no call of
    it opens a transaction or plans an operation; a statement is sent only through
    the read-only path, and it is the SQL of the stored plan, whose payload has the
    stored digest, which this run's session planned, in a scope and under a
    policy that are still the plan's, as the connection this run pinned shows
    ([plan_confirmed]), classified again as a single read, and with at most 1000
    rows and no more than planned. *)
Theorem agent_run_only_reads {P : Platform} {L : PlatformLaws P} {SD : Serde} {SL : SerdeLaws SD}
    {D : ErrorDisplay} {parser : SqlParser} self plan_id terminal w w' h c k :
  safe (w_ops w) →
  reaches others (respond self) (agent_run plan_id terminal) w [] (Vis c k) w' h →
  in_transaction c = false
  ∧ (is_fetch c = true → ∃ pool sql max op payload planned run,
       c = Call.ReadOnlyRun pool sql max
       ∧ read_permit w' plan_id terminal op payload (par_pin run)
       ∧ plan_confirmed plan_id terminal h planned payload run
       ∧ sql = sap_sql payload ∧ max ≤ Z.min (sap_max_rows payload) MAX_AGENT_ROWS).
Proof.
  intros Hs Hr. destruct (agent_run_world _ _ _ _ _ _ _ _ _ Hs Hr (wp_agent_run plan_id terminal))
    as [Hw [Ha _]].
  split; [by destruct c|]. intros Hf. destruct c; try done.
  destruct Ha as (planned & payload & run & Hc & -> & Hmax).
  destruct (plan_confirmed_permit _ _ _ _ _ _ _ Hw Hc) as [op Hop].
  exists pool, (sap_sql payload), max, op, payload, planned, run. by split_and!.
Qed.

(** A claimed plan is always settled: when an agent's run returns after its
    claim succeeded, on any of its error paths or after the read, it has sent a
    terminal verdict for the plan's operation, and if the store accepted it the
    operation is in that state. *)
Theorem agent_run_settles {P : Platform} {L : PlatformLaws P} {SD : Serde} {SL : SerdeLaws SD}
    {D : ErrorDisplay} {parser : SqlParser} self plan_id terminal w w' h r claimed :
  safe (w_ops w) →
  reaches others (respond self) (agent_run plan_id terminal) w [] (Ret r) w' h →
  Entry (Call.OperationClaim plan_id) (Ok claimed) ∈ h →
  ∃ target details answer, Entry (Call.OperationFinish plan_id target details) answer ∈ h
    ∧ ∀ op, answer = Ok op → finished_as w' plan_id target.
Proof.
  intros Hs Hr Hcl. destruct (agent_run_world _ _ _ _ _ _ _ _ _ Hs Hr (wp_agent_run plan_id terminal))
    as [Hw Hset].
  destruct Hset as (id & Hn & target & details & answer & Hin); [by exists claimed|].
  rewrite (names_plan_id _ _ _ _ Hw Hn) in Hin. exists target, details, answer. split; [done|].
  destruct Hw as [_ Hf]. exact (Hf _ Hin).
Qed.

(** C24. Planning an agent's read runs no statement of it: the only call that is
    not a lookup, a preview or an audit record is the plan itself, and it asks for
    a single-use read operation of the Terminal's session, ready to run, under the
    captured policy of a connection that was authorised for reading, whose
    payload is the request's SQL, classified as a single read, with a row limit
    that is the one requested, or when none is requested the one of the
    connection's settings read under that pin, and never above 1000. *)
Theorem agent_plan_bounded {P : Platform} {SD : Serde} {C : ChronoSerde} {D : ErrorDisplay}
    {parser : SqlParser} self request terminal w w' h c k :
  reaches others (respond self) (plan_agent_read_scoped request terminal) w [] (Vis c k) w' h →
  quiet c = true ∨ ∃ o d, c = Call.OperationPlan o d ∧ read_plan terminal request h o d
    ∧ ∃ pin settings payload,
        Entry (Call.PinForRead (apq_connection_id request)) (Ok pin) ∈ h
        ∧ pin_confirmed pin ConnectionAccess.Read h
        ∧ Entry (Call.GetSafety (cp_id (pc_profile pin))) (Ok settings) ∈ h
        ∧ new_payload o = agent_payload_to_value payload
        ∧ sap_sql payload = apq_sql request
        ∧ sap_max_rows payload
          = Z.min match apq_max_rows request with
                  | Some requested => requested
                  | None => max_rows settings
                  end 1000.
Proof.
  intros Hr. pose proof (wp_plan_agent_read terminal request) as Hwp.
  eapply reaches_wp in Hwp; [|apply respond_answer_ok|exact Hr]. destruct Hwp as [Ha _].
  destruct c; try (by left). right. exists operation, disposition. split_and!; [done|done|].
  destruct (rp_pin _ _ _ _ _ Ha)
    as (pin & settings & decision & policy & H1 & H2 & H3 & _ & _ & _ & _ & _ & _ & _ & _ & H4).
  exists pin, settings. eexists. split_and!; [exact H1|exact H3|exact H2|exact H4|done|].
  cbn. unfold bounded_max_rows, MAX_AGENT_ROWS. by destruct (apq_max_rows request).
Qed.

(** ** A concrete plan *)

Module AgentSample.
#[export] Instance chrono : ChronoSerde := {|
  datetime_to_string := rfc3339_nanos; datetime_from_str := parse_rfc3339 |}.
Definition policy : Value * string :=
  match capture_agent_read_policy RunSample.pin with Ok p => p | Err _ => (VNull, "") end.
Definition payload : StoredAgentReadPayload :=
  {| sap_sql := "SELECT 1"; sap_max_rows := 10; sap_decision := "ready"; sap_origin := Mcp |}.

Definition operation : NewOperation := {|
  new_id := Sample.uid 1; new_workspace_id := Sample.uid 2; new_account_scope := "a";
  new_connection_id := Sample.uid 3; new_connection_revision := 1;
  new_terminal_session_id := None; new_actor := agent_actor RunSample.pin Mcp None;
  new_kind := OperationKind.ReadQuery; new_payload_schema_version := 1;
  new_payload := agent_payload_to_value payload; new_schema_fingerprint := None;
  new_risk_level := OperationRiskLevel.Low; new_preview := VNull;
  new_policy_snapshot := policy.1; new_policy_revision := policy.2; new_single_use := true;
  new_idempotency_key := "k"; new_expires_at := Some 1000 |}.
Lemma agent_operation_ok : new_operation_ok operation.
Proof. repeat split; by vm_compute. Qed.

Definition world : World :=
  {| w_ops := (plan (Sample.uid 11) (Sample.uid 12) 10 11 (λ x, x) RuntimeSample.self operation
       Runtime.Ready empty_db).2; w_audit := [] |}.
Lemma agent_world_safe : safe (w_ops world).
Proof.
  eapply activity_safe; [|apply safe_empty]. unfold world. cbn [w_ops].
  apply activity_plan; [by apply (bool_decide_unpack _)..|apply agent_operation_ok].
Qed.
End AgentSample.

#[export] Existing Instance AgentSample.chrono.

Lemma agent_run_only_reads_witness :
  ∃ w' h pool max k op payload pin, reaches others (respond RuntimeSample.self)
      (agent_run (Sample.uid 1) None) AgentSample.world []
      (Vis (Call.ReadOnlyRun pool "SELECT 1" max) k) w' h
    ∧ read_permit w' (Sample.uid 1) None op payload pin ∧ sap_sql payload = "SELECT 1".
Proof.
  pose proof AgentSample.agent_world_safe as Hs.
  assert (match exec_until RunSample.oracle is_fetch (agent_run (Sample.uid 1) None)
            AgentSample.world [] with
          | Some (Vis (Call.ReadOnlyRun _ sql _) _, _, _) => (sql =? "SELECT 1")%string
          | _ => false
          end = true) as Hc by (vm_compute; reflexivity).
  revert Hs Hc. generalize AgentSample.world. intros w Hs Hc.
  destruct (exec_until _ _ _ w _) as [[[q w'] h]|] eqn:He; [|done].
  destruct q as [|c k]; [done|]. destruct c; try done. apply String.eqb_eq in Hc as ->.
  apply (exec_until_reaches others (respond RuntimeSample.self)) in He;
    [|apply RunSample.world_still|apply RunSample.oracle_responds].
  destruct (agent_run_only_reads RuntimeSample.self (Sample.uid 1) None w w' h _ k Hs He)
    as (_ & Hf).
  destruct (Hf eq_refl) as (pool' & sql & max' & op & payload & planned & run & Heq & Hp & _ & Hsql & _).
  injection Heq as _ <- _.
  exists w', h, pool, max, k, op, payload, (par_pin run). split_and!; [exact He|exact Hp|by symmetry].
Defined.

Lemma agent_run_settles_witness :
  ∃ w' h r target details answer, reaches others (respond RuntimeSample.self)
      (agent_run (Sample.uid 1) None) AgentSample.world [] (Ret r) w' h
    ∧ Entry (Call.OperationFinish (Sample.uid 1) target details) answer ∈ h
    ∧ ∀ op, answer = Ok op → finished_as w' (Sample.uid 1) target.
Proof.
  pose proof AgentSample.agent_world_safe as Hs.
  assert (existsb (RunSample.claims (Sample.uid 1))
            (exec RunSample.oracle (agent_run (Sample.uid 1) None) AgentSample.world []).2 = true)
    as Hc by (vm_compute; reflexivity).
  revert Hs Hc. generalize AgentSample.world. intros w Hs Hc.
  destruct (exec _ _ w _) as [[r w'] h] eqn:He. cbn [snd] in Hc.
  apply existsb_exists in Hc as ([c a] & Hin & Hcl). apply list_elem_of_In in Hin.
  apply (exec_reaches others (respond RuntimeSample.self)) in He;
    [|apply RunSample.world_still|apply RunSample.oracle_responds].
  destruct c; try done. destruct a as [claimed|]; [|done]. apply bool_decide_eq_true in Hcl as ->.
  destruct (agent_run_settles RuntimeSample.self (Sample.uid 1) None w w' h r claimed Hs He Hin)
    as (target & details & answer & H1 & H2).
  exists w', h, r, target, details, answer. split_and!; [exact He|exact H1|exact H2].
Defined.

Lemma agent_plan_bounded_witness :
  ∃ w' h o d k, reaches others (respond RuntimeSample.self)
      (plan_agent_read_scoped {| apq_connection_id := Sample.uid 3; apq_sql := "SELECT 1";
         apq_max_rows := Some 5000; apq_origin := Mcp |} None)
      RunSample.world [] (Vis (Call.OperationPlan o d) k) w' h
    ∧ ∃ payload, new_payload o = agent_payload_to_value payload
        ∧ sap_sql payload = "SELECT 1" ∧ sap_max_rows payload = 1000.
Proof.
  set (request := Build_AgentQueryPlanRequest _ _ _ _).
  assert (match exec_until RunSample.oracle RunSample.is_plan (plan_agent_read_scoped request None)
            RunSample.world [] with
          | Some (Vis (Call.OperationPlan _ _) _, _, _) => true
          | _ => false
          end = true) as Hc by (vm_compute; reflexivity).
  revert Hc. generalize RunSample.world. intros w Hc.
  destruct (exec_until _ _ _ w _) as [[[q w'] h]|] eqn:He; [|done].
  destruct q as [|c k]; [done|]. destruct c; try done.
  apply (exec_until_reaches others (respond RuntimeSample.self)) in He;
    [|apply RunSample.world_still|apply RunSample.oracle_responds].
  destruct (agent_plan_bounded RuntimeSample.self request None w w' h _ k He)
    as [Hq|(o & d & Heq & _ & pin & settings & payload & _ & _ & _ & H1 & H2 & H3)]; [done|].
  injection Heq as <- <-.
  exists w', h, operation, disposition, k. split; [exact He|]. by exists payload.
Defined.
