(* ===== verification/ScriptService.v ===== *)
(** * SQL scripts (src-tauri/src/services/script_service.rs)

    A script is proposed and executed like a single statement, split into
    statements that run in order: reads one by one on the read-only pool, a script
    with a write in one transaction.  [prepare_script] is [run_desktop] up to and
    including the claim; [settle_script] is [run_write] after the transaction. *)

From S2P Require Export SqlScript QueryService.

(** [Iterator::sum] of [i64]s in a release build. *)
Definition sum_i64 (l : list Z) : Z := foldl (λ acc n, wrap_i64 (acc + n)) 0 l.

(** [Vec::len]: a 64-bit [usize]; no vector is longer. *)
Definition vec_len {A} (l : list A) : Z := Z.of_nat (length l) mod 2 ^ 64.

Section types.
Context {P : Platform}.

Record DesktopScriptProposalRequest := {
  dcp_connection_id : Uuid; dcp_sql : string; dcp_origin : option string;
}.
Record DesktopScriptProposalReceipt := {
  dcr_operation_id : Uuid; dcr_payload_hash : string; dcr_state : OperationState.t;
  dcr_approval_required : bool; dcr_confirmation_phrase : option string;
  dcr_statement_count : Z; dcr_expires_at : DateTime;
}.

Record StoredDesktopScriptPayload := { scp_sql : string; scp_history_origin : string }.
Definition script_payload_to_value (p : StoredDesktopScriptPayload) : Value :=
  VObject [("sql", VString (scp_sql p)); ("historyOrigin", VString (scp_history_origin p))].
Definition script_payload_from_value : Value → option StoredDesktopScriptPayload :=
  de_struct ["sql"; "historyOrigin"] (λ field,
    sql ← required de_string (field "sql");
    history_origin ← required de_string (field "historyOrigin");
    Some {| scp_sql := sql; scp_history_origin := history_origin |}).

(** A scoped or execution failure is the error it carries. *)
Inductive DesktopScriptRunError :=
| ScriptApplication (error : AppError)
| ScriptScoped (error : AppError)
| ScriptExecution (error : AppError).

Definition script_run_error_into_error (self : DesktopScriptRunError) : AppError :=
  match self with
  | ScriptApplication error | ScriptScoped error | ScriptExecution error => error
  end.

Record ScriptStatement := {
  ss_sql : string; ss_result : option QueryResult; ss_affected : option Z;
  ss_error : option string;
}.
Record ScriptOutcome := {
  so_statements : list ScriptStatement; so_committed : bool; so_all_reads : bool;
}.

Record PreparedScriptRun := {
  psr_pin : PinnedConnection; psr_operation : ClaimedOperation;
  psr_payload : StoredDesktopScriptPayload; psr_statements : list string;
  psr_kinds : list QueryKind.t; psr_settings : SafetySettings;
}.
Definition psr_engine (run : PreparedScriptRun) : Engine.t := cp_engine (pc_profile (psr_pin run)).

Definition statement_ok (sql : string) (affected : Z) : ScriptStatement :=
  {| ss_sql := sql; ss_result := None; ss_affected := Some (wrap_i64 affected); ss_error := None |}.
Definition statement_error (sql message : string) : ScriptStatement :=
  {| ss_sql := sql; ss_result := None; ss_affected := None; ss_error := Some message |}.
Definition statement_skipped (sql : string) : ScriptStatement :=
  statement_error sql "skipped — transaction rolled back".

Definition script_has_write (kinds : list QueryKind.t) : bool := existsb (λ k, negb (is_read k)) kinds.

Definition script_operation_risk (classifications : list Classification) : OperationRiskLevel.t :=
  if existsb (λ c, cl_no_where c && negb (is_read (cl_kind c))) classifications
  then OperationRiskLevel.Critical
  else foldl (λ risk c,
         match risk, cl_risk c with
         | OperationRiskLevel.High, _ | _, QueryRisk.High => OperationRiskLevel.High
         | OperationRiskLevel.Medium, _ | _, QueryRisk.Medium => OperationRiskLevel.Medium
         | _, _ => OperationRiskLevel.Low
         end) OperationRiskLevel.Low classifications.

Definition is_privilege (k : QueryKind.t) : bool :=
  match k with QueryKind.Privilege => true | _ => false end.
Definition is_ddl (k : QueryKind.t) : bool :=
  match k with QueryKind.Ddl => true | _ => false end.

(** The kind a script with a write is recorded as. *)
Definition script_kind (kinds : list QueryKind.t) : QueryKind.t :=
  if existsb is_ddl kinds then QueryKind.Ddl
  else if existsb is_privilege kinds then QueryKind.Privilege
  else QueryKind.Write.

Definition script_operation_kind (kinds : list QueryKind.t) : OperationKind.t :=
  if script_has_write kinds then OperationKind.SqlScript else OperationKind.ReadQuery.
End types.

Section script_service.
Context {P : Platform} {SD : Serde} {D : ErrorDisplay} {parser : SqlParser}.
Local Open Scope prog_scope.

(** [iter().map(classify).collect::<AppResult<Vec<_>>>()] *)
Definition classify_all (statements : list string) (engine : Engine.t)
  : AppResult (list Classification) :=
  mapM (λ statement, classify statement engine) statements.

Record ScriptRunRecord := {
  srr_sql : string; srr_kind : QueryKind.t; srr_action : string; srr_status : string;
  srr_row_count : option Z; srr_error : option string; srr_origin : string;
}.

Definition record_script_run (pin : PinnedConnection) (record : ScriptRunRecord) : program unit :=
  _ ← audit_record
    {| ra_connection_id := pc_connection_id pin; ra_engine := cp_engine (pc_profile pin);
       ra_agent_prompt := None; ra_sql := srr_sql record; ra_kind := srr_kind record;
       ra_action := srr_action record; ra_approved_by := None;
       ra_affected_estimate := srr_row_count record; ra_error := srr_error record |};
  id ← new_uuid;
  executed_at ← utc_now;
  _ ← store_insert_history pin
    {| he_id := id; he_connection_id := pc_connection_id pin; he_sql := srr_sql record;
       he_kind := srr_kind record; he_status := srr_status record;
       he_row_count := srr_row_count record; he_duration_ms := None;
       he_error := srr_error record; he_executed_at := executed_at;
       he_origin := srr_origin record |};
  Ret tt.

(** *** Proposals *)

Definition propose_desktop_script (request : DesktopScriptProposalRequest)
  : program (result DesktopScriptRunError DesktopScriptProposalReceipt) :=
  try pin ← store_pin_for_view (dcp_connection_id request) or ScriptScoped;
  let engine := cp_engine (pc_profile pin) in
  if Engine.is_document engine
  then Ret (Err (ScriptScoped (Blocked "SQL scripts are unavailable for document connections")))
  else
    try settings ← store_get_safety (pc_connection_id pin) or ScriptApplication;
    let statements := split_statements (dcp_sql request) engine in
    if bool_decide (statements = [])
    then Ret (Err (ScriptScoped (Config "no executable statements in the script")))
    else
      check classifications ← classify_all statements engine or ScriptApplication;
      let kinds := map cl_kind classifications in
      let has_write := script_has_write kinds in
      let granted := cp_workspace_access (pc_profile pin) in
      if existsb is_privilege kinds
      then Ret (Err (ScriptScoped (Blocked
        "arbitrary privilege SQL is blocked; use a supported, narrowly scoped administrative action")))
      else if negb (if has_write then WorkspaceConnectionAccess.can_write granted
                    else WorkspaceConnectionAccess.can_read granted)
      then Ret (Err (ScriptScoped (Blocked
        "your workspace role no longer grants this script access")))
      else if has_write && negb (allow_writes settings)
      then Ret (Err (ScriptScoped (Blocked "writes are disabled for this connection")))
      else
        check policy ← capture_policy pin settings or ScriptApplication;
        let history_origin := default "manual" (dcp_origin request) in
        operation_id ← new_uuid;
        now ← utc_now;
        let expires_at := now + (if has_write then APPROVAL_TTL else QUERY_PLAN_TTL) in
        try operation ← operation_plan
          {| new_id := operation_id;
             new_workspace_id := sc_workspace_id (pc_scope pin);
             new_account_scope := storage_key (sc_account_scope (pc_scope pin));
             new_connection_id := pc_connection_id pin;
             new_connection_revision := pc_connection_revision pin;
             new_terminal_session_id := None;
             new_actor := actor_for_pin pin history_origin;
             new_kind := script_operation_kind kinds;
             new_payload_schema_version := 1;
             new_payload := script_payload_to_value
               {| scp_sql := dcp_sql request; scp_history_origin := history_origin |};
             new_schema_fingerprint := None;
             new_risk_level := script_operation_risk classifications;
             new_preview := VObject
               [("classifications", ser_list classification_to_value classifications);
                ("statementCount", value_of_u64 (vec_len statements))];
             new_policy_snapshot := cop_snapshot policy;
             new_policy_revision := cop_revision policy;
             new_single_use := true;
             new_idempotency_key := uuid_to_string operation_id;
             new_expires_at := Some expires_at |}
          (if has_write then ApprovalRequired else Runtime.Ready) or ScriptApplication;
        Ret (Ok {| dcr_operation_id := op_id operation;
                   dcr_payload_hash := op_payload_hash operation;
                   dcr_state := op_state operation;
                   dcr_approval_required := has_write;
                   dcr_confirmation_phrase := required_confirmation operation;
                   dcr_statement_count := vec_len statements;
                   dcr_expires_at := expires_at |}).

(** *** The transaction *)

(** The [for] loop of [run_transaction]: the outcomes and [succeeded]. *)
Fixpoint run_statements (tx : Transaction) (statements : list string)
  : program (list ScriptStatement * bool) :=
  match statements with
  | [] => Ret ([], true)
  | statement :: rest =>
      executed ← tx_execute tx statement;
      match executed with
      | Ok affected =>
          '(outcomes, succeeded) ← run_statements tx rest;
          Ret (statement_ok statement affected :: outcomes, succeeded)
      | Err error => Ret ([statement_error statement (sqlx_display error)], false)
      end
  end.

Definition execute_script_transaction (pool : DbPool) (statements : list string)
  (grant : ExecutionGrant) (operation_id : Uuid) : program (AppResult (list ScriptStatement * bool)) :=
  if negb (bool_decide (eg_operation_id grant = operation_id))
  then Ret (Err (Blocked "script transaction scope does not match its approved operation"))
  else
    begun ← tx_begin pool;
    match begun with
    | Err error =>
        Ret (Ok (map (λ statement, statement_error statement
                   ("could not begin transaction: " +:+ sqlx_display error)) statements, false))
    | Ok tx =>
        '(outcomes, succeeded) ← run_statements tx statements;
        if negb (succeeded : bool) then
          try _ ← tx_rollback tx or (λ error, OutcomeUnknown
            ("script rollback acknowledgement failed: " +:+ sqlx_display error));
          Ret (Ok (outcomes ++ map statement_skipped (drop (length outcomes) statements), false))
        else
          try _ ← tx_commit tx or (λ error, OutcomeUnknown
            ("script commit acknowledgement failed: " +:+ sqlx_display error));
          Ret (Ok (outcomes, true))
    end.

(** *** [run_desktop] *)

Definition prepare_script (operation_id : Uuid)
  : program (result DesktopScriptRunError PreparedScriptRun) :=
  try planned ← operation_get operation_id or ScriptApplication;
  if negb (op_payload_schema_version planned =? 1)
     || negb (match op_kind planned with
              | OperationKind.ReadQuery | OperationKind.SqlScript => true
              | _ => false
              end)
  then Ret (Err (ScriptApplication (Blocked "operation is not a supported SQL script proposal")))
  else
    check payload ← ok_or Serialization (script_payload_from_value (op_payload planned))
      or ScriptApplication;
    try pin ← store_pin_for_read (op_connection_id planned) or ScriptScoped;
    check _ ← ensure_operation_scope planned pin or ScriptApplication;
    try settings ← store_get_safety (pc_connection_id pin) or ScriptScoped;
    check policy ← capture_policy pin settings or ScriptApplication;
    if negb (cop_revision policy =? op_policy_revision planned)%string
    then Ret (Err (ScriptScoped (Blocked
      "the connection or safety policy changed; create a new proposal")))
    else
      let engine := cp_engine (pc_profile pin) in
      let statements := split_statements (scp_sql payload) engine in
      if bool_decide (statements = [])
      then Ret (Err (ScriptScoped (Config "no executable statements in the script")))
      else
        check classifications ← classify_all statements engine or ScriptScoped;
        let kinds := map cl_kind classifications in
        if existsb is_privilege kinds
        then Ret (Err (ScriptScoped (Blocked
          "stored script contains blocked arbitrary privilege SQL")))
        else if negb (bool_decide (op_kind planned = script_operation_kind kinds))
        then Ret (Err (ScriptScoped (Blocked
          "stored script classification no longer matches its proposal")))
        else
          try claimed ← operation_claim operation_id or ScriptApplication;
          Ret (Ok {| psr_pin := pin; psr_operation := claimed; psr_payload := payload;
                     psr_statements := statements; psr_kinds := kinds;
                     psr_settings := settings |}).

Definition psr_id (run : PreparedScriptRun) : Uuid := op_id (co_record (psr_operation run)).

(** The [ScriptRunRecord]s of a run. *)
Definition script_record (run : PreparedScriptRun) (kind : QueryKind.t) (action status : string)
  (row_count : option Z) (error : option string) : ScriptRunRecord :=
  {| srr_sql := scp_sql (psr_payload run); srr_kind := kind; srr_action := action;
     srr_status := status; srr_row_count := row_count; srr_error := error;
     srr_origin := scp_history_origin (psr_payload run) |}.

Definition script_receipt (run : PreparedScriptRun) (total : Z) : Value :=
  VObject [("rowCount", value_of_i64 total);
           ("statementCount", value_of_u64 (vec_len (psr_statements run)))].

(** *** Reads *)

(** One turn of the loop: the outcomes so far and the failure. *)
Definition read_statement (live : LiveConnection) (max operation_id : _)
  (acc : list ScriptStatement * option string) (statement : string)
  : program (list ScriptStatement * option string) :=
  let '(outcomes, failure) := acc in
  match failure with
  | Some _ => Ret (outcomes ++ [statement_skipped statement], failure)
  | None =>
      executed ← run_read live statement max (Some operation_id);
      Ret match executed with
          | Ok result =>
              (outcomes ++ [{| ss_sql := statement; ss_result := Some result; ss_affected := None;
                               ss_error := None |}], None)
          | Err error =>
              (outcomes ++ [statement_error statement (error_to_string error)],
               Some (error_to_string error))
          end
  end.

Definition run_reads (run : PreparedScriptRun)
  : program (result DesktopScriptRunError ScriptOutcome) :=
  let operation_id := psr_id run in
  connected ← scope_connect (psr_pin run) ConnectionAccess.Read;
  match connected with
  | Err error =>
      _ ← record_script_run (psr_pin run)
            (script_record run QueryKind.Read "script:execute" "error" None
               (Some (error_to_string error)));
      _ ← operation_fail operation_id (reason_details "connection_failed");
      Ret (Err (ScriptApplication error))
  | Ok lease =>
      match live_sql (ls_live lease) with
      | Err error =>
          _ ← operation_fail operation_id (reason_details "sql_backend_unavailable");
          Ret (Err (ScriptExecution error))
      | Ok live =>
          '(outcomes, failure) ←
            for_each (read_statement live (max_rows (psr_settings run)) operation_id)
              (psr_statements run) ([], None);
          let total := sum_i64 (map (λ result, wrap_i64 (qr_row_count result))
                                  (omap ss_result outcomes)) in
          _ ← record_script_run (psr_pin run)
                (script_record run QueryKind.Read "script:execute"
                   (if failure then "error" else "ok") (Some total) failure);
          finished ← match failure with
                     | Some _ => operation_fail operation_id
                                   (reason_details "script_statement_failed")
                     | None => operation_succeed operation_id (script_receipt run total)
                     end;
          Ret match finished with
              | Err error => Err (ScriptApplication error)
              | Ok _ => Ok {| so_statements := outcomes; so_committed := false;
                              so_all_reads := true |}
              end
      end
  end.

(** *** Writes *)

Definition script_attempt (run : PreparedScriptRun) : RecordArgs :=
  {| ra_connection_id := pc_connection_id (psr_pin run); ra_engine := psr_engine run;
     ra_agent_prompt := None; ra_sql := scp_sql (psr_payload run);
     ra_kind := script_kind (psr_kinds run); ra_action := "script:execute:attempt";
     ra_approved_by := Some (actor_id (op_actor (co_record (psr_operation run))));
     ra_affected_estimate := None; ra_error := None |}.

(** The error of an interrupted script. *)
Definition script_failure (error : AppError) : AppError :=
  if is_cancellation error || is_timeout error
  then OutcomeUnknown
    ("script execution was interrupted before rollback or commit could be confirmed: "
     +:+ error_to_string error)
  else error.

(** MySQL may have committed DDL of a script that was rolled back. *)
Definition implicit_commit (run : PreparedScriptRun) (committed : bool) : bool :=
  negb committed && bool_decide (psr_engine run = Engine.Mysql)
  && existsb (λ k, is_ddl k || is_privilege k) (psr_kinds run).

(** [lifecycle], and the outcome when the local receipt fails. *)
Definition close_script (run : PreparedScriptRun) (outcomes : list ScriptStatement)
  (committed : bool) (total : Z) : program (result DesktopScriptRunError ScriptOutcome) :=
  let operation_id := psr_id run in
  lifecycle ← (if committed
               then operation_succeed operation_id (script_receipt run total)
               else operation_fail operation_id
                      (reason_details "script_transaction_rolled_back"));
  match lifecycle with
  | Err error =>
      _ ← (if committed
           then _ ← operation_outcome_unknown operation_id (reason_details "local_receipt_failed");
                Ret tt
           else Ret tt);
      Ret (Err (ScriptExecution error))
  | Ok _ => Ret (Ok {| so_statements := outcomes; so_committed := committed;
                       so_all_reads := false |})
  end.

Definition settle_script (run : PreparedScriptRun)
  (executed : AppResult (list ScriptStatement * bool))
  : program (result DesktopScriptRunError ScriptOutcome) :=
  let operation_id := psr_id run in
  let kind := script_kind (psr_kinds run) in
  match executed with
  | Err error =>
      let error := script_failure error in
      _ ← record_script_run (psr_pin run)
            (script_record run kind "script:execute" "error" None (Some (error_to_string error)));
      _ ← (if is_outcome_unknown error
           then operation_outcome_unknown operation_id (reason_details "target_outcome_unconfirmed")
           else operation_fail operation_id (reason_details (error_kind error)));
      Ret (Err (ScriptExecution error))
  | Ok (outcomes, committed) =>
      if implicit_commit run committed then
        let error := OutcomeUnknown
          "MySQL may implicitly commit DDL or privilege statements before a later script statement fails" in
        _ ← record_script_run (psr_pin run)
              (script_record run kind "script:execute" "outcome_unknown" None
                 (Some (error_to_string error)));
        _ ← operation_outcome_unknown operation_id
              (reason_details "mysql_implicit_commit_unconfirmed");
        Ret (Err (ScriptExecution error))
      else
        _ ← (if committed && existsb is_ddl (psr_kinds run)
             then _ ← store_clear_schema_cache (pc_connection_id (psr_pin run)); Ret tt
             else Ret tt);
        let total := sum_i64 (omap ss_affected outcomes) in
        _ ← record_script_run (psr_pin run)
              (script_record run kind "script:execute" (if committed then "ok" else "error")
                 (Some total) (head (omap ss_error outcomes)));
        close_script run outcomes committed total
  end.

Definition run_script_write (run : PreparedScriptRun)
  : program (result DesktopScriptRunError ScriptOutcome) :=
  let operation_id := psr_id run in
  let kind := script_kind (psr_kinds run) in
  let failed error := script_record run kind "script:execute" "error" None
                        (Some (error_to_string error)) in
  if negb (WorkspaceConnectionAccess.can_write (cp_workspace_access (pc_profile (psr_pin run))))
  then Ret (Err (ScriptScoped (Blocked "your workspace role grants read-only database access")))
  else if negb (allow_writes (psr_settings run)) then
    let reason := "writing is disabled for this connection (writes are off by default). Enable writes in the connection's safety settings to run this script." in
    _ ← record_script_run (psr_pin run)
          (script_record run QueryKind.Write "blocked" "blocked" None (Some reason));
    Ret (Err (ScriptScoped (Blocked reason)))
  else
    recorded ← audit_record (script_attempt run);
    match recorded with
    | Err error =>
        _ ← operation_fail operation_id (reason_details "audit_pre_record_failed");
        Ret (Err (ScriptScoped (Config
          ("audit pre-record failed — refusing to run script: " +:+ error_to_string error))))
    | Ok _ =>
        connected ← scope_connect (psr_pin run) ConnectionAccess.Write;
        match connected with
        | Err error =>
            _ ← record_script_run (psr_pin run) (failed error);
            _ ← operation_fail operation_id (reason_details "connection_failed");
            Ret (Err (ScriptApplication error))
        | Ok lease =>
            match live_sql (ls_live lease) with
            | Err error =>
                _ ← record_script_run (psr_pin run) (failed error);
                _ ← operation_fail operation_id (reason_details "sql_backend_unavailable");
                Ret (Err (ScriptExecution error))
            | Ok live =>
                executed ← with_cancellation operation_id (λ handle,
                  guarded (Some handle)
                    (execute_script_transaction (write_pool live) (psr_statements run)
                       (co_grant (psr_operation run)) operation_id));
                settle_script run executed
            end
        end
    end.

Definition run_desktop_script (operation_id : Uuid)
  : program (result DesktopScriptRunError ScriptOutcome) :=
  try run ← prepare_script operation_id or id;
  if script_has_write (psr_kinds run) then run_script_write run else run_reads run.
End script_service.
