(* ===== verification/ScriptTheorems.v ===== *)
(** * What scripts guarantee

    The statements of a claimed script reach the target in order and exactly as
    the stored payload splits; a write transaction is committed only after every
    statement succeeded, and the operation's verdict says so. *)

From S2P Require Export ServiceLogic ScriptService.

Section sent.
Context {P : Platform}.

(** The statements executed in the transaction so far, oldest first, with whether
    the driver accepted each. *)
Definition execution (e : entry Call.res) : option (string * bool) :=
  match e with
  | Entry c r =>
      match c return Call.res c → option (string * bool) with
      | Call.Execute _ sql => λ r, Some (sql, is_ok r)
      | _ => λ _, None
      end r
  end.
Definition sent (h : history) : list (string * bool) := reverse (omap execution h).

Definition accepted (statements : list string) : list (string * bool) :=
  map (λ s, (s, true)) statements.

Lemma sent_cons e h : execution e = None → sent (e :: h) = sent h.
Proof. intros H. unfold sent. cbn. by rewrite H. Qed.

Lemma sent_execute tx sql r h :
  sent (Entry (Call.Execute tx sql) r :: h) = sent h ++ [(sql, is_ok r)].
Proof. exact (reverse_cons (omap execution h) (sql, is_ok r)). Qed.

Lemma sent_app l h : only_history reading l → sent (l ++ h) = sent h.
Proof.
  induction 1 as [|e l He Hl IH]; [done|]. cbn [app]. rewrite sent_cons; [done|].
  destruct e as [c r]. by destruct c.
Qed.

Lemma sent_quiet l h : quiet_history l → sent (l ++ h) = sent h.
Proof.
  intros Hl. apply sent_app. eapply Forall_impl; [exact Hl|]. intros [c r]. by destruct c.
Qed.

Lemma sent_unpolled h : sent (unpolled h) = sent h.
Proof.
  unfold sent. f_equal. induction h as [|[c r] h IH]; [done|]. unfold unpolled in *. cbn.
  destruct (is_poll _) eqn:Hp; cbn; [by destruct c|]. by rewrite IH.
Qed.

Lemma unpolled_sent h h' : unpolled h = unpolled h' → sent h = sent h'.
Proof. intros Hu. by rewrite <-(sent_unpolled h), <-(sent_unpolled h'), Hu. Qed.

Lemma accepted_app s s' : accepted (s ++ s') = accepted s ++ accepted s'.
Proof. apply map_app. Qed.

(** The calls of a read of [sql]. *)
Definition fetches (sql : string) (c : Call.t) : bool :=
  match c with Call.FetchRows _ sql' _ => (sql' =? sql)%string | c => quiet c end.

Lemma fetches_run_read live sql max id : only_calls (fetches sql) (run_read live sql max id).
Proof.
  assert (∀ c, only_calls (fetches sql) (run_read_registered live sql max c)) as H.
  { intros c. unfold run_read_registered, with_headers. cbv zeta.
    apply only_try; [apply only_guarded; [done|]|solve_only].
    apply only_try; [split; [apply String.eqb_refl|done]|solve_only]. }
  unfold run_read, with_cancellation. destruct id; [|apply H].
  apply only_bind; [done|]. intros handle. apply only_bind; [apply H|solve_only].
Qed.

Lemma only_fetches_reading sql l : only_history (fetches sql) l → only_history reading l.
Proof. intros H. eapply Forall_impl; [exact H|]. intros [c r]. by destruct c. Qed.
End sent.

Section script.
Context {P : Platform} {SD : Serde} {D : ErrorDisplay} {parser : SqlParser}.
Variable operation_id : Uuid.

(** A script that passed [prepare_script], as the history shows. *)
Record script_ready (h : history) (run : PreparedScriptRun) : Prop := {
  sr_planned : ∃ planned classifications policy,
    Entry (Call.OperationGet operation_id) (Ok planned) ∈ h
    ∧ op_payload_schema_version planned = 1
    ∧ script_payload_from_value (op_payload planned) = Some (psr_payload run)
    ∧ Entry (Call.PinForRead (op_connection_id planned)) (Ok (psr_pin run)) ∈ h
    ∧ ensure_operation_scope planned (psr_pin run) = Ok tt
    ∧ capture_policy (psr_pin run) (psr_settings run) = Ok policy
    ∧ cop_revision policy = op_policy_revision planned
    ∧ classify_all (psr_statements run) (psr_engine run) = Ok classifications
    ∧ psr_kinds run = map cl_kind classifications
    ∧ op_kind planned = script_operation_kind (psr_kinds run);
  sr_settings : Entry (Call.GetSafety (pc_connection_id (psr_pin run))) (Ok (psr_settings run)) ∈ h;
  sr_statements : psr_statements run
    = split_statements (scp_sql (psr_payload run)) (psr_engine run);
  sr_nonempty : psr_statements run ≠ [];
  sr_privilege : existsb is_privilege (psr_kinds run) = false;
  sr_claimed : Entry (Call.OperationClaim operation_id) (Ok (psr_operation run)) ∈ h;
}.

(** ... and may write. *)
Record script_authority (h : history) (run : PreparedScriptRun) : Prop := {
  sa_ready : script_ready h run;
  sa_write : script_has_write (psr_kinds run) = true;
  sa_enabled : allow_writes (psr_settings run) = true;
  sa_audited : ∃ entry, Entry (Call.AuditRecord (script_attempt run)) (Ok entry) ∈ h;
  sa_confirmed : pin_confirmed (psr_pin run) ConnectionAccess.Write h;
}.

Definition script_verdict (run : PreparedScriptRun) (h : history) (target : OperationState.t) : Prop :=
  match target with
  | OperationState.Failed => no_commit h
  | OperationState.Succeeded =>
      if script_has_write (psr_kinds run)
      then committed h ∧ sent h = accepted (psr_statements run)
      else no_commit h
  | OperationState.OutcomeUnknown => True
  | _ => False
  end.

Definition script_allowed (h : history) (c : Call.t) : Prop :=
  match c with
  | Call.OperationPlan _ _ | Call.ReadOnlyRun _ _ _ | Call.DocumentRun _ _ _ _
  | Call.ExecutePool _ _ => False
  | Call.OperationClaim id => id = operation_id
  | Call.OperationFinish id target details =>
      value_exact details = true ∧ OperationState.is_terminal target = true
      ∧ names_plan operation_id h id
      ∧ ∃ run, script_ready h run ∧ script_verdict run h target
  | Call.FetchRows pool sql max =>
      ∃ run, script_ready h run ∧ script_has_write (psr_kinds run) = false
        ∧ sql ∈ psr_statements run
  | Call.Begin _ => ∃ run, script_authority h run ∧ sent h = []
  | Call.Execute _ sql =>
      ∃ run done rest, script_authority h run
        ∧ psr_statements run = done ++ sql :: rest ∧ sent h = accepted done
  | Call.Commit _ => ∃ run, script_authority h run ∧ sent h = accepted (psr_statements run)
  | Call.Rollback _ =>
      ∃ run done sql rest, script_authority h run
        ∧ psr_statements run = done ++ sql :: rest ∧ sent h = accepted done ++ [(sql, false)]
  | _ => True
  end.

Lemma script_allowed_quiet h c : quiet c = true → script_allowed h c.
Proof. by destruct c. Qed.

(** *** Later histories *)

Lemma script_ready_incl h h' run :
  (∀ e, is_poll e = false → e ∈ h → e ∈ h') → script_ready h run → script_ready h' run.
Proof.
  intros Hi [(planned & cls & policy & ?) ? ? ? ? ?]. destruct_and!. split; try done; eauto.
  exists planned, cls, policy. split_and!; eauto.
Qed.

Lemma script_authority_incl h h' run :
  (∀ e, is_poll e = false → e ∈ h → e ∈ h') → script_authority h run → script_authority h' run.
Proof.
  intros Hi [? ? ? [entry ?] [? ?]]. split; try done; [by eapply script_ready_incl|by eauto|].
  split; eauto.
Qed.

Lemma script_ready_app l h run : script_ready h run → script_ready (l ++ h) run.
Proof. apply script_ready_incl. intros e _ He. apply elem_of_app. by right. Qed.

Lemma script_authority_app l h run : script_authority h run → script_authority (l ++ h) run.
Proof. apply script_authority_incl. intros e _ He. apply elem_of_app. by right. Qed.

Lemma unpolled_script h h' c :
  unpolled h = unpolled h' → script_allowed h c → script_allowed h' c.
Proof.
  intros Hu. pose proof (unpolled_sent _ _ Hu) as Hs.
  assert (∀ run, script_ready h run → script_ready h' run) as Hr.
  { intros run. apply script_ready_incl. intros e. by apply unpolled_in. }
  assert (∀ run, script_authority h run → script_authority h' run) as Ha.
  { intros run. apply script_authority_incl. intros e. by apply unpolled_in. }
  destruct c; cbn; rewrite <-?Hs; try done; [|naive_solver..].
  intros (? & ? & (cl & Hcl & ?) & run & Hrun & Hv). split_and!; try done.
  - exists cl. split; [by eapply unpolled_in|done].
  - exists run. split; [auto|]. destruct target; cbn in *; try done;
      [|by eapply unpolled_no_commit].
    destruct (script_has_write _); [|by eapply unpolled_no_commit].
    rewrite <-Hs. destruct Hv. split; [by eapply unpolled_committed|done].
Qed.

(** *** The transaction *)

Abbreviation swp := (wp answer_ok script_allowed).

Lemma no_commit_cons e h : is_commit (called e) = false → no_commit h → no_commit (e :: h).
Proof. by constructor. Qed.

(** The loop from the statements already accepted. *)
Lemma wp_run_statements run tx statements done_ h :
  script_authority h run → psr_statements run = done_ ++ statements →
  sent h = accepted done_ → no_commit h →
  swp (run_statements tx statements)
    (λ '(outcomes, succeeded) h',
       script_authority h' run ∧ no_commit h' ∧ map ss_sql outcomes = take (length outcomes) statements
       ∧ if succeeded then sent h' = accepted (psr_statements run)
         else ∃ done sql rest, psr_statements run = done ++ sql :: rest
                ∧ sent h' = accepted done ++ [(sql, false)]) h.
Proof.
  revert done_ h. induction statements as [|s statements IH]; intros done_ h Ha Hst Hsent Hn.
  - split_and!; [done..|]. by rewrite Hsent, Hst, app_nil_r.
  - cbn [run_statements]. wp_step. wp_step; [by exists run, done_, statements|]. wp_step.
    pose proof (script_authority_app [Entry (Call.Execute tx s) r] _ _ Ha) as Ha'.
    pose proof (no_commit_cons (Entry (Call.Execute tx s) r) h eq_refl Hn) as Hn'.
    pose proof (sent_execute tx s r h) as Hs'. rewrite Hsent in Hs'.
    destruct r as [n|e].
    + wp_step. eapply wp_mono; [|apply (IH (done_ ++ [s])); [exact Ha'|..|exact Hn']].
      * intros [outcomes succeeded] h' (H1 & H2 & H3 & H4). wp_step. split_and!; [done..| |done].
        cbn. by rewrite H3.
      * by rewrite <-app_assoc.
      * by rewrite Hs', accepted_app.
    + wp_step. split_and!; [done..|]. by exists done_, s, statements.
Qed.

Definition transaction_outcome (run : PreparedScriptRun)
  (r : AppResult (list ScriptStatement * bool)) (h : history) : Prop :=
  match r with
  | Ok (_, true) => committed h ∧ sent h = accepted (psr_statements run)
  | Ok (_, false) => no_commit h
  | Err e => no_commit h ∨ is_outcome_unknown (script_failure e) = true
  end.

Lemma unpolled_outcome run r h h' :
  unpolled h = unpolled h' → transaction_outcome run r h → transaction_outcome run r h'.
Proof.
  intros Hu. unfold transaction_outcome. rewrite (unpolled_sent _ _ Hu).
  destruct r as [[o []]|e].
  - intros [? ?]. split; [by eapply unpolled_committed|done].
  - by apply unpolled_no_commit.
  - intros [?|?]; [left; by eapply unpolled_no_commit|by right].
Qed.

Lemma wp_transaction run pool grant id h :
  script_authority h run → sent h = [] → no_commit h →
  swp (execute_script_transaction pool (psr_statements run) grant id)
    (transaction_outcome run) h.
Proof.
  intros Ha Hs Hn. unfold execute_script_transaction. wp_if Hid; [by left|].
  wp_step. wp_step; [by exists run|]. wp_step.
  pose proof (script_authority_app [Entry (Call.Begin pool) r] _ _ Ha) as Ha'.
  pose proof (no_commit_cons (Entry (Call.Begin pool) r) h eq_refl Hn) as Hn'.
  pose proof (sent_cons (Entry (Call.Begin pool) r) h eq_refl) as Hs'. rewrite Hs in Hs'.
  destruct r as [tx|e]; [|by wp_step].
  wp_step. eapply wp_mono; [|by apply (wp_run_statements run tx _ [])].
  intros [outcomes succeeded] h1 (Ha1 & Hn1 & _ & Hout). destruct succeeded; cbv beta iota zeta.
  - change (negb true) with false. cbv iota. wp_step. wp_step; [by exists run|]. wp_step.
    destruct r as [[]|e]; [wp_step|by right]. split; [by exists tx; left|].
    by rewrite sent_cons.
  - change (negb false) with true. cbv iota. wp_step. wp_step.
    { destruct Hout as (done & sql & rest & H). by exists run, done, sql, rest. }
    wp_step. destruct r as [[]|e]; [wp_step; by apply no_commit_cons|by right].
Qed.

Lemma interrupted_script {A} signal (r : AppResult A) :
  interrupted signal = Some r →
  ∃ e, r = Err e ∧ is_outcome_unknown (script_failure e) = true.
Proof. destruct signal; cbn; [done|intros [= <-]; eexists; split; [done|reflexivity]..]. Qed.

(** *** Settling *)

Lemma script_record_quiet pin r : quiet_program (record_script_run pin r).
Proof. unfold record_script_run. solve_only. Qed.

Lemma sum_i64_range l : i64_min ≤ sum_i64 l ≤ i64_max.
Proof.
  unfold sum_i64. assert (i64_min ≤ 0 ≤ i64_max) as H0 by done. revert H0.
  generalize 0. induction l as [|n l IH]; intros z Hz; cbn; [done|]. apply IH, wrap_i64_range.
Qed.

Lemma script_receipt_exact run total :
  i64_min ≤ total ≤ i64_max → value_exact (script_receipt run total) = true.
Proof.
  intros H. apply object_exact. split; [by apply (bool_decide_unpack _); vm_compute|].
  apply List.Forall_cons; [by apply value_of_i64_exact|].
  apply List.Forall_cons; [|constructor]. apply value_of_u64_exact.
  unfold vec_len, u64_max. pose proof (Z.mod_pos_bound (Z.of_nat (length (psr_statements run))) (2 ^ 64)).
  lia.
Qed.

Lemma wp_finish_script run target details h (Q : AppResult OperationRecord → history → Prop) :
  value_exact details = true → OperationState.is_terminal target = true →
  script_ready h run → script_verdict run h target →
  (∀ r, plan_settled operation_id (Entry (Call.OperationFinish (psr_id run) target details) r :: h) →
     Q r (Entry (Call.OperationFinish (psr_id run) target details) r :: h)) →
  swp (operation_finish (psr_id run) target details) Q h.
Proof.
  intros Hd Ht Hr Hv HQ.
  assert (names_plan operation_id h (psr_id run)) as Hn.
  { exists (psr_operation run). split; [by apply sr_claimed|by right]. }
  split; [split_and!; [done..|by exists run]|].
  intros r _. apply HQ. exists (psr_id run). split; [by apply (names_plan_app _ [_])|].
  exists target, details, r. left.
Qed.

Lemma wp_quiet_script {A} (p : program A) h (Q : A → history → Prop) :
  quiet_program p → (∀ a l, quiet_history l → Q a (l ++ h)) → swp p Q h.
Proof. intros Hp HQ. apply (wp_only quiet); [by intros; apply script_allowed_quiet|done..]. Qed.

Lemma verdict_app run l h target :
  quiet_history l → script_verdict run h target → script_verdict run (l ++ h) target.
Proof.
  intros Hl. destruct target; cbn; try done; [destruct (script_has_write _)|].
  - rewrite sent_quiet by done. intros [? ?]. split; [by apply committed_app|done].
  - by apply no_commit_quiet.
  - by apply no_commit_quiet.
Qed.

Definition script_settled {A} (_ : A) (h : history) : Prop := plan_settled operation_id h.

(** A failure before the transaction: a record, then the verdict. *)
Lemma wp_abandon_script run record reason (e : DesktopScriptRunError) h :
  script_ready h run → no_commit h →
  swp (record_script_run (psr_pin run) record ≫= λ _,
       operation_fail (psr_id run) (reason_details reason) ≫= λ _,
       Ret (Err e : result DesktopScriptRunError ScriptOutcome)) script_settled h.
Proof.
  intros Hr Hn. wp_step. apply wp_quiet_script; [apply script_record_quiet|]. intros _ l Hl.
  wp_step. apply (wp_finish_script run); [done..|by apply script_ready_app|by apply no_commit_quiet|].
  intros r Hs. by wp_step.
Qed.

Lemma wp_close_script run outcomes (committed_ : bool) total h :
  script_ready h run → i64_min ≤ total ≤ i64_max →
  script_verdict run h (if committed_ then OperationState.Succeeded else OperationState.Failed) →
  swp (close_script run outcomes committed_ total) script_settled h.
Proof.
  intros Hr Ht Hv. unfold close_script. cbv zeta. wp_step. destruct committed_.
  - apply (wp_finish_script run); [by apply script_receipt_exact|done..|].
    intros r Hs. destruct r as [op|e]; [by wp_step|]. wp_step. wp_step.
    apply (wp_finish_script run); [done|done|by apply (script_ready_app [_])|done|].
    intros r Hs'. wp_step. by wp_step.
  - apply (wp_finish_script run); [done..|]. intros r Hs. destruct r as [op|e]; [by wp_step|].
    wp_step. wp_step. by wp_step.
Qed.

Lemma wp_settle_script run executed h :
  script_ready h run → script_has_write (psr_kinds run) = true →
  transaction_outcome run executed h →
  swp (settle_script run executed) script_settled h.
Proof.
  intros Hr Hw Hout. unfold settle_script. cbv zeta. destruct executed as [[outcomes committed_]|e].
  - destruct (implicit_commit run committed_) eqn:Hi.
    + wp_step. apply wp_quiet_script; [apply script_record_quiet|]. intros _ l Hl. wp_step.
      apply (wp_finish_script run); [done..|by apply script_ready_app|done|].
      intros r Hs. by wp_step.
    + wp_step. apply wp_quiet_script; [destruct (_ && _); solve_only|]. intros _ l1 Hl1. wp_step.
      apply wp_quiet_script; [apply script_record_quiet|]. intros _ l2 Hl2.
      apply wp_close_script; [by apply script_ready_app, script_ready_app|apply sum_i64_range|].
      apply verdict_app, verdict_app; [done..|]. destruct committed_; [|done].
      cbn. by rewrite Hw.
  - wp_step. apply wp_quiet_script; [apply script_record_quiet|]. intros _ l Hl. wp_step.
    pose proof (script_ready_app l _ _ Hr) as Hr'.
    destruct (is_outcome_unknown (script_failure e)) eqn:Hu;
      (apply (wp_finish_script run); [done|done|done| |intros r Hs; by wp_step]); [done|].
    destruct Hout as [Hn|Hk]; [by apply no_commit_quiet|]. by rewrite Hk in Hu.
Qed.

(** *** Reads *)

Lemma wp_read_statement run live acc statement h :
  script_ready h run → script_has_write (psr_kinds run) = false →
  statement ∈ psr_statements run → no_commit h →
  swp (read_statement live (max_rows (psr_settings run)) (psr_id run) acc statement)
    (λ _ h', script_ready h' run ∧ no_commit h') h.
Proof.
  intros Hr Hw Hin Hn. unfold read_statement. destruct acc as [outcomes failure].
  destruct failure; [by wp_step|]. wp_step.
  apply (wp_only_later (fetches statement)); [|apply fetches_run_read|].
  - intros l c Hl Hc. destruct c; try done. apply String.eqb_eq in Hc as ->.
    exists run. split_and!; [by apply script_ready_app|done|done].
  - intros r l Hl. wp_step. split; [by apply script_ready_app|].
    apply no_commit_reading; [by eapply only_fetches_reading|done].
Qed.

Lemma wp_run_reads run h :
  script_ready h run → script_has_write (psr_kinds run) = false → no_commit h →
  swp (run_reads run) script_settled h.
Proof.
  intros Hr Hw Hn. unfold run_reads. cbv zeta. wp_step.
  eapply wp_mono; [|apply wp_scope_connect, script_allowed_quiet].
  intros connected h1 (l1 & -> & Hl1 & _).
  pose proof (script_ready_app l1 _ _ Hr) as Hr1. pose proof (no_commit_quiet _ _ Hl1 Hn) as Hn1.
  destruct connected as [lease|e].
  2: { by apply wp_abandon_script. }
  destruct (live_sql (ls_live lease)) as [live|e].
  2: { wp_step. apply (wp_finish_script run); [done..|]. intros r Hs. by wp_step. }
  wp_step. apply (wp_for_each _ _ _ (λ left _ h', script_ready h' run ∧ no_commit h'
    ∧ ∀ s, s ∈ left → s ∈ psr_statements run)); [done| |].
  - intros [outcomes failure] h2 (Hr2 & Hn2 & _). cbv beta iota zeta. wp_step.
    apply wp_quiet_script; [apply script_record_quiet|]. intros _ l Hl. wp_step.
    pose proof (script_ready_app l _ _ Hr2) as Hr3. pose proof (no_commit_quiet _ _ Hl Hn2) as Hn3.
    destruct failure.
    + apply (wp_finish_script run); [done|done|done|exact Hn3|]. intros r Hs. wp_step. exact Hs.
    + apply (wp_finish_script run); [apply script_receipt_exact, sum_i64_range|done|done| |].
      * cbn. by rewrite Hw.
      * intros r Hs. wp_step. exact Hs.
  - intros s left acc h2 (Hr2 & Hn2 & Hin). eapply wp_mono; [|apply wp_read_statement; try done].
    + intros acc' h3 [Hr3 Hn3]. split_and!; [done..|]. intros s' Hs'. apply Hin. by right.
    + apply Hin. by left.
Qed.

(** *** Writes *)

(** Settled, or refused before anything was sent because the pinned connection
    does not take writes. *)
Definition write_refused (run : PreparedScriptRun) : Prop :=
  script_has_write (psr_kinds run) = true
  ∧ (WorkspaceConnectionAccess.can_write (cp_workspace_access (pc_profile (psr_pin run))) = false
     ∨ allow_writes (psr_settings run) = false).

Definition settled_or_refused (h : history) : Prop :=
  plan_settled operation_id h
  ∨ ∃ run, script_ready h run ∧ write_refused run ∧ sent h = [].

Lemma wp_script_transaction run live h :
  script_authority h run → sent h = [] → no_commit h →
  swp (with_cancellation (psr_id run) (λ handle, guarded (Some handle)
         (execute_script_transaction (write_pool live) (psr_statements run)
            (co_grant (psr_operation run)) (psr_id run))))
    (λ r h', transaction_outcome run r h' ∧ script_ready h' run) h.
Proof.
  intros Ha Hs Hn. unfold with_cancellation. wp_step. wp_step; [done|]. wp_step. wp_step.
  set (h1 := Entry _ _ :: h).
  assert (script_authority h1 run) as Ha1 by (by apply (script_authority_app [_])).
  eapply wp_mono; [|apply wp_frame, (wp_guarded answer_ok script_allowed
    (transaction_outcome run)); [apply unpolled_script| | |done|]].
  - intros r' h' [Hout [l ->]]. wp_step. wp_step; [done|]. wp_step. wp_step.
    split; [|apply (script_ready_app [_]), script_ready_app; apply Ha1].
    unfold transaction_outcome in *. rewrite sent_cons by done.
    destruct r' as [[o []]|e].
    + destruct Hout. split; [by apply (committed_app [_])|done].
    + by apply no_commit_cons.
    + destruct Hout; [left; by apply no_commit_cons|by right].
  - apply unpolled_outcome.
  - intros signal r' h' Hi. apply interrupted_script in Hi as (e & -> & He). by right.
  - apply wp_transaction; [done| |by apply no_commit_cons]. rewrite <-Hs. by apply sent_cons.
Qed.

Lemma wp_run_script_write run h :
  script_ready h run → script_has_write (psr_kinds run) = true → sent h = [] → no_commit h →
  swp (run_script_write run) (λ _ h', settled_or_refused h') h.
Proof.
  intros Hr Hw Hs Hn. unfold run_script_write. cbv zeta. wp_if Hcan; bools.
  { wp_step. right. exists run. split_and!; [done| |done]. by split; [|left]. }
  wp_if Hal; bools.
  { wp_step. apply wp_quiet_script; [apply script_record_quiet|]. intros _ l Hl. wp_step.
    right. exists run. split_and!; [by apply script_ready_app| |by rewrite sent_quiet].
    by split; [|right]. }
  wp_step. wp_step; [done|]. wp_step.
  pose proof (script_ready_app [Entry (Call.AuditRecord (script_attempt run)) r] _ _ Hr) as Hr1.
  pose proof (no_commit_cons (Entry (Call.AuditRecord (script_attempt run)) r) h eq_refl Hn) as Hn1.
  pose proof (sent_cons (Entry (Call.AuditRecord (script_attempt run)) r) h eq_refl) as Hs1.
  rewrite Hs in Hs1. destruct r as [entry|e].
  2: { wp_step. apply (wp_finish_script run); [done..|]. intros r Hset. wp_step. by left. }
  wp_step. eapply wp_mono; [|apply wp_scope_connect, script_allowed_quiet].
  intros connected h2 (l2 & -> & Hl2 & Hconn).
  pose proof (script_ready_app l2 _ _ Hr1) as Hr2. pose proof (no_commit_quiet _ _ Hl2 Hn1) as Hn2.
  cbn [app] in Hr2.
  assert (∀ A (p : program A), swp p script_settled (l2 ++ Entry (Call.AuditRecord
    (script_attempt run)) (Ok entry) :: h) → swp p (λ _ h', settled_or_refused h') (l2 ++
    Entry (Call.AuditRecord (script_attempt run)) (Ok entry) :: h)) as Hset.
  { intros A p. apply wp_mono. intros a h' H. by left. }
  destruct connected as [lease|e]; [|by apply Hset, wp_abandon_script].
  destruct (live_sql (ls_live lease)) as [live|e]; [|by apply Hset, wp_abandon_script].
  apply Hset. wp_step. eapply wp_mono; [|apply wp_script_transaction; [|by rewrite sent_quiet|done]].
  - intros executed h3 [Hout Hr3]. by apply wp_settle_script.
  - split; [done..| |by eapply Hconn]. exists entry. apply elem_of_app. right. left.
Qed.

(** *** The whole run *)

Lemma wp_prepare_script :
  swp (prepare_script operation_id)
    (λ r h, match r with
            | Ok run => script_ready h run ∧ sent h = [] ∧ no_commit h
            | Err _ => ¬ claimed_in h operation_id
            end) [].
Proof.
  assert (∀ l, quiet_history l → ¬ claimed_in l operation_id) as Hno
    by (intros l Hl; by apply quiet_unclaimed).
  unfold prepare_script. wp_step. wp_step; [done|]. wp_step.
  assert (quiet_history [Entry (Call.OperationGet operation_id) r]) as Hq0 by (by repeat constructor).
  destruct r as [planned|e]; [|by apply Hno]. wp_if Hk; [by apply Hno|].
  wp_step; [|by apply Hno]. wp_step. wp_step; [done|]. wp_step.
  set (h1 := Entry (Call.PinForRead _) r :: _).
  assert (quiet_history h1) as Hq1 by (by constructor).
  destruct r as [pin|e]; [|by apply Hno]. wp_step; [|by apply Hno].
  wp_step. wp_step; [done|]. wp_step. set (h2 := Entry (Call.GetSafety _) r :: h1).
  assert (quiet_history h2) as Hq2 by (by constructor).
  destruct r as [settings|e]; [|by apply Hno]. wp_step; [|by apply Hno].
  wp_if Hrev; [by apply Hno|]. wp_if Hemp; [by apply Hno|]. wp_step; [|by apply Hno].
  wp_if Hpriv; [by apply Hno|]. wp_if Hkind; [by apply Hno|].
  wp_step. wp_step; [done|]. wp_step. destruct r as [claimed|e].
  - wp_step. apply ok_or_Ok in Hx. destruct x0. bools. split; [|split].
    + split; cbn; try done; [|by right; left|left].
      exists planned, x2, x1. unfold psr_engine. cbn. split_and!; try done; [right; right; right; left|lia|].
      right. right. left.
    + rewrite sent_cons by done. rewrite <-(app_nil_r h2), sent_quiet by done. done.
    + apply no_commit_cons; [done|]. rewrite <-(app_nil_r h2). apply no_commit_quiet; [done|constructor].
  - intros H. apply claimed_in_cons in H; [|done]. by apply (Hno h2).
Qed.

Lemma wp_run_desktop_script :
  swp (run_desktop_script operation_id)
    (λ _ h, claimed_in h operation_id → settled_or_refused h) [].
Proof.
  unfold run_desktop_script. wp_step. eapply wp_mono; [|apply wp_prepare_script].
  intros r h Hp. destruct r as [run|e]; [|by intros Hc]. destruct Hp as (Hr & Hs & Hn).
  wp_if Hw.
  - eapply wp_mono; [|by apply wp_run_script_write]. intros r h' H _. exact H.
  - eapply wp_mono; [|by apply wp_run_reads]. intros r h' H _. left. exact H.
Qed.
End script.
