(* ===== verification/ScriptSafety.v ===== *)
(** * Script runs against a live world

    The theorems of ScriptTheorems.v in a world that other tasks change between
    the calls of [run_desktop_script]. *)

From S2P Require Export ScriptTheorems AgentSafety.

Section safety.
Context {P : Platform} {L : PlatformLaws P} {SD : Serde} {SL : SerdeLaws SD}
  {D : ErrorDisplay} {parser : SqlParser}.

Lemma script_allowed_wf id h c : script_allowed id h c → call_wf c.
Proof. destruct c; cbn; try done. tauto. Qed.

Lemma script_run_world {A} self id w w' h (q : program A) p Q :
  safe (w_ops w) → reaches others (respond self) p w [] q w' h →
  wp answer_ok (script_allowed id) p Q [] →
  world_ok w' h ∧ wp answer_ok (script_allowed id) q Q h.
Proof.
  intros Hs Hr Hwp. split.
  - eapply world_ok_reaches; [apply script_allowed_wf|exact Hr|exact Hwp|exact Hs].
  - eapply reaches_wp; [apply respond_answer_ok|exact Hr|exact Hwp].
Qed.

(** What the stored tables hold for a script that may write. *)
Record script_permit (w : World) (id : Uuid) (op : OperationRecord) (run : PreparedScriptRun)
  : Prop := {
  sp_stored : get id (w_ops w) = Ok op;
  sp_digest : canonical_hash (op_payload op) = Ok (op_payload_hash op);
  sp_payload : script_payload_from_value (op_payload op) = Some (psr_payload run);
  sp_statements : psr_statements run
    = split_statements (scp_sql (psr_payload run)) (psr_engine run);
  sp_kind : op_kind op = OperationKind.SqlScript;
  sp_privilege : existsb is_privilege (psr_kinds run) = false;
  sp_classified : ∃ cs, classify_all (psr_statements run) (psr_engine run) = Ok cs
    ∧ psr_kinds run = map cl_kind cs;
  sp_approved : approval_of w op;
  sp_scope : ensure_operation_scope op (psr_pin run) = Ok tt;
  sp_policy : ∃ policy, capture_policy (psr_pin run) (psr_settings run) = Ok policy
    ∧ cop_revision policy = op_policy_revision op;
  sp_enabled : allow_writes (psr_settings run) = true;
  sp_granted : local_authority (psr_pin run) ConnectionAccess.Write = Ok tt;
  sp_audited : audited w (script_attempt run);
}.

Lemma script_authority_permit w h id run :
  world_ok w h → script_authority id h run → ∃ op, script_permit w id op run.
Proof.
  intros [Hs Hf] [[(planned & cs & policy & Hget & _ & Hpay & _ & Hscope & Hpol & Hrev & Hcl & Hk
    & Hkind) _ Hst _ Hpriv Hclaimed] Hw Hen [entry Haud] [Hgr _]].
  destruct (Hf _ Hget planned eq_refl) as [Hid (op & Hop & Hlife)]. rewrite Hid in Hop.
  destruct (Hf _ Hclaimed _ eq_refl) as [Hcid (op' & Hop' & Hlife') _ _ Happ].
  rewrite Hcid, Hop in Hop'. injection Hop' as <-.
  assert (op_kind op = OperationKind.SqlScript) as Hscript.
  { rewrite Hlife. cbn. rewrite Hkind. unfold script_operation_kind. by rewrite Hw. }
  exists op. split; try done.
  - destruct (get_stored _ _ _ (safe_Inv _ Hs) Hop) as (r & t & _ & Hr & _).
    by eapply record_payload_hash, st_decode.
  - by rewrite Hlife.
  - by exists cs.
  - rewrite Hlife'. apply approval_of_lifecycle, Happ. rewrite Hlife' in Hscript. cbn in Hscript.
    by rewrite Hscript.
  - by rewrite Hlife.
  - exists policy. split; [done|]. by rewrite Hlife.
  - by apply (Hf _ Haud entry).
Qed.
End safety.

(** What a call of the write transaction may find already executed. *)
Definition in_order {P : Platform} (statements : list string) (h : history) (c : Call.t) : Prop :=
  match c with
  | Call.Begin _ => sent h = []
  | Call.Execute _ sql =>
      ∃ before after, statements = before ++ sql :: after ∧ sent h = accepted before
  | Call.Commit _ => sent h = accepted statements
  | Call.Rollback _ =>
      ∃ before sql after, statements = before ++ sql :: after
        ∧ sent h = accepted before ++ [(sql, false)]
  | _ => True
  end.

(** C2. A script writes as approved and in order: whenever [run_desktop_script] is
    about to begin, execute in, commit or roll back its transaction, whatever other
    tasks do meanwhile, the stored operation is an approved and audited script whose payload has
    the approved digest, under an unchanged policy that enables writes, captured
    from the connection and the safety settings this run read ([script_authority]), with every
    statement classified and none of them a privilege change; a statement is the
    next of the split payload after those already accepted, a commit is sent only
    after all of them were accepted, and a rollback only after one was refused. *)
Theorem script_writes_in_order {P : Platform} {L : PlatformLaws P} {SD : Serde} {SL : SerdeLaws SD}
    {D : ErrorDisplay} {parser : SqlParser} self id w w' h c k :
  safe (w_ops w) →
  reaches others (respond self) (run_desktop_script id) w [] (Vis c k) w' h →
  in_transaction c = true →
  ∃ op run, script_permit w' id op run ∧ script_authority id h run
    ∧ in_order (psr_statements run) h c.
Proof.
  intros Hs Hr Hc.
  destruct (script_run_world _ _ _ _ _ _ _ _ Hs Hr (wp_run_desktop_script id)) as [Hw [Ha _]].
  assert (∃ run, script_authority id h run ∧ in_order (psr_statements run) h c) as (run & Hrun & Ho).
  { clear Hr. destruct c; try done; cbn in Ha |- *.
    - destruct Ha as (run & before & after & Hrun & H). exists run. split; [done|].
      by exists before, after.
    - destruct Ha as (run & before & sql & after & Hrun & H). exists run. split; [done|].
      by exists before, sql, after. }
  destruct (script_authority_permit _ _ _ _ Hw Hrun) as [op Hop]. by exists op, run.
Qed.

(** A claimed script is settled with an honest verdict: it is called failed
    only if no commit was sent, succeeded, for a script with a write, only after
    every statement of it was accepted and the commit was acknowledged, and never
    cancelled; when the run returns after its claim, the verdict was sent, and
    the operation is in that state if the store accepted it.  The only other end
    is a refusal before anything was sent, when the pinned connection does not
    take writes. *)
Theorem script_run_settles {P : Platform} {L : PlatformLaws P} {SD : Serde} {SL : SerdeLaws SD}
    {D : ErrorDisplay} {parser : SqlParser} self id w w' h
    (q : program (result DesktopScriptRunError ScriptOutcome)) :
  safe (w_ops w) →
  reaches others (respond self) (run_desktop_script id) w [] q w' h →
  match q with
  | Vis (Call.OperationFinish id' target details) _ =>
      id' = id ∧ OperationState.is_terminal target = true
      ∧ ∃ run, script_ready id h run ∧ script_verdict run h target
  | Vis _ _ => True
  | Ret _ =>
      claimed_in h id →
      (∃ target details answer, Entry (Call.OperationFinish id target details) answer ∈ h
         ∧ ∀ op, answer = Ok op → finished_as w' id target)
      ∨ ∃ run, script_ready id h run ∧ write_refused run ∧ sent h = []
  end.
Proof.
  intros Hs Hr.
  destruct (script_run_world _ _ _ _ _ _ _ _ Hs Hr (wp_run_desktop_script id)) as [Hw Hwp].
  destruct q as [r|c k].
  - intros Hcl. destruct (Hwp Hcl) as [(id' & Hn & target & details & answer & Hin)|?]; [left|by right].
    rewrite (names_plan_id _ _ _ _ Hw Hn) in Hin. exists target, details, answer. split; [done|].
    destruct Hw as [_ Hf]. exact (Hf _ Hin).
  - destruct Hwp as [Ha _]. destruct c; try done. destruct Ha as (_ & Ht & Hn & Hrun).
    split_and!; [by eapply names_plan_id|done|done].
Qed.

(** ** A concrete script *)

Module ScriptSample.
Definition payload : StoredDesktopScriptPayload :=
  {| scp_sql := "DELETE FROM t; DELETE FROM u"; scp_history_origin := "manual" |}.

Definition operation : NewOperation := {|
  new_id := Sample.uid 1; new_workspace_id := Sample.uid 2; new_account_scope := "a";
  new_connection_id := Sample.uid 3; new_connection_revision := 1;
  new_terminal_session_id := None; new_actor := actor_for_pin RunSample.pin "manual";
  new_kind := OperationKind.SqlScript; new_payload_schema_version := 1;
  new_payload := script_payload_to_value payload; new_schema_fingerprint := None;
  new_risk_level := OperationRiskLevel.High; new_preview := VNull;
  new_policy_snapshot := cop_snapshot RunSample.policy;
  new_policy_revision := cop_revision RunSample.policy; new_single_use := true;
  new_idempotency_key := "k"; new_expires_at := Some 1000 |}.
Lemma script_operation_ok : new_operation_ok operation.
Proof. repeat split; by vm_compute. Qed.

Definition request : @ExactApprovalRequest Reference.platform := {|
  ear_operation_id := Sample.uid 1;
  ear_expected_payload_hash := match canonical_hash (new_payload operation) with
                               | Ok h => h | Err _ => "" end;
  ear_approver := cmd_approver Sample.approval;
  ear_current_policy_revision := cop_revision RunSample.policy; ear_reason := None |}.
Definition world : World :=
  {| w_ops := (approve_exact (Sample.uid 13) (Sample.uid 14) 20 RuntimeSample.self
       RuntimeSample.authority request
       (plan (Sample.uid 11) (Sample.uid 12) 10 11 (λ x, x) RuntimeSample.self operation
          ApprovalRequired empty_db).2).2;
     w_audit := [] |}.
Lemma script_world_safe : safe (w_ops world).
Proof.
  eapply activity_safe; [|apply safe_empty].
  apply activity_plan_approve; [by apply (bool_decide_unpack _)..|apply script_operation_ok|].
  by apply (bool_decide_unpack _).
Qed.
End ScriptSample.

(** Both statements are accepted, then the commit is sent. *)
Lemma script_writes_in_order_witness :
  ∃ w' h tx k op run, reaches others (respond RuntimeSample.self)
      (run_desktop_script (Sample.uid 1)) ScriptSample.world [] (Vis (Call.Commit tx) k) w' h
    ∧ script_permit w' (Sample.uid 1) op run ∧ sent h = accepted (psr_statements run).
Proof.
  pose proof ScriptSample.script_world_safe as Hs.
  assert (match exec_until RunSample.oracle is_commit (run_desktop_script (Sample.uid 1))
            ScriptSample.world [] with
          | Some (Vis (Call.Commit _) _, _, _) => true
          | _ => false
          end = true) as Hc by (vm_compute; reflexivity).
  revert Hs Hc. generalize ScriptSample.world. intros w Hs Hc.
  destruct (exec_until _ _ _ w _) as [[[q w'] h]|] eqn:He; [|done].
  destruct q as [|c k]; [done|]. destruct c; try done.
  apply (exec_until_reaches others (respond RuntimeSample.self)) in He;
    [|apply RunSample.world_still|apply RunSample.oracle_responds].
  destruct (script_writes_in_order RuntimeSample.self (Sample.uid 1) w w' h _ k Hs He eq_refl)
    as (op & run & Hp & _ & Hsent).
  exists w', h, tx, k, op, run. split_and!; [exact He|exact Hp|exact Hsent].
Defined.

Lemma script_run_settles_witness :
  ∃ w' h details k run, reaches others (respond RuntimeSample.self)
      (run_desktop_script (Sample.uid 1)) ScriptSample.world []
      (Vis (Call.OperationFinish (Sample.uid 1) OperationState.Succeeded details) k) w' h
    ∧ script_ready (Sample.uid 1) h run ∧ script_verdict run h OperationState.Succeeded.
Proof.
  pose proof ScriptSample.script_world_safe as Hs.
  assert (match exec_until RunSample.oracle RunSample.is_finish
            (run_desktop_script (Sample.uid 1)) ScriptSample.world [] with
          | Some (Vis (Call.OperationFinish _ target _) _, _, _) =>
              bool_decide (target = OperationState.Succeeded)
          | _ => false
          end = true) as Hc by (vm_compute; reflexivity).
  revert Hs Hc. generalize ScriptSample.world. intros w Hs Hc.
  destruct (exec_until _ _ _ w _) as [[[q w'] h]|] eqn:He; [|done].
  destruct q as [|c k]; [done|]. destruct c; try done. apply bool_decide_eq_true in Hc as ->.
  apply (exec_until_reaches others (respond RuntimeSample.self)) in He;
    [|apply RunSample.world_still|apply RunSample.oracle_responds].
  destruct (script_run_settles RuntimeSample.self (Sample.uid 1) w w' h _ Hs He)
    as (Hid & _ & run & Hr & Hv).
  subst id. exists w', h, details, k, run. split_and!; [exact He|exact Hr|exact Hv].
Defined.
