(* ===== verification/DocumentService.v ===== *)
(** * The document service (src-tauri/src/services/document_service.rs)

    Typed MongoDB reads.  An agent's read is planned, claimed and run in one
    call, a desktop read is proposed and run by its identifier; both classify the
    request (Mongo.v) and send it to a document connection only as a read.
    [run_claimed_document] is the part of [run_agent_read] after the claim,
    [authorize_document_run] and [settle_document] are parts of
    [run_desktop_read]. *)

From S2P Require Import Mongo.
From S2P Require Export QueryService.

Definition MAX_DESKTOP_ROWS : Z := 100000.

(** ** [DocumentQuery]'s [Serialize] and [Deserialize]
    ([#[serde(rename_all = "camelCase", tag = "op")]], src-tauri/src/model.rs) *)

Definition value_of_opt_u64 (o : option Z) : Value := from_option value_of_u64 VNull o.

Definition document_query_to_value (query : DocumentQuery) : Value :=
  VObject
    match query with
    | Find collection filter projection sort skip limit =>
        [("op", VString "find"); ("collection", VString collection);
         ("filter", default VNull filter); ("projection", default VNull projection);
         ("sort", default VNull sort); ("skip", value_of_opt_u64 skip);
         ("limit", value_of_opt_u64 limit)]
    | Aggregate collection pipeline =>
        [("op", VString "aggregate"); ("collection", VString collection);
         ("pipeline", VArray pipeline)]
    | Count collection filter =>
        [("op", VString "count"); ("collection", VString collection);
         ("filter", default VNull filter)]
    end.

Definition document_fields (tag : string) : option (list string) :=
  match tag with
  | "find" => Some ["collection"; "filter"; "projection"; "sort"; "skip"; "limit"]
  | "aggregate" => Some ["collection"; "pipeline"]
  | "count" => Some ["collection"; "filter"]
  | _ => None
  end.

Definition document_variant (tag : string) (field : string → option Value)
  : option DocumentQuery :=
  match tag with
  | "find" =>
      collection ← required de_string (field "collection");
      filter ← defaulted None (de_option Some) (field "filter");
      projection ← defaulted None (de_option Some) (field "projection");
      sort ← defaulted None (de_option Some) (field "sort");
      skip ← defaulted None (de_option de_u64) (field "skip");
      limit ← defaulted None (de_option de_u64) (field "limit");
      Some (Find collection filter projection sort skip limit)
  | "aggregate" =>
      collection ← required de_string (field "collection");
      pipeline ← required (de_list Some) (field "pipeline");
      Some (Aggregate collection pipeline)
  | "count" =>
      collection ← required de_string (field "collection");
      filter ← defaulted None (de_option Some) (field "filter");
      Some (Count collection filter)
  | _ => None
  end.

(** The tag is a field of the object, or the first item of an array; unknown
    fields are ignored. *)
Definition document_query_from_value (v : Value) : option DocumentQuery :=
  match v with
  | VObject m =>
      tag ← Json.assoc "op" m ≫= as_str;
      document_variant tag (λ k, Json.assoc k m)
  | VArray (t :: l) =>
      tag ← as_str t;
      names ← document_fields tag;
      if (length l <=? length names)%nat then document_variant tag (λ k, Json.assoc k (zip names l))
      else None
  | _ => None
  end.

Section types.
Context {P : Platform}.

(** [serde_json::to_string(&query)] *)
Definition document_query_text (query : DocumentQuery) : AppResult string :=
  ok_or Serialization (json_to_string (document_query_to_value query)).

Record AgentDocumentReadRequest := {
  adr_connection_id : Uuid; adr_query : DocumentQuery; adr_query_text : string;
  adr_max_rows : option Z; adr_origin : AgentQueryInvocationOrigin;
}.

(** [AgentDocumentReadRequest::try_new] *)
Definition agent_document_request (connection_id : Uuid) (query : DocumentQuery)
  (max_rows : option Z) (origin : AgentQueryInvocationOrigin)
  : AppResult AgentDocumentReadRequest :=
  query_text ← document_query_text query;
  Ok {| adr_connection_id := connection_id; adr_query := query; adr_query_text := query_text;
        adr_max_rows := max_rows; adr_origin := origin |}.

Record StoredAgentDocumentPayload := {
  sad_query : DocumentQuery; sad_query_text : string; sad_max_rows : Z;
  sad_origin : AgentQueryInvocationOrigin;
}.
Definition agent_document_to_value (p : StoredAgentDocumentPayload) : Value :=
  VObject [("query", document_query_to_value (sad_query p));
           ("queryText", VString (sad_query_text p)); ("maxRows", value_of_u64 (sad_max_rows p));
           ("origin", VString (origin_as_str (sad_origin p)))].
Definition agent_document_from_value : Value → option StoredAgentDocumentPayload :=
  de_struct ["query"; "queryText"; "maxRows"; "origin"] (λ field,
    query ← required document_query_from_value (field "query");
    query_text ← required de_string (field "queryText");
    max_rows ← required de_u64 (field "maxRows");
    origin ← required (de_variant origin_parse) (field "origin");
    Some {| sad_query := query; sad_query_text := query_text; sad_max_rows := max_rows;
            sad_origin := origin |}).

Record DesktopDocumentProposalRequest := {
  ddp_connection_id : Uuid; ddp_query : DocumentQuery; ddp_origin : option string;
}.
Record DesktopDocumentProposalReceipt := {
  ddr_operation_id : Uuid; ddr_payload_hash : string; ddr_state : OperationState.t;
  ddr_expires_at : DateTime;
}.

Record StoredDesktopDocumentPayload := { sdd_query : DocumentQuery; sdd_history_origin : string }.
Definition desktop_document_to_value (p : StoredDesktopDocumentPayload) : Value :=
  VObject [("query", document_query_to_value (sdd_query p));
           ("historyOrigin", VString (sdd_history_origin p))].
Definition desktop_document_from_value : Value → option StoredDesktopDocumentPayload :=
  de_struct ["query"; "historyOrigin"] (λ field,
    query ← required document_query_from_value (field "query");
    history_origin ← required de_string (field "historyOrigin");
    Some {| sdd_query := query; sdd_history_origin := history_origin |}).

Record DocumentReadEventContext := {
  dec_connection_id : Uuid; dec_connection_name : string; dec_query_text : string;
}.
(** [DocumentReadReceipt], whose lease is dropped with it. *)
Record DocumentReadResult := {
  drs_context : DocumentReadEventContext; drs_query : DocumentQuery; drs_page : DocumentPage;
}.

Inductive AgentDocumentReadError :=
| AgentNonDocumentConnection
| AgentRejected (context : DocumentReadEventContext) (message : string)
| AgentApplication (error : AppError)
| AgentExecution (context : DocumentReadEventContext) (error : AppError).

Inductive DesktopDocumentReadError :=
| DesktopNonDocumentConnection
| DocumentBlocked (reason : string)
| DocumentApplication (error : AppError)
| DocumentExecution (error : AppError).

Definition document_error_into_error (self : DesktopDocumentReadError) : AppError :=
  match self with
  | DesktopNonDocumentConnection =>
      Config "document queries are only available on MongoDB connections"
  | DocumentBlocked reason => Blocked reason
  | DocumentApplication error | DocumentExecution error => error
  end.
End types.

(** ** Pure helpers *)

Definition bounded_agent_rows (requested : option Z) (configured : Z) : Z :=
  Z.min (default configured requested) MAX_AGENT_ROWS.
Definition bounded_desktop_rows (configured : Z) : Z :=
  Z.max 1 (Z.min configured MAX_DESKTOP_ROWS).

Definition document_audit_action (origin : AgentQueryInvocationOrigin) : string :=
  match origin with Mcp => "mcp:run_document_query" | Cli => "cli:run_document_query" end.
Definition agent_rejection_fallback (origin : AgentQueryInvocationOrigin) : string :=
  match origin with
  | Mcp => "document writes are not supported over MCP"
  | Cli => "document writes are not supported over CLI"
  end.

Definition desktop_blocked_reason (settings : SafetySettings) (classification : Classification)
  : option string :=
  if negb (is_read (cl_kind classification))
  then Some (default "document writes are not supported" (head (cl_notes classification)))
  else match Safety.decide settings classification with
       | Block reason => Some reason
       | _ => None
       end.

Definition document_operation_risk (classification : Classification) : OperationRiskLevel.t :=
  match cl_risk classification with
  | QueryRisk.Low => OperationRiskLevel.Low
  | QueryRisk.Medium => OperationRiskLevel.Medium
  | QueryRisk.High => OperationRiskLevel.High
  end.

Section document_service.
Context {P : Platform} {SD : Serde} {D : ErrorDisplay}.
Local Open Scope prog_scope.

(** ** Records *)

Definition document_audit (pin : PinnedConnection) (query_text : string) (kind : QueryKind.t)
  (action : string) (affected_estimate : option Z) (error : option string) : program unit :=
  _ ← audit_record
    {| ra_connection_id := pc_connection_id pin; ra_engine := cp_engine (pc_profile pin);
       ra_agent_prompt := None; ra_sql := query_text; ra_kind := kind; ra_action := action;
       ra_approved_by := None; ra_affected_estimate := affected_estimate; ra_error := error |};
  Ret tt.

Definition document_history (pin : PinnedConnection) (query_text : string) (kind : QueryKind.t)
  (status : string) (rows duration_ms : option Z) (error : option string) (origin : string)
  : program (AppResult unit) :=
  id ← new_uuid;
  executed_at ← utc_now;
  store_insert_history pin
    {| he_id := id; he_connection_id := pc_connection_id pin; he_sql := query_text;
       he_kind := kind; he_status := status; he_row_count := rows;
       he_duration_ms := duration_ms; he_error := error; he_executed_at := executed_at;
       he_origin := origin |}.

Definition record_agent_execution (pin : PinnedConnection) (query_text : string)
  (origin : AgentQueryInvocationOrigin) (rows duration_ms : option Z) (error : option string)
  : program unit :=
  _ ← document_audit pin query_text QueryKind.Read (document_audit_action origin) None error;
  _ ← document_history pin query_text QueryKind.Read (if error then "error" else "ok") rows
        duration_ms error "agent";
  Ret tt.

Definition record_desktop_outcome (pin : PinnedConnection) (query_text : string)
  (kind : QueryKind.t) (action status : string) (rows duration_ms : option Z)
  (error : option string) (history_origin : string) : program unit :=
  _ ← document_audit pin query_text kind action rows error;
  _ ← document_history pin query_text kind status rows duration_ms error history_origin;
  Ret tt.

Definition page_receipt (page : DocumentPage) : Value :=
  VObject [("durationMs", value_of_u64 (dp_duration_ms page));
           ("rowCount", value_of_u64 (dp_doc_count page))].

(** ** Agent reads *)

Definition agent_document_operation (request : AgentDocumentReadRequest) (pin : PinnedConnection)
  (classification : Classification) (max_rows : Z) (policy : CapturedOperationPolicy)
  (operation_id : Uuid) (now : DateTime) : NewOperation := {|
  new_id := operation_id;
  new_workspace_id := sc_workspace_id (pc_scope pin);
  new_account_scope := storage_key (sc_account_scope (pc_scope pin));
  new_connection_id := pc_connection_id pin;
  new_connection_revision := pc_connection_revision pin;
  new_terminal_session_id := None;
  new_actor := agent_actor_for_pin pin (origin_as_str (adr_origin request))
                 (origin_as_str (adr_origin request));
  new_kind := OperationKind.DocumentRead;
  new_payload_schema_version := 1;
  new_payload := agent_document_to_value
    {| sad_query := adr_query request; sad_query_text := adr_query_text request;
       sad_max_rows := max_rows; sad_origin := adr_origin request |};
  new_schema_fingerprint := None;
  new_risk_level := document_operation_risk classification;
  new_preview := classification_to_value classification;
  new_policy_snapshot := cop_snapshot policy;
  new_policy_revision := cop_revision policy;
  new_single_use := true;
  new_idempotency_key := uuid_to_string operation_id;
  new_expires_at := Some (now + QUERY_PLAN_TTL) |}.

Definition agent_document_context (pin : PinnedConnection) (query_text : string)
  : DocumentReadEventContext :=
  {| dec_connection_id := pc_connection_id pin; dec_connection_name := cp_name (pc_profile pin);
     dec_query_text := query_text |}.

(** [operation.fail(..)], its result ignored, and the error. *)
Definition fail_document {E A} (operation_id : Uuid) (details : Value) (error : E)
  : program (result E A) :=
  _ ← operation_fail operation_id details;
  Ret (Err error).

(** The receipts of a [page] that was read. *)
Definition receive_page (pin : PinnedConnection) (context : DocumentReadEventContext)
  (operation_id : Uuid) (payload : StoredAgentDocumentPayload) (page : DocumentPage)
  : program (result AgentDocumentReadError DocumentReadResult) :=
  _ ← record_agent_execution pin (dec_query_text context) (sad_origin payload)
        (Some (wrap_i64 (dp_doc_count page))) (Some (wrap_i64 (dp_duration_ms page))) None;
  succeeded ← operation_succeed operation_id (page_receipt page);
  match succeeded with
  | Err error => fail_document operation_id (error_details error "operation_receipt_failed")
                   (AgentExecution context error)
  | Ok _ => Ret (Ok {| drs_context := context; drs_query := sad_query payload; drs_page := page |})
  end.

Definition run_claimed_document (authority : ConnectionContext) (context : DocumentReadEventContext)
  (operation_id : Uuid) (operation : OperationRecord)
  : program (result AgentDocumentReadError DocumentReadResult) :=
  let refuse details error := fail_document operation_id details (AgentApplication error) in
  match agent_document_from_value (op_payload operation) with
  | None => refuse (error_details Serialization "stored_document_payload_invalid") Serialization
  | Some payload =>
    match document_query_text (sad_query payload) with
    | Err error => refuse (error_details error "stored_document_payload_invalid") error
    | Ok canonical_query =>
      if negb (canonical_query =? sad_query_text payload)%string
      then refuse (reason_details "stored_document_event_mismatch")
             (Blocked "stored document query does not match its canonical event payload")
      else
        connected ← context_connect authority;
        match connected with
        | Err error => refuse (error_details error "target_connection_failed") error
        | Ok lease =>
          match live_mongo (ls_live lease) with
          | Err error => refuse (reason_details "document_backend_unavailable") error
          | Ok mongo =>
            executed ← document_run mongo (sad_query payload)
                         (Z.min (sad_max_rows payload) MAX_AGENT_ROWS)
                         (STATEMENT_TIMEOUT_MS * 10 ^ 6);
            match executed with
            | Err error =>
                _ ← record_agent_execution (cx_pin authority) (dec_query_text context)
                      (sad_origin payload) None None (Some (error_to_string error));
                fail_document operation_id (error_details error "document_read_failed")
                  (AgentExecution context error)
            | Ok page => receive_page (cx_pin authority) context operation_id payload page
            end
          end
        end
    end
  end.

Definition run_agent_read (request : AgentDocumentReadRequest)
  : program (result AgentDocumentReadError DocumentReadResult) :=
  try authority ← manager_pin (adr_connection_id request) ConnectionAccess.Read
    or AgentApplication;
  let pin := cx_pin authority in
  if negb (Engine.is_document (cp_engine (pc_profile pin)))
  then Ret (Err AgentNonDocumentConnection)
  else
    let context := agent_document_context pin (adr_query_text request) in
    let classification := Mongo.classify (adr_query request) in
    if negb (is_read (cl_kind classification))
    then
      let message := default (agent_rejection_fallback (adr_origin request))
                       (head (cl_notes classification)) in
      _ ← document_audit pin (adr_query_text request) (cl_kind classification)
            (document_audit_action (adr_origin request)) None (Some message);
      Ret (Err (AgentRejected context message))
    else
      try settings ← store_get_safety (pc_connection_id pin) or AgentApplication;
      let max_rows := bounded_agent_rows (adr_max_rows request) (max_rows settings) in
      check policy ← capture_policy pin settings or AgentApplication;
      operation_id ← new_uuid;
      now ← utc_now;
      try operation ← operation_plan
        (agent_document_operation request pin classification max_rows policy operation_id now)
        Runtime.Ready or AgentApplication;
      try _ ← operation_claim operation_id or AgentApplication;
      run_claimed_document authority context operation_id operation.

(** ** Desktop reads *)

Definition desktop_document_operation (request : DesktopDocumentProposalRequest)
  (pin : PinnedConnection) (classification : Classification) (policy : CapturedOperationPolicy)
  (operation_id : Uuid) (now : DateTime) : NewOperation :=
  let history_origin := default "manual" (ddp_origin request) in {|
  new_id := operation_id;
  new_workspace_id := sc_workspace_id (pc_scope pin);
  new_account_scope := storage_key (sc_account_scope (pc_scope pin));
  new_connection_id := pc_connection_id pin;
  new_connection_revision := pc_connection_revision pin;
  new_terminal_session_id := None;
  new_actor := actor_for_pin pin history_origin;
  new_kind := OperationKind.DocumentRead;
  new_payload_schema_version := 1;
  new_payload := desktop_document_to_value
    {| sdd_query := ddp_query request; sdd_history_origin := history_origin |};
  new_schema_fingerprint := None;
  new_risk_level := document_operation_risk classification;
  new_preview := classification_to_value classification;
  new_policy_snapshot := cop_snapshot policy;
  new_policy_revision := cop_revision policy;
  new_single_use := true;
  new_idempotency_key := uuid_to_string operation_id;
  new_expires_at := Some (now + QUERY_PLAN_TTL) |}.

Definition propose_desktop_read (request : DesktopDocumentProposalRequest)
  : program (result DesktopDocumentReadError DesktopDocumentProposalReceipt) :=
  try pin ← store_pin_for_view (ddp_connection_id request) or DocumentApplication;
  if negb (Engine.is_document (cp_engine (pc_profile pin)))
  then Ret (Err DesktopNonDocumentConnection)
  else if negb (WorkspaceConnectionAccess.can_read (cp_workspace_access (pc_profile pin)))
  then Ret (Err (DocumentBlocked "your workspace role cannot read this document connection"))
  else
    try settings ← store_get_safety (pc_connection_id pin) or DocumentApplication;
    let classification := Mongo.classify (ddp_query request) in
    match desktop_blocked_reason settings classification with
    | Some reason => Ret (Err (DocumentBlocked reason))
    | None =>
        check policy ← capture_policy pin settings or DocumentApplication;
        operation_id ← new_uuid;
        now ← utc_now;
        try operation ← operation_plan
          (desktop_document_operation request pin classification policy operation_id now)
          Runtime.Ready or DocumentApplication;
        Ret (Ok {| ddr_operation_id := op_id operation;
                   ddr_payload_hash := op_payload_hash operation;
                   ddr_state := op_state operation;
                   ddr_expires_at := now + QUERY_PLAN_TTL |})
    end.

(** What the checks before the claim establish. *)
Record DocumentRun := {
  dcn_planned : OperationRecord; dcn_payload : StoredDesktopDocumentPayload;
  dcn_pin : PinnedConnection; dcn_settings : SafetySettings; dcn_query_text : string;
}.

Definition authorize_document_run (operation_id : Uuid)
  : program (result DesktopDocumentReadError DocumentRun) :=
  try planned ← operation_get operation_id or DocumentApplication;
  if negb (bool_decide (op_kind planned = OperationKind.DocumentRead))
     || negb (op_payload_schema_version planned =? 1)
  then Ret (Err (DocumentApplication (Blocked "operation is not a supported document-read plan")))
  else
    check payload ← ok_or Serialization (desktop_document_from_value (op_payload planned))
      or DocumentApplication;
    try pin ← store_pin_for_read (op_connection_id planned) or DocumentApplication;
    check _ ← ensure_operation_scope planned pin or DocumentApplication;
    if negb (Engine.is_document (cp_engine (pc_profile pin)))
    then Ret (Err DesktopNonDocumentConnection)
    else
      try settings ← store_get_safety (pc_connection_id pin) or DocumentApplication;
      check policy ← capture_policy pin settings or DocumentApplication;
      if negb (cop_revision policy =? op_policy_revision planned)%string
      then Ret (Err (DocumentBlocked
        "the connection or safety policy changed; create a new plan"))
      else
        let classification := Mongo.classify (sdd_query payload) in
        check query_text ← document_query_text (sdd_query payload) or DocumentApplication;
        match desktop_blocked_reason settings classification with
        | Some reason =>
            _ ← record_desktop_outcome pin query_text (cl_kind classification) "blocked" "blocked"
                  None None (Some reason) (sdd_history_origin payload);
            Ret (Err (DocumentBlocked reason))
        | None =>
            Ret (Ok {| dcn_planned := planned; dcn_payload := payload; dcn_pin := pin;
                       dcn_settings := settings; dcn_query_text := query_text |})
        end.

(** [record_desktop_outcome] of a read. *)
Definition record_document (run : DocumentRun) (action status : string)
  (rows duration_ms : option Z) (error : option string) : program unit :=
  record_desktop_outcome (dcn_pin run) (dcn_query_text run) QueryKind.Read action status rows
    duration_ms error (sdd_history_origin (dcn_payload run)).

(** The [match executor::cancel::guard(..)] of [run_desktop_read]. *)
Definition settle_document (operation_id : Uuid) (run : DocumentRun)
  (executed : AppResult DocumentPage)
  : program (result DesktopDocumentReadError DocumentReadResult) :=
  match executed with
  | Ok page =>
      try _ ← operation_succeed operation_id (page_receipt page) or DocumentApplication;
      _ ← record_document run "read" "ok" (Some (wrap_i64 (dp_doc_count page)))
            (Some (wrap_i64 (dp_duration_ms page))) None;
      Ret (Ok {| drs_context := agent_document_context (dcn_pin run) (dcn_query_text run);
                 drs_query := sdd_query (dcn_payload run); drs_page := page |})
  | Err error =>
      _ ← (if is_cancellation error
           then operation_confirm_cancelled operation_id (reason_details "user_cancelled")
           else operation_fail operation_id (reason_details (error_kind error)));
      _ ← record_document run "error" "error" None None (Some (error_to_string error));
      Ret (Err (DocumentExecution error))
  end.

Definition run_desktop_read (operation_id : Uuid)
  : program (result DesktopDocumentReadError DocumentReadResult) :=
  try run ← authorize_document_run operation_id or id;
  try _ ← operation_claim operation_id or DocumentApplication;
  connected ← scope_connect (dcn_pin run) ConnectionAccess.Read;
  match connected with
  | Err error =>
      _ ← record_document run "error" "error" None None (Some (error_to_string error));
      _ ← operation_fail operation_id (reason_details "connection_failed");
      Ret (Err (DocumentApplication error))
  | Ok lease =>
      match live_mongo (ls_live lease) with
      | Err error => fail_document operation_id (reason_details "document_backend_unavailable")
                       (DocumentApplication error)
      | Ok mongo =>
          executed ← with_cancellation operation_id (λ handle,
            guarded (Some handle)
              (document_run mongo (sdd_query (dcn_payload run))
                 (bounded_desktop_rows (max_rows (dcn_settings run)))
                 (QUERY_TIMEOUT_SECS * 10 ^ 9)));
          settle_document operation_id run executed
      end
  end.
End document_service.
