(* ===== verification/DocumentTheorems.v ===== *)
(** * What document reads guarantee

    A stored request is its canonical form: object keys come back sorted and an
    explicit null option is gone ([canonical_query]).  A read is sent only after
    its operation was claimed, and every claim is settled. *)

From S2P Require Import Mongo.
From S2P Require Export ServiceLogic DocumentService.

(** ** The stored request *)

Definition canonical_option (o : option Value) : option Value :=
  match o with Some VNull | None => None | Some v => Some (canonical_value v) end.

(** What a stored request is read back as. *)
Definition canonical_query (query : DocumentQuery) : DocumentQuery :=
  match query with
  | Find collection filter projection sort skip limit =>
      Find collection (canonical_option filter) (canonical_option projection)
        (canonical_option sort) skip limit
  | Aggregate collection pipeline => Aggregate collection (map canonical_value pipeline)
  | Count collection filter => Count collection (canonical_option filter)
  end.

(** The values of the request are well formed and its numbers are integers. *)
Definition query_exact (query : DocumentQuery) : Prop :=
  value_exact (document_query_to_value query) = true.

Section codec.

Lemma canonical_option_default o :
  default VNull (canonical_option o) = canonical_value (default VNull o).
Proof. by destruct o as [[]|]. Qed.
Lemma canonical_option_field o :
  defaulted None (de_option Some) (Some (canonical_value (default VNull o)))
  = Some (canonical_option o).
Proof. by destruct o as [[]|]. Qed.
Lemma canonical_u64_field o :
  defaulted None (de_option de_u64) (Some (canonical_value (value_of_opt_u64 o))) = Some o.
Proof. by destruct o. Qed.
Lemma de_list_Some l : de_list Some (VArray l) = Some l.
Proof. cbn. induction l as [|x l IH]; [done|]. cbn. by rewrite IH. Qed.

Lemma canonical_find collection filter projection sort skip limit :
  canonical_value (document_query_to_value (Find collection filter projection sort skip limit))
  = VObject
      [("collection", VString collection); ("filter", canonical_value (default VNull filter));
       ("limit", canonical_value (value_of_opt_u64 limit)); ("op", VString "find");
       ("projection", canonical_value (default VNull projection));
       ("skip", canonical_value (value_of_opt_u64 skip));
       ("sort", canonical_value (default VNull sort))].
Proof. reflexivity. Qed.
Lemma canonical_aggregate collection pipeline :
  canonical_value (document_query_to_value (Aggregate collection pipeline))
  = VObject [("collection", VString collection); ("op", VString "aggregate");
             ("pipeline", VArray (map canonical_value pipeline))].
Proof. reflexivity. Qed.
Lemma canonical_count collection filter :
  canonical_value (document_query_to_value (Count collection filter))
  = VObject [("collection", VString collection);
             ("filter", canonical_value (default VNull filter)); ("op", VString "count")].
Proof. reflexivity. Qed.

Lemma document_query_roundtrip query :
  document_query_from_value (canonical_value (document_query_to_value query))
  = Some (canonical_query query).
Proof.
  destruct query as [collection filter projection sort skip limit|collection pipeline
                    |collection filter].
  - rewrite canonical_find. cbn -[canonical_value defaulted value_of_opt_u64 default].
    by rewrite !canonical_option_field, !canonical_u64_field.
  - rewrite canonical_aggregate. cbn -[canonical_value de_list]. by rewrite de_list_Some.
  - rewrite canonical_count. cbn -[canonical_value defaulted default].
    by rewrite !canonical_option_field.
Qed.

Lemma canonical_query_exact query : query_exact query → query_exact (canonical_query query).
Proof.
  unfold query_exact. intros H.
  assert (∀ o, value_exact (default VNull o) = true →
    value_exact (default VNull (canonical_option o)) = true) as Ho
    by (intros o; rewrite canonical_option_default; apply canonical_exact).
  pose proof (canonical_exact) as Hc.
  destruct query; cbn [canonical_query document_query_to_value] in *;
    apply object_exact in H as [_ H];
    repeat (apply List.Forall_cons_iff in H as [? H]); cbn [snd] in *;
    (apply object_exact_dec; [by vm_compute|]); repeat constructor; cbn [snd]; auto.
  by apply (Hc (VArray pipeline)).
Qed.

Lemma canonical_option_Some v :
  v ≠ VNull → canonical_option (Some v) = Some (canonical_value v).
Proof. by destruct v. Qed.

Lemma canonical_option_idem o :
  value_exact (default VNull o) = true →
  canonical_option (canonical_option o) = canonical_option o.
Proof.
  intros H. destruct o as [v|]; [|done]. cbn in H. apply andb_true_iff in H as [Hw _].
  assert (v = VNull ∨ v ≠ VNull) as [->|Hv] by (destruct v; by (left; done) || (right; done)); [done|].
  rewrite canonical_option_Some by done.
  rewrite canonical_option_Some by (by destruct v). by rewrite canonical_idem.
Qed.

Lemma canonical_query_idem query :
  query_exact query → canonical_query (canonical_query query) = canonical_query query.
Proof.
  unfold query_exact. intros H.
  destruct query; cbn [canonical_query document_query_to_value] in *;
    apply object_exact in H as [_ H];
    repeat (apply List.Forall_cons_iff in H as [? H]); cbn [snd] in *;
    rewrite ?canonical_option_idem by done; [done| |done].
  f_equal. pose proof (canonical_idem (VArray pipeline)) as Hi.
  apply andb_true_iff in H2 as [Hw _]. specialize (Hi Hw). by injection Hi.
Qed.
End codec.

Section payloads.
Context {P : Platform} {L : PlatformLaws P}.

Lemma agent_document_roundtrip p :
  agent_document_from_value (canonical_value (agent_document_to_value p))
  = Some {| sad_query := canonical_query (sad_query p); sad_query_text := sad_query_text p;
            sad_max_rows := sad_max_rows p; sad_origin := sad_origin p |}.
Proof.
  change (canonical_value (agent_document_to_value p)) with
    (VObject [("maxRows", value_of_u64 (sad_max_rows p));
              ("origin", VString (origin_as_str (sad_origin p)));
              ("query", canonical_value (document_query_to_value (sad_query p)));
              ("queryText", VString (sad_query_text p))]).
  cbn -[canonical_value document_query_from_value]. rewrite document_query_roundtrip.
  by destruct (sad_origin p).
Qed.

Lemma desktop_document_roundtrip p :
  desktop_document_from_value (canonical_value (desktop_document_to_value p))
  = Some {| sdd_query := canonical_query (sdd_query p);
            sdd_history_origin := sdd_history_origin p |}.
Proof.
  change (canonical_value (desktop_document_to_value p)) with
    (VObject [("historyOrigin", VString (sdd_history_origin p));
              ("query", canonical_value (document_query_to_value (sdd_query p)))]).
  cbn -[canonical_value document_query_from_value]. by rewrite document_query_roundtrip.
Qed.

(** Requests of one text serialise to one value. *)
Lemma document_query_text_inj q q' text :
  query_exact q → query_exact q' →
  document_query_text q = Ok text → document_query_text q' = Ok text →
  document_query_to_value q = document_query_to_value q'.
Proof.
  intros Hq Hq' H%ok_or_Ok H'%ok_or_Ok. by eapply json_to_string_inj.
Qed.
End payloads.

(** ** Histories with one claim *)

Section claims.
Context {P : Platform}.

Definition claims_only (h : history) (id : Uuid) : Prop :=
  claimed_in h id ∧ ∀ id', claimed_in h id' → id' = id.
Definition all_settled (h : history) : Prop := ∀ id, claimed_in h id → settled h id.
Definition unclaimed (h : history) : Prop := ∀ id, ¬ claimed_in h id.

(** Entries that claim nothing. *)
Definition claimless (l : history) : Prop := Forall (λ e, is_claimed e = false) l.

Lemma claimless_reading l : only_history reading l → claimless l.
Proof. intros H. eapply Forall_impl; [exact H|]. intros [c r]. by destruct c. Qed.
Lemma claimless_quiet l : quiet_history l → claimless l.
Proof. intros H. eapply Forall_impl; [exact H|]. intros [c r]. by destruct c. Qed.

Lemma claimed_in_claimless l h id : claimless l → claimed_in (l ++ h) id → claimed_in h id.
Proof.
  induction 1 as [|e l He _ IH]; [done|]. cbn. intros H. by apply IH, (claimed_in_cons e).
Qed.

Lemma unclaimed_later l h : claimless l → unclaimed h → unclaimed (l ++ h).
Proof. intros Hl H id Hc. by eapply H, claimed_in_claimless. Qed.

Lemma unclaimed_settled h : unclaimed h → all_settled h.
Proof. intros H id Hc. by destruct (H id). Qed.

Lemma claims_only_later l h id : claimless l → claims_only h id → claims_only (l ++ h) id.
Proof.
  intros Hl [Hc Ho]. split; [by apply claimed_in_app|].
  intros id' H. by eapply Ho, claimed_in_claimless.
Qed.

Lemma all_settled_later l h : claimless l → all_settled h → all_settled (l ++ h).
Proof. intros Hl H id Hc. apply settled_app, H. by eapply claimed_in_claimless. Qed.

(** After its claim succeeded, [id] is the one operation claimed. *)
Lemma claims_only_claim h id claimed :
  unclaimed h → claims_only (Entry (Call.OperationClaim id) (Ok claimed) :: h) id.
Proof.
  intros Hn. split; [exists claimed; left|]. intros id' [c [H|H]%elem_of_cons].
  - by injection H.
  - destruct (Hn id'). by exists c.
Qed.

Lemma unclaimed_refused h id e :
  unclaimed h → unclaimed (Entry (Call.OperationClaim id) (Err e) :: h).
Proof. intros Hn id' H. apply claimed_in_cons in H; [|done]. by eapply Hn. Qed.

Lemma claims_only_settled h id target details r :
  claims_only h id → all_settled (Entry (Call.OperationFinish id target details) r :: h).
Proof.
  intros [_ Ho] id' H. apply claimed_in_cons in H; [|done]. apply Ho in H as ->.
  exists target, details, r. left.
Qed.
End claims.

(** ** What the programs may call *)

Section allowed.
Context {P : Platform} {SD : Serde} {D : ErrorDisplay}.
Variable plan_ok : history → NewOperation → OperationPlanDisposition → Prop.
Variable run_ok : history → DocumentQuery → Z → Prop.

Definition document_allowed (h : history) (c : Call.t) : Prop :=
  match c with
  | Call.OperationPlan o d => plan_ok h o d
  | Call.OperationFinish id target details =>
      value_exact details = true ∧ OperationState.is_terminal target = true ∧ claimed_in h id
  | Call.DocumentRun _ query max _ => run_ok h query max
  | Call.FetchRows _ _ _ | Call.ReadOnlyRun _ _ _
  | Call.Begin _ | Call.Execute _ _ | Call.Commit _ | Call.Rollback _ | Call.ExecutePool _ _ => False
  | _ => True
  end.

Lemma document_allowed_quiet h c : quiet c = true → document_allowed h c.
Proof. by destruct c. Qed.

Lemma wp_documents_quiet {A} (p : program A) h (Q : A → history → Prop) :
  quiet_program p → (∀ a l, quiet_history l → Q a (l ++ h)) →
  wp answer_ok document_allowed p Q h.
Proof. intros Hp HQ. apply (wp_only quiet); [by intros; apply document_allowed_quiet|done..]. Qed.

Lemma wp_finish_document id target details h (Q : AppResult OperationRecord → history → Prop) :
  value_exact details = true → OperationState.is_terminal target = true → claims_only h id →
  (∀ r, all_settled (Entry (Call.OperationFinish id target details) r :: h) →
     claims_only (Entry (Call.OperationFinish id target details) r :: h) id →
     Q r (Entry (Call.OperationFinish id target details) r :: h)) →
  wp answer_ok document_allowed (operation_finish id target details) Q h.
Proof.
  intros Hd Ht Hc HQ. split; [by split_and!; [| |apply Hc]|]. intros r _.
  apply HQ; [by apply claims_only_settled|]. apply (claims_only_later [_]); [by repeat constructor|done].
Qed.

Lemma wp_fail_document {E A} id details (error : E) h (Q : result E A → history → Prop) :
  value_exact details = true → claims_only h id → (∀ h', all_settled h' → Q (Err error) h') →
  wp answer_ok document_allowed (fail_document id details error) Q h.
Proof.
  intros Hd Hc HQ. unfold fail_document. wp_step. apply wp_finish_document; [done..|].
  intros r Hs _. wp_step. by apply HQ.
Qed.

Lemma page_receipt_exact page :
  0 ≤ dp_doc_count page ≤ u64_max → 0 ≤ dp_duration_ms page ≤ u64_max →
  value_exact (page_receipt page) = true.
Proof.
  intros Hc Hd. apply object_exact_dec; [by vm_compute|].
  repeat constructor; cbn [snd]; by apply value_of_u64_exact.
Qed.

Lemma quiet_record_agent pin text origin rows duration error :
  quiet_program (record_agent_execution pin text origin rows duration error).
Proof. unfold record_agent_execution, document_audit, document_history. solve_only. Qed.
Lemma quiet_record_desktop pin text kind action status rows duration error origin :
  quiet_program (record_desktop_outcome pin text kind action status rows duration error origin).
Proof. unfold record_desktop_outcome, document_audit, document_history. solve_only. Qed.

(** *** An agent's claimed read *)

(** Everything claimed is settled, and a page was answered only if [C] holds. *)
Definition settled_read {E A} (C : Prop) (r : result E A) (h : history) : Prop :=
  all_settled h ∧ (is_ok r = true → C).

Lemma settled_read_err {E A} (C : Prop) (e : E) h :
  all_settled h → settled_read C (Err e : result E A) h.
Proof. by split. Qed.

Lemma wp_receive_page (C : Prop) pin context id payload page h :
  C → 0 ≤ dp_doc_count page ≤ u64_max → 0 ≤ dp_duration_ms page ≤ u64_max → claims_only h id →
  wp answer_ok document_allowed (receive_page pin context id payload page)
    (settled_read C) h.
Proof.
  intros HC Hrows Hdur Hc. unfold receive_page. wp_step.
  apply wp_documents_quiet; [apply quiet_record_agent|]. intros _ l Hl.
  wp_step. apply wp_finish_document; [by apply page_receipt_exact|done|
    by apply claims_only_later; [apply claimless_quiet|]|].
  intros [op|e] Hs Hc'; [by wp_step|]. by apply wp_fail_document; [| |apply settled_read_err].
Qed.

Lemma wp_run_claimed_document authority context id operation h :
  claims_only h id →
  (∀ l payload, quiet_history l →
     agent_document_from_value (op_payload operation) = Some payload →
     document_query_text (sad_query payload) = Ok (sad_query_text payload) →
     run_ok (l ++ h) (sad_query payload) (Z.min (sad_max_rows payload) MAX_AGENT_ROWS)) →
  wp answer_ok document_allowed (run_claimed_document authority context id operation)
    (settled_read (∃ payload, agent_document_from_value (op_payload operation) = Some payload
       ∧ document_query_text (sad_query payload) = Ok (sad_query_text payload))) h.
Proof.
  intros Hc Hrun. unfold run_claimed_document. cbv zeta.
  destruct (agent_document_from_value _) as [payload|]; [|by apply wp_fail_document; [| |apply settled_read_err]].
  destruct (document_query_text _) as [text|e] eqn:Ht; [|by apply wp_fail_document; [| |apply settled_read_err]].
  wp_if Hm; [by apply wp_fail_document; [| |apply settled_read_err]|]. bools. subst text.
  wp_step. eapply wp_mono; [|apply wp_context_connect, document_allowed_quiet].
  intros connected h1 (l & -> & Hl & _).
  assert (claims_only (l ++ h) id) as Hc1 by (by apply claims_only_later; [apply claimless_quiet|]).
  destruct connected as [lease|e]; [|by apply wp_fail_document; [| |apply settled_read_err]].
  destruct (live_mongo _) as [mongo|e]; [|by apply wp_fail_document; [| |apply settled_read_err]].
  wp_step. wp_step; [by apply Hrun|]. wp_step.
  assert (∀ e, claims_only (e :: l ++ h) id ∨ is_claimed e = true) as Hc2.
  { intros e. destruct (is_claimed e) eqn:He; [by right|left].
    apply (claims_only_later [_]); [by repeat constructor|done]. }
  destruct (Hc2 (Entry (Call.DocumentRun mongo (sad_query payload)
    (Z.min (sad_max_rows payload) MAX_AGENT_ROWS) (STATEMENT_TIMEOUT_MS * 10 ^ 6)) r))
    as [Hc3|]; [|done]. clear Hc2.
  destruct r as [page|e].
  - destruct (Hr page eq_refl). apply wp_receive_page; [by exists payload|done..].
  - wp_step. apply wp_documents_quiet; [apply quiet_record_agent|]. intros _ l2 Hl2.
    apply wp_fail_document; [done| |apply settled_read_err].
    by apply claims_only_later; [apply claimless_quiet|].
Qed.
End allowed.

(** ** An agent's read *)

Section agent.
Context {P : Platform} {SD : Serde} {D : ErrorDisplay}.
Variable request : AgentDocumentReadRequest.
Hypothesis request_exact : query_exact (adr_query request).
Hypothesis request_rows : ∀ n, adr_max_rows request = Some n → 0 ≤ n ≤ u64_max.

(** What is planned: the request itself, classified as a read, on a document
    connection authorised for reading, under the captured policy. *)
Record agent_plan (h : history) (o : NewOperation) (d : OperationPlanDisposition) : Prop := {
  ad_disposition : d = Runtime.Ready;
  ad_read : cl_kind (Mongo.classify (adr_query request)) = QueryKind.Read;
  ad_operation : ∃ pin settings policy now,
    Entry (Call.PinForRead (adr_connection_id request)) (Ok pin) ∈ h
    ∧ pin_confirmed pin ConnectionAccess.Read h
    ∧ Engine.is_document (cp_engine (pc_profile pin)) = true
    ∧ Entry (Call.GetSafety (pc_connection_id pin)) (Ok settings) ∈ h
    ∧ capture_policy pin settings = Ok policy
    ∧ o = agent_document_operation request pin (Mongo.classify (adr_query request))
            (bounded_agent_rows (adr_max_rows request) (max_rows settings)) policy (new_id o) now;
}.

(** What runs: the request read back from the planned operation, its text checked. *)
Record agent_document_run (h : history) (query : DocumentQuery) (max : Z)
  (o : NewOperation) (operation : OperationRecord) (payload : StoredAgentDocumentPayload)
  : Prop := {
  ar_plan : agent_plan h o Runtime.Ready;
  ar_planned : Entry (Call.OperationPlan o Runtime.Ready) (Ok operation) ∈ h;
  ar_claimed : claimed_in h (new_id o);
  ar_payload : agent_document_from_value (op_payload operation) = Some payload;
  ar_text : document_query_text (sad_query payload) = Ok (sad_query_text payload);
  ar_query : query = sad_query payload;
  ar_max : max = Z.min (sad_max_rows payload) MAX_AGENT_ROWS;
}.

Lemma agent_plan_app l h o d : agent_plan h o d → agent_plan (l ++ h) o d.
Proof.
  intros [? ? (pin & settings & policy & now & H1 & [H2 H3] & H4 & H5 & H6)]. split; [done..|].
  exists pin, settings, policy, now.
  split_and!; [..|by split; [|apply elem_of_app; right]|done| |by apply H6|by apply H6];
    apply elem_of_app; by right.
Qed.

Definition agent_documents : history → Call.t → Prop :=
  document_allowed (λ h o d, new_operation_ok o ∧ agent_plan h o d)
    (λ h query max, ∃ o operation payload, agent_document_run h query max o operation payload).

Lemma classification_exact query : value_exact (classification_to_value (Mongo.classify query)) = true.
Proof.
  unfold Mongo.classify.
  destruct (match query with Find _ _ _ _ _ _ => _ | Aggregate _ _ => _ | Count _ _ => _ end)
    as [collection [note|]]; done.
Qed.

Lemma agent_payload_exact rows :
  0 ≤ rows ≤ u64_max →
  value_exact (agent_document_to_value
    {| sad_query := adr_query request; sad_query_text := adr_query_text request;
       sad_max_rows := rows; sad_origin := adr_origin request |}) = true.
Proof.
  intros Hr. apply object_exact_dec; [by vm_compute|].
  repeat constructor; cbn [snd sad_query sad_query_text sad_max_rows sad_origin]; try done.
  by apply value_of_u64_exact.
Qed.

Lemma planned_clock t ttl :
  min_rfc3339 ≤ t < max_rfc3339 - 86400 * 10 ^ 9 → 0 ≤ ttl ≤ 86400 * 10 ^ 9 →
  clock_ok (t + ttl).
Proof. unfold clock_ok. lia. Qed.

Lemma capture_exact pin settings policy :
  pin_ranges pin → settings_ranges settings → capture_policy pin settings = Ok policy →
  value_exact (cop_snapshot policy) = true.
Proof.
  unfold capture_policy. intros (H1 & H2 & H3) [H4 H5] Hc. inv_res. cbn.
  by apply policy_snapshot_exact.
Qed.

Lemma agent_document_operation_ok pin settings policy id now :
  pin_ranges pin → settings_ranges settings → capture_policy pin settings = Ok policy →
  min_rfc3339 ≤ now < max_rfc3339 - 86400 * 10 ^ 9 →
  new_operation_ok (agent_document_operation request pin (Mongo.classify (adr_query request))
    (bounded_agent_rows (adr_max_rows request) (max_rows settings)) policy id now).
Proof.
  intros Hp Hs Hpol Hn. split_and!.
  - apply agent_payload_exact. destruct Hs as [Hs _]. unfold bounded_agent_rows, MAX_AGENT_ROWS.
    destruct (adr_max_rows request) as [n|] eqn:Hr; cbn; [specialize (request_rows n eq_refl)|];
      unfold u64_max in *; lia.
  - apply classification_exact.
  - by eapply capture_exact.
  - apply planned_clock; [done|unfold QUERY_PLAN_TTL; lia].
Qed.

Lemma wp_run_agent_read :
  wp answer_ok agent_documents (run_agent_read request)
    (λ r h, settled_read (∃ o operation payload, agent_document_run h (sad_query payload)
              (Z.min (sad_max_rows payload) MAX_AGENT_ROWS) o operation payload) r h) [].
Proof.
  assert (∀ l : history, quiet_history l → unclaimed l) as Hnc.
  { intros l Hl id. by apply quiet_unclaimed. }
  assert (∀ C (e : AgentDocumentReadError) (l : history), quiet_history l →
    settled_read C (Err e : result _ DocumentReadResult) l) as Hno
    by (intros C e l Hl; apply settled_read_err, unclaimed_settled; auto).
  unfold run_agent_read. wp_step.
  eapply wp_mono; [|apply wp_manager_pin, document_allowed_quiet].
  intros r h1 (l1 & -> & Hl1 & Hpin). rewrite app_nil_r in *.
  destruct r as [context|e]; [|by apply Hno].
  destruct (Hpin context eq_refl) as (Hranges & Hpinned & Hcur). clear Hpin. cbv zeta.
  wp_if Hdoc; [by apply Hno|]. apply negb_false_iff in Hdoc.
  wp_if Hread.
  { wp_step. apply wp_documents_quiet; [unfold document_audit; solve_only|].
    intros _ l Hl. wp_step. by apply Hno, only_history_app. }
  apply negb_false_iff in Hread.
  wp_step. wp_step; [done|]. wp_step.
  assert (quiet_history (Entry (Call.GetSafety (pc_connection_id (cx_pin context))) r :: l1))
    as Hl2 by (by constructor).
  destruct r as [settings|e]; [|by apply Hno]. specialize (Hr settings eq_refl).
  wp_step; [|by apply Hno]. wp_step. wp_step; [done|]. wp_step. wp_step. wp_step; [done|]. wp_step.
  rename r into id, r0 into now, Hr1 into Hnow.
  set (h2 := Entry Call.Now now :: _).
  assert (quiet_history h2) as Hq2 by (by repeat constructor).
  set (o := agent_document_operation _ _ _ _ _ _ _).
  assert (agent_plan h2 o Runtime.Ready) as Hplan.
  { split; [done|by destruct (cl_kind _)|]. exists (cx_pin context), settings, x, now.
    destruct Hcur as [Hcur1 Hcur2].
    split_and!; [by do 3 right|by split; [|do 3 right]|done|by do 2 right; left|done|done]. }
  wp_step. wp_step; [split; [by eapply agent_document_operation_ok|done]|].
  wp_step. rename r into planned.
  set (h3 := Entry (Call.OperationPlan o Runtime.Ready) planned :: h2).
  assert (unclaimed h3) as Hn3.
  { apply (unclaimed_later [_]); [by repeat constructor|]. by apply Hnc. }
  destruct planned as [operation|e]; [|by apply settled_read_err, unclaimed_settled].
  wp_step. wp_step; [done|]. wp_step. destruct r as [claimed|e];
    [|by apply settled_read_err, unclaimed_settled, unclaimed_refused].
  set (h4 := Entry (Call.OperationClaim _) _ :: h3).
  assert (∀ l payload, agent_document_from_value (op_payload operation) = Some payload →
    document_query_text (sad_query payload) = Ok (sad_query_text payload) →
    agent_document_run (l ++ h4) (sad_query payload)
      (Z.min (sad_max_rows payload) MAX_AGENT_ROWS) o operation payload) as Hrun.
  { intros l payload Hpay Htext. split; try done.
    - apply agent_plan_app, (agent_plan_app [_; _]), Hplan.
    - apply elem_of_app. right. right. left.
    - apply claimed_in_app. exists claimed. left. }
  eapply wp_mono; [|apply wp_frame, wp_run_claimed_document; [by apply claims_only_claim|]].
  - intros res h5 [[Hs Hok] [l ->]]. split; [done|]. intros Hres.
    destruct (Hok Hres) as (payload & Hpay & Htext). by exists o, operation, payload; apply Hrun.
  - intros l payload _ Hpay Htext. by exists o, operation, payload; apply Hrun.
Qed.
End agent.

(** ** A desktop read *)

Section desktop.
Context {P : Platform} {SD : Serde} {D : ErrorDisplay}.
Variable operation_id : Uuid.

(** A run that passed [authorize_document_run], as the history shows. *)
Record document_ready (h : history) (run : DocumentRun) : Prop := {
  dy_planned : Entry (Call.OperationGet operation_id) (Ok (dcn_planned run)) ∈ h;
  dy_kind : op_kind (dcn_planned run) = OperationKind.DocumentRead;
  dy_payload : desktop_document_from_value (op_payload (dcn_planned run)) = Some (dcn_payload run);
  dy_pin : Entry (Call.PinForRead (op_connection_id (dcn_planned run))) (Ok (dcn_pin run)) ∈ h;
  dy_scope : ensure_operation_scope (dcn_planned run) (dcn_pin run) = Ok tt;
  dy_document : Engine.is_document (cp_engine (pc_profile (dcn_pin run))) = true;
  dy_settings : Entry (Call.GetSafety (pc_connection_id (dcn_pin run))) (Ok (dcn_settings run)) ∈ h;
  dy_policy : ∃ policy, capture_policy (dcn_pin run) (dcn_settings run) = Ok policy
    ∧ cop_revision policy = op_policy_revision (dcn_planned run);
  dy_gate : desktop_blocked_reason (dcn_settings run)
              (Mongo.classify (sdd_query (dcn_payload run))) = None;
}.

Lemma document_ready_incl h h' run :
  (∀ e, is_poll e = false → e ∈ h → e ∈ h') → document_ready h run → document_ready h' run.
Proof. intros Hi []. split; try done; by apply Hi. Qed.

(** The read that is sent. *)
Record desktop_document_run (h : history) (query : DocumentQuery) (max : Z) (run : DocumentRun)
  : Prop := {
  ds_ready : document_ready h run;
  ds_claimed : claimed_in h operation_id;
  ds_confirmed : pin_confirmed (dcn_pin run) ConnectionAccess.Read h;
  ds_query : query = sdd_query (dcn_payload run);
  ds_max : max = bounded_desktop_rows (max_rows (dcn_settings run));
}.

Definition desktop_documents : history → Call.t → Prop :=
  document_allowed (λ _ _ _, False) (λ h query max, ∃ run, desktop_document_run h query max run).

Lemma desktop_document_incl h h' query max run :
  (∀ e, is_poll e = false → e ∈ h → e ∈ h') →
  desktop_document_run h query max run → desktop_document_run h' query max run.
Proof.
  intros Hi [? [cl ?] [? ?] ? ?]. split; try done.
  - by eapply document_ready_incl.
  - exists cl. by apply Hi.
  - split; [done|by apply Hi].
Qed.

Lemma unpolled_desktop_documents h h' c :
  unpolled h = unpolled h' → desktop_documents h c → desktop_documents h' c.
Proof.
  intros Hu. destruct c; cbn; try done.
  - intros (? & ? & cl & Hcl). split_and!; try done. exists cl. by eapply unpolled_in.
  - intros [run Hrun]. exists run. eapply desktop_document_incl; [|exact Hrun].
    intros e He Hin. by eapply unpolled_in.
Qed.

Lemma wp_authorize_document_run :
  wp answer_ok desktop_documents (authorize_document_run operation_id)
    (λ r h, quiet_history h ∧ ∀ run, r = Ok run → document_ready h run) [].
Proof.
  assert (∀ (e : DesktopDocumentReadError) h, quiet_history h →
    quiet_history h ∧ ∀ run, Err e = Ok run → document_ready h run) as Herr by done.
  unfold authorize_document_run. wp_step. wp_step; [done|]. wp_step.
  assert (quiet_history [Entry (Call.OperationGet operation_id) r]) as Hq0 by (by repeat constructor).
  destruct r as [planned|e]; [|by apply Herr].
  wp_if Hkind; [by apply Herr|]. wp_step; [|by apply Herr].
  wp_step. wp_step; [done|]. wp_step.
  assert (quiet_history (Entry (Call.PinForRead (op_connection_id planned)) r
    :: [Entry (Call.OperationGet operation_id) (Ok planned)])) as Hq1 by (by constructor).
  destruct r as [pin|e]; [|by apply Herr].
  wp_step; [|by apply Herr]. wp_if Hdoc; [by apply Herr|].
  wp_step. wp_step; [done|]. wp_step.
  set (h2 := Entry (Call.GetSafety (pc_connection_id pin)) r :: _).
  assert (quiet_history h2) as Hq2 by (by constructor).
  destruct r as [settings|e]; [|by apply Herr]. wp_step; [|by apply Herr].
  wp_if Hrev; [by apply Herr|]. cbv zeta. wp_step; [|by apply Herr].
  destruct (desktop_blocked_reason settings (Mongo.classify (sdd_query x))) as [reason|] eqn:Hgate.
  - wp_step. apply wp_documents_quiet; [apply quiet_record_desktop|]. intros _ l Hl. wp_step.
    apply Herr. by apply only_history_app.
  - wp_step. split; [done|]. intros run [= <-]. bools. apply ok_or_Ok in Hx. destruct x0.
    split; cbn; try done; [by do 2 right; left|by right; left|by left|by eexists].
Qed.

Lemma quiet_record_document run action status rows duration error :
  quiet_program (record_document run action status rows duration error).
Proof. apply quiet_record_desktop. Qed.

Lemma wp_settle_document run executed h :
  (∀ page, executed = Ok page →
     0 ≤ dp_doc_count page ≤ u64_max ∧ 0 ≤ dp_duration_ms page ≤ u64_max) →
  claims_only h operation_id →
  wp answer_ok desktop_documents (settle_document operation_id run executed)
    (λ _, all_settled) h.
Proof.
  intros Hpage Hc. destruct executed as [page|e]; cbn [settle_document].
  - destruct (Hpage page eq_refl). wp_step. apply wp_finish_document;
      [by apply page_receipt_exact|done|done|]. intros [op|e] Hs _; [|done].
    wp_step. apply wp_documents_quiet; [apply quiet_record_document|]. intros _ l Hl. wp_step.
    by apply all_settled_later; [apply claimless_quiet|].
  - wp_step. wp_if Hcan; (apply wp_finish_document; [done..|]; intros r Hs _; wp_step;
      apply wp_documents_quiet; [apply quiet_record_document|]; intros _ l Hl; wp_step;
      by apply all_settled_later; [apply claimless_quiet|]).
Qed.

Lemma wp_run_desktop_read :
  wp answer_ok desktop_documents (run_desktop_read operation_id) (λ _, all_settled) [].
Proof.
  unfold run_desktop_read. wp_step. eapply wp_mono; [|apply wp_authorize_document_run].
  intros r h0 [Hq0 Hready].
  assert (unclaimed h0) as Hn0 by (intros id; by apply quiet_unclaimed).
  destruct r as [run|e]; [|by apply unclaimed_settled]. specialize (Hready run eq_refl).
  wp_step. wp_step; [done|]. wp_step. destruct r as [claimed|e];
    [|by apply unclaimed_settled, unclaimed_refused].
  set (h1 := Entry (Call.OperationClaim operation_id) _ :: h0).
  assert (claims_only h1 operation_id) as Hc1 by (by apply claims_only_claim).
  wp_step. eapply wp_mono; [|apply wp_scope_connect, document_allowed_quiet].
  intros connected h2 (l & -> & Hl & Hconf).
  assert (claims_only (l ++ h1) operation_id) as Hc2
    by (by apply claims_only_later; [apply claimless_quiet|]).
  destruct connected as [lease|e].
  - specialize (Hconf lease eq_refl).
    destruct (live_mongo _) as [mongo|e]; [|by apply wp_fail_document].
    unfold with_cancellation. wp_step. wp_step. wp_step; [done|]. wp_step.
    set (h3 := Entry (Call.Register operation_id) r :: _).
    assert (∃ run', desktop_document_run h3 (sdd_query (dcn_payload run))
      (bounded_desktop_rows (max_rows (dcn_settings run))) run') as Hrun.
    { exists run. split; try done.
      - eapply document_ready_incl; [|exact Hready].
        intros e _ He. right. apply elem_of_app. right. by right.
      - apply (claimed_in_app [_]), Hc2.
      - destruct Hconf as [? ?]. split; [done|by right]. }
    wp_step. eapply wp_mono; [|apply (wp_only_frame reading), (wp_guarded answer_ok
      desktop_documents (λ r _, ∀ page, r = Ok page →
        0 ≤ dp_doc_count page ≤ u64_max ∧ 0 ≤ dp_duration_ms page ≤ u64_max))].
    + intros executed h4 [Hpage (l4 & -> & Hl4)]. wp_step. wp_step; [done|]. wp_step. wp_step.
      apply wp_settle_document; [done|]. apply (claims_only_later [_]); [by repeat constructor|].
      apply claims_only_later; [by apply claimless_reading|].
      by apply (claims_only_later [_]); [repeat constructor|].
    + apply only_guarded; [done|]. unfold document_run. solve_only.
    + apply unpolled_desktop_documents.
    + done.
    + intros signal r' h' Hi page ->. by destruct signal.
    + done.
    + unfold document_run. wp_step; [exact Hrun|exact Hr1].
  - wp_step. apply wp_documents_quiet; [apply quiet_record_document|]. intros _ l2 Hl2. wp_step.
    apply wp_finish_document; [done..| |]; [by apply claims_only_later; [apply claimless_quiet|]|].
    intros r Hs _. by wp_step.
Qed.
End desktop.

(** ** A desktop proposal *)

Section proposal.
Context {P : Platform} {SD : Serde} {D : ErrorDisplay}.
Variable request : DesktopDocumentProposalRequest.

Record document_proposal (h : history) (o : NewOperation) (d : OperationPlanDisposition) : Prop := {
  dq_disposition : d = Runtime.Ready;
  dq_operation : ∃ pin settings policy now,
    Entry (Call.PinForView (ddp_connection_id request)) (Ok pin) ∈ h
    ∧ Engine.is_document (cp_engine (pc_profile pin)) = true
    ∧ WorkspaceConnectionAccess.can_read (cp_workspace_access (pc_profile pin)) = true
    ∧ Entry (Call.GetSafety (pc_connection_id pin)) (Ok settings) ∈ h
    ∧ desktop_blocked_reason settings (Mongo.classify (ddp_query request)) = None
    ∧ capture_policy pin settings = Ok policy
    ∧ o = desktop_document_operation request pin (Mongo.classify (ddp_query request)) policy
            (new_id o) now;
}.

Definition proposing_documents : history → Call.t → Prop :=
  document_allowed document_proposal (λ _ _ _, False).

Lemma wp_propose_desktop_read :
  wp answer_ok proposing_documents (propose_desktop_read request)
    (λ _, unclaimed) [].
Proof.
  assert (∀ l : history, claimless l → unclaimed l) as Hok.
  { intros l Hl id Hc. rewrite <-(app_nil_r l) in Hc.
    apply claimed_in_claimless in Hc as [? Hc]; [|done]. by apply elem_of_nil in Hc. }
  unfold propose_desktop_read. wp_step. wp_step; [done|]. wp_step.
  destruct r as [pin|e]; [|apply Hok; by repeat constructor].
  wp_if Hdoc; [apply Hok; by repeat constructor|].
  wp_if Hread; [apply Hok; by repeat constructor|].
  wp_step. wp_step; [done|]. wp_step.
  destruct r as [settings|e]; [|apply Hok; by repeat constructor]. cbv zeta.
  destruct (desktop_blocked_reason _ _) as [reason|] eqn:Hgate; [apply Hok; by repeat constructor|].
  wp_step; [|apply Hok; by repeat constructor].
  wp_step. wp_step; [done|]. wp_step. wp_step. wp_step; [done|]. wp_step. wp_step. wp_step.
  - bools. split; [done|]. exists pin, settings, x, r0.
    split_and!; [by do 3 right; left|done|done|by do 2 right; left|done|done|done].
  - wp_step. destruct r1; apply Hok; by repeat constructor.
Qed.
End proposal.
