(* ===== verification/DocumentSafety.v ===== *)
(** * Document reads against a live world

    The theorems of DocumentTheorems.v in a world that other tasks change between
    the calls of a read.  The stored payload of an agent's read is canonical, so
    only a request whose text already is in canonical order passes the check of
    its text. *)

From S2P Require Import Mongo.
From S2P Require Export QuerySafety DocumentTheorems.

(** The read-only meaning of a request does not depend on how an absent option is
    written. *)
Lemma read_only_same q q' :
  document_query_to_value q = document_query_to_value q' → read_only_query q → read_only_query q'.
Proof.
  assert (∀ o : option Value, (∀ v, o = Some v → ¬ mentions_js v) ↔ ¬ mentions_js (default VNull o)) as Ho.
  { intros [v|]; cbn; [naive_solver|]. split; [|done]. intros _ H. inversion H. }
  assert (∀ o o' : option Value, default VNull o = default VNull o' →
    (∀ v, o = Some v → ¬ mentions_js v) → ∀ v, o' = Some v → ¬ mentions_js v) as Hsame.
  { intros o o' He. by rewrite !Ho, He. }
  destruct q, q'; cbn; intros [=]; subst; [|by auto|by eauto].
  intros H v [Hv|[Hv|[Hv|[]%not_elem_of_nil]%elem_of_cons]%elem_of_cons]%elem_of_cons;
    symmetry in Hv; (eapply Hsame; [|intros v' Hv'; apply H|exact Hv]); [eassumption| |eassumption| |eassumption|];
    rewrite Hv'; [left|right; left|right; right; left].
Qed.

Lemma classified_read_only query :
  is_read (cl_kind (Mongo.classify query)) = true → read_only_query query.
Proof.
  destruct (classify_violation query) as (_ & -> & _). rewrite <-violation_None.
  by destruct (violation query).
Qed.

Section safety.
Context {P : Platform} {L : PlatformLaws P} {SD : Serde} {SL : SerdeLaws SD} {D : ErrorDisplay}.

Lemma document_allowed_wf plan_ok run_ok h c :
  (∀ h o d, plan_ok h o d → new_operation_ok o) → document_allowed plan_ok run_ok h c → call_wf c.
Proof. intros Hp. destruct c; cbn; try done; [apply Hp|tauto]. Qed.

(** Where a document program stands in the world. *)
Lemma document_world self plan_ok run_ok {A} (p q : program A) Q w w' h :
  (∀ h o d, plan_ok h o d → new_operation_ok o) → safe (w_ops w) →
  reaches others (respond self) p w [] q w' h →
  wp answer_ok (document_allowed plan_ok run_ok) p Q [] →
  world_ok w' h ∧ wp answer_ok (document_allowed plan_ok run_ok) q Q h.
Proof.
  intros Hp Hs Hr Hwp. split.
  - eapply world_ok_reaches; [|exact Hr|exact Hwp|exact Hs]. intros h' c.
    by apply document_allowed_wf.
  - eapply reaches_wp; [apply respond_answer_ok|exact Hr|exact Hwp].
Qed.

Lemma claimed_settled w h id claimed :
  world_ok w h → all_settled h → Entry (Call.OperationClaim id) (Ok claimed) ∈ h →
  ∃ target details answer, Entry (Call.OperationFinish id target details) answer ∈ h
    ∧ ∀ op, answer = Ok op → finished_as w id target.
Proof.
  intros [_ Hf] Hset Hcl. destruct (Hset id) as (target & details & answer & Hin); [by exists claimed|].
  exists target, details, answer. split; [done|]. exact (Hf _ Hin).
Qed.

(** *** An agent's request *)

Lemma agent_request_inv id query max_rows origin request :
  agent_document_request id query max_rows origin = Ok request →
  document_query_text query = Ok (adr_query_text request) ∧ adr_query request = query
  ∧ adr_max_rows request = max_rows ∧ adr_connection_id request = id.
Proof. unfold agent_document_request. intros H. inv_res. done. Qed.

(** A stored plan whose payload's text collides with the requested one's. *)
Definition plan_collides (h : history) : Prop :=
  ∃ o d op, Entry (Call.OperationPlan o d) (Ok op) ∈ h
    ∧ values_collide (op_payload op) (new_payload o).

(** The request that runs is the request that was sent, in canonical form. *)
Lemma agent_run_canonical w h request query max o operation payload :
  world_ok w h → query_exact (adr_query request) →
  document_query_text (adr_query request) = Ok (adr_query_text request) →
  agent_document_run request h query max o operation payload →
  plan_collides h
  ∨ query = canonical_query (adr_query request)
    ∧ document_query_to_value query = document_query_to_value (adr_query request)
    ∧ max ≤ MAX_AGENT_ROWS.
Proof.
  intros [_ Hf] Hq Ht [Hplan Hin Hcl Hpay Htext -> ->].
  destruct (Hf _ Hin operation eq_refl) as [_ [Hp|]]; [right|left; by exists o, Runtime.Ready, operation].
  destruct Hplan as [_ _ (pin & settings & policy & now & _ & _ & _ & _ & _ & Ho)].
  rewrite Ho in Hp. cbn [new_payload agent_document_operation] in Hp.
  rewrite Hp, agent_document_roundtrip in Hpay. injection Hpay as <-.
  cbn [sad_query sad_query_text] in *. split_and!; [done| |lia].
  eapply document_query_text_inj; [by apply canonical_query_exact|done|done|done].
Qed.

(** *** A desktop read *)

(** What the stored tables hold for a desktop read that is sent. *)
Record document_permit (w : World) (id : Uuid) (op : OperationRecord) (run : DocumentRun) : Prop := {
  dp_stored : get id (w_ops w) = Ok op;
  dp_digest : canonical_hash (op_payload op) = Ok (op_payload_hash op);
  dp_kind : op_kind op = OperationKind.DocumentRead;
  dp_payload : desktop_document_from_value (op_payload op) = Some (dcn_payload run);
  dp_scope : ensure_operation_scope op (dcn_pin run) = Ok tt;
  dp_policy : ∃ policy, capture_policy (dcn_pin run) (dcn_settings run) = Ok policy
    ∧ cop_revision policy = op_policy_revision op;
  dp_granted : local_authority (dcn_pin run) ConnectionAccess.Read = Ok tt;
  dp_read_only : read_only_query (sdd_query (dcn_payload run));
}.

Lemma desktop_document_permit w id h query max run :
  world_ok w h → desktop_document_run id h query max run → ∃ op, document_permit w id op run.
Proof.
  intros [Hs Hf] [[Hget Hkind Hpay _ Hscope _ _ (policy & Hpol & Hrev) Hgate] _ [Hgr _] _ _].
  destruct (Hf _ Hget (dcn_planned run) eq_refl) as [Hid (op & Hst & Hop)]. rewrite Hid in Hst.
  exists op. split; try (rewrite Hop; done); try done.
  - destruct (get_stored _ _ _ (safe_Inv _ Hs) Hst) as (r & t & _ & Hr & _).
    by eapply record_payload_hash, st_decode.
  - exists policy. split; [done|]. by rewrite Hop.
  - apply classified_read_only. unfold desktop_blocked_reason in Hgate.
    by destruct (is_read (cl_kind _)).
Qed.
End safety.

(** C21. An agent's document request whose numbers are integers ([query_exact];
    serde_json promises to read only those back as they were written) runs as it
    was sent: whatever other tasks do meanwhile, the only statement
    [run_agent_read] sends is a typed document read of at most 1000 documents,
    after its operation was claimed, and the query serialises to exactly the value
    of the request, the order of its object keys included, and is read-only at any
    depth; unless the stored and the requested payload are a SHA-256 collision. *)
Theorem agent_document_exact {P : Platform} {L : PlatformLaws P} {SD : Serde} {SL : SerdeLaws SD}
    {D : ErrorDisplay} self connection_id query max_rows origin request w w' h c k :
  safe (w_ops w) → query_exact query → (∀ n, max_rows = Some n → 0 ≤ n ≤ u64_max) →
  agent_document_request connection_id query max_rows origin = Ok request →
  reaches others (respond self) (run_agent_read request) w [] (Vis c k) w' h →
  in_transaction c = false
  ∧ (is_fetch c = true → plan_collides h ∨ ∃ mongo sent max max_time id,
       c = Call.DocumentRun mongo sent max max_time ∧ claimed_in h id
       ∧ document_query_to_value sent = document_query_to_value query
       ∧ read_only_query sent ∧ max ≤ 1000).
Proof.
  intros Hs Hq Hrows (Ht & <- & <- & _)%agent_request_inv Hr.
  destruct (document_world self _ _ _ _ _ w w' h (λ h o d H, proj1 H) Hs Hr
    (wp_run_agent_read request Hq Hrows)) as [Hw [Ha _]].
  split; [by destruct c|]. intros Hf. destruct c; try done.
  destruct Ha as (o & operation & payload & Hrun).
  destruct (agent_run_canonical _ _ _ _ _ _ _ _ Hw Hq Ht Hrun) as [|(_ & He & Hmax)]; [by left|].
  right. exists connection, query, max_rows, max_time, (new_id o). split_and!; try done.
  - by destruct Hrun.
  - eapply read_only_same; [symmetry; exact He|]. apply classified_read_only.
    destruct Hrun as [Hplan _ _ _ _ _ _]. by rewrite (ad_read _ _ _ _ Hplan).
Qed.

(** C22. The text check refuses order: a request whose numbers are integers
    ([query_exact]) and whose stored form serialises differently, because an
    object in it has keys that are not sorted, is never sent by [run_agent_read]
    and never answered, whatever other tasks do meanwhile; unless a stored plan's
    payload and the requested one are a SHA-256 collision. *)
Theorem unsorted_document_refused {P : Platform} {L : PlatformLaws P} {SD : Serde}
    {SL : SerdeLaws SD} {D : ErrorDisplay} self connection_id query max_rows origin request w w' h
    (q : program (result AgentDocumentReadError DocumentReadResult)) :
  safe (w_ops w) → query_exact query → (∀ n, max_rows = Some n → 0 ≤ n ≤ u64_max) →
  agent_document_request connection_id query max_rows origin = Ok request →
  document_query_to_value (canonical_query query) ≠ document_query_to_value query →
  reaches others (respond self) (run_agent_read request) w [] q w' h →
  plan_collides h
  ∨ (∀ c k, q = Vis c k → is_fetch c = false) ∧ (∀ page, q ≠ Ret (Ok page)).
Proof.
  intros Hs Hq Hrows (Ht & <- & <- & _)%agent_request_inv Hne Hr.
  destruct (document_world self _ _ _ _ _ w w' h (λ h o d H, proj1 H) Hs Hr
    (wp_run_agent_read request Hq Hrows)) as [Hw Ha].
  assert ((∃ sent max o operation payload,
    agent_document_run request h sent max o operation payload) → plan_collides h) as Hcol.
  { intros (sent & max & o & operation & payload & Hrun).
    destruct (agent_run_canonical _ _ _ _ _ _ _ _ Hw Hq Ht Hrun) as [|(-> & He & _)]; [done|].
    by destruct Hne. }
  destruct q as [[page|e]|c k].
  - destruct Ha as [_ Hok]. destruct (Hok eq_refl) as (o & operation & payload & Hrun).
    left. apply Hcol. eauto 10.
  - by right.
  - destruct Ha as [Ha _]. destruct (is_fetch c) eqn:Hf; [left|right].
    + destruct c; try done. destruct Ha as (o & operation & payload & Hrun). apply Hcol. eauto 10.
    + split; [|done]. by intros ? ? [= <- _].
Qed.

(** A desktop document read is the stored, classified one: whatever other
    tasks do meanwhile, the only statement [run_desktop_read] sends is the query
    of the stored plan, whose payload has the stored digest, after the claim, in
    the scope and under the policy it was planned with, on a connection that
    grants reading, with between 1 and 100000 documents, and it is read-only at
    any depth. *)
Theorem desktop_document_authorized {P : Platform} {L : PlatformLaws P} {SD : Serde}
    {SL : SerdeLaws SD} {D : ErrorDisplay} self id w w' h c k :
  safe (w_ops w) →
  reaches others (respond self) (run_desktop_read id) w [] (Vis c k) w' h →
  in_transaction c = false
  ∧ (is_fetch c = true → ∃ mongo max max_time op run,
       c = Call.DocumentRun mongo (sdd_query (dcn_payload run)) max max_time
       ∧ document_permit w' id op run ∧ claimed_in h id ∧ 1 ≤ max ≤ 100000).
Proof.
  intros Hs Hr.
  destruct (document_world self _ _ _ _ _ w w' h (λ h o d (H : False), False_ind _ H) Hs Hr
    (wp_run_desktop_read id)) as [Hw [Ha _]].
  split; [by destruct c|]. intros Hf. destruct c; try done. destruct Ha as [run Hrun].
  destruct (desktop_document_permit _ _ _ _ _ _ Hw Hrun) as [op Hop].
  destruct Hrun as [_ Hcl _ -> ->]. eexists connection, _, max_time, op, run.
  split_and!; [done|done|done|unfold bounded_desktop_rows, MAX_DESKTOP_ROWS; lia..].
Qed.

(** A claimed document read is always settled: when [run_desktop_read]
    returns after a successful claim, on any of its error paths or after the
    read, it has sent a terminal verdict for the operation, and if the store
    accepted it the operation is in that state. *)
Theorem desktop_document_settles {P : Platform} {L : PlatformLaws P} {SD : Serde}
    {SL : SerdeLaws SD} {D : ErrorDisplay} self id w w' h r claimed :
  safe (w_ops w) →
  reaches others (respond self) (run_desktop_read id) w [] (Ret r) w' h →
  Entry (Call.OperationClaim id) (Ok claimed) ∈ h →
  ∃ target details answer, Entry (Call.OperationFinish id target details) answer ∈ h
    ∧ ∀ op, answer = Ok op → finished_as w' id target.
Proof.
  intros Hs Hr Hcl.
  destruct (document_world self _ _ _ _ _ w w' h (λ h o d (H : False), False_ind _ H) Hs Hr
    (wp_run_desktop_read id)) as [Hw Hset].
  by eapply claimed_settled.
Qed.

(** An operation an agent's document read claims is settled as well. *)
Theorem agent_document_settles {P : Platform} {L : PlatformLaws P} {SD : Serde}
    {SL : SerdeLaws SD} {D : ErrorDisplay} self request w w' h r id claimed :
  safe (w_ops w) → query_exact (adr_query request) →
  (∀ n, adr_max_rows request = Some n → 0 ≤ n ≤ u64_max) →
  reaches others (respond self) (run_agent_read request) w [] (Ret r) w' h →
  Entry (Call.OperationClaim id) (Ok claimed) ∈ h →
  ∃ target details answer, Entry (Call.OperationFinish id target details) answer ∈ h
    ∧ ∀ op, answer = Ok op → finished_as w' id target.
Proof.
  intros Hs Hq Hrows Hr Hcl.
  destruct (document_world self _ _ _ _ _ w w' h (λ h o d H, proj1 H) Hs Hr
    (wp_run_agent_read request Hq Hrows)) as [Hw [Hset _]].
  by eapply claimed_settled.
Qed.

(** C23. What is stored of a document request: the payloads of both paths decode
    from their canonical form to the request in canonical form - object keys
    sorted, an explicit null option dropped - with every other field kept, and
    storing that again changes nothing. *)
Theorem stored_document_roundtrip {P : Platform} (p : StoredAgentDocumentPayload)
    (d : StoredDesktopDocumentPayload) query :
  agent_document_from_value (canonical_value (agent_document_to_value p))
  = Some {| sad_query := canonical_query (sad_query p); sad_query_text := sad_query_text p;
            sad_max_rows := sad_max_rows p; sad_origin := sad_origin p |}
  ∧ desktop_document_from_value (canonical_value (desktop_document_to_value d))
    = Some {| sdd_query := canonical_query (sdd_query d);
              sdd_history_origin := sdd_history_origin d |}
  ∧ (query_exact query → canonical_query (canonical_query query) = canonical_query query).
Proof.
  split_and!; [apply agent_document_roundtrip|apply desktop_document_roundtrip|].
  apply canonical_query_idem.
Qed.

Lemma stored_document_roundtrip_witness :
  canonical_query (canonical_query (Find "c" None (Some VNull) (Some (VObject
    [("b", VNull); ("a", VNull)])) None (Some 5)))
  = Find "c" None None (Some (VObject [("a", VNull); ("b", VNull)])) None (Some 5).
Proof.
  pose (query := Find "c" None (Some VNull) (Some (VObject [("b", VNull); ("a", VNull)]))
    None (Some 5)).
  pose (p := {| sad_query := query; sad_query_text := ""; sad_max_rows := 1; sad_origin := Mcp |}).
  destruct (stored_document_roundtrip (P := Reference.platform) p
    {| sdd_query := query; sdd_history_origin := "" |} query) as (_ & _ & H).
  unfold query in H. rewrite H; [reflexivity|by vm_compute].
Defined.

(** ** A concrete document connection *)

Module DocumentSample.
Definition profile : ConnectionProfile :=
  let p := pc_profile RunSample.pin in {|
  cp_id := cp_id p; cp_name := "docs"; cp_engine := Engine.Mongodb; cp_provider := cp_provider p;
  cp_driver_id := cp_driver_id p; cp_host := cp_host p; cp_port := cp_port p;
  cp_database := cp_database p; cp_username := cp_username p; cp_sslmode := cp_sslmode p;
  cp_extra_params := ∅; cp_readonly_default := true; cp_allow_writes := true;
  cp_secret_ref := None; cp_env := None; cp_schema_group := None;
  cp_workspace_access := cp_workspace_access p; cp_credential_mode := cp_credential_mode p |}.
Definition pin : @PinnedConnection Reference.platform := {|
  pc_scope := pc_scope RunSample.pin; pc_connection_id := pc_connection_id RunSample.pin;
  pc_connection_revision := 1; pc_binding_revision := 2; pc_binding_updated_at := "t";
  pc_profile := profile; pc_requires_remote_rbac := true;
  pc_catalog_cache_policy := CatalogCachePolicy.EphemeralOnly |}.

Definition oracle (c : Call.t) (w : World) : Call.res c * World :=
  match c return Call.res c * World with
  | Call.OperationPlan o d =>
      RunSample.stored w (plan (Sample.uid 11) (Sample.uid 12) 10 11 (λ x, x) RuntimeSample.self o d
                            (w_ops w))
  | Call.PinForRead _ | Call.PinForView _ => (Ok pin, w)
  | Call.OpenLive _ _ => (Ok (LiveMongo 0), w)
  | c => RunSample.oracle c w
  end.

Lemma documents_respond c w : respond RuntimeSample.self c w (oracle c w).1 (oracle c w).2.
Proof.
  destruct c; try exact (RunSample.oracle_responds _ w).
  - right. exists (Sample.uid 11), (Sample.uid 12), 10, 11, (λ x, x).
    split; [by apply (bool_decide_unpack _)|]. split; [by apply (bool_decide_unpack _)|].
    split; [apply act_none|done].
  - split; [done|]. by intros ? [= <-].
  - split; [done|]. by intros ? [= <-].
  - done.
Qed.

Definition query : DocumentQuery := Count "c" (Some (VObject [("a", VNull); ("b", VNull)])).
(** A sort by [b] first. *)
Definition unsorted : DocumentQuery :=
  Find "c" None None (Some (VObject [("b", VBool true); ("a", VBool true)])) None None.

Definition request (q : DocumentQuery) : AgentDocumentReadRequest :=
  match agent_document_request (Sample.uid 3) q (Some 10) Mcp with
  | Ok r => r
  | Err _ => {| adr_connection_id := Sample.uid 3; adr_query := q; adr_query_text := "";
                adr_max_rows := None; adr_origin := Mcp |}
  end.
Definition world : World := {| w_ops := empty_db; w_audit := [] |}.

Definition policy : CapturedOperationPolicy :=
  match capture_policy pin RunSample.settings with
  | Ok p => p
  | Err _ => {| cop_snapshot := VNull; cop_revision := "" |}
  end.
Definition operation : NewOperation :=
  desktop_document_operation
    {| ddp_connection_id := Sample.uid 3; ddp_query := query; ddp_origin := None |} pin
    (Mongo.classify query) policy (Sample.uid 1) 1000.
Lemma document_operation_ok : new_operation_ok operation.
Proof. repeat split; by vm_compute. Qed.
Definition planned : World :=
  {| w_ops := (plan (Sample.uid 11) (Sample.uid 12) 10 11 (λ x, x) RuntimeSample.self operation
       Runtime.Ready empty_db).2; w_audit := [] |}.
Lemma planned_safe : safe (w_ops planned).
Proof.
  eapply activity_safe; [|apply safe_empty]. unfold planned. cbn [w_ops].
  apply activity_plan; [by apply (bool_decide_unpack _)..|apply document_operation_ok].
Qed.
Lemma request_made q :
  is_ok (agent_document_request (Sample.uid 3) q (Some 10) Mcp) = true →
  agent_document_request (Sample.uid 3) q (Some 10) Mcp = Ok (request q).
Proof. unfold request. by destruct (agent_document_request _ _ _ _). Qed.
Lemma rows_in_range n : Some 10 = Some n → 0 ≤ n ≤ u64_max.
Proof. by intros [= <-]. Qed.
End DocumentSample.

Lemma agent_document_exact_witness :
  ∃ w' h mongo sent max max_time k, reaches others (respond RuntimeSample.self)
      (run_agent_read (DocumentSample.request DocumentSample.query)) DocumentSample.world []
      (Vis (Call.DocumentRun mongo sent max max_time) k) w' h
    ∧ (plan_collides h ∨ read_only_query sent
         ∧ document_query_to_value sent = document_query_to_value DocumentSample.query).
Proof.
  pose proof (DocumentSample.request_made DocumentSample.query ltac:(vm_compute; reflexivity)) as Hreq.
  assert (query_exact DocumentSample.query) as Hq by (vm_compute; reflexivity).
  assert (match exec_until DocumentSample.oracle is_fetch
            (run_agent_read (DocumentSample.request DocumentSample.query))
            DocumentSample.world [] with
          | Some (Vis (Call.DocumentRun _ _ _ _) _, _, _) => true
          | _ => false
          end = true) as Hc by (vm_compute; reflexivity).
  pose proof safe_empty as Hs. change empty_db with (w_ops DocumentSample.world) in Hs.
  revert Hs Hc Hreq. generalize DocumentSample.world as w.
  generalize (DocumentSample.request DocumentSample.query) as request. intros request w Hs Hc Hreq.
  destruct (exec_until _ _ _ w _) as [[[q w'] h]|] eqn:He; [|done].
  destruct q as [|c k]; [done|]. destruct c; try done. clear Hc.
  apply (exec_until_reaches others (respond RuntimeSample.self)) in He;
    [|apply RunSample.world_still|apply DocumentSample.documents_respond].
  destruct (agent_document_exact RuntimeSample.self _ _ _ _ request w w' h _ k Hs Hq
    DocumentSample.rows_in_range Hreq He) as [_ Hf].
  exists w', h, connection, query, max_rows, max_time, k. split; [exact He|].
  destruct (Hf eq_refl) as [|(mongo & sent & max & mt & id & Heq & _ & Hv & Hr & _)]; [by left|].
  injection Heq as -> -> -> ->. by right.
Defined.

(** The sort by [b] first is planned, claimed and refused. *)
Lemma unsorted_document_refused_witness :
  ∃ w' h, reaches others (respond RuntimeSample.self)
      (run_agent_read (DocumentSample.request DocumentSample.unsorted)) DocumentSample.world []
      (Ret (Err (AgentApplication
        (Blocked "stored document query does not match its canonical event payload")))) w' h
    ∧ (plan_collides h ∨ ∀ page, (Ret (Err (AgentApplication
        (Blocked "stored document query does not match its canonical event payload")))
        : program (result AgentDocumentReadError DocumentReadResult)) ≠ Ret (Ok page)).
Proof.
  pose proof (DocumentSample.request_made DocumentSample.unsorted ltac:(vm_compute; reflexivity)) as Hreq.
  assert (query_exact DocumentSample.unsorted) as Hq by (vm_compute; reflexivity).
  assert (document_query_to_value (canonical_query DocumentSample.unsorted)
          ≠ document_query_to_value DocumentSample.unsorted) as Hne by (vm_compute; discriminate).
  assert (match (exec DocumentSample.oracle
             (run_agent_read (DocumentSample.request DocumentSample.unsorted))
             DocumentSample.world []).1.1 with
          | Err (AgentApplication (Blocked m)) =>
              (m =? "stored document query does not match its canonical event payload")%string
          | _ => false
          end = true) as Hc by (vm_compute; reflexivity).
  pose proof safe_empty as Hs. change empty_db with (w_ops DocumentSample.world) in Hs.
  revert Hs Hc Hreq. generalize DocumentSample.world as w.
  generalize (DocumentSample.request DocumentSample.unsorted) as request.
  intros request w Hs Hc Hreq. destruct (exec _ _ w _) as [[r w'] h] eqn:He.
  cbn [fst] in Hc. destruct r as [|[| |error|]]; try done. destruct error; try done.
  apply String.eqb_eq in Hc as ->.
  apply (exec_reaches others (respond RuntimeSample.self)) in He;
    [|apply RunSample.world_still|apply DocumentSample.documents_respond].
  exists w', h. split; [exact He|].
  destruct (unsorted_document_refused RuntimeSample.self _ _ _ _ request w w' h _ Hs Hq
    DocumentSample.rows_in_range Hreq Hne He) as [|[_ H]]; [by left|right; exact H].
Defined.

Lemma desktop_document_authorized_witness :
  ∃ w' h op run mongo max max_time k, reaches others (respond RuntimeSample.self)
      (run_desktop_read (Sample.uid 1)) DocumentSample.planned []
      (Vis (Call.DocumentRun mongo (sdd_query (dcn_payload run)) max max_time) k) w' h
    ∧ document_permit w' (Sample.uid 1) op run ∧ 1 ≤ max ≤ 100000.
Proof.
  pose proof DocumentSample.planned_safe as Hs.
  assert (match exec_until DocumentSample.oracle is_fetch (run_desktop_read (Sample.uid 1))
            DocumentSample.planned [] with
          | Some (Vis (Call.DocumentRun _ _ _ _) _, _, _) => true
          | _ => false
          end = true) as Hc by (vm_compute; reflexivity).
  revert Hs Hc. generalize DocumentSample.planned. intros w Hs Hc.
  destruct (exec_until _ _ _ w _) as [[[q w'] h]|] eqn:He; [|done].
  destruct q as [|c k]; [done|]. destruct c; try done. clear Hc.
  apply (exec_until_reaches others (respond RuntimeSample.self)) in He;
    [|apply RunSample.world_still|apply DocumentSample.documents_respond].
  destruct (desktop_document_authorized RuntimeSample.self (Sample.uid 1) w w' h _ k Hs He)
    as [_ Hf].
  destruct (Hf eq_refl) as (mongo & max & mt & op & run & Heq & Hp & _ & Hmax).
  injection Heq as -> -> -> ->.
  exists w', h, op, run, mongo, max, mt, k. split_and!; [exact He|exact Hp|apply Hmax..].
Defined.

Lemma desktop_document_settles_witness :
  ∃ w' h r target details answer, reaches others (respond RuntimeSample.self)
      (run_desktop_read (Sample.uid 1)) DocumentSample.planned [] (Ret r) w' h
    ∧ Entry (Call.OperationFinish (Sample.uid 1) target details) answer ∈ h
    ∧ ∀ op, answer = Ok op → finished_as w' (Sample.uid 1) target.
Proof.
  pose proof DocumentSample.planned_safe as Hs.
  assert (existsb (RunSample.claims (Sample.uid 1))
            (exec DocumentSample.oracle (run_desktop_read (Sample.uid 1))
               DocumentSample.planned []).2 = true) as Hc by (vm_compute; reflexivity).
  revert Hs Hc. generalize DocumentSample.planned. intros w Hs Hc.
  destruct (exec _ _ w _) as [[r w'] h] eqn:He. cbn [snd] in Hc.
  apply existsb_exists in Hc as ([c a] & Hin & Hcl). apply list_elem_of_In in Hin.
  apply (exec_reaches others (respond RuntimeSample.self)) in He;
    [|apply RunSample.world_still|apply DocumentSample.documents_respond].
  destruct c; try done. destruct a as [claimed|]; [|done]. apply bool_decide_eq_true in Hcl as ->.
  destruct (desktop_document_settles RuntimeSample.self (Sample.uid 1) w w' h r claimed Hs He Hin)
    as (target & details & answer & H1 & H2).
  exists w', h, r, target, details, answer. split_and!; [exact He|exact H1|exact H2].
Defined.
