(* ===== verification/Dispatch.v ===== *)
(** * The broker's dispatcher (src-tauri/src/broker/dispatch.rs)

    A decoded request is checked against the protocol version, authenticated
    against the session registry, decoded by the command's typed payload and
    handed to an application service; the answer is a response envelope that
    fits a frame.  The services are an interface, [BrokerServices], over a state
    of their own. *)

From S2P Require Export QueryService Frame Session Commands.

Definition MAX_SQL_BYTES : N := MAX_STRING_BYTES.
Definition MAX_TABLE_SELECTOR_BYTES : N := 512.
(** [Duration::from_secs(30)], in nanoseconds. *)
Definition MAX_OPERATION_WAIT : Z := 30 * 10 ^ 9.

(** ** What the services exchange with the broker *)

Section service_types.
Context {P : Platform}.

(** services/connection_service.rs *)
Record AgentConnectionSummary := {
  acs_id : Uuid; acs_name : string; acs_engine : Engine.t; acs_database : string;
  acs_environment : option string; acs_readonly : bool; acs_allow_writes : bool;
}.
Inductive CliConnectionResolutionError :=
| NoMatch
| Ambiguous (candidates : list AgentConnectionSummary).

(** [ApplicationServices] and the application window over a state [S]. *)
Record BrokerServices (S Rejected Prepared : Type) := {
  list_terminal_summaries : TerminalAuthority → S → effect S (list AgentConnectionSummary);
  terminal_summary : TerminalAuthority → S → effect S AgentConnectionSummary;
  resolve_terminal_cli : TerminalAuthority → ConnectionSelector →
    S → effect S (result CliConnectionResolutionError AgentConnectionSummary);
  test_terminal : TerminalAuthority → S → effect S unit;
  load_terminal_snapshot : TerminalAuthority → S → effect S CatalogSnapshot;
  plan_terminal_read : TerminalQueryPlanRequest →
    S → result (AgentQueryPlanError Rejected) AgentQueryPlan * S;
  audit_after_result : Rejected → S → S;
  prepare_terminal_run : Uuid → TerminalAuthority →
    S → result AgentQueryRunPrepareError Prepared * S;
  execute_prepared : Prepared → S → result AgentQueryRunError AgentQueryRun * S;
  (** The id of the proposed operation. *)
  propose_terminal_sql : TerminalSqlProposalRequest → S → effect S Uuid;
  operation_show : TerminalAuthority → Uuid → S → effect S OperationSummary;
  operation_wait : TerminalAuthority → Uuid → Z → S → effect S OperationSummary;
  operation_cancel : TerminalAuthority → Uuid → S → effect S OperationSummary;
  (** [get_webview_window], [show], [unminimize], [set_focus] *)
  main_window : S → option unit;
  window_show : S → bool * S;
  window_unminimize : S → bool * S;
  window_set_focus : S → bool * S;
}.
End service_types.

Arguments list_terminal_summaries {_ _ _ _}. Arguments terminal_summary {_ _ _ _}.
Arguments resolve_terminal_cli {_ _ _ _}. Arguments test_terminal {_ _ _ _}.
Arguments load_terminal_snapshot {_ _ _ _}. Arguments plan_terminal_read {_ _ _ _}.
Arguments audit_after_result {_ _ _ _}. Arguments prepare_terminal_run {_ _ _ _}.
Arguments execute_prepared {_ _ _ _}. Arguments propose_terminal_sql {_ _ _ _}.
Arguments operation_show {_ _ _ _}. Arguments operation_wait {_ _ _ _}.
Arguments operation_cancel {_ _ _ _}. Arguments main_window {_ _ _ _}.
Arguments window_show {_ _ _ _}. Arguments window_unminimize {_ _ _ _}.
Arguments window_set_focus {_ _ _ _}.

(** ** Projections and error maps *)

Section maps.
Context {P : Platform}.

Definition terminal_authority (session : AuthenticatedSession) (client_protocol_version : Z)
  : TerminalAuthority :=
  {| ta_terminal_session_id := as_terminal_session_id session;
     ta_workspace_id := as_workspace_id session;
     ta_account_scope := as_account_scope session;
     ta_connection_id := as_connection_id session;
     ta_connection_revision := as_connection_revision session;
     ta_client_protocol_version := client_protocol_version |}.

Definition database_engine (engine : Engine.t) : DatabaseEngine.t :=
  match engine with
  | Engine.Postgres => DatabaseEngine.Postgres
  | Engine.Mysql => DatabaseEngine.Mysql
  | Engine.Sqlite => DatabaseEngine.Sqlite
  | Engine.Mongodb => DatabaseEngine.Mongodb
  end.

Definition connection_summary (summary : AgentConnectionSummary) : ConnectionSummary :=
  {| cns_id := acs_id summary; cns_name := acs_name summary;
     cns_engine := database_engine (acs_engine summary);
     cns_database := acs_database summary; cns_environment := acs_environment summary;
     cns_readonly := acs_readonly summary; cns_allow_writes := acs_allow_writes summary |}.

Definition query_health (health : HealthSnapshot) : QueryHealth :=
  {| qh_level := hs_level health; qh_coverage := hs_coverage health;
     qh_total_connections := hs_total_connections health;
     qh_max_connections := hs_max_connections health;
     qh_connection_usage_percent := hs_connection_usage_percent health;
     qh_active_queries := hs_active_queries health;
     qh_long_running_queries := hs_long_running_queries health;
     qh_lock_waits := hs_lock_waits health;
     qh_replication_lag_seconds := hs_replication_lag_seconds health;
     qh_reasons := hs_reasons health; qh_captured_at := hs_captured_at health |}.

Definition query_result (result : QueryResult) : QueryResultPage :=
  {| qrp_columns := qr_columns result; qrp_rows := qr_rows result;
     qrp_row_count := qr_row_count result; qrp_truncated := qr_truncated result;
     qrp_duration_ms := qr_duration_ms result |}.

Definition namespace_name (namespace : option string) : string := default "default" namespace.

Definition contains_nul (s : string) : bool :=
  existsb (λ a, byte a =? 0)%N (bytes_of s).

Definition validate_sql (sql : string) : result ErrorCode.t unit :=
  if is_blank sql || (MAX_SQL_BYTES <? str_len sql)%N || contains_nul sql
  then Err ErrorCode.InvalidRequest else Ok tt.

Definition map_application_error (error : AppError) : ErrorCode.t :=
  match error with
  | Blocked _ | Safety _ => ErrorCode.PolicyBlocked
  | NotFound _ | Config _ | Parse _ => ErrorCode.InvalidRequest
  | Db _ | Mongo _ => ErrorCode.TargetExecutionFailed
  | OutcomeUnknown _ => ErrorCode.OperationConflict
  | Prelude.Agent _ | Network _ | Keychain _ | Io _ | Serialization => ErrorCode.Internal
  end.

Definition map_operation_error (error : AppError) : ErrorCode.t :=
  match error with
  | NotFound _ => ErrorCode.OperationConflict
  | Blocked _ => ErrorCode.ScopeDenied
  | OutcomeUnknown _ => ErrorCode.OperationConflict
  | other => map_application_error other
  end.

Definition map_target_error (error : AppError) : ErrorCode.t :=
  match error with
  | Blocked _ => ErrorCode.ScopeDenied
  | Config _ | Parse _ => ErrorCode.InvalidRequest
  | Db _ | Mongo _ | Network _ => ErrorCode.TargetExecutionFailed
  | _ => ErrorCode.Internal
  end.

Definition map_query_execution_error (error : AppError) : ErrorCode.t :=
  match error with
  | Safety reason =>
      if (reason =? "query cancelled")%string then ErrorCode.Cancelled
      else if starts_with "query timed out after " reason then ErrorCode.Timeout
      else ErrorCode.TargetExecutionFailed
  | _ => ErrorCode.TargetExecutionFailed
  end.

Definition map_query_run_error (error : AgentQueryRunError) : ErrorCode.t :=
  match error with
  | ConnectionFailed _ => ErrorCode.TargetExecutionFailed
  | ExecutionFailed failure => map_query_execution_error failure
  | ConsentHandlePersistence _ => ErrorCode.Internal
  end.

Definition map_prepare_error (error : AgentQueryRunPrepareError) : ErrorCode.t :=
  match error with
  | UnknownOrAlreadyUsed => ErrorCode.OperationConflict
  | PlanExpired => ErrorCode.OperationExpired
  | SessionMismatch | AuthorityChanged => ErrorCode.ScopeDenied
  | StoredPlanInvalid => ErrorCode.InvalidRequest
  | PrepareApplication error => map_application_error error
  end.
End maps.

(** ** The dispatcher *)

Record BrokerDispatcher `{Platform} := {
  bd_runtime_id : Uuid;
  bd_app_version : string;
  (** Whether [services] and [app_handle] are [Some]. *)
  bd_services : bool;
  bd_app_handle : bool;
}.

(** What the dispatcher's fields share with the rest of the application. *)
Record Broker `{Platform} (S : Type) := { br_sessions : BrokerSessionRegistry; br_services : S }.
Arguments br_sessions {_ _}. Arguments br_services {_ _}.

(** One [entry(k).or_default()] of a [BTreeMap<String, V>], updated by [f]. *)
Fixpoint btree_update {V} (k : string) (d : V) (f : V → V) (m : list (string * V))
  : list (string * V) :=
  match m with
  | [] => [(k, f d)]
  | (k', v) :: m' =>
      match string_cmp k k' with
      | Lt => (k, f d) :: m
      | Eq => (k', f v) :: m'
      | Gt => (k', v) :: btree_update k d f m'
      end
  end.

(** [+= 1] on [u64] *)
Definition u64_incr (n : Z) : Z := (n + 1) mod 2 ^ 64.

Section dispatch.
Context {P : Platform} {SD : Serde} {H : Hex} {C : ChronoSerde} {W : JsonWriter}.
Context {S Rejected Prepared : Type}.
Variable services : BrokerServices S Rejected Prepared.
Local Open Scope effect_scope.

Abbreviation handled A := (result ErrorCode.t A * S)%type.

(** *** Responses *)

Definition failure (request_id : Uuid) (code : ErrorCode.t) (retryable : bool)
  : ResponseEnvelope :=
  response_failure PROTOCOL_MAX request_id (protocol_error code retryable).

(** [serde_json::to_value] cannot fail on the result types. *)
Definition success (request_id : Uuid) (result : Value) : ResponseEnvelope :=
  let response := response_success PROTOCOL_MAX request_id result in
  if negb (is_ok (encode_frame response MAX_RESPONSE_BYTES))
  then failure request_id ErrorCode.ResponseTooLarge false
  else response.

Definition respond {A} (ser : A → Value) (request_id : Uuid) (result : result ErrorCode.t A)
  : ResponseEnvelope :=
  match result with
  | Ok result => success request_id (ser result)
  | Err code => failure request_id code false
  end.

Definition response_at_protocol (response : ResponseEnvelope) (protocol_version : Z)
  : ResponseEnvelope :=
  match rs_result response with
  | Some result => response_success protocol_version (rs_request_id response) result
  | None =>
      match rs_error response with
      | Some error => response_failure protocol_version (rs_request_id response) error
      | None => response_failure protocol_version (rs_request_id response)
                  (protocol_error ErrorCode.Internal false)
      end
  end.

(** *** Handlers *)

Section handlers.
Variable self : BrokerDispatcher.

(** [self.services()?] *)
Definition the_services (s : S) : handled unit :=
  (if bd_services self then Ok tt else Err ErrorCode.Internal, s).

Definition focus_app (s : S) : handled AppOpenResult :=
  let? (_, s) := pure_step (if bd_app_handle self then Ok tt else Err ErrorCode.Internal) s in
  let? (_, s) := pure_step (ok_or ErrorCode.Internal (main_window services s)) s in
  let '(shown, s) := window_show services s in
  if negb shown then (Err ErrorCode.Internal, s) else
  let '(unminimized, s) := window_unminimize services s in
  if negb unminimized then (Err ErrorCode.Internal, s) else
  let '(focused, s) := window_set_focus services s in
  if negb focused then (Err ErrorCode.Internal, s) else
  (Ok {| aor_runtime_id := Some (bd_runtime_id self); aor_launched := false;
         aor_ready := true |}, s).

Definition connection_list (session : AuthenticatedSession) (version : Z) (s : S)
  : handled ConnectionListResult :=
  let? (_, s) := the_services s in
  let? (connections, s) :=
    map_err_step (λ _, ErrorCode.ScopeDenied)
      (list_terminal_summaries services (terminal_authority session version) s) in
  (Ok {| clr_connections := map connection_summary connections |}, s).

Definition resolve_connection (session : AuthenticatedSession) (selector : ConnectionSelector)
  (version : Z) (s : S) : handled ConnectionSummary :=
  let? (_, s) := the_services s in
  let authority := terminal_authority session version in
  let? (current, s) :=
    map_err_step (λ _, ErrorCode.ScopeDenied) (terminal_summary services authority s) in
  match selector with
  | Current => (Ok (connection_summary current), s)
  | Id id =>
      if bool_decide (id = acs_id current) then (Ok (connection_summary current), s)
      else (Err ErrorCode.ScopeDenied, s)
  | Name _ =>
      let? (resolved, s) :=
        map_err_step map_application_error (resolve_terminal_cli services authority selector s) in
      match resolved with
      | Ok resolved =>
          if bool_decide (acs_id resolved = acs_id current)
          then (Ok (connection_summary resolved), s)
          else (Err ErrorCode.ScopeDenied, s)
      | Err _ => (Err ErrorCode.InvalidRequest, s)
      end
  end.

Definition connection_test (session : AuthenticatedSession)
  (arguments : ConnectionSelectorArguments) (version : Z) (s : S)
  : handled ConnectionTestResult :=
  let? (connection, s) := resolve_connection session (csa_connection arguments) version s in
  let? (_, s) := the_services s in
  let? (_, s) :=
    map_err_step map_target_error
      (test_terminal services (terminal_authority session version) s) in
  (Ok {| ctr_connection := connection; ctr_reachable := true |}, s).

Definition catalog (session : AuthenticatedSession) (arguments : CatalogArguments) (version : Z)
  (s : S) : handled CatalogSnapshot :=
  let? (_, s) := resolve_connection session (cat_connection arguments) version s in
  let? (_, s) := the_services s in
  map_err_step map_application_error
    (load_terminal_snapshot services (terminal_authority session version) s).

(** The counts of relations, routines and other objects, by namespace. *)
Definition schema_counts (contents : CatalogContents) : list (string * (Z * Z * Z)) :=
  let zero := (0, 0, 0) in
  let counts := fold_left (λ counts n, btree_update (ns_name n) zero id counts)
                  (cc_namespaces contents) [] in
  let counts := fold_left (λ counts r,
      btree_update (namespace_name (obj_namespace (rel_object r))) zero
        (λ '(a, b, c), (u64_incr a, b, c)) counts) (cc_relations contents) counts in
  let counts := fold_left (λ counts r,
      btree_update (namespace_name (obj_namespace (rou_object r))) zero
        (λ '(a, b, c), (a, u64_incr b, c)) counts) (cc_routines contents) counts in
  fold_left (λ counts o,
      btree_update (namespace_name (obj_namespace (dbo_object o))) zero
        (λ '(a, b, c), (a, b, u64_incr c)) counts) (cc_other_objects contents) counts.

Definition schema_list (session : AuthenticatedSession) (arguments : CatalogArguments)
  (version : Z) (s : S) : handled SchemaListResult :=
  let? (snapshot, s) := catalog session arguments version s in
  (Ok {| slr_connection_id := cs_connection_id snapshot;
         slr_schemas := map (λ '(name, (relations, routines, objects)),
           {| scs_name := name; scs_relation_count := relations;
              scs_routine_count := routines; scs_object_count := objects |})
           (schema_counts (cs_contents snapshot)) |}, s).

(** The relation a table selector names. *)
Definition select_relation (table : string) (relations : list Relation) : option Relation :=
  match rsplit_once "." table with
  | Some (namespace, name) =>
      List.find (λ r,
        bool_decide (obj_namespace (rel_object r) = Some namespace)
        && (obj_name (rel_object r) =? name)%string) relations
  | None =>
      match List.filter (λ r, obj_name (rel_object r) =? table)%string relations with
      | [relation] => Some relation
      | _ => None
      end
  end.

Definition table_describe (session : AuthenticatedSession) (arguments : TableDescribeArguments)
  (version : Z) (s : S) : handled TableDescribeResult :=
  if (tda_table arguments =? "")%string
     || (MAX_TABLE_SELECTOR_BYTES <? str_len (tda_table arguments))%N
     || any_control (tda_table arguments)
  then (Err ErrorCode.InvalidRequest, s)
  else
    let? (snapshot, s) :=
      catalog session {| cat_connection := tda_connection arguments |} version s in
    let? (relation, s) :=
      pure_step (ok_or ErrorCode.InvalidRequest
        (select_relation (tda_table arguments) (cc_relations (cs_contents snapshot)))) s in
    (Ok {| tdr_connection_id := cs_connection_id snapshot; tdr_relation := relation |}, s).

Definition plan_result (plan : AgentQueryPlan) : QueryPlanResult :=
  {| qpr_connection_id := aqp_connection_id plan;
     qpr_connection_name := aqp_connection_name plan; qpr_environment := aqp_environment plan;
     qpr_plan_id := aqp_plan_id plan; qpr_decision := aqp_decision plan;
     qpr_notices := aqp_notices plan; qpr_suggestions := aqp_suggestions plan;
     qpr_estimated_rows := aqp_estimated_rows plan;
     qpr_health := query_health (aqp_health plan); qpr_expires_at := aqp_expires_at plan |}.

Definition query_plan (session : AuthenticatedSession) (arguments : QueryPlanArguments)
  (version : Z) (s : S) : handled QueryPlanResult :=
  let? (_, s) := pure_step (validate_sql (qpa_sql arguments)) s in
  if bool_decide (qpa_max_rows arguments = Some 0) then (Err ErrorCode.InvalidRequest, s)
  else
    let? (connection, s) := resolve_connection session (qpa_connection arguments) version s in
    let? (_, s) := the_services s in
    let '(receipt, s) := plan_terminal_read services
      {| tqp_connection_id := cns_id connection; tqp_sql := qpa_sql arguments;
         tqp_max_rows := qpa_max_rows arguments;
         tqp_authority := terminal_authority session version |} s in
    match receipt with
    | Ok plan => (Ok (plan_result plan), s)
    | Err DocumentConnection => (Err ErrorCode.InvalidRequest, s)
    | Err (NotSingleRead rejected) =>
        (Err ErrorCode.PolicyBlocked, audit_after_result services rejected s)
    | Err (PlanApplication error) => (Err (map_application_error error), s)
    end.

Definition query_run (session : AuthenticatedSession) (arguments : QueryRunArguments)
  (version : Z) (s : S) : handled QueryRunResult :=
  let authority := terminal_authority session version in
  let? (_, s) := the_services s in
  let? (prepared, s) :=
    map_err_step map_prepare_error
      (prepare_terminal_run services (qra_plan_id arguments) authority s) in
  let? (run, s) := map_err_step map_query_run_error (execute_prepared services prepared s) in
  (Ok {| qrr_connection_id := aqr_connection_id run;
         qrr_connection_name := aqr_connection_name run; qrr_plan_id := aqr_plan_id run;
         qrr_query_run_id := aqr_query_run_id run;
         qrr_planning_decision := aqr_planning_decision run;
         qrr_result := query_result (aqr_result run) |}, s).

Definition show_operation (session : AuthenticatedSession) (operation_id : Uuid) (version : Z)
  (s : S) : handled OperationSummary :=
  let? (_, s) := the_services s in
  map_err_step map_operation_error
    (operation_show services (terminal_authority session version) operation_id s).

Definition sql_propose (session : AuthenticatedSession) (arguments : SqlProposeArguments)
  (version : Z) (s : S) : handled OperationSummary :=
  let? (_, s) := pure_step (validate_sql (spa_sql arguments)) s in
  let? (connection, s) := resolve_connection session (spa_connection arguments) version s in
  let authority := terminal_authority session version in
  let? (_, s) := the_services s in
  let? (operation_id, s) :=
    map_err_step map_application_error
      (propose_terminal_sql services
        {| tsp_connection_id := cns_id connection; tsp_sql := spa_sql arguments;
           tsp_authority := authority |} s) in
  show_operation session operation_id version s.

Definition wait_operation (session : AuthenticatedSession) (arguments : OperationWaitArguments)
  (version : Z) (s : S) : handled OperationSummary :=
  let timeout := owa_timeout_ms arguments * 10 ^ 6 in
  if (timeout =? 0) || (MAX_OPERATION_WAIT <? timeout) then (Err ErrorCode.InvalidRequest, s)
  else
    let? (_, s) := the_services s in
    map_err_step (λ error, match error with
                           | Safety _ => ErrorCode.Timeout
                           | _ => map_operation_error error
                           end)
      (operation_wait services (terminal_authority session version)
        (owa_operation_id arguments) timeout s).

Definition cancel_operation (session : AuthenticatedSession) (operation_id : Uuid) (version : Z)
  (s : S) : handled OperationSummary :=
  let? (_, s) := the_services s in
  map_err_step map_operation_error
    (operation_cancel services (terminal_authority session version) operation_id s).

(** *** Dispatch *)

Definition authenticate_request (request : RequestEnvelope) (capability : BrokerCapability.t)
  (now : DateTime) (b : Broker S) : result ErrorCode.t AuthenticatedSession * Broker S :=
  match rq_authentication request with
  | None => (Err ErrorCode.AuthenticationDenied, b)
  | Some authentication =>
      let '(session, sessions) := authenticate (br_sessions b) authentication now in
      let b := {| br_sessions := sessions; br_services := br_services b |} in
      match session with
      | Err _ => (Err ErrorCode.AuthenticationDenied, b)
      | Ok session =>
          match require session capability with
          | Err _ => (Err ErrorCode.ScopeDenied, b)
          | Ok _ => (Ok session, b)
          end
      end
  end.

Definition on_services (r : ResponseEnvelope * S) (b : Broker S) : ResponseEnvelope * Broker S :=
  (r.1, {| br_sessions := br_sessions b; br_services := r.2 |}).

(** The arm of a command that needs a session: authenticate, decode, handle. *)
Definition authenticated {A R} (spec : CommandSpec A R) (capability : BrokerCapability.t)
  (handler : AuthenticatedSession → A → S → handled R) (request : RequestEnvelope)
  (now : DateTime) (b : Broker S) : ResponseEnvelope * Broker S :=
  match authenticate_request request capability now b with
  | (Err code, b) => (failure (rq_request_id request) code false, b)
  | (Ok session, b) =>
      match decode_arguments spec request with
      | Err _ => (failure (rq_request_id request) ErrorCode.InvalidRequest false, b)
      | Ok arguments =>
          let '(result, s) := handler session arguments (br_services b) in
          on_services (respond (result_to_value spec) (rq_request_id request) result, s) b
      end
  end.

Definition execute_public {R} (spec : CommandSpec unit R) (request : RequestEnvelope) (result : R)
  : ResponseEnvelope :=
  if negb (is_ok (decode_arguments spec request))
  then failure (rq_request_id request) ErrorCode.InvalidRequest false
  else success (rq_request_id request) (result_to_value spec result).

Definition dispatch_current (request : RequestEnvelope) (now : DateTime) (b : Broker S)
  : ResponseEnvelope * Broker S :=
  let request_id := rq_request_id request in
  let version := rq_protocol_version request in
  if (rq_protocol_version request <? PROTOCOL_MIN)
     || (PROTOCOL_MAX <? rq_protocol_version request)
     || negb (rq_command_schema_version request =? COMMAND_SCHEMA_VERSION)
  then (failure request_id ErrorCode.ProtocolMismatch false, b)
  else
    match rq_command request with
    | CommandName.Version =>
        (execute_public VersionCommand request
          {| vr_app_version := bd_app_version self; vr_protocol_min := PROTOCOL_MIN;
             vr_protocol_max := PROTOCOL_MAX;
             vr_command_schema_version := COMMAND_SCHEMA_VERSION;
             vr_runtime_id := bd_runtime_id self |}, b)
    | CommandName.Status =>
        (execute_public StatusCommand request
          {| sr_app_version := bd_app_version self; sr_protocol_min := PROTOCOL_MIN;
             sr_protocol_max := PROTOCOL_MAX; sr_runtime_id := bd_runtime_id self |}, b)
    | CommandName.AppOpen =>
        match decode_arguments AppOpenCommand request with
        | Err _ => (failure request_id ErrorCode.InvalidRequest false, b)
        | Ok _ =>
            let '(result, s) := focus_app (br_services b) in
            on_services (respond app_open_result_to_value request_id result, s) b
        end
    | CommandName.ConnectionList =>
        authenticated ConnectionListCommand BrokerCapability.ConnectionRead
          (λ session _, connection_list session version) request now b
    | CommandName.ConnectionShow =>
        authenticated ConnectionShowCommand BrokerCapability.ConnectionRead
          (λ session arguments,
            resolve_connection session (csa_connection arguments) version) request now b
    | CommandName.ConnectionTest =>
        authenticated ConnectionTestCommand BrokerCapability.ConnectionTest
          (λ session arguments, connection_test session arguments version) request now b
    | CommandName.CatalogShow =>
        authenticated CatalogShowCommand BrokerCapability.CatalogRead
          (λ session arguments, catalog session arguments version) request now b
    | CommandName.SchemaList =>
        authenticated SchemaListCommand BrokerCapability.CatalogRead
          (λ session arguments, schema_list session arguments version) request now b
    | CommandName.TableDescribe =>
        authenticated TableDescribeCommand BrokerCapability.CatalogRead
          (λ session arguments, table_describe session arguments version) request now b
    | CommandName.QueryPlan =>
        authenticated QueryPlanCommand BrokerCapability.QueryPlan
          (λ session arguments, query_plan session arguments version) request now b
    | CommandName.QueryRun =>
        authenticated QueryRunCommand BrokerCapability.QueryRun
          (λ session arguments, query_run session arguments version) request now b
    | CommandName.QueryCancel =>
        authenticated QueryCancelCommand BrokerCapability.OperationCancel
          (λ session arguments,
            cancel_operation session (qca_operation_id arguments) version) request now b
    | CommandName.SqlPropose =>
        authenticated SqlProposeCommand BrokerCapability.SqlPropose
          (λ session arguments, sql_propose session arguments version) request now b
    | CommandName.OperationShow =>
        authenticated OperationShowCommand BrokerCapability.OperationRead
          (λ session arguments,
            show_operation session (opa_operation_id arguments) version) request now b
    | CommandName.OperationWait =>
        authenticated OperationWaitCommand BrokerCapability.OperationRead
          (λ session arguments, wait_operation session arguments version) request now b
    | CommandName.OperationCancel =>
        authenticated OperationCancelCommand BrokerCapability.OperationCancel
          (λ session arguments,
            cancel_operation session (opa_operation_id arguments) version) request now b
    | CommandName.SkillsList | CommandName.SkillsGet | CommandName.SkillStatus
    | CommandName.SkillInstall | CommandName.SkillRepair | CommandName.SkillRemove
    | CommandName.Unknown => (failure request_id ErrorCode.InvalidRequest false, b)
    end.

Definition dispatch (request : RequestEnvelope) (now : DateTime) (b : Broker S)
  : ResponseEnvelope * Broker S :=
  let requested := rq_protocol_version request in
  let response_protocol :=
    if (PROTOCOL_MIN <=? requested) && (requested <=? PROTOCOL_MAX) then requested
    else PROTOCOL_MAX in
  let '(response, b) := dispatch_current request now b in
  (response_at_protocol response response_protocol, b).
End handlers.
End dispatch.
