(* ===== verification/DispatchTheorems.v ===== *)
(** * What the broker promises about a request

    A service is only reached under the authority of the session the request
    authenticated as, and every answer is a valid response that fits a frame. *)

From S2P Require Export Dispatch.

Section facts.
Context {P : Platform} {SD : Serde} {H : Hex} {C : ChronoSerde} {W : JsonWriter}.
Context {S Rejected Prepared : Type}.
Implicit Types services : BrokerServices S Rejected Prepared.

(** The capability each command needs; [None] is a public or unsupported one. *)
Definition required_capability (command : CommandName.t) : option BrokerCapability.t :=
  match command with
  | CommandName.ConnectionList | CommandName.ConnectionShow =>
      Some BrokerCapability.ConnectionRead
  | CommandName.ConnectionTest => Some BrokerCapability.ConnectionTest
  | CommandName.CatalogShow | CommandName.SchemaList | CommandName.TableDescribe =>
      Some BrokerCapability.CatalogRead
  | CommandName.QueryPlan => Some BrokerCapability.QueryPlan
  | CommandName.QueryRun => Some BrokerCapability.QueryRun
  | CommandName.SqlPropose => Some BrokerCapability.SqlPropose
  | CommandName.OperationShow | CommandName.OperationWait => Some BrokerCapability.OperationRead
  | CommandName.QueryCancel | CommandName.OperationCancel =>
      Some BrokerCapability.OperationCancel
  | _ => None
  end.

(** The authority a request carries: the session its token authenticates, if
    that session holds the capability of the command. *)
Definition request_authority (request : RequestEnvelope) (now : DateTime)
  (sessions : BrokerSessionRegistry) : option TerminalAuthority :=
  capability ← required_capability (rq_command request);
  authentication ← rq_authentication request;
  session ← result_ok (authenticate sessions authentication now).1;
  if bool_decide (capability ∈ as_capabilities session)
  then Some (terminal_authority session (rq_protocol_version request)) else None.

(** The two services answer alike where [authority] gives access. *)
Record agree_on (authority : option TerminalAuthority) (x y : BrokerServices S Rejected Prepared)
  : Prop := {
  ag_window : main_window x = main_window y;
  ag_show : window_show x = window_show y;
  ag_unminimize : window_unminimize x = window_unminimize y;
  ag_focus : window_set_focus x = window_set_focus y;
  ag_list a : authority = Some a → list_terminal_summaries x a = list_terminal_summaries y a;
  ag_summary a : authority = Some a → terminal_summary x a = terminal_summary y a;
  ag_resolve a : authority = Some a → resolve_terminal_cli x a = resolve_terminal_cli y a;
  ag_test a : authority = Some a → test_terminal x a = test_terminal y a;
  ag_load a : authority = Some a → load_terminal_snapshot x a = load_terminal_snapshot y a;
  ag_plan r : authority = Some (tqp_authority r) → plan_terminal_read x r = plan_terminal_read y r;
  ag_propose r :
    authority = Some (tsp_authority r) → propose_terminal_sql x r = propose_terminal_sql y r;
  ag_prepare p a : authority = Some a → prepare_terminal_run x p a = prepare_terminal_run y p a;
  ag_audit : is_Some authority → audit_after_result x = audit_after_result y;
  ag_execute : is_Some authority → execute_prepared x = execute_prepared y;
  ag_op_show a : authority = Some a → operation_show x a = operation_show y a;
  ag_op_wait a : authority = Some a → operation_wait x a = operation_wait y a;
  ag_op_cancel a : authority = Some a → operation_cancel x a = operation_cancel y a;
}.

Lemma and_then_ext {E St A B} (m : result E A * St) (k k' : A → St → result E B * St) :
  (∀ a s, k a s = k' a s) → and_then m k = and_then m k'.
Proof. intros Hk. destruct m as [[a|e] s]; cbn; auto. Qed.

Section confinement.
Context (x y : BrokerServices S Rejected Prepared) (self : BrokerDispatcher).
Context (session : AuthenticatedSession) (version : Z).
Context (Hag : agree_on (Some (terminal_authority session version)) x y).

(** [confine]: walk a handler under both services. *)
Ltac confine :=
  repeat first
    [ reflexivity
    | rewrite (ag_list _ _ _ Hag) by reflexivity | rewrite (ag_summary _ _ _ Hag) by reflexivity
    | rewrite (ag_resolve _ _ _ Hag) by reflexivity | rewrite (ag_test _ _ _ Hag) by reflexivity
    | rewrite (ag_load _ _ _ Hag) by reflexivity | rewrite (ag_plan _ _ _ Hag) by reflexivity
    | rewrite (ag_propose _ _ _ Hag) by reflexivity
    | rewrite (ag_prepare _ _ _ Hag) by reflexivity
    | rewrite (ag_audit _ _ _ Hag) by by eexists | rewrite (ag_execute _ _ _ Hag) by by eexists
    | rewrite (ag_op_show _ _ _ Hag) by reflexivity
    | rewrite (ag_op_wait _ _ _ Hag) by reflexivity
    | rewrite (ag_op_cancel _ _ _ Hag) by reflexivity
    | apply and_then_ext; intros ? ?
    | case_match ].

Lemma connection_list_confined s :
  connection_list x self session version s = connection_list y self session version s.
Proof. unfold connection_list. confine. Qed.

Lemma resolve_connection_confined selector s :
  resolve_connection x self session selector version s
  = resolve_connection y self session selector version s.
Proof. unfold resolve_connection. confine. Qed.

Lemma connection_test_confined arguments s :
  connection_test x self session arguments version s
  = connection_test y self session arguments version s.
Proof. unfold connection_test. rewrite resolve_connection_confined. confine. Qed.

Lemma catalog_confined arguments s :
  catalog x self session arguments version s = catalog y self session arguments version s.
Proof. unfold catalog. rewrite resolve_connection_confined. confine. Qed.

Lemma schema_list_confined arguments s :
  schema_list x self session arguments version s = schema_list y self session arguments version s.
Proof. unfold schema_list. rewrite catalog_confined. confine. Qed.

Lemma table_describe_confined arguments s :
  table_describe x self session arguments version s
  = table_describe y self session arguments version s.
Proof. unfold table_describe. rewrite catalog_confined. confine. Qed.

Lemma query_plan_confined arguments s :
  query_plan x self session arguments version s = query_plan y self session arguments version s.
Proof.
  unfold query_plan. apply and_then_ext. intros _ s1. rewrite resolve_connection_confined. confine.
Qed.

Lemma query_run_confined arguments s :
  query_run x self session arguments version s = query_run y self session arguments version s.
Proof. unfold query_run. confine. Qed.

Lemma show_operation_confined id s :
  show_operation x self session id version s = show_operation y self session id version s.
Proof. unfold show_operation. confine. Qed.

Lemma sql_propose_confined arguments s :
  sql_propose x self session arguments version s = sql_propose y self session arguments version s.
Proof.
  unfold sql_propose. apply and_then_ext. intros _ s1. rewrite resolve_connection_confined.
  apply and_then_ext. intros c s2. apply and_then_ext. intros _ s3.
  rewrite (ag_propose _ _ _ Hag) by reflexivity. apply and_then_ext. intros id s4.
  apply show_operation_confined.
Qed.

Lemma wait_operation_confined arguments s :
  wait_operation x self session arguments version s
  = wait_operation y self session arguments version s.
Proof. unfold wait_operation. confine. Qed.

Lemma cancel_operation_confined id s :
  cancel_operation x self session id version s = cancel_operation y self session id version s.
Proof. unfold cancel_operation. confine. Qed.
End confinement.

(** What [authenticate_request] decides, in terms of [request_authority]. *)
Lemma authenticate_request_spec request capability now (b : Broker S) :
  required_capability (rq_command request) = Some capability →
  let '(outcome, b') := authenticate_request request capability now b in
  br_services b' = br_services b
  ∧ match outcome with
    | Ok session => request_authority request now (br_sessions b)
                    = Some (terminal_authority session (rq_protocol_version request))
    | Err code => request_authority request now (br_sessions b) = None
                  ∧ code ∈ [ErrorCode.AuthenticationDenied; ErrorCode.ScopeDenied]
    end.
Proof.
  intros Hc. unfold authenticate_request, request_authority. rewrite Hc. cbn [mbind option_bind].
  destruct (rq_authentication request) as [a|]; cbn [mbind option_bind]; [|set_solver].
  destruct (authenticate (br_sessions b) a now) as [[session|e] sessions];
    cbn [fst result_ok mbind option_bind]; [|set_solver].
  unfold require. case_bool_decide; [done|set_solver].
Qed.

Lemma authenticated_confined {A R} (spec : CommandSpec A R) capability hx hy request now
  (b : Broker S) :
  required_capability (rq_command request) = Some capability →
  (∀ session, request_authority request now (br_sessions b)
     = Some (terminal_authority session (rq_protocol_version request)) →
     ∀ a s, hx session a s = hy session a s) →
  authenticated spec capability hx request now b = authenticated spec capability hy request now b.
Proof.
  intros Hc Hh. unfold authenticated. pose proof (authenticate_request_spec request capability now b Hc)
    as Hs. destruct (authenticate_request request capability now b) as [[session|code] b']; [|done].
  destruct Hs as [_ Hs]. case_match; [|done]. by rewrite (Hh session Hs).
Qed.

(** Without authority the arm answers with a refusal and calls nothing. *)
Lemma authenticated_refused {A R} (spec : CommandSpec A R) capability handler request now
  (b : Broker S) :
  required_capability (rq_command request) = Some capability →
  request_authority request now (br_sessions b) = None →
  let '(response, b') := authenticated spec capability handler request now b in
  br_services b' = br_services b
  ∧ ∃ code, response = failure (rq_request_id request) code false
    ∧ code ∈ [ErrorCode.AuthenticationDenied; ErrorCode.ScopeDenied].
Proof.
  intros Hc Hn. unfold authenticated. pose proof (authenticate_request_spec request capability now b Hc)
    as Hs. destruct (authenticate_request request capability now b) as [[session|code] b'].
  - destruct Hs as [_ Hs]. congruence.
  - destruct Hs as (Hs & _ & Hcode). split; [done|]. by exists code.
Qed.

Lemma focus_app_confined authority x y self s :
  agree_on authority x y → focus_app x self s = focus_app y self s.
Proof.
  intros Hag. unfold focus_app.
  by rewrite (ag_window _ _ _ Hag), (ag_show _ _ _ Hag), (ag_unminimize _ _ _ Hag),
    (ag_focus _ _ _ Hag).
Qed.

Create HintDb confined.
#[local] Hint Resolve connection_list_confined resolve_connection_confined
  connection_test_confined catalog_confined schema_list_confined table_describe_confined
  query_plan_confined query_run_confined show_operation_confined sql_propose_confined
  wait_operation_confined cancel_operation_confined : confined.

Lemma dispatch_confined x y self request now (b : Broker S) :
  agree_on (request_authority request now (br_sessions b)) x y →
  dispatch x self request now b = dispatch y self request now b.
Proof.
  intros Hag. unfold dispatch.
  enough (dispatch_current x self request now b = dispatch_current y self request now b) as -> by done.
  unfold dispatch_current. case_match; [done|].
  destruct (rq_command request) eqn:Hc; try done;
    try (eapply authenticated_confined; [by rewrite Hc|];
         intros session Ha a s; rewrite Ha in Hag; auto with confined).
  by rewrite (focus_app_confined _ _ _ _ _ Hag).
Qed.

(** *** Responses *)

(** A response the broker may send for request [request_id]. *)
Definition sendable (request_id : Uuid) (r : ResponseEnvelope) : Prop :=
  response_valid r ∧ rs_request_id r = request_id ∧ rs_protocol_version r = PROTOCOL_MAX
  ∧ if rs_ok r then is_ok (encode_frame r MAX_RESPONSE_BYTES) = true
    else ∃ code, rs_error r = Some (protocol_error code false).

Lemma failure_sendable id code : sendable id (failure id code false).
Proof. split_and!; try done. by exists code. Qed.

Lemma success_sendable id v : sendable id (success id v).
Proof.
  unfold success. destruct (is_ok (encode_frame (response_success PROTOCOL_MAX id v)
    MAX_RESPONSE_BYTES)) eqn:E; cbn [negb]; [|apply failure_sendable].
  unfold sendable. cbn [response_success rs_ok]. by rewrite E.
Qed.

Lemma respond_sendable {A} (ser : A → Value) id r : sendable id (respond ser id r).
Proof. destruct r; [apply success_sendable|apply failure_sendable]. Qed.

Lemma authenticated_sendable {A R} (spec : CommandSpec A R) capability h request now (b : Broker S) :
  sendable (rq_request_id request) (authenticated spec capability h request now b).1.
Proof.
  unfold authenticated.
  destruct (authenticate_request request capability now b) as [[session|code] b'];
    [|apply failure_sendable].
  destruct (decode_arguments spec request); [|apply failure_sendable].
  destruct (h session a (br_services b')). apply respond_sendable.
Qed.

Lemma execute_public_sendable {R} (spec : CommandSpec unit R) request r :
  sendable (rq_request_id request) (execute_public spec request r).
Proof. unfold execute_public. case_match; [apply failure_sendable|apply success_sendable]. Qed.

Lemma dispatch_current_sendable (x : BrokerServices S Rejected Prepared) self request now (b : Broker S) :
  sendable (rq_request_id request) (dispatch_current x self request now b).1.
Proof.
  unfold dispatch_current. case_match; [apply failure_sendable|].
  destruct (rq_command request);
    try apply authenticated_sendable; try apply execute_public_sendable;
    try apply failure_sendable.
  case_match; [|apply failure_sendable]. destruct (focus_app x self (br_services b)).
  apply respond_sendable.
Qed.

Lemma response_at_same_protocol id r : sendable id r → response_at_protocol r PROTOCOL_MAX = r.
Proof.
  destruct r as [v i o res err]. intros ([Hv _] & _ & Hp & _). cbn in Hp. subst v.
  unfold validate in Hv. cbn in Hv. by destruct o, res, err.
Qed.

(** [PROTOCOL_MIN] is [PROTOCOL_MAX]: there is one version to answer at. *)
Lemma dispatch_is_current (x : BrokerServices S Rejected Prepared) self request now (b : Broker S) :
  dispatch x self request now b = dispatch_current x self request now b.
Proof.
  unfold dispatch. pose proof (dispatch_current_sendable x self request now b) as Hs.
  destruct (dispatch_current x self request now b) as [r b']. cbn [fst] in Hs. f_equal.
  case_match eqn:Hv; [|by eapply response_at_same_protocol].
  apply andb_true_iff in Hv as [H1%Z.leb_le H2%Z.leb_le]. unfold PROTOCOL_MIN, PROTOCOL_MAX in *.
  replace (rq_protocol_version request) with 1 by lia. by eapply response_at_same_protocol.
Qed.

(** Commands that answer without a session. *)
Definition public (command : CommandName.t) : bool :=
  match command with
  | CommandName.Version | CommandName.Status | CommandName.AppOpen => true
  | _ => false
  end.

(** The codes of a request that is turned away before any service is called. *)
Definition refusal_codes : list ErrorCode.t :=
  [ErrorCode.ProtocolMismatch; ErrorCode.AuthenticationDenied; ErrorCode.ScopeDenied;
   ErrorCode.InvalidRequest].

Lemma dispatch_current_refused (x : BrokerServices S Rejected Prepared) self request now (b : Broker S) :
  request_authority request now (br_sessions b) = None → public (rq_command request) = false →
  let '(response, b') := dispatch_current x self request now b in
  br_services b' = br_services b
  ∧ ∃ code, response = failure (rq_request_id request) code false ∧ code ∈ refusal_codes.
Proof.
  intros Hn Hp. unfold dispatch_current.
  match goal with |- context [if ?c then _ else _] => destruct c end;
    [split; [done|]; eexists; split; [done|set_solver]|].
  destruct (rq_command request) eqn:Hc; try done;
    try (split; [done|]; eexists; split; [done|set_solver]);
    match goal with |- context [authenticated ?spec ?cap ?h request now b] =>
      pose proof (authenticated_refused spec cap h request now b) as Hr;
      rewrite Hc in Hr; specialize (Hr eq_refl Hn);
      destruct (authenticated spec cap h request now b) as [r b'];
      destruct Hr as (Hs & code & Hcode & Hin)
    end; (split; [done|]; exists code; split; [done|set_solver]).
Qed.
End facts.

(** C39. A request reaches the application only through the authority it
    authenticated.  Whatever the request, two sets of services that agree on the
    calls made with that one authority (that session's workspace, account,
    connection and revision, and the client's version) give the same response and
    the same state.  A request for a protected command without such an authority
    - no or wrong token, an expired session, a missing capability - is answered
    with a refusal code and leaves the services' state untouched. *)
Theorem dispatch_confined_to_session {P : Platform} {SD : Serde} {H : Hex} {C : ChronoSerde}
  {W : JsonWriter} {S Rejected Prepared} (x : BrokerServices S Rejected Prepared)
  (self : BrokerDispatcher) request now (b : Broker S) :
  (∀ y, agree_on (request_authority request now (br_sessions b)) x y →
     dispatch x self request now b = dispatch y self request now b)
  ∧ (request_authority request now (br_sessions b) = None →
     public (rq_command request) = false →
     let '(response, b') := dispatch x self request now b in
     br_services b' = br_services b
     ∧ ∃ code, response = failure (rq_request_id request) code false ∧ code ∈ refusal_codes).
Proof.
  split; [intros y; apply dispatch_confined|]. rewrite dispatch_is_current.
  apply dispatch_current_refused.
Qed.

(** C40. Every answer of the broker is well typed: it echoes the request's id at
    the runtime's protocol version, holds exactly one of a result and an error, an
    error carries the stable message of its code, and a result fits a response
    frame (one that does not has become [ResponseTooLarge]). *)
Theorem dispatch_response_sendable {P : Platform} {SD : Serde} {H : Hex} {C : ChronoSerde}
  {W : JsonWriter} {S Rejected Prepared} (x : BrokerServices S Rejected Prepared)
  (self : BrokerDispatcher) request now (b : Broker S) :
  sendable (rq_request_id request) (dispatch x self request now b).1.
Proof. rewrite dispatch_is_current. apply dispatch_current_sendable. Qed.

(** ** A concrete broker *)

#[local] Existing Instance FrameSample.writer.
#[local] Existing Instance HexReference.hex.

Module BrokerSample.
#[export] Instance chrono : ChronoSerde :=
  {| datetime_to_string := Reference.stamp; datetime_from_str := Reference.unstamp |}.

Definition denied {A} (s : nat) : effect nat A := (Err (Blocked "denied"), Nat.succ s).

(** Services that only serve Terminal sessions [allowed] accepts; the state
    counts the calls. *)
Definition services (allowed : Uuid → bool) : BrokerServices nat unit unit := {|
  list_terminal_summaries a s :=
    if allowed (ta_terminal_session_id a) then (Ok [], s) else denied s;
  terminal_summary _ := denied;
  resolve_terminal_cli _ _ := denied;
  test_terminal _ := denied;
  load_terminal_snapshot _ := denied;
  plan_terminal_read _ s := (Err DocumentConnection, s);
  audit_after_result _ s := s;
  prepare_terminal_run _ _ s := (Err UnknownOrAlreadyUsed, s);
  execute_prepared _ s := (Err (ConnectionFailed Serialization), s);
  propose_terminal_sql _ := denied;
  operation_show a _ s :=
    if allowed (ta_terminal_session_id a) then (Err (NotFound "operation"), s) else denied s;
  operation_wait _ _ _ := denied;
  operation_cancel _ _ := denied;
  main_window _ := None;
  window_show s := (true, s); window_unminimize s := (true, s); window_set_focus s := (true, s);
|}.

Definition dispatcher : @BrokerDispatcher Reference.platform :=
  {| bd_runtime_id := 7%positive; bd_app_version := "0.3.3"; bd_services := true;
     bd_app_handle := false |}.

Definition registry : BrokerSessionRegistry :=
  (Session.issue Some (new_registry (7%positive : @Uuid Reference.platform)) (3%positive : @Uuid Reference.platform)
     HexReference.pin [BrokerCapability.ConnectionRead] 60
     (Some (replicate 32 "a"%char)) 100).2.

Definition broker : Broker nat := {| br_sessions := registry; br_services := 0%nat |}.

Definition request (command : CommandName.t) (token : string)
  : @RequestEnvelope Reference.platform :=
  {| rq_protocol_version := 1; rq_command_schema_version := 1; rq_request_id := 5%positive;
     rq_authentication := Some {| sa_terminal_session_id := 3%positive; sa_token := token |};
     rq_command := command; rq_arguments := VObject [] |}.

Definition token : string := hex_encode (replicate 32 "a"%char).
End BrokerSample.
#[local] Existing Instance BrokerSample.chrono.

(** The session's request does not depend on how other sessions are served; a
    wrong token and a missing capability are refused without a call. *)
Lemma dispatch_confined_to_session_witness :
  dispatch (BrokerSample.services (λ _, true)) BrokerSample.dispatcher
      (BrokerSample.request CommandName.ConnectionList BrokerSample.token) 159 BrokerSample.broker
    = dispatch (BrokerSample.services (λ id, bool_decide (id = 3%positive)))
        BrokerSample.dispatcher
        (BrokerSample.request CommandName.ConnectionList BrokerSample.token) 159
        BrokerSample.broker
  ∧ br_services (dispatch (BrokerSample.services (λ _, true)) BrokerSample.dispatcher
        (BrokerSample.request CommandName.OperationShow BrokerSample.token) 159
        BrokerSample.broker).2 = 0%nat.
Proof.
  split.
  - apply (dispatch_confined_to_session (BrokerSample.services (λ _, true))).
    assert (ta_terminal_session_id <$> request_authority
      (BrokerSample.request CommandName.ConnectionList BrokerSample.token) 159
      (br_sessions BrokerSample.broker) = Some 3%positive) as Ha by (vm_compute; reflexivity).
    destruct (request_authority _ _ _) as [a|]; [|done]. injection Ha as Ha.
    split; try done; intros ? [= <-]; unfold list_terminal_summaries, operation_show; cbn;
      by rewrite Ha.
  - destruct (dispatch_confined_to_session (BrokerSample.services (λ _, true))
      BrokerSample.dispatcher (BrokerSample.request CommandName.OperationShow BrokerSample.token)
      159 BrokerSample.broker) as [_ Hr].
    assert (match request_authority
      (BrokerSample.request CommandName.OperationShow BrokerSample.token) 159
      (br_sessions BrokerSample.broker) with Some _ => false | None => true end = true) as Ha
      by (vm_compute; reflexivity).
    destruct (request_authority _ _ _) as [a|]; [done|].
    specialize (Hr eq_refl eq_refl). destruct (dispatch _ _ _ _ _) as [r b'].
    by destruct Hr as [Hs _].
Defined.
