(* ===== verification/ConnectionCache.v ===== *)
(** * The connection manager (src-tauri/src/connection/{mod,runtime}.rs)

    [ConnectionManager] owns every database pool of the process.  A pool is
    cached in a slot under a [ConnectionCacheKey]; an operation holds the read
    side of a scope gate from its pin to the end of its lease, a change of scope
    or of connection material holds the write side.  The methods are programs
    over [CacheCall.t]: the gate, the map of slots and the slots' mutexes, the
    clock, and the services of Effects.v ([lift]).  CacheMachine.v runs them as
    concurrent tasks. *)

From S2P Require Export Connections.

#[export] Existing Instance WorkspaceConnectionAccess.eq_dec.

(** Monotonic clock and durations, in nanoseconds. *)
Abbreviation Instant := Z.
Abbreviation Duration := Z.
Definition from_secs (s : Z) : Duration := s * 10 ^ 9.
Definition saturating_sub (a b : Duration) : Duration := Z.max 0 (a - b).
Definition saturating_duration_since (a b : Instant) : Duration := Z.max 0 (a - b).

Section data.
Context {P : Platform}.

Record ManagedLeaseHandle := {
  mh_user_id : string; mh_workspace_id : Uuid; mh_connection_id : Uuid; mh_lease_id : Uuid;
}.

(** workspace_auth.rs *)
Record ManagedConnectionLease := {
  ml_lease_id : Uuid; ml_profile : ConnectionProfile; ml_secret : string; ml_valid_for : Duration;
}.

Record OpenedLive := {
  ol_live : Live; ol_retire_at : option Instant; ol_managed_lease : option ManagedLeaseHandle;
}.

Record ConnectionCacheKey := {
  ck_workspace_id : Uuid; ck_account_scope : AccountScope; ck_scope_generation : Z;
  ck_connection_id : Uuid; ck_connection_revision : Z; ck_binding_revision : Z;
  ck_binding_updated_at : string; ck_access : ConnectionAccess.t;
}.
#[export] Instance cache_key_eq_dec : EqDecision ConnectionCacheKey.
Proof. solve_decision. Defined.

Definition is_managed (mode : WorkspaceCredentialMode.t) : bool :=
  match mode with WorkspaceCredentialMode.Managed => true | _ => false end.

(** [ConnectionCacheKey::new] *)
Definition cache_key (pin : PinnedConnection) (access : ConnectionAccess.t) : ConnectionCacheKey := {|
  ck_workspace_id := sc_workspace_id (pc_scope pin);
  ck_account_scope := sc_account_scope (pc_scope pin);
  ck_scope_generation := sc_generation (pc_scope pin);
  ck_connection_id := pc_connection_id pin;
  ck_connection_revision := pc_connection_revision pin;
  ck_binding_revision := pc_binding_revision pin;
  ck_binding_updated_at := pc_binding_updated_at pin;
  ck_access := if is_managed (cp_credential_mode (pc_profile pin)) then access
               else ConnectionAccess.Read;
|}.

(** An [Arc<CacheEntry>]; [ce_arc] names the allocation ([Arc::ptr_eq]). *)
Record CacheEntry := {
  ce_arc : nat; ce_live : Live; ce_generation : Z; ce_retire_at : option Instant;
  ce_managed_lease : option ManagedLeaseHandle;
}.

(** The lease of a cached pool. *)
Record CachedLease := { cl_pin : PinnedConnection; cl_access : ConnectionAccess.t; cl_entry : CacheEntry }.

(** What runs under the write side of the gate before the pools are detached. *)
Inductive ScopeChange :=
| ActivateWorkspace (id : Uuid) (account_user_id : option string)
| ActivateWorkspaceAccount (user_id : string)
| RemoveWorkspaceAccount (user_id : string)
| SyncAccountWorkspaces (user_id : string) (workspaces : list Uuid)
| SyncRemoteConnections (workspace_id : Uuid) (account_user_id : string)
    (connections : list (ConnectionProfile * Z)).
End data.

Module CacheCall.
Section call.
Context {P : Platform}.

Inductive t :=
| Service (c : Call.t)
(** [scope_gate]: a fair [RwLock] *)
| GateRead
| GateWrite
| GateRelease
(** [slots], a [DashMap] *)
| SlotEntry (key : ConnectionCacheKey)
| SlotKeys
| RemoveSlot (key : ConnectionCacheKey)
(** A slot's [Mutex] and the entry it guards *)
| LockSlot (slot : nat)
| UnlockSlot (slot : nat)
| EntryRef (slot : nat)
| TakeEntry (slot : nat)
| SetEntry (slot : nat) (entry : CacheEntry)
(** [Arc<CacheEntry>] *)
| NewEntry (opened : OpenedLive) (generation : Z)
| CloneEntry (entry : CacheEntry)
| DropEntry (entry : CacheEntry)
| TryUnwrap (entry : CacheEntry)
| NextGeneration
(** tokio *)
| InstantNow
| SleepUntil (deadline : Instant)
| TimeoutElapsed
| SpawnExpiry (slot : nat) (generation : Z) (delay : Duration)
(** keychain.rs, workspace_auth.rs, driver.rs and the pools *)
| FetchSecret (id : Uuid)
| IssueLease (user_id : string) (workspace_id : Uuid) (profile : ConnectionProfile) (write : bool)
| ReleaseLease (lease : ManagedLeaseHandle)
| DriverConnect (profile : ConnectionProfile) (secret : string)
| CloseLive (live : Live)
| TestLive (live : Live)
(** store/mod.rs, and what a caller does between [begin_*_mutation] and
    [retire_connections] *)
| StoreScopeChange (change : ScopeChange)
| StoreMaterialChange (ids : list Uuid).

Definition res (c : t) : Type :=
  match c with
  | Service c => Call.res c
  | GateRead | GateWrite | GateRelease => unit
  | SlotEntry _ => nat
  | SlotKeys => list ConnectionCacheKey
  | RemoveSlot _ => option nat
  | LockSlot _ | UnlockSlot _ | SetEntry _ _ | CloneEntry _ | DropEntry _ => unit
  | EntryRef _ | TakeEntry _ => option CacheEntry
  | NewEntry _ _ => CacheEntry
  | TryUnwrap _ => bool
  | NextGeneration => Z
  | InstantNow => Instant
  | SleepUntil _ => unit
  | TimeoutElapsed => bool
  | SpawnExpiry _ _ _ => unit
  | FetchSecret _ => AppResult string
  | IssueLease _ _ _ _ => AppResult ManagedConnectionLease
  | ReleaseLease _ => unit
  | DriverConnect _ _ => AppResult Live
  | CloseLive _ => unit
  | TestLive _ => AppResult unit
  | StoreScopeChange _ | StoreMaterialChange _ => AppResult unit
  end.
End call.
End CacheCall.
Export CacheCall.

Abbreviation cache_program A := (prog CacheCall.res A).
Abbreviation cache_history := (list (entry CacheCall.res)).
(** [op.await] with the rest of the method as continuation. *)
Notation "'await' x ← c ; k" := (@Vis CacheCall.t CacheCall.res _ c (λ x, k))
  (at level 200, x binder, c at level 99, k at level 200,
   format "'await'  x  ←  c ;  '//' k") : prog_scope.
Notation "'perform' c ; k" := (@Vis CacheCall.t CacheCall.res _ c (λ _, k))
  (at level 200, c at level 99, k at level 200,
   format "'perform'  c ;  '//' k") : prog_scope.

Section programs.
Context {P : Platform}.
Local Open Scope prog_scope.

(** A program of the services among the manager's. *)
Fixpoint lift {A} (p : program A) : cache_program A :=
  match p with Ret a => Ret a | Vis c k => Vis (Service c) (λ r, lift (k r)) end.

(** ** Opening and closing pools *)

(** [release_managed_bounded]: a failure or a timeout is logged. *)
Definition release_managed_bounded (lease : ManagedLeaseHandle) : cache_program unit :=
  perform ReleaseLease lease; Ret tt.

Definition release_optional (lease : option ManagedLeaseHandle) : cache_program unit :=
  match lease with Some lease => release_managed_bounded lease | None => Ret tt end.

Definition retire_opened (opened : OpenedLive) : cache_program unit :=
  perform CloseLive (ol_live opened); release_optional (ol_managed_lease opened).

(** [Arc::try_unwrap] gives the entry to the last owner; an [Arc] that is still
    shared is dropped. *)
Fixpoint unwrap_entries (entries : list CacheEntry) : cache_program (list CacheEntry) :=
  match entries with
  | [] => Ret []
  | e :: entries =>
      await unique ← TryUnwrap e;
      unwrap_entries entries ≫= λ owned, Ret (if (unique : bool) then e :: owned else owned)
  end.

(** The futures of [join_all] share no state; the timeout drops those left. *)
Fixpoint close_entries (owned : list CacheEntry) : cache_program unit :=
  match owned with
  | [] => Ret tt
  | e :: owned =>
      await elapsed ← TimeoutElapsed;
      if (elapsed : bool) then Ret tt
      else perform CloseLive (ce_live e);
           release_optional (ce_managed_lease e) ≫= λ _, close_entries owned
  end.

Definition retire_entries (entries : list CacheEntry) : cache_program unit :=
  unwrap_entries entries ≫= close_entries.

(** connection/mod.rs *)
Definition fetch_profile_secret (profile : ConnectionProfile) : cache_program (AppResult string) :=
  if is_managed (cp_credential_mode profile)
  then Ret (Err (Config "managed credentials must be obtained from a short-lived lease"))
  else
    match cp_secret_ref profile with
    | Some secret_ref =>
        check secret_id ← ok_or (Config "connection secret reference is invalid")
                            (uuid_parse secret_ref) or id;
        await r ← FetchSecret secret_id; Ret r
    | None =>
        if bool_decide (cp_workspace_access profile = WorkspaceConnectionAccess.Local)
        then Ret (Ok "")
        else Ret (Err (NotFound ("no credential binding for shared connection "
                                 +:+ uuid_to_string (cp_id profile))))
    end.

(** How long a provider credential is used: 30 s less than it is valid, and a
    second at least. *)
Definition usable_for (valid_for : Duration) : Duration :=
  Z.max (saturating_sub valid_for (from_secs 30)) (from_secs 1).

Definition connect_managed (profile : ConnectionProfile) (user_id : string) (workspace_id : Uuid)
    (access : ConnectionAccess.t) : cache_program (AppResult OpenedLive) :=
  await issued ← IssueLease user_id workspace_id profile (bool_decide (access = ConnectionAccess.Write));
  check lease ← issued or id;
  await now ← InstantNow;
  let retire_at := now + usable_for (ml_valid_for lease) in
  let managed_lease := {|
    mh_user_id := user_id; mh_workspace_id := workspace_id;
    mh_connection_id := cp_id profile; mh_lease_id := ml_lease_id lease |} in
  await live ← DriverConnect (ml_profile lease) (ml_secret lease);
  match live with
  | Ok live => Ret (Ok {| ol_live := live; ol_retire_at := Some retire_at;
                          ol_managed_lease := Some managed_lease |})
  | Err error => release_managed_bounded managed_lease ≫= λ _, Ret (Err error)
  end.

Definition connect_authorized (profile : ConnectionProfile)
    (authorization : ConnectionAuthorization) (access : ConnectionAccess.t)
  : cache_program (AppResult OpenedLive) :=
  if is_managed (cp_credential_mode profile) then
    check user_id ← ok_or (Config "managed database access requires a workspace account")
                      (ca_user_id authorization) or id;
    check workspace_id ← ok_or (Config "managed database access requires a team workspace")
                           (ca_workspace_id authorization) or id;
    connect_managed profile user_id workspace_id access
  else
    try secret ← fetch_profile_secret profile or id;
    await live ← DriverConnect profile secret;
    check live ← live or id;
    Ret (Ok {| ol_live := live; ol_retire_at := None; ol_managed_lease := None |}).

(** [cache_entry_expired]: the clock is read when there is a deadline. *)
Definition expired_at (retire_at : option Instant) : cache_program bool :=
  match retire_at with
  | None => Ret false
  | Some retire_at => await now ← InstantNow; Ret (retire_at <=? now)
  end.

(** The rechecks of a pin before a pool is handed out. *)
Definition reauthorize (pin : PinnedConnection) (access : ConnectionAccess.t)
  : cache_program (AppResult unit) :=
  if pc_requires_remote_rbac pin
  then r ← lift (authorize_pin pin access);
       Ret match r with Ok _ => Ok tt | Err e => Err e end
  else Ret (Ok tt).

Definition pin_current (pin : PinnedConnection) : cache_program (AppResult unit) :=
  current ← lift (store_is_pin_current pin);
  Ret match current with
      | Ok true => Ok tt | Ok false => Err scope_changed | Err error => Err error
      end.

(** ** [ConnectionContext::connect] *)

(** One turn of the loop either goes round again or returns. *)
Inductive Turn := Again | Done (r : AppResult CachedLease).

(** The [if !is_expired] branch: [e] is in the slot and the mutex is held. *)
Definition use_cached (self : ConnectionContext) (slot : nat) (e : CacheEntry)
  : cache_program Turn :=
  let pin := cx_pin self in
  perform CloneEntry e;
  perform UnlockSlot slot;
  authorized ← reauthorize pin (cx_access self);
  match authorized with
  | Err error => Ret (Done (Err error))
  | Ok _ =>
      current ← pin_current pin;
      match current with
      | Err error => Ret (Done (Err error))
      | Ok _ =>
          expired ← expired_at (ce_retire_at e);
          if (expired : bool) then
            perform LockSlot slot;
            await current ← EntryRef slot;
            retired ← (if bool_decide (ce_arc <$> (current : option CacheEntry) = Some (ce_arc e))
                       then await retired ← TakeEntry slot; Ret retired else Ret None);
            perform UnlockSlot slot;
            perform DropEntry e;
            _ ← retire_entries (option_list retired);
            Ret Again
          else Ret (Done (Ok {| cl_pin := pin; cl_access := cx_access self; cl_entry := e |}))
      end
  end.

(** A pool that may not be handed out is closed after the mutex is released. *)
Definition discard (slot : nat) (opened : OpenedLive) (error : AppError) : cache_program Turn :=
  perform UnlockSlot slot;
  _ ← retire_opened opened;
  Ret (Done (Err error)).

Definition publish (self : ConnectionContext) (slot : nat) (opened : OpenedLive)
  : cache_program Turn :=
  await generation ← NextGeneration;
  late ← expired_at (ol_retire_at opened);
  if (late : bool) then
    discard slot opened
      (Network "managed database access expired while opening the connection")
  else
    await e ← NewEntry opened generation;
    perform SetEntry slot e;
    perform UnlockSlot slot;
    _ ← match ol_retire_at opened with
        | Some retire_at =>
            await now ← InstantNow;
            perform SpawnExpiry slot generation (saturating_duration_since retire_at now); Ret tt
        | None => Ret tt
        end;
    Ret (Done (Ok {| cl_pin := cx_pin self; cl_access := cx_access self; cl_entry := e |})).

(** The slot is empty and its mutex is held. *)
Definition open_pool (self : ConnectionContext) (slot : nat) : cache_program Turn :=
  let pin := cx_pin self in
  opened ← connect_authorized (pc_profile pin) (cx_authorization self) (cx_access self);
  match opened with
  | Err error => perform UnlockSlot slot; Ret (Done (Err error))
  | Ok opened =>
      authorized ← reauthorize pin (cx_access self);
      match authorized with
      | Err error => discard slot opened error
      | Ok _ =>
          current ← pin_current pin;
          match current with
          | Err error => discard slot opened error
          | Ok _ => publish self slot opened
          end
      end
  end.

Definition connect_turn (self : ConnectionContext) (slot : nat) : cache_program Turn :=
  perform LockSlot slot;
  await cached ← EntryRef slot;
  usable ← match (cached : option CacheEntry) with
           | Some e => expired ← expired_at (ce_retire_at e); Ret (if (expired : bool) then None else Some e)
           | None => Ret None
           end;
  match usable with
  | Some e => use_cached self slot e
  | None =>
      await expired ← TakeEntry slot;
      match (expired : option CacheEntry) with
      | Some e => perform UnlockSlot slot; _ ← retire_entries [e]; Ret Again
      | None => open_pool self slot
      end
  end.

(** At most [fuel] turns; [None] when all of them went round again. *)
Fixpoint connect_loop (fuel : nat) (self : ConnectionContext) (slot : nat)
  : cache_program (option (AppResult CachedLease)) :=
  match fuel with
  | O => Ret None
  | S fuel =>
      turn ← connect_turn self slot;
      match turn with Done r => Ret (Some r) | Again => connect_loop fuel self slot end
  end.

Definition connect (fuel : nat) (self : ConnectionContext)
  : cache_program (option (AppResult CachedLease)) :=
  await slot ← SlotEntry (cache_key (cx_pin self) (cx_access self));
  connect_loop fuel self slot.

(** [ConnectionContext::test_fresh] *)
Definition test_fresh (self : ConnectionContext) : cache_program (AppResult unit) :=
  let pin := cx_pin self in
  try opened ← connect_authorized (pc_profile pin) (cx_authorization self) (cx_access self) or id;
  authorized ← reauthorize pin (cx_access self);
  match authorized with
  | Err error => _ ← retire_opened opened; Ret (Err error)
  | Ok _ =>
      current ← lift (store_is_pin_current pin);
      match current with
      | Err error => _ ← retire_opened opened; Ret (Err error)
      | Ok current =>
          stale ← (if negb current then Ret true else expired_at (ol_retire_at opened));
          if (stale : bool) then _ ← retire_opened opened; Ret (Err scope_changed)
          else await result ← TestLive (ol_live opened); _ ← retire_opened opened; Ret result
      end
  end.

(** ** [ConnectionManager] *)

(** [ConnectionManager::pin]: [manager_pin] under a read guard. *)
Definition gated_pin (id : Uuid) (access : ConnectionAccess.t)
  : cache_program (AppResult ConnectionContext) :=
  perform GateRead; lift (manager_pin id access).

Definition acquire (fuel : nat) (id : Uuid) (access : ConnectionAccess.t)
  : cache_program (option (AppResult CachedLease)) :=
  context ← gated_pin id access;
  match context with Ok context => connect fuel context | Err error => Ret (Some (Err error)) end.

(** [ConnectionManager::begin_operation_scope] and
    [ConnectionOperationScope::connect]. *)
Definition operation_scope_connect (fuel : nat) (id : Uuid) (view : bool)
    (access : ConnectionAccess.t) : cache_program (option (AppResult CachedLease)) :=
  perform GateRead;
  pinned ← lift (if view then store_pin_for_view id else store_pin_for_read id);
  match pinned with
  | Err error => Ret (Some (Err error))
  | Ok pin =>
      authorized ← lift (authorize_pin pin access);
      match authorized with
      | Err error => Ret (Some (Err error))
      | Ok authorization =>
          current ← pin_current pin;
          match current with
          | Err error => Ret (Some (Err error))
          | Ok _ => connect fuel {| cx_pin := pin; cx_access := access;
                                    cx_authorization := authorization |}
          end
      end
  end.

(** [ConnectionManager::detach_keys] *)
Fixpoint detach_keys (keys : list ConnectionCacheKey) : cache_program (list CacheEntry) :=
  match keys with
  | [] => Ret []
  | key :: keys =>
      await removed ← RemoveSlot key;
      match (removed : option nat) with
      | None => detach_keys keys
      | Some slot =>
          perform LockSlot slot;
          await e ← TakeEntry slot;
          perform UnlockSlot slot;
          retired ← detach_keys keys;
          Ret match (e : option CacheEntry) with Some e => e :: retired | None => retired end
      end
  end.

(** The keys of [slots] that [wanted] selects. *)
Definition detach (wanted : ConnectionCacheKey → bool) : cache_program (list CacheEntry) :=
  await keys ← SlotKeys; detach_keys (List.filter wanted keys).

Definition detach_all : cache_program (list CacheEntry) := detach (λ _, true).

Definition of_connections (ids : list Uuid) (key : ConnectionCacheKey) : bool :=
  bool_decide (ck_connection_id key ∈ ids).

(** Detach, open the gate and close what was detached. *)
Definition publish_change (wanted : ConnectionCacheKey → bool) : cache_program unit :=
  retired ← detach wanted;
  perform GateRelease;
  retire_entries retired.

(** [activate_workspace], [activate_workspace_account],
    [remove_workspace_account], [sync_account_workspaces] and
    [sync_remote_connections]. *)
Definition change_scope (change : ScopeChange) : cache_program (AppResult unit) :=
  perform GateWrite;
  await changed ← StoreScopeChange change;
  check _ ← changed or id;
  _ ← publish_change (λ _, true);
  Ret (Ok tt).

(** [begin_scope_mutation] or [begin_connection_mutation], the caller's change
    of the store and the keychain, and [ConnectionMutation::retire_connections];
    a caller that fails drops the guard. *)
Definition change_material (authority : option (Uuid * ConnectionAccess.t)) (ids : list Uuid)
  : cache_program (AppResult unit) :=
  perform GateWrite;
  try _ ← match authority with
          | None => Ret (Ok tt)
          | Some (id, access) =>
              pinned ← lift (manager_pin id access);
              Ret match pinned with Ok _ => Ok tt | Err error => Err error end
          end or id;
  await changed ← StoreMaterialChange ids;
  check _ ← changed or id;
  _ ← publish_change (of_connections ids);
  Ret (Ok tt).

(** [schedule_expiry]: the task it spawns. *)
Definition expiry_task (slot : nat) (generation : Z) (delay : Duration) : cache_program unit :=
  await now ← InstantNow;
  perform SleepUntil (now + delay);
  perform LockSlot slot;
  await current ← EntryRef slot;
  expired ← (if bool_decide (ce_generation <$> (current : option CacheEntry) = Some generation)
             then await expired ← TakeEntry slot; Ret expired else Ret None);
  perform UnlockSlot slot;
  match (expired : option CacheEntry) with Some e => retire_entries [e] | None => Ret tt end.
End programs.
