(* ===== verification/CacheMachine.v ===== *)
(** * Concurrent tasks of the connection manager

    The tasks of ConnectionCache.v interleave at their calls.  A guard is held by
    the task that took it until the call that releases it or until the task ends:
    returning, failing and being cancelled all drop what the task owns ([held] of
    its history).  A task that returned a lease keeps the guard and the pool until
    the lease is dropped. *)

From S2P Require Export ConnectionCache.

Inductive Gate := NoGuard | ReadGuard | WriteGuard.
#[export] Instance gate_eq_dec : EqDecision Gate.
Proof. solve_decision. Defined.

Section machine.
Context {P : Platform}.

(** ** What a task owns *)

Record Held := {
  hd_gate : Gate;
  (** The slot whose mutex is held, and what was seen in it since. *)
  hd_lock : option nat;
  hd_seen : option (option CacheEntry);
  (** The slot of [slots] the task works on. *)
  hd_slot : option (ConnectionCacheKey * nat);
  (** The [Arc]s it owns. *)
  hd_arcs : list nat;
  (** The keys [slots] can still hold, listed under the write guard. *)
  hd_keys : option (list ConnectionCacheKey);
  (** The keys whose meaning it changed under the write guard. *)
  hd_change : option (ConnectionCacheKey → bool);
  (** It wrapped a pool in an entry. *)
  hd_wrapped : bool;
}.

Definition nothing_held : Held :=
  {| hd_gate := NoGuard; hd_lock := None; hd_seen := None; hd_slot := None; hd_arcs := [];
     hd_keys := None; hd_change := None; hd_wrapped := false |}.

Definition set_gate (g : Gate) (h : Held) : Held :=
  {| hd_gate := g; hd_lock := hd_lock h; hd_seen := hd_seen h; hd_slot := hd_slot h;
     hd_arcs := hd_arcs h; hd_keys := None; hd_change := None; hd_wrapped := hd_wrapped h |}.
Definition set_lock (l : option nat) (v : option (option CacheEntry)) (h : Held) : Held :=
  {| hd_gate := hd_gate h; hd_lock := l; hd_seen := v; hd_slot := hd_slot h;
     hd_arcs := hd_arcs h; hd_keys := hd_keys h; hd_change := hd_change h; hd_wrapped := hd_wrapped h |}.
Definition set_arcs (a : list nat) (h : Held) : Held :=
  {| hd_gate := hd_gate h; hd_lock := hd_lock h; hd_seen := hd_seen h; hd_slot := hd_slot h;
     hd_arcs := a; hd_keys := hd_keys h; hd_change := hd_change h; hd_wrapped := hd_wrapped h |}.
Definition set_slot (s : ConnectionCacheKey * nat) (h : Held) : Held :=
  {| hd_gate := hd_gate h; hd_lock := hd_lock h; hd_seen := hd_seen h; hd_slot := Some s;
     hd_arcs := hd_arcs h; hd_keys := hd_keys h; hd_change := hd_change h; hd_wrapped := hd_wrapped h |}.
Definition set_keys (k : option (list ConnectionCacheKey)) (h : Held) : Held :=
  {| hd_gate := hd_gate h; hd_lock := hd_lock h; hd_seen := hd_seen h; hd_slot := hd_slot h;
     hd_arcs := hd_arcs h; hd_keys := k; hd_change := hd_change h; hd_wrapped := hd_wrapped h |}.
Definition set_change (w : ConnectionCacheKey → bool) (h : Held) : Held :=
  {| hd_gate := hd_gate h; hd_lock := hd_lock h; hd_seen := hd_seen h; hd_slot := hd_slot h;
     hd_arcs := hd_arcs h; hd_keys := hd_keys h; hd_change := Some w; hd_wrapped := hd_wrapped h |}.

Definition set_wrapped (h : Held) : Held :=
  {| hd_gate := hd_gate h; hd_lock := hd_lock h; hd_seen := hd_seen h; hd_slot := hd_slot h;
     hd_arcs := hd_arcs h; hd_keys := hd_keys h; hd_change := hd_change h; hd_wrapped := true |}.

Definition without_key (key : ConnectionCacheKey) (keys : list ConnectionCacheKey) :=
  List.filter (λ k, negb (bool_decide (k = key))) keys.

Fixpoint remove_one (a : nat) (l : list nat) : list nat :=
  match l with
  | [] => []
  | b :: l => if decide (a = b) then l else b :: remove_one a l
  end.

(** After one more call and its answer. *)
Definition held_after (c : CacheCall.t) : CacheCall.res c → Held → Held :=
  match c with
  | GateRead => λ _, set_gate ReadGuard
  | GateWrite => λ _, set_gate WriteGuard
  | GateRelease => λ _, set_gate NoGuard
  | SlotEntry key => λ slot, set_slot (key, slot)
  | SlotKeys => λ keys, set_keys (Some keys)
  | RemoveSlot key => λ _ h, set_keys (without_key key <$> hd_keys h) h
  | LockSlot slot => λ _, set_lock (Some slot) None
  | UnlockSlot _ => λ _, set_lock None None
  | EntryRef slot => λ e, set_lock (Some slot) (Some e)
  | TakeEntry slot => λ e h, set_arcs (option_list (ce_arc <$> e) ++ hd_arcs h)
                               (set_lock (Some slot) (Some None) h)
  | SetEntry slot e => λ _, set_lock (Some slot) (Some (Some e))
  | NewEntry _ _ => λ e h, set_wrapped (set_arcs (ce_arc e :: hd_arcs h) h)
  | CloneEntry e => λ _ h, set_arcs (ce_arc e :: hd_arcs h) h
  | StoreScopeChange _ => λ r h, if is_ok r then set_change (λ _, true) h else h
  | StoreMaterialChange ids => λ r h, if is_ok r then set_change (of_connections ids) h else h
  | DropEntry e | TryUnwrap e => λ _ h, set_arcs (remove_one (ce_arc e) (hd_arcs h)) h
  | _ => λ _ h, h
  end.

Fixpoint held (h : cache_history) : Held :=
  match h with [] => nothing_held | Entry c r :: h => held_after c r (held h) end.

(** ** The shared state *)

(** A slot; the key it was created for is recorded for the proofs only. *)
Record Slot := { sl_key : ConnectionCacheKey; sl_entry : option CacheEntry }.

Record Shared := {
  sh_now : Instant;
  sh_slots : list (ConnectionCacheKey * nat);
  sh_heap : list Slot;
  sh_next_generation : Z;
  (** The entries allocated so far, by [ce_arc], and those moved out of their
      [Arc] or dropped. *)
  sh_entries : list CacheEntry;
  sh_consumed : list nat;
}.

(** What a task returns: a lease lives on, anything else is dropped. *)
Inductive Outcome := Leased (lease : CachedLease) | Finished.

Record Task := {
  tk_live : bool; tk_program : cache_program Outcome; tk_history : cache_history;
}.

Record Machine := { mc_shared : Shared; mc_tasks : list Task }.

Definition task_held (t : Task) : Held :=
  if tk_live t then held (tk_history t) else nothing_held.

(** [scope_gate]: readers exclude writers, a writer excludes everyone. *)
Definition gate_free (g : Gate) (tasks : list Task) : Prop :=
  Forall (λ t, match g with
               | NoGuard => True
               | ReadGuard => hd_gate (task_held t) ≠ WriteGuard
               | WriteGuard => hd_gate (task_held t) = NoGuard
               end) tasks.

Definition lock_free (slot : nat) (tasks : list Task) : Prop :=
  Forall (λ t, hd_lock (task_held t) ≠ Some slot) tasks.

Definition in_slot (a : nat) (s : Slot) : bool :=
  bool_decide (ce_arc <$> sl_entry s = Some a).

(** The number of [Arc]s to one allocation. *)
Definition references (a : nat) (m : Machine) : nat :=
  length (List.filter (in_slot a) (sh_heap (mc_shared m)))
  + sum_list_with (λ t, count_occ Nat.eq_dec (hd_arcs (task_held t)) a) (mc_tasks m).

Definition slot_entry (slot : nat) (s : Shared) : option CacheEntry :=
  sh_heap s !! slot ≫= sl_entry.

Definition find_slot (key : ConnectionCacheKey) (s : Shared) : option nat :=
  snd <$> List.find (λ p, bool_decide (p.1 = key)) (sh_slots s).

Definition with_heap (heap : list Slot) (s : Shared) : Shared :=
  {| sh_now := sh_now s; sh_slots := sh_slots s; sh_heap := heap;
     sh_next_generation := sh_next_generation s; sh_entries := sh_entries s;
     sh_consumed := sh_consumed s |}.
Definition with_slots (slots : list (ConnectionCacheKey * nat)) (s : Shared) : Shared :=
  {| sh_now := sh_now s; sh_slots := slots; sh_heap := sh_heap s;
     sh_next_generation := sh_next_generation s; sh_entries := sh_entries s;
     sh_consumed := sh_consumed s |}.
Definition consume (a : nat) (s : Shared) : Shared :=
  {| sh_now := sh_now s; sh_slots := sh_slots s; sh_heap := sh_heap s;
     sh_next_generation := sh_next_generation s; sh_entries := sh_entries s;
     sh_consumed := a :: sh_consumed s |}.

Definition put_entry (slot : nat) (e : option CacheEntry) (s : Shared) : Shared :=
  with_heap (alter (λ c, {| sl_key := sl_key c; sl_entry := e |}) slot (sh_heap s)) s.

(** [AtomicU64::fetch_add] *)
Definition bump_generation (s : Shared) : Shared :=
  {| sh_now := sh_now s; sh_slots := sh_slots s; sh_heap := sh_heap s;
     sh_next_generation := (sh_next_generation s + 1) mod 2 ^ 64; sh_entries := sh_entries s;
     sh_consumed := sh_consumed s |}.
Definition allocate (e : CacheEntry) (s : Shared) : Shared :=
  {| sh_now := sh_now s; sh_slots := sh_slots s; sh_heap := sh_heap s;
     sh_next_generation := sh_next_generation s; sh_entries := sh_entries s ++ [e];
     sh_consumed := sh_consumed s |}.
Definition tick (t : Instant) (s : Shared) : Shared :=
  {| sh_now := t; sh_slots := sh_slots s; sh_heap := sh_heap s;
     sh_next_generation := sh_next_generation s; sh_entries := sh_entries s;
     sh_consumed := sh_consumed s |}.

(** [slots.entry(key).or_insert_with(..)] *)
Definition slot_for (key : ConnectionCacheKey) (s : Shared) : nat * Shared :=
  match find_slot key s with
  | Some slot => (slot, s)
  | None => let slot := length (sh_heap s) in
      (slot, with_slots ((key, slot) :: sh_slots s)
               (with_heap (sh_heap s ++ [{| sl_key := key; sl_entry := None |}]) s))
  end.

(** [slots.remove(&key)] *)
Definition remove_slot (key : ConnectionCacheKey) (s : Shared) : option nat * Shared :=
  (find_slot key s,
   with_slots (List.filter (λ p, negb (bool_decide (p.1 = key))) (sh_slots s)) s).

(** ** Steps *)

(** A call of one of the tasks: when it can proceed, its answer and its effect.
    The other services, the keychain, the control plane and the databases may
    answer anything. *)
Definition cache_respond (m : Machine) (c : CacheCall.t) : CacheCall.res c → Shared → Prop :=
  let s := mc_shared m in
  match c with
  | GateRead => λ _ s', gate_free ReadGuard (mc_tasks m) ∧ s' = s
  | GateWrite => λ _ s', gate_free WriteGuard (mc_tasks m) ∧ s' = s
  | SlotEntry key => λ slot s', (slot, s') = slot_for key s
  | SlotKeys => λ keys s', keys = (sh_slots s).*1 ∧ s' = s
  | RemoveSlot key => λ slot s', (slot, s') = remove_slot key s
  | LockSlot slot => λ _ s', lock_free slot (mc_tasks m) ∧ s' = s
  | EntryRef slot => λ e s', e = slot_entry slot s ∧ s' = s
  | TakeEntry slot => λ e s', e = slot_entry slot s ∧ s' = put_entry slot None s
  | SetEntry slot e => λ _ s', s' = put_entry slot (Some e) s
  | NewEntry opened generation => λ e s',
      e = {| ce_arc := length (sh_entries s); ce_live := ol_live opened; ce_generation := generation;
             ce_retire_at := ol_retire_at opened; ce_managed_lease := ol_managed_lease opened |}
      ∧ s' = allocate e s
  | TryUnwrap e => λ unique s',
      unique = (references (ce_arc e) m =? 1)%nat
      ∧ s' = if unique : bool then consume (ce_arc e) s else s
  | NextGeneration => λ g s', g = sh_next_generation s ∧ s' = bump_generation s
  | InstantNow => λ now s', now = sh_now s ∧ s' = s
  | SleepUntil deadline => λ _ s', deadline ≤ sh_now s ∧ s' = s
  | _ => λ _ s', s' = s
  end.

Definition start (p : cache_program Outcome) : Task :=
  {| tk_live := true; tk_program := p; tk_history := [] |}.

Definition spawned (c : CacheCall.t) : list Task :=
  match c with
  | SpawnExpiry slot generation delay =>
      [start (expiry_task slot generation delay ≫= λ _, Ret Finished)]
  | _ => []
  end.

Definition stopped (t : Task) : Task :=
  {| tk_live := false; tk_program := tk_program t; tk_history := tk_history t |}.

(** The methods other code calls. *)
Inductive Request :=
| Acquire (id : Uuid) (access : ConnectionAccess.t)
| ScopeConnect (id : Uuid) (view : bool) (access : ConnectionAccess.t)
| TestFresh (id : Uuid) (access : ConnectionAccess.t)
| ChangeScope (change : ScopeChange)
| ChangeMaterial (authority : option (Uuid * ConnectionAccess.t)) (ids : list Uuid).

Definition leased (r : option (AppResult CachedLease)) : Outcome :=
  match r with Some (Ok lease) => Leased lease | _ => Finished end.

(** [fuel] bounds the turns of a connection loop. *)
Definition request_program (fuel : nat) (r : Request) : cache_program Outcome :=
  match r with
  | Acquire id access => leased <$> acquire fuel id access
  | ScopeConnect id view access => leased <$> operation_scope_connect fuel id view access
  | TestFresh id access =>
      context ← gated_pin id access;
      match context with
      | Ok context => test_fresh context ≫= λ _, Ret Finished
      | Err _ => Ret Finished
      end
  | ChangeScope change => change_scope change ≫= λ _, Ret Finished
  | ChangeMaterial authority ids => change_material authority ids ≫= λ _, Ret Finished
  end.

Inductive cache_step : Machine → Machine → Prop :=
(** A request arrives. *)
| step_request s tasks fuel r :
    cache_step {| mc_shared := s; mc_tasks := tasks |}
      {| mc_shared := s; mc_tasks := tasks ++ [start (request_program fuel r)] |}
(** Task [i] makes its next call. *)
| step_call m i c k h r s' :
    mc_tasks m !! i = Some {| tk_live := true; tk_program := Vis c k; tk_history := h |} →
    cache_respond m c r s' →
    cache_step m
      {| mc_shared := s';
         mc_tasks := <[i := {| tk_live := true; tk_program := k r;
                               tk_history := Entry c r :: h |}]> (mc_tasks m) ++ spawned c |}
(** Task [i] returns, is cancelled, or its lease is dropped. *)
| step_stop s tasks i t :
    tasks !! i = Some t → tk_live t = true →
    cache_step {| mc_shared := s; mc_tasks := tasks |}
      {| mc_shared := s; mc_tasks := <[i := stopped t]> tasks |}
(** [Drop for CacheEntry] when the last [Arc] has gone. *)
| step_drop m e :
    sh_entries (mc_shared m) !! ce_arc e = Some e → ce_arc e ∉ sh_consumed (mc_shared m) →
    references (ce_arc e) m = 0%nat →
    cache_step m
      {| mc_shared := consume (ce_arc e) (mc_shared m);
         mc_tasks := mc_tasks m
           ++ [start (release_optional (ce_managed_lease e) ≫= λ _, Ret Finished)] |}
(** The last [Arc] of a slot that left the map goes. *)
| step_free s tasks slot :
    Forall (λ p, p.2 ≠ slot) (sh_slots s) → lock_free slot tasks →
    Forall (λ t, snd <$> hd_slot (task_held t) ≠ Some slot) tasks →
    cache_step {| mc_shared := s; mc_tasks := tasks |}
      {| mc_shared := put_entry slot None s; mc_tasks := tasks |}
| step_tick s tasks now :
    sh_now s ≤ now →
    cache_step {| mc_shared := s; mc_tasks := tasks |}
      {| mc_shared := tick now s; mc_tasks := tasks |}.

(** [ConnectionManager::new] *)
Definition new_shared (now : Instant) : Shared :=
  {| sh_now := now; sh_slots := []; sh_heap := []; sh_next_generation := 1; sh_entries := [];
     sh_consumed := [] |}.

Definition cache_reachable (m : Machine) : Prop :=
  ∃ now, rtc cache_step {| mc_shared := new_shared now; mc_tasks := [] |} m.

(** ** The queue of the gate

    [scope_gate] is a tokio [RwLock]: the tasks that ask for it queue up, and a
    guard is given only to the task at the front, so that a reader waits behind a
    writer that asked before it even while only readers hold the gate.  The steps
    of the machine are those above, with the order of the queue obeyed. *)

Definition asks_gate (m : Machine) (i : nat) : Prop :=
  ∃ t c k, mc_tasks m !! i = Some t ∧ tk_live t = true ∧ tk_program t = Vis c k
    ∧ (c = GateRead ∨ c = GateWrite).

Record FairMachine := { fm_machine : Machine; fm_queue : list nat }.

(** Task [i] made a call, or ended, in a step from [m] to [m']. *)
Definition unmoved (m m' : Machine) (i : nat) : bool :=
  match mc_tasks m !! i, mc_tasks m' !! i with
  | Some t, Some t' =>
      eqb (tk_live t) (tk_live t') && (length (tk_history t) =? length (tk_history t'))%nat
  | _, _ => false
  end.

(** Task [i] was given the gate in the step. *)
Definition given (m m' : Machine) (i : nat) : Prop :=
  asks_gate m i ∧ ∃ t t', mc_tasks m !! i = Some t ∧ mc_tasks m' !! i = Some t'
    ∧ length (tk_history t') = S (length (tk_history t)).

Inductive fair_step : FairMachine → FairMachine → Prop :=
(** A task asks for the gate and queues up. *)
| fair_arrive m queue i :
    asks_gate m i → i ∉ queue →
    fair_step {| fm_machine := m; fm_queue := queue |}
      {| fm_machine := m; fm_queue := queue ++ [i] |}
(** A step of the machine; the gate goes to the front of the queue only, and a
    task that was given it, or was cancelled, leaves the queue. *)
| fair_move m m' queue :
    cache_step m m' → (∀ i, given m m' i → head queue = Some i) →
    fair_step {| fm_machine := m; fm_queue := queue |}
      {| fm_machine := m'; fm_queue := List.filter (unmoved m m') queue |}.

Definition fair_reachable (f : FairMachine) : Prop :=
  ∃ now, rtc fair_step
    {| fm_machine := {| mc_shared := new_shared now; mc_tasks := [] |}; fm_queue := [] |} f.

(** Nothing holds the task's next call back: a guard of the gate is free and
    nobody queues before it, a mutex is free, and any other call just proceeds. *)
Definition unblocked (f : FairMachine) (i : nat) : Prop :=
  ∃ t, mc_tasks (fm_machine f) !! i = Some t ∧ tk_live t = true
    ∧ match tk_program t with
      | Vis GateRead _ =>
          gate_free ReadGuard (mc_tasks (fm_machine f)) ∧ (fm_queue f = [] ∨ head (fm_queue f) = Some i)
      | Vis GateWrite _ =>
          gate_free WriteGuard (mc_tasks (fm_machine f)) ∧ (fm_queue f = [] ∨ head (fm_queue f) = Some i)
      | Vis (LockSlot slot) _ => lock_free slot (mc_tasks (fm_machine f))
      | _ => True
      end.
End machine.
