(* ===== verification/CacheTheorems.v ===== *)
(** * The discipline of the connection manager's tasks

    [cache_allowed] is what a task must own before each call: the gate before
    the map of slots, the slot's mutex around its entry and around the opening of
    a pool, an [Arc] before it is given up.  Every method keeps it ([wp]), hands
    out only pools whose authority was confirmed afterwards, and goes round its
    loop only past an expired pool. *)

From S2P Require Export CacheMachine ServiceLogic.

Section discipline.
Context {P : Platform}.

(** Pools are opened outside a slot, or in an empty slot under its mutex. *)
Definition may_open (h : Held) : Prop :=
  match hd_slot h with
  | Some (_, slot) => hd_gate h = ReadGuard ∧ hd_lock h = Some slot ∧ hd_seen h = Some None
  | None => True
  end.

Definition obeys (h : Held) (c : CacheCall.t) : Prop :=
  match c with
  | GateRead | GateWrite => hd_gate h = NoGuard ∧ hd_lock h = None ∧ hd_slot h = None
  | GateRelease => hd_gate h = WriteGuard ∧ hd_lock h = None ∧ hd_slot h = None
  | SlotEntry _ => hd_gate h = ReadGuard ∧ hd_lock h = None ∧ hd_slot h = None ∧ hd_arcs h = []
  | SlotKeys | RemoveSlot _ => hd_gate h = WriteGuard ∧ hd_lock h = None ∧ hd_slot h = None
  | LockSlot slot => hd_lock h = None ∧ ∀ s, hd_slot h = Some s → slot = s.2
  | SleepUntil _ => hd_gate h = NoGuard ∧ hd_lock h = None
  | UnlockSlot slot | EntryRef slot | TakeEntry slot => hd_lock h = Some slot
  | SetEntry slot e =>
      hd_lock h = Some slot ∧ hd_seen h = Some None ∧ hd_gate h = ReadGuard
      ∧ snd <$> hd_slot h = Some slot ∧ ce_arc e ∈ hd_arcs h
  | CloneEntry e => hd_seen h = Some (Some e) ∧ is_Some (hd_lock h)
  | DropEntry e | TryUnwrap e => ce_arc e ∈ hd_arcs h ∧ hd_lock h = None
  | FetchSecret _ | IssueLease _ _ _ _ | DriverConnect _ _ => may_open h
  | _ => True
  end.

(** The local pin was current and, for a shared connection, the control plane
    granted the access at the pinned revision. *)
Definition confirmed (pin : PinnedConnection) (access : ConnectionAccess.t) (l : cache_history)
  : Prop :=
  Entry (Service (Call.IsPinCurrent pin)) (Ok true) ∈ l
  ∧ (pc_requires_remote_rbac pin = true →
     ∃ user_id, sc_selected_account_id (pc_scope pin) = Some user_id
     ∧ Entry (Service (Call.AuthorizeConnection user_id (sc_workspace_id (pc_scope pin))
                         (pc_connection_id pin) (bool_decide (access = ConnectionAccess.Write))))
         (Ok (pc_connection_revision pin)) ∈ l).

(** A pool was opened, and the pin confirmed afterwards. *)
Definition vetted (pin : PinnedConnection) (access : ConnectionAccess.t) (live : Live)
    (h : cache_history) : Prop :=
  ∃ l h0 profile secret,
    h = l ++ Entry (DriverConnect profile secret) (Ok live) :: h0 ∧ confirmed pin access l.

Definition published (slot : nat) (e : CacheEntry) (h : cache_history) : Prop :=
  ∃ pin access, hd_slot (held h) = Some (cache_key pin access, slot)
    ∧ vetted pin access (ce_live e) h.

(** No slot that [wanted] selects is left. *)
Definition unlisted (wanted : ConnectionCacheKey → bool) (h : Held) : Prop :=
  ∃ keys, hd_keys h = Some keys ∧ Forall (λ key, wanted key = false) keys.

(** A pool may be closed by the last owner of its entry, or by the task that
    opened it and has wrapped none. *)
Definition closable (live : Live) (h : cache_history) : Prop :=
  (∃ e, ce_live e = live ∧ Entry (TryUnwrap e) true ∈ h)
  ∨ hd_wrapped (held h) = false
    ∧ ∃ profile secret, Entry (DriverConnect profile secret) (Ok live) ∈ h.

Definition cache_allowed (h : cache_history) (c : CacheCall.t) : Prop :=
  obeys (held h) c
  ∧ match c with
    | SetEntry slot e => published slot e h
    | CloseLive live => closable live h
    | GateRelease =>
        ∀ wanted, hd_change (held h) = Some wanted → unlisted wanted (held h)
    | _ => True
    end.

Definition cache_answer (c : CacheCall.t) : CacheCall.res c → Prop :=
  match c with
  | NewEntry opened generation => λ e,
      ce_live e = ol_live opened ∧ ce_generation e = generation
      ∧ ce_retire_at e = ol_retire_at opened ∧ ce_managed_lease e = ol_managed_lease opened
  | _ => λ _, True
  end.

Abbreviation cwp p Q h := (wp cache_answer cache_allowed p Q h).

(** What a lease rests on: the pool was in the slot of its own key or was opened
    by the task, its authority was confirmed after that, and it had not expired. *)
Definition handed_out (lease : CachedLease) (h : cache_history) : Prop :=
  let pin := cl_pin lease in
  ∃ slot l h0,
    hd_gate (held h) = ReadGuard ∧ hd_lock (held h) = None
    ∧ hd_slot (held h) = Some (cache_key pin (cl_access lease), slot)
    ∧ ce_arc (cl_entry lease) ∈ hd_arcs (held h)
    ∧ h = l ++ h0 ∧ confirmed pin (cl_access lease) l
    ∧ (head h0 = Some (Entry (EntryRef slot) (Some (cl_entry lease)))
       ∨ (∃ profile secret,
            head h0 = Some (Entry (DriverConnect profile secret) (Ok (ce_live (cl_entry lease)))))
         ∧ Entry (SetEntry slot (cl_entry lease)) tt ∈ l)
    ∧ ∀ t, ce_retire_at (cl_entry lease) = Some t → ∃ now, Entry InstantNow now ∈ l ∧ now < t.

(** ** Shared rules *)

Definition extends (h h' : cache_history) : Prop := ∃ l, h' = l ++ h.
Definition keeps (h h' : cache_history) : Prop := extends h h' ∧ held h' = held h.
Definition keeps_but_arcs (h h' : cache_history) : Prop :=
  extends h h' ∧ ∃ arcs, held h' = set_arcs arcs (held h).

#[export] Instance extends_preorder : PreOrder extends.
Proof.
  split; [by exists []|]. intros h1 h2 h3 [l ->] [l' ->]. exists (l' ++ l). by rewrite app_assoc.
Qed.
#[export] Instance keeps_preorder : PreOrder keeps.
Proof. split; [done|]. intros h1 h2 h3 [H E] [H' E']. split; [by etrans|congruence]. Qed.
Lemma set_arcs_id h : set_arcs (hd_arcs h) h = h.
Proof. by destruct h. Qed.
Lemma keeps_weaken h h' : keeps h h' → keeps_but_arcs h h'.
Proof. intros [H E]. split; [done|]. exists (hd_arcs (held h)). by rewrite set_arcs_id. Qed.
#[export] Instance keeps_but_arcs_preorder : PreOrder keeps_but_arcs.
Proof.
  split; [intros h; by apply keeps_weaken|].
  intros h1 h2 h3 [H [a E]] [H' [b E']]. split; [by etrans|]. exists b. by rewrite E', E.
Qed.

Lemma confirmed_app pin access l l' : confirmed pin access l → confirmed pin access (l' ++ l).
Proof.
  intros [H H']. split; [apply elem_of_app; by right|]. intros Hr.
  destruct (H' Hr) as (u & Hu & Ha). exists u. split; [done|]. apply elem_of_app. by right.
Qed.
Lemma confirmed_app_l pin access l l' : confirmed pin access l → confirmed pin access (l ++ l').
Proof.
  intros [H H']. split; [apply elem_of_app; by left|]. intros Hr.
  destruct (H' Hr) as (u & Hu & Ha). exists u. split; [done|]. apply elem_of_app. by left.
Qed.
Lemma vetted_app pin access live h l : vetted pin access live h → vetted pin access live (l ++ h).
Proof.
  intros (l0 & h0 & p & s & -> & H). exists (l ++ l0), h0, p, s.
  split; [by rewrite app_assoc|by apply confirmed_app].
Qed.

(** Calls that change nothing the task owns. *)
Definition idle_call (c : CacheCall.t) : bool :=
  match c with
  | Service _ | NextGeneration | InstantNow | TimeoutElapsed | SpawnExpiry _ _ _
  | ReleaseLease _ | TestLive _ => true
  | _ => false
  end.

Fixpoint idle {A} (p : cache_program A) : Prop :=
  match p with Ret _ => True | Vis c k => idle_call c = true ∧ ∀ r, idle (k r) end.

Lemma idle_allowed h c : idle_call c = true → cache_allowed h c.
Proof. by destruct c. Qed.
Lemma idle_held c r h : idle_call c = true → held (Entry c r :: h) = held h.
Proof. by destruct c. Qed.

Lemma idle_bind {A B} (p : cache_program A) (f : A → cache_program B) :
  idle p → (∀ a, idle (f a)) → idle (p ≫= f).
Proof. intros Hp Hf. induction p as [a|c k IH]; cbn in *; [done|]. naive_solver. Qed.

Lemma idle_lift {A} (p : program A) : idle (lift p).
Proof. induction p as [a|c k IH]; cbn; [done|]. by split. Qed.

Lemma cwp_idle {A} (p : cache_program A) (Q : A → cache_history → Prop) h :
  idle p → (∀ a h', keeps h h' → Q a h') → cwp p Q h.
Proof.
  revert h. induction p as [a|c k IH]; cbn; intros h Hp HQ; [by apply HQ|].
  destruct Hp as [Hc Hp]. split; [by apply idle_allowed|]. intros r _.
  apply IH; [done|]. intros a h' [[l ->] Hh]. apply HQ. split.
  - exists (l ++ [Entry c r]). by rewrite <-app_assoc.
  - by rewrite Hh, idle_held.
Qed.

(** A program of the services, with what its own history shows. *)
Definition lift_history (l : history) : cache_history :=
  map (λ e : entry Call.res, (@Entry _ CacheCall.res (Service (called e)) (answer e))) l.

Lemma cwp_lift {A} (p : program A) (Q : A → history → Prop)
    (Q' : A → cache_history → Prop) h :
  wp (λ _ _, True) (λ _ _, True) p Q [] →
  (∀ a l, Q a l → held (lift_history l ++ h) = held h → Q' a (lift_history l ++ h)) →
  cwp (lift p) Q' h.
Proof.
  intros Hp HQ. cut (∀ l, held (lift_history l ++ h) = held h →
    wp (λ _ _, True) (λ _ _, True) p Q l → cwp (lift p) Q' (lift_history l ++ h)).
  { intros H. by apply (H []). }
  clear Hp. induction p as [a|c k IH]; cbn; intros l Hl Hp; [by apply HQ|].
  destruct Hp as [_ Hp]. split; [by apply (idle_allowed _ (Service c))|]. intros r _.
  apply (IH r (Entry c r :: l)); [done|by apply Hp].
Qed.

(** ** Authority *)

Definition granted (pin : PinnedConnection) (access : ConnectionAccess.t) (l : cache_history) : Prop :=
  pc_requires_remote_rbac pin = true →
  ∃ user_id, sc_selected_account_id (pc_scope pin) = Some user_id
  ∧ Entry (Service (Call.AuthorizeConnection user_id (sc_workspace_id (pc_scope pin))
                      (pc_connection_id pin) (bool_decide (access = ConnectionAccess.Write))))
      (Ok (pc_connection_revision pin)) ∈ l.

Lemma lift_in (e : entry Call.res) l :
  e ∈ l → @Entry _ CacheCall.res (Service (called e)) (answer e) ∈ lift_history l.
Proof. intros H. unfold lift_history. apply list_elem_of_fmap. by exists e. Qed.

Lemma granted_app pin access l l' : granted pin access l → granted pin access (l' ++ l).
Proof.
  intros H Hr. destruct (H Hr) as (u & Hu & Ha). exists u. split; [done|].
  apply elem_of_app. by right.
Qed.

Lemma wp_granted pin access :
  wp (λ _ _, True) (λ _ _, True) (authorize_pin pin access)
    (λ r l, is_ok r = true → granted pin access (lift_history l)) [].
Proof.
  unfold authorize_pin. wp_step; [|done]. wp_if Hr.
  - wp_step. intros _ Hr'. by rewrite Hr' in Hr.
  - wp_step; [|done]. wp_step. wp_step; [done|]. wp_step. destruct r as [revision|e]; [|done].
    wp_if Hv; wp_step; [done|]. intros _ _. bools. subst.
    destruct (sc_selected_account_id (pc_scope pin)) as [u|] eqn:Hu; [|done].
    injection Hx0 as ->. exists x0. split; [done|]. apply Z.eqb_eq in Hv as ->. left.
Qed.

(** The rechecks before a pool is handed out, from a history [l ++ h0]. *)
Lemma cwp_reauthorize pin access h (Q : AppResult unit → cache_history → Prop) :
  (∀ r l, keeps h (l ++ h) → (is_ok r = true → granted pin access l) → Q r (l ++ h)) →
  cwp (reauthorize pin access) Q h.
Proof.
  intros HQ. unfold reauthorize. destruct (pc_requires_remote_rbac pin) eqn:Hr.
  - apply wp_bind. eapply cwp_lift; [apply wp_granted|]. intros a l Ha Hl. apply HQ.
    + split; [by eexists|done].
    + destruct a; [intros _; by apply Ha|done].
  - wp_step. apply (HQ _ []); [done|]. intros _ H. by rewrite H in Hr.
Qed.

Lemma cwp_pin_current pin h (Q : AppResult unit → cache_history → Prop) :
  (∀ r l, keeps h (l ++ h) →
     (is_ok r = true → Entry (Service (Call.IsPinCurrent pin)) (Ok true) ∈ l) → Q r (l ++ h)) →
  cwp (pin_current pin) Q h.
Proof.
  intros HQ. unfold pin_current. wp_step. wp_step; [done|]. do 2 wp_step.
  apply (HQ _ [_]); [split; [by eexists [_]|done]|].
  destruct r as [[]|]; try done. intros _. left.
Qed.
(** What a task owns inside [connect]. *)
Definition in_slot_of (key : ConnectionCacheKey) (slot : nat) (lock : option nat)
    (seen : option (option CacheEntry)) (arcs : list nat) : Held :=
  {| hd_gate := ReadGuard; hd_lock := lock; hd_seen := seen; hd_slot := Some (key, slot);
     hd_arcs := arcs; hd_keys := None; hd_change := None; hd_wrapped := false |}.

End discipline.

#[export] Hint Resolve idle_lift : core.
Abbreviation cwp p Q h := (wp cache_answer cache_allowed p Q h).

(** ** Owning [Arc]s *)

Lemma remove_one_perm a l : a ∈ l → l ≡ₚ a :: remove_one a l.
Proof.
  induction l as [|b l IH]; intros H; [by apply not_elem_of_nil in H|]. cbn.
  destruct (decide (a = b)) as [->|Hn]; [done|].
  apply elem_of_cons in H as [H|H]; [done|]. rewrite (IH H) at 1. apply Permutation_swap.
Qed.
Lemma remove_one_submseteq a l l' : a :: l ⊆+ l' → l ⊆+ remove_one a l'.
Proof.
  intros H. assert (a ∈ l') as Ha by (apply (elem_of_submseteq (a :: l)); [left|done]).
  rewrite (remove_one_perm a l' Ha) in H.
  by apply (submseteq_app_inv_l l (remove_one a l') [a]) in H.
Qed.
Lemma remove_one_in a b l : a ≠ b → a ∈ l → a ∈ remove_one b l.
Proof.
  intros Hn H. destruct (decide (b ∈ l)) as [Hb|Hb].
  - rewrite (remove_one_perm b l Hb) in H. by apply elem_of_cons in H as [?|?].
  - replace (remove_one b l) with l; [done|]. clear -Hb. induction l as [|c l IH]; [done|]. cbn.
    apply not_elem_of_cons in Hb as [? Hb]. rewrite decide_False by done. by rewrite <-IH.
Qed.
Lemma remove_one_incl a b l : a ∈ remove_one b l → a ∈ l.
Proof.
  induction l as [|c l IH]; [done|]. cbn. destruct (decide (b = c)); [by right|].
  intros [->|H]%elem_of_cons; [left|right; by apply IH].
Qed.

(** One call of a task that owns [X]; [Hh] follows what it owns. *)
Ltac follow Hh :=
  cbv beta iota;
  lazymatch goal with
  | |- wp _ _ _ _ (@Entry ?o ?r' ?op ?r :: ?h) =>
      lazymatch type of Hh with
      | _ = ?X =>
          let H := fresh in
          assert (H : held (@Entry o r' op r :: h) = held_after op r X)
            by (change (held (@Entry o r' op r :: h)) with (held_after op r (held h)); by rewrite Hh);
          cbv beta iota delta [held_after in_slot_of set_gate set_lock set_arcs set_slot hd_gate hd_lock hd_seen
            hd_slot hd_arcs hd_keys set_keys hd_change set_change
            hd_wrapped set_wrapped] in H;
          clear Hh; rename H into Hh
      end
  end.
Ltac call_step Hh :=
  wp_step;
  [split; [cbn [obeys may_open]; rewrite ?Hh; cbn; repeat split; try done; try by intros ? [= <-]|try done]
  |follow Hh].

Section programs.
Context {P : Platform}.

(** ** Closing pools *)

Lemma idle_release_optional lease : idle (release_optional lease).
Proof. by destruct lease. Qed.

(** A pool the task opened itself. *)
Definition opened_in (opened : OpenedLive) (h : cache_history) : Prop :=
  hd_wrapped (held h) = false
  ∧ ∃ profile secret, Entry (DriverConnect profile secret) (Ok (ol_live opened)) ∈ h.

Lemma opened_in_extends opened h h' :
  extends h h' → hd_wrapped (held h') = hd_wrapped (held h) → opened_in opened h → opened_in opened h'.
Proof.
  intros [l ->] Hw [H (profile & secret & Hd)]. split; [congruence|]. exists profile, secret.
  apply elem_of_app. by right.
Qed.

Lemma cwp_retire_opened opened h :
  opened_in opened h → cwp (retire_opened opened) (λ _ h', keeps h h') h.
Proof.
  intros Ho. unfold retire_opened. wp_step; [by split; [|right]|].
  apply cwp_idle; [apply idle_release_optional|]. intros _ h' [[l ->] K]. split; [|exact K].
  exists (l ++ [Entry (CloseLive (ol_live opened)) r]). by rewrite <-app_assoc.
Qed.

Lemma cwp_close_entries l h :
  (∀ e, e ∈ l → Entry (TryUnwrap e) true ∈ h) →
  cwp (close_entries l) (λ _ h', keeps h h') h.
Proof.
  revert h. induction l as [|e l IH]; intros h Hl; cbn [close_entries]; [by wp_step|].
  wp_step; [done|]. destruct r; [by wp_step; split; [by eexists [_]|]|].
  wp_step. { split; [done|left]. exists e. split; [done|]. right. apply Hl. left. }
  wp_step. apply cwp_idle; [apply idle_release_optional|]. intros _ h' [[l' ->] K].
  eapply wp_mono; [|apply IH].
  - intros _ h'' [E' K']. split; [|by rewrite K', K]. etrans; [|exact E'].
    exists (l' ++ [Entry (CloseLive (ce_live e)) r; Entry TimeoutElapsed false]). by rewrite <-app_assoc.
  - intros e' He'. apply elem_of_app. do 3 right. apply Hl. by right.
Qed.

Lemma idle_expired_at t : idle (expired_at t).
Proof. by destruct t. Qed.

Lemma cwp_unwrap_entries l h :
  map ce_arc l ⊆+ hd_arcs (held h) → hd_lock (held h) = None →
  cwp (unwrap_entries l)
    (λ owned h', keeps_but_arcs h h' ∧ ∀ e, e ∈ owned → Entry (TryUnwrap e) true ∈ h') h.
Proof.
  revert h. induction l as [|e l IH]; intros h Hl Hk.
  - wp_step. split; [by apply keeps_weaken|]. intros e He. by apply not_elem_of_nil in He.
  - wp_step.
    + split; [split; [|done]|done]. apply (elem_of_submseteq (map ce_arc (e :: l))); [left|done].
    + apply wp_bind. eapply wp_mono; [|apply IH].
      * intros owned h' [H Hu]. wp_step. split.
        { etrans; [|exact H]. split; [by eexists [_]|].
          by exists (remove_one (ce_arc e) (hd_arcs (held h))). }
        destruct r; [|done]. intros e' [->|He']%elem_of_cons; [|by apply Hu].
        destruct H as [[l' E] _]. rewrite E. apply elem_of_app. right. left.
      * cbn. by apply remove_one_submseteq.
      * done.
Qed.

Lemma cwp_retire_entries l h :
  map ce_arc l ⊆+ hd_arcs (held h) → hd_lock (held h) = None →
  cwp (retire_entries l) (λ _ h', keeps_but_arcs h h') h.
Proof.
  intros Hl Hk. apply wp_bind. eapply wp_mono; [|by apply cwp_unwrap_entries].
  intros owned h' [H Hu]. eapply wp_mono; [|by apply cwp_close_entries]. intros ? h'' H'.
  etrans; [exact H|by apply keeps_weaken].
Qed.

(** ** Opening pools *)

Definition opened_here (r : AppResult OpenedLive) (h : cache_history) : Prop :=
  ∀ opened, r = Ok opened → ∃ l h0 profile secret,
    h = l ++ Entry (DriverConnect profile secret) (Ok (ol_live opened)) :: h0.

Lemma keeps_cons h c r : held_after c r (held h) = held h → keeps h (Entry c r :: h).
Proof. intros H. split; [by eexists [_]|done]. Qed.

Lemma cwp_fetch_profile_secret profile h (Q : AppResult string → cache_history → Prop) :
  may_open (held h) → (∀ r h', keeps h h' → Q r h') → cwp (fetch_profile_secret profile) Q h.
Proof.
  intros Ho HQ. unfold fetch_profile_secret. wp_if Hm; [wp_step; by apply HQ|].
  destruct (cp_secret_ref profile) as [secret_ref|].
  - wp_step; [|by apply HQ]. wp_step; [by split|]. wp_step. apply HQ. by apply keeps_cons.
  - wp_if Ha; wp_step; by apply HQ.
Qed.

Lemma cwp_connect_managed profile user ws access h :
  may_open (held h) →
  cwp (connect_managed profile user ws access)
    (λ r h', keeps h h' ∧ opened_here r h') h.
Proof.
  intros Ho. unfold connect_managed. wp_step; [by split|]. wp_step; [|split; [by apply keeps_cons|done]].
  destruct r as [lease|]; [injection Hx as ->|done]. wp_step; [done|]. cbv zeta.
  wp_step; [by split|]. destruct r0 as [live|error].
  - wp_step. split; [split; [by eexists [_; _; _]|done]|]. intros opened [= <-]. by eexists [], _, _, _.
  - apply wp_bind, cwp_idle; [apply (idle_release_optional (Some _))|]. intros _ h' H. wp_step.
    split; [|done]. etrans; [|exact H]. split; [by eexists [_; _; _]|done].
Qed.

Lemma cwp_connect_authorized profile authorization access h :
  may_open (held h) →
  cwp (connect_authorized profile authorization access)
    (λ r h', keeps h h' ∧ opened_here r h') h.
Proof.
  intros Ho. unfold connect_authorized. wp_if Hm.
  - wp_step; [|done]. wp_step; [|done]. by apply cwp_connect_managed.
  - wp_step. apply cwp_fetch_profile_secret; [done|]. intros [secret|e] h' H; [|done].
    wp_step; [split; [|done]; cbn; by rewrite (proj2 H)|]. destruct H as [[l ->] H].
    assert (∀ a, keeps h (Entry (DriverConnect profile secret) a :: l ++ h)) as Hk.
    { intros a. split; [by eexists (_ :: _)|]. exact H. }
    wp_step; [|by split]. destruct r as [live|e]; [injection Hx as ->|done]. wp_step. split; [done|].
    intros opened [= <-]. by eexists [], _, _, _.
Qed.

(** ** The connection loop *)

(** What a turn leaves: the mutex is free again and the task is still in its
    slot, or it has what a lease rests on. *)
Definition turn_ok (self : ConnectionContext) (slot : nat) (t : Turn) (h : cache_history) : Prop :=
  match t with
  | Again => ∃ arcs,
      held h = in_slot_of (cache_key (cx_pin self) (cx_access self)) slot None None arcs
  | Done (Ok lease) =>
      cl_pin lease = cx_pin self ∧ cl_access lease = cx_access self ∧ handed_out lease h
  | Done (Err _) => True
  end.

Lemma cwp_expired_at t (Q : bool → cache_history → Prop) h :
  (∀ r l, keeps h (l ++ h) →
     (r = false → ∀ d, t = Some d → ∃ now, Entry InstantNow now ∈ l ∧ now < d) → Q r (l ++ h)) →
  cwp (expired_at t) Q h.
Proof.
  intros HQ. destruct t as [d|]; [|wp_step; by apply (HQ _ [])].
  wp_step; [done|]. wp_step. apply (HQ _ [_]); [by apply keeps_cons|].
  intros Hlt d' [= <-]. exists r. split; [left|]. apply Z.leb_gt in Hlt. lia.
Qed.

Lemma taken_submseteq (o : option CacheEntry) a l :
  option_list (ce_arc <$> o) ⊆+ remove_one a (option_list (ce_arc <$> o) ++ a :: l).
Proof.
  apply remove_one_submseteq. rewrite <-Permutation_middle.
  apply submseteq_skip, submseteq_inserts_r. done.
Qed.

Lemma cwp_retire_again self slot o arcs h :
  held h = in_slot_of (cache_key (cx_pin self) (cx_access self)) slot None None arcs →
  option_list (ce_arc <$> o) ⊆+ arcs →
  cwp (retire_entries (option_list o) ≫= λ _, Ret Again) (turn_ok self slot) h.
Proof.
  intros Hh Ho. wp_step. eapply wp_mono; [|apply cwp_retire_entries; rewrite Hh; [|done]].
  - intros _ h' [_ [a Ha]]. wp_step. rewrite Hh in Ha. by exists a.
  - by destruct o.
Qed.

Lemma cwp_use_cached self slot e arcs h l0 h0 :
  held h = in_slot_of (cache_key (cx_pin self) (cx_access self)) slot (Some slot)
             (Some (Some e)) arcs →
  h = l0 ++ h0 → head h0 = Some (Entry (EntryRef slot) (Some e)) →
  cwp (use_cached self slot e) (turn_ok self slot) h.
Proof.
  intros Hh Hh0 He. unfold use_cached. cbv zeta.
  call_step Hh. call_step Hh. wp_step. apply cwp_reauthorize. intros r1 l1 [_ K1] Hg.
  rewrite Hh in K1. destruct r1 as [[]|error]; [|by wp_step].
  wp_step. apply cwp_pin_current. intros r2 l2 [_ K2] Hc. rewrite K1 in K2.
  destruct r2 as [[]|error]; [|by wp_step].
  wp_step. apply cwp_expired_at. intros r3 l3 [_ K3] Ht. rewrite K2 in K3. cbv beta. destruct r3.
  - call_step K3. call_step K3. wp_step.
    match goal with |- wp _ _ (if ?b then _ else _) _ _ => destruct b eqn:Hs end.
    + call_step K3. wp_step. call_step K3. call_step K3; [apply elem_of_app; right; left|].
      eapply (cwp_retire_again _ _ r3); [exact K3|by apply taken_submseteq].
    + wp_step. call_step K3. call_step K3; [left|].
      eapply (cwp_retire_again _ _ None); [exact K3|apply submseteq_nil_l].
  - wp_step. split; [done|]. split; [done|].
    exists slot, (l3 ++ l2 ++ l1 ++ [Entry (UnlockSlot slot) r0; Entry (CloneEntry e) r] ++ l0), h0.
    rewrite K3. subst h. split_and!; try done.
    + cbn. left.
    + by rewrite <-!app_assoc.
    + split; [apply elem_of_app; right; apply elem_of_app; left; by apply Hc|].
      do 2 apply granted_app. intros Hrb. destruct (Hg eq_refl Hrb) as (u & Hu & Ha).
      exists u. split; [done|]. apply elem_of_app. by left.
    + by left.
    + intros t Hd. destruct (Ht eq_refl t Hd) as (now & Hn & Hlt). exists now. split; [|done].
      apply elem_of_app. by left.
Qed.

Lemma cwp_discard self slot opened error arcs h :
  held h = in_slot_of (cache_key (cx_pin self) (cx_access self)) slot (Some slot) (Some None) arcs →
  opened_in opened h →
  cwp (discard slot opened error) (turn_ok self slot) h.
Proof.
  intros Hh Ho. unfold discard. call_step Hh. wp_step. eapply wp_mono; [|apply cwp_retire_opened].
  - intros ? h' _. by wp_step.
  - eapply opened_in_extends; [by eexists [_]|done|done].
Qed.

Lemma opened_at l h0 opened profile secret h :
  h = l ++ h0 → head h0 = Some (Entry (DriverConnect profile secret) (Ok (ol_live opened))) →
  hd_wrapped (held h) = false → opened_in opened h.
Proof.
  intros -> Hd Hw. split; [done|]. exists profile, secret. apply elem_of_app. right.
  destruct h0 as [|x h0]; [done|]. injection Hd as ->. left.
Qed.

Lemma cwp_publish self slot opened arcs h l h0 profile secret :
  held h = in_slot_of (cache_key (cx_pin self) (cx_access self)) slot (Some slot) (Some None) arcs →
  h = l ++ h0 → head h0 = Some (Entry (DriverConnect profile secret) (Ok (ol_live opened))) →
  confirmed (cx_pin self) (cx_access self) l →
  cwp (publish self slot opened) (turn_ok self slot) h.
Proof.
  intros Hh Hl Hd Hc. unfold publish. call_step Hh. wp_step.
  apply cwp_expired_at. intros late l1 [_ K1] Ht. rewrite Hh in K1. cbv beta. destruct late.
  { eapply cwp_discard; [exact K1|]. eapply (opened_at (l1 ++ [_] ++ l) h0); [|exact Hd|by rewrite K1].
    rewrite Hl. by rewrite <-!app_assoc. }
  call_step K1. rename r0 into e. destruct Hr0 as (El & _ & Er & _).
  assert (vetted (cx_pin self) (cx_access self) (ce_live e)
    (Entry (NewEntry opened r) e :: l1 ++ Entry NextGeneration r :: h)) as Hv.
  { destruct h0 as [|x h0]; [done|]. injection Hd as ->. rewrite El.
    exists (Entry (NewEntry opened r) e :: l1 ++ Entry NextGeneration r :: l), h0, profile, secret.
    split; [rewrite Hl; cbn; by rewrite <-app_assoc|].
    apply (confirmed_app _ _ _ [_]), (confirmed_app _ _ _ l1), (confirmed_app _ _ _ [_]), Hc. }
  call_step K1; [left|by exists (cx_pin self), (cx_access self); rewrite K1|].
  call_step K1. wp_step.
  assert (∀ h', (∃ l', h' = l' ++ Entry (UnlockSlot slot) r1 :: Entry (SetEntry slot e) r0
                  :: Entry (NewEntry opened r) e :: l1 ++ Entry NextGeneration r :: h) →
    held h' = set_wrapped (in_slot_of (cache_key (cx_pin self) (cx_access self)) slot None None
                             (ce_arc e :: arcs)) →
    handed_out {| cl_pin := cx_pin self; cl_access := cx_access self; cl_entry := e |} h') as Hdone.
  { intros h' [l' ->] K'. exists slot, (l' ++ Entry (UnlockSlot slot) r1 :: Entry (SetEntry slot e) r0
      :: Entry (NewEntry opened r) e :: l1 ++ Entry NextGeneration r :: l), h0.
    rewrite K'. split_and!; try done; cbn.
    - left.
    - rewrite Hl. rewrite <-!app_assoc. cbn. by rewrite <-!app_assoc.
    - apply (confirmed_app _ _ _ l'), (confirmed_app _ _ _ [_; _; _]), (confirmed_app _ _ _ l1),
        (confirmed_app _ _ _ [_]), Hc.
    - right. split; [exists profile, secret; by rewrite El|]. destruct r0. apply elem_of_app. right. right. left.
    - rewrite Er. intros t Ht'. destruct (Ht eq_refl t Ht') as (now & Hn & Hlt).
      exists now. split; [|done]. apply elem_of_app. right. do 3 right. apply elem_of_app. by left. }
  destruct (ol_retire_at opened) as [d|].
  - call_step K1. call_step K1. do 2 wp_step. split; [done|]. split; [done|].
    apply Hdone; [by exists [Entry (SpawnExpiry slot r (saturating_duration_since d r2)) r3; Entry InstantNow r2]|done].
  - do 2 wp_step. split; [done|]. split; [done|]. apply Hdone; [by exists []|done].
Qed.

Lemma cwp_open_pool self slot arcs h :
  held h = in_slot_of (cache_key (cx_pin self) (cx_access self)) slot (Some slot) (Some None) arcs →
  cwp (open_pool self slot) (turn_ok self slot) h.
Proof.
  intros Hh. unfold open_pool. cbv zeta. wp_step.
  eapply wp_mono; [|apply cwp_connect_authorized; by rewrite Hh].
  intros [opened|error] h1 [[_ K1] Ho]; rewrite Hh in K1; [|by call_step K1; wp_step].
  destruct (Ho opened eq_refl) as (l0 & h0 & profile & secret & ->).
  wp_step. apply cwp_reauthorize. intros r1 l1 [_ K2] Hg. rewrite K1 in K2.
  destruct r1 as [[]|error].
  2: { eapply cwp_discard; [exact K2|]. eapply (opened_at (l1 ++ l0)); [by rewrite <-app_assoc|done|by rewrite K2]. }
  wp_step. apply cwp_pin_current. intros r2 l2 [_ K3] Hc. rewrite K2 in K3.
  destruct r2 as [[]|error].
  2: { eapply cwp_discard; [exact K3|].
       eapply (opened_at (l2 ++ l1 ++ l0)); [by rewrite <-!app_assoc|done|by rewrite K3]. }
  eapply (cwp_publish _ _ _ _ _ (l2 ++ l1 ++ l0)); [exact K3|by rewrite <-!app_assoc|done|].
  split; [apply elem_of_app; left; by apply Hc|]. intros Hr.
  destruct (Hg eq_refl Hr) as (u & Hu & Ha). exists u. split; [done|].
  apply elem_of_app. right. apply elem_of_app. by left.
Qed.

Lemma cwp_connect_turn self slot arcs h :
  held h = in_slot_of (cache_key (cx_pin self) (cx_access self)) slot None None arcs →
  cwp (connect_turn self slot) (turn_ok self slot) h.
Proof.
  intros Hh. unfold connect_turn. call_step Hh. call_step Hh. rename r0 into cached.
  assert (∀ h', held h' = in_slot_of (cache_key (cx_pin self) (cx_access self)) slot
                  (Some slot) (Some cached) arcs →
    cwp (await expired ← TakeEntry slot;
         match expired with
         | Some e => perform UnlockSlot slot; retire_entries [e] ≫= λ _, Ret Again
         | None => open_pool self slot
         end)%prog (turn_ok self slot) h') as Htake.
  { intros h' K. call_step K. destruct r0 as [e|]; [|by eapply cwp_open_pool].
    call_step K. eapply (cwp_retire_again _ _ (Some e)); [exact K|].
    by apply submseteq_skip, submseteq_nil_l. }
  wp_step. destruct cached as [e|]; [|by wp_step; apply Htake].
  wp_step. apply cwp_expired_at. intros expired l [_ K] _. rewrite Hh in K. wp_step.
  destruct expired; [by apply Htake|]. by eapply cwp_use_cached.
Qed.

Definition lease_ok (self : ConnectionContext) (r : option (AppResult CachedLease))
    (h : cache_history) : Prop :=
  ∀ lease, r = Some (Ok lease) →
    cl_pin lease = cx_pin self ∧ cl_access lease = cx_access self ∧ handed_out lease h.

Lemma cwp_connect_loop fuel self slot arcs h :
  held h = in_slot_of (cache_key (cx_pin self) (cx_access self)) slot None None arcs →
  cwp (connect_loop fuel self slot) (lease_ok self) h.
Proof.
  revert arcs h. induction fuel as [|fuel IH]; intros arcs h Hh; cbn [connect_loop]; [done|].
  wp_step. eapply wp_mono; [|by eapply cwp_connect_turn].
  intros [|r] h' Ht; [destruct Ht as [a K]; by eapply IH|].
  wp_step. intros lease [= ->]. exact Ht.
Qed.

(** Under a read guard, before the map of slots is used. *)
Definition reading (arcs : list nat) : Held :=
  {| hd_gate := ReadGuard; hd_lock := None; hd_seen := None; hd_slot := None; hd_arcs := arcs;
     hd_keys := None; hd_change := None; hd_wrapped := false |}.

Lemma cwp_connect fuel self h :
  held h = reading [] → cwp (connect fuel self) (lease_ok self) h.
Proof.
  intros Hh. unfold connect. unfold reading in Hh. call_step Hh. by eapply cwp_connect_loop.
Qed.
(** ** Requests *)

Definition leases (r : option (AppResult CachedLease)) (h : cache_history) : Prop :=
  ∀ lease, r = Some (Ok lease) → handed_out lease h.
Definition outcome_ok (o : Outcome) (h : cache_history) : Prop :=
  match o with Leased lease => handed_out lease h | Finished => True end.

Lemma lease_ok_leases self r h : lease_ok self r h → leases r h.
Proof. intros H lease E. apply (H lease E). Qed.

Lemma held_lifted (l : cache_history) h arcs : keeps h (l ++ h) → held h = reading arcs →
  held (l ++ h) = reading arcs.
Proof. intros [_ H] E. by rewrite H. Qed.

Lemma cwp_gated_pin id access (Q : AppResult ConnectionContext → cache_history → Prop) :
  (∀ r h, held h = reading [] → Q r h) →
  cwp (gated_pin id access) Q [].
Proof.
  intros HQ. unfold gated_pin. wp_step; [done|]. apply cwp_idle; [apply idle_lift|].
  intros context h [_ K]. by apply HQ.
Qed.

Lemma cwp_acquire fuel id access : cwp (acquire fuel id access) leases [].
Proof.
  unfold acquire. wp_step. apply cwp_gated_pin. intros [self|e] h Hh; [|by wp_step].
  eapply wp_mono; [apply lease_ok_leases|]. by eapply cwp_connect.
Qed.

Lemma cwp_operation_scope_connect fuel id view access :
  cwp (operation_scope_connect fuel id view access) leases [].
Proof.
  unfold operation_scope_connect. wp_step; [done|]. wp_step. apply cwp_idle; [apply idle_lift|].
  intros [pin|e] h1 [_ K1]; [|by wp_step]. cbn in K1.
  wp_step. apply cwp_idle; [apply idle_lift|]. intros [authorization|e] h2 [_ K2]; [|by wp_step].
  wp_step. apply cwp_pin_current. intros [[]|e] l [_ K3] _; [|by wp_step].
  eapply wp_mono; [apply lease_ok_leases|]. eapply cwp_connect. by rewrite K3, K2, K1.
Qed.

Lemma idle_reauthorize pin access : idle (reauthorize pin access).
Proof.
  unfold reauthorize. destruct (pc_requires_remote_rbac pin); [|done].
  by apply idle_bind; [apply idle_lift|].
Qed.

Lemma cwp_test_fresh self h (Q : AppResult unit → cache_history → Prop) :
  held h = reading [] → (∀ r h', Q r h') → cwp (test_fresh self) Q h.
Proof.
  intros Hh HQ. unfold test_fresh. cbv zeta. wp_step.
  eapply wp_mono; [|apply cwp_connect_authorized; by rewrite Hh].
  intros [opened|e] h1 [[E1 K1] Ho]; [|apply HQ].
  destruct (Ho opened eq_refl) as (l & h0 & profile & secret & Hl).
  assert (∀ h', extends h1 h' → held h' = held h1 → opened_in opened h') as Hop.
  { intros h' E K. eapply opened_in_extends; [exact E|by rewrite K|].
    eapply opened_at; [exact Hl|done|by rewrite K1, Hh]. }
  assert (∀ A (a : A) h', extends h1 h' → held h' = held h1 →
    ∀ r, cwp (retire_opened opened ≫= λ _, Ret r) Q h') as Hret.
  { intros A a h' E K r. wp_step. eapply wp_mono; [|by apply cwp_retire_opened, Hop].
    intros ? h'' _. wp_step. apply HQ. }
  wp_step. apply cwp_idle; [apply idle_reauthorize|]. intros [[]|e] h2 [E2 K2]; [|by apply (Hret _ tt)].
  wp_step. apply cwp_idle; [apply idle_lift|]. intros [current|e] h3 [E3 K3];
    [|apply (Hret _ tt); [by etrans|congruence]].
  wp_step. apply cwp_idle; [destruct current; [apply idle_expired_at|done]|].
  intros [] h4 [E4 K4].
  - apply (Hret _ tt); [etrans; [exact E2|by etrans]|congruence].
  - wp_step; [done|]. apply (Hret _ tt); [|cbn; congruence].
    etrans; [exact E2|etrans; [exact E3|etrans; [exact E4|by eexists [_]]]].
Qed.

(** Under the write guard. *)
Definition writing (arcs : list nat) (keys : option (list ConnectionCacheKey))
    (change : option (ConnectionCacheKey → bool)) : Held :=
  {| hd_gate := WriteGuard; hd_lock := None; hd_seen := None; hd_slot := None; hd_arcs := arcs;
     hd_keys := keys; hd_change := change; hd_wrapped := false |}.

Lemma without_key_in k key keys : k ∈ without_key key keys ↔ k ∈ keys ∧ k ≠ key.
Proof.
  unfold without_key. rewrite !list_elem_of_In, filter_In. by case_bool_decide; naive_solver.
Qed.

Lemma cwp_detach_keys keys arcs known change h :
  held h = writing arcs (Some known) change →
  cwp (detach_keys keys)
    (λ retired h', ∃ arcs' known', held h' = writing arcs' (Some known') change
       ∧ map ce_arc retired ++ arcs ⊆+ arcs'
       ∧ ∀ k, k ∈ known' → k ∈ known ∧ k ∉ keys) h.
Proof.
  revert arcs known h. induction keys as [|key keys IH]; intros arcs known h Hh; cbn [detach_keys].
  - wp_step. exists arcs, known. split_and!; [done|done|]. intros k Hk. split; [done|].
    apply not_elem_of_nil.
  - unfold writing in Hh. call_step Hh. destruct r as [slot|].
    + call_step Hh. call_step Hh. call_step Hh. wp_step.
      eapply wp_mono; [|by eapply IH]. intros retired h' (arcs' & known' & K & Ha & Hk).
      wp_step. exists arcs', known'. split_and!; [done| |].
      * etrans; [|exact Ha]. destruct r0 as [e|]; cbn; [|done]. by rewrite Permutation_middle.
      * intros k Hin. destruct (Hk k Hin) as [H1 H2]. apply without_key_in in H1 as [H1 H3].
        split; [done|]. by apply not_elem_of_cons.
    + eapply wp_mono; [|by eapply IH]. intros retired h' (arcs' & known' & K & Ha & Hk).
      exists arcs', known'. split_and!; [done|done|].
      intros k Hin. destruct (Hk k Hin) as [H1 H2]. apply without_key_in in H1 as [H1 H3].
      split; [done|]. by apply not_elem_of_cons.
Qed.

Lemma cwp_publish_change wanted arcs keys h :
  held h = writing arcs keys (Some wanted) → cwp (publish_change wanted) (λ _ _, True) h.
Proof.
  intros Hh. unfold publish_change, detach. wp_step. unfold writing in Hh. call_step Hh.
  eapply wp_mono; [|by eapply cwp_detach_keys]. intros retired h' (arcs' & known & K & Ha & Hk).
  wp_step; [split; [cbn; by rewrite K|]|].
  - rewrite K. intros w [= <-]. exists known. split; [done|]. apply Forall_forall. intros k Hin.
    destruct (Hk k Hin) as [H1 H2]. destruct (wanted k) eqn:Hw; [|done]. destruct H2.
    apply list_elem_of_In, filter_In. split; [by apply list_elem_of_In|done].
  - unfold writing in K. follow K. eapply wp_mono; [|apply cwp_retire_entries; rewrite K; [|done]].
    + done.
    + cbn. etrans; [|exact Ha]. by apply submseteq_inserts_r.
Qed.

Lemma cwp_change_scope change : cwp (change_scope change) (λ _ _, True) [].
Proof.
  unfold change_scope. assert (held [] = nothing_held) as Hh by done. unfold nothing_held in Hh.
  call_step Hh. call_step Hh. wp_step; [|done]. destruct r0 as [[]|]; [|done]. cbn in Hh.
  wp_step. eapply wp_mono; [|by eapply cwp_publish_change]. intros _ h' _. by wp_step.
Qed.

Lemma cwp_change_material authority ids :
  cwp (change_material authority ids) (λ _ _, True) [].
Proof.
  unfold change_material. assert (held [] = nothing_held) as Hh by done. unfold nothing_held in Hh.
  call_step Hh. wp_step. apply cwp_idle.
  { destruct authority as [[id access]|]; [|done]. by apply idle_bind; [apply idle_lift|]. }
  intros [[]|e] h [_ K]; [|done]. rewrite Hh in K. call_step K. wp_step; [|done].
  destruct r0 as [[]|]; [|done]. cbn in K.
  wp_step. eapply wp_mono; [|by eapply cwp_publish_change]. intros _ h' _. by wp_step.
Qed.

Lemma cwp_expiry_task slot generation delay :
  cwp (expiry_task slot generation delay) (λ _ _, True) [].
Proof.
  unfold expiry_task. assert (held [] = nothing_held) as Hh by done. unfold nothing_held in Hh.
  call_step Hh. call_step Hh. call_step Hh. call_step Hh. wp_step. wp_if Hb.
  - call_step Hh. wp_step. call_step Hh. destruct r3 as [e|]; [|done].
    eapply wp_mono; [|apply cwp_retire_entries; rewrite Hh; done]. done.
  - wp_step. by call_step Hh.
Qed.

(** Every task keeps the discipline, and returns only leases that were checked. *)
Lemma cwp_request fuel r : cwp (request_program fuel r) outcome_ok [].
Proof.
  assert (∀ r h, leases r h → outcome_ok (leased r) h) as Hl.
  { intros [[lease|e]|] h H; try done. by apply H. }
  destruct r as [id access|id view access|id access|change|authority ids]; cbn [request_program].
  - apply (wp_bind _ _ (acquire fuel id access)).
    eapply wp_mono; [|apply cwp_acquire]. intros o h H. wp_step. by apply Hl.
  - apply (wp_bind _ _ (operation_scope_connect fuel id view access)).
    eapply wp_mono; [|apply cwp_operation_scope_connect]. intros o h H. wp_step. by apply Hl.
  - wp_step. apply cwp_gated_pin. intros [self|e] h Hh; [|by wp_step]. wp_step.
    apply cwp_test_fresh; [done|]. intros. by wp_step.
  - wp_step. eapply wp_mono; [|apply cwp_change_scope]. intros. by wp_step.
  - wp_step. eapply wp_mono; [|apply cwp_change_material]. intros. by wp_step.
Qed.

Lemma cwp_spawned c t : t ∈ spawned c → cwp (tk_program t) outcome_ok (tk_history t).
Proof.
  destruct c; cbn; intros H; try by apply not_elem_of_nil in H.
  apply list_elem_of_singleton in H as ->. cbn [start tk_program tk_history].
  apply (wp_bind _ _ (expiry_task slot generation delay)).
  eapply wp_mono; [|apply cwp_expiry_task]. intros. by wp_step.
Qed.

Lemma cwp_release_task lease :
  cwp (release_optional lease ≫= λ _, Ret Finished) outcome_ok [].
Proof.
  apply (wp_bind _ _ (release_optional lease)).
  apply cwp_idle; [apply idle_release_optional|]. intros. by wp_step.
Qed.
End programs.
