(* ===== verification/CacheInvariant.v ===== *)
(** * What holds between the tasks of the connection manager

    [resources] is the invariant of the shared state and of what every task owns:
    the gate and the mutexes exclude each other, a task's slot stays in the map,
    what was seen under a mutex stays there, and an [Arc] that is owned or cached
    is not one whose entry was moved out. *)

From S2P Require Export CacheTheorems.

Section resources.
Context {P : Platform}.

Definition owner := nat → Held.
Definition owned (m : Machine) : owner :=
  λ i, from_option task_held nothing_held (mc_tasks m !! i).
Definition own (i : nat) (h : Held) (o : owner) : owner := λ j, if decide (j = i) then h else o j.

Definition in_use (a : nat) (s : Shared) : Prop :=
  (a < length (sh_entries s))%nat ∧ a ∉ sh_consumed s.

Record resources (s : Shared) (o : owner) : Prop := {
  rs_gate : ∀ i j, i ≠ j → hd_gate (o i) = WriteGuard → hd_gate (o j) = NoGuard;
  rs_lock : ∀ i j x, i ≠ j → hd_lock (o i) = Some x → hd_lock (o j) ≠ Some x;
  rs_nodup : NoDup (sh_slots s).*1;
  rs_map : ∀ k x, (k, x) ∈ sh_slots s → sl_key <$> sh_heap s !! x = Some k;
  rs_slot : ∀ i k x, hd_slot (o i) = Some (k, x) →
    hd_gate (o i) = ReadGuard ∧ (k, x) ∈ sh_slots s ∧ ∀ y, hd_lock (o i) = Some y → y = x;
  rs_seen : ∀ i x v, hd_lock (o i) = Some x → hd_seen (o i) = Some v → slot_entry x s = v;
  rs_arcs : ∀ i a, a ∈ hd_arcs (o i) → in_use a s;
  rs_entries : ∀ x e, slot_entry x s = Some e → in_use (ce_arc e) s;
  rs_consumed : ∀ a, a ∈ sh_consumed s → (a < length (sh_entries s))%nat;
  rs_listed : ∀ i ks, hd_gate (o i) = WriteGuard → hd_keys (o i) = Some ks →
    ∀ k, k ∈ (sh_slots s).*1 → k ∈ ks;
}.

(** What the other tasks leave free. *)
Definition gate_open (g : Gate) (o : owner) : Prop :=
  ∀ j, match g with
       | NoGuard => True
       | ReadGuard => hd_gate (o j) ≠ WriteGuard
       | WriteGuard => hd_gate (o j) = NoGuard
       end.
Definition unlocked (x : nat) (o : owner) : Prop := ∀ j, hd_lock (o j) ≠ Some x.

(** No [Arc] but those of task [i]. *)
Definition unshared (a i : nat) (s : Shared) (o : owner) : Prop :=
  (∀ j, j ≠ i → a ∉ hd_arcs (o j)) ∧ ∀ x e, slot_entry x s = Some e → ce_arc e ≠ a.

Lemma own_same i h o : own i h o i = h.
Proof. unfold own. by rewrite decide_True. Qed.
Lemma own_other i j h o : j ≠ i → own i h o j = o j.
Proof. intros. unfold own. by rewrite decide_False. Qed.

End resources.

(** The same fact about the state before. *)
Ltac before R :=
  first [ by eapply (rs_gate _ _ R) | by eapply (rs_lock _ _ R) | by eapply (rs_nodup _ _ R)
        | by eapply (rs_map _ _ R) | by eapply (rs_slot _ _ R) | by eapply (rs_seen _ _ R)
        | by eapply (rs_arcs _ _ R) | by eapply (rs_entries _ _ R) | by eapply (rs_consumed _ _ R)
        | by eapply (rs_listed _ _ R) ].
Ltac at_task R :=
  unfold own in *; intros; repeat case_decide; subst; cbn in *; try done; try congruence;
  try before R.

Section preservation.
Context {P : Platform}.

(** ** The gate *)

Section steps.
Context (s : Shared) (o : owner) (i : nat) (R : resources s o).

Lemma resources_same : resources s (own i (o i) o).
Proof. split; at_task R. Qed.

(** A change of what the invariant does not read. *)
Lemma resources_change w : resources s (own i (set_change w (o i)) o).
Proof. split; at_task R. Qed.

Lemma resources_read :
  hd_slot (o i) = None → gate_open ReadGuard o → resources s (own i (set_gate ReadGuard (o i)) o).
Proof. intros Hs Hg. split; at_task R. Qed.

Lemma resources_write :
  hd_slot (o i) = None → gate_open WriteGuard o → resources s (own i (set_gate WriteGuard (o i)) o).
Proof. intros Hs Hg. split; at_task R. Qed.

Lemma resources_release :
  hd_slot (o i) = None → resources s (own i (set_gate NoGuard (o i)) o).
Proof. intros Hs. split; at_task R. Qed.
(** ** The map of slots *)

Lemma find_slot_Some key x : find_slot key s = Some x → (key, x) ∈ sh_slots s.
Proof.
  unfold find_slot. destruct (List.find _ _) as [[k y]|] eqn:Hf; [|done].
  intros [= ->]. apply find_some in Hf as [Hin Hk]. cbn in Hk. apply bool_decide_eq_true in Hk as ->.
  by apply list_elem_of_In.
Qed.

Lemma find_slot_None key : find_slot key s = None → key ∉ (sh_slots s).*1.
Proof.
  unfold find_slot. destruct (List.find _ _) as [[k y]|] eqn:Hf; [done|]. intros _ Hin.
  apply list_elem_of_fmap in Hin as ([k x] & -> & Hin). apply list_elem_of_In in Hin.
  eapply find_none in Hf; [|exact Hin]. cbn in Hf. by apply bool_decide_eq_false in Hf.
Qed.

Definition new_slot (key : ConnectionCacheKey) : Shared :=
  with_slots ((key, length (sh_heap s)) :: sh_slots s)
    (with_heap (sh_heap s ++ [{| sl_key := key; sl_entry := None |}]) s).

Lemma slot_entry_new key x : slot_entry x (new_slot key) = slot_entry x s.
Proof.
  unfold slot_entry. cbn. destruct (decide (x < length (sh_heap s))%nat).
  - by rewrite lookup_app_l.
  - rewrite lookup_app_r, (lookup_ge_None_2 (sh_heap s) x) by lia.
    by destruct (x - length (sh_heap s))%nat as [|[|n']].
Qed.

Lemma resources_slot_entry key x s' :
  hd_gate (o i) = ReadGuard → hd_lock (o i) = None → (x, s') = slot_for key s →
  resources s' (own i (set_slot (key, x) (o i)) o).
Proof.
  intros Hg Hl. unfold slot_for. destruct (find_slot key s) as [y|] eqn:Hf; intros [= -> ->].
  { apply find_slot_Some in Hf. split; at_task R. injection H as <- <-. split_and!; congruence. }
  apply find_slot_None in Hf. fold (new_slot key). split; at_task R.
  - constructor; [done|apply R].
  - apply elem_of_cons in H as [[= -> ->]|H]; [by rewrite lookup_app_r, Nat.sub_diag|].
    pose proof (rs_map _ _ R k x H) as Hm. destruct (sh_heap s !! x) as [c|] eqn:Hx; [|done].
    by rewrite (lookup_app_l_Some _ _ _ _ Hx).
  - injection H as <- <-. split_and!; [done|left|congruence].
  - destruct (rs_slot _ _ R _ _ _ H) as (? & ? & ?). split_and!; [done|by right|done].
  - rewrite slot_entry_new. before R.
  - rewrite slot_entry_new in H. before R.
  - pose proof (rs_gate _ _ R i0 i H2 H). congruence.
Qed.

Lemma resources_slot_keys keys :
  keys = (sh_slots s).*1 → resources s (own i (set_keys (Some keys) (o i)) o).
Proof. intros ->. split; at_task R. Qed.

Lemma remaining_slots key k x :
  (k, x) ∈ List.filter (λ p, negb (bool_decide (p.1 = key))) (sh_slots s) ↔
  (k, x) ∈ sh_slots s ∧ k ≠ key.
Proof.
  rewrite !list_elem_of_In, filter_In. cbn. by case_bool_decide; naive_solver.
Qed.

Lemma remaining_keys key k :
  k ∈ (List.filter (λ p, negb (bool_decide (p.1 = key))) (sh_slots s)).*1 →
  k ∈ (sh_slots s).*1 ∧ k ≠ key.
Proof.
  intros ([k' x] & -> & [Hin Hk]%remaining_slots)%list_elem_of_fmap. split; [|done].
  apply list_elem_of_fmap. by exists (k', x).
Qed.

Lemma resources_remove_slot key x s' :
  hd_gate (o i) = WriteGuard → hd_slot (o i) = None → (x, s') = remove_slot key s →
  resources s' (own i (set_keys (without_key key <$> hd_keys (o i)) (o i)) o).
Proof.
  intros Hg Hs [= -> ->]. split; at_task R.
  - pose proof (rs_nodup _ _ R) as Hn. clear -Hn. induction (sh_slots s) as [|[k x] l IH]; [done|].
    cbn in *. apply NoDup_cons in Hn as [Hk Hn]. case_bool_decide; cbn; [by apply IH|].
    constructor; [|by apply IH]. contradict Hk.
    apply list_elem_of_fmap in Hk as ([k' y] & -> & [Hin _]%list_elem_of_In%filter_In).
    apply list_elem_of_fmap. exists (k', y). split; [done|by apply list_elem_of_In].
  - apply remaining_slots in H as [H _]. before R.
  - destruct (rs_slot _ _ R _ _ _ H) as (Hr & _). pose proof (rs_gate _ _ R i i0). naive_solver congruence.
  - destruct (hd_keys (o i)) as [known|] eqn:Hk; [|done]. injection H0 as <-.
    apply remaining_keys in H1 as [H1 H2]. apply without_key_in. split; [before R|done].
  - apply remaining_keys in H1 as [H1 _]. before R.
Qed.

(** ** The mutex of a slot *)

Lemma resources_lock x :
  hd_lock (o i) = None → (∀ p, hd_slot (o i) = Some p → x = p.2) → unlocked x o →
  resources s (own i (set_lock (Some x) None (o i)) o).
Proof.
  intros Hl Hs Hu. split; at_task R.
  destruct (rs_slot _ _ R _ _ _ H) as (? & ? & ?). split_and!; [done|done|].
  intros y [= <-]. by apply (Hs (k, x0)).
Qed.

Lemma resources_unlock : resources s (own i (set_lock None None (o i)) o).
Proof.
  split; at_task R. destruct (rs_slot _ _ R _ _ _ H) as (? & ? & ?). by split_and!.
Qed.

(** The slot of a task is one the map holds. *)
Lemma slot_entry_put x y e :
  slot_entry y (put_entry x e s) =
    if decide (x = y) then (if decide (x < length (sh_heap s))%nat then e else None)
    else slot_entry y s.
Proof.
  unfold slot_entry, put_entry. cbn. destruct (decide (x = y)) as [->|Hn].
  - rewrite list_lookup_alter_eq. case_decide as Hx.
    + by apply lookup_lt_is_Some in Hx as [c ->].
    + by rewrite lookup_ge_None_2 by lia.
  - by rewrite list_lookup_alter_ne.
Qed.

Lemma put_entry_key x y e :
  sl_key <$> sh_heap (put_entry x e s) !! y = sl_key <$> sh_heap s !! y.
Proof.
  cbn. destruct (decide (x = y)) as [->|Hn].
  - rewrite list_lookup_alter_eq. by destruct (sh_heap s !! y).
  - by rewrite list_lookup_alter_ne.
Qed.

Lemma resources_entry_ref x e :
  hd_lock (o i) = Some x → e = slot_entry x s →
  resources s (own i (set_lock (Some x) (Some e) (o i)) o).
Proof. intros Hl ->. rewrite <-Hl. split; at_task R. Qed.

(** Another task's knowledge is not of this slot. *)
Lemma seen_elsewhere x j y v e :
  hd_lock (o i) = Some x → j ≠ i → hd_lock (o j) = Some y → hd_seen (o j) = Some v →
  slot_entry y (put_entry x e s) = v.
Proof.
  intros Hl Hj Hy Hv. rewrite slot_entry_put. rewrite decide_False; [before R|].
  intros ->. by eapply (rs_lock _ _ R j i y).
Qed.

Lemma resources_put x e v arcs :
  hd_lock (o i) = Some x → e = None ∨ (x < length (sh_heap s))%nat →
  (∀ a, a ∈ arcs → in_use a s) → (∀ e', e = Some e' → in_use (ce_arc e') s) → v = Some e →
  resources (put_entry x e s) (own i (set_arcs arcs (set_lock (Some x) v (o i))) o).
Proof.
  intros Hl Hx Ha He ->. rewrite <-Hl. split; at_task R.
  - pose proof (put_entry_key x x0 e) as Hk. cbn in Hk. rewrite Hk. before R.
  - rewrite slot_entry_put. destruct (decide _) as [->|]; [|congruence]. injection H0 as ->.
    destruct Hx as [->|Hx]; [by case_decide|by rewrite decide_True].
  - by eapply seen_elsewhere.
  - by apply Ha.
  - rewrite slot_entry_put in H. destruct (decide _); [|before R].
    case_decide; [|done]. by apply He.
Qed.

(** ** [Arc]s *)

Lemma resources_arcs arcs :
  (∀ a, a ∈ arcs → in_use a s) → resources s (own i (set_arcs arcs (o i)) o).
Proof. intros Ha. split; at_task R. by apply Ha. Qed.

Lemma in_use_allocate a e : in_use a s → in_use a (allocate e s).
Proof. intros [H H']. split; [cbn; rewrite length_app; lia|done]. Qed.

Lemma resources_new e :
  ce_arc e = length (sh_entries s) →
  resources (allocate e s) (own i (set_wrapped (set_arcs (ce_arc e :: hd_arcs (o i)) (o i))) o).
Proof.
  intros He. split; at_task R.
  - apply elem_of_cons in H as [->|H]; [|by apply in_use_allocate; before R]. split.
    + cbn. rewrite length_app. cbn. lia.
    + cbn. intros Hc. apply (rs_consumed _ _ R) in Hc. lia.
  - apply in_use_allocate. before R.
  - apply in_use_allocate. before R.
  - apply (rs_consumed _ _ R) in H. rewrite length_app. lia.
Qed.

Lemma in_use_consume a b : a ≠ b → in_use a s → in_use a (consume b s).
Proof. intros Hn [H H']. split; [done|]. cbn. by apply not_elem_of_cons. Qed.

Lemma resources_consume a arcs :
  unshared a i s o → in_use a s → (∀ b, b ∈ arcs → b ≠ a ∧ b ∈ hd_arcs (o i)) →
  resources (consume a s) (own i (set_arcs arcs (o i)) o).
Proof.
  intros [Ho Hs] Hu Ha. split; at_task R.
  - destruct (Ha _ H) as [Hn Hi]. apply in_use_consume; [done|before R].
  - apply in_use_consume; [|before R]. intros ->. by apply (Ho i0).
  - apply in_use_consume; [by eapply Hs|before R].
  - apply elem_of_cons in H as [->|H]; [apply Hu|before R].
Qed.

Lemma resources_rest now g :
  resources {| sh_now := now; sh_slots := sh_slots s; sh_heap := sh_heap s; sh_next_generation := g;
               sh_entries := sh_entries s; sh_consumed := sh_consumed s |} o.
Proof. split; at_task R. Qed.
End steps.

Lemma resources_ext s o o' : (∀ j, o' j = o j) → resources s o → resources s o'.
Proof. intros E R. split; intros; rewrite ?E in *; before R. Qed.

Lemma unique_slot s o k x y :
  resources s o → (k, x) ∈ sh_slots s → (k, y) ∈ sh_slots s → x = y.
Proof.
  intros R. pose proof (rs_nodup _ _ R) as Hn. induction (sh_slots s) as [|[k' z] l IH];
    [by intros ?%not_elem_of_nil|]. cbn in Hn. apply NoDup_cons in Hn as [Hk Hn].
  assert (∀ y, (k', y) ∉ l) as Hf.
  { intros w Hw. apply Hk, list_elem_of_fmap. by exists (k', w). }
  intros [Hx|Hx]%elem_of_cons [Hy|Hy]%elem_of_cons; [congruence| | |by apply IH].
  - injection Hx as -> ->. by destruct (Hf y).
  - injection Hy as -> ->. by destruct (Hf x).
Qed.

(** ** Any call *)

(** [cache_respond] with what the other tasks own. *)
Definition responds (s : Shared) (o : owner) (i : nat) (c : CacheCall.t)
  : CacheCall.res c → Shared → Prop :=
  match c with
  | GateRead => λ _ s', gate_open ReadGuard o ∧ s' = s
  | GateWrite => λ _ s', gate_open WriteGuard o ∧ s' = s
  | SlotEntry key => λ slot s', (slot, s') = slot_for key s
  | SlotKeys => λ keys s', keys = (sh_slots s).*1 ∧ s' = s
  | RemoveSlot key => λ slot s', (slot, s') = remove_slot key s
  | LockSlot slot => λ _ s', unlocked slot o ∧ s' = s
  | EntryRef slot => λ e s', e = slot_entry slot s ∧ s' = s
  | TakeEntry slot => λ e s', e = slot_entry slot s ∧ s' = put_entry slot None s
  | SetEntry slot e => λ _ s', s' = put_entry slot (Some e) s
  | NewEntry opened generation => λ e s', ce_arc e = length (sh_entries s) ∧ s' = allocate e s
  | TryUnwrap e => λ unique s',
      if unique : bool
      then (unshared (ce_arc e) i s o ∧ ce_arc e ∉ remove_one (ce_arc e) (hd_arcs (o i)))
           ∧ s' = consume (ce_arc e) s
      else s' = s
  | NextGeneration => λ g s', s' = bump_generation s
  | _ => λ _ s', s' = s
  end.

Lemma resources_call s o i c r s' :
  resources s o → obeys (o i) c → responds s o i c r s' →
  resources s' (own i (held_after c r (o i)) o).
Proof.
  intros R. destruct c; cbn; intros Hc Hr;
    try (subst; by apply resources_same); try destruct_and!; try subst s'.
  - by apply resources_read.
  - by apply resources_write.
  - by apply resources_release.
  - by eapply resources_slot_entry.
  - subst r. by apply resources_slot_keys.
  - by eapply resources_remove_slot.
  - by apply resources_lock.
  - by apply resources_unlock.
  - by apply resources_entry_ref.
  - apply resources_put; [done|done|by left| |done|done]. subst r.
    intros a Ha. apply elem_of_app in Ha as [Ha|Ha]; [|before R].
    destruct (slot_entry slot s) as [e|] eqn:He; [|by apply not_elem_of_nil in Ha].
    apply list_elem_of_singleton in Ha as ->. before R.
  - destruct (hd_slot (o i)) as [[k x]|] eqn:Hs; [|done]. destruct (rs_slot _ _ R _ _ _ Hs) as (_ & Hm & _).
    apply (rs_map _ _ R) in Hm. injection H2 as ->.
    replace (set_lock (Some slot) (Some (Some entry)) (o i))
      with (set_arcs (hd_arcs (o i)) (set_lock (Some slot) (Some (Some entry)) (o i))) by done.
    apply resources_put; [done|done| |intros; before R|intros ? [= <-]; before R|done].
    right. apply lookup_lt_is_Some. destruct (sh_heap s !! slot); [done|by cbn in Hm].
  - by apply resources_new.
  - apply resources_arcs; [done|]. intros a Ha. apply elem_of_cons in Ha as [->|Ha]; [|before R].
    destruct H0 as [x Hx]. eapply (rs_entries _ _ R x). by eapply (rs_seen _ _ R).
  - apply resources_arcs; [done|]. intros a Ha. apply remove_one_incl in Ha. before R.
  - destruct r; [destruct Hr as [[Hu Hn] ->]|subst].
    + apply resources_consume; [done|done|before R|]. intros b Hb.
      split; [by intros ->|by apply remove_one_incl in Hb].
    + apply resources_arcs; [done|]. intros a Ha. apply remove_one_incl in Ha. before R.
  - apply (resources_ext _ o); [|by apply resources_rest]. intros j. unfold own. by case_decide; subst.
  - destruct (is_ok r); [by apply resources_change|by apply resources_same].
  - destruct (is_ok r); [by apply resources_change|by apply resources_same].
Qed.
(** ** From tasks to owners *)

Lemma owned_lookup m i t : mc_tasks m !! i = Some t → owned m i = task_held t.
Proof. unfold owned. by intros ->. Qed.

Definition fresh_tasks (l : list Task) : Prop := Forall (λ t, task_held t = nothing_held) l.

Lemma owned_update s s' tasks i t t' l j :
  tasks !! i = Some t → fresh_tasks l →
  owned {| mc_shared := s'; mc_tasks := <[i := t']> tasks ++ l |} j
  = own i (task_held t') (owned {| mc_shared := s; mc_tasks := tasks |}) j.
Proof.
  intros Hi Hl. unfold owned, own. cbn. assert (i < length tasks)%nat as Hlt by by apply lookup_lt_Some in Hi.
  case_decide as Hj; subst.
  - rewrite lookup_app_l by (by rewrite length_insert). by rewrite list_lookup_insert_eq.
  - destruct (decide (j < length tasks)%nat).
    + rewrite lookup_app_l by (by rewrite length_insert). by rewrite list_lookup_insert_ne.
    + rewrite lookup_app_r, length_insert, (lookup_ge_None_2 tasks j) by (rewrite ?length_insert; lia).
      destruct (l !! _) as [x|] eqn:Hx; [|done]. by apply (Forall_lookup_1 _ _ _ _ Hl) in Hx.
Qed.

Lemma owned_app s s' tasks l j :
  fresh_tasks l →
  owned {| mc_shared := s'; mc_tasks := tasks ++ l |} j
  = owned {| mc_shared := s; mc_tasks := tasks |} j.
Proof.
  intros Hl. unfold owned. cbn. destruct (decide (j < length tasks)%nat).
  - by rewrite lookup_app_l.
  - rewrite lookup_app_r, (lookup_ge_None_2 tasks j) by lia.
    destruct (l !! _) as [x|] eqn:Hx; [|done]. by apply (Forall_lookup_1 _ _ _ _ Hl) in Hx.
Qed.

Lemma fresh_spawned c : fresh_tasks (spawned c).
Proof. destruct c; repeat constructor. Qed.

Lemma Forall_owned (Q : Held → Prop) m :
  Q nothing_held → Forall (λ t, Q (task_held t)) (mc_tasks m) → ∀ j, Q (owned m j).
Proof.
  intros H0 H j. unfold owned. destruct (mc_tasks m !! j) as [t|] eqn:Hj; [|done].
  by apply (Forall_lookup_1 _ _ _ _ H) in Hj.
Qed.

Lemma gate_free_open g m : gate_free g (mc_tasks m) → gate_open g (owned m).
Proof.
  intros H. refine (Forall_owned (λ h, match g with NoGuard => True
    | ReadGuard => hd_gate h ≠ WriteGuard | WriteGuard => hd_gate h = NoGuard end) m _ H).
  by destruct g.
Qed.
Lemma lock_free_unlocked x m : lock_free x (mc_tasks m) → unlocked x (owned m).
Proof. intros H. by refine (Forall_owned (λ h, hd_lock h ≠ Some x) m _ H). Qed.

(** Counting the [Arc]s of one allocation. *)
Lemma sum_at {A} (f : A → nat) l i x : l !! i = Some x → (f x ≤ sum_list_with f l)%nat.
Proof.
  revert i. induction l as [|y l IH]; intros [|i] H; cbn in *; [done|done|injection H as ->; lia|].
  apply IH in H. lia.
Qed.
Lemma sum_at2 {A} (f : A → nat) l i j x y :
  i ≠ j → l !! i = Some x → l !! j = Some y → (f x + f y ≤ sum_list_with f l)%nat.
Proof.
  revert i j. induction l as [|z l IH]; intros [|i] [|j] Hn Hx Hy; cbn in *; try done.
  - injection Hx as ->. apply (sum_at f) in Hy. lia.
  - injection Hy as ->. apply (sum_at f) in Hx. lia.
  - pose proof (IH i j ltac:(lia) Hx Hy). lia.
Qed.

Definition count (a : nat) (h : Held) : nat := count_occ Nat.eq_dec (hd_arcs h) a.

Lemma count_in a h : a ∈ hd_arcs h ↔ (0 < count a h)%nat.
Proof. unfold count. rewrite list_elem_of_In. apply count_occ_In. Qed.
Lemma count_remove_one a h :
  a ∈ hd_arcs h → count a h = S (count_occ Nat.eq_dec (remove_one a (hd_arcs h)) a).
Proof.
  intros H. unfold count.
  rewrite (proj1 (Permutation_count_occ Nat.eq_dec _ _) (remove_one_perm a _ H) a).
  by rewrite count_occ_cons_eq.
Qed.

Lemma in_slot_count a m x e :
  slot_entry x (mc_shared m) = Some e → ce_arc e = a →
  (0 < length (List.filter (in_slot a) (sh_heap (mc_shared m))))%nat.
Proof.
  unfold slot_entry. intros Hx Ha. destruct (sh_heap (mc_shared m) !! x) as [c|] eqn:Hc; [|done].
  cbn in Hx. assert (In c (List.filter (in_slot a) (sh_heap (mc_shared m)))) as Hin.
  { apply filter_In. split; [by eapply list_elem_of_In, list_elem_of_lookup_2|].
    unfold in_slot. rewrite Hx. cbn. rewrite Ha. by apply bool_decide_eq_true. }
  destruct (List.filter _ _); [done|cbn; lia].
Qed.

Lemma no_references a m :
  references a m = 0%nat →
  (∀ j, a ∉ hd_arcs (owned m j)) ∧ ∀ x e, slot_entry x (mc_shared m) = Some e → ce_arc e ≠ a.
Proof.
  unfold references. intros H. split.
  - intros j Hj. unfold owned in Hj. destruct (mc_tasks m !! j) as [t|] eqn:Ht; [|by apply not_elem_of_nil in Hj].
    cbn in Hj. apply count_in in Hj. apply (sum_at (λ t, count a (task_held t))) in Ht.
    unfold count in *. lia.
  - intros x e Hx Ha. pose proof (in_slot_count a m x e Hx Ha). lia.
Qed.

Lemma one_reference a m i :
  references a m = 1%nat → a ∈ hd_arcs (owned m i) →
  unshared a i (mc_shared m) (owned m) ∧ a ∉ remove_one a (hd_arcs (owned m i)).
Proof.
  unfold references. intros H Hi. pose proof (count_remove_one a _ Hi) as Hr.
  pose proof Hi as Hc. apply count_in in Hc. unfold owned in Hi, Hc, Hr |- *.
  destruct (mc_tasks m !! i) as [t|] eqn:Ht; [|by apply not_elem_of_nil in Hi]. cbn in *.
  pose proof (sum_at (λ t, count a (task_held t)) _ _ _ Ht) as Hs. unfold count in Hs, Hr, Hc.
  split; [split|].
  - intros j Hj Hin. destruct (mc_tasks m !! j) as [t'|] eqn:Ht'; [|by apply not_elem_of_nil in Hin].
    cbn in Hin. apply count_in in Hin.
    pose proof (sum_at2 (λ t, count a (task_held t)) _ _ _ _ _ Hj Ht' Ht). unfold count in *. lia.
  - intros x e Hx Ha. pose proof (in_slot_count a m x e Hx Ha). lia.
  - intros Hin. rewrite list_elem_of_In in Hin. apply (count_occ_In Nat.eq_dec) in Hin. lia.
Qed.

Lemma respond_responds m i c r s' t :
  mc_tasks m !! i = Some t → obeys (task_held t) c →
  cache_respond m c r s' → responds (mc_shared m) (owned m) i c r s'.
Proof.
  intros Hi Ho. destruct c; cbn; try done.
  - intros [H ->]. split; [by apply gate_free_open|done].
  - intros [H ->]. split; [by apply gate_free_open|done].
  - intros [H ->]. split; [by apply lock_free_unlocked|done].
  - intros [-> ->]. done.
  - intros [-> ->]. cbn in Ho. destruct Ho as [Ho _]. rewrite <-(owned_lookup m i t Hi) in Ho.
    destruct (references (ce_arc entry) m =? 1)%nat eqn:Hr; [|done]. split; [|done].
    apply one_reference; [by apply Nat.eqb_eq|done].
  - by intros [_ ->].
  - by intros [_ ->].
  - by intros [_ ->].
Qed.

Lemma respond_answer m c r s' : cache_respond m c r s' → cache_answer c r.
Proof. destruct c; try done. cbn. by intros [-> _]. Qed.
End preservation.

(** ** Every reachable state of the connection manager keeps [system]

    Each task keeps the discipline of CacheTheorems.v, the shared state the
    invariant of CacheInvariant.v, and a cached pool was opened for the key of its
    slot by a task whose history shows the authority it confirmed. *)

Section system.
Context {P : Platform}.

(** A pool in slot [x] was opened by a task for the key of that slot. *)
Definition opened_for (m : Machine) (x : nat) (e : CacheEntry) : Prop :=
  ∃ i t pin access, mc_tasks m !! i = Some t
    ∧ sl_key <$> sh_heap (mc_shared m) !! x = Some (cache_key pin access)
    ∧ vetted pin access (ce_live e) (tk_history t).

(** What is taken under a mutex is what was seen under it. *)
Fixpoint takes_seen (h : cache_history) : Prop :=
  match h with
  | [] => True
  | Entry c r :: h => takes_seen h
      ∧ match c return CacheCall.res c → Prop with
        | TakeEntry _ => λ r, ∀ v, hd_seen (held h) = Some v → r = v
        | _ => λ _, True
        end r
  end.

(** Every pool a task closed was its own to close. *)
Fixpoint closes_own (h : cache_history) : Prop :=
  match h with
  | [] => True
  | Entry c _ :: h =>
      closes_own h ∧ match c with CloseLive live => closable live h | _ => True end
  end.

Lemma closes_own_app l h : closes_own (l ++ h) → closes_own h.
Proof. induction l as [|[c r] l IH]; [done|]. intros [H _]. by apply IH. Qed.

Record system (m : Machine) : Prop := {
  sy_tasks : ∀ i t, mc_tasks m !! i = Some t → cwp (tk_program t) outcome_ok (tk_history t);
  sy_resources : resources (mc_shared m) (owned m);
  sy_unwrapped : ∀ i t e, mc_tasks m !! i = Some t → Entry (TryUnwrap e) true ∈ tk_history t →
    ce_arc e ∈ sh_consumed (mc_shared m);
  sy_cached : ∀ x e, slot_entry x (mc_shared m) = Some e → opened_for m x e;
  sy_observed : ∀ i t x e, mc_tasks m !! i = Some t → Entry (EntryRef x) (Some e) ∈ tk_history t →
    opened_for m x e;
  sy_honest : ∀ i t, mc_tasks m !! i = Some t → takes_seen (tk_history t);
  sy_closed : ∀ i t, mc_tasks m !! i = Some t → closes_own (tk_history t);
}.

(** Histories only grow, and slots keep their key. *)
Record grows (m m' : Machine) : Prop := {
  gr_tasks : ∀ i t, mc_tasks m !! i = Some t →
    ∃ t', mc_tasks m' !! i = Some t' ∧ extends (tk_history t) (tk_history t');
  gr_keys : ∀ x k, sl_key <$> sh_heap (mc_shared m) !! x = Some k →
    sl_key <$> sh_heap (mc_shared m') !! x = Some k;
  gr_consumed : ∀ a, a ∈ sh_consumed (mc_shared m) → a ∈ sh_consumed (mc_shared m');
}.

#[export] Instance grows_preorder : PreOrder grows.
Proof.
  split.
  - intros m. split; [|done|done]. intros i t H. by exists t.
  - intros m1 m2 m3 H1 H2. split.
    + intros i t H. destruct (gr_tasks _ _ H1 i t H) as (t' & H' & E).
      destruct (gr_tasks _ _ H2 i t' H') as (t'' & H'' & E'). exists t''. split; [done|by etrans].
    + intros x k H. by apply (gr_keys _ _ H2), (gr_keys _ _ H1).
    + intros a H. by apply (gr_consumed _ _ H2), (gr_consumed _ _ H1).
Qed.

Lemma opened_for_grows m m' x e : grows m m' → opened_for m x e → opened_for m' x e.
Proof.
  intros G (i & t & pin & access & Hi & Hk & Hv).
  destruct (gr_tasks _ _ G i t Hi) as (t' & Hi' & [l El]).
  exists i, t', pin, access. split_and!; [done|by apply (gr_keys _ _ G)|].
  rewrite El. by apply vetted_app.
Qed.

Lemma respond_heap m c r s' x k :
  cache_respond m c r s' → sl_key <$> sh_heap (mc_shared m) !! x = Some k →
  sl_key <$> sh_heap s' !! x = Some k.
Proof.
  destruct c; cbn; intros Hr Hk; destruct_and?; subst; try done.
  - unfold slot_for in Hr. destruct (find_slot key (mc_shared m)); injection Hr as -> ->; [done|]. cbn.
    destruct (sh_heap (mc_shared m) !! x) as [c|] eqn:Hx; [|done]. by rewrite (lookup_app_l_Some _ _ _ _ Hx).
  - by injection Hr as -> ->.
  - by rewrite put_entry_key.
  - by rewrite put_entry_key.
  - by destruct (_ =? _)%nat.
Qed.

Lemma respond_consumed m c r s' a :
  cache_respond m c r s' → a ∈ sh_consumed (mc_shared m) → a ∈ sh_consumed s'.
Proof.
  destruct c; cbn; intros Hr Ha; destruct_and?; subst; try done.
  - unfold slot_for in Hr. by destruct (find_slot key (mc_shared m)); injection Hr as -> ->.
  - by injection Hr as -> ->.
  - destruct (_ =? _)%nat; [by right|done].
Qed.

Lemma update_lookup (tasks l : list Task) i t j t' :
  tasks !! i = Some t → (<[i := t']> tasks ++ l) !! j = (if decide (j = i) then Some t'
    else if decide (j < length tasks)%nat then tasks !! j else l !! (j - length tasks)%nat).
Proof.
  intros Hi. apply lookup_lt_Some in Hi as Hlt. case_decide as Hj; subst.
  - rewrite lookup_app_l by (by rewrite length_insert). by rewrite list_lookup_insert_eq.
  - case_decide as Hl.
    + rewrite lookup_app_l by (by rewrite length_insert). by rewrite list_lookup_insert_ne.
    + by rewrite lookup_app_r, length_insert by (rewrite ?length_insert; lia).
Qed.

Lemma grows_step m m' : cache_step m m' → grows m m'.
Proof.
  intros H. destruct H as [s tasks fuel r|m i c k h r s' Hi Hr|s tasks i t Hi Hl|m e _ _ _|s tasks slot _ _ _|s tasks now Hn]; split; cbn; try done.
  - intros j t Hj. exists t. split; [by apply lookup_app_l_Some|done].
  - intros j t Hj. erewrite update_lookup by done. case_decide; subst.
    + rewrite Hi in Hj. injection Hj as <-. eexists. split; [done|]. by eexists [_].
    + apply lookup_lt_Some in Hj as Hlt. rewrite decide_True by done. by exists t.
  - intros x key. by eapply respond_heap.
  - intros a. by eapply respond_consumed.
  - intros j t' Hj. destruct (decide (j = i)) as [->|Hn].
    + exists (stopped t). rewrite Hi in Hj. injection Hj as <-.
      split; [|done]. apply list_lookup_insert_eq. by eapply lookup_lt_Some.
    + exists t'. by rewrite list_lookup_insert_ne.
  - intros j t Hj. exists t. split; [by apply lookup_app_l_Some|done].
  - intros a Ha. by right.
  - intros j t Hj. by exists t.
  - intros x key Hk. pose proof (put_entry_key s slot x None) as E. cbn in E. by rewrite E.
  - intros j t Hj. by exists t.
Qed.
Lemma respond_entries m c r s' x e :
  cache_respond m c r s' → slot_entry x s' = Some e →
  slot_entry x (mc_shared m) = Some e ∨ c = SetEntry x e.
Proof.
  destruct c; cbn; intros Hr He; destruct_and?; subst; try by left.
  - unfold slot_for in Hr. destruct (find_slot key (mc_shared m)); injection Hr as -> ->; [by left|].
    fold (new_slot (mc_shared m) key) in He. rewrite slot_entry_new in He. by left.
  - injection Hr as -> ->. by left.
  - rewrite slot_entry_put in He. case_decide; [by case_decide|by left].
  - rewrite slot_entry_put in He. case_decide; [|by left]. case_decide; [|done]. subst.
    injection He as ->. by right.
  - destruct (_ =? _)%nat; by left.
Qed.

Lemma in_cons_inv {c c' : CacheCall.t} {r r' h} :
  (@Entry _ CacheCall.res c r) ∈ @Entry _ CacheCall.res c' r' :: h →
  (@Entry _ CacheCall.res c r) = @Entry _ CacheCall.res c' r' ∨ (@Entry _ CacheCall.res c r) ∈ h.
Proof. by intros [H|H]%elem_of_cons; [left|right]. Qed.

(** What one call shows. *)
Definition unwrapped (x : entry CacheCall.res) : option CacheEntry :=
  match called x as c return CacheCall.res c → option CacheEntry with
  | TryUnwrap e => λ r, if r then Some e else None
  | _ => λ _, None
  end (answer x).
Definition observed (x : entry CacheCall.res) : option (nat * CacheEntry) :=
  match called x as c return CacheCall.res c → option (nat * CacheEntry) with
  | EntryRef slot => λ r, pair slot <$> r
  | _ => λ _, None
  end (answer x).

(** One call of task [i], whose discipline [cwp] gives. *)
Lemma system_call m i c k h r s' :
  system m →
  mc_tasks m !! i = Some {| tk_live := true; tk_program := Vis c k; tk_history := h |} →
  cache_respond m c r s' →
  system {| mc_shared := s';
            mc_tasks := <[i := {| tk_live := true; tk_program := k r;
                                  tk_history := Entry c r :: h |}]> (mc_tasks m) ++ spawned c |}.
Proof.
  intros S Hi Hr. pose proof (sy_tasks _ S _ _ Hi) as [[Ho Hp] Hk]. cbn in Ho, Hp, Hk.
  pose proof (grows_step _ _ (step_call m i c k h r s' Hi Hr)) as G.
  assert (∀ t, t ∈ spawned c → tk_history t = []) as Hfresh.
  { intros t Ht. destruct c; try by apply not_elem_of_nil in Ht. by apply list_elem_of_singleton in Ht as ->. }
  split; cbn [mc_tasks mc_shared].
  - intros j t Hj. erewrite update_lookup in Hj by done. case_decide; [injection Hj as <-|case_decide].
    + apply Hk. by eapply respond_answer.
    + by eapply (sy_tasks _ S).
    + by eapply cwp_spawned, list_elem_of_lookup_2.
  - eapply resources_ext; [intros j; eapply (owned_update (mc_shared m)); [done|apply fresh_spawned]|].
    pose proof (resources_call (mc_shared m) (owned m) i c r s' (sy_resources _ S)) as R.
    rewrite (owned_lookup m i _ Hi) in R. destruct m as [s tasks]. apply R; [exact Ho|].
    by eapply respond_responds.
  - intros j t e Hj. erewrite update_lookup in Hj by done. case_decide; [injection Hj as <-|case_decide].
    + intros [E|Hin]%in_cons_inv; [|by eapply (gr_consumed _ _ G), (sy_unwrapped _ S)].
      apply (f_equal unwrapped) in E. destruct c; try done. cbn in *. destruct r; [|done].
      injection E as ->. destruct Hr as [_ ->]. left.
    + intros Hin. by eapply (gr_consumed _ _ G), (sy_unwrapped _ S).
    + intros Hin. rewrite (Hfresh t) in Hin by (by eapply list_elem_of_lookup_2). by apply not_elem_of_nil in Hin.
  - intros x e He. destruct (respond_entries m c r s' x e Hr He) as [He'| ->].
    { eapply opened_for_grows, sy_cached; done. }
    eapply opened_for_grows; [exact G|]. destruct Hp as (pin & access & Hs & Hv).
    eexists i, _, pin, access. split; [exact Hi|]. split; [|exact Hv].
    apply (rs_map _ _ (sy_resources _ S)).
    by apply (rs_slot _ _ (sy_resources _ S) i); rewrite (owned_lookup m i _ Hi).
  - intros j t x e Hj. erewrite update_lookup in Hj by done. case_decide; [injection Hj as <-|case_decide].
    + intros [E|Hin]%in_cons_inv; eapply opened_for_grows; try exact G; [|by eapply (sy_observed _ S)].
      apply (f_equal observed) in E. destruct c; try done. cbn in *. destruct r; [|done].
      injection E as -> ->. apply (sy_cached _ S). by destruct Hr as [-> _].
    + intros Hin. eapply opened_for_grows; [exact G|by eapply (sy_observed _ S)].
    + intros Hin. rewrite (Hfresh t) in Hin by (by eapply list_elem_of_lookup_2). by apply not_elem_of_nil in Hin.
  - intros j t Hj. erewrite update_lookup in Hj by done. case_decide; [injection Hj as <-|case_decide].
    + split; [apply (sy_honest _ S _ _ Hi)|]. destruct c; try done. cbn in Hr. destruct Hr as [-> _].
      intros v Hv. apply (rs_seen _ _ (sy_resources _ S) i); rewrite (owned_lookup m i _ Hi); done.
    + by eapply (sy_honest _ S).
    + by rewrite (Hfresh t) by (by eapply list_elem_of_lookup_2).
  - intros j t Hj. erewrite update_lookup in Hj by done. case_decide; [injection Hj as <-|case_decide].
    + split; [apply (sy_closed _ S _ _ Hi)|]. by destruct c.
    + by eapply (sy_closed _ S).
    + by rewrite (Hfresh t) by (by eapply list_elem_of_lookup_2).
Qed.
(** The other steps: a task that owns nothing arrives, or one stops. *)
Lemma system_spawn m s' t :
  system m → resources s' (owned m) → grows m {| mc_shared := s'; mc_tasks := mc_tasks m ++ [t] |} →
  (∀ x e, slot_entry x s' = Some e → slot_entry x (mc_shared m) = Some e) →
  tk_history t = [] → cwp (tk_program t) outcome_ok [] →
  system {| mc_shared := s'; mc_tasks := mc_tasks m ++ [t] |}.
Proof.
  intros S R G He Ht Hp.
  assert (∀ j t', (mc_tasks m ++ [t]) !! j = Some t' → mc_tasks m !! j = Some t' ∨ t' = t) as Hj.
  { intros j t' H. apply lookup_app_Some in H as [H|[_ H]]; [by left|right].
    by apply list_elem_of_lookup_2, list_elem_of_singleton in H. }
  split; cbn.
  - intros j t' H. destruct (Hj _ _ H) as [H'| ->]; [by eapply (sy_tasks _ S)|by rewrite Ht].
  - eapply resources_ext; [intros j; eapply (owned_app (mc_shared m)); constructor; [|done]|by destruct m].
    unfold task_held. rewrite Ht. by destruct (tk_live t).
  - intros j t' e H Hin. destruct (Hj _ _ H) as [H'| ->]; [by eapply (gr_consumed _ _ G), (sy_unwrapped _ S)|].
    rewrite Ht in Hin. by apply not_elem_of_nil in Hin.
  - intros x e H. eapply opened_for_grows; [exact G|]. by apply (sy_cached _ S), He.
  - intros j t' x e H Hin. destruct (Hj _ _ H) as [H'| ->];
      [by eapply opened_for_grows, (sy_observed _ S)|]. rewrite Ht in Hin. by apply not_elem_of_nil in Hin.
  - intros j t' H. destruct (Hj _ _ H) as [H'| ->]; [by eapply (sy_honest _ S)|by rewrite Ht].
  - intros j t' H. destruct (Hj _ _ H) as [H'| ->]; [by eapply (sy_closed _ S)|by rewrite Ht].
Qed.

Lemma system_shared s s' tasks :
  system {| mc_shared := s; mc_tasks := tasks |} →
  grows {| mc_shared := s; mc_tasks := tasks |} {| mc_shared := s'; mc_tasks := tasks |} →
  resources s' (owned {| mc_shared := s; mc_tasks := tasks |}) →
  (∀ x e, slot_entry x s' = Some e → slot_entry x s = Some e) →
  system {| mc_shared := s'; mc_tasks := tasks |}.
Proof.
  intros S G R He. split; cbn.
  - apply (sy_tasks _ S).
  - exact R.
  - intros i t e Hi Hin. by eapply (gr_consumed _ _ G), (sy_unwrapped _ S).
  - intros x e H. eapply opened_for_grows; [exact G|]. by apply (sy_cached _ S), He.
  - intros i t x e Hi Hin. by eapply opened_for_grows, (sy_observed _ S).
  - apply (sy_honest _ S).
  - apply (sy_closed _ S).
Qed.

(** A task that stops gives everything up. *)
Lemma resources_stop s o i : resources s o → resources s (own i nothing_held o).
Proof. intros R. split; at_task R; by apply not_elem_of_nil in H. Qed.

Lemma system_stop s tasks i t :
  system {| mc_shared := s; mc_tasks := tasks |} → tasks !! i = Some t → tk_live t = true →
  system {| mc_shared := s; mc_tasks := <[i := stopped t]> tasks |}.
Proof.
  intros S Hi Hl. pose proof (grows_step _ _ (step_stop s tasks i t Hi Hl)) as G.
  assert (∀ j t', <[i := stopped t]> tasks !! j = Some t' →
    ∃ t0, tasks !! j = Some t0 ∧ tk_program t' = tk_program t0 ∧ tk_history t' = tk_history t0) as Hj.
  { intros j t' H. destruct (decide (j = i)) as [->|Hn].
    - rewrite list_lookup_insert_eq in H by (by eapply lookup_lt_Some). injection H as <-. by exists t.
    - rewrite list_lookup_insert_ne in H by done. by exists t'. }
  split; cbn.
  - intros j t' H. destruct (Hj _ _ H) as (t0 & H0 & -> & ->). by apply (sy_tasks _ S j).
  - eapply resources_ext; [|exact (resources_stop _ _ i (sy_resources _ S))].
    intros j. pose proof (owned_update s s tasks i t (stopped t) [] j Hi (List.Forall_nil _)) as E.
    by rewrite app_nil_r in E.
  - intros j t' e H. destruct (Hj _ _ H) as (t0 & H0 & _ & ->). by apply (sy_unwrapped _ S j).
  - intros x e H. eapply opened_for_grows; [exact G|]. by apply (sy_cached _ S).
  - intros j t' x e H. destruct (Hj _ _ H) as (t0 & H0 & _ & ->). intros Hin.
    by eapply opened_for_grows, (sy_observed _ S).
  - intros j t' H. destruct (Hj _ _ H) as (t0 & H0 & _ & ->). by apply (sy_honest _ S j).
  - intros j t' H. destruct (Hj _ _ H) as (t0 & H0 & _ & ->). by apply (sy_closed _ S j).
Qed.

Lemma system_step m m' : system m → cache_step m m' → system m'.
Proof.
  intros S H. pose proof (grows_step _ _ H) as G.
  destruct H as [s tasks fuel r|m i c k h r s' Hi Hr|s tasks i t Hi Hl|m e He Hc Hr|s tasks slot Hu Hl Hs|s tasks now Hn].
  - apply (system_spawn {| mc_shared := s; mc_tasks := tasks |} s); try done; [apply (sy_resources _ S)|apply cwp_request].
  - by apply system_call.
  - by eapply system_stop.
  - apply no_references in Hr as [Ho He']. apply system_spawn; try done; [|by apply cwp_release_task].
    eapply (resources_ext _ (own 0%nat (set_arcs (hd_arcs (owned m 0%nat)) (owned m 0%nat)) (owned m))).
    { intros j. unfold own. case_decide; [subst; by rewrite set_arcs_id|done]. }
    apply (resources_consume _ _ _ (sy_resources _ S)).
    + split; [intros; apply Ho|apply He'].
    + split; [by eapply lookup_lt_Some|done].
    + intros b Hb. split; [|done]. intros ->. by apply (Ho 0%nat).
  - eapply system_shared; [exact S|exact G| |].
    + pose proof (sy_resources _ S) as R. apply lock_free_unlocked with (m := {| mc_shared := s; mc_tasks := tasks |}) in Hl.
      split; at_task R.
      * pose proof (put_entry_key s slot x None) as E. cbn in E. rewrite E. before R.
      * rewrite slot_entry_put. case_decide; [|before R]. subst. by destruct (Hl i).
      * rewrite slot_entry_put in H. case_decide; [by case_decide|before R].
    + intros x e H. rewrite slot_entry_put in H. case_decide; [by case_decide|done].
  - eapply system_shared; [exact S|exact G| |done]. by apply resources_rest, (sy_resources _ S).
Qed.

Lemma system_new now : system {| mc_shared := new_shared now; mc_tasks := [] |}.
Proof.
  assert (∀ x, slot_entry x (new_shared now) = None) as Hx by done.
  split; cbn; try (by intros; exfalso; apply not_elem_of_nil in H); try done.
  split; cbn; try done; try (by intros; exfalso; eapply not_elem_of_nil).
  - constructor.
  - intros i a Hi. by apply not_elem_of_nil in Hi.
Qed.

Lemma reachable_system m : cache_reachable m → system m.
Proof.
  intros [now H]. revert m H. apply rtc_ind_r; [apply system_new|].
  intros m m' _ Hm S. by eapply system_step.
Qed.
Lemma live_held t : tk_live t = true → task_held t = held (tk_history t).
Proof. unfold task_held. by intros ->. Qed.

(** What the next call of a live task may rely on. *)
Lemma next_allowed m i t c k :
  system m → mc_tasks m !! i = Some t → tk_live t = true → tk_program t = Vis c k →
  cache_allowed (tk_history t) c ∧ task_held t = held (tk_history t) ∧ owned m i = task_held t.
Proof.
  intros S Hi Hl Hp. pose proof (sy_tasks _ S _ _ Hi) as Hw. rewrite Hp in Hw.
  split; [apply Hw|]. split; [by apply live_held|by apply owned_lookup].
Qed.

End system.
