(* ===== verification/CacheSafety.v ===== *)
(** * What the connection manager promises

    From the invariant of the reachable states: at most one pool is opened for a
    key at a time, a lease is for a pool of its own key whose authority was
    confirmed, a change of scope sees no lease and leaves no pool behind, no
    leased pool is closed, no task waits for ever for another, and a connection
    goes round its loop only past an expired pool. *)

From S2P Require Export CacheInvariant.
From S2P Require Import QuerySafety.

Section safety.
Context {P : Platform}.

(** ** One pool at a time *)

Definition opens (c : CacheCall.t) : bool :=
  match c with FetchSecret _ | IssueLease _ _ _ _ | DriverConnect _ _ => true | _ => false end.

(** The task works on the slot of [key] and its next call is part of opening a pool. *)
Definition opening (t : Task) (key : ConnectionCacheKey) : Prop :=
  tk_live t = true
  ∧ (∃ c k, tk_program t = Vis c k ∧ opens c = true)
  ∧ ∃ slot, hd_slot (task_held t) = Some (key, slot).

Lemma opening_locked m i t key :
  system m → mc_tasks m !! i = Some t → opening t key →
  ∃ slot, (key, slot) ∈ sh_slots (mc_shared m) ∧ hd_lock (owned m i) = Some slot
    ∧ slot_entry slot (mc_shared m) = None.
Proof.
  intros S Hi (Hl & (c & k & Hp & Hc) & slot & Hs).
  destruct (next_allowed _ _ _ _ _ S Hi Hl Hp) as ([Ho _] & Hh & Hown).
  rewrite <-Hh in Ho. pose proof (sy_resources _ S) as R.
  assert (may_open (task_held t)) as Hm by by destruct c.
  unfold may_open in Hm. rewrite Hs in Hm. destruct Hm as (_ & Hk & Hseen).
  rewrite <-Hown in *. exists slot. split_and!; [|done|].
  - by apply (rs_slot _ _ R) in Hs as (_ & ? & _).
  - by apply (rs_seen _ _ R _ _ _ Hk) in Hseen.
Qed.

(** Pool creation is single-flight: of all the tasks that ask for the pool of
    one cache key, at most one is opening it at any time, and while it does no
    other pool is cached under that key.  ([connection/runtime.rs],
    [ConnectionContext::connect].) *)
Theorem single_flight m i j ti tj key :
  cache_reachable m → mc_tasks m !! i = Some ti → mc_tasks m !! j = Some tj →
  opening ti key → opening tj key →
  i = j ∧ ∀ slot, (key, slot) ∈ sh_slots (mc_shared m) → slot_entry slot (mc_shared m) = None.
Proof.
  intros Hm Hi Hj Oi Oj. apply reachable_system in Hm as S. pose proof (sy_resources _ S) as R.
  destruct (opening_locked _ _ _ _ S Hi Oi) as (x & Hx & Lx & Ex).
  destruct (opening_locked _ _ _ _ S Hj Oj) as (y & Hy & Ly & _).
  assert (∀ y, (key, y) ∈ sh_slots (mc_shared m) → y = x) as Hu
    by (intros z Hz; by eapply unique_slot).
  rewrite (Hu y Hy) in Ly. split.
  - destruct (decide (i = j)) as [|Hn]; [done|]. by destruct (rs_lock _ _ R _ _ _ Hn Lx).
  - intros z Hz. by rewrite (Hu z Hz).
Qed.

(** ** Leases *)

Definition leases_pool (t : Task) (lease : CachedLease) : Prop :=
  tk_live t = true ∧ tk_program t = Ret (Leased lease).

Lemma lease_handed_out m i t lease :
  system m → mc_tasks m !! i = Some t → leases_pool t lease → handed_out lease (tk_history t).
Proof. intros S Hi [_ Hp]. pose proof (sy_tasks _ S _ _ Hi) as H. by rewrite Hp in H. Qed.
Lemma lease_owns m i t lease :
  system m → mc_tasks m !! i = Some t → leases_pool t lease →
  ∃ slot, hd_gate (owned m i) = ReadGuard
    ∧ hd_slot (owned m i) = Some (cache_key (cl_pin lease) (cl_access lease), slot)
    ∧ ce_arc (cl_entry lease) ∈ hd_arcs (owned m i).
Proof.
  intros S Hi Hl. destruct (lease_handed_out _ _ _ _ S Hi Hl) as (slot & l & h0 & Hg & _ & Hs & Ha & _).
  rewrite (owned_lookup _ _ _ Hi), (live_held t) by apply Hl. by exists slot.
Qed.

(** Two pins whose leases may share a pool: the same scope, account and selection
    generation, the same connection at the same revisions of its metadata and
    local binding, and the same access where the provider grants credentials. *)
Definition same_authority (pin pin' : PinnedConnection) (access access' : ConnectionAccess.t) : Prop :=
  sc_workspace_id (pc_scope pin') = sc_workspace_id (pc_scope pin)
  ∧ sc_account_scope (pc_scope pin') = sc_account_scope (pc_scope pin)
  ∧ sc_generation (pc_scope pin') = sc_generation (pc_scope pin)
  ∧ pc_connection_id pin' = pc_connection_id pin
  ∧ pc_connection_revision pin' = pc_connection_revision pin
  ∧ pc_binding_revision pin' = pc_binding_revision pin
  ∧ pc_binding_updated_at pin' = pc_binding_updated_at pin
  ∧ (is_managed (cp_credential_mode (pc_profile pin)) = true →
     is_managed (cp_credential_mode (pc_profile pin')) = true → access' = access).

Lemma cache_key_authority pin pin' access access' :
  cache_key pin' access' = cache_key pin access → same_authority pin pin' access access'.
Proof.
  unfold cache_key, same_authority. intros [= H1 H2 H3 H4 H5 H6 H7 H].
  split_and!; try done. intros Hm Hm'. by rewrite Hm, Hm' in H.
Qed.

(** C10. A lease is never for another authority's pool: its pool was opened under
    the same scope, connection and revisions as the lease's pin, by a task that confirmed the pin after
    the pool was open; the lease's own pin was current, and its access granted by
    the control plane at the pinned revision, after the pool was found or opened;
    and a pool with a deadline was found short of it. *)
Theorem lease_isolated m i t lease :
  cache_reachable m → mc_tasks m !! i = Some t → leases_pool t lease →
  let pin := cl_pin lease in
  let e := cl_entry lease in
  (∃ j t' pin' access', mc_tasks m !! j = Some t' ∧ same_authority pin pin' (cl_access lease) access'
     ∧ vetted pin' access' (ce_live e) (tk_history t'))
  ∧ ∃ l h0 slot, tk_history t = l ++ h0
     ∧ (head h0 = Some (Entry (EntryRef slot) (Some e))
        ∨ ∃ profile secret, head h0 = Some (Entry (DriverConnect profile secret) (Ok (ce_live e))))
     ∧ confirmed pin (cl_access lease) l
     ∧ ∀ d, ce_retire_at e = Some d → ∃ now, Entry InstantNow now ∈ l ∧ now < d.
Proof.
  intros Hm Hi Hl pin e. apply reachable_system in Hm as S.
  destruct (lease_handed_out _ _ _ _ S Hi Hl) as (slot & l & h0 & _ & _ & Hs & _ & Hh & Hc & Ho & Ht).
  split; [|exists l, h0, slot; split_and!; try done; destruct Ho as [Ho|[Ho _]]; [by left|by right]].
  destruct Ho as [Ho|[(profile & secret & Ho) _]].
  - destruct h0 as [|x h0]; [done|]. injection Ho as ->.
    assert (opened_for m slot e) as (j & t' & pin' & access' & Hj & Hk & Hv).
    { eapply (sy_observed _ S _ _ _ _ Hi). rewrite Hh. apply elem_of_app. right. left. }
    exists j, t', pin', access'. split_and!; [done| |done]. apply cache_key_authority.
    rewrite <-(live_held t), <-(owned_lookup m i t Hi) in Hs by apply Hl.
    apply (rs_slot _ _ (sy_resources _ S)) in Hs as (_ & Hin & _).
    apply (rs_map _ _ (sy_resources _ S)) in Hin. rewrite Hk in Hin. by apply (inj Some) in Hin.
  - exists i, t, pin, (cl_access lease). split_and!; [done|done|].
    destruct h0 as [|x h0]; [done|]. injection Ho as ->. by exists l, h0, profile, secret.
Qed.

(** ** A change of scope *)

(** No pool of a wanted key is older than the [n]-th. *)
Record since (n : nat) (wanted : ConnectionCacheKey → bool) (s : Shared) (o : owner) : Prop := {
  sn_cached : ∀ k x e, (k, x) ∈ sh_slots s → wanted k = true → slot_entry x s = Some e →
    (n ≤ ce_arc e)%nat;
  sn_tasks : ∀ i k x a, hd_slot (o i) = Some (k, x) → wanted k = true → a ∈ hd_arcs (o i) → (n ≤ a)%nat;
  sn_entries : (n ≤ length (sh_entries s))%nat;
}.

Ltac earlier J :=
  first [by eapply (sn_cached _ _ _ _ J)|by eapply (sn_tasks _ _ _ _ J)|by eapply (sn_entries _ _ _ _ J)].

Lemma since_ext n wanted s o o' : (∀ j, o' j = o j) → since n wanted s o → since n wanted s o'.
Proof. intros E J. split; intros; rewrite ?E in *; earlier J. Qed.

(** Where a cached pool and an owned [Arc] can come from. *)
Lemma responds_cached s o i c r s' k x e :
  responds s o i c r s' → (k, x) ∈ sh_slots s' → slot_entry x s' = Some e →
  ((k, x) ∈ sh_slots s ∧ slot_entry x s = Some e) ∨ (c = SetEntry x e ∧ (k, x) ∈ sh_slots s).
Proof.
  destruct c; cbn; intros Hr Hk He; try destruct_and!; try subst s'; try by left.
  - unfold slot_for in Hr. destruct (find_slot key s); injection Hr as -> ->; [by left|].
    fold (new_slot s key) in He, Hk. rewrite slot_entry_new in He. cbn in Hk.
    apply elem_of_cons in Hk as [[= -> ->]|Hk]; [|by left]. exfalso. unfold slot_entry in He.
    by rewrite lookup_ge_None_2 in He.
  - injection Hr as -> ->. cbn in Hk. apply remaining_slots in Hk as [Hk _]. by left.
  - rewrite slot_entry_put in He. case_decide; [by case_decide|by left].
  - rewrite slot_entry_put in He. case_decide; [|by left]. case_decide; [|done]. subst.
    injection He as ->. by right.
  - destruct r; [destruct Hr as [_ ->]|subst]; by left.
Qed.

Lemma responds_entries s o i c r s' :
  responds s o i c r s' → (length (sh_entries s) ≤ length (sh_entries s'))%nat.
Proof.
  destruct c; cbn; intros Hr; try destruct_and!; try subst s'; try done.
  - unfold slot_for in Hr. by destruct (find_slot key s); injection Hr as -> ->.
  - by injection Hr as -> ->.
  - cbn. rewrite length_app. lia.
  - destruct r; [destruct Hr as [_ ->]|subst]; done.
Qed.

Lemma held_after_slot s o i c r s' k x a :
  obeys (o i) c → responds s o i c r s' →
  hd_slot (held_after c r (o i)) = Some (k, x) → a ∈ hd_arcs (held_after c r (o i)) →
  hd_slot (o i) = Some (k, x)
  ∧ (a ∈ hd_arcs (o i) ∨ a = length (sh_entries s)
     ∨ ∃ y e, hd_lock (o i) = Some y ∧ ce_arc e = a
         ∧ (slot_entry y s = Some e ∨ hd_seen (o i) = Some (Some e))).
Proof.
  destruct c; cbn; intros Hc Hr Hs Ha; try (split; [done|by left]); try destruct_and!.
  - by rewrite H3 in Ha; apply not_elem_of_nil in Ha.
  - split; [done|]. subst r. apply elem_of_app in Ha as [Ha|Ha]; [|by left].
    destruct (slot_entry slot s) as [e|] eqn:He; [|by apply not_elem_of_nil in Ha].
    apply list_elem_of_singleton in Ha as ->. right. right. exists slot, e. auto.
  - split; [done|]. apply elem_of_cons in Ha as [->|Ha]; [right; left|left]; done.
  - split; [done|]. apply elem_of_cons in Ha as [->|Ha]; [|by left]. right. right.
    destruct H0 as [y Hy]. exists y, entry. auto.
  - split; [done|left]. by apply remove_one_incl in Ha.
  - split; [done|left]. by apply remove_one_incl in Ha.
  - split; [by destruct (is_ok r)|left]. by destruct (is_ok r).
  - split; [by destruct (is_ok r)|left]. by destruct (is_ok r).
Qed.

Lemma since_call n wanted s o i c r s' :
  resources s o → since n wanted s o → obeys (o i) c → responds s o i c r s' →
  since n wanted s' (own i (held_after c r (o i)) o).
Proof.
  intros R J Hc Hr. split.
  - intros k x e Hk Hw He. destruct (responds_cached _ _ _ _ _ _ _ _ _ Hr Hk He) as [[Hk' He']|[-> Hk']];
      [earlier J|]. cbn in Hc. destruct Hc as (_ & _ & _ & Hs & Ha).
    destruct (hd_slot (o i)) as [[k' y]|] eqn:Hy; [|done]. injection Hs as ->.
    apply (sn_tasks _ _ _ _ J i k x); [|done|done]. rewrite Hy.
    apply (rs_slot _ _ R) in Hy as (_ & Hy & _). apply (rs_map _ _ R) in Hy, Hk'. congruence.
  - intros j k x a Hs Hw Ha. unfold own in *. case_decide; [subst j|earlier J].
    destruct (held_after_slot s o i c r s' k x a Hc Hr Hs Ha) as [Hs' [Ha'|[->|(y & e & Hl & <- & He)]]];
      [earlier J|earlier J|].
    destruct (rs_slot _ _ R _ _ _ Hs') as (_ & Hk & Hy). pose proof (Hy y Hl) as ->.
    apply (sn_cached _ _ _ _ J k x); [done|done|].
    destruct He as [He|He]; [done|]. by apply (rs_seen _ _ R _ _ _ Hl).
  - etrans; [apply J|]. by eapply responds_entries.
Qed.

Lemma since_step n wanted m m' :
  system m → since n wanted (mc_shared m) (owned m) → cache_step m m' →
  since n wanted (mc_shared m') (owned m').
Proof.
  intros S J H.
  destruct H as [s tasks fuel r|m i c k h r s' Hi Hr|s tasks i t Hi Hl|m e He Hc Hr|s tasks slot Hu Hl Hs|s tasks now Hn]; cbn [mc_shared].
  - eapply since_ext; [intros j; apply (owned_app s); repeat constructor|done].
  - pose proof (sy_tasks _ S _ _ Hi) as [[Ho _] _]. cbn in Ho.
    eapply since_ext; [intros j; eapply (owned_update (mc_shared m)); [done|apply fresh_spawned]|].
    pose proof (since_call n wanted (mc_shared m) (owned m) i c r s' (sy_resources _ S) J) as R.
    rewrite (owned_lookup m i _ Hi) in R. destruct m as [s tasks]. apply R; [exact Ho|].
    by eapply respond_responds.
  - eapply (since_ext _ _ _ (own i nothing_held (owned {| mc_shared := s; mc_tasks := tasks |}))).
    { intros j. pose proof (owned_update s s tasks i t (stopped t) [] j Hi (List.Forall_nil _)) as E.
      by rewrite app_nil_r in E. }
    split; unfold own; intros; try case_decide; try done; earlier J.
  - eapply since_ext; [intros j; destruct m as [s tasks]; apply (owned_app s); repeat constructor|].
    destruct J; by split.
  - split; cbn; try (intros; earlier J). intros k x e Hk Hw He.
    rewrite slot_entry_put in He. case_decide; [by case_decide|earlier J].
  - destruct J; by split.
Qed.

Lemma since_steps n wanted m m' :
  system m → since n wanted (mc_shared m) (owned m) → rtc cache_step m m' →
  system m' ∧ since n wanted (mc_shared m') (owned m').
Proof.
  intros S J H. revert m' H. apply rtc_ind_r; [done|].
  intros m1 m2 _ H [S1 J1]. split; [by eapply system_step|by eapply since_step].
Qed.
(** The task is about to open the gate again after a change it published. *)
Definition publishing (t : Task) (wanted : ConnectionCacheKey → bool) : Prop :=
  tk_live t = true ∧ (∃ k, tk_program t = Vis GateRelease k)
  ∧ hd_change (task_held t) = Some wanted.

Lemma since_publishing m i t wanted :
  system m → mc_tasks m !! i = Some t → publishing t wanted →
  since (length (sh_entries (mc_shared m))) wanted (mc_shared m) (owned m).
Proof.
  intros S Hi (Hl & (k & Hp) & Hc). pose proof (sy_resources _ S) as R.
  destruct (next_allowed _ _ _ _ _ S Hi Hl Hp) as ([Ho Hu] & Hh & Hown). cbn in Ho, Hu.
  rewrite <-Hh, <-Hown in *. destruct Ho as (Hg & _). destruct (Hu _ Hc) as (keys & Hk & Hw).
  split; [| |done].
  - intros key x e Hx Hwk _. rewrite List.Forall_forall in Hw.
    rewrite (Hw key) in Hwk; [done|]. apply list_elem_of_In, (rs_listed _ _ R i keys Hg Hk).
    apply list_elem_of_fmap. by exists (key, x).
  - intros j key x a Hs _ _. apply (rs_slot _ _ R) in Hs as (Hr & _).
    destruct (decide (i = j)) as [->|Hn]; [congruence|]. pose proof (rs_gate _ _ R i j Hn Hg). congruence.
Qed.

(** C11. A change of workspace, account or connection material is published
    before anyone can use a pool again: when it reopens the gate no lease is held
    at all, and every lease handed out from then on, for a key the change
    concerns, is for a pool opened after the change. *)
Theorem change_publishes m i t wanted :
  cache_reachable m → mc_tasks m !! i = Some t → publishing t wanted →
  (∀ j t' lease, mc_tasks m !! j = Some t' → ¬ leases_pool t' lease)
  ∧ ∀ m' j t' lease, rtc cache_step m m' → mc_tasks m' !! j = Some t' → leases_pool t' lease →
      wanted (cache_key (cl_pin lease) (cl_access lease)) = true →
      (length (sh_entries (mc_shared m)) ≤ ce_arc (cl_entry lease))%nat.
Proof.
  intros Hm Hi Hp. apply reachable_system in Hm as S. split.
  - intros j t' lease Hj Hl. destruct (lease_owns _ _ _ _ S Hj Hl) as (slot & Hg & _).
    destruct Hp as (Hl' & (k & Hp) & _). destruct (next_allowed _ _ _ _ _ S Hi Hl' Hp) as ([Hgi _] & Hh & Hown).
    cbn in Hgi. rewrite <-Hh, <-Hown in Hgi. destruct Hgi as (Hgi & _).
    destruct (decide (i = j)) as [->|Hn]; [congruence|].
    pose proof (rs_gate _ _ (sy_resources _ S) i j Hn Hgi). congruence.
  - intros m' j t' lease Hsteps Hj Hl Hw. pose proof (since_publishing _ _ _ _ S Hi Hp) as J.
    destruct (since_steps _ _ _ _ S J Hsteps) as [S' J'].
    destruct (lease_owns _ _ _ _ S' Hj Hl) as (slot & _ & Hs & Ha). by eapply (sn_tasks _ _ _ _ J').
Qed.

(** C12. No pool is closed under a lease: while a lease is held, its destructor has
    not run and no task has moved the entry of its pool out of the [Arc]; and all
    that tasks close is pools of other entries, which they moved out of their
    [Arc] as the last owner, and pools they opened themselves and wrapped in no
    entry. *)
Theorem leased_pool_stays_open m i t lease :
  cache_reachable m → mc_tasks m !! i = Some t → leases_pool t lease →
  ce_arc (cl_entry lease) ∉ sh_consumed (mc_shared m)
  ∧ (∀ j t' e, mc_tasks m !! j = Some t' → Entry (TryUnwrap e) true ∈ tk_history t' →
      ce_arc e ≠ ce_arc (cl_entry lease))
  ∧ ∀ j t' l h live r, mc_tasks m !! j = Some t' →
      tk_history t' = l ++ Entry (CloseLive live) r :: h →
      (∃ e, ce_live e = live ∧ Entry (TryUnwrap e) true ∈ h ∧ ce_arc e ≠ ce_arc (cl_entry lease))
      ∨ hd_wrapped (held h) = false
        ∧ ∃ profile secret, Entry (DriverConnect profile secret) (Ok live) ∈ h.
Proof.
  intros Hm Hi Hl. apply reachable_system in Hm as S.
  destruct (lease_owns _ _ _ _ S Hi Hl) as (slot & _ & _ & Ha).
  apply (rs_arcs _ _ (sy_resources _ S)) in Ha as [_ Ha].
  assert (∀ j t' e, mc_tasks m !! j = Some t' → Entry (TryUnwrap e) true ∈ tk_history t' →
    ce_arc e ≠ ce_arc (cl_entry lease)) as Hu.
  { intros j t' e Hj Hin E. rewrite <-E in Ha. by destruct Ha; eapply (sy_unwrapped _ S). }
  split_and!; [done|done|]. intros j t' l h live r Hj Hh.
  pose proof (sy_closed _ S _ _ Hj) as Hc. rewrite Hh in Hc.
  apply closes_own_app in Hc as [_ [(e & He & Hin)|Hown]]; [left|by right].
  exists e. split_and!; [done|done|]. apply (Hu j t'); [done|]. rewrite Hh.
  apply elem_of_app. right. by apply elem_of_cons; right.
Qed.

(** ** Waiting *)

(** Task [i] waits for a guard that task [j] holds. *)
Definition waits_for (m : Machine) (i j : nat) : Prop :=
  ∃ t c k, mc_tasks m !! i = Some t ∧ tk_live t = true ∧ tk_program t = Vis c k
    ∧ match c with
      | GateRead => hd_gate (owned m j) = WriteGuard
      | GateWrite => hd_gate (owned m j) ≠ NoGuard
      | LockSlot slot => hd_lock (owned m j) = Some slot
      | _ => False
      end.

Definition waiting (m : Machine) (i : nat) : Prop := ∃ j, waits_for m i j.

Lemma owned_live m i : owned m i ≠ nothing_held → ∃ t, mc_tasks m !! i = Some t ∧ tk_live t = true.
Proof.
  unfold owned. destruct (mc_tasks m !! i) as [t|]; cbn; [|done]. intros H. exists t. split; [done|].
  unfold task_held in H. by destruct (tk_live t).
Qed.

Lemma owned_decide (Q : Held → Prop) `{∀ h, Decision (Q h)} m :
  ¬ Q nothing_held → (∃ j, Q (owned m j)) ∨ ∀ j, ¬ Q (owned m j).
Proof.
  intros H0. destruct (decide (Exists (λ t, Q (task_held t)) (mc_tasks m))) as [He|He].
  - left. apply Exists_exists in He as (t & Ht & HQ). apply list_elem_of_lookup in Ht as [j Hj].
    exists j. by rewrite (owned_lookup _ _ _ Hj).
  - right. intros j HQ. apply He, Exists_exists. unfold owned in HQ.
    destruct (mc_tasks m !! j) as [t|] eqn:Hj; [|done]. exists t.
    split; [by eapply list_elem_of_lookup_2|done].
Qed.

Lemma waiting_decide m i : waiting m i ∨ ¬ waiting m i.
Proof.
  destruct (mc_tasks m !! i) as [t|] eqn:Hi; [|right; by intros (j & t & c & k & Ht & _); rewrite Hi in Ht].
  destruct (tk_live t) eqn:Hl; [|right; intros (j & t' & c & k & Ht & Hl' & _); congruence].
  destruct (tk_program t) as [a|c k] eqn:Hp; [right; intros (j & t' & c & k & Ht & _ & Hp' & _); congruence|].
  set (Q := λ h, match c with
      | GateRead => hd_gate h = WriteGuard
      | GateWrite => hd_gate h ≠ NoGuard
      | LockSlot slot => hd_lock h = Some slot
      | _ => False
      end).
  assert (∀ h, Decision (Q h)) by (intros h; unfold Q; destruct c; apply _).
  destruct (owned_decide Q m) as [[j Hj]|Hj]; [by unfold Q; destruct c; cbn; auto| |].
  - left. exists j, t, c, k. by split_and!.
  - right. intros (j & t' & c' & k' & Ht & _ & Hp' & Hc). rewrite Hi in Ht. injection Ht as <-.
    rewrite Hp in Hp'. injection Hp' as <- _. by apply (Hj j).
Qed.

(** Who waits holds no slot's mutex, and if it holds the gate then it waits for
    a mutex. *)
Lemma waiting_owns m i :
  system m → waiting m i →
  hd_lock (owned m i) = None
  ∧ (hd_gate (owned m i) = NoGuard ∨ ∃ j, hd_lock (owned m j) ≠ None ∧ waits_for m i j).
Proof.
  intros S (j & t & c & k & Hi & Hl & Hp & Hc).
  destruct (next_allowed _ _ _ _ _ S Hi Hl Hp) as ([Ho _] & Hh & Hown). rewrite <-Hh, <-Hown in Ho.
  destruct c; try done; cbn in Ho; destruct_and?; split; try done; try by left.
  right. exists j. split; [by rewrite Hc|]. exists t, (LockSlot slot), k. by split_and!.
Qed.

(** Who asks for the gate holds neither it nor a mutex. *)
Lemma asks_owns m i :
  system m → asks_gate m i → hd_lock (owned m i) = None ∧ hd_gate (owned m i) = NoGuard.
Proof.
  intros S (t & c & k & Hi & Hl & Hp & Hc).
  destruct (next_allowed _ _ _ _ _ S Hi Hl Hp) as ([Ho _] & Hh & Hown). rewrite <-Hh, <-Hown in Ho.
  destruct Hc as [-> | ->]; cbn in Ho; by destruct_and?.
Qed.

Lemma asks_decide m i : asks_gate m i ∨ ¬ asks_gate m i.
Proof.
  destruct (mc_tasks m !! i) as [t|] eqn:Hi; [|right; intros (? & ? & ? & ? & _); congruence].
  destruct (tk_live t) eqn:Hl; [|right; intros (? & ? & ? & ? & ? & _); congruence].
  destruct (tk_program t) as [a|c k] eqn:Hp; [right; intros (? & ? & ? & ? & ? & ? & _); congruence|].
  destruct c; try (right; intros (? & ? & ? & ? & ? & ? & [-> | ->]); congruence);
    left; exists t; eexists _, k; split_and!; auto.
Qed.

(** *** The queue of the gate *)

(** Task [i] is behind task [j]: [j] is before it in the queue, or in it when
    [i] asks for the gate and is not. *)
Definition behind (f : FairMachine) (i j : nat) : Prop :=
  asks_gate (fm_machine f) i
  ∧ ∃ front back, fm_queue f = front ++ back ∧ j ∈ front ∧ i ∉ front ∧ (back = [] ∨ head back = Some i).

(** What holds the next call of [i] back: a guard [j] holds, or [j] queuing
    before it. *)
Definition held_back (f : FairMachine) (i j : nat) : Prop :=
  waits_for (fm_machine f) i j ∨ behind f i j.

(** A task is as it was, ended, or made one call. *)
Lemma cache_step_task m m' i t :
  cache_step m m' → mc_tasks m !! i = Some t →
  ∃ t', mc_tasks m' !! i = Some t'
    ∧ (t' = t ∨ tk_live t = true
         ∧ (tk_live t' = false ∨ length (tk_history t') = S (length (tk_history t)))).
Proof.
  intros Hs Hi. destruct Hs as [s tasks fuel r|m j c k h r s' Hj Hr|s tasks j t0 Hj Hl|m e He Hc Hf
    |s tasks slot Hf Hl Ht|s tasks now Hn]; cbn in *.
  - exists t. split; [by apply lookup_app_l_Some|by left].
  - destruct (decide (i = j)) as [->|Hne].
    + rewrite Hi in Hj. injection Hj as ->. eexists. split.
      { apply lookup_app_l_Some, list_lookup_insert_eq. by eapply lookup_lt_Some. }
      right. split; [done|]. by right.
    + exists t. split; [|by left]. apply lookup_app_l_Some. by rewrite list_lookup_insert_ne.
  - destruct (decide (i = j)) as [->|Hne].
    + rewrite Hi in Hj. injection Hj as ->. eexists. split.
      { apply list_lookup_insert_eq. by eapply lookup_lt_Some. }
      right. split; [done|]. by left.
    + exists t. split; [|by left]. by rewrite list_lookup_insert_ne.
  - exists t. split; [by apply lookup_app_l_Some|by left].
  - exists t. split; [done|by left].
  - exists t. split; [done|by left].
Qed.

Lemma asks_unmoved m m' i :
  cache_step m m' → asks_gate m i → unmoved m m' i = true → asks_gate m' i.
Proof.
  intros Hs (t & c & k & Hi & Hl & Hp & Hc) Hu.
  destruct (cache_step_task _ _ _ _ Hs Hi) as (t' & Hi' & [->|[_ H]]); [by exists t, c, k|].
  unfold unmoved in Hu. rewrite Hi, Hi' in Hu. apply andb_true_iff in Hu as [Hv Hn].
  apply eqb_prop in Hv. apply Nat.eqb_eq in Hn. destruct H; [congruence|lia].
Qed.

Lemma fair_queue f : fair_reachable f → Forall (asks_gate (fm_machine f)) (fm_queue f).
Proof.
  intros [now H]. revert f H. apply (rtc_ind_r (λ f, Forall (asks_gate (fm_machine f)) (fm_queue f)));
    [constructor|]. intros f f' Hr Hs IH.
  destruct Hs as [m queue i Ha Hq|m m' queue Hs Hg]; cbn in *.
  - apply Forall_app. split; [done|by apply Forall_singleton].
  - rewrite Forall_forall in IH |- *. intros i. rewrite list_elem_of_In, filter_In, <-list_elem_of_In.
    intros [Hi Hu]. eapply asks_unmoved; eauto.
Qed.

(** The queue only forbids steps. *)
Lemma fair_cache f : fair_reachable f → cache_reachable (fm_machine f).
Proof.
  intros [now H]. exists now. revert f H. apply (rtc_ind_r (λ f, rtc cache_step _ (fm_machine f))); [done|].
  intros f f' Hr Hs IH.
  destruct Hs as [m queue i Ha Hq|m m' queue Hs Hg]; [done|]. by eapply rtc_r.
Qed.

Lemma given_or_none m m' :
  cache_step m m' → (∀ i, ¬ given m m' i) ∨ ∃ i, asks_gate m i ∧ unmoved m m' i = false
    ∧ ∀ j, given m m' j → j = i.
Proof.
  intros Hs. destruct Hs as [s tasks fuel r|m i c k h r s' Hj Hr|s tasks i t0 Hj Hl|m e He Hc Hf
    |s tasks slot Hf Hl Hsl|s tasks now Hn].
  2: {
    assert (∀ j, given m {| mc_shared := s';
      mc_tasks := <[i:={| tk_live := true; tk_program := k r; tk_history := Entry c r :: h |}]> (mc_tasks m)
                    ++ spawned c |} j → j = i) as Hone.
    { intros j [_ (t & t' & Ht & Ht' & Hlen)]. cbn in Ht'. destruct (decide (j = i)) as [|Hne]; [done|].
      rewrite (lookup_app_l_Some _ _ _ t) in Ht' by (by rewrite list_lookup_insert_ne).
      injection Ht' as <-. lia. }
    assert (c = GateRead ∨ c = GateWrite ∨ (c ≠ GateRead ∧ c ≠ GateWrite)) as Hgate
      by (destruct c; (by left) || (by right; left) || (right; right; by split)).
    destruct Hgate as [Hg|[Hg|[Hg1 Hg2]]].
    3: { left. intros j Hj'. pose proof (Hone j Hj') as ->. destruct Hj' as [(t & c' & k' & Ht & _ & Hp & Hc') _].
         rewrite Hj in Ht. injection Ht as <-. cbn in Hp. injection Hp as -> _. by destruct Hc'. }
    all: right; exists i; split; [eexists _, c, k; by split_and!; [exact Hj|..|auto]|].
    all: split; [|done]; unfold unmoved; rewrite Hj; cbn;
      rewrite (lookup_app_l_Some _ _ _ _ (list_lookup_insert_eq _ _ _ (lookup_lt_Some _ _ _ Hj))); cbn;
      destruct (length h =? S (length h))%nat eqn:E; [apply Nat.eqb_eq in E; lia|done]. }
  all: left; intros j [_ (t & t' & Ht & Ht' & Hlen)]; cbn in Ht, Ht'.
  - rewrite (lookup_app_l_Some _ _ _ _ Ht) in Ht'. injection Ht' as <-. lia.
  - destruct (decide (j = i)) as [->|Hne].
    + rewrite list_lookup_insert_eq in Ht' by (by eapply lookup_lt_Some). injection Ht' as <-.
      rewrite Hj in Ht. injection Ht as ->. cbn in Hlen. lia.
    + rewrite list_lookup_insert_ne in Ht' by done. rewrite Ht in Ht'. injection Ht' as ->. lia.
  - rewrite (lookup_app_l_Some _ _ _ _ Ht) in Ht'. injection Ht' as <-. lia.
  - rewrite Ht in Ht'. injection Ht' as ->. lia.
  - rewrite Ht in Ht'. injection Ht' as ->. lia.
Qed.

(** Tasks that are given the gate as soon as they ask obey the queue. *)
Lemma cache_fair m : cache_reachable m → fair_reachable {| fm_machine := m; fm_queue := [] |}.
Proof.
  intros [now H]. exists now. revert m H.
  apply (rtc_ind_r (λ m, rtc fair_step _ {| fm_machine := m; fm_queue := [] |})); [done|].
  intros m m' Hr Hs IH.
  destruct (given_or_none _ _ Hs) as [Hno|(i & Ha & Hu & Hi)].
  - eapply rtc_r; [exact IH|]. apply (fair_move m m' []); [done|]. intros j Hj. by destruct (Hno j).
  - eapply rtc_r; [eapply rtc_r; [exact IH|]|].
    + apply (fair_arrive m [] i); [done|apply not_elem_of_nil].
    + assert (fair_step {| fm_machine := m; fm_queue := [i] |}
        {| fm_machine := m'; fm_queue := List.filter (unmoved m m') [i] |}) as Hf
        by (apply fair_move; [done|]; intros j Hj; by rewrite (Hi j Hj)).
      cbn [List.filter] in Hf. by rewrite Hu in Hf.
Qed.

(** *** Who can go on *)

Lemma not_waiting_free m i t c k :
  mc_tasks m !! i = Some t → tk_live t = true → tk_program t = Vis c k → ¬ waiting m i →
  match c with
  | GateRead => gate_free ReadGuard (mc_tasks m)
  | GateWrite => gate_free WriteGuard (mc_tasks m)
  | LockSlot slot => lock_free slot (mc_tasks m)
  | _ => True
  end.
Proof.
  intros Hi Hl Hp Hw.
  destruct c; try done; apply Forall_lookup; intros j t' Hj.
  1, 3: intros E; apply Hw; exists j, t; eexists _, k; split_and!; try done;
    cbn; by rewrite (owned_lookup _ _ _ Hj).
  destruct (hd_gate (task_held t')) eqn:E; [done|..]; exfalso; apply Hw; exists j, t;
    eexists _, k; split_and!; try done; cbn; rewrite (owned_lookup _ _ _ Hj); by rewrite E.
Qed.

(** A task that waits for no guard and is not in the way of the queue. *)
Lemma unblocked_intro f i t :
  mc_tasks (fm_machine f) !! i = Some t → tk_live t = true → ¬ waiting (fm_machine f) i →
  (asks_gate (fm_machine f) i → fm_queue f = [] ∨ head (fm_queue f) = Some i) → unblocked f i.
Proof.
  intros Hi Hl Hw Hq. exists t. split_and!; [done|done|].
  destruct (tk_program t) as [a|c k] eqn:Hp; [done|].
  pose proof (not_waiting_free _ _ _ _ _ Hi Hl Hp Hw) as Hf.
  destruct c; try done; (split; [exact Hf|apply Hq]; exists t; eexists _, k; split_and!; auto).
Qed.
(** From the front of the queue, at most two hops. *)
Lemma front_unblocked f i :
  system (fm_machine f) → asks_gate (fm_machine f) i →
  (fm_queue f = [] ∨ head (fm_queue f) = Some i) →
  ∃ j, bsteps (held_back f) 2 i j ∧ unblocked f j.
Proof.
  intros S Ha Hq. set (m := fm_machine f) in *. pose proof Ha as (t & c & k & Hi & Hl & Hp & Hc).
  assert (∀ j, hd_lock (owned m j) ≠ None ∨ hd_gate (owned m j) ≠ NoGuard → ¬ asks_gate m j) as Hno.
  { intros j Hj Haj. destruct (asks_owns m j S Haj) as [??]. by destruct Hj. }
  assert (∀ j, hd_lock (owned m j) ≠ None → unblocked f j) as Hlock.
  { intros j Hj. destruct (owned_live m j) as (t' & Ht & Hlv); [by intros E; rewrite E in Hj|].
    apply (unblocked_intro f j t' Ht Hlv); [by intros [Hn _]%(waiting_owns m j S)|].
    intros Haj. destruct (Hno j); auto. }
  destruct (waiting_decide m i) as [(g & Hig)|Hw].
  2: { exists i. split; [apply bsteps_refl|]. by apply (unblocked_intro f i t). }
  assert (hd_gate (owned m g) ≠ NoGuard) as Hg.
  { destruct Hig as (t' & c' & k' & Hi' & _ & Hp' & Hc'). rewrite Hi in Hi'. injection Hi' as <-.
    rewrite Hp in Hp'. injection Hp' as <- _. destruct Hc as [-> | ->]; cbn in Hc'; congruence. }
  destruct (waiting_decide m g) as [Hwg|Hwg].
  - destruct (waiting_owns m g S Hwg) as [_ [Hgn|(j & Hj & Hgj)]]; [done|].
    exists j. split; [|by apply Hlock]. eapply (bsteps_l _ 1); [by left|].
    eapply (bsteps_l _ 0); [by left|]. apply bsteps_refl.
  - destruct (owned_live m g) as (t' & Ht & Hlv); [by intros E; rewrite E in Hg|].
    exists g. split; [eapply (bsteps_l _ 1); [by left|apply bsteps_refl]|].
    apply (unblocked_intro f g t' Ht Hlv Hwg). intros Hag. destruct (Hno g); auto.
Qed.

(** *** No circles *)

Lemma waits_lock m i j : waits_for m i j → ¬ asks_gate m i → hd_lock (owned m j) ≠ None.
Proof.
  intros (t & c & k & Hi & Hl & Hp & Hc) Ha.
  destruct c; try done; [..|congruence]; destruct Ha; exists t; eexists _, k; split_and!; auto.
Qed.
Lemma waits_gate m i j : waits_for m i j → asks_gate m i → hd_gate (owned m j) ≠ NoGuard.
Proof.
  intros (t & c & k & Hi & Hl & Hp & Hc) (t' & c' & k' & Hi' & _ & Hp' & Hc').
  rewrite Hi in Hi'. injection Hi' as <-. rewrite Hp in Hp'. injection Hp' as <- _.
  destruct Hc' as [-> | ->]; cbn in Hc; congruence.
Qed.

Lemma chain_of_holder f i :
  system (fm_machine f) → ¬ asks_gate (fm_machine f) i → Acc (λ k j, held_back f j k) i.
Proof.
  intros S Ha. constructor. intros j [Hw|[Ha' _]]; [|done]. pose proof (waits_lock _ _ _ Hw Ha) as Hj.
  constructor. intros k [Hk|[Hk _]].
  - destruct (waiting_owns _ j S) as [Hn _]; [by exists k|done].
  - by destruct (asks_owns _ j S Hk).
Qed.

(** What stands before the first [i] of a list. *)
Lemma front_unique (i : nat) f1 b1 f2 b2 :
  f1 ++ i :: b1 = f2 ++ b2 → i ∉ f1 → i ∉ f2 → (b2 = [] ∨ head b2 = Some i) → f1 = f2.
Proof.
  revert f2. induction f1 as [|x f1 IH]; intros [|y f2] E H1 H2 Hb; cbn in *; simplify_eq.
  - done.
  - destruct H2. left.
  - destruct Hb as [|[= ->]]; [done|]. destruct H1. left.
  - rewrite not_elem_of_cons in H1, H2. destruct_and?. f_equal. by eapply IH.
Qed.

Lemma chain_of_queue f front i back : system (fm_machine f) →
  fm_queue f = front ++ i :: back → i ∉ front → Acc (λ k j, held_back f j k) i.
Proof.
  intros S. remember (length front) as n eqn:Hn. revert front i back Hn.
  induction (lt_wf n) as [n _ IH]. intros front i back -> Hq Hi. constructor.
  intros j [Hw|(Ha & front' & back' & Hq' & Hj & Hi' & Hb)].
  - apply chain_of_holder; [done|]. intros Haj.
    destruct (asks_owns _ j S Haj) as [Hnl Hng].
    assert (asks_gate (fm_machine f) i ∨ ¬ asks_gate (fm_machine f) i) as [Ha|Ha] by apply asks_decide.
    + by apply (waits_gate _ _ _ Hw Ha).
    + by apply (waits_lock _ _ _ Hw Ha).
  - assert (front = front') as <- by (by eapply front_unique; [rewrite <-Hq|..]).
    apply list_elem_of_split_l in Hj as (l1 & l2 & -> & Hl1).
    eapply (IH (length l1)); [rewrite length_app; cbn; lia|done| |done].
    by rewrite Hq, <-app_assoc.
Qed.

Lemma chains_end f i : system (fm_machine f) → Acc (λ k j, held_back f j k) i.
Proof.
  intros S. destruct (asks_decide (fm_machine f) i) as [Ha|Ha]; [|by apply chain_of_holder].
  constructor. intros j [Hw|(_ & front & back & Hq & Hj & _)].
  - apply chain_of_holder; [done|]. intros Haj. apply (waits_gate _ _ _ Hw Ha). by eapply asks_owns.
  - apply list_elem_of_split_l in Hj as (l1 & l2 & -> & Hl1).
    apply (chain_of_queue f l1 j (l2 ++ back)); [done| |done]. by rewrite Hq, <-app_assoc.
Qed.

(** C13. Waiting always ends at a task that can go on, with the gate a fair
    queue as tokio's is: follow what holds the next call of any live task back (a
    guard of the gate or the mutex of a slot that another task holds, or a task that
    queued for the gate before it, a reader behind a waiting writer included).  Some
    way of following arrives after at most three hops at a live task whose next call
    nothing holds back, and no way goes on for ever or round in a circle.  So the
    gate and the mutexes never deadlock among the tasks of the manager: its
    requests, its expiry and clean-up tasks, and the leases they returned, which
    wait for nothing until they are dropped.  A caller that asks for the gate again
    while it still holds a scope, as [load_terminal_snapshot] does, is not one of
    these tasks. *)
Theorem no_deadlock f i t :
  fair_reachable f → mc_tasks (fm_machine f) !! i = Some t → tk_live t = true →
  (∃ j, bsteps (held_back f) 3 i j ∧ unblocked f j)
  ∧ Acc (λ k j, held_back f j k) i.
Proof.
  intros Hf Hi Hl. split; [|by apply chains_end, reachable_system, fair_cache]. pose proof (fair_cache f Hf) as S%reachable_system.
  pose proof (fair_queue f Hf) as Hqueue. set (m := fm_machine f) in *.
  destruct (asks_decide m i) as [Ha|Ha].
  - destruct (fm_queue f) as [|j queue] eqn:Hq.
    { destruct (front_unblocked f i S Ha) as (j & Hj & Hu); [by left|].
      exists j. split; [|done]. eapply bsteps_weaken; [|done]. lia. }
    destruct (decide (i = j)) as [<-|Hne].
    { destruct (front_unblocked f i S Ha) as (j & Hj & Hu); [right; by rewrite Hq|].
      exists j. split; [|done]. eapply bsteps_weaken; [|done]. lia. }
    apply Forall_cons in Hqueue as [Haj _].
    destruct (front_unblocked f j S Haj) as (j' & Hj' & Hu); [right; by rewrite Hq|].
    exists j'. split; [|done]. eapply (bsteps_l _ 2); [|exact Hj']. right. split; [done|].
    destruct (decide (i ∈ queue)) as [Hin|Hin].
    + apply list_elem_of_split_l in Hin as (l1 & l2 & Hin & Hni).
      exists (j :: l1), (i :: l2). rewrite Hq, Hin, not_elem_of_cons. split_and!; [done|left|done..|by right].
    + exists (j :: queue), []. rewrite app_nil_r, not_elem_of_cons. split_and!; [done|left|done..|by left].
  - destruct (waiting_decide m i) as [Hw|Hw].
    2: { exists i. split; [apply bsteps_refl|]. by apply (unblocked_intro f i t). }
    destruct Hw as [j Hij]. pose proof (waits_lock _ _ _ Hij Ha) as Hj.
    exists j. split; [eapply (bsteps_l _ 2); [by left|apply bsteps_refl]|].
    destruct (owned_live m j) as (t' & Ht & Hlv); [by intros E; rewrite E in Hj|].
    apply (unblocked_intro f j t' Ht Hlv); [by intros [Hn _]%(waiting_owns m j S)|].
    intros Haj. by destruct (asks_owns m j S Haj).
Qed.

(** ** Rounds of the connection loop *)

(** A call made between two histories. *)
Definition during (h h' : cache_history) (x : entry CacheCall.res) : Prop :=
  ∃ l, h' = l ++ h ∧ x ∈ l.

(** The calls of a round that goes round again found a pool past its deadline. *)
Definition expired_round (slot : nat) (h h' : cache_history) : Prop :=
  ∃ e d now, during h h' (Entry (EntryRef slot) (Some e)) ∧ ce_retire_at e = Some d
    ∧ during h h' (Entry InstantNow now) ∧ d ≤ now.

Fixpoint rounds (slot n : nat) (h h' : cache_history) : Prop :=
  match n with
  | O => extends h h'
  | S n => ∃ h1, expired_round slot h h1 ∧ rounds slot n h1 h'
  end.

Abbreviation any p Q h := (wp (λ _ _, True) (λ _ _, True) p Q h).

Lemma extends_cons h h' x : extends h h' → extends h (x :: h').
Proof. intros [l ->]. by exists (x :: l). Qed.
Lemma during_cons h h' h1 x : extends h h1 → extends (x :: h1) h' → during h h' x.
Proof.
  intros [l ->] [l' ->]. exists (l' ++ x :: l). split; [by rewrite <-app_assoc|].
  apply elem_of_app. right. left.
Qed.
Lemma during_later h h1 h2 h' x : extends h h1 → during h1 h2 x → extends h2 h' → during h h' x.
Proof.
  intros [l ->] (l1 & -> & Hx) [l2 ->]. exists (l2 ++ l1 ++ l). split; [by rewrite <-!app_assoc|].
  apply elem_of_app. right. apply elem_of_app. by left.
Qed.
Lemma during_extends h h' x : during h h' x → extends h h'.
Proof. intros (l & -> & _). by exists l. Qed.

Lemma any_extends {A} (p : cache_program A) (Q : A → cache_history → Prop) h0 h :
  extends h0 h → (∀ a h', extends h0 h' → Q a h') → any p Q h.
Proof.
  revert h. induction p as [a|c k IH]; cbn; intros h Hh HQ; [by apply HQ|]. split; [done|].
  intros r _. apply IH; [by apply extends_cons|done].
Qed.

Lemma any_expired_at t (Q : bool → cache_history → Prop) h :
  (∀ r h', extends h h' → held h' = held h →
     (r = true → ∃ d now, t = Some d ∧ during h h' (Entry InstantNow now) ∧ d ≤ now) → Q r h') →
  any (expired_at t) Q h.
Proof.
  intros HQ. destruct t as [d|]; [|wp_step; by apply HQ].
  wp_step; [done|]. wp_step. apply HQ; [by apply extends_cons|done|].
  intros Hlt. exists d, r. split_and!; [done|by eapply during_cons|lia].
Qed.

Lemma honest_extends h h' : extends h h' → takes_seen h' → takes_seen h.
Proof. intros [l ->]. induction l as [|[c r] l IH]; [done|]. intros [H _]. by apply IH. Qed.

Ltac any_step :=
  first [wp_step; [done|]
        |wp_step; first [apply any_extends; [by repeat apply extends_cons|]]; intros ? ? ?].

(** Opening a pool always ends the loop. *)
Lemma any_open_pool self slot h0 h (Q : Turn → cache_history → Prop) :
  extends h0 h → (∀ r h', extends h0 h' → Q (Done r) h') → any (open_pool self slot) Q h.
Proof.
  intros Hh HQ.
  assert (∀ opened error h', extends h0 h' → any (discard slot opened error) Q h') as Hd.
  { intros opened error h' Hh'. unfold discard. wp_step; [done|]. wp_step.
    apply (any_extends _ _ h0); [by apply extends_cons|]. intros _ h2 H2. by apply HQ. }
  unfold open_pool. cbv zeta. wp_step. apply (any_extends _ _ h0); [done|]. intros [opened|error] h1 H1.
  - wp_step. apply (any_extends _ _ h0); [done|]. intros [[]|error] h2 H2; [|by apply Hd].
    wp_step. apply (any_extends _ _ h0); [done|]. intros [[]|error] h3 H3; [|by apply Hd].
    unfold publish. wp_step; [done|]. wp_step.
    apply (any_extends _ _ h0); [by apply extends_cons|]. intros [] h4 H4; [by apply Hd|].
    wp_step; [done|]. wp_step; [done|]. wp_step; [done|]. wp_step.
    apply (any_extends _ _ h0); [by repeat apply extends_cons|]. intros _ h5 H5. by apply HQ.
  - wp_step; [done|]. apply HQ. by apply extends_cons.
Qed.

(** A turn goes round again only past an expired pool. *)
Definition again_expired (slot : nat) (h : cache_history) (t : Turn) (h' : cache_history) : Prop :=
  extends h h' ∧ (t = Again → takes_seen h' → expired_round slot h h').

Lemma any_take self slot cached h0 h :
  extends h0 h → hd_seen (held h) = Some cached →
  (∀ e h', cached = Some e → extends h h' → expired_round slot h0 h') →
  any (await expired ← TakeEntry slot;
       match expired with
       | Some e => perform UnlockSlot slot; retire_entries [e] ≫= λ _, Ret Again
       | None => open_pool self slot
       end)%prog (again_expired slot h0) h.
Proof.
  intros Hh Hs He. wp_step; [done|]. destruct r as [e|].
  - wp_step; [done|]. wp_step. 
    apply (any_extends _ _ (Entry (UnlockSlot slot) r :: Entry (TakeEntry slot) (Some e) :: h)); [done|].
    intros _ h' H'. wp_step. split.
    { etrans; [|exact H']. by repeat apply extends_cons. }
    intros _ Hho. apply (honest_extends _ _ H') in Hho as [[_ Hho] _]. specialize (Hho _ Hs).
    apply (He e); [done|]. etrans; [|exact H']. by repeat apply extends_cons.
  - apply (any_open_pool _ _ h0); [by apply extends_cons|]. intros r h' H'. by split.
Qed.

Lemma any_use_cached self slot e h0 h :
  during h0 h (Entry (EntryRef slot) (Some e)) →
  any (use_cached self slot e) (again_expired slot h0) h.
Proof.
  intros Hd. pose proof (during_extends _ _ _ Hd) as Hh. unfold use_cached. cbv zeta.
  wp_step; [done|]. wp_step; [done|]. wp_step.
  apply (any_extends _ _ h); [by repeat apply extends_cons|]. intros [[]|error] h1 H1;
    [|wp_step; split; [by etrans|done]].
  wp_step. apply (any_extends _ _ h); [done|]. intros [[]|error] h2 H2;
    [|wp_step; split; [by etrans|done]].
  wp_step. apply any_expired_at. intros expired h3 H3 _ Hx.
  assert (extends h h3) as H4 by by etrans.
  destruct expired; [|wp_step; split; [by etrans|done]].
  destruct (Hx eq_refl) as (d & now & Hd0 & Hn & Hlt).
  wp_step; [done|]. wp_step; [done|]. wp_step.
  apply (any_extends _ _ h3); [by repeat apply extends_cons|]. intros retired h5 H5.
  wp_step; [done|]. wp_step; [done|]. wp_step.
  apply (any_extends _ _ h3); [by repeat apply extends_cons|]. intros _ h6 H6. wp_step.
  split; [etrans; [exact Hh|by etrans]|]. intros _ _. exists e, d, now. split_and!; [|done| |done].
  - eapply (during_later h0 h0 h); [done|done|by etrans].
  - eapply (during_later h0 h2 h3); [by etrans|done|done].
Qed.

Lemma any_connect_turn self slot h :
  any (connect_turn self slot) (again_expired slot h) h.
Proof.
  unfold connect_turn. wp_step; [done|]. wp_step; [done|]. rename r0 into cached. wp_step.
  assert (extends h (Entry (EntryRef slot) cached :: Entry (LockSlot slot) r :: h)) as Hh
    by by repeat apply extends_cons.
  destruct cached as [e|]; [|wp_step; by eapply any_take].
  wp_step. apply any_expired_at. intros expired h1 H1 Hk Hx. wp_step.
  assert (during h h1 (Entry (EntryRef slot) (Some e))) as Hd
    by (eapply during_cons; [|exact H1]; by apply extends_cons).
  destruct expired; [|by apply any_use_cached].
  destruct (Hx eq_refl) as (d & now & Hd0 & Hn & Hlt).
  apply (any_take _ _ (Some e)); [by etrans|by rewrite Hk|].
  intros e' h2 [= <-] H2. exists e, d, now. split_and!; [|done| |done].
  - by eapply (during_later h h h1).
  - by eapply (during_later h _ h1).
Qed.

(** The connection loop ends: each time it goes round again it found, in that
    round, a cached pool whose deadline had passed on the clock it read.  So with
    [n] turns allowed it can only run out of them by meeting an expired pool in
    each of the [n]; a connection whose pools have no deadline returns in its
    first turn.  (Histories of reachable states are [takes_seen].) *)
Theorem connect_rounds fuel self slot h :
  any (connect_loop fuel self slot)
    (λ r h', r = None → takes_seen h' → rounds slot fuel h h') h.
Proof.
  revert h. induction fuel as [|fuel IH]; intros h; cbn [connect_loop]; [by intros _ _|].
  wp_step. eapply wp_mono; [|apply any_connect_turn]. intros [|r] h1 [H1 He]; [|by wp_step].
  eapply wp_mono; [|apply wp_frame, IH]. intros r h2 [Hr Hx] Hn Hh.
  exists h1. split; [|by apply Hr]. apply He; [done|]. by eapply honest_extends.
Qed.
End safety.

(** ** Running the machine *)

Module CacheSample.

#[export] Instance gate_free_dec {P : Platform} g tasks : Decision (gate_free g tasks).
Proof. unfold gate_free. destruct g; apply _. Defined.
#[export] Instance lock_free_dec {P : Platform} slot tasks : Decision (lock_free slot tasks).
Proof. unfold lock_free. apply _. Defined.

(** One way everything outside the manager answers: every call succeeds. *)
Definition live : Live :=
  LiveSql {| read_pool := RunSample.pool; write_pool := RunSample.pool; skip_fk_metadata := false |}.
Definition outside (c : CacheCall.t) : CacheCall.res c :=
  match c return CacheCall.res c with
  | Service c => (RunSample.oracle c RunSample.world).1
  | SlotEntry _ => 0%nat
  | SlotKeys => []
  | RemoveSlot _ | EntryRef _ | TakeEntry _ => None
  | NewEntry o g => {| ce_arc := 0; ce_live := ol_live o; ce_generation := g;
                       ce_retire_at := None; ce_managed_lease := None |}
  | TryUnwrap _ | TimeoutElapsed => false
  | NextGeneration | InstantNow => 0
  | FetchSecret _ => Ok ""
  | IssueLease _ _ profile _ =>
      Ok {| ml_lease_id := Sample.uid 7; ml_profile := profile; ml_secret := "";
            ml_valid_for := from_secs 60 |}
  | DriverConnect _ _ => Ok live
  | TestLive _ | StoreScopeChange _ | StoreMaterialChange _ => Ok tt
  | _ => tt
  end.

Definition answer_call (m : Machine) (c : CacheCall.t) : option (CacheCall.res c * Shared) :=
  let s := mc_shared m in
  match c return option (CacheCall.res c * Shared) with
  | GateRead => if decide (gate_free ReadGuard (mc_tasks m)) then Some (tt, s) else None
  | GateWrite => if decide (gate_free WriteGuard (mc_tasks m)) then Some (tt, s) else None
  | SlotEntry key => Some (slot_for key s)
  | SlotKeys => Some ((sh_slots s).*1, s)
  | RemoveSlot key => Some (remove_slot key s)
  | LockSlot slot => if decide (lock_free slot (mc_tasks m)) then Some (tt, s) else None
  | EntryRef slot => Some (slot_entry slot s, s)
  | TakeEntry slot => Some (slot_entry slot s, put_entry slot None s)
  | SetEntry slot e => Some (tt, put_entry slot (Some e) s)
  | NewEntry opened generation =>
      let e := {| ce_arc := length (sh_entries s); ce_live := ol_live opened;
                  ce_generation := generation; ce_retire_at := ol_retire_at opened;
                  ce_managed_lease := ol_managed_lease opened |} in
      Some (e, allocate e s)
  | TryUnwrap e =>
      let unique := (references (ce_arc e) m =? 1)%nat in
      Some (unique, if unique then consume (ce_arc e) s else s)
  | NextGeneration => Some (sh_next_generation s, bump_generation s)
  | InstantNow => Some (sh_now s, s)
  | SleepUntil deadline => if decide (deadline ≤ sh_now s) then Some (tt, s) else None
  | c => Some (outside c, s)
  end.

Lemma answer_call_responds m c r s' : answer_call m c = Some (r, s') → cache_respond m c r s'.
Proof.
  destruct c; cbn; intros H; repeat case_decide; try done;
    try (injection H as <- <-; done); try (by injection H as H; rewrite H); by injection H as <-.
Qed.

(** A request, the next call of a task, or the end of one. *)
Inductive action := Ask (r : Request) | Go (i : nat) | Stop (i : nat).

Definition act (m : Machine) (a : action) : option Machine :=
  match a with
  | Ask r => Some {| mc_shared := mc_shared m;
                     mc_tasks := mc_tasks m ++ [start (request_program 3 r)] |}
  | Go i =>
      t ← mc_tasks m !! i;
      match tk_live t, tk_program t with
      | true, Vis c k =>
          '(r, s') ← answer_call m c;
          Some {| mc_shared := s';
                  mc_tasks := <[i := {| tk_live := true; tk_program := k r;
                                        tk_history := Entry c r :: tk_history t |}]> (mc_tasks m)
                                ++ spawned c |}
      | _, _ => None
      end
  | Stop i =>
      t ← mc_tasks m !! i;
      if tk_live t then Some {| mc_shared := mc_shared m; mc_tasks := <[i := stopped t]> (mc_tasks m) |}
      else None
  end.

Fixpoint acts (m : Machine) (l : list action) : option Machine :=
  match l with [] => Some m | a :: l => m ← act m a; acts m l end.

Lemma act_step m a m' : act m a = Some m' → cache_step m m'.
Proof.
  destruct a as [r|i|i]; cbn.
  - intros [= <-]. destruct m. constructor.
  - destruct (mc_tasks m !! i) as [[[] [o|c k] h]|] eqn:Hi; cbn; try done.
    destruct (answer_call m c) as [[r s']|] eqn:Ha; cbn; [|done]. intros [= <-].
    apply step_call; [done|]. by apply answer_call_responds.
  - destruct (mc_tasks m !! i) as [t|] eqn:Hi; cbn; [|done]. destruct (tk_live t) eqn:Hl; [|done].
    intros [= <-]. destruct m. by apply step_stop.
Qed.

Lemma acts_steps m l m' : acts m l = Some m' → rtc cache_step m m'.
Proof.
  revert m. induction l as [|a l IH]; cbn; intros m; [by intros [= ->]|].
  destruct (act m a) as [m1|] eqn:Ha; cbn; [|done]. intros H.
  eapply rtc_l; [by eapply act_step|by apply IH].
Qed.

Definition empty : @Machine Reference.platform := {| mc_shared := new_shared 0; mc_tasks := [] |}.
Definition go (n i : nat) : list action := replicate n (Go i).
Definition id : Uuid := Sample.uid 3.
Definition ask : action := Ask (Acquire id ConnectionAccess.Read).

(** Two tasks ask for one connection: the first is about to open its pool, the
    second waits for the slot. *)
Definition opening_run : list action := [ask; ask] ++ go 10 0 ++ go 5 1.
(** A task holds a lease. *)
Definition lease_run : list action := [ask] ++ go 20 0.
(** It is dropped, and a change of scope is about to reopen the gate. *)
Definition publishing_run : list action :=
  lease_run ++ [Stop 0; Ask (ChangeScope (RemoveWorkspaceAccount "a"))] ++ go 7 2.
(** It closes the pool, and another task gets a lease. *)
Definition later_run : list action := go 5 2 ++ [ask] ++ go 20 3.

Definition task_is (f : Task → bool) (m : option Machine) (i : nat) : bool :=
  match m ≫= (λ m, mc_tasks m !! i) with Some t => tk_live t && f t | None => false end.
Definition next_is (f : CacheCall.t → bool) (t : Task) : bool :=
  match tk_program t with Vis c _ => f c | Ret _ => false end.
Definition is_some {A} (o : option A) : bool := match o with Some _ => true | None => false end.

Definition opening_b (t : Task) : bool := next_is opens t && is_some (hd_slot (task_held t)).
Definition leases_b (t : Task) : bool :=
  match tk_program t with Ret (Leased _) => true | _ => false end.
Definition publishing_b (t : Task) : bool :=
  next_is (λ c, match c with GateRelease => true | _ => false end) t
  && is_some (hd_change (task_held t)).

Lemma task_is_run f l i m0 :
  task_is f (acts m0 l) i = true →
  ∃ m t, rtc cache_step m0 m ∧ acts m0 l = Some m ∧ mc_tasks m !! i = Some t ∧ tk_live t = true ∧ f t = true.
Proof.
  unfold task_is. destruct (acts m0 l) as [m|] eqn:Hm; cbn; [|done].
  destruct (mc_tasks m !! i) as [t|] eqn:Ht; [|done]. intros [Hl Hf]%andb_true_iff.
  exists m, t. split_and!; try done. by eapply acts_steps.
Qed.

Lemma opening_b_spec t : tk_live t = true → opening_b t = true → ∃ key, opening t key.
Proof.
  unfold opening_b, next_is, is_some. intros Hl [Hc Hs]%andb_true_iff.
  destruct (tk_program t) as [|c k] eqn:Hp; [done|].
  destruct (hd_slot (task_held t)) as [[key slot]|] eqn:Hk; [|done].
  exists key. split; [done|]. split; [by exists c, k|by exists slot].
Qed.
Lemma leases_b_spec t : tk_live t = true → leases_b t = true → ∃ lease, leases_pool t lease.
Proof.
  unfold leases_b. intros Hl. destruct (tk_program t) as [[lease|]|c k] eqn:Hp; try done.
  intros _. by exists lease.
Qed.
Lemma publishing_b_spec t : tk_live t = true → publishing_b t = true → ∃ wanted, publishing t wanted.
Proof.
  unfold publishing_b, next_is, is_some. intros Hl [Hc Hs]%andb_true_iff.
  destruct (tk_program t) as [|c k] eqn:Hp; [done|]. destruct c; try done.
  destruct (hd_change (task_held t)) as [wanted|] eqn:Hk; [|done].
  exists wanted. split; [done|]. split; [by exists k|done].
Qed.

(** It asks for the mutex of the first slot; it holds it. *)
Definition locks_b : Task → bool :=
  next_is (λ c, match c with LockSlot slot => Nat.eqb slot 0 | _ => false end).
Definition locked_b (t : Task) : bool :=
  match hd_lock (task_held t) with Some slot => Nat.eqb slot 0 | None => false end.
Lemma waits_spec m i j t t0 :
  mc_tasks m !! i = Some t → tk_live t = true → locks_b t = true →
  mc_tasks m !! j = Some t0 → locked_b t0 = true → waiting m i.
Proof.
  unfold locks_b, next_is, locked_b. intros Hi Hl Hb Hj Hb'.
  destruct (tk_program t) as [|c k] eqn:Hp; [done|]. destruct c; try done.
  destruct (hd_lock (task_held t0)) as [y|] eqn:Hy; [|done].
  apply Nat.eqb_eq in Hb, Hb'. subst. exists j, t, (LockSlot 0), k.
  by rewrite (owned_lookup m j t0 Hj).
Qed.

Lemma reachable_run m : rtc cache_step empty m → cache_reachable m.
Proof. intros H. by exists 0. Qed.
End CacheSample.

Lemma single_flight_witness :
  ∃ (m : @Machine Reference.platform) t key, cache_reachable m ∧ opening t key
    ∧ ∀ slot, (key, slot) ∈ sh_slots (mc_shared m) → slot_entry slot (mc_shared m) = None.
Proof.
  assert (CacheSample.task_is CacheSample.opening_b
    (CacheSample.acts CacheSample.empty CacheSample.opening_run) 0 = true) as H by (vm_compute; reflexivity).
  apply CacheSample.task_is_run in H as (m & t & Hm & _ & Ht & Hl & Ho).
  destruct (CacheSample.opening_b_spec t Hl Ho) as [key Hk]. apply CacheSample.reachable_run in Hm.
  exists m, t, key. split; [done|]. split; [done|]. by apply (single_flight m 0 0 t t key).
Defined.

Lemma lease_isolated_witness :
  ∃ (m : @Machine Reference.platform) t lease, cache_reachable m ∧ leases_pool t lease
    ∧ ∃ j t' pin' access', mc_tasks m !! j = Some t'
        ∧ same_authority (cl_pin lease) pin' (cl_access lease) access'
        ∧ vetted pin' access' (ce_live (cl_entry lease)) (tk_history t').
Proof.
  assert (CacheSample.task_is CacheSample.leases_b
    (CacheSample.acts CacheSample.empty CacheSample.lease_run) 0 = true) as H by (vm_compute; reflexivity).
  apply CacheSample.task_is_run in H as (m & t & Hm & _ & Ht & Hl & Ho).
  destruct (CacheSample.leases_b_spec t Hl Ho) as [lease Hk]. apply CacheSample.reachable_run in Hm.
  exists m, t, lease. split; [done|]. split; [done|]. by apply (lease_isolated m 0 t lease).
Defined.

Lemma leased_pool_stays_open_witness :
  ∃ (m : @Machine Reference.platform) t lease, cache_reachable m ∧ leases_pool t lease
    ∧ ce_arc (cl_entry lease) ∉ sh_consumed (mc_shared m).
Proof.
  assert (CacheSample.task_is CacheSample.leases_b
    (CacheSample.acts CacheSample.empty CacheSample.lease_run) 0 = true) as H by (vm_compute; reflexivity).
  apply CacheSample.task_is_run in H as (m & t & Hm & _ & Ht & Hl & Ho).
  destruct (CacheSample.leases_b_spec t Hl Ho) as [lease Hk]. apply CacheSample.reachable_run in Hm.
  exists m, t, lease. split; [done|]. split; [done|]. by apply (leased_pool_stays_open m 0 t lease).
Defined.

Lemma no_deadlock_witness :
  ∃ (f : @FairMachine Reference.platform) j, fair_reachable f ∧ waiting (fm_machine f) 1
    ∧ bsteps (held_back f) 3 1%nat j ∧ unblocked f j.
Proof.
  assert (CacheSample.task_is CacheSample.locks_b
    (CacheSample.acts CacheSample.empty CacheSample.opening_run) 1 = true) as H by (vm_compute; reflexivity).
  assert (CacheSample.task_is CacheSample.locked_b
    (CacheSample.acts CacheSample.empty CacheSample.opening_run) 0 = true) as H' by (vm_compute; reflexivity).
  apply CacheSample.task_is_run in H as (m & t & Hm & Ha & Ht & Hl & Hb).
  apply CacheSample.task_is_run in H' as (m' & t0 & _ & Ha' & Ht' & Hl' & Hb').
  rewrite Ha in Ha'. injection Ha' as <-. apply CacheSample.reachable_run in Hm.
  apply cache_fair in Hm.
  destruct (no_deadlock {| fm_machine := m; fm_queue := [] |} 1%nat t Hm Ht Hl) as [(j & Hj & Hu) _].
  pose proof (CacheSample.waits_spec m 1%nat 0%nat t t0 Ht Hl Hb Ht' Hb') as Hw.
  exact (ex_intro _ _ (ex_intro _ j (conj Hm (conj Hw (conj Hj Hu))))).
Defined.

Lemma change_publishes_witness :
  ∃ (m m' : @Machine Reference.platform) t t' lease wanted, cache_reachable m ∧ publishing t wanted
    ∧ rtc cache_step m m' ∧ leases_pool t' lease
    ∧ (wanted (cache_key (cl_pin lease) (cl_access lease)) = true →
       (length (sh_entries (mc_shared m)) ≤ ce_arc (cl_entry lease))%nat).
Proof.
  assert (CacheSample.task_is CacheSample.publishing_b
    (CacheSample.acts CacheSample.empty CacheSample.publishing_run) 2 = true) as H by (vm_compute; reflexivity).
  assert (match CacheSample.acts CacheSample.empty CacheSample.publishing_run with
          | Some m => CacheSample.task_is CacheSample.leases_b (CacheSample.acts m CacheSample.later_run) 3
          | None => false
          end = true) as H' by (vm_compute; reflexivity).
  apply CacheSample.task_is_run in H as (m & t & Hm & Ha & Ht & Hl & Ho). rewrite Ha in H'. cbv beta iota in H'.
  apply CacheSample.task_is_run in H' as (m' & t' & Hm' & _ & Ht' & Hl' & Ho').
  destruct (CacheSample.publishing_b_spec t Hl Ho) as [wanted Hw].
  destruct (CacheSample.leases_b_spec t' Hl' Ho') as [lease Hk]. apply CacheSample.reachable_run in Hm.
  exists m, m', t, t', lease, wanted. split; [done|]. split; [done|]. split; [done|]. split; [done|].
  exact (proj2 (change_publishes m 2%nat t wanted Hm Ht Hw) m' 3%nat t' lease Hm' Ht' Hk).
Defined.
