(* ===== verification/StoreData.v ===== *)
(** * The tables of the local store (src-tauri/src/store/{mod,migrations}.rs)

    The workspace, connection and artifact tables of app.db with the codecs of
    their columns.  A table with a primary key is a finite map from the key to the
    other columns; a row holds the columns as SQLite stores them.  The three
    operation tables are in Schema.v, the audit log in AuditLog.v. *)

From S2P Require Export Effects Catalog.

(** ** What SQLite and sqlx add *)

(** [ORDER BY] leaves ties in any order; [decode_datetime] reads a TEXT column
    as a [DateTime<Utc>], which [rfc3339] writes; [uuid_error] is the text of the
    error of a parse. *)
Class Sqlite := {
  order_by : ∀ {A}, (A → A → comparison) → list A → list A;
  decode_datetime : string → option DateTime;
  uuid_error : string → string;
}.

Definition in_order {A} (cmp : A → A → comparison) (l : list A) : Prop :=
  StronglySorted (λ x y, cmp x y ≠ Gt) l.

Class SqliteLaws (P : Platform) (Q : Sqlite) : Prop := {
  order_by_perm {A} (cmp : A → A → comparison) l : order_by cmp l ≡ₚ l;
  order_by_sorted {A} (cmp : A → A → comparison) {T : TotalCmp cmp} l :
    in_order cmp (order_by cmp l);
  column_datetime_roundtrip t : clock_ok t → decode_datetime (rfc3339 t) = Some t;
  rfc3339_text_roundtrip t : clock_ok t → parse_rfc3339 (rfc3339 t) = Some t;
}.

Definition desc {A} (cmp : A → A → comparison) (x y : A) : comparison := cmp y x.

(** A column that cannot be decoded. *)
Definition column_error : AppError := Db (OtherSqlx "error occurred while decoding column").

(** [migrations::PERSONAL_WORKSPACE_ID] *)
Definition PERSONAL_WORKSPACE_ID : string := "00000000-0000-0000-0000-000000000001".

(** ** Codecs *)

Definition provider_str (provider : Provider.t) : string :=
  match provider with
  | Provider.Auto => "auto"
  | Provider.Generic => "generic"
  | Provider.Neon => "neon"
  | Provider.PlanetScale => "planetScale"
  | Provider.GcpCloudSql => "gcpCloudSql"
  end.
Definition parse_provider (s : string) : AppResult Provider.t :=
  match s with
  | "auto" => Ok Provider.Auto
  | "generic" => Ok Provider.Generic
  | "neon" => Ok Provider.Neon
  | "planetScale" => Ok Provider.PlanetScale
  | "gcpCloudSql" => Ok Provider.GcpCloudSql
  | other => Err (Config ("unknown provider '" +:+ other +:+ "'"))
  end.

Definition workspace_access_str (access : WorkspaceConnectionAccess.t) : string :=
  match access with
  | WorkspaceConnectionAccess.View => "view"
  | WorkspaceConnectionAccess.Read => "read"
  | WorkspaceConnectionAccess.Write => "write"
  | WorkspaceConnectionAccess.Manage => "manage"
  | WorkspaceConnectionAccess.Local => "local"
  end.
Definition parse_workspace_access (s : string) : AppResult WorkspaceConnectionAccess.t :=
  match s with
  | "view" => Ok WorkspaceConnectionAccess.View
  | "read" => Ok WorkspaceConnectionAccess.Read
  | "write" => Ok WorkspaceConnectionAccess.Write
  | "manage" => Ok WorkspaceConnectionAccess.Manage
  | "local" => Ok WorkspaceConnectionAccess.Local
  | other => Err (Config ("unknown workspace connection access '" +:+ other +:+ "'"))
  end.

Definition credential_mode_str (mode : WorkspaceCredentialMode.t) : string :=
  match mode with
  | WorkspaceCredentialMode.Local => "local"
  | WorkspaceCredentialMode.MemberLocal => "member_local"
  | WorkspaceCredentialMode.Managed => "managed"
  end.
Definition parse_credential_mode (s : string) : AppResult WorkspaceCredentialMode.t :=
  match s with
  | "local" => Ok WorkspaceCredentialMode.Local
  | "member_local" => Ok WorkspaceCredentialMode.MemberLocal
  | "managed" => Ok WorkspaceCredentialMode.Managed
  | other => Err (Config ("unknown workspace credential mode '" +:+ other +:+ "'"))
  end.

Definition workspace_kind_str (kind : WorkspaceKind.t) : string :=
  match kind with WorkspaceKind.Personal => "personal" | WorkspaceKind.Team => "team" end.
Definition parse_workspace_kind (kind : string) : AppResult WorkspaceKind.t :=
  match kind with
  | "personal" => Ok WorkspaceKind.Personal
  | "team" => Ok WorkspaceKind.Team
  | other => Err (Config ("unknown workspace kind '" +:+ other +:+ "'"))
  end.

Module WorkspaceRole.
Inductive t := Viewer | Analyst | Editor | Admin | Owner.
End WorkspaceRole.

Definition workspace_role_str (role : WorkspaceRole.t) : string :=
  match role with
  | WorkspaceRole.Viewer => "viewer"
  | WorkspaceRole.Analyst => "analyst"
  | WorkspaceRole.Editor => "editor"
  | WorkspaceRole.Admin => "admin"
  | WorkspaceRole.Owner => "owner"
  end.
Definition parse_workspace_role (role : string) : AppResult WorkspaceRole.t :=
  match role with
  | "viewer" => Ok WorkspaceRole.Viewer
  | "analyst" => Ok WorkspaceRole.Analyst
  | "editor" => Ok WorkspaceRole.Editor
  | "admin" => Ok WorkspaceRole.Admin
  | "owner" => Ok WorkspaceRole.Owner
  | other => Err (Config ("unknown workspace role '" +:+ other +:+ "'"))
  end.

Module WorkspaceLifecycleState.
Inductive t := Active | Archived | Deleted.
End WorkspaceLifecycleState.

(** The inline match of [row_to_workspace]. *)
Definition parse_lifecycle_state (s : string) : AppResult WorkspaceLifecycleState.t :=
  match s with
  | "active" => Ok WorkspaceLifecycleState.Active
  | "archived" => Ok WorkspaceLifecycleState.Archived
  | "deleted" => Ok WorkspaceLifecycleState.Deleted
  | other => Err (Config ("unknown workspace lifecycle state '" +:+ other +:+ "'"))
  end.

Module AgentProvider.
Inductive t := Claude | Codex.
End AgentProvider.

Definition agent_provider_str (p : AgentProvider.t) : string :=
  match p with AgentProvider.Claude => "claude" | AgentProvider.Codex => "codex" end.
Definition parse_agent_provider (s : string) : AppResult AgentProvider.t :=
  match s with
  | "claude" => Ok AgentProvider.Claude
  | "codex" => Ok AgentProvider.Codex
  | other => Err (Config ("unknown agent provider '" +:+ other +:+ "'"))
  end.

Lemma provider_codec p : parse_provider (provider_str p) = Ok p.
Proof. by destruct p. Qed.
Lemma workspace_access_codec a : parse_workspace_access (workspace_access_str a) = Ok a.
Proof. by destruct a. Qed.
Lemma credential_mode_codec m : parse_credential_mode (credential_mode_str m) = Ok m.
Proof. by destruct m. Qed.
Lemma workspace_kind_codec k : parse_workspace_kind (workspace_kind_str k) = Ok k.
Proof. by destruct k. Qed.
Lemma workspace_kind_str_inj k k' : workspace_kind_str k = workspace_kind_str k' → k = k'.
Proof. by destruct k, k'. Qed.

(** A [u64] stored in an INTEGER column ([as i64]) and read back ([as u64]). *)
Definition as_i64 (n : Z) : Z := if n <=? i64_max then n else n - 2 ^ 64.
Definition as_u64 (n : Z) : Z := if n <? 0 then n + 2 ^ 64 else n.
(** [as u16] *)
Definition as_u16 (n : Z) : Z := n mod 2 ^ 16.

Lemma as_u64_i64 n : 0 ≤ n ≤ u64_max → as_u64 (as_i64 n) = n.
Proof.
  unfold as_u64, as_i64, u64_max, i64_max. intros Hn. destruct (Z.leb_spec n (2 ^ 63 - 1)).
  - destruct (Z.ltb_spec n 0); lia.
  - destruct (Z.ltb_spec (n - 2 ^ 64) 0); lia.
Qed.
Lemma as_u16_small n : 0 ≤ n ≤ u16_max → as_u16 n = n.
Proof. intros Hn. apply Z.mod_small. unfold u16_max in Hn. lia. Qed.

(** [str::parse::<i64>]: an optional sign and decimal digits, in range. *)
Fixpoint read_digits (acc : Z) (s : string) : option Z :=
  match s with
  | EmptyString => Some acc
  | String c s =>
      let d := Z.of_N (byte c) - 48 in
      if (0 <=? d) && (d <=? 9) then read_digits (10 * acc + d) s else None
  end.
Definition read_decimal (s : string) : option Z :=
  match s with EmptyString => None | _ => read_digits 0 s end.
Definition parse_i64 (s : string) : option Z :=
  n ← match s with
      | String "-" s => Z.opp <$> read_decimal s
      | String "+" s => read_decimal s
      | _ => read_decimal s
      end;
  if (i64_min <=? n) && (n <=? i64_max) then Some n else None.

Lemma read_digits_char acc (n : N) s :
  (n < 10)%N → read_digits acc (String (pretty_N_char n) s) = read_digits (10 * acc + Z.of_N n) s.
Proof.
  intros Hn.
  assert (n = 0 ∨ n = 1 ∨ n = 2 ∨ n = 3 ∨ n = 4 ∨ n = 5 ∨ n = 6 ∨ n = 7 ∨ n = 8 ∨ n = 9)%N as H by lia.
  destruct_or! H; by subst.
Qed.

Lemma read_digits_pretty (x : N) s : read_digits 0 (pretty_N_go x s) = read_digits (Z.of_N x) s.
Proof.
  revert s. induction (N.lt_wf_0 x) as [x _ IH]. intros s.
  destruct (decide (x = 0)%N) as [->|Hx]; [by rewrite pretty_N_go_0|].
  rewrite pretty_N_go_step by lia. rewrite IH by (apply N.div_lt; lia).
  rewrite read_digits_char by (apply N.mod_lt; done). f_equal.
  rewrite N2Z.inj_div, N2Z.inj_mod. pose proof (Z.div_mod (Z.of_N x) 10). lia.
Qed.

Lemma read_decimal_pretty (n : Z) : 0 ≤ n → read_decimal (pretty n) = Some n.
Proof.
  intros Hn. unfold read_decimal, pretty, pretty_Z. destruct n as [|p|p]; [done| |lia].
  unfold pretty, pretty_positive, pretty, pretty_N. rewrite decide_False by done.
  pose proof (read_digits_pretty (N.pos p) "") as H. cbn [read_digits] in H. 
  destruct (pretty_N_go (N.pos p) "") eqn:E; [|exact H]. 
  cbn in H. injection H as H. lia.
Qed.

Lemma parse_i64_pretty (n : Z) : 0 ≤ n ≤ i64_max → parse_i64 (pretty n) = Some n.
Proof.
  intros Hn. pose proof (read_decimal_pretty n (proj1 Hn)) as H. unfold parse_i64.
  assert ((match (pretty n : string) with
           | String "-" s => Z.opp <$> read_decimal s
           | String "+" s => read_decimal s
           | _ => read_decimal (pretty n)
           end) = Some n) as E.
  { destruct (pretty n : string) as [|c s]; [done|].
    destruct c as [[] [] [] [] [] [] [] []]; try exact H; discriminate H. }
  rewrite E. cbn. unfold i64_min, i64_max in *. 
  destruct (Z.leb_spec (- 2 ^ 63) n); [|lia]. destruct (Z.leb_spec n (2 ^ 63 - 1)); [done|lia].
Qed.

(** ** Rows *)

Record WorkspaceRow := {
  ws_name : string; ws_kind : string; ws_lifecycle_state : string;
  ws_created_at : string; ws_updated_at : string;
}.
(** A row with a [user_id].  The only other row of the table is the local owner of
    the Personal Workspace, which no query selects. *)
Record MemberRow := {
  mem_id : string; mem_display_name : string; mem_role : string; mem_status : string;
  mem_joined_at : string;
}.
Record AccountRow := {
  acc_email : string; acc_display_name : string; acc_last_workspace_id : option string;
  acc_created_at : string; acc_updated_at : string; acc_last_used_at : string;
}.
Record ConnectionRow := {
  con_name : string; con_engine : string; con_provider : string; con_driver_id : option string;
  con_host : string; con_port : Z; con_db_name : string; con_username : string;
  con_sslmode : string; con_extra_params : string; con_secret_ref : option string;
  con_readonly_default : bool; con_allow_writes : bool; con_env : option string;
  con_schema_group : option string; con_workspace_id : string;
  con_account_user_id : option string; con_remote_id : option string; con_revision : Z;
  con_sync_status : string; con_workspace_access : string; con_credential_mode : string;
  con_deleted_at : option string; con_created_at : string; con_updated_at : string;
}.
Record BindingRow := {
  bnd_username : string; bnd_extra_params : string; bnd_secret_ref : option string;
  bnd_workspace_access : string; bnd_allow_writes : bool; bnd_revision : Z;
  bnd_updated_at : string;
}.
Record SafetyRow := {
  saf_require_approval : bool; saf_allow_writes : bool; saf_wrap_writes_in_tx : bool;
  saf_explain_preview : bool; saf_auto_run_reads : bool; saf_max_rows : Z;
  saf_exec_preview_row_limit : Z;
}.
Record OutboxRow := {
  obx_id : string; obx_workspace_id : string; obx_resource_type : string;
  obx_resource_id : string; obx_operation : string; obx_revision : Z; obx_created_at : string;
}.
Record HistoryRow := {
  his_connection_id : string; his_account_scope : string; his_sql : string; his_kind : string;
  his_status : string; his_row_count : option Z; his_duration_ms : option Z;
  his_error : option string; his_executed_at : string; his_origin : string;
}.
Record DashboardRow := {
  dsh_id : string; dsh_connection_id : string; dsh_title : string; dsh_description : string;
  dsh_sql : string; dsh_visualization_json : string; dsh_workspace_id : string;
  dsh_revision : Z; dsh_sync_status : string; dsh_deleted_at : option string;
  dsh_created_at : string; dsh_updated_at : string;
}.
Record CacheRow := {
  cch_connection_revision : Z; cch_binding_revision : Z; cch_binding_updated_at : string;
  cch_catalog_schema_version : Z; cch_fingerprint : string; cch_captured_at : string;
  cch_catalog_json : string;
}.
Record ThreadRow := {
  thr_provider : string; thr_connection_id : option string; thr_workspace_id : string;
  thr_account_scope : string; thr_title : string; thr_cli_session_id : option string;
  thr_model : option string; thr_effort : option string; thr_created_at : string;
  thr_updated_at : string;
}.
Record MessageRow := {
  msg_thread_id : string; msg_role : string; msg_text : string; msg_error : option string;
  msg_created_at : string;
}.

#[export] Instance ConnectionRow_eq_dec : EqDecision ConnectionRow.
Proof. solve_decision. Defined.
#[export] Instance BindingRow_eq_dec : EqDecision BindingRow.
Proof. solve_decision. Defined.

(** UPDATEs of a connection. *)
Definition set_con_account (account : option string) (c : ConnectionRow) : ConnectionRow :=
  {| con_name := con_name c; con_engine := con_engine c; con_provider := con_provider c;
     con_driver_id := con_driver_id c; con_host := con_host c; con_port := con_port c;
     con_db_name := con_db_name c; con_username := con_username c; con_sslmode := con_sslmode c;
     con_extra_params := con_extra_params c; con_secret_ref := con_secret_ref c;
     con_readonly_default := con_readonly_default c; con_allow_writes := con_allow_writes c;
     con_env := con_env c; con_schema_group := con_schema_group c;
     con_workspace_id := con_workspace_id c; con_account_user_id := account;
     con_remote_id := con_remote_id c; con_revision := con_revision c;
     con_sync_status := con_sync_status c; con_workspace_access := con_workspace_access c;
     con_credential_mode := con_credential_mode c; con_deleted_at := con_deleted_at c;
     con_created_at := con_created_at c; con_updated_at := con_updated_at c |}.
Definition set_con_credentials (username extra_params : string) (secret_ref : option string) (c : ConnectionRow) : ConnectionRow :=
  {| con_name := con_name c; con_engine := con_engine c; con_provider := con_provider c;
     con_driver_id := con_driver_id c; con_host := con_host c; con_port := con_port c;
     con_db_name := con_db_name c; con_username := username; con_sslmode := con_sslmode c;
     con_extra_params := extra_params; con_secret_ref := secret_ref;
     con_readonly_default := con_readonly_default c; con_allow_writes := con_allow_writes c;
     con_env := con_env c; con_schema_group := con_schema_group c;
     con_workspace_id := con_workspace_id c; con_account_user_id := con_account_user_id c;
     con_remote_id := con_remote_id c; con_revision := con_revision c;
     con_sync_status := con_sync_status c; con_workspace_access := con_workspace_access c;
     con_credential_mode := con_credential_mode c; con_deleted_at := con_deleted_at c;
     con_created_at := con_created_at c; con_updated_at := con_updated_at c |}.
Definition set_con_group (group : option string) (now : string) (c : ConnectionRow) : ConnectionRow :=
  {| con_name := con_name c; con_engine := con_engine c; con_provider := con_provider c;
     con_driver_id := con_driver_id c; con_host := con_host c; con_port := con_port c;
     con_db_name := con_db_name c; con_username := con_username c; con_sslmode := con_sslmode c;
     con_extra_params := con_extra_params c; con_secret_ref := con_secret_ref c;
     con_readonly_default := con_readonly_default c; con_allow_writes := con_allow_writes c;
     con_env := con_env c; con_schema_group := group; con_workspace_id := con_workspace_id c;
     con_account_user_id := con_account_user_id c; con_remote_id := con_remote_id c;
     con_revision := con_revision c + 1; con_sync_status := "dirty";
     con_workspace_access := con_workspace_access c; con_credential_mode := con_credential_mode c;
     con_deleted_at := con_deleted_at c; con_created_at := con_created_at c;
     con_updated_at := now |}.
Definition set_con_deleted (revision : Z) (sync_status now : string) (c : ConnectionRow) : ConnectionRow :=
  {| con_name := con_name c; con_engine := con_engine c; con_provider := con_provider c;
     con_driver_id := con_driver_id c; con_host := con_host c; con_port := con_port c;
     con_db_name := con_db_name c; con_username := con_username c; con_sslmode := con_sslmode c;
     con_extra_params := con_extra_params c; con_secret_ref := con_secret_ref c;
     con_readonly_default := con_readonly_default c; con_allow_writes := con_allow_writes c;
     con_env := con_env c; con_schema_group := con_schema_group c;
     con_workspace_id := con_workspace_id c; con_account_user_id := con_account_user_id c;
     con_remote_id := con_remote_id c; con_revision := revision; con_sync_status := sync_status;
     con_workspace_access := con_workspace_access c; con_credential_mode := con_credential_mode c;
     con_deleted_at := Some now; con_created_at := con_created_at c; con_updated_at := now |}.

(** ** The database *)

(** [workspaces], [workspace_members] by workspace and user,
    [workspace_accounts] and [app_settings]. *)
Record ScopeTables := {
  workspaces : gmap string WorkspaceRow;
  members : gmap (string * string) MemberRow;
  accounts : gmap string AccountRow;
  settings : gmap string string;
}.
(** [connections], [workspace_connection_bindings] by connection and account,
    [connection_safety] and [sync_outbox]. *)
Record ConnectionTables := {
  connections : gmap string ConnectionRow;
  bindings : gmap (string * string) BindingRow;
  safeties : gmap string SafetyRow;
  outbox : list OutboxRow;
}.
(** [query_history], [dashboards] by rowid, [schema_cache] by connection and
    account scope, [schema_cache_v2] by workspace, account scope and connection,
    [agent_chat_threads] and [agent_chat_messages]. *)
Record ArtifactTables := {
  histories : gmap string HistoryRow;
  dashboards : list DashboardRow;
  schema_cache : gmap (string * string) string;
  schema_cache_v2 : gmap (string * string * string) CacheRow;
  threads : gmap string ThreadRow;
  messages : gmap string MessageRow;
}.
Record StoreDb := {
  db_scope : ScopeTables;
  db_connections : ConnectionTables;
  db_artifacts : ArtifactTables;
}.

Definition on_scope (f : ScopeTables → ScopeTables) (db : StoreDb) : StoreDb :=
  {| db_scope := f (db_scope db); db_connections := db_connections db;
     db_artifacts := db_artifacts db |}.
Definition on_connections (f : ConnectionTables → ConnectionTables) (db : StoreDb) : StoreDb :=
  {| db_scope := db_scope db; db_connections := f (db_connections db);
     db_artifacts := db_artifacts db |}.
Definition on_artifacts (f : ArtifactTables → ArtifactTables) (db : StoreDb) : StoreDb :=
  {| db_scope := db_scope db; db_connections := db_connections db;
     db_artifacts := f (db_artifacts db) |}.

Definition on_workspaces f (t : ScopeTables) : ScopeTables :=
  {| workspaces := f (workspaces t); members := members t; accounts := accounts t;
     settings := settings t |}.
Definition on_members f (t : ScopeTables) : ScopeTables :=
  {| workspaces := workspaces t; members := f (members t); accounts := accounts t;
     settings := settings t |}.
Definition on_accounts f (t : ScopeTables) : ScopeTables :=
  {| workspaces := workspaces t; members := members t; accounts := f (accounts t);
     settings := settings t |}.
Definition on_settings f (t : ScopeTables) : ScopeTables :=
  {| workspaces := workspaces t; members := members t; accounts := accounts t;
     settings := f (settings t) |}.

Definition on_rows f (t : ConnectionTables) : ConnectionTables :=
  {| connections := f (connections t); bindings := bindings t; safeties := safeties t;
     outbox := outbox t |}.
Definition on_bindings f (t : ConnectionTables) : ConnectionTables :=
  {| connections := connections t; bindings := f (bindings t); safeties := safeties t;
     outbox := outbox t |}.
Definition on_safeties f (t : ConnectionTables) : ConnectionTables :=
  {| connections := connections t; bindings := bindings t; safeties := f (safeties t);
     outbox := outbox t |}.
Definition on_outbox f (t : ConnectionTables) : ConnectionTables :=
  {| connections := connections t; bindings := bindings t; safeties := safeties t;
     outbox := f (outbox t) |}.

Definition on_histories f (t : ArtifactTables) : ArtifactTables :=
  {| histories := f (histories t); dashboards := dashboards t; schema_cache := schema_cache t;
     schema_cache_v2 := schema_cache_v2 t; threads := threads t; messages := messages t |}.
Definition on_dashboards f (t : ArtifactTables) : ArtifactTables :=
  {| histories := histories t; dashboards := f (dashboards t); schema_cache := schema_cache t;
     schema_cache_v2 := schema_cache_v2 t; threads := threads t; messages := messages t |}.
Definition on_schema_cache f (t : ArtifactTables) : ArtifactTables :=
  {| histories := histories t; dashboards := dashboards t; schema_cache := f (schema_cache t);
     schema_cache_v2 := schema_cache_v2 t; threads := threads t; messages := messages t |}.
Definition on_schema_cache_v2 f (t : ArtifactTables) : ArtifactTables :=
  {| histories := histories t; dashboards := dashboards t; schema_cache := schema_cache t;
     schema_cache_v2 := f (schema_cache_v2 t); threads := threads t; messages := messages t |}.
Definition on_threads f (t : ArtifactTables) : ArtifactTables :=
  {| histories := histories t; dashboards := dashboards t; schema_cache := schema_cache t;
     schema_cache_v2 := schema_cache_v2 t; threads := f (threads t); messages := messages t |}.
Definition on_messages f (t : ArtifactTables) : ArtifactTables :=
  {| histories := histories t; dashboards := dashboards t; schema_cache := schema_cache t;
     schema_cache_v2 := schema_cache_v2 t; threads := threads t; messages := f (messages t) |}.

(** A transaction: committed when the body succeeds, rolled back otherwise. *)
Definition commit {A} (body : StoreDb → AppResult (A * StoreDb)) (db : StoreDb)
  : AppResult A * StoreDb :=
  match body db with Ok (a, db') => (Ok a, db') | Err e => (Err e, db) end.

(** A database just migrated for the first time. *)
Definition fresh_store (now : string) : StoreDb := {|
  db_scope := {|
    workspaces := {[ PERSONAL_WORKSPACE_ID :=
      {| ws_name := "Personal Workspace"; ws_kind := "personal"; ws_lifecycle_state := "active";
         ws_created_at := now; ws_updated_at := now |} ]};
    members := ∅; accounts := ∅;
    settings := {[ "active_workspace_id" := PERSONAL_WORKSPACE_ID;
                   "active_scope_generation" := "0" ]} |};
  db_connections := {| connections := ∅; bindings := ∅; safeties := ∅; outbox := [] |};
  db_artifacts := {| histories := ∅; dashboards := []; schema_cache := ∅; schema_cache_v2 := ∅;
                     threads := ∅; messages := ∅ |};
|}.
