(* ===== verification/StoreScope.v ===== *)
(** * Workspaces, accounts and the active scope (src-tauri/src/store/mod.rs)

    One function per statement or transaction of the local store; a method that
    runs several is a program in StoreMethods.v.  The selected workspace and
    account live in [settings] with a generation that every committed selection
    raises.  Clock readings ([now]) and fresh identifiers are arguments. *)

From S2P Require Export StoreData.

Section scope.
Context {P : Platform} {Q : Sqlite}.

Record Workspace := {
  wk_id : Uuid; wk_name : string; wk_kind : WorkspaceKind.t;
  wk_lifecycle_state : WorkspaceLifecycleState.t; wk_created_at : DateTime;
  wk_updated_at : DateTime;
}.
Record WorkspaceAuthUser := { us_id : string; us_email : string; us_display_name : string }.
Record WorkspaceAccountMembership := { ms_workspace_id : Uuid; ms_role : WorkspaceRole.t }.

(** ** Columns *)

(** [parse_uuid] *)
Definition parse_uuid_text (s : string) : AppResult Uuid :=
  ok_or (Config ("bad uuid '" +:+ s +:+ "': " +:+ uuid_error s)) (uuid_parse s).

Definition column_datetime (s : string) : AppResult DateTime :=
  ok_or column_error (decode_datetime s).

Definition row_to_workspace (r : string * WorkspaceRow) : AppResult Workspace :=
  id ← parse_uuid_text r.1;
  kind ← parse_workspace_kind (ws_kind r.2);
  lifecycle_state ← parse_lifecycle_state (ws_lifecycle_state r.2);
  created_at ← column_datetime (ws_created_at r.2);
  updated_at ← column_datetime (ws_updated_at r.2);
  Ok {| wk_id := id; wk_name := ws_name r.2; wk_kind := kind;
        wk_lifecycle_state := lifecycle_state; wk_created_at := created_at;
        wk_updated_at := updated_at |}.

(** ** Conditions the statements share *)

Definition is_active_member (t : ScopeTables) (workspace_id user_id : string) : bool :=
  match members t !! (workspace_id, user_id) with
  | Some m => (mem_status m =? "active")%string
  | None => false
  end.
(** An account that may be absent. *)
Definition is_active_account (t : ScopeTables) (workspace_id : string) (account : option string)
  : bool :=
  match account with Some user_id => is_active_member t workspace_id user_id | None => false end.

Definition active_workspace_row (t : ScopeTables) (id : string) : option WorkspaceRow :=
  w ← workspaces t !! id;
  if (ws_lifecycle_state w =? "active")%string then Some w else None.

Definition selected_workspace (t : ScopeTables) : option string :=
  settings t !! "active_workspace_id".
Definition selected_account (t : ScopeTables) : option string :=
  settings t !! "active_workspace_account_id".
Definition scope_generation (t : ScopeTables) : option string :=
  settings t !! "active_scope_generation".

Definition is_personal (w : WorkspaceRow) : bool := (ws_kind w =? "personal")%string.

(** The workspace the statements call [active], as each of them joins it. *)
Definition selected_row (t : ScopeTables) : option (string * WorkspaceRow) :=
  id ← selected_workspace t; w ← active_workspace_row t id; Some (id, w).

Definition scope_open (t : ScopeTables) (id : string) (w : WorkspaceRow) : bool :=
  is_personal w || is_active_account t id (selected_account t).

(** ** Reading the scope *)

Definition list_workspaces (t : ScopeTables) : AppResult (list Workspace) :=
  mapM row_to_workspace
    (order_by (λ x y, then_with (string_cmp (ws_kind x.2) (ws_kind y.2))
                                (string_cmp (ws_name x.2) (ws_name y.2)))
       (List.filter (λ r, ws_lifecycle_state r.2 =? "active")%string (map_to_list (workspaces t)))).

(** The statements of [workspace_accounts]. *)
Definition account_rows (t : ScopeTables) : list (string * AccountRow) :=
  order_by (λ x y, then_with (desc string_cmp (acc_last_used_at x.2) (acc_last_used_at y.2))
                             (string_cmp (acc_created_at x.2) (acc_created_at y.2)))
    (map_to_list (accounts t)).
Definition account_memberships (user_id : string) (t : ScopeTables)
  : AppResult (list WorkspaceAccountMembership) :=
  mapM (λ m : (string * string) * MemberRow,
          workspace_id ← ok_or (Config (uuid_error m.1.1)) (uuid_parse m.1.1);
          role ← parse_workspace_role (mem_role m.2);
          Ok {| ms_workspace_id := workspace_id; ms_role := role |})
    (order_by (λ x y, string_cmp (mem_joined_at x.2) (mem_joined_at y.2))
       (List.filter (λ m : (string * string) * MemberRow,
                       (m.1.2 =? user_id)%string && (mem_status m.2 =? "active")%string)
          (map_to_list (members t)))).

Definition active_workspace_account_id (t : ScopeTables) : option string := selected_account t.

Definition parse_scope_generation (raw : string) : AppResult Z :=
  generation ← ok_or (Config "active scope generation is invalid") (parse_i64 raw);
  _ ← reject_if (generation <? 0) (Config "active scope generation is invalid");
  Ok generation.

Definition nonempty (o : option string) : option string :=
  s ← o; if (s =? "")%string then None else Some s.

(** [active_scope_from_row] *)
Definition active_scope_from_row (workspace_id kind : string) (account : option string)
    (generation : string) : AppResult ActiveResourceScope :=
  id ← parse_uuid_text workspace_id;
  workspace_kind ← parse_workspace_kind kind;
  account_scope ← match workspace_kind with
                  | WorkspaceKind.Personal => Ok Model.Personal
                  | WorkspaceKind.Team =>
                      user_id ← ok_or (Config "a team workspace has no active account")
                                  (nonempty account);
                      Ok (Model.WorkspaceUser user_id)
                  end;
  generation ← parse_scope_generation generation;
  Ok {| sc_workspace_id := id; sc_workspace_kind := workspace_kind;
        sc_selected_account_id := account; sc_account_scope := account_scope;
        sc_generation := generation |}.

Definition active_resource_scope (t : ScopeTables) : AppResult ActiveResourceScope :=
  '(id, w, generation) ←
    ok_or (Config "no active workspace scope is configured")
      ('(id, w) ← selected_row t;
       generation ← scope_generation t;
       if scope_open t id w then Some (id, w, generation) else None);
  active_scope_from_row id (ws_kind w) (selected_account t) generation.

Definition active_workspace (t : ScopeTables) : AppResult Workspace :=
  row ← ok_or (Config "no active workspace is configured")
          ('(id, w) ← selected_row t; if scope_open t id w then Some (id, w) else None);
  row_to_workspace row.

Definition active_workspace_id (t : ScopeTables) : AppResult Uuid :=
  scope ← active_resource_scope t; Ok (sc_workspace_id scope).
Definition active_local_scope (t : ScopeTables) : AppResult string :=
  scope ← active_resource_scope t; Ok (storage_key (sc_account_scope scope)).

(** [account_scope_from_parts], [row_to_active_resource_scope] *)
Definition account_scope_from_parts (workspace_kind : WorkspaceKind.t)
    (selected_account_id : option string) (stored_scope : string) : AppResult AccountScope :=
  match workspace_kind with
  | WorkspaceKind.Personal =>
      if (stored_scope =? "personal")%string then Ok Model.Personal
      else Err (Config "Personal Workspace has an invalid local scope")
  | WorkspaceKind.Team =>
      user_id ← ok_or (Config "a team workspace has no active account")
                  (nonempty selected_account_id);
      _ ← reject_if (negb (stored_scope =? user_id)%string)
            (Config "active workspace scope is internally inconsistent");
      Ok (Model.WorkspaceUser user_id)
  end.

Definition row_to_active_resource_scope (workspace_id kind : string) (account : option string)
    (account_scope generation : string) : AppResult ActiveResourceScope :=
  generation ← parse_scope_generation generation;
  workspace_kind ← parse_workspace_kind kind;
  account_scope ← account_scope_from_parts workspace_kind account account_scope;
  id ← parse_uuid_text workspace_id;
  Ok {| sc_workspace_id := id; sc_workspace_kind := workspace_kind;
        sc_selected_account_id := account; sc_account_scope := account_scope;
        sc_generation := generation |}.

(** [CASE WHEN w.kind = 'personal' THEN 'personal' ELSE account.value END] *)
Definition account_scope_column (w : WorkspaceRow) (account : option string) : option string :=
  if is_personal w then Some "personal" else account.

(** ** Changing the scope *)

Definition set_setting (key value : string) : ScopeTables → ScopeTables := on_settings <[key := value]>.
Definition delete_setting (key : string) : ScopeTables → ScopeTables := on_settings (delete key).
(** An UPDATE changes a row that exists. *)
Definition update_setting (key value : string) : ScopeTables → ScopeTables :=
  on_settings (alter (λ _, value) key).

(** [bump_active_scope_generation] *)
Definition bump_active_scope_generation (t : ScopeTables) : AppResult ScopeTables :=
  current ← match scope_generation t with
            | Some raw => parse_scope_generation raw
            | None => Ok 0
            end;
  next ← ok_or (Config "active scope generation overflowed") (i64_succ current);
  Ok (set_setting "active_scope_generation" (pretty next) t).

Definition remember_workspace_account (user : WorkspaceAuthUser) (now : DateTime)
  : ScopeTables → ScopeTables :=
  on_accounts (λ accounts,
    <[us_id user :=
      match accounts !! us_id user with
      | Some a => {| acc_email := us_email user; acc_display_name := us_display_name user;
                     acc_last_workspace_id := acc_last_workspace_id a;
                     acc_created_at := acc_created_at a; acc_updated_at := rfc3339 now;
                     acc_last_used_at := acc_last_used_at a |}
      | None => {| acc_email := us_email user; acc_display_name := us_display_name user;
                   acc_last_workspace_id := None; acc_created_at := rfc3339 now;
                   acc_updated_at := rfc3339 now; acc_last_used_at := rfc3339 now |}
      end]> accounts).

(** The last workspace of an account, or the first of its workspaces by name. *)
Definition membership_open (t : ScopeTables) (user_id workspace_id : string) : option WorkspaceRow :=
  if is_active_member t workspace_id user_id then active_workspace_row t workspace_id else None.
Definition preferred_workspace (t : ScopeTables) (user_id : string) : option string :=
  match (a ← accounts t !! user_id; id ← acc_last_workspace_id a;
         _ ← membership_open t user_id id; Some id) with
  | Some id => Some id
  | None =>
      fst <$> head (order_by (λ x y : string * WorkspaceRow, string_cmp (ws_name x.2) (ws_name y.2))
        (omap (λ m : (string * string) * MemberRow,
                 if (m.1.2 =? user_id)%string then pair m.1.1 <$> membership_open t user_id m.1.1
                 else None)
           (map_to_list (members t))))
  end.

(** [repair_active_scope_after_membership_change], in its three parts: an account
    that is no longer known is deselected; *)
Definition drop_unknown_account (t : ScopeTables) : option string * ScopeTables * bool :=
  match selected_account t with
  | Some user_id =>
      if bool_decide (is_Some (accounts t !! user_id)) then (Some user_id, t, false)
      else (None, delete_setting "active_workspace_account_id" t, true)
  | None => (None, t, false)
  end.

(** the selected workspace is checked against the account; *)
Definition current_is_valid (workspace_id : string) (account : option string) (t : ScopeTables)
  : bool :=
  match active_workspace_row t workspace_id with
  | Some w => is_personal w || is_active_account t workspace_id account
  | None => false
  end.

(** and another one selected. *)
Definition fallback_workspace (account : option string) (t : ScopeTables) : string :=
  match account with
  | Some user_id => default PERSONAL_WORKSPACE_ID (preferred_workspace t user_id)
  | None => PERSONAL_WORKSPACE_ID
  end.
Definition select_fallback (account : option string) (now : DateTime) (t : ScopeTables) : ScopeTables :=
  let fallback_workspace_id := fallback_workspace account t in
  let t := update_setting "active_workspace_id" fallback_workspace_id t in
  match account with
  | Some user_id =>
      on_accounts (alter (λ a,
        {| acc_email := acc_email a; acc_display_name := acc_display_name a;
           acc_last_workspace_id :=
             if (fallback_workspace_id =? PERSONAL_WORKSPACE_ID)%string
             then acc_last_workspace_id a else Some fallback_workspace_id;
           acc_created_at := acc_created_at a; acc_updated_at := rfc3339 now;
           acc_last_used_at := rfc3339 now |}) user_id) t
  | None => t
  end.

Definition repair_active_scope (now : DateTime) (t : ScopeTables) : AppResult (bool * ScopeTables) :=
  current_workspace_id ← ok_or (Config "no active workspace is configured") (selected_workspace t);
  let '(selected_account_id, t, account_setting_repaired) := drop_unknown_account t in
  if current_is_valid current_workspace_id selected_account_id t then
    if account_setting_repaired then t ← bump_active_scope_generation t; Ok (true, t)
    else Ok (false, t)
  else
    t ← bump_active_scope_generation (select_fallback selected_account_id now t);
    Ok (true, t).

(** [UPDATE workspaces SET lifecycle_state = 'archived' ...]: team workspaces no
    account is an active member of. *)
Definition has_active_member (t : ScopeTables) (workspace_id : string) : bool :=
  existsb (λ m : (string * string) * MemberRow,
             (m.1.1 =? workspace_id)%string && (mem_status m.2 =? "active")%string)
    (map_to_list (members t)).
Definition archive_abandoned (now : DateTime) (t : ScopeTables) : ScopeTables :=
  on_workspaces (map_imap (λ id w, Some
    (if (ws_kind w =? "team")%string && negb (has_active_member t id)
     then {| ws_name := ws_name w; ws_kind := ws_kind w; ws_lifecycle_state := "archived";
             ws_created_at := ws_created_at w; ws_updated_at := rfc3339 now |}
     else w))) t.

(** [activate_workspace]: who may select a workspace, what is stored for the
    account, and the transaction. *)
Definition may_select (key : string) (workspace : Workspace) (account_user_id : option string)
    (t : ScopeTables) : AppResult unit :=
  match account_user_id, wk_kind workspace with
  | Some user_id, kind =>
      _ ← reject_if (negb (bool_decide (is_Some (accounts t !! user_id))))
            (NotFound ("workspace account " +:+ user_id));
      match kind with
      | WorkspaceKind.Team =>
          reject_if (negb (is_active_member t key user_id))
            (NotFound ("workspace " +:+ key +:+ " for account " +:+ user_id))
      | WorkspaceKind.Personal => Ok tt
      end
  | None, WorkspaceKind.Team =>
      Err (Config "a team workspace must be selected with an authenticated account")
  | None, WorkspaceKind.Personal => Ok tt
  end.

Definition select_account (key : string) (workspace : Workspace) (account_user_id : option string)
    (now : DateTime) (t : ScopeTables) : ScopeTables :=
  match account_user_id with
  | Some user_id =>
      on_accounts (alter (λ a,
        {| acc_email := acc_email a; acc_display_name := acc_display_name a;
           acc_last_workspace_id :=
             match wk_kind workspace with
             | WorkspaceKind.Team => Some key
             | WorkspaceKind.Personal => acc_last_workspace_id a
             end;
           acc_created_at := acc_created_at a; acc_updated_at := rfc3339 now;
           acc_last_used_at := rfc3339 now |}) user_id)
        (set_setting "active_workspace_account_id" user_id t)
  | None => delete_setting "active_workspace_account_id" t
  end.

Definition activate_workspace (id : Uuid) (account_user_id : option string) (now : DateTime)
    (t : ScopeTables) : AppResult (Workspace * ScopeTables) :=
  let key := uuid_to_string id in
  w ← ok_or (NotFound ("workspace " +:+ key)) (active_workspace_row t key);
  workspace ← row_to_workspace (key, w);
  _ ← may_select key workspace account_user_id t;
  t ← bump_active_scope_generation
        (set_setting "active_workspace_id" key (select_account key workspace account_user_id now t));
  Ok (workspace, t).

(** The account used last takes over, or none. *)
Definition latest_account (t : ScopeTables) : option string :=
  fst <$> head (order_by (λ x y : string * AccountRow,
                  desc string_cmp (acc_last_used_at x.2) (acc_last_used_at y.2))
                  (map_to_list (accounts t))).
Definition select_other_account (t : ScopeTables) : ScopeTables :=
  match latest_account t with
  | Some fallback_account =>
      let t := update_setting "active_workspace_account_id" fallback_account t in
      update_setting "active_workspace_id" (fallback_workspace (Some fallback_account) t) t
  | None =>
      update_setting "active_workspace_id" PERSONAL_WORKSPACE_ID
        (delete_setting "active_workspace_account_id" t)
  end.

(** [remove_workspace_account]'s transaction. *)
Definition remove_workspace_account (user_id : string) (now : DateTime) (t : ScopeTables)
  : AppResult (unit * ScopeTables) :=
  let t := on_members (map_imap (λ k m, if (k.2 =? user_id)%string then None else Some m)) t in
  let t := archive_abandoned now (on_accounts (delete user_id) t) in
  if bool_decide (selected_account t = Some user_id) then
    t ← bump_active_scope_generation (select_other_account t); Ok (tt, t)
  else Ok (tt, t).

(** ** [sync_account_workspaces] *)

(** One workspace of the server's answer, with the identifier its membership gets
    if it is new. *)
Record RemoteWorkspace := {
  rw_id : Uuid; rw_name : string; rw_role : WorkspaceRole.t; rw_member_id : Uuid;
}.

Definition archive_memberships (user_id : string) : ScopeTables → ScopeTables :=
  on_members (map_imap (λ k m, Some
    (if (k.2 =? user_id)%string
     then {| mem_id := mem_id m; mem_display_name := mem_display_name m; mem_role := mem_role m;
             mem_status := "archived"; mem_joined_at := mem_joined_at m |}
     else m))).

Definition upsert_team (r : RemoteWorkspace) (now : DateTime) : ScopeTables → ScopeTables :=
  on_workspaces (λ workspaces,
    <[uuid_to_string (rw_id r) :=
      match workspaces !! uuid_to_string (rw_id r) with
      | Some w =>
          if (ws_kind w =? "team")%string
          then {| ws_name := rw_name r; ws_kind := ws_kind w; ws_lifecycle_state := "active";
                  ws_created_at := ws_created_at w; ws_updated_at := rfc3339 now |}
          else w
      | None => {| ws_name := rw_name r; ws_kind := "team"; ws_lifecycle_state := "active";
                   ws_created_at := rfc3339 now; ws_updated_at := rfc3339 now |}
      end]> workspaces).

Definition member_id_used (t : ScopeTables) (id : string) : bool :=
  existsb (λ m : (string * string) * MemberRow, (mem_id m.2 =? id)%string)
    (map_to_list (members t)).

Definition upsert_membership (user : WorkspaceAuthUser) (r : RemoteWorkspace) (now : DateTime)
    (t : ScopeTables) : AppResult ScopeTables :=
  let key := (uuid_to_string (rw_id r), us_id user) in
  match members t !! key with
  | Some m =>
      Ok (on_members <[key :=
            {| mem_id := mem_id m; mem_display_name := us_display_name user;
               mem_role := workspace_role_str (rw_role r); mem_status := "active";
               mem_joined_at := mem_joined_at m |}]> t)
  | None =>
      _ ← reject_if (member_id_used t (uuid_to_string (rw_member_id r)))
            (constraint_failed "UNIQUE constraint failed: workspace_members.id");
      Ok (on_members <[key :=
            {| mem_id := uuid_to_string (rw_member_id r); mem_display_name := us_display_name user;
               mem_role := workspace_role_str (rw_role r); mem_status := "active";
               mem_joined_at := rfc3339 now |}]> t)
  end.

Fixpoint upsert_memberships (user : WorkspaceAuthUser) (l : list RemoteWorkspace) (now : DateTime)
    (t : ScopeTables) : AppResult ScopeTables :=
  match l with
  | [] => Ok t
  | r :: l =>
      t ← upsert_membership user r now (upsert_team r now t);
      upsert_memberships user l now t
  end.

(** Legacy team-local connections and credentials become the account's. *)
Definition adopt_connections (user_id : string) (t : ScopeTables)
  : gmap string ConnectionRow → gmap string ConnectionRow :=
  fmap (λ c,
    if bool_decide (con_remote_id c = None ∧ con_account_user_id c = None)
       && is_active_member t (con_workspace_id c) user_id
    then set_con_account (Some user_id) c
    else c).

(** A shared template that still holds credentials. *)
Definition holds_credentials (c : ConnectionRow) : bool :=
  negb (con_username c =? "")%string || negb (con_extra_params c =? "{}")%string
  || bool_decide (is_Some (con_secret_ref c)).
Definition legacy_template (user_id : string) (t : ScopeTables) (c : ConnectionRow) : bool :=
  bool_decide (is_Some (con_remote_id c)) && is_active_member t (con_workspace_id c) user_id
  && holds_credentials c.

Definition adopt_credentials (user_id : string) (now : DateTime) (t : ScopeTables)
    (connections : gmap string ConnectionRow) : gmap (string * string) BindingRow →
    gmap (string * string) BindingRow :=
  λ bindings, bindings ∪ kmap (λ id, (id, user_id)) (omap (λ c,
    if legacy_template user_id t c
    then Some {| bnd_username := con_username c; bnd_extra_params := con_extra_params c;
                 bnd_secret_ref := con_secret_ref c; bnd_workspace_access := "view";
                 bnd_allow_writes := false; bnd_revision := 1; bnd_updated_at := rfc3339 now |}
    else None) connections).

Definition redact_templates (user_id : string) (t : ScopeTables)
  : gmap string ConnectionRow → gmap string ConnectionRow :=
  fmap (λ c,
    if legacy_template user_id t c
    then set_con_credentials "" "{}" None c
    else c).

(** The connections of the account's team workspaces. *)
Definition team_connection (user_id : string) (db : StoreDb) (connection_id : string) : bool :=
  match connections (db_connections db) !! connection_id with
  | Some c =>
      is_active_member (db_scope db) (con_workspace_id c) user_id
      && match workspaces (db_scope db) !! con_workspace_id c with
         | Some w => (ws_kind w =? "team")%string
         | None => false
         end
  | None => false
  end.

Definition rescope_histories (user_id : string) (db : StoreDb) : StoreDb :=
  on_artifacts (on_histories (fmap (λ h,
    if (his_account_scope h =? "personal")%string && team_connection user_id db (his_connection_id h)
    then {| his_connection_id := his_connection_id h; his_account_scope := user_id;
            his_sql := his_sql h; his_kind := his_kind h; his_status := his_status h;
            his_row_count := his_row_count h; his_duration_ms := his_duration_ms h;
            his_error := his_error h; his_executed_at := his_executed_at h;
            his_origin := his_origin h |}
    else h))) db.

(** The key of a legacy cache row changes; two rows may not get the same. *)
Definition moved_cache (user_id : string) (db : StoreDb) : gmap (string * string) string :=
  filter (λ r : (string * string) * string,
            r.1.2 = "personal" ∧ team_connection user_id db r.1.1 = true)
    (schema_cache (db_artifacts db)).
Definition rescope_schema_cache (user_id : string) (db : StoreDb) : AppResult StoreDb :=
  let moved := moved_cache user_id db in
  let kept := schema_cache (db_artifacts db) ∖ moved in
  let renamed := list_to_map ((λ r, ((r.1.1, user_id), r.2)) <$> map_to_list moved)
                 : gmap (string * string) string in
  _ ← reject_if (negb (bool_decide (kept ##ₘ renamed)))
        (constraint_failed "UNIQUE constraint failed: schema_cache.connection_id, schema_cache.account_scope");
  Ok (on_artifacts (on_schema_cache (λ _, kept ∪ renamed)) db).

Definition rescope_threads (user_id : string) (db : StoreDb) : StoreDb :=
  on_artifacts (on_threads (fmap (λ r,
    match thr_connection_id r with
    | Some id =>
        if (thr_account_scope r =? "personal")%string && team_connection user_id db id
        then {| thr_provider := thr_provider r; thr_connection_id := thr_connection_id r;
                thr_workspace_id := match connections (db_connections db) !! id with
                                    | Some c => con_workspace_id c
                                    | None => thr_workspace_id r
                                    end;
                thr_account_scope := user_id; thr_title := thr_title r;
                thr_cli_session_id := thr_cli_session_id r; thr_model := thr_model r;
                thr_effort := thr_effort r; thr_created_at := thr_created_at r;
                thr_updated_at := thr_updated_at r |}
        else r
    | None => r
    end))) db.

Definition forget_last_workspace (user_id : string) (t : ScopeTables) : ScopeTables :=
  on_accounts (alter (λ a,
    match acc_last_workspace_id a with
    | Some id =>
        if is_active_member t id user_id then a
        else {| acc_email := acc_email a; acc_display_name := acc_display_name a;
                acc_last_workspace_id := None; acc_created_at := acc_created_at a;
                acc_updated_at := acc_updated_at a; acc_last_used_at := acc_last_used_at a |}
    | None => a
    end) user_id) t.

(** The check before the first transaction. *)
Definition sync_conflicts (l : list RemoteWorkspace) : AppResult unit :=
  personal_id ← ok_or (Config "invalid personal workspace id") (uuid_parse PERSONAL_WORKSPACE_ID);
  reject_if (existsb (λ r, bool_decide (rw_id r = personal_id)) l)
    (Config "remote workspace conflicts with the Personal Workspace").

(** The second transaction. *)
Definition sync_account_workspaces (user : WorkspaceAuthUser) (l : list RemoteWorkspace)
    (now : DateTime) (db : StoreDb) : AppResult (unit * StoreDb) :=
  t ← upsert_memberships user l now (archive_memberships (us_id user) (db_scope db));
  let db := on_scope (λ _, t) db in
  let db := on_connections (on_rows (adopt_connections (us_id user) t)) db in
  let db := on_connections (λ c,
              on_bindings (adopt_credentials (us_id user) now t (connections c)) c) db in
  let db := on_connections (on_rows (redact_templates (us_id user) t)) db in
  db ← rescope_schema_cache (us_id user) (rescope_histories (us_id user) db);
  let db := rescope_threads (us_id user) db in
  let t := forget_last_workspace (us_id user) (archive_abandoned now (db_scope db)) in
  '(_, t) ← repair_active_scope now t;
  Ok (tt, on_scope (λ _, t) db).
End scope.
