(* ===== verification/StoreConnections.v ===== *)
(** * Connections of the local store (src-tauri/src/store/mod.rs)

    Local connection profiles, shared templates with their per-account bindings,
    the pins that services hold across an operation, and the sync outbox.  One
    function per statement or transaction; clock readings, fresh identifiers and
    the iteration order of a [HashMap] are arguments. *)

From S2P Require Export StoreScope.

Section connections.
Context {P : Platform} {Q : Sqlite}.

(** ** Columns *)

(** A connection's row with the row of its binding ([LEFT JOIN]). *)
Record BoundRow := { br_id : string; br_row : ConnectionRow; br_binding : option BindingRow }.

(** [serde_json::to_string] and [from_str] of a [HashMap<String, String>]. *)
Definition params_to_string (entries : list (string * string)) : AppResult string :=
  ok_or Serialization (json_to_string (VObject (map (λ p, (p.1, VString p.2)) entries))).
Definition params_from_str (s : string) : option (gmap string string) :=
  v ← json_from_str s;
  match v with
  | VObject fields => list_to_map <$> mapM (λ p, pair p.1 <$> as_str p.2) fields
  | _ => None
  end.

Definition row_to_connection (id : string) (r : ConnectionRow) : AppResult ConnectionProfile :=
  cid ← parse_uuid_text id;
  engine ← parse_engine (con_engine r);
  provider ← parse_provider (con_provider r);
  workspace_access ← parse_workspace_access (con_workspace_access r);
  credential_mode ← parse_credential_mode (con_credential_mode r);
  Ok {| cp_id := cid; cp_name := con_name r; cp_engine := engine; cp_provider := provider;
        cp_driver_id := con_driver_id r; cp_host := con_host r; cp_port := as_u16 (con_port r);
        cp_database := con_db_name r; cp_username := con_username r;
        cp_sslmode := con_sslmode r;
        cp_extra_params := default ∅ (params_from_str (con_extra_params r));
        cp_readonly_default := con_readonly_default r; cp_allow_writes := con_allow_writes r;
        cp_secret_ref := con_secret_ref r; cp_env := con_env r;
        cp_schema_group := con_schema_group r; cp_workspace_access := workspace_access;
        cp_credential_mode := credential_mode |}.

(** [..] of a profile with other credentials and authority. *)
Definition with_binding (p : ConnectionProfile) (username : string)
    (extra_params : gmap string string) (secret_ref : option string)
    (access : WorkspaceConnectionAccess.t) (allow_writes : bool) : ConnectionProfile := {|
  cp_id := cp_id p; cp_name := cp_name p; cp_engine := cp_engine p; cp_provider := cp_provider p;
  cp_driver_id := cp_driver_id p; cp_host := cp_host p; cp_port := cp_port p;
  cp_database := cp_database p; cp_username := username; cp_sslmode := cp_sslmode p;
  cp_extra_params := extra_params; cp_readonly_default := cp_readonly_default p;
  cp_allow_writes := allow_writes; cp_secret_ref := secret_ref; cp_env := cp_env p;
  cp_schema_group := cp_schema_group p; cp_workspace_access := access;
  cp_credential_mode := cp_credential_mode p |}.

Definition is_local (access : WorkspaceConnectionAccess.t) : bool :=
  match access with WorkspaceConnectionAccess.Local => true | _ => false end.

Definition row_to_connection_with_binding (r : BoundRow) : AppResult ConnectionProfile :=
  profile ← row_to_connection (br_id r) (br_row r);
  if is_local (cp_workspace_access profile) then Ok profile
  else
    let '(username, extra_params, secret_ref) :=
      match cp_credential_mode profile with
      | WorkspaceCredentialMode.MemberLocal =>
          (default "" (bnd_username <$> br_binding r),
           default ∅ (b ← br_binding r; params_from_str (bnd_extra_params b)),
           b ← br_binding r; bnd_secret_ref b)
      | _ => ("", ∅, None)
      end in
    access ← match br_binding r with
             | Some b => parse_workspace_access (bnd_workspace_access b)
             | None => Ok WorkspaceConnectionAccess.View
             end;
    Ok (with_binding profile username extra_params secret_ref access
          (default false (bnd_allow_writes <$> br_binding r)
           && WorkspaceConnectionAccess.can_write access)).

(** ** Conditions the statements share *)

Definition binding_of (t : ConnectionTables) (id : string) (account : option string)
  : option BindingRow :=
  account ← account; bindings t !! (id, account).
Definition is_remote (c : ConnectionRow) : bool := bool_decide (is_Some (con_remote_id c)).
(** [CASE WHEN c.remote_id IS NOT NULL THEN COALESCE(b.revision, 0) ELSE 0 END] and
    the same for [updated_at]. *)
Definition binding_revision_of (c : ConnectionRow) (b : option BindingRow) : Z :=
  if is_remote c then default 0 (bnd_revision <$> b) else 0.
Definition binding_updated_at_of (c : ConnectionRow) (b : option BindingRow) : string :=
  if is_remote c then default "" (bnd_updated_at <$> b) else "".
(** [personal OR c.remote_id IS NOT NULL OR c.account_user_id = account] *)
Definition visible_to (personal : bool) (c : ConnectionRow) (account : option string) : bool :=
  personal || is_remote c
  || match con_account_user_id c, account with
     | Some owner, Some user_id => (owner =? user_id)%string
     | _, _ => false
     end.
(** A row of the workspace that is not tombstoned. *)
Definition live_row (t : ConnectionTables) (id workspace_id : string) : option ConnectionRow :=
  c ← connections t !! id;
  if (con_workspace_id c =? workspace_id)%string && bool_decide (con_deleted_at c = None)
  then Some c else None.

Definition connection_not_found (id : Uuid) : AppError := NotFound ("connection " +:+ uuid_to_string id).

(** ** Pins *)

(** The row the statement of [pin_connection_with_access] selects: the connection
    with its binding and the scope. *)
Record PinRow := {
  pr_bound : BoundRow; pr_workspace_id : string; pr_workspace : WorkspaceRow;
  pr_account : option string; pr_account_scope : string; pr_generation : string;
}.

Definition pin_row (id : string) (db : StoreDb) : option PinRow :=
  let t := db_scope db in
  '(wid, w) ← selected_row t;
  generation ← scope_generation t;
  c ← live_row (db_connections db) id wid;
  let account := selected_account t in
  scope ← account_scope_column w account;
  if scope_open t wid w && visible_to (is_personal w) c account
  then Some {| pr_bound := {| br_id := id; br_row := c;
                              br_binding := binding_of (db_connections db) id account |};
               pr_workspace_id := wid; pr_workspace := w; pr_account := account;
               pr_account_scope := scope; pr_generation := generation |}
  else None.

Definition pin_of_row (id : Uuid) (require_read : bool) (row : PinRow) : AppResult PinnedConnection :=
  let c := br_row (pr_bound row) in
  profile ← row_to_connection_with_binding (pr_bound row);
  _ ← reject_if (require_read && negb (WorkspaceConnectionAccess.can_read (cp_workspace_access profile)))
        (Blocked "workspace role cannot execute this connection");
  scope ← row_to_active_resource_scope (pr_workspace_id row) (ws_kind (pr_workspace row))
            (pr_account row) (pr_account_scope row) (pr_generation row);
  let connection_revision := con_revision c in
  let binding_revision := binding_revision_of c (br_binding (pr_bound row)) in
  let binding_updated_at := binding_updated_at_of c (br_binding (pr_bound row)) in
  let requires_remote_rbac := is_remote c in
  let valid_binding_revision :=
    if requires_remote_rbac then (1 <=? binding_revision) && negb (binding_updated_at =? "")%string
    else (binding_revision =? 0) && (binding_updated_at =? "")%string in
  _ ← reject_if ((connection_revision <? 1) || negb valid_binding_revision)
        (Config "connection material has an invalid revision");
  Ok {| pc_scope := scope; pc_connection_id := id; pc_connection_revision := connection_revision;
        pc_binding_revision := binding_revision; pc_binding_updated_at := binding_updated_at;
        pc_profile := profile; pc_requires_remote_rbac := requires_remote_rbac;
        pc_catalog_cache_policy :=
          match cp_credential_mode profile with
          | WorkspaceCredentialMode.Managed => CatalogCachePolicy.EphemeralOnly
          | _ => CatalogCachePolicy.Persistent
          end |}.

Definition pin_connection_with_access (id : Uuid) (require_read : bool) (db : StoreDb)
  : AppResult PinnedConnection :=
  row ← ok_or (connection_not_found id) (pin_row (uuid_to_string id) db);
  pin_of_row id require_read row.

Definition pin_connection_for_read (id : Uuid) : StoreDb → AppResult PinnedConnection :=
  pin_connection_with_access id true.
Definition pin_connection_for_view (id : Uuid) : StoreDb → AppResult PinnedConnection :=
  pin_connection_with_access id false.

(** The EXISTS clause of [is_pin_current_with_access], which the conditional
    writes repeat. *)
Definition pin_current_with_access (pin : PinnedConnection) (allow_view : bool) (db : StoreDb)
  : bool :=
  let t := db_scope db in
  let scope := pc_scope pin in
  let wid := uuid_to_string (sc_workspace_id scope) in
  let id := uuid_to_string (pc_connection_id pin) in
  let account := selected_account t in
  match ('(selected, w) ← selected_row t; generation ← scope_generation t;
         c ← live_row (db_connections db) id selected; Some (selected, w, generation, c)) with
  | None => false
  | Some (selected, w, generation, c) =>
      let b := binding_of (db_connections db) id account in
      let access := default "view" (bnd_workspace_access <$> b) in
      (selected =? wid)%string
      && (ws_kind w =? workspace_kind_str (sc_workspace_kind scope))%string
      && bool_decide (account = sc_selected_account_id scope)
      && (generation =? pretty (sc_generation scope))%string
      && (con_revision c =? pc_connection_revision pin)
      && (binding_revision_of c b =? pc_binding_revision pin)
      && (binding_updated_at_of c b =? pc_binding_updated_at pin)%string
      && bool_decide (account_scope_column w account = Some (storage_key (sc_account_scope scope)))
      && scope_open t selected w
      && visible_to (is_personal w) c account
      && (negb (is_remote c) || one_of ["read"; "write"; "manage"] access
          || allow_view && (access =? "view")%string)
  end.

Definition is_pin_current (pin : PinnedConnection) : StoreDb → bool :=
  pin_current_with_access pin false.

(** ** Reading *)

Definition team_without_account (workspace : Workspace) (account : option string) : AppResult unit :=
  match wk_kind workspace, account with
  | WorkspaceKind.Team, None => Err (Config "a team workspace has no active authenticated account")
  | _, _ => Ok tt
  end.

Definition kind_is_personal (workspace : Workspace) : bool :=
  match wk_kind workspace with WorkspaceKind.Personal => true | WorkspaceKind.Team => false end.

(** The last statement of [list_connections] and of [get_connection]. *)
Definition connection_rows (workspace : Workspace) (account : option string) (t : ConnectionTables)
  : list BoundRow :=
  map (λ r, {| br_id := r.1; br_row := r.2; br_binding := binding_of t r.1 account |})
    (order_by (λ x y : string * ConnectionRow, string_cmp (con_name x.2) (con_name y.2))
       (List.filter (λ r : string * ConnectionRow,
                       (con_workspace_id r.2 =? uuid_to_string (wk_id workspace))%string
                       && bool_decide (con_deleted_at r.2 = None)
                       && visible_to (kind_is_personal workspace) r.2 account)
          (map_to_list (connections t)))).

Definition connection_row (id : Uuid) (workspace : Workspace) (account : option string)
    (t : ConnectionTables) : AppResult ConnectionProfile :=
  c ← ok_or (connection_not_found id)
        (c ← live_row t (uuid_to_string id) (uuid_to_string (wk_id workspace));
         if visible_to (kind_is_personal workspace) c account then Some c else None);
  row_to_connection_with_binding
    {| br_id := uuid_to_string id; br_row := c;
       br_binding := binding_of t (uuid_to_string id) account |}.

(** The last statement of [ensure_connection_write_scope]. *)
Definition write_scope (id : Uuid) (workspace : Workspace) (account : option string)
    (t : ConnectionTables) : AppResult unit :=
  match connections t !! uuid_to_string id with
  | None => Ok tt
  | Some c =>
      let account_mismatch := negb (kind_is_personal workspace)
                              && negb (bool_decide (con_account_user_id c = account)) in
      reject_if (negb (con_workspace_id c =? uuid_to_string (wk_id workspace))%string
                 || account_mismatch || is_remote c)
        (connection_not_found id)
  end.

(** ** Writing *)

(** [enqueue_outbox]: the identifier and the time of the event. *)
Record Event := { ev_id : Uuid; ev_now : DateTime }.
Definition enqueue_outbox (e : Event) (workspace_id : string) (resource_type : string)
    (resource_id operation : string) (revision : Z) (t : ConnectionTables)
  : AppResult ConnectionTables :=
  _ ← reject_if (existsb (λ r, obx_id r =? uuid_to_string (ev_id e))%string (outbox t))
        (constraint_failed "UNIQUE constraint failed: sync_outbox.id");
  Ok (on_outbox (λ l, l ++ [
        {| obx_id := uuid_to_string (ev_id e); obx_workspace_id := workspace_id;
           obx_resource_type := resource_type; obx_resource_id := resource_id;
           obx_operation := operation; obx_revision := revision;
           obx_created_at := rfc3339 (ev_now e) |}]) t).

(** The default row of [connection_safety]. *)
Definition default_safety_row : SafetyRow := {|
  saf_require_approval := true; saf_allow_writes := false; saf_wrap_writes_in_tx := true;
  saf_explain_preview := true; saf_auto_run_reads := true; saf_max_rows := 1000;
  saf_exec_preview_row_limit := 50000 |}.
Definition ensure_safety (id : string) : ConnectionTables → ConnectionTables :=
  on_safeties (λ s, match s !! id with Some _ => s | None => <[id := default_safety_row]> s end).

(** The columns a profile is stored in. *)
Definition profile_row (p : ConnectionProfile) (username extra : string) (secret_ref : option string)
    (workspace_id : string) (account remote_id : option string) (revision : Z)
    (sync_status created_at now : string) : ConnectionRow := {|
  con_name := cp_name p; con_engine := engine_str (cp_engine p);
  con_provider := provider_str (cp_provider p); con_driver_id := cp_driver_id p;
  con_host := cp_host p; con_port := cp_port p; con_db_name := cp_database p;
  con_username := username; con_sslmode := cp_sslmode p; con_extra_params := extra;
  con_secret_ref := secret_ref; con_readonly_default := cp_readonly_default p;
  con_allow_writes := cp_allow_writes p; con_env := cp_env p;
  con_schema_group := cp_schema_group p; con_workspace_id := workspace_id;
  con_account_user_id := account; con_remote_id := remote_id; con_revision := revision;
  con_sync_status := sync_status;
  con_workspace_access := workspace_access_str (cp_workspace_access p);
  con_credential_mode := credential_mode_str (cp_credential_mode p); con_deleted_at := None;
  con_created_at := created_at; con_updated_at := now |}.

Definition is_local_mode (mode : WorkspaceCredentialMode.t) : bool :=
  match mode with WorkspaceCredentialMode.Local => true | _ => false end.

(** [INSERT ... ON CONFLICT(id) DO UPDATE ... WHERE ... RETURNING revision] *)
Definition upserted_row (p : ConnectionProfile) (extra workspace_id : string)
    (account : option string) (now : DateTime) (found : option ConnectionRow) : option ConnectionRow :=
  match found with
  | None => Some (profile_row p (cp_username p) extra (cp_secret_ref p) workspace_id account None 1
                    "dirty" (rfc3339 now) (rfc3339 now))
  | Some c =>
      if (con_workspace_id c =? workspace_id)%string && bool_decide (con_account_user_id c = account)
         && negb (is_remote c)
      then Some (profile_row p (cp_username p) extra (cp_secret_ref p) (con_workspace_id c)
                   (con_account_user_id c) (con_remote_id c) (con_revision c + 1) "dirty"
                   (con_created_at c) (rfc3339 now))
      else None
  end.

(** [upsert_connection]; [entries] is [p.extra_params] in its iteration order. *)
Definition upsert_connection (p : ConnectionProfile) (entries : list (string * string))
    (now : DateTime) (e : Event) (db : StoreDb) : AppResult (ConnectionProfile * StoreDb) :=
  _ ← reject_if (negb (is_local (cp_workspace_access p)))
        (Config "shared connection templates cannot be edited as local connections");
  _ ← reject_if (negb (is_local_mode (cp_credential_mode p)))
        (Config "local connections must use local credential mode");
  extra ← params_to_string entries;
  let t := db_scope db in
  '(wid, w) ← ok_or (Config "active workspace scope is invalid")
                ('(id, w) ← selected_row t; if scope_open t id w then Some (id, w) else None);
  workspace_id ← parse_uuid_text wid;
  workspace_kind ← parse_workspace_kind (ws_kind w);
  account ← match workspace_kind with
            | WorkspaceKind.Personal => Ok None
            | WorkspaceKind.Team =>
                user_id ← ok_or (Config "team-local connections require an active account")
                            (selected_account t);
                Ok (Some user_id)
            end;
  let wid := uuid_to_string workspace_id in
  let id := uuid_to_string (cp_id p) in
  row ← ok_or (connection_not_found (cp_id p))
          (upserted_row p extra wid account now (connections (db_connections db) !! id));
  let ct := ensure_safety id (on_rows <[id := row]> (db_connections db)) in
  ct ← enqueue_outbox e wid "connection" id "upsert" (con_revision row) ct;
  Ok (p, on_connections (λ _, ct) db).

(** ** Shared templates *)

(** The statements of [sync_remote_connections] before its transaction. *)
Definition remote_membership (workspace_id : Uuid) (user_id : string) (t : ScopeTables)
  : AppResult unit :=
  reject_if (negb (is_active_member t (uuid_to_string workspace_id) user_id))
    (NotFound ("workspace " +:+ uuid_to_string workspace_id +:+ " for account " +:+ user_id)).
Definition remote_profile_ok (p : ConnectionProfile) : AppResult unit :=
  reject_if (is_local (cp_workspace_access p) || is_local_mode (cp_credential_mode p))
    (Config "remote connections require team access and credential mode").
Definition remote_owner_ok (workspace_id : Uuid) (p : ConnectionProfile) (t : ConnectionTables)
  : AppResult unit :=
  match connections t !! uuid_to_string (cp_id p) with
  | Some c =>
      reject_if (negb (con_workspace_id c =? uuid_to_string workspace_id)%string)
        (Config ("remote connection " +:+ uuid_to_string (cp_id p)
                 +:+ " conflicts with another workspace"))
  | None => Ok tt
  end.

(** A template of the workspace the server no longer lists. *)
Definition withdrawn (workspace_id : string) (incoming : list string) (id : string)
    (c : ConnectionRow) : bool :=
  (con_workspace_id c =? workspace_id)%string && is_remote c && negb (one_of incoming id).

(** The credentials of its bindings; invalid references are logged. *)
Definition withdrawn_credentials (workspace_id : string) (incoming : list string)
    (t : ConnectionTables) : gset Uuid :=
  list_to_set (omap (λ r : (string * string) * BindingRow,
    c ← connections t !! r.1.1;
    secret_ref ← bnd_secret_ref r.2;
    if withdrawn workspace_id incoming r.1.1 c then uuid_parse secret_ref else None)
    (map_to_list (bindings t))).

Definition withdraw (workspace_id : string) (incoming : list string) (now : DateTime)
    (t : ConnectionTables) : ConnectionTables :=
  on_rows (map_imap (λ id c, Some
      (if withdrawn workspace_id incoming id c
       then set_con_deleted (con_revision c) (con_sync_status c) (rfc3339 now) c else c)))
    (on_bindings (map_imap (λ k b,
       match connections t !! k.1 with
       | Some c => if withdrawn workspace_id incoming k.1 c then None else Some b
       | None => Some b
       end)) t).

(** One template of the server's list. *)
Definition sync_template (workspace_id : string) (user_id : string) (p : ConnectionProfile)
    (revision : Z) (now : DateTime) (t : ConnectionTables) : ConnectionTables :=
  let id := uuid_to_string (cp_id p) in
  let writes := cp_allow_writes p && WorkspaceConnectionAccess.can_write (cp_workspace_access p) in
  let access := workspace_access_str (cp_workspace_access p) in
  let t := on_rows (λ rows,
    match rows !! id with
    | None => <[id := profile_row p "" "{}" None workspace_id None (Some id) revision "synced"
                        (rfc3339 now) (rfc3339 now)]> rows
    | Some c =>
        if (con_workspace_id c =? workspace_id)%string
        then <[id := profile_row p (con_username c) (con_extra_params c) (con_secret_ref c)
                       (con_workspace_id c) (con_account_user_id c) (Some id) revision "synced"
                       (con_created_at c) (rfc3339 now)]> rows
        else rows
    end) t in
  let t := on_safeties (alter (λ s,
    {| saf_require_approval := saf_require_approval s; saf_allow_writes := writes;
       saf_wrap_writes_in_tx := saf_wrap_writes_in_tx s;
       saf_explain_preview := saf_explain_preview s; saf_auto_run_reads := saf_auto_run_reads s;
       saf_max_rows := saf_max_rows s;
       saf_exec_preview_row_limit := saf_exec_preview_row_limit s |}) id) (ensure_safety id t) in
  on_bindings (λ bs,
    match bs !! (id, user_id) with
    | None => <[(id, user_id) :=
        {| bnd_username := ""; bnd_extra_params := "{}"; bnd_secret_ref := None;
           bnd_workspace_access := access; bnd_allow_writes := writes; bnd_revision := 1;
           bnd_updated_at := rfc3339 now |}]> bs
    | Some b =>
        if negb (bnd_workspace_access b =? access)%string
           || negb (Bool.eqb (bnd_allow_writes b) writes)
        then <[(id, user_id) :=
          {| bnd_username := bnd_username b; bnd_extra_params := bnd_extra_params b;
             bnd_secret_ref := bnd_secret_ref b; bnd_workspace_access := access;
             bnd_allow_writes := writes; bnd_revision := bnd_revision b + 1;
             bnd_updated_at := rfc3339 now |}]> bs
        else bs
    end) t.

(** [sync_remote_connections]'s transaction: the credentials to delete. *)
Definition sync_remote_connections (workspace_id : Uuid) (user_id : string)
    (l : list (ConnectionProfile * Z)) (now : DateTime) (t : ConnectionTables)
  : gset Uuid * ConnectionTables :=
  let wid := uuid_to_string workspace_id in
  let incoming := map (λ p, uuid_to_string (cp_id p.1)) l in
  (withdrawn_credentials wid incoming t,
   foldl (λ t p, sync_template wid user_id p.1 p.2 now t) (withdraw wid incoming now t) l).

(** [purge_remote_connection_cache], with what [ON DELETE CASCADE] takes along. *)
Definition purge_remote_connection_cache (workspace_id connection_id : Uuid) (db : StoreDb) : StoreDb :=
  let id := uuid_to_string connection_id in
  match connections (db_connections db) !! id with
  | Some c =>
      if (con_workspace_id c =? uuid_to_string workspace_id)%string
         && bool_decide (con_remote_id c = Some id)
      then
        on_connections (λ t,
          on_rows (delete id) (on_safeties (delete id)
            (on_bindings (filter (λ r : (string * string) * BindingRow, r.1.1 ≠ id)) t)))
        (on_artifacts (λ t,
          on_histories (filter (λ r : string * HistoryRow, his_connection_id r.2 ≠ id))
          (on_dashboards (filter (λ d, dsh_connection_id d ≠ id))
          (on_schema_cache (filter (λ r : (string * string) * string, r.1.1 ≠ id))
          (on_schema_cache_v2 (filter (λ r : (string * string * string) * CacheRow, r.1.2 ≠ id)) t))))
         db)
      else db
  | None => db
  end.

(** [bind_connection_credentials]: the statement that finds the template and the
    one that stores the overlay. *)
Definition bindable_connection (id : Uuid) (user_id : string) (db : StoreDb)
  : AppResult ConnectionProfile :=
  let key := uuid_to_string id in
  row ← ok_or (NotFound ("shared connection " +:+ key))
          (c ← connections (db_connections db) !! key;
           if is_active_member (db_scope db) (con_workspace_id c) user_id && is_remote c
              && bool_decide (con_deleted_at c = None)
           then Some {| br_id := key; br_row := c;
                        br_binding := bindings (db_connections db) !! (key, user_id) |}
           else None);
  profile ← row_to_connection_with_binding row;
  _ ← reject_if (negb (WorkspaceConnectionAccess.can_read (cp_workspace_access profile)))
        (Blocked "workspace role cannot execute this connection");
  match cp_credential_mode profile with
  | WorkspaceCredentialMode.MemberLocal => Ok profile
  | _ => Err (Blocked "this shared connection uses automatically managed credentials")
  end.

Definition store_binding (id : Uuid) (user_id username extra : string) (secret_ref : option string)
    (now : DateTime) (t : ConnectionTables) : AppResult (unit * ConnectionTables) :=
  let key := uuid_to_string id in
  match bindings t !! (key, user_id) with
  | None =>
      _ ← reject_if (bool_decide (connections t !! key = None))
            (constraint_failed "FOREIGN KEY constraint failed");
      Ok (tt, on_bindings <[(key, user_id) :=
        {| bnd_username := username; bnd_extra_params := extra; bnd_secret_ref := secret_ref;
           bnd_workspace_access := "view"; bnd_allow_writes := false; bnd_revision := 1;
           bnd_updated_at := rfc3339 now |}]> t)
  | Some b =>
      if bool_decide (bnd_username b = username ∧ bnd_extra_params b = extra
                      ∧ bnd_secret_ref b = secret_ref)
      then Ok (tt, t)
      else Ok (tt, on_bindings <[(key, user_id) :=
        {| bnd_username := username; bnd_extra_params := extra; bnd_secret_ref := secret_ref;
           bnd_workspace_access := bnd_workspace_access b;
           bnd_allow_writes := bnd_allow_writes b; bnd_revision := bnd_revision b + 1;
           bnd_updated_at := rfc3339 now |}]> t)
  end.

(** ** Groups and tombstones *)

(** One connection of [set_connections_schema_group]'s transaction. *)
Definition set_schema_group (workspace_id : Uuid) (group : option string) (updated_at : DateTime)
    (id : Uuid) (e : Event) (t : ConnectionTables) : AppResult ConnectionTables :=
  let key := uuid_to_string id in
  let wid := uuid_to_string workspace_id in
  c ← ok_or (connection_not_found id) (live_row t key wid);
  let c := set_con_group group (rfc3339 updated_at) c in
  enqueue_outbox e wid "connection" key "upsert" (con_revision c) (on_rows <[key := c]> t).

Fixpoint set_schema_groups (workspace_id : Uuid) (group : option string) (updated_at : DateTime)
    (ids : list (Uuid * Event)) (t : ConnectionTables) : AppResult (unit * ConnectionTables) :=
  match ids with
  | [] => Ok (tt, t)
  | (id, e) :: ids =>
      t ← set_schema_group workspace_id group updated_at id e t;
      set_schema_groups workspace_id group updated_at ids t
  end.

(** [delete_connection]'s transaction. *)
Definition delete_connection (workspace_id : Uuid) (id : Uuid) (now : DateTime) (e : Event)
    (t : ConnectionTables) : AppResult (unit * ConnectionTables) :=
  let key := uuid_to_string id in
  let wid := uuid_to_string workspace_id in
  c ← ok_or (connection_not_found id) (live_row t key wid);
  let c := set_con_deleted (con_revision c + 1) "dirty" (rfc3339 now) c in
  t ← enqueue_outbox e wid "connection" key "delete" (con_revision c) (on_rows <[key := c]> t);
  Ok (tt, t).

(** ** Safety settings *)

Definition get_safety (id : Uuid) (t : ConnectionTables) : SafetySettings :=
  match safeties t !! uuid_to_string id with
  | None => default_settings
  | Some s =>
      {| require_approval := saf_require_approval s; allow_writes := saf_allow_writes s;
         wrap_writes_in_tx := saf_wrap_writes_in_tx s; explain_preview := saf_explain_preview s;
         auto_run_reads := saf_auto_run_reads s; max_rows := as_u64 (saf_max_rows s);
         exec_preview_row_limit := saf_exec_preview_row_limit s |}
  end.

Definition set_safety (id : Uuid) (s : SafetySettings) (t : ConnectionTables)
  : AppResult (unit * ConnectionTables) :=
  let key := uuid_to_string id in
  _ ← reject_if (bool_decide (connections t !! key = None))
        (constraint_failed "FOREIGN KEY constraint failed");
  Ok (tt, on_safeties <[key :=
    {| saf_require_approval := require_approval s; saf_allow_writes := allow_writes s;
       saf_wrap_writes_in_tx := wrap_writes_in_tx s; saf_explain_preview := explain_preview s;
       saf_auto_run_reads := auto_run_reads s; saf_max_rows := as_i64 (max_rows s);
       saf_exec_preview_row_limit := exec_preview_row_limit s |}]> t).
End connections.
