(* ===== verification/Dashboards.v ===== *)
(** * Saved dashboards (src-tauri/src/dashboard.rs and their types in model.rs)

    What a dashboard may hold: a bounded title, description and SQL text, one
    classified read, and a visualization of the version this build renders. *)

From S2P Require Export SerdeJson Safety Schema.

Definition MAX_TITLE_CHARS : Z := 120.
Definition MAX_DESCRIPTION_CHARS : Z := 2000.
Definition MAX_SQL_BYTES : N := 100000.
Definition MAX_COLUMN_NAME_CHARS : Z := 256.
Definition MAX_Y_COLUMNS : Z := 4.
Definition VISUALIZATION_VERSION : Z := 1.

(** [format!("{s:?}")] *)
Class StrDebug := { str_debug : string → string }.

(** [s.chars().count()]: the bytes that do not continue a character. *)
Definition chars_count (s : string) : Z :=
  Z.of_nat (length (List.filter (λ a, negb ((128 <=? byte a)%N && (byte a <? 192)%N)) (bytes_of s))).

Module DashboardKind.
Inductive t := Auto | Metric | Line | Bar | Table.
#[global] Instance eq_dec : EqDecision t.
Proof. solve_decision. Defined.
Definition serialize (self : t) : string :=
  match self with
  | Auto => "auto" | Metric => "metric" | Line => "line" | Bar => "bar" | Table => "table"
  end.
Definition ALL : list t := [Auto; Metric; Line; Bar; Table].
End DashboardKind.

Record DashboardVisualization := {
  vz_version : Z; vz_kind : DashboardKind.t; vz_x_column : option string;
  vz_y_columns : list string;
}.

Definition visualization_to_value (v : DashboardVisualization) : Value :=
  VObject
    [("version", value_of_u64 (vz_version v));
     ("kind", VString (DashboardKind.serialize (vz_kind v)));
     ("xColumn", match vz_x_column v with Some s => VString s | None => VNull end);
     ("yColumns", ser_list VString (vz_y_columns v))].

(** [Deserialize]: [version] and [yColumns] have defaults, other fields are
    ignored; an array gives the fields in order. *)
Definition kind_from_value : Value → option DashboardKind.t :=
  de_variant (λ s, find_map (λ k,
    if (DashboardKind.serialize k =? s)%string then Some k else None) DashboardKind.ALL).
Definition visualization_of (field : string → option Value) : option DashboardVisualization :=
  version ← defaulted VISUALIZATION_VERSION de_u32 (field "version");
  kind ← required kind_from_value (field "kind");
  x_column ← defaulted None (de_option de_string) (field "xColumn");
  y_columns ← defaulted [] (de_list de_string) (field "yColumns");
  Some {| vz_version := version; vz_kind := kind; vz_x_column := x_column;
          vz_y_columns := y_columns |}.
Definition visualization_from_value (v : Value) : option DashboardVisualization :=
  match v with
  | VObject m => visualization_of (λ k, assoc k m)
  | VArray [version; kind; x_column] =>
      visualization_of (λ k, assoc k [("version", version); ("kind", kind); ("xColumn", x_column)])
  | VArray [version; kind; x_column; y_columns] =>
      visualization_of (λ k, assoc k [("version", version); ("kind", kind);
                                      ("xColumn", x_column); ("yColumns", y_columns)])
  | _ => None
  end.

Section dashboards.
Context {P : Platform} {SP : SqlParser} {D : StrDebug}.

Record Dashboard := {
  da_id : Uuid; da_connection_id : Uuid; da_title : string; da_description : string;
  da_sql : string; da_visualization : DashboardVisualization; da_created_at : DateTime;
  da_updated_at : DateTime;
}.
Record DashboardDraft := {
  dd_connection_id : Uuid; dd_title : string; dd_description : string; dd_sql : string;
  dd_visualization : DashboardVisualization;
}.

Definition validate_column_name (column label : string) : AppResult unit :=
  _ ← reject_if (is_blank column) (Config ("dashboard " +:+ label +:+ " cannot be blank"));
  reject_if (MAX_COLUMN_NAME_CHARS <? chars_count column)
    (Config ("dashboard " +:+ label +:+ " cannot exceed " +:+ pretty MAX_COLUMN_NAME_CHARS
             +:+ " characters")).

(** The loop over [y_columns]; [seen] are those before [index]. *)
Fixpoint validate_y_columns (seen : list string) (columns : list string) : AppResult unit :=
  match columns with
  | [] => Ok tt
  | column :: columns =>
      _ ← validate_column_name column ("y column " +:+ pretty (Z.of_nat (length seen) + 1));
      _ ← reject_if (one_of seen column)
            (Config ("dashboard y column " +:+ str_debug column +:+ " is duplicated"));
      validate_y_columns (seen ++ [column]) columns
  end.

Definition validate_visualization (v : DashboardVisualization) : AppResult unit :=
  _ ← reject_if (negb (vz_version v =? VISUALIZATION_VERSION))
        (Config ("unsupported dashboard visualization version " +:+ pretty (vz_version v)));
  _ ← match vz_x_column v with
      | Some x_column => validate_column_name x_column "x column"
      | None => Ok tt
      end;
  _ ← reject_if (MAX_Y_COLUMNS <? Z.of_nat (length (vz_y_columns v)))
        (Config ("dashboard visualization cannot contain more than " +:+ pretty MAX_Y_COLUMNS
                 +:+ " y columns"));
  validate_y_columns [] (vz_y_columns v).

Definition validate_draft (draft : DashboardDraft) (engine : Engine.t) : AppResult unit :=
  let title := trim (dd_title draft) in
  _ ← reject_if (title =? "")%string (Config "dashboard title cannot be empty");
  _ ← reject_if (MAX_TITLE_CHARS <? chars_count title)
        (Config ("dashboard title cannot exceed " +:+ pretty MAX_TITLE_CHARS +:+ " characters"));
  _ ← reject_if (MAX_DESCRIPTION_CHARS <? chars_count (dd_description draft))
        (Config ("dashboard description cannot exceed " +:+ pretty MAX_DESCRIPTION_CHARS
                 +:+ " characters"));
  _ ← reject_if (is_blank (dd_sql draft)) (Config "dashboard SQL cannot be empty");
  _ ← reject_if (MAX_SQL_BYTES <? str_len (dd_sql draft))%N
        (Config ("dashboard SQL cannot exceed " +:+ pretty MAX_SQL_BYTES +:+ " bytes"));
  _ ← validate_visualization (dd_visualization draft);
  classification ← classify (dd_sql draft) engine;
  reject_if (negb (bool_decide (cl_kind classification = QueryKind.Read))
             || negb (cl_statement_count classification =? 1))
    (Blocked "dashboards may only save one read-only SQL statement").
End dashboards.
