(* ===== verification/StoreArtifacts.v ===== *)
(** * Artifacts of the local store (src-tauri/src/store/mod.rs)

    The catalog cache, the query history, saved dashboards and agent chats: what
    operations leave behind.  A write made for an operation carries its pin and
    takes place only while the pin is current. *)

From S2P Require Export StoreConnections Dashboards.

Section artifacts.
Context {P : Platform} {Q : Sqlite} {C : ChronoSerde} {D : StrDebug}.

(** ** The catalog cache *)

#[export] Instance DatabaseEngine_eq_dec : EqDecision DatabaseEngine.t.
Proof. solve_decision. Defined.

Inductive CacheWriteOutcome := Stored | Stale | NotPersisted.

Definition protocol_engine (engine : Engine.t) : DatabaseEngine.t :=
  match engine with
  | Engine.Postgres => DatabaseEngine.Postgres
  | Engine.Mysql => DatabaseEngine.Mysql
  | Engine.Sqlite => DatabaseEngine.Sqlite
  | Engine.Mongodb => DatabaseEngine.Mongodb
  end.

Definition catalog_matches_pin (snapshot : CatalogSnapshot) (pin : PinnedConnection) : bool :=
  bool_decide (cs_connection_id snapshot = pc_connection_id pin)
  && bool_decide (cs_engine snapshot = protocol_engine (cp_engine (pc_profile pin)))
  && (cs_database snapshot =? cp_database (pc_profile pin))%string.

Definition persistent (pin : PinnedConnection) : bool :=
  match pc_catalog_cache_policy pin with
  | CatalogCachePolicy.Persistent => true
  | CatalogCachePolicy.EphemeralOnly => false
  end.

Definition cache_key_of (pin : PinnedConnection) : string * string * string :=
  (uuid_to_string (sc_workspace_id (pc_scope pin)), storage_key (sc_account_scope (pc_scope pin)),
   uuid_to_string (pc_connection_id pin)).
Definition legacy_key_of (pin : PinnedConnection) : string * string :=
  (uuid_to_string (pc_connection_id pin), storage_key (sc_account_scope (pc_scope pin))).

(** [get_catalog_if_current]: anything that does not decode or match is a miss. *)
Definition get_catalog_if_current (pin : PinnedConnection) (db : StoreDb) : option CatalogSnapshot :=
  if negb (persistent pin) then None else
  row ← schema_cache_v2 (db_artifacts db) !! cache_key_of pin;
  if negb ((cch_connection_revision row =? pc_connection_revision pin)
           && (cch_binding_revision row =? pc_binding_revision pin)
           && (cch_binding_updated_at row =? pc_binding_updated_at pin)%string
           && (cch_catalog_schema_version row =? CATALOG_SCHEMA_VERSION)
           && bool_decide (schema_cache (db_artifacts db) !! legacy_key_of pin = None)
           && is_pin_current pin db)
  then None else
  captured_at ← parse_rfc3339 (cch_captured_at row);
  snapshot ← (v ← json_from_str (cch_catalog_json row); snapshot_from_value v);
  if negb (cch_catalog_schema_version row =? CATALOG_SCHEMA_VERSION)
     || negb (cs_schema_version snapshot =? CATALOG_SCHEMA_VERSION)
     || negb (cs_fingerprint snapshot =? cch_fingerprint row)%string
     || negb (cs_captured_at snapshot =? captured_at)
     || negb (catalog_matches_pin snapshot pin)
  then None else Some snapshot.

(** [put_catalog_if_current]; validation hashes the snapshot, which the outer
    option lets fail to serialise. *)
Definition put_catalog_if_current (pin : PinnedConnection) (snapshot : CatalogSnapshot)
    (db : StoreDb) : AppResult CacheWriteOutcome * StoreDb :=
  if negb (persistent pin) then (Ok NotPersisted, db) else
  let invalid := Config "invalid Catalog V2 snapshot" in
  match
    valid ← ok_or invalid (validate_snapshot snapshot);
    _ ← map_err (λ _, invalid) valid;
    _ ← reject_if (negb (catalog_matches_pin snapshot pin))
          (Config "Catalog V2 snapshot does not match its connection pin");
    ok_or Serialization (json_to_string (snapshot_to_value snapshot))
  with
  | Err error => (Err error, db)
  | Ok catalog_json =>
      if is_pin_current pin db then
        (Ok Stored,
         on_artifacts (λ t,
           on_schema_cache (delete (legacy_key_of pin))
           (on_schema_cache_v2 <[cache_key_of pin :=
             {| cch_connection_revision := pc_connection_revision pin;
                cch_binding_revision := pc_binding_revision pin;
                cch_binding_updated_at := pc_binding_updated_at pin;
                cch_catalog_schema_version := cs_schema_version snapshot;
                cch_fingerprint := cs_fingerprint snapshot;
                cch_captured_at := rfc3339 (cs_captured_at snapshot);
                cch_catalog_json := catalog_json |}]> t)) db)
      else (Ok Stale, db)
  end.

(** [clear_schema_cache]: the pin and the transaction. *)
Definition clear_schema_cache (pin : PinnedConnection) : ArtifactTables → ArtifactTables :=
  λ t, on_schema_cache (delete (legacy_key_of pin))
         (on_schema_cache_v2 (delete (cache_key_of pin)) t).

(** ** Query history *)

Definition row_to_history (id : string) (r : HistoryRow) : AppResult HistoryEntry :=
  hid ← parse_uuid_text id;
  connection_id ← parse_uuid_text (his_connection_id r);
  kind ← parse_kind (his_kind r);
  executed_at ← column_datetime (his_executed_at r);
  Ok {| he_id := hid; he_connection_id := connection_id; he_sql := his_sql r; he_kind := kind;
        he_status := his_status r; he_row_count := his_row_count r;
        he_duration_ms := his_duration_ms r; he_error := his_error r;
        he_executed_at := executed_at; he_origin := his_origin r |}.

Definition insert_history_if_current (pin : PinnedConnection) (h : HistoryEntry) (db : StoreDb)
  : AppResult (unit * StoreDb) :=
  _ ← reject_if (negb (bool_decide (he_connection_id h = pc_connection_id pin)))
        (Config "query history does not match its connection pin");
  _ ← reject_if (negb (is_pin_current pin db))
        (Blocked "workspace scope changed before query history could be saved");
  _ ← reject_if (bool_decide (is_Some (histories (db_artifacts db) !! uuid_to_string (he_id h))))
        (constraint_failed "UNIQUE constraint failed: query_history.id");
  Ok (tt, on_artifacts (on_histories <[uuid_to_string (he_id h) :=
    {| his_connection_id := uuid_to_string (pc_connection_id pin);
       his_account_scope := storage_key (sc_account_scope (pc_scope pin)); his_sql := he_sql h;
       his_kind := kind_str (he_kind h); his_status := he_status h;
       his_row_count := he_row_count h; his_duration_ms := he_duration_ms h;
       his_error := he_error h; his_executed_at := rfc3339 (he_executed_at h);
       his_origin := he_origin h |}]>) db).

(** The last statements of [list_history] and of [get_history]. *)
Definition list_history (connection_id : Uuid) (account_scope : string) (t : ArtifactTables)
  : AppResult (list HistoryEntry) :=
  mapM (λ r : string * HistoryRow, row_to_history r.1 r.2)
    (order_by (λ x y : string * HistoryRow,
                 desc string_cmp (his_executed_at x.2) (his_executed_at y.2))
       (List.filter (λ r : string * HistoryRow,
                       (his_connection_id r.2 =? uuid_to_string connection_id)%string
                       && (his_account_scope r.2 =? account_scope)%string)
          (map_to_list (histories t)))).

Definition history_not_found (id : Uuid) : AppError := NotFound ("query history " +:+ uuid_to_string id).

Definition get_history (id workspace_id : Uuid) (account_scope : string) (db : StoreDb)
  : AppResult HistoryEntry :=
  r ← ok_or (history_not_found id)
        (r ← histories (db_artifacts db) !! uuid_to_string id;
         _ ← live_row (db_connections db) (his_connection_id r) (uuid_to_string workspace_id);
         if (his_account_scope r =? account_scope)%string then Some r else None);
  row_to_history (uuid_to_string id) r.

(** A history entry with the scope it was resolved in. *)
Record ResolvedDashboardHistory := { rh_history : HistoryEntry; rh_scope : ActiveResourceScope }.

(** The scope and the connection of an artifact, as the [active] subquery joins
    them. *)
Definition artifact_scope (connection_id : string) (db : StoreDb)
  : option (string * WorkspaceRow * string * string) :=
  let t := db_scope db in
  '(wid, w) ← selected_row t;
  generation ← scope_generation t;
  scope ← account_scope_column w (selected_account t);
  c ← live_row (db_connections db) connection_id wid;
  if scope_open t wid w && visible_to (is_personal w) c (selected_account t)
  then Some (wid, w, scope, generation) else None.

Definition resolve_history_for_dashboard_prepare (id : Uuid) (db : StoreDb)
  : AppResult ResolvedDashboardHistory :=
  '(r, (wid, w, scope, generation)) ← ok_or (history_not_found id)
    (r ← histories (db_artifacts db) !! uuid_to_string id;
     '(wid, w, scope, generation) ← artifact_scope (his_connection_id r) db;
     if (his_account_scope r =? scope)%string then Some (r, (wid, w, scope, generation)) else None);
  history ← row_to_history (uuid_to_string id) r;
  scope ← row_to_active_resource_scope wid (ws_kind w) (selected_account (db_scope db)) scope
            generation;
  Ok {| rh_history := history; rh_scope := scope |}.

#[export] Instance ActiveResourceScope_eq_dec : EqDecision ActiveResourceScope.
Proof.
  assert (EqDecision WorkspaceKind.t) by solve_decision. solve_decision.
Defined.

Definition dashboard_scope_changed : AppError :=
  Blocked "workspace, connection, or dashboard changed; retry the operation".

Definition get_history_if_current (pin : PinnedConnection) (resolved : ResolvedDashboardHistory)
    (db : StoreDb) : AppResult HistoryEntry :=
  _ ← reject_if (negb (bool_decide (rh_scope resolved = pc_scope pin))
                 || negb (bool_decide (he_connection_id (rh_history resolved) = pc_connection_id pin)))
        dashboard_scope_changed;
  _ ← reject_if (negb (pin_current_with_access pin true db)) dashboard_scope_changed;
  let id := he_id (rh_history resolved) in
  r ← ok_or (history_not_found id)
        (r ← histories (db_artifacts db) !! uuid_to_string id;
         _ ← live_row (db_connections db) (his_connection_id r)
               (uuid_to_string (sc_workspace_id (pc_scope pin)));
         if (his_connection_id r =? uuid_to_string (pc_connection_id pin))%string
            && (his_account_scope r =? storage_key (sc_account_scope (pc_scope pin)))%string
         then Some r else None);
  row_to_history (uuid_to_string id) r.

(** ** Saved dashboards *)

Definition row_to_dashboard (r : DashboardRow) : AppResult Dashboard :=
  visualization ← ok_or Serialization
    (v ← json_from_str (dsh_visualization_json r); visualization_from_value v);
  _ ← validate_visualization visualization;
  id ← parse_uuid_text (dsh_id r);
  connection_id ← parse_uuid_text (dsh_connection_id r);
  created_at ← column_datetime (dsh_created_at r);
  updated_at ← column_datetime (dsh_updated_at r);
  Ok {| da_id := id; da_connection_id := connection_id; da_title := dsh_title r;
        da_description := dsh_description r; da_sql := dsh_sql r;
        da_visualization := visualization; da_created_at := created_at;
        da_updated_at := updated_at |}.

(** [acquire_dashboard_writer] *)
Definition acquire_dashboard_writer (db : StoreDb) : AppResult unit :=
  reject_if (bool_decide (scope_generation (db_scope db) = None))
    (Config "active workspace generation is missing").

Definition save_dashboard_if_current (pin : PinnedConnection) (draft : DashboardDraft) (id : Uuid)
    (now : DateTime) (e : Event) (db : StoreDb) : AppResult (Dashboard * StoreDb) :=
  _ ← reject_if (negb (bool_decide (dd_connection_id draft = pc_connection_id pin)))
        (Blocked "dashboard connection does not match the authorized connection");
  visualization_json ← ok_or Serialization
    (json_to_string (visualization_to_value (dd_visualization draft)));
  _ ← acquire_dashboard_writer db;
  _ ← reject_if (negb (pin_current_with_access pin true db)) dashboard_scope_changed;
  _ ← reject_if (existsb (λ d, dsh_id d =? uuid_to_string id)%string (dashboards (db_artifacts db)))
        (constraint_failed "UNIQUE constraint failed: dashboards.id");
  let wid := uuid_to_string (sc_workspace_id (pc_scope pin)) in
  ct ← enqueue_outbox e wid "dashboard" (uuid_to_string id) "upsert" 1 (db_connections db);
  Ok ({| da_id := id; da_connection_id := dd_connection_id draft; da_title := dd_title draft;
         da_description := dd_description draft; da_sql := dd_sql draft;
         da_visualization := dd_visualization draft; da_created_at := now;
         da_updated_at := now |},
      on_connections (λ _, ct) (on_artifacts (on_dashboards (λ l, l ++ [
        {| dsh_id := uuid_to_string id; dsh_connection_id := uuid_to_string (dd_connection_id draft);
           dsh_title := dd_title draft; dsh_description := dd_description draft;
           dsh_sql := dd_sql draft; dsh_visualization_json := visualization_json;
           dsh_workspace_id := wid; dsh_revision := 1; dsh_sync_status := "dirty";
           dsh_deleted_at := None; dsh_created_at := rfc3339 now; dsh_updated_at := rfc3339 now |}]))
        db)).

(** The dashboards of a connection, newest first; [rowid] breaks ties. *)
Definition dashboard_rows (connection_id workspace_id : string) (db : StoreDb) : list DashboardRow :=
  snd <$> order_by (λ x y : nat * DashboardRow,
      then_with (desc string_cmp (dsh_updated_at x.2) (dsh_updated_at y.2)) (desc Nat.compare x.1 y.1))
    (List.filter (λ r : nat * DashboardRow,
       (dsh_connection_id r.2 =? connection_id)%string && (dsh_workspace_id r.2 =? workspace_id)%string
       && bool_decide (dsh_deleted_at r.2 = None)
       && bool_decide (is_Some (live_row (db_connections db) connection_id workspace_id)))
       (imap pair (dashboards (db_artifacts db)))).

Definition list_dashboards_if_current (pin : PinnedConnection) (db : StoreDb)
  : AppResult (list Dashboard) :=
  _ ← reject_if (negb (pin_current_with_access pin true db)) dashboard_scope_changed;
  mapM row_to_dashboard
    (dashboard_rows (uuid_to_string (pc_connection_id pin))
       (uuid_to_string (sc_workspace_id (pc_scope pin))) db).

(** The last statements of [list_dashboards] and of [get_dashboard]. *)
Definition list_dashboards (connection_id workspace_id : Uuid) (db : StoreDb)
  : AppResult (list Dashboard) :=
  mapM row_to_dashboard
    (dashboard_rows (uuid_to_string connection_id) (uuid_to_string workspace_id) db).

Definition live_dashboard (id : string) (workspace_id : string) (db : StoreDb) : option DashboardRow :=
  d ← List.find (λ d, dsh_id d =? id)%string (dashboards (db_artifacts db));
  _ ← live_row (db_connections db) (dsh_connection_id d) workspace_id;
  if (dsh_workspace_id d =? workspace_id)%string && bool_decide (dsh_deleted_at d = None)
  then Some d else None.

Definition dashboard_not_found (id : Uuid) : AppError := NotFound ("dashboard " +:+ uuid_to_string id).

Definition get_dashboard (id workspace_id : Uuid) (db : StoreDb) : AppResult Dashboard :=
  d ← ok_or (dashboard_not_found id)
        (live_dashboard (uuid_to_string id) (uuid_to_string workspace_id) db);
  row_to_dashboard d.

Record PinnedDashboard := {
  pd_dashboard_id : Uuid; pd_connection_id : Uuid; pd_dashboard_revision : Z;
  pd_connection : PinnedConnection;
}.

(** The statements of [pin_dashboard_for_view]: the dashboard in its scope, and,
    once its connection is pinned, that nothing changed. *)
Definition dashboard_in_scope (id : Uuid) (db : StoreDb)
  : AppResult (Uuid * Z * ActiveResourceScope) :=
  '(d, (wid, w, scope, generation)) ← ok_or (dashboard_not_found id)
    (d ← List.find (λ d, dsh_id d =? uuid_to_string id)%string (dashboards (db_artifacts db));
     '(wid, w, scope, generation) ← artifact_scope (dsh_connection_id d) db;
     if (dsh_workspace_id d =? wid)%string && bool_decide (dsh_deleted_at d = None)
     then Some (d, (wid, w, scope, generation)) else None);
  connection_id ← parse_uuid_text (dsh_connection_id d);
  scope ← row_to_active_resource_scope wid (ws_kind w) (selected_account (db_scope db)) scope
            generation;
  Ok (connection_id, dsh_revision d, scope).

Definition same_dashboard (id : Uuid) (connection : PinnedConnection) (revision : Z)
    (d : DashboardRow) : bool :=
  (dsh_id d =? uuid_to_string id)%string
  && (dsh_workspace_id d =? uuid_to_string (sc_workspace_id (pc_scope connection)))%string
  && (dsh_connection_id d =? uuid_to_string (pc_connection_id connection))%string
  && (dsh_revision d =? revision) && bool_decide (dsh_deleted_at d = None).

Definition confirm_dashboard (id connection_id : Uuid) (revision : Z)
    (connection : PinnedConnection) (db : StoreDb) : AppResult PinnedDashboard :=
  _ ← reject_if (negb (pin_current_with_access connection true db)) dashboard_scope_changed;
  _ ← reject_if (negb (existsb (same_dashboard id connection revision) (dashboards (db_artifacts db))))
        dashboard_scope_changed;
  Ok {| pd_dashboard_id := id; pd_connection_id := connection_id;
        pd_dashboard_revision := revision; pd_connection := connection |}.

Definition tombstone_dashboard (now : string) (d : DashboardRow) : DashboardRow :=
  {| dsh_id := dsh_id d; dsh_connection_id := dsh_connection_id d; dsh_title := dsh_title d;
     dsh_description := dsh_description d; dsh_sql := dsh_sql d;
     dsh_visualization_json := dsh_visualization_json d; dsh_workspace_id := dsh_workspace_id d;
     dsh_revision := dsh_revision d + 1; dsh_sync_status := "dirty"; dsh_deleted_at := Some now;
     dsh_created_at := dsh_created_at d; dsh_updated_at := now |}.

(** [delete_dashboard_if_current], [delete_dashboard_revision_if_current] *)
Definition delete_dashboard_if_current (pin : PinnedDashboard) (now : DateTime) (e : Event)
    (db : StoreDb) : AppResult (unit * StoreDb) :=
  let connection := pd_connection pin in
  _ ← reject_if (negb (bool_decide (pd_connection_id pin = pc_connection_id connection)))
        dashboard_scope_changed;
  _ ← acquire_dashboard_writer db;
  _ ← reject_if (negb (pin_current_with_access connection true db)) dashboard_scope_changed;
  let same := same_dashboard (pd_dashboard_id pin) connection (pd_dashboard_revision pin) in
  d ← ok_or dashboard_scope_changed (List.find same (dashboards (db_artifacts db)));
  ct ← enqueue_outbox e (uuid_to_string (sc_workspace_id (pc_scope connection))) "dashboard"
         (uuid_to_string (pd_dashboard_id pin)) "delete" (dsh_revision d + 1) (db_connections db);
  Ok (tt, on_connections (λ _, ct) (on_artifacts (on_dashboards (map (λ d,
            if same d then tombstone_dashboard (rfc3339 now) d else d))) db)).

(** ** Agent chats *)

Record ChatThread := {
  ct_id : Uuid; ct_provider : AgentProvider.t; ct_connection_id : option Uuid; ct_title : string;
  ct_cli_session_id : option string; ct_model : option string; ct_effort : option string;
  ct_created_at : DateTime; ct_updated_at : DateTime;
}.
Record ChatMessageRecord := {
  cm_id : Uuid; cm_thread_id : Uuid; cm_role : string; cm_text : string;
  cm_error : option string; cm_created_at : DateTime;
}.

(** [parse_uuid_opt] *)
Definition parse_uuid_opt (s : option string) : AppResult (option Uuid) := traverse_opt parse_uuid_text s.

Definition row_to_chat_thread (r : string * ThreadRow) : AppResult ChatThread :=
  id ← parse_uuid_text r.1;
  provider ← parse_agent_provider (thr_provider r.2);
  connection_id ← parse_uuid_opt (thr_connection_id r.2);
  created_at ← column_datetime (thr_created_at r.2);
  updated_at ← column_datetime (thr_updated_at r.2);
  Ok {| ct_id := id; ct_provider := provider; ct_connection_id := connection_id;
        ct_title := thr_title r.2; ct_cli_session_id := thr_cli_session_id r.2;
        ct_model := thr_model r.2; ct_effort := thr_effort r.2; ct_created_at := created_at;
        ct_updated_at := updated_at |}.

Definition row_to_chat_message (r : string * MessageRow) : AppResult ChatMessageRecord :=
  id ← parse_uuid_text r.1;
  thread_id ← parse_uuid_text (msg_thread_id r.2);
  created_at ← column_datetime (msg_created_at r.2);
  Ok {| cm_id := id; cm_thread_id := thread_id; cm_role := msg_role r.2; cm_text := msg_text r.2;
        cm_error := msg_error r.2; cm_created_at := created_at |}.

Definition thread_not_found (id : Uuid) : AppError := NotFound ("chat thread " +:+ uuid_to_string id).

(** The last statement of [create_chat_thread]. *)
Definition create_chat_thread (id : Uuid) (provider : AgentProvider.t) (connection_id : Uuid)
    (model effort : option string) (workspace_id : Uuid) (account_scope : string) (now : DateTime)
    (t : ArtifactTables) : AppResult (ChatThread * ArtifactTables) :=
  _ ← reject_if (bool_decide (is_Some (threads t !! uuid_to_string id)))
        (constraint_failed "UNIQUE constraint failed: agent_chat_threads.id");
  Ok ({| ct_id := id; ct_provider := provider; ct_connection_id := Some connection_id;
         ct_title := ""; ct_cli_session_id := None; ct_model := model; ct_effort := effort;
         ct_created_at := now; ct_updated_at := now |},
      on_threads <[uuid_to_string id :=
        {| thr_provider := agent_provider_str provider;
           thr_connection_id := Some (uuid_to_string connection_id);
           thr_workspace_id := uuid_to_string workspace_id; thr_account_scope := account_scope;
           thr_title := ""; thr_cli_session_id := None; thr_model := model; thr_effort := effort;
           thr_created_at := rfc3339 now; thr_updated_at := rfc3339 now |}]> t).

Definition thread_in_scope (workspace_id : Uuid) (account_scope : string) (r : ThreadRow) : bool :=
  (thr_workspace_id r =? uuid_to_string workspace_id)%string
  && (thr_account_scope r =? account_scope)%string.

Definition list_chat_threads (workspace_id : Uuid) (account_scope : string) (t : ArtifactTables)
  : AppResult (list ChatThread) :=
  mapM row_to_chat_thread
    (order_by (λ x y : string * ThreadRow,
                 desc string_cmp (thr_updated_at x.2) (thr_updated_at y.2))
       (List.filter (λ r : string * ThreadRow, thread_in_scope workspace_id account_scope r.2)
          (map_to_list (threads t)))).

Definition scoped_thread (id workspace_id : Uuid) (account_scope : string) (t : ArtifactTables)
  : AppResult ThreadRow :=
  ok_or (thread_not_found id)
    (r ← threads t !! uuid_to_string id;
     if thread_in_scope workspace_id account_scope r then Some r else None).

Definition get_chat_thread (id workspace_id : Uuid) (account_scope : string) (t : ArtifactTables)
  : AppResult ChatThread :=
  r ← scoped_thread id workspace_id account_scope t; row_to_chat_thread (uuid_to_string id, r).

(** Its messages go with it ([ON DELETE CASCADE]). *)
Definition delete_chat_thread (id workspace_id : Uuid) (account_scope : string) (t : ArtifactTables)
  : AppResult (unit * ArtifactTables) :=
  _ ← scoped_thread id workspace_id account_scope t;
  Ok (tt, on_threads (delete (uuid_to_string id))
            (on_messages (filter (λ r : string * MessageRow,
                                    msg_thread_id r.2 ≠ uuid_to_string id)) t)).

Definition finish_chat_turn (id workspace_id : Uuid) (account_scope : string)
    (cli_session_id model effort : option string) (title_if_empty : string) (now : DateTime)
    (t : ArtifactTables) : AppResult (unit * ArtifactTables) :=
  r ← scoped_thread id workspace_id account_scope t;
  Ok (tt, on_threads <[uuid_to_string id :=
    {| thr_provider := thr_provider r; thr_connection_id := thr_connection_id r;
       thr_workspace_id := thr_workspace_id r; thr_account_scope := thr_account_scope r;
       thr_title := if (thr_title r =? "")%string then title_if_empty else thr_title r;
       thr_cli_session_id := cli_session_id; thr_model := model; thr_effort := effort;
       thr_created_at := thr_created_at r; thr_updated_at := rfc3339 now |}]> t).

(** The last statement of [insert_chat_message_with_id]. *)
Definition insert_chat_message (thread_id id : Uuid) (role text : string) (error : option string)
    (now : DateTime) (t : ArtifactTables) : AppResult (ChatMessageRecord * ArtifactTables) :=
  _ ← reject_if (bool_decide (is_Some (messages t !! uuid_to_string id)))
        (constraint_failed "UNIQUE constraint failed: agent_chat_messages.id");
  _ ← reject_if (bool_decide (threads t !! uuid_to_string thread_id = None))
        (constraint_failed "FOREIGN KEY constraint failed");
  Ok ({| cm_id := id; cm_thread_id := thread_id; cm_role := role; cm_text := text;
         cm_error := error; cm_created_at := now |},
      on_messages <[uuid_to_string id :=
        {| msg_thread_id := uuid_to_string thread_id; msg_role := role; msg_text := text;
           msg_error := error; msg_created_at := rfc3339 now |}]> t).

Definition list_chat_messages (thread_id workspace_id : Uuid) (account_scope : string)
    (t : ArtifactTables) : AppResult (list ChatMessageRecord) :=
  mapM row_to_chat_message
    (order_by (λ x y : string * MessageRow, string_cmp (msg_created_at x.2) (msg_created_at y.2))
       (List.filter (λ r : string * MessageRow,
          (msg_thread_id r.2 =? uuid_to_string thread_id)%string
          && match threads t !! uuid_to_string thread_id with
             | Some th => thread_in_scope workspace_id account_scope th
             | None => false
             end)
          (map_to_list (messages t)))).
End artifacts.
