(* ===== verification/StoreMethods.v ===== *)
(** * The methods of the local store (src-tauri/src/store/mod.rs, [impl Store])

    A statement outside a transaction and a transaction are both one call of
    [StoreCall.t]; [run] is what it does.  A method is a program of such calls,
    between which the statements of other tasks take effect: a state of the store
    is reached by any sequence of them ([store_reachable]). *)

From S2P Require Export StoreArtifacts.

Module StoreCall.
Section call.
Context {P : Platform}.

Inductive t :=
| ListWorkspaces
| AccountRows
| AccountMemberships (user_id : string)
| SelectedAccount
| ActiveScope
| ActiveWorkspace
| Remember (user : WorkspaceAuthUser) (now : DateTime)
| SyncAccount (user : WorkspaceAuthUser) (l : list RemoteWorkspace) (now : DateTime)
| Activate (id : Uuid) (account_user_id : option string) (now : DateTime)
| PreferredWorkspace (user_id : string)
| RemoveAccount (user_id : string) (now : DateTime)
| WriteScope (id : Uuid) (workspace : Workspace) (account : option string)
| Upsert (p : ConnectionProfile) (entries : list (string * string)) (now : DateTime) (e : Event)
| RemoteMembership (workspace_id : Uuid) (user_id : string)
| RemoteOwner (workspace_id : Uuid) (p : ConnectionProfile)
| SyncRemote (workspace_id : Uuid) (user_id : string) (l : list (ConnectionProfile * Z)) (now : DateTime)
| Purge (workspace_id connection_id : Uuid)
| Bindable (id : Uuid) (user_id : string)
| StoreBinding (id : Uuid) (user_id username extra : string) (secret_ref : option string) (now : DateTime)
| ConnectionRows (workspace : Workspace) (account : option string)
| OneConnection (id : Uuid) (workspace : Workspace) (account : option string)
| Pin (id : Uuid) (require_read : bool)
| PinCurrent (pin : PinnedConnection)
| GetCatalog (pin : PinnedConnection)
| PutCatalog (pin : PinnedConnection) (snapshot : CatalogSnapshot)
| ClearCache (pin : PinnedConnection)
| SetGroups (workspace_id : Uuid) (group : option string) (now : DateTime) (ids : list (Uuid * Event))
| DeleteConnection (workspace_id id : Uuid) (now : DateTime) (e : Event)
| ReadSafety (id : Uuid)
| WriteSafety (id : Uuid) (s : SafetySettings)
| InsertHistory (pin : PinnedConnection) (h : HistoryEntry)
| ListHistory (connection_id : Uuid) (account_scope : string)
| GetHistory (id workspace_id : Uuid) (account_scope : string)
| ResolveHistory (id : Uuid)
| HistoryIfCurrent (pin : PinnedConnection) (resolved : ResolvedDashboardHistory)
| SaveDashboard (pin : PinnedConnection) (draft : DashboardDraft) (id : Uuid) (now : DateTime) (e : Event)
| DashboardsIfCurrent (pin : PinnedConnection)
| ListDashboards (connection_id workspace_id : Uuid)
| GetDashboard (id workspace_id : Uuid)
| DashboardInScope (id : Uuid)
| ConfirmDashboard (id connection_id : Uuid) (revision : Z) (connection : PinnedConnection)
| DeleteDashboard (pin : PinnedDashboard) (now : DateTime) (e : Event)
| CreateThread (id : Uuid) (provider : AgentProvider.t) (connection_id : Uuid)
    (model effort : option string) (workspace_id : Uuid) (account_scope : string) (now : DateTime)
| ListThreads (workspace_id : Uuid) (account_scope : string)
| GetThread (id workspace_id : Uuid) (account_scope : string)
| DeleteThread (id workspace_id : Uuid) (account_scope : string)
| FinishTurn (id workspace_id : Uuid) (account_scope : string)
    (cli_session_id model effort : option string) (title_if_empty : string) (now : DateTime)
| InsertMessage (thread_id id : Uuid) (role text : string) (error : option string) (now : DateTime)
| ListMessages (thread_id workspace_id : Uuid) (account_scope : string)
| RepairOnOpen (now : DateTime).

Definition res (c : t) : Type :=
  match c with
  | ListWorkspaces => AppResult (list Workspace)
  | AccountRows => list (string * AccountRow)
  | AccountMemberships _ => AppResult (list WorkspaceAccountMembership)
  | SelectedAccount | PreferredWorkspace _ => option string
  | ActiveScope => AppResult ActiveResourceScope
  | ActiveWorkspace | Activate _ _ _ => AppResult Workspace
  | Remember _ _ | Purge _ _ | ClearCache _ => unit
  | SyncAccount _ _ _ | RemoveAccount _ _ | WriteScope _ _ _ | RemoteMembership _ _
  | RemoteOwner _ _ | StoreBinding _ _ _ _ _ _ | SetGroups _ _ _ _ | DeleteConnection _ _ _ _
  | WriteSafety _ _ | InsertHistory _ _ | DeleteDashboard _ _ _ | DeleteThread _ _ _
  | FinishTurn _ _ _ _ _ _ _ _ => AppResult unit
  | Upsert _ _ _ _ | Bindable _ _ | OneConnection _ _ _ => AppResult ConnectionProfile
  | SyncRemote _ _ _ _ => gset Uuid
  | ConnectionRows _ _ => AppResult (list ConnectionProfile)
  | Pin _ _ => AppResult PinnedConnection
  | PinCurrent _ => bool
  | GetCatalog _ => option CatalogSnapshot
  | PutCatalog _ _ => AppResult CacheWriteOutcome
  | ReadSafety _ => SafetySettings
  | ListHistory _ _ => AppResult (list HistoryEntry)
  | GetHistory _ _ _ | HistoryIfCurrent _ _ => AppResult HistoryEntry
  | ResolveHistory _ => AppResult ResolvedDashboardHistory
  | SaveDashboard _ _ _ _ _ | GetDashboard _ _ => AppResult Dashboard
  | DashboardsIfCurrent _ | ListDashboards _ _ => AppResult (list Dashboard)
  | DashboardInScope _ => AppResult (Uuid * Z * ActiveResourceScope)
  | ConfirmDashboard _ _ _ _ => AppResult PinnedDashboard
  | CreateThread _ _ _ _ _ _ _ _ | GetThread _ _ _ => AppResult ChatThread
  | ListThreads _ _ => AppResult (list ChatThread)
  | InsertMessage _ _ _ _ _ _ => AppResult ChatMessageRecord
  | ListMessages _ _ _ => AppResult (list ChatMessageRecord)
  | RepairOnOpen _ => AppResult bool
  end.
End call.
End StoreCall.
Export StoreCall.

Section run.
Context {P : Platform} {Q : Sqlite} {C : ChronoSerde} {D : StrDebug}.

(** Transactions over some of the tables. *)
Definition in_scope {A} (f : ScopeTables → AppResult (A * ScopeTables)) (db : StoreDb)
  : AppResult (A * StoreDb) :=
  '(a, t) ← f (db_scope db); Ok (a, on_scope (λ _, t) db).
Definition in_connections {A} (f : ConnectionTables → AppResult (A * ConnectionTables)) (db : StoreDb)
  : AppResult (A * StoreDb) :=
  '(a, t) ← f (db_connections db); Ok (a, on_connections (λ _, t) db).
Definition in_artifacts {A} (f : ArtifactTables → AppResult (A * ArtifactTables)) (db : StoreDb)
  : AppResult (A * StoreDb) :=
  '(a, t) ← f (db_artifacts db); Ok (a, on_artifacts (λ _, t) db).

(** What a call answers, and the store it leaves. *)
Definition run (c : StoreCall.t) (db : StoreDb) : StoreCall.res c * StoreDb :=
  let s := db_scope db in
  let ct := db_connections db in
  let a := db_artifacts db in
  match c return StoreCall.res c * StoreDb with
  | ListWorkspaces => (list_workspaces s, db)
  | AccountRows => (account_rows s, db)
  | AccountMemberships user_id => (account_memberships user_id s, db)
  | SelectedAccount => (active_workspace_account_id s, db)
  | ActiveScope => (active_resource_scope s, db)
  | ActiveWorkspace => (active_workspace s, db)
  | Remember user now => (tt, on_scope (remember_workspace_account user now) db)
  | SyncAccount user l now => commit (sync_account_workspaces user l now) db
  | Activate id account now => commit (in_scope (activate_workspace id account now)) db
  | PreferredWorkspace user_id => (preferred_workspace s user_id, db)
  | RemoveAccount user_id now => commit (in_scope (remove_workspace_account user_id now)) db
  | WriteScope id workspace account => (write_scope id workspace account ct, db)
  | Upsert p entries now e => commit (upsert_connection p entries now e) db
  | RemoteMembership workspace_id user_id => (remote_membership workspace_id user_id s, db)
  | RemoteOwner workspace_id p => (remote_owner_ok workspace_id p ct, db)
  | SyncRemote workspace_id user_id l now =>
      let '(removed, t) := sync_remote_connections workspace_id user_id l now ct in
      (removed, on_connections (λ _, t) db)
  | Purge workspace_id connection_id => (tt, purge_remote_connection_cache workspace_id connection_id db)
  | Bindable id user_id => (bindable_connection id user_id db, db)
  | StoreBinding id user_id username extra secret_ref now =>
      commit (in_connections (store_binding id user_id username extra secret_ref now)) db
  | ConnectionRows workspace account =>
      (mapM row_to_connection_with_binding (connection_rows workspace account ct), db)
  | OneConnection id workspace account => (connection_row id workspace account ct, db)
  | Pin id require_read => (pin_connection_with_access id require_read db, db)
  | PinCurrent pin => (is_pin_current pin db, db)
  | GetCatalog pin => (get_catalog_if_current pin db, db)
  | PutCatalog pin snapshot => put_catalog_if_current pin snapshot db
  | ClearCache pin => (tt, on_artifacts (clear_schema_cache pin) db)
  | SetGroups workspace_id group now ids =>
      commit (in_connections (set_schema_groups workspace_id group now ids)) db
  | DeleteConnection workspace_id id now e =>
      commit (in_connections (delete_connection workspace_id id now e)) db
  | ReadSafety id => (get_safety id ct, db)
  | WriteSafety id settings => commit (in_connections (set_safety id settings)) db
  | InsertHistory pin h => commit (insert_history_if_current pin h) db
  | ListHistory connection_id account_scope => (list_history connection_id account_scope a, db)
  | GetHistory id workspace_id account_scope => (get_history id workspace_id account_scope db, db)
  | ResolveHistory id => (resolve_history_for_dashboard_prepare id db, db)
  | HistoryIfCurrent pin resolved => (get_history_if_current pin resolved db, db)
  | SaveDashboard pin draft id now e => commit (save_dashboard_if_current pin draft id now e) db
  | DashboardsIfCurrent pin => (list_dashboards_if_current pin db, db)
  | ListDashboards connection_id workspace_id => (list_dashboards connection_id workspace_id db, db)
  | GetDashboard id workspace_id => (get_dashboard id workspace_id db, db)
  | DashboardInScope id => (dashboard_in_scope id db, db)
  | ConfirmDashboard id connection_id revision connection =>
      (confirm_dashboard id connection_id revision connection db, db)
  | DeleteDashboard pin now e => commit (delete_dashboard_if_current pin now e) db
  | CreateThread id provider connection_id model effort workspace_id account_scope now =>
      commit (in_artifacts (create_chat_thread id provider connection_id model effort workspace_id
                              account_scope now)) db
  | ListThreads workspace_id account_scope => (list_chat_threads workspace_id account_scope a, db)
  | GetThread id workspace_id account_scope => (get_chat_thread id workspace_id account_scope a, db)
  | DeleteThread id workspace_id account_scope =>
      commit (in_artifacts (delete_chat_thread id workspace_id account_scope)) db
  | FinishTurn id workspace_id account_scope cli_session_id model effort title now =>
      commit (in_artifacts (finish_chat_turn id workspace_id account_scope cli_session_id model
                              effort title now)) db
  | InsertMessage thread_id id role text error now =>
      commit (in_artifacts (insert_chat_message thread_id id role text error now)) db
  | ListMessages thread_id workspace_id account_scope =>
      (list_chat_messages thread_id workspace_id account_scope a, db)
  | RepairOnOpen now => commit (in_scope (repair_active_scope now)) db
  end.

Definition store_step (db db' : StoreDb) : Prop := ∃ c, db' = (run c db).2.
Definition store_reachable (db : StoreDb) : Prop := ∃ now, rtc store_step (fresh_store now) db.
End run.

Abbreviation store_program A := (prog StoreCall.res A).

(** ** Methods of several statements *)

Module Store.
Section methods.
Context {P : Platform} {Q : Sqlite}.
Local Open Scope prog_scope.
Local Abbreviation do := (call (Res := StoreCall.res)).

Record WorkspaceAuthAccount := {
  wa_user : WorkspaceAuthUser; wa_memberships : list WorkspaceAccountMembership;
}.

Definition workspace_accounts : store_program (AppResult (list WorkspaceAuthAccount)) :=
  rows ← do AccountRows;
  for_each (λ (accounts : AppResult (list WorkspaceAuthAccount)) (row : string * AccountRow),
    match accounts with
    | Err error => Ret (Err error)
    | Ok accounts =>
        try memberships ← do (AccountMemberships row.1) or Datatypes.id;
        Ret (Ok (accounts ++ [
          {| wa_user := {| us_id := row.1; us_email := acc_email row.2;
                           us_display_name := acc_display_name row.2 |};
             wa_memberships := memberships |}]))
    end) rows (Ok []).

Definition sync_account_workspaces (user : WorkspaceAuthUser) (l : list RemoteWorkspace)
    (t0 now : DateTime) : store_program (AppResult unit) :=
  check _ ← sync_conflicts l or Datatypes.id;
  _ ← do (Remember user t0);
  do (SyncAccount user l now).

Definition activate_workspace_account (user_id : string) (now : DateTime)
  : store_program (AppResult Workspace) :=
  workspace_id ← do (PreferredWorkspace user_id);
  let id := default PERSONAL_WORKSPACE_ID workspace_id in
  check id ← ok_or (Config (uuid_error id)) (uuid_parse id) or Datatypes.id;
  do (Activate id (Some user_id) now).

Definition ensure_connection_write_scope (id : Uuid) : store_program (AppResult unit) :=
  try workspace ← do ActiveWorkspace or Datatypes.id;
  account ← do SelectedAccount;
  do (WriteScope id workspace account).

(** The checks of [sync_remote_connections] on each profile. *)
Fixpoint remote_checks (workspace_id : Uuid) (l : list (ConnectionProfile * Z))
  : store_program (AppResult unit) :=
  match l with
  | [] => Ret (Ok tt)
  | (p, _) :: l =>
      check _ ← remote_profile_ok p or Datatypes.id;
      try _ ← do (RemoteOwner workspace_id p) or Datatypes.id;
      remote_checks workspace_id l
  end.

Definition sync_remote_connections (workspace_id : Uuid) (user_id : string)
    (l : list (ConnectionProfile * Z)) (now : DateTime) : store_program (AppResult (gset Uuid)) :=
  try _ ← do (RemoteMembership workspace_id user_id) or Datatypes.id;
  try _ ← remote_checks workspace_id l or Datatypes.id;
  removed ← do (SyncRemote workspace_id user_id l now);
  Ret (Ok removed).

(** [entries]: [extra_params] in its iteration order. *)
Definition bind_connection_credentials (id : Uuid) (user_id username : string)
    (entries : list (string * string)) (secret_ref : option string) (now : DateTime)
  : store_program (AppResult ConnectionProfile) :=
  try profile ← do (Bindable id user_id) or Datatypes.id;
  check extra ← params_to_string entries or Datatypes.id;
  try _ ← do (StoreBinding id user_id (trim username) extra secret_ref now) or Datatypes.id;
  Ret (Ok (with_binding profile (trim username) (list_to_map entries) secret_ref
             (cp_workspace_access profile) (cp_allow_writes profile))).

Definition list_connections : store_program (AppResult (list ConnectionProfile)) :=
  try workspace ← do ActiveWorkspace or Datatypes.id;
  account ← do SelectedAccount;
  check _ ← team_without_account workspace account or Datatypes.id;
  do (ConnectionRows workspace account).

Definition get_connection (id : Uuid) : store_program (AppResult ConnectionProfile) :=
  try workspace ← do ActiveWorkspace or Datatypes.id;
  account ← do SelectedAccount;
  check _ ← team_without_account workspace account or Datatypes.id;
  do (OneConnection id workspace account).

(** [active_workspace_id]; [active_local_scope] *)
Definition active_workspace_id : store_program (AppResult Uuid) :=
  try scope ← do ActiveScope or Datatypes.id; Ret (Ok (sc_workspace_id scope)).
Definition active_local_scope : store_program (AppResult string) :=
  try scope ← do ActiveScope or Datatypes.id; Ret (Ok (storage_key (sc_account_scope scope))).

Fixpoint get_connections (ids : list Uuid) : store_program (AppResult unit) :=
  match ids with
  | [] => Ret (Ok tt)
  | id :: ids => try _ ← get_connection id or Datatypes.id; get_connections ids
  end.

Definition set_connections_schema_group (ids : list (Uuid * Event)) (group : option string)
    (now : DateTime) : store_program (AppResult unit) :=
  try _ ← get_connections ids.*1 or Datatypes.id;
  try workspace_id ← active_workspace_id or Datatypes.id;
  do (SetGroups workspace_id group now ids).

Definition delete_connection (id : Uuid) (now : DateTime) (e : Event) : store_program (AppResult unit) :=
  try _ ← get_connection id or Datatypes.id;
  try workspace_id ← active_workspace_id or Datatypes.id;
  do (DeleteConnection workspace_id id now e).

Definition get_safety (id : Uuid) : store_program (AppResult SafetySettings) :=
  try _ ← get_connection id or Datatypes.id;
  settings ← do (ReadSafety id); Ret (Ok settings).

Definition set_safety (id : Uuid) (s : SafetySettings) : store_program (AppResult unit) :=
  try _ ← get_connection id or Datatypes.id; do (WriteSafety id s).

Definition list_history (connection_id : Uuid) : store_program (AppResult (list HistoryEntry)) :=
  try _ ← get_connection connection_id or Datatypes.id;
  try account_scope ← active_local_scope or Datatypes.id;
  do (ListHistory connection_id account_scope).

(** The scope of an artifact: [active_workspace_id] and [active_local_scope]. *)
Definition scoped {A} (k : Uuid → string → store_program (AppResult A)) : store_program (AppResult A) :=
  try workspace_id ← active_workspace_id or Datatypes.id;
  try account_scope ← active_local_scope or Datatypes.id;
  k workspace_id account_scope.

Definition get_history (id : Uuid) : store_program (AppResult HistoryEntry) :=
  scoped (λ workspace_id account_scope, do (GetHistory id workspace_id account_scope)).

Definition save_dashboard (draft : DashboardDraft) (id : Uuid) (now : DateTime) (e : Event)
  : store_program (AppResult Dashboard) :=
  try pin ← do (Pin (dd_connection_id draft) false) or Datatypes.id;
  do (SaveDashboard pin draft id now e).

Definition list_dashboards (connection_id : Uuid) : store_program (AppResult (list Dashboard)) :=
  try workspace_id ← active_workspace_id or Datatypes.id;
  do (ListDashboards connection_id workspace_id).

Definition get_dashboard (id : Uuid) : store_program (AppResult Dashboard) :=
  try workspace_id ← active_workspace_id or Datatypes.id; do (GetDashboard id workspace_id).

Definition pin_dashboard_for_view (id : Uuid) : store_program (AppResult PinnedDashboard) :=
  try found ← do (DashboardInScope id) or Datatypes.id;
  let '(connection_id, revision, initial_scope) := found in
  try connection ← do (Pin connection_id false)
    or (λ error, match error with NotFound _ => dashboard_not_found id | error => error end);
  if negb (bool_decide (pc_scope connection = initial_scope))
  then Ret (Err dashboard_scope_changed)
  else do (ConfirmDashboard id connection_id revision connection).

Definition delete_dashboard (id : Uuid) (now : DateTime) (e : Event) : store_program (AppResult unit) :=
  try pin ← pin_dashboard_for_view id or Datatypes.id; do (DeleteDashboard pin now e).

Definition clear_schema_cache (connection_id : Uuid) : store_program (AppResult unit) :=
  try pin ← do (Pin connection_id true) or Datatypes.id;
  _ ← do (ClearCache pin); Ret (Ok tt).

Definition create_chat_thread (provider : AgentProvider.t) (connection_id : Uuid)
    (model effort : option string) (id : Uuid) (now : DateTime) : store_program (AppResult ChatThread) :=
  try _ ← get_connection connection_id or Datatypes.id;
  scoped (λ workspace_id account_scope,
    do (CreateThread id provider connection_id model effort workspace_id account_scope now)).

Definition list_chat_threads : store_program (AppResult (list ChatThread)) :=
  scoped (λ workspace_id account_scope, do (ListThreads workspace_id account_scope)).
Definition get_chat_thread (id : Uuid) : store_program (AppResult ChatThread) :=
  scoped (λ workspace_id account_scope, do (GetThread id workspace_id account_scope)).
Definition delete_chat_thread (id : Uuid) : store_program (AppResult unit) :=
  scoped (λ workspace_id account_scope, do (DeleteThread id workspace_id account_scope)).
Definition finish_chat_turn (id : Uuid) (cli_session_id model effort : option string)
    (title_if_empty : string) (now : DateTime) : store_program (AppResult unit) :=
  scoped (λ workspace_id account_scope,
    do (FinishTurn id workspace_id account_scope cli_session_id model effort title_if_empty now)).

Definition insert_chat_message_with_id (thread_id id : Uuid) (role text : string)
    (error : option string) (now : DateTime) : store_program (AppResult ChatMessageRecord) :=
  try _ ← get_chat_thread thread_id or Datatypes.id;
  do (InsertMessage thread_id id role text error now).
Definition list_chat_messages (thread_id : Uuid) : store_program (AppResult (list ChatMessageRecord)) :=
  scoped (λ workspace_id account_scope, do (ListMessages thread_id workspace_id account_scope)).
End methods.
End Store.
