(* ===== verification/StoreScopeTheorems.v ===== *)
(** * The active scope of the local store

    [scope_ok] holds in every state of the store: the selected workspace is
    active, a team is selected with an account that is its active member, and the
    generation is a number that every change of the selection raises. *)

From S2P Require Export StoreMethods.

(** ** Settings *)

Lemma selected_workspace_set key v t :
  selected_workspace (set_setting key v t)
  = if decide (key = "active_workspace_id") then Some v else selected_workspace t.
Proof.
  unfold selected_workspace. cbn. case_decide; subst; [by rewrite lookup_insert_eq|by rewrite lookup_insert_ne].
Qed.
Lemma selected_account_set key v t :
  selected_account (set_setting key v t)
  = if decide (key = "active_workspace_account_id") then Some v else selected_account t.
Proof.
  unfold selected_account. cbn. case_decide; subst; [by rewrite lookup_insert_eq|by rewrite lookup_insert_ne].
Qed.
Lemma scope_generation_set key v t :
  scope_generation (set_setting key v t)
  = if decide (key = "active_scope_generation") then Some v else scope_generation t.
Proof.
  unfold scope_generation. cbn. case_decide; subst; [by rewrite lookup_insert_eq|by rewrite lookup_insert_ne].
Qed.
Lemma selected_workspace_delete t :
  selected_workspace (delete_setting "active_workspace_account_id" t) = selected_workspace t.
Proof. unfold selected_workspace. cbn. by rewrite lookup_delete_ne. Qed.
Lemma selected_account_delete t :
  selected_account (delete_setting "active_workspace_account_id" t) = None.
Proof. unfold selected_account. cbn. by rewrite lookup_delete_eq. Qed.
Lemma scope_generation_delete t :
  scope_generation (delete_setting "active_workspace_account_id" t) = scope_generation t.
Proof. unfold scope_generation. cbn. by rewrite lookup_delete_ne. Qed.
(** An UPDATE of a setting that is there. *)
Lemma update_setting_set key v t :
  is_Some (settings t !! key) → update_setting key v t = set_setting key v t.
Proof.
  intros [u Hu]. unfold update_setting, set_setting, on_settings. f_equal.
  apply map_eq. intros k. destruct (decide (k = key)) as [->|Hn].
  - by rewrite lookup_alter_eq, lookup_insert_eq, Hu.
  - by rewrite lookup_alter_ne, lookup_insert_ne.
Qed.

#[export] Hint Rewrite selected_workspace_set selected_account_set scope_generation_set
  selected_workspace_delete selected_account_delete scope_generation_delete : settings.
Ltac settings := autorewrite with settings; repeat case_decide; try done.

Section scope.
Context {P : Platform} {Q : Sqlite}.

(** What the membership refresh leaves for [repair_active_scope]. *)
Record repairable (t : ScopeTables) : Prop := {
  rp_personal : ∃ w, workspaces t !! PERSONAL_WORKSPACE_ID = Some w ∧ ws_kind w = "personal"
    ∧ ws_lifecycle_state w = "active";
  rp_canonical : ∀ id w, workspaces t !! id = Some w → (∃ u, id = uuid_to_string u)
    ∧ (ws_kind w = "personal" ∨ ws_kind w = "team");
  rp_selected : is_Some (selected_workspace t);
  rp_generation : ∃ g, scope_generation t = Some (pretty g) ∧ 0 ≤ g ≤ i64_max;
}.

Record scope_ok (t : ScopeTables) : Prop := {
  so_repairable : repairable t;
  so_account : ∀ u, selected_account t = Some u → is_Some (accounts t !! u);
  so_open : ∃ id w, selected_row t = Some (id, w) ∧ scope_open t id w = true;
}.

(** The generation as a number. *)
Definition generation (t : ScopeTables) : Z := default 0 (raw ← scope_generation t; parse_i64 raw).
Definition selection (t : ScopeTables) : option string * option string :=
  (selected_workspace t, selected_account t).

Lemma generation_pretty t g :
  scope_generation t = Some (pretty g) → 0 ≤ g ≤ i64_max → generation t = g.
Proof. intros Ht Hg. unfold generation. rewrite Ht. cbn. by rewrite parse_i64_pretty. Qed.

Lemma generation_ok t :
  repairable t → scope_generation t = Some (pretty (generation t)) ∧ 0 ≤ generation t ≤ i64_max.
Proof. intros [_ _ _ (g & Hg & Hb)]. by rewrite (generation_pretty t g). Qed.

(** [t'] has the workspaces of [t], with the same names, kinds and states. *)
Definition bumped (t t' : ScopeTables) : Prop :=
  t' = set_setting "active_scope_generation" (pretty (generation t + 1)) t
  ∧ generation t + 1 ≤ i64_max.

Lemma bump_bumped t t' : repairable t → bump_active_scope_generation t = Ok t' → bumped t t'.
Proof.
  intros R. destruct (generation_ok t R) as [Hg Hb]. unfold bump_active_scope_generation.
  rewrite Hg. intros H. inv_res. unfold parse_scope_generation in Hx.
  rewrite parse_i64_pretty in Hx by done. inv_res. simplify_eq. unfold i64_succ in Hx0.
  destruct (Z.eqb_spec (generation t) i64_max); [done|]. injection Hx0 as <-. split; [done|lia].
Qed.

Lemma bumped_generation t t' : repairable t → bumped t t' → generation t' = generation t + 1.
Proof.
  intros R [-> Hb]. destruct (generation_ok t R) as [_ Hg].
  apply generation_pretty; [by settings|lia].
Qed.

Lemma bumped_repairable t t' : repairable t → bumped t t' → repairable t'.
Proof.
  intros R [-> Hb]. destruct (generation_ok t R) as [_ Hg]. destruct R. split; try done.
  - by settings.
  - exists (generation t + 1). settings. split; [done|lia].
Qed.

(** *** Selecting *)

Lemma selected_row_Some t id w :
  selected_row t = Some (id, w) ↔ selected_workspace t = Some id ∧ active_workspace_row t id = Some w.
Proof.
  unfold selected_row. destruct (selected_workspace t) as [i|]; cbn; [|naive_solver].
  destruct (active_workspace_row t i) as [v|] eqn:Hv; cbn; naive_solver.
Qed.

Lemma active_workspace_row_Some t id w :
  active_workspace_row t id = Some w ↔ workspaces t !! id = Some w ∧ ws_lifecycle_state w = "active".
Proof.
  unfold active_workspace_row. destruct (workspaces t !! id) as [v|]; cbn; [|naive_solver].
  destruct (String.eqb_spec (ws_lifecycle_state v) "active"); naive_solver.
Qed.

(** The personal workspace can always be selected. *)
Lemma open_personal t :
  repairable t → selected_workspace t = Some PERSONAL_WORKSPACE_ID →
  ∃ id w, selected_row t = Some (id, w) ∧ scope_open t id w = true.
Proof.
  intros [(w & Hw & Hk & Hl) _ _ _] Hs. exists PERSONAL_WORKSPACE_ID, w. split.
  - by apply selected_row_Some; rewrite active_workspace_row_Some.
  - unfold scope_open, is_personal. by rewrite Hk.
Qed.

Lemma membership_open_Some t u id w :
  membership_open t u id = Some w ↔ is_active_member t id u = true ∧ active_workspace_row t id = Some w.
Proof. unfold membership_open. destruct (is_active_member t id u); naive_solver. Qed.

Lemma open_member t u id w :
  selected_workspace t = Some id → selected_account t = Some u → membership_open t u id = Some w →
  ∃ id w, selected_row t = Some (id, w) ∧ scope_open t id w = true.
Proof.
  intros Hs Ha [Hm Hw]%membership_open_Some. exists id, w. split; [by apply selected_row_Some|].
  unfold scope_open, is_active_account. rewrite Ha, Hm. apply orb_true_r.
Qed.

Lemma preferred_open {L : SqliteLaws P Q} t u id :
  preferred_workspace t u = Some id → is_Some (membership_open t u id).
Proof.
  unfold preferred_workspace. intros H.
  destruct (a ← accounts t !! u; id ← acc_last_workspace_id a; _ ← membership_open t u id; Some id)
    as [i|] eqn:Hl.
  - injection H as ->. destruct (accounts t !! u) as [a|]; [|done]. cbn in Hl.
    destruct (acc_last_workspace_id a) as [j|]; [|done]. cbn in Hl.
    destruct (membership_open t u j) eqn:Hm; [|done]. injection Hl as ->. by rewrite Hm.
  - destruct (head _) as [[i w]|] eqn:Hh; [|done]. injection H as ->.
    apply head_Some_elem_of in Hh. rewrite order_by_perm in Hh.
    apply list_elem_of_omap in Hh as ([[j v] m] & _ & Hm). cbn in Hm.
    destruct (String.eqb v u) eqn:Hv; [|done].
    destruct (membership_open t u j) eqn:Ho; [|done]. injection Hm as -> ->. by rewrite Ho.
Qed.

(** *** Changes that keep the invariant *)

Lemma repairable_setting key v t :
  key ≠ "active_scope_generation" → repairable t → repairable (set_setting key v t).
Proof.
  intros Hk [? ? ? ?]. split; try done; settings.
Qed.

Lemma generation_setting key v t :
  key ≠ "active_scope_generation" → generation (set_setting key v t) = generation t.
Proof. intros Hk. unfold generation. settings. Qed.

Lemma repairable_delete t :
  repairable t → repairable (delete_setting "active_workspace_account_id" t).
Proof. intros [? ? ? ?]. split; settings. Qed.

Lemma scope_ok_bumped t t' : scope_ok t → bumped t t' → scope_ok t'.
Proof.
  intros [R Ha (id & w & Hs & Ho)] B. pose proof (bumped_repairable _ _ R B) as R'.
  destruct B as [-> _]. split; [done|by settings|]. exists id, w. split.
  - apply selected_row_Some in Hs as [Hs Hw]. apply selected_row_Some. by settings.
  - unfold scope_open in *. by settings.
Qed.

Lemma scope_ok_accounts f t :
  (∀ u, is_Some (accounts t !! u) → is_Some (f (accounts t) !! u)) →
  scope_ok t → scope_ok (on_accounts f t).
Proof.
  intros Hf [R Ha Ho]. split; [by destruct R|intros u Hu; by apply Hf, Ha|done].
Qed.

Lemma alter_present {A} (f : A → A) (m : gmap string A) k j :
  is_Some (m !! j) → is_Some (alter f k m !! j).
Proof.
  destruct (decide (k = j)) as [->|Hn]; [|by rewrite lookup_alter_ne].
  rewrite lookup_alter_eq. by intros [x ->].
Qed.

(** What a transaction may do to the generation: keep it with the selection, or
    raise it. *)
Definition tracked (t t' : ScopeTables) : Prop :=
  (selection t' = selection t ∧ generation t' = generation t) ∨ generation t' = generation t + 1.

(** A state whose only flaw may be its selection. *)
Definition known_account (t : ScopeTables) (account : option string) : Prop :=
  ∀ u, account = Some u → is_Some (accounts t !! u).

Lemma drop_unknown_ok t account t' repaired :
  repairable t → drop_unknown_account t = (account, t', repaired) →
  repairable t' ∧ selected_workspace t' = selected_workspace t ∧ selected_account t' = account
  ∧ known_account t' account ∧ generation t' = generation t ∧ (repaired = false → t' = t).
Proof.
  intros R. unfold drop_unknown_account, known_account. destruct (selected_account t) as [u|] eqn:Ha.
  - destruct (bool_decide _) eqn:Hb; bools; intros [= <- <- <-]; split_and!; try done; try by settings.
    + by intros v [= <-].
    + by apply repairable_delete.
    + unfold generation. by settings.
  - intros [= <- <- <-]. by split_and!.
Qed.

Lemma valid_ok t id account :
  repairable t → selected_workspace t = Some id → selected_account t = account →
  known_account t account → current_is_valid id account t = true → scope_ok t.
Proof.
  intros R Hs Ha Hin. unfold current_is_valid. destruct (active_workspace_row t id) as [w|] eqn:Hw; [|done].
  intros Hv. split; [done|intros u Hu; apply Hin; congruence|]. exists id, w.
  split; [by apply selected_row_Some|]. unfold scope_open. by rewrite Ha.
Qed.

(** Selecting what [preferred_workspace] found for the account. *)
Lemma fallback_ok {L : SqliteLaws P Q} t account :
  repairable t → selected_account t = account → known_account t account →
  scope_ok (set_setting "active_workspace_id" (fallback_workspace account t) t).
Proof.
  intros R Ha Hin. assert (repairable (set_setting "active_workspace_id" (fallback_workspace account t) t))
    as R' by by apply repairable_setting.
  split; [done|settings; intros u Hu; apply Hin; congruence|].
  unfold fallback_workspace in *. destruct account as [u|]; [|apply open_personal; by settings].
  destruct (preferred_workspace t u) as [id|] eqn:Hp; [|apply open_personal; by settings].
  apply preferred_open in Hp as [w Hw]. eapply (open_member _ u id w); by settings.
Qed.

Lemma select_fallback_ok {L : SqliteLaws P Q} t account now :
  repairable t → selected_account t = account → known_account t account →
  scope_ok (select_fallback account now t) ∧ generation (select_fallback account now t) = generation t.
Proof.
  intros R Ha Hin. pose proof (fallback_ok t account R Ha Hin) as S. unfold select_fallback.
  rewrite update_setting_set by apply R.
  pose proof (generation_setting "active_workspace_id" (fallback_workspace account t) t) as Hg.
  destruct account as [u|]; [|split; [done|by apply Hg]]. split; [|by apply Hg].
  apply scope_ok_accounts; [|done]. intros v Hv. by apply alter_present.
Qed.

Lemma bump_ok t t0 t' :
  scope_ok t → generation t = generation t0 → bump_active_scope_generation t = Ok t' →
  scope_ok t' ∧ tracked t0 t'.
Proof.
  intros S Hg H. apply bump_bumped in H; [|apply S]. split; [by eapply scope_ok_bumped|].
  right. rewrite (bumped_generation t t'), Hg; [done|apply S|done].
Qed.

Lemma repair_ok {L : SqliteLaws P Q} now t b t' :
  repairable t → repair_active_scope now t = Ok (b, t') → scope_ok t' ∧ tracked t t'.
Proof.
  intros R. unfold repair_active_scope. intros H. inv_res. rename x into current.
  destruct (drop_unknown_account t) as [[account t1] repaired] eqn:Hd.
  destruct (drop_unknown_ok _ _ _ _ R Hd) as (R1 & Hs & Ha & Hin & Hg & Hr). rewrite Hx in Hs.
  destruct (current_is_valid current account t1) eqn:Hv; [destruct repaired|].
  - inv_res. eapply bump_ok; [by eapply valid_ok|done|done].
  - injection H as <- <-. rewrite (Hr eq_refl) in *. split; [by eapply valid_ok|by left].
  - inv_res. destruct (select_fallback_ok t1 _ now R1 eq_refl Hin) as [S2 Hg2].
    eapply bump_ok; [done| |done]. by rewrite Hg2.
Qed.

(** ** Transactions *)

Lemma parse_kind_personal s k :
  parse_workspace_kind s = Ok k → (s = "personal" ∧ k = WorkspaceKind.Personal)
    ∨ (s = "team" ∧ k = WorkspaceKind.Team).
Proof.
  unfold parse_workspace_kind. intros H.
  destruct (String.eqb_spec s "personal") as [->|H1]; [injection H as <-; by left|].
  destruct (String.eqb_spec s "team") as [->|H2]; [injection H as <-; by right|].
  exfalso. revert H H1 H2. clear.
  repeat (destruct s as [|[[] [] [] [] [] [] [] []] s]; try done).
Qed.

Lemma row_to_workspace_kind id w ws :
  row_to_workspace (id, w) = Ok ws →
  (ws_kind w = "personal" ∧ wk_kind ws = WorkspaceKind.Personal)
  ∨ (ws_kind w = "team" ∧ wk_kind ws = WorkspaceKind.Team).
Proof.
  unfold row_to_workspace. cbn. intros H. inv_res. cbn. by apply parse_kind_personal.
Qed.

Lemma repairable_members f t : repairable t → repairable (on_members f t).
Proof. by intros []. Qed.
Lemma repairable_accounts f t : repairable t → repairable (on_accounts f t).
Proof. by intros []. Qed.

Lemma archive_lookup now t id :
  workspaces (archive_abandoned now t) !! id = (λ w,
    if (ws_kind w =? "team")%string && negb (has_active_member t id)
    then {| ws_name := ws_name w; ws_kind := ws_kind w; ws_lifecycle_state := "archived";
            ws_created_at := ws_created_at w; ws_updated_at := rfc3339 now |}
    else w) <$> workspaces t !! id.
Proof. cbn. rewrite map_lookup_imap. by destruct (workspaces t !! id). Qed.

Lemma archive_repairable now t : repairable t → repairable (archive_abandoned now t).
Proof.
  intros [(w & Hw & Hk & Hl) Hc ? ?]. split; try done.
  - exists w. rewrite archive_lookup, Hw. cbn. by rewrite Hk.
  - intros id v. rewrite archive_lookup. destruct (workspaces t !! id) as [v'|] eqn:Hv; [|done].
    intros [= <-]. apply Hc in Hv. by destruct (_ && _).
Qed.

(** A workspace in use is not archived. *)
Lemma archive_keeps now t id w :
  active_workspace_row t id = Some w → scope_open t id w = true →
  active_workspace_row (archive_abandoned now t) id = Some w.
Proof.
  intros [Hw Hl]%active_workspace_row_Some Ho. apply active_workspace_row_Some.
  rewrite archive_lookup, Hw. cbn. split; [|done]. f_equal. unfold scope_open, is_personal in Ho.
  destruct (String.eqb_spec (ws_kind w) "team") as [Hk|]; [|done]. rewrite Hk in Ho. cbn in Ho.
  assert (has_active_member t id = true) as ->; [|done].
  unfold is_active_account, is_active_member in Ho. destruct (selected_account t) as [u|]; [|done].
  destruct (members t !! (id, u)) as [m|] eqn:Hm; [|done].
  apply existsb_exists. exists ((id, u), m). split.
  - by apply list_elem_of_In, elem_of_map_to_list.
  - cbn. by rewrite Ho, String.eqb_refl.
Qed.

(** The checks admit the selection. *)
Lemma may_select_ok key w ws account t :
  row_to_workspace (key, w) = Ok ws → may_select key ws account t = Ok tt →
  (is_personal w || is_active_account t key account) = true ∧ known_account t account.
Proof.
  intros Hk%row_to_workspace_kind. unfold may_select, is_personal, known_account.
  destruct account as [u|]; intros H; cbn.
  - inv_res. bools. split; [|by intros v [= <-]].
    destruct Hk as [[-> _]|[-> Hk]]; [done|]. rewrite Hk in H. inv_res. by bools.
  - by destruct Hk as [[-> _]|[_ Hk]]; [|rewrite Hk in H].
Qed.

Lemma select_account_ok key ws account now t :
  repairable t → known_account t account →
  let t' := select_account key ws account now t in
  repairable t' ∧ generation t' = generation t ∧ members t' = members t
  ∧ workspaces t' = workspaces t ∧ selected_account t' = account ∧ known_account t' account.
Proof.
  intros R Hin. unfold select_account, known_account in *. destruct account as [u|]; split_and!; try done.
  - by apply repairable_accounts, repairable_setting.
  - by apply (generation_setting "active_workspace_account_id").
  - cbn. unfold selected_account. cbn. by rewrite lookup_insert_eq.
  - intros v Hv. by apply alter_present, Hin.
  - by apply repairable_delete.
  - unfold generation. by settings.
  - by settings.
Qed.

Lemma activate_ok id account now t ws t' :
  scope_ok t → activate_workspace id account now t = Ok (ws, t') →
  scope_ok t' ∧ generation t' = generation t + 1.
Proof.
  intros S. unfold activate_workspace. intros H. inv_res. rename x into w.
  apply (may_select_ok _ w) in Hx1 as [Ho Hin]; [|done]. set (key := uuid_to_string id) in *.
  destruct (select_account_ok key ws account now t (so_repairable _ S) Hin) as (R & Hg & Hm & Hw & Ha & Hin').
  set (t0 := select_account key ws account now t) in *.
  assert (scope_ok (set_setting "active_workspace_id" key t0)) as S0.
  { split; [by apply repairable_setting|settings; intros u Hu; apply Hin'; congruence|].
    exists key, w. split.
    - apply selected_row_Some. split; [by settings|]. unfold active_workspace_row in *. cbn. by rewrite Hw.
    - unfold scope_open. settings. rewrite Ha. unfold is_active_account, is_active_member in *.
      cbn. by rewrite Hm. }
  apply bump_bumped in Hx2; [|apply S0]. split; [by eapply scope_ok_bumped|].
  rewrite (bumped_generation _ _ (so_repairable _ S0) Hx2), generation_setting; [by rewrite Hg|done].
Qed.

Lemma select_other_ok {L : SqliteLaws P Q} t u :
  repairable t → selected_account t = Some u →
  scope_ok (select_other_account t) ∧ generation (select_other_account t) = generation t.
Proof.
  intros R Hu. unfold select_other_account. destruct (latest_account t) as [a|] eqn:Hl.
  - assert (is_Some (accounts t !! a)) as Hin.
    { unfold latest_account in Hl. destruct (head _) as [[a' r]|] eqn:Hh; [|done]. injection Hl as ->.
      apply head_Some_elem_of in Hh. rewrite order_by_perm in Hh. apply elem_of_map_to_list in Hh. by rewrite Hh. }
    rewrite (update_setting_set "active_workspace_account_id") by by eexists.
    rewrite update_setting_set by (cbn; rewrite lookup_insert_ne by done; apply R).
    split; [|by rewrite !generation_setting]. apply fallback_ok; [by apply repairable_setting|by settings|].
    by intros v [= <-].
  - rewrite update_setting_set by (cbn; rewrite lookup_delete_ne by done; apply R).
    split; [|rewrite generation_setting by done; unfold generation; by settings].
    assert (repairable (set_setting "active_workspace_id" PERSONAL_WORKSPACE_ID
      (delete_setting "active_workspace_account_id" t))) as R'
      by by apply repairable_setting, repairable_delete.
    split; [done|settings|apply open_personal; by settings].
Qed.

Lemma remove_ok {L : SqliteLaws P Q} user_id now t r t' :
  scope_ok t → remove_workspace_account user_id now t = Ok (r, t') → scope_ok t' ∧ tracked t t'.
Proof.
  intros S. unfold remove_workspace_account.
  set (f := map_imap _). set (t0 := on_accounts (delete user_id) (on_members f t)).
  assert (repairable (archive_abandoned now t0)) as R
    by by apply archive_repairable, repairable_accounts, repairable_members, S.
  change (selected_account (archive_abandoned now t0)) with (selected_account t).
  case_bool_decide as Hu; intros H; inv_res.
  - destruct (select_other_ok _ user_id R Hu) as [S1 Hg]. eapply bump_ok; [done| |done]. by rewrite Hg.
  - split; [|by left]. destruct S as [R0 Ha (id & w & Hs & Ho)].
    assert (scope_open t0 id w = true) as Ho0.
    { unfold scope_open, is_active_account, is_active_member in *.
      destruct (is_personal w); [done|]. rewrite orb_false_l in *.
      destruct (selected_account t) as [u|] eqn:Hs'; [|done].
      change (selected_account t0) with (selected_account t). rewrite Hs'.
      subst t0 f. cbn. rewrite map_lookup_imap.
      destruct (members t !! (id, u)) as [m|]; [|done]. cbn. 
      destruct (String.eqb_spec u user_id) as [->|]; [by destruct Hu|done]. }
    split; [done| |].
    + intros u Hs'. cbn. rewrite lookup_delete_ne; [by apply Ha|]. intros <-. by destruct Hu.
    + exists id, w. apply selected_row_Some in Hs as [Hs Hw]. split; [|done].
      apply selected_row_Some. split; [done|]. by apply archive_keeps.
Qed.

Lemma remember_ok user now t :
  scope_ok t → scope_ok (remember_workspace_account user now t) ∧ tracked t (remember_workspace_account user now t).
Proof.
  intros S. split; [|by left]. apply scope_ok_accounts; [|done]. intros u Hu.
  destruct (decide (us_id user = u)) as [->|Hn]; [by rewrite lookup_insert_eq|by rewrite lookup_insert_ne].
Qed.

(** *** The membership refresh *)

Lemma upsert_team_repairable r now t : repairable t → repairable (upsert_team r now t).
Proof.
  intros [(w & Hw & Hk & Hl) Hc ? ?]. split; try done; cbn.
  - destruct (decide (uuid_to_string (rw_id r) = PERSONAL_WORKSPACE_ID)) as [->|Hn].
    + exists w. rewrite lookup_insert_eq, Hw, Hk. done.
    + exists w. by rewrite lookup_insert_ne.
  - intros id v. destruct (decide (uuid_to_string (rw_id r) = id)) as [<-|Hn].
    + rewrite lookup_insert_eq. intros [= <-]. split; [by eexists|].
      destruct (workspaces t !! uuid_to_string (rw_id r)) as [v|] eqn:Hv; [|by right].
      apply Hc in Hv as [_ Hv]. by destruct (_ =? _)%string.
    + rewrite lookup_insert_ne by done. apply Hc.
Qed.

Lemma upsert_memberships_ok user l now t t' :
  upsert_memberships user l now t = Ok t' → repairable t →
  repairable t' ∧ settings t' = settings t ∧ accounts t' = accounts t.
Proof.
  revert t. induction l as [|r l IH]; cbn; intros t H R; [by injection H as <-|].
  inv_res. assert (repairable x ∧ settings x = settings t ∧ accounts x = accounts t) as (Rx & Sx & Ax).
  { unfold upsert_membership in Hx. pose proof (upsert_team_repairable r now t R) as R'.
    destruct (members _ !! _); inv_res; (split; [by apply repairable_members|done]). }
  apply IH in H as (R' & -> & ->); [|done]. by split_and!.
Qed.

Lemma forget_repairable u t : repairable t → repairable (forget_last_workspace u t).
Proof. intros R. by apply repairable_accounts. Qed.

(** The selection and the generation are settings. *)
Lemma tracked_settings t0 t t' : settings t0 = settings t → tracked t t' → tracked t0 t'.
Proof.
  intros E. unfold tracked, selection, generation, selected_workspace, selected_account,
    scope_generation. by rewrite E.
Qed.

Lemma sync_account_ok {L : SqliteLaws P Q} user l now db r db' :
  scope_ok (db_scope db) → sync_account_workspaces user l now db = Ok (r, db') →
  scope_ok (db_scope db') ∧ tracked (db_scope db) (db_scope db').
Proof.
  intros S. unfold sync_account_workspaces. intros H. inv_res. cbn in *.
  apply upsert_memberships_ok in Hx as (R & Hs & _); [|by apply repairable_members, S].
  unfold rescope_schema_cache in Hx0. inv_res. cbn in *.
  apply repair_ok in Hx1 as [S' T]; [|by apply forget_repairable, archive_repairable].
  split; [done|]. eapply tracked_settings; [|exact T]. by rewrite <-Hs.
Qed.
End scope.

(** ** Workspaces stay, with their kind *)

Section kinds.
Context {P : Platform} {Q : Sqlite}.

Definition kinds_keep (t t' : ScopeTables) : Prop :=
  ∀ id w, workspaces t !! id = Some w →
    ∃ w', workspaces t' !! id = Some w' ∧ ws_kind w' = ws_kind w.

#[export] Instance kinds_keep_preorder : PreOrder kinds_keep.
Proof.
  split; [intros t id w Hw; by exists w|]. intros t1 t2 t3 H1 H2 id w Hw.
  destruct (H1 _ _ Hw) as (w1 & Hw1 & E1). destruct (H2 _ _ Hw1) as (w2 & Hw2 & E2).
  exists w2. split; [done|congruence].
Qed.

Lemma kinds_same t t' : workspaces t' = workspaces t → kinds_keep t t'.
Proof. intros E id w Hw. exists w. by rewrite E. Qed.

Lemma kinds_archive now t : kinds_keep t (archive_abandoned now t).
Proof.
  intros id w Hw. rewrite archive_lookup, Hw. cbn. eexists. split; [done|]. by destruct (_ && _).
Qed.

Lemma kinds_upsert_team r now t : kinds_keep t (upsert_team r now t).
Proof.
  intros id w Hw. cbn. destruct (decide (uuid_to_string (rw_id r) = id)) as [->|Hn].
  - rewrite lookup_insert_eq, Hw. eexists. split; [done|]. by destruct (_ =? _)%string.
  - rewrite lookup_insert_ne by done. by exists w.
Qed.

Lemma kinds_upserts user l now t t' : upsert_memberships user l now t = Ok t' → kinds_keep t t'.
Proof.
  revert t. induction l as [|r l IH]; cbn; intros t H; [by injection H as <-|].
  inv_res. etrans; [apply (kinds_upsert_team r now)|]. etrans; [|by apply IH]. apply kinds_same.
  unfold upsert_membership in Hx. by destruct (members _ !! _); inv_res.
Qed.

Lemma bump_workspaces t t' : bump_active_scope_generation t = Ok t' → workspaces t' = workspaces t.
Proof. unfold bump_active_scope_generation. intros H. by inv_res. Qed.

Lemma repair_workspaces now t b t' : repair_active_scope now t = Ok (b, t') → workspaces t' = workspaces t.
Proof.
  unfold repair_active_scope. intros H. inv_res.
  destruct (drop_unknown_account t) as [[account t1] repaired] eqn:Hd.
  assert (workspaces t1 = workspaces t) as <-.
  { unfold drop_unknown_account in Hd. destruct (selected_account t); [destruct (bool_decide _)|]; by simplify_eq. }
  destruct (current_is_valid _ _ _); [destruct repaired|]; inv_res; try done.
  - by apply bump_workspaces.
  - apply bump_workspaces in Hx0 as ->. unfold select_fallback. by destruct account.
Qed.

Lemma activate_workspaces id account now t ws t' :
  activate_workspace id account now t = Ok (ws, t') → workspaces t' = workspaces t.
Proof.
  unfold activate_workspace. intros H. inv_res. apply bump_workspaces in Hx2 as ->. by destruct account.
Qed.

Lemma remove_kinds user_id now t r t' :
  remove_workspace_account user_id now t = Ok (r, t') → kinds_keep t t'.
Proof.
  unfold remove_workspace_account. intros H.
  etrans; [apply (kinds_same t (on_accounts (delete user_id) (on_members
    (map_imap (λ k m, if (k.2 =? user_id)%string then None else Some m)) t))); done|].
  etrans; [apply (kinds_archive now)|]. destruct (bool_decide _); inv_res; [|done].
  apply kinds_same. apply bump_workspaces in Hx as ->. unfold select_other_account.
  by destruct (latest_account _).
Qed.

Lemma refresh_kinds user l now db r db' :
  sync_account_workspaces user l now db = Ok (r, db') → kinds_keep (db_scope db) (db_scope db').
Proof.
  unfold sync_account_workspaces. intros H. inv_res. unfold rescope_schema_cache in Hx0. inv_res. cbn in *.
  etrans; [apply (kinds_same _ (archive_memberships (us_id user) (db_scope db))); done|].
  etrans; [by eapply kinds_upserts|]. apply repair_workspaces in Hx1.
  etrans; [apply (kinds_archive now)|]. by apply kinds_same.
Qed.
End kinds.

(** ** Any call *)

Section steps.
Context {P : Platform} {Q : Sqlite} {C : ChronoSerde} {D : StrDebug}.

Lemma commit_rel {A} (R : StoreDb → Prop) (body : StoreDb → AppResult (A * StoreDb)) db :
  R db → (∀ a db', body db = Ok (a, db') → R db') → R (commit body db).2.
Proof. intros H0 H. unfold commit. destruct (body db) as [[a db']|e] eqn:Hb; [by eapply H|done]. Qed.

(** The calls that change the scope tables. *)
Definition changes_scope (c : StoreCall.t) : bool :=
  match c with
  | Remember _ _ | SyncAccount _ _ _ | Activate _ _ _ | RemoveAccount _ _ | RepairOnOpen _ => true
  | _ => false
  end.

Ltac one_body :=
  intros; match goal with H : _ = Ok _ |- _ =>
    unfold in_scope, in_connections, in_artifacts, upsert_connection, insert_history_if_current,
      save_dashboard_if_current, delete_dashboard_if_current in H; inv_res; try done
  end.

Lemma run_scope c db : changes_scope c = false → db_scope (run c db).2 = db_scope db.
Proof.
  destruct c; try done; intros _; cbn [run];
    try (apply (commit_rel (λ db', db_scope db' = db_scope db)); [done|by one_body]).
  - unfold purge_remote_connection_cache. cbn. by repeat case_match.
  - unfold put_catalog_if_current. by repeat case_match.
Qed.

Lemma step_scope {L : SqliteLaws P Q} db db' :
  scope_ok (db_scope db) → store_step db db' →
  scope_ok (db_scope db') ∧ tracked (db_scope db) (db_scope db').
Proof.
  intros S [c ->]. destruct (changes_scope c) eqn:Hc; [|rewrite run_scope by done; split; [done|by left]].
  assert (∀ t, t = db_scope db → scope_ok t ∧ tracked (db_scope db) t) as Hsame.
  { intros t ->. split; [done|by left]. }
  destruct c; try done; cbn [run].
  - by apply remember_ok.
  - apply (commit_rel (λ db', scope_ok (db_scope db') ∧ tracked (db_scope db) (db_scope db')));
      [by apply Hsame|]. intros a db' H. by eapply sync_account_ok.
  - apply (commit_rel (λ db', scope_ok (db_scope db') ∧ tracked (db_scope db) (db_scope db')));
      [by apply Hsame|]. intros a db' H. unfold in_scope in H. inv_res. cbn.
    apply activate_ok in Hx as [S' Hg]; [|done]. split; [done|by right].
  - apply (commit_rel (λ db', scope_ok (db_scope db') ∧ tracked (db_scope db) (db_scope db')));
      [by apply Hsame|]. intros a db' H. unfold in_scope in H. inv_res. cbn. by eapply remove_ok.
  - apply (commit_rel (λ db', scope_ok (db_scope db') ∧ tracked (db_scope db) (db_scope db')));
      [by apply Hsame|]. intros a db' H. unfold in_scope in H. inv_res. cbn.
    eapply repair_ok; [apply S|done].
Qed.

Lemma step_kinds db db' : store_step db db' → kinds_keep (db_scope db) (db_scope db').
Proof.
  intros [c ->]. destruct (changes_scope c) eqn:Hc; [|by rewrite run_scope].
  destruct c; try done; cbn [run].
  - by apply kinds_same.
  - apply (commit_rel (λ db', kinds_keep (db_scope db) (db_scope db'))); [done|].
    intros a db' H. by eapply refresh_kinds.
  - apply (commit_rel (λ db', kinds_keep (db_scope db) (db_scope db'))); [done|].
    intros a db' H. unfold in_scope in H. inv_res. by eapply kinds_same, activate_workspaces.
  - apply (commit_rel (λ db', kinds_keep (db_scope db) (db_scope db'))); [done|].
    intros a db' H. unfold in_scope in H. inv_res. by eapply remove_kinds.
  - apply (commit_rel (λ db', kinds_keep (db_scope db) (db_scope db'))); [done|].
    intros a db' H. unfold in_scope in H. inv_res. by eapply kinds_same, repair_workspaces.
Qed.

Lemma steps_kinds db db' : rtc store_step db db' → kinds_keep (db_scope db) (db_scope db').
Proof. induction 1; [done|]. etrans; [by apply step_kinds|done]. Qed.

(** A stable identifier of the Personal Workspace. *)
Class PersonalId := { personal_id : Uuid; personal_id_text : uuid_to_string personal_id = PERSONAL_WORKSPACE_ID }.

Lemma fresh_scope_ok {PI : PersonalId} now : scope_ok (db_scope (fresh_store now)).
Proof.
  split.
  - split; cbn.
    + eexists. split; [by rewrite lookup_insert_eq|done].
    + intros id w. destruct (decide (id = PERSONAL_WORKSPACE_ID)) as [->|Hn].
      * rewrite lookup_insert_eq. intros [= <-]. split; [|by left].
        exists personal_id. by rewrite personal_id_text.
      * by rewrite lookup_insert_ne, lookup_empty.
    + by eexists.
    + exists 0. split; [done|]. unfold i64_max. lia.
  - intros u. by vm_compute.
  - exists PERSONAL_WORKSPACE_ID. eexists. split; [by apply selected_row_Some|done].
Qed.

Lemma reachable_scope {L : SqliteLaws P Q} {PI : PersonalId} db :
  store_reachable db → scope_ok (db_scope db).
Proof.
  intros [now H]. revert db H. apply (rtc_ind_r (λ db, scope_ok (db_scope db))); [apply fresh_scope_ok|].
  intros db db' _ H S. by apply (step_scope db db').
Qed.

(** Along a run the generation grows, and while it stays the selection stays. *)
Lemma steps_scope {L : SqliteLaws P Q} db db' :
  scope_ok (db_scope db) → rtc store_step db db' →
  scope_ok (db_scope db') ∧ generation (db_scope db) ≤ generation (db_scope db')
  ∧ (generation (db_scope db') = generation (db_scope db) →
     selection (db_scope db') = selection (db_scope db)).
Proof.
  intros S H. revert db' H.
  apply (rtc_ind_r (λ db', scope_ok (db_scope db') ∧ generation (db_scope db) ≤ generation (db_scope db')
    ∧ (generation (db_scope db') = generation (db_scope db) →
       selection (db_scope db') = selection (db_scope db)))); [done|].
  intros db1 db2 _ Hs (S1 & Hle & Heq). destruct (step_scope db1 db2 S1 Hs) as [S2 [[E1 E2]|E]].
  - split; [done|]. rewrite E1, E2. done.
  - split; [done|]. rewrite E. split; [lia|]. intros ?. lia.
Qed.
End steps.
