(* ===== verification/StorePins.v ===== *)
(** * How the rows of the local store change

    [row_move] lists everything a statement may do to one connection row;
    [run_rows] shows that the calls of the store do nothing else. *)

From S2P Require Export StoreScopeTheorems.

(** One change of the row of connection [id]; a template of the server may only
    arrive when [remote] is set. *)
Inductive row_move (id : string) (remote : bool) : option ConnectionRow → option ConnectionRow → Prop :=
| move_adopt r user :
    con_remote_id r = None → con_account_user_id r = None →
    row_move id remote (Some r) (Some (set_con_account (Some user) r))
| move_redact r :
    is_remote r = true → row_move id remote (Some r) (Some (set_con_credentials "" "{}" None r))
| move_create r :
    con_remote_id r = None → con_workspace_access r = "local" → con_credential_mode r = "local" →
    con_revision r = 1 → row_move id remote None (Some r)
| move_edit r r' :
    con_remote_id r = None → con_remote_id r' = None → con_workspace_access r' = "local" →
    con_credential_mode r' = "local" → con_revision r' = con_revision r + 1 →
    con_workspace_id r' = con_workspace_id r →
    row_move id remote (Some r) (Some r')
| move_group r group now :
    row_move id remote (Some r) (Some (set_con_group group now r))
| move_delete r now :
    row_move id remote (Some r) (Some (set_con_deleted (con_revision r + 1) "dirty" now r))
| move_withdraw r now :
    is_remote r = true →
    row_move id remote (Some r) (Some (set_con_deleted (con_revision r) (con_sync_status r) now r))
| move_sync o r :
    remote = true → con_remote_id r = Some id → row_move id remote o (Some r)
| move_purge r :
    con_remote_id r = Some id → row_move id remote (Some r) None.

Ltac apply_enqueue :=
  cbn; match goal with H : enqueue_outbox _ _ _ _ _ _ _ = Ok _ |- _ =>
    let E := fresh "E" in pose proof H as E; unfold enqueue_outbox in E; inv_res end.

Section rows.
Context {P : Platform} {Q : Sqlite} {C : ChronoSerde} {D : StrDebug}.

Definition row (db : StoreDb) (id : string) : option ConnectionRow := connections (db_connections db) !! id.

(** A call that brings a template for [id]. *)
Definition syncs (id : string) (c : StoreCall.t) : bool :=
  match c with
  | SyncRemote _ _ l _ => one_of (map (λ p, uuid_to_string (cp_id p.1)) l) id
  | _ => false
  end.

Local Abbreviation moves id c := (rtc (row_move id (syncs id c))).

Lemma legacy_template_local u t c : con_remote_id c = None → legacy_template u t c = false.
Proof. unfold legacy_template. by intros ->. Qed.

Lemma refresh_rows user l now db r db' id remote :
  sync_account_workspaces user l now db = Ok (r, db') → rtc (row_move id remote) (row db id) (row db' id).
Proof.
  unfold sync_account_workspaces. intros H. inv_res. unfold rescope_schema_cache in Hx0. inv_res.
  unfold row. cbn. unfold redact_templates, adopt_connections. rewrite !lookup_fmap.
  destruct (connections (db_connections db) !! id) as [c|]; cbn; [|done].
  destruct (bool_decide _ && _) eqn:Ha; bools.
  - destruct H as [Hr Hn]. etrans; [apply rtc_once; by apply move_adopt|].
    by rewrite legacy_template_local.
  - destruct (legacy_template _ _ _) eqn:Hl; [|done]. apply rtc_once, move_redact.
    by apply andb_true_iff in Hl as [[Hl _]%andb_true_iff _].
Qed.

Lemma upserted_move id remote p extra wid account now o r :
  is_local (cp_workspace_access p) = true → is_local_mode (cp_credential_mode p) = true →
  upserted_row p extra wid account now o = Some r → row_move id remote o (Some r).
Proof.
  intros Ha Hm. unfold upserted_row. destruct (cp_workspace_access p) eqn:Hacc; try done.
  destruct (cp_credential_mode p) eqn:Hmode; try done. destruct o as [c|].
  - destruct (_ && _) eqn:Hb; [|done]. intros [= <-].
    apply andb_true_iff in Hb as [_ Hr]. unfold is_remote in Hr.
    destruct (con_remote_id c) eqn:Hc; [done|]. apply move_edit; cbn; by rewrite ?Hacc, ?Hmode.
  - intros [= <-]. apply move_create; cbn; by rewrite ?Hacc, ?Hmode.
Qed.

Lemma upsert_rows p entries now e db r db' id remote :
  upsert_connection p entries now e db = Ok (r, db') → rtc (row_move id remote) (row db id) (row db' id).
Proof.
  unfold upsert_connection. intros H. inv_res. unfold enqueue_outbox in *. inv_res. bools. unfold row. cbn.
  match goal with |- context [<[?k := _]> _ !! id] => destruct (decide (k = id)) as [E|Hn] end;
    [|by rewrite lookup_insert_ne].
  rewrite E, lookup_insert_eq in *. apply rtc_once. by eapply upserted_move.
Qed.

(** Statements over the connection tables. *)
Lemma enqueue_rows e wid kind id operation revision t t' :
  enqueue_outbox e wid kind id operation revision t = Ok t' →
  connections t' = connections t ∧ bindings t' = bindings t.
Proof. unfold enqueue_outbox. intros H. by inv_res. Qed.

Lemma live_row_Some t id wid c :
  live_row t id wid = Some c ↔ connections t !! id = Some c ∧ con_workspace_id c = wid ∧ con_deleted_at c = None.
Proof.
  unfold live_row. destruct (connections t !! id) as [c'|]; cbn; [|naive_solver].
  destruct (String.eqb_spec (con_workspace_id c') wid); cbn; [|naive_solver].
  case_bool_decide; naive_solver.
Qed.

Lemma groups_rows wid group now ids t t' id remote :
  set_schema_groups wid group now ids t = Ok (tt, t') →
  rtc (row_move id remote) (connections t !! id) (connections t' !! id).
Proof.
  revert t. induction ids as [|[i e] ids IH]; cbn; intros t H; [by injection H as <-|].
  inv_res. apply IH in H. etrans; [|exact H]. unfold set_schema_group in Hx. inv_res.
  apply live_row_Some in Hx0 as [Hc _]. apply enqueue_rows in Hx as [-> _]. cbn.
  destruct (decide (uuid_to_string i = id)) as [E|Hn]; [|by rewrite lookup_insert_ne].
  rewrite E, lookup_insert_eq in *. rewrite Hc. apply rtc_once, move_group.
Qed.

Lemma delete_rows wid i now e t t' id remote :
  delete_connection wid i now e t = Ok (tt, t') →
  rtc (row_move id remote) (connections t !! id) (connections t' !! id).
Proof.
  unfold delete_connection. intros H. inv_res. apply live_row_Some in Hx as [Hc _].
  apply enqueue_rows in Hx0 as [-> _]. cbn.
  destruct (decide (uuid_to_string i = id)) as [E|Hn]; [|by rewrite lookup_insert_ne].
  rewrite E, lookup_insert_eq in *. rewrite Hc. apply rtc_once, move_delete.
Qed.

Lemma withdraw_rows wid incoming now t id remote :
  rtc (row_move id remote) (connections t !! id) (connections (withdraw wid incoming now t) !! id).
Proof.
  unfold withdraw. cbn. rewrite map_lookup_imap. destruct (connections t !! id) as [c|]; cbn; [|done].
  destruct (withdrawn wid incoming id c) eqn:Hw; [|done]. apply rtc_once, move_withdraw.
  by apply andb_true_iff in Hw as [[_ Hw]%andb_true_iff _].
Qed.

Lemma template_rows wid user p revision now t id remote :
  (uuid_to_string (cp_id p) = id → remote = true) →
  rtc (row_move id remote) (connections t !! id)
    (connections (sync_template wid user p revision now t) !! id).
Proof.
  intros Hr. unfold sync_template. cbn. set (key := uuid_to_string (cp_id p)) in *.
  destruct (decide (key = id)) as [E|Hn].
  - rewrite E in *. destruct (connections t !! id) as [c|] eqn:Hc.
    + destruct (_ =? _)%string; [|by rewrite Hc]. rewrite lookup_insert_eq. apply rtc_once. by apply move_sync; [apply Hr|].
    + rewrite lookup_insert_eq. apply rtc_once. by apply move_sync; [apply Hr|].
  - destruct (connections t !! key) as [c|]; [destruct (_ =? _)%string|]; by rewrite ?lookup_insert_ne.
Qed.

Lemma templates_rows wid user l now t id remote :
  (one_of (map (λ p, uuid_to_string (cp_id p.1)) l) id = true → remote = true) →
  rtc (row_move id remote) (connections t !! id)
    (connections (foldl (λ t p, sync_template wid user p.1 p.2 now t) t l) !! id).
Proof.
  revert t. induction l as [|[p revision] l IH]; cbn; intros t Hr; [done|].
  etrans; [apply template_rows|apply IH].
  - intros E. apply Hr. by rewrite E, String.eqb_refl.
  - intros Hl. apply Hr. unfold one_of in Hl. by rewrite Hl, orb_true_r.
Qed.

Lemma purge_rows wid i db id remote :
  rtc (row_move id remote) (row db id) (row (purge_remote_connection_cache wid i db) id).
Proof.
  unfold purge_remote_connection_cache. destruct (connections _ !! uuid_to_string i) as [c|] eqn:Hc; [|done].
  destruct (_ && _) eqn:Hb; [|done]. bools. unfold row. cbn.
  destruct (decide (uuid_to_string i = id)) as [E|Hn]; [|by rewrite lookup_delete_ne].
  rewrite E in *. rewrite lookup_delete_eq, Hc. by apply rtc_once, move_purge.
Qed.

Lemma run_rows c db id : rtc (row_move id (syncs id c)) (row db id) (row (run c db).2 id).
Proof.
  destruct c; cbn [run]; try done;
    try (apply (commit_rel (λ db', rtc (row_move id _) (row db id) (row db' id))); [done|]; intros a db' H;
         unfold in_scope, in_connections, in_artifacts in H; inv_res; unfold row; cbn).
  all: try done.
  - by eapply refresh_rows.
  - by eapply upsert_rows.
  - unfold row. cbn. etrans; [apply withdraw_rows|by apply templates_rows].
  - apply purge_rows.
  - unfold store_binding in Hx. destruct (bindings _ !! _); inv_res; [|done]. by destruct (bool_decide _); inv_res.
  - unfold put_catalog_if_current. by repeat case_match.
  - by eapply groups_rows.
  - by eapply delete_rows.
  - unfold set_safety in Hx. by inv_res.
  - unfold insert_history_if_current in H. by inv_res.
  - unfold save_dashboard_if_current in H. by inv_res; apply_enqueue.
  - unfold delete_dashboard_if_current in H. by inv_res; apply_enqueue.
Qed.
End rows.

(** ** What a connection pin promises

    A pin names a scope and the revisions of a connection.  While it is current it
    names the very material that was pinned; once another scope was selected it is
    never current again, and nothing is written under it. *)

Section pins.
Context {P : Platform} {Q : Sqlite} {C : ChronoSerde} {D : StrDebug}.

(** ** Rows of local connections *)

Definition local_row_ok (o : option ConnectionRow) : Prop :=
  ∀ r, o = Some r → con_remote_id r = None →
    con_workspace_access r = "local" ∧ con_credential_mode r = "local" ∧ 1 ≤ con_revision r.

Lemma move_local_ok id remote o o' : row_move id remote o o' → local_row_ok o → local_row_ok o'.
Proof.
  intros H Ho r' Hr' Hn. destruct H; simplify_eq; cbn in *; try (by split_and!; [..|lia]);
    try (destruct (Ho r eq_refl) as (? & ? & ?); [done|split_and!; [done..|lia]]).
Qed.

Lemma steps_local_ok id remote o o' :
  rtc (row_move id remote) o o' → local_row_ok o → local_row_ok o'.
Proof. induction 1; [done|]. intros. by eapply IHrtc, move_local_ok. Qed.

Lemma reachable_local_ok db id : store_reachable db → local_row_ok (row db id).
Proof.
  intros [now H]. revert db H.
  apply (rtc_ind_r (λ db, local_row_ok (row db id))).
  - intros r. by unfold row; cbn; rewrite lookup_empty.
  - intros db db' _ [c ->] Hl. eapply steps_local_ok; [apply run_rows|done].
Qed.

(** A local row keeps its content as long as it keeps its revision. *)
Definition later_local (r r' : ConnectionRow) : Prop :=
  con_remote_id r' = None ∧ con_workspace_id r' = con_workspace_id r
  ∧ (con_revision r < con_revision r'
     ∨ con_revision r' = con_revision r ∧ set_con_account None r' = set_con_account None r).

Lemma move_later id r o : row_move id false (Some r) o → con_remote_id r = None →
  ∃ r', o = Some r' ∧ later_local r r'.
Proof.
  intros H Hr. unfold later_local.
  inversion H; subst; try done; try (eexists; split; [done|]; cbn; split_and!; try done; try (left; lia); by right).
  - unfold is_remote in *. bools. rewrite Hr in *. by match goal with H : is_Some None |- _ => destruct H end.
  - unfold is_remote in *. bools. rewrite Hr in *. by match goal with H : is_Some None |- _ => destruct H end.
  - by rewrite Hr in *.
Qed.

Lemma steps_later id o o' : rtc (row_move id false) o o' →
  ∀ r, o = Some r → con_remote_id r = None → ∃ r', o' = Some r' ∧ later_local r r'.
Proof.
  intros H. induction H as [o|o o1 o' H _ IH]; intros r -> Hr.
  - exists r. split; [done|]. split_and!; [done|done|by right].
  - apply move_later in H as (r1 & -> & Hr1 & Hw1 & Hrev1); [|done].
    destruct (IH r1 eq_refl Hr1) as (r2 & -> & Hr2 & Hw2 & Hrev2). exists r2. split; [done|].
    split_and!; [done|congruence|]. destruct Hrev1 as [?|[E1 M1]], Hrev2 as [?|[E2 M2]];
      [left; lia|left; lia|left; lia|right]. split; congruence.
Qed.

(** A call that brings no template for [id]. *)
Definition quiet_step (id : string) (db db' : StoreDb) : Prop :=
  ∃ c, syncs id c = false ∧ db' = (run c db).2.

Lemma quiet_rows id db db' :
  rtc (quiet_step id) db db' → rtc (row_move id false) (row db id) (row db' id).
Proof.
  induction 1 as [|db db1 db' (c & Hc & ->) _ IH]; [done|]. etrans; [|exact IH].
  pose proof (run_rows c db id) as H. by rewrite Hc in H.
Qed.

Lemma quiet_steps id db db' : rtc (quiet_step id) db db' → rtc store_step db db'.
Proof.
  induction 1 as [|db db1 db' (c & _ & ->) _ IH]; [done|]. eapply rtc_l; [by exists c|done].
Qed.

(** ** What a pin was made of *)

(** The rows a pin of [id] is made of. *)
Record joined (id : string) (db : StoreDb) (wid : string) (w : WorkspaceRow) (c : ConnectionRow)
    (raw scope : string) : Prop := {
  jn_selected : selected_row (db_scope db) = Some (wid, w);
  jn_generation : scope_generation (db_scope db) = Some raw;
  jn_row : live_row (db_connections db) id wid = Some c;
  jn_scope : account_scope_column w (selected_account (db_scope db)) = Some scope;
  jn_open : scope_open (db_scope db) wid w = true;
  jn_visible : visible_to (is_personal w) c (selected_account (db_scope db)) = true;
}.

Definition joined_row (id : string) (db : StoreDb) (wid : string) (w : WorkspaceRow)
    (c : ConnectionRow) (raw scope : string) : PinRow :=
  let account := selected_account (db_scope db) in
  {| pr_bound := {| br_id := id; br_row := c; br_binding := binding_of (db_connections db) id account |};
     pr_workspace_id := wid; pr_workspace := w; pr_account := account; pr_account_scope := scope;
     pr_generation := raw |}.

Lemma joined_pin id db wid w c raw scope :
  joined id db wid w c raw scope → pin_row id db = Some (joined_row id db wid w c raw scope).
Proof.
  intros [Hs Hg Hr Ha Ho Hv]. unfold pin_row. rewrite Hs. cbn. rewrite Hg. cbn. rewrite Hr. cbn.
  rewrite Ha. cbn. by rewrite Ho, Hv.
Qed.

Lemma pin_joined id db row :
  pin_row id db = Some row →
  ∃ wid w c raw scope, joined id db wid w c raw scope ∧ row = joined_row id db wid w c raw scope.
Proof.
  unfold pin_row. destruct (selected_row _) as [[wid w]|] eqn:Hs; cbn; [|done].
  destruct (scope_generation _) as [raw|] eqn:Hg; cbn; [|done].
  destruct (live_row _ id wid) as [c|] eqn:Hr; cbn; [|done].
  destruct (account_scope_column _ _) as [scope|] eqn:Ha; cbn; [|done].
  destruct (_ && _) eqn:Hb; [|done]. intros [= <-]. bools. by exists wid, w, c, raw, scope.
Qed.

(** A current pin names the rows of the present. *)
Lemma current_joined pin allow_view db :
  pin_current_with_access pin allow_view db = true →
  ∃ wid w c raw scope,
    joined (uuid_to_string (pc_connection_id pin)) db wid w c raw scope
    ∧ wid = uuid_to_string (sc_workspace_id (pc_scope pin))
    ∧ ws_kind w = workspace_kind_str (sc_workspace_kind (pc_scope pin))
    ∧ selected_account (db_scope db) = sc_selected_account_id (pc_scope pin)
    ∧ raw = pretty (sc_generation (pc_scope pin))
    ∧ con_revision c = pc_connection_revision pin
    ∧ scope = storage_key (sc_account_scope (pc_scope pin))
    ∧ let b := binding_of (db_connections db) (uuid_to_string (pc_connection_id pin))
                 (selected_account (db_scope db)) in
      binding_revision_of c b = pc_binding_revision pin
      ∧ binding_updated_at_of c b = pc_binding_updated_at pin.
Proof.
  unfold pin_current_with_access. destruct (selected_row _) as [[wid w]|] eqn:Hs; cbn; [|done].
  destruct (scope_generation _) as [raw|] eqn:Hg; cbn; [|done].
  destruct (live_row _ _ wid) as [c|] eqn:Hr; cbn; [|done]. intros H. bools.
  repeat match goal with H : (_ =? _) = true |- _ => apply Z.eqb_eq in H end.
  exists wid, w, c, raw, (storage_key (sc_account_scope (pc_scope pin))). by split_and!.
Qed.

Lemma kind_text k s : parse_workspace_kind s = Ok k → workspace_kind_str k = s.
Proof. by intros [[-> ->]|[-> ->]]%parse_kind_personal. Qed.

(** The parts of a pin. *)
Lemma pin_inv id require_read db pin :
  pin_connection_with_access id require_read db = Ok pin →
  ∃ wid w c raw scope, let row := joined_row (uuid_to_string id) db wid w c raw scope in
    joined (uuid_to_string id) db wid w c raw scope
    ∧ row_to_connection_with_binding (pr_bound row) = Ok (pc_profile pin)
    ∧ (require_read = true →
       WorkspaceConnectionAccess.can_read (cp_workspace_access (pc_profile pin)) = true)
    ∧ row_to_active_resource_scope wid (ws_kind w) (selected_account (db_scope db)) scope raw = Ok (pc_scope pin)
    ∧ pc_connection_id pin = id ∧ pc_connection_revision pin = con_revision c
    ∧ pc_binding_revision pin = binding_revision_of c (br_binding (pr_bound row))
    ∧ pc_binding_updated_at pin = binding_updated_at_of c (br_binding (pr_bound row))
    ∧ pc_requires_remote_rbac pin = is_remote c.
Proof.
  unfold pin_connection_with_access, pin_of_row. intros H. inv_res.
  apply pin_joined in Hx as (wid & w & c & raw & scope & Hj & ->). cbn in *.
  exists wid, w, c, raw, scope. split_and!; try done. intros ->.
  by destruct (WorkspaceConnectionAccess.can_read _).
Qed.

Lemma scope_inv wid kind account scope raw s :
  row_to_active_resource_scope wid kind account scope raw = Ok s →
  uuid_parse wid = Some (sc_workspace_id s) ∧ parse_workspace_kind kind = Ok (sc_workspace_kind s)
  ∧ sc_selected_account_id s = account ∧ parse_scope_generation raw = Ok (sc_generation s)
  ∧ storage_key (sc_account_scope s) = scope.
Proof.
  unfold row_to_active_resource_scope. intros H. inv_res. cbn. unfold parse_uuid_text in *.
  inv_res. split_and!; try done. unfold account_scope_from_parts in *. destruct x0.
  - destruct (String.eqb_spec scope "personal") as [->|]; [|done]. by injection Hx1 as <-.
  - inv_res. by bools.
Qed.

(** ** A current pin of a local connection is exact *)

Lemma local_profile id c b :
  is_remote c = false → local_row_ok (Some c) →
  row_to_connection_with_binding {| br_id := id; br_row := c; br_binding := b |} = row_to_connection id c.
Proof.
  intros Hr Hl. unfold row_to_connection_with_binding. cbn.
  destruct (Hl c eq_refl) as (Ha & _).
  { unfold is_remote in Hr. bools. destruct (con_remote_id c); [by destruct Hr|done]. }
  destruct (row_to_connection id c) as [p|e] eqn:Hp; [|done]. cbn.
  unfold row_to_connection in Hp. rewrite Ha in Hp. inv_res. by injection Hx2 as <-.
Qed.

Lemma same_material_profile id c c' :
  set_con_account None c' = set_con_account None c → row_to_connection id c' = row_to_connection id c.
Proof.
  intros E. change (row_to_connection id (set_con_account None c') = row_to_connection id c).
  by rewrite E.
Qed.

(** From the reachable states. *)
Lemma generation_text {L : SqliteLaws P Q} {PI : PersonalId} db raw g :
  store_reachable db → scope_generation (db_scope db) = Some raw → parse_scope_generation raw = Ok g →
  raw = pretty g ∧ g = generation (db_scope db).
Proof.
  intros S Hr Hg. apply reachable_scope in S. destruct (generation_ok _ (so_repairable _ S)) as [Ht Hb].
  rewrite Ht in Hr. injection Hr as <-. unfold parse_scope_generation in Hg.
  rewrite parse_i64_pretty in Hg by done. inv_res. by simplify_eq.
Qed.

Lemma pin_of_row_ext id require_read row row' :
  row_to_connection_with_binding (pr_bound row') = row_to_connection_with_binding (pr_bound row) →
  pr_workspace_id row' = pr_workspace_id row → ws_kind (pr_workspace row') = ws_kind (pr_workspace row) →
  pr_account row' = pr_account row → pr_account_scope row' = pr_account_scope row →
  pr_generation row' = pr_generation row →
  con_revision (br_row (pr_bound row')) = con_revision (br_row (pr_bound row)) →
  is_remote (br_row (pr_bound row')) = false → is_remote (br_row (pr_bound row)) = false →
  pin_of_row id require_read row' = pin_of_row id require_read row.
Proof.
  intros E1 E2 E3 E4 E5 E6 E7 R R'. unfold pin_of_row, binding_revision_of, binding_updated_at_of.
  by rewrite E1, E2, E3, E4, E5, E6, E7, R, R'.
Qed.

Lemma canonical_workspace {L : SqliteLaws P Q} {PL : PlatformLaws P} {PI : PersonalId} db wid w u :
  store_reachable db → selected_row (db_scope db) = Some (wid, w) → uuid_parse wid = Some u →
  wid = uuid_to_string u.
Proof.
  intros S%reachable_scope [_ [Hw _]%active_workspace_row_Some]%selected_row_Some Hu.
  apply (rp_canonical _ (so_repairable _ S)) in Hw as [[v ->] _].
  rewrite uuid_roundtrip in Hu. by injection Hu as ->.
Qed.

Lemma is_remote_local c : con_remote_id c = None ↔ is_remote c = false.
Proof. unfold is_remote. destruct (con_remote_id c); cbn; split; done. Qed.

Lemma current_pin_again {L : SqliteLaws P Q} {PL : PlatformLaws P} {PI : PersonalId}
    id require_read db db' pin :
  store_reachable db → pin_connection_with_access id require_read db = Ok pin →
  pc_requires_remote_rbac pin = false → rtc (quiet_step (uuid_to_string id)) db db' →
  is_pin_current pin db' = true → pin_connection_with_access id require_read db' = Ok pin.
Proof.
  intros S Hp Hl Hs Hc. pose proof Hp as Hp0.
  apply pin_inv in Hp as (wid & w & c & raw & scope & Hj & Hprof & _ & Hsc & Hid & Hrev & _ & _ & Hrem).
  cbn in *. rewrite Hl in Hrem. symmetry in Hrem.
  apply current_joined in Hc as (wid' & w' & c' & raw' & scope' & Hj' & Ew & Ek & Ea & Eg & Er & Es & _).
  rewrite Hid in *.
  destruct (scope_inv _ _ _ _ _ _ Hsc) as (Hw & Hkind & Hacc & Hgen & Hkey).
  destruct (generation_text db raw _ S (jn_generation _ _ _ _ _ _ _ Hj) Hgen) as [Eraw _].
  pose proof (canonical_workspace db wid w _ S (jn_selected _ _ _ _ _ _ _ Hj) Hw) as Ewid.
  destruct (proj1 (live_row_Some _ _ _ _) (jn_row _ _ _ _ _ _ _ Hj)) as [Hc _].
  destruct (proj1 (live_row_Some _ _ _ _) (jn_row _ _ _ _ _ _ _ Hj')) as [Hc' _].
  destruct (steps_later _ _ _ (quiet_rows _ _ _ Hs) c Hc) as (c2 & Hc2 & Hn2 & _ & Hlater);
    [by apply is_remote_local|].
  unfold row in Hc2. rewrite Hc' in Hc2. injection Hc2 as <-.
  destruct Hlater as [?|[_ Hsame]]; [rewrite Er, Hrev in *; lia|].
  apply is_remote_local in Hn2 as Hr2.
  pose proof (reachable_local_ok db (uuid_to_string id) S) as Hok.
  assert (local_row_ok (Some c') ∧ local_row_ok (Some c)) as [Hok' Hokc].
  { unfold row in Hok. rewrite Hc in Hok. split; [|done].
    eapply steps_local_ok; [|exact Hok]. rewrite <-Hc, <-Hc'. by apply quiet_rows. }
  unfold pin_connection_with_access in *. rewrite (joined_pin _ _ _ _ _ _ _ Hj') .
  rewrite (joined_pin _ _ _ _ _ _ _ Hj) in Hp0. cbn in Hp0 |- *. rewrite <-Hp0.
  apply pin_of_row_ext; cbn; try congruence.
  - rewrite !local_profile by done. by apply same_material_profile.
  - rewrite Ek. by apply kind_text.
Qed.
End pins.
