(* ===== verification/StoreSample.v ===== *)
(** * A small store

    An instance of the parameters of the local store and some sequences of calls on
    it, on which the witnesses of the store's theorems evaluate: an account whose
    team workspace is selected, a profile saved and pinned, a template brought by
    the server. *)

From S2P Require Export StorePins Samples.

Module StoreSample.
#[local] Existing Instance Reference.Value_eq_dec.
#[local] Existing Instance Reference.Value_countable.

(** Identifier 1 has the text of the Personal Workspace. *)
Definition write_uuid (u : positive) : string :=
  if (u =? 1)%positive then PERSONAL_WORKSPACE_ID else Reference.write u.
Definition read_uuid (s : string) : option positive :=
  if (s =? PERSONAL_WORKSPACE_ID)%string then Some 1%positive else Reference.read s.

(** A platform with another text of identifiers. *)
Definition with_uuid_text (P : Platform) (print : Uuid → string) (parse : string → option Uuid) : Platform := {|
  Uuid := Uuid;
  uuid_to_string := print;
  uuid_parse := parse;
  rfc3339_nanos := rfc3339_nanos;
  rfc3339 := rfc3339;
  parse_rfc3339 := parse_rfc3339;
  json_to_string := json_to_string;
  json_from_str := json_from_str;
  sqlite_json_valid := sqlite_json_valid;
  sha256 := sha256;
|}.
Lemma with_uuid_text_laws P print parse :
  PlatformLaws P → (∀ u, parse (print u) = Some u) → PlatformLaws (with_uuid_text P print parse).
Proof. intros [] H. by split. Qed.

#[export] Instance platform : Platform := with_uuid_text Reference.platform write_uuid read_uuid.

Lemma read_write_uuid u : read_uuid (write_uuid u) = Some u.
Proof.
  unfold read_uuid, write_uuid. destruct (Pos.eqb_spec u 1) as [->|Hn]; [reflexivity|].
  destruct (_ =? _)%string eqn:E; [|apply Reference.read_write]. apply String.eqb_eq in E.
  apply (f_equal (λ s, (Reference.read s : option positive))) in E. rewrite Reference.read_write in E.
  vm_compute in E. discriminate.
Qed.
#[export] Instance laws : PlatformLaws platform.
Proof. exact (with_uuid_text_laws _ _ _ Reference.laws read_write_uuid). Qed.

#[export] Instance sqlite : Sqlite := {|
  order_by A cmp := sort_by cmp;
  decode_datetime := Reference.unstamp;
  uuid_error s := s;
|}.
#[export] Instance sqlite_laws : SqliteLaws platform sqlite.
Proof.
  split; intros; [apply sort_by_perm|by apply sort_by_sorted|..]; by apply Reference.unstamp_stamp.
Qed.
#[export] Instance chrono : ChronoSerde :=
  {| datetime_to_string := Reference.stamp; datetime_from_str := Reference.unstamp |}.
#[export] Instance debug : StrDebug := {| str_debug s := s |}.
#[export] Instance personal : PersonalId := {| personal_id := 1%positive : Uuid; personal_id_text := eq_refl |}.

Definition uid (n : positive) : Uuid := n.
Definition ada : WorkspaceAuthUser :=
  {| us_id := "ada"; us_email := "ada@example.com"; us_display_name := "Ada" |}.
Definition team : RemoteWorkspace :=
  {| rw_id := uid 2; rw_name := "Team"; rw_role := WorkspaceRole.Editor; rw_member_id := uid 9 |}.
Definition profile : ConnectionProfile := {|
  cp_id := uid 3; cp_name := "db"; cp_engine := Engine.Postgres; cp_provider := Provider.Neon;
  cp_driver_id := None; cp_host := "h"; cp_port := 5432; cp_database := "app"; cp_username := "u";
  cp_sslmode := "require"; cp_extra_params := list_to_map [("k", "v")]; cp_readonly_default := true;
  cp_allow_writes := true; cp_secret_ref := Some (write_uuid (uid 4)); cp_env := None;
  cp_schema_group := Some "g"; cp_workspace_access := WorkspaceConnectionAccess.Local;
  cp_credential_mode := WorkspaceCredentialMode.Local |}.
(** A template of the server. *)
Definition template : ConnectionProfile :=
  with_binding profile "" ∅ None WorkspaceConnectionAccess.Write true.
Definition event (n : positive) : Event := {| StoreConnections.ev_id := uid n; ev_now := 5 |}.

Definition login : list StoreCall.t := [Remember ada 1; SyncAccount ada [team] 2].
Definition save : list StoreCall.t := [Upsert profile [("k", "v")] 3 (event 20)].
Definition select_team : list StoreCall.t := [Activate (uid 2) (Some "ada") 4].

(** The store after some calls. *)
Definition after (calls : list StoreCall.t) (db : StoreDb) : StoreDb :=
  foldl (λ db c, (run c db).2) db calls.
Definition fresh : StoreDb := fresh_store (rfc3339 0).

Lemma after_steps calls db : rtc store_step db (after calls db).
Proof.
  revert db. induction calls as [|c calls IH]; intros db; [done|].
  eapply rtc_l; [by exists c|apply IH].
Qed.
Lemma after_reachable calls : store_reachable (after calls fresh).
Proof. exists (rfc3339 0). apply after_steps. Qed.

Lemma after_quiet id calls db :
  forallb (λ c, negb (syncs id c)) calls = true → rtc (quiet_step id) db (after calls db).
Proof.
  revert db. induction calls as [|c calls IH]; intros db H; [done|]. cbn in H. bools.
  eapply rtc_l; [by exists c|by apply IH].
Qed.

Definition entry : HistoryEntry := {|
  he_id := uid 30; he_connection_id := uid 3; he_sql := "SELECT 1"; he_kind := QueryKind.Read;
  he_status := "ok"; he_row_count := Some 1; he_duration_ms := Some 2; he_error := None;
  he_executed_at := 8; he_origin := "ui" |}.
Definition pinned (id : Uuid) (db : StoreDb) : bool := is_ok (pin_connection_with_access id true db).
End StoreSample.
#[export] Existing Instance StoreSample.platform.
#[export] Existing Instance StoreSample.laws.
#[export] Existing Instance StoreSample.sqlite.
#[export] Existing Instance StoreSample.sqlite_laws.
#[export] Existing Instance StoreSample.chrono.
#[export] Existing Instance StoreSample.debug.
#[export] Existing Instance StoreSample.personal.
