(* ===== verification/Introspection.v ===== *)
(** * The explorer's catalog and Catalog V2
    (src-tauri/src/introspect/{mod,catalog_v2}.rs)

    What the drivers' introspection returns, its translation to the canonical
    snapshot that is cached and fingerprinted, and back.  The translation is proved
    to lose nothing the explorer shows and not to depend on the order in which a
    driver lists things. *)

From S2P Require Export StoreSample CatalogData Catalog.

(** ** The explorer's catalog *)

Module Introspect.
Record Column := { ic_name : string; ic_data_type : string; ic_nullable : bool; ic_pk : bool }.
Record ForeignKey := {
  fk_column : string; fk_references_table : string; fk_references_column : string;
  fk_references_schema : option string;
}.
Record Index := { ii_name : string; ii_columns : list string; ii_unique : bool }.
Record Table := {
  tb_schema : option string; tb_name : string; tb_kind : string; tb_columns : list Column;
  tb_foreign_keys : list ForeignKey; tb_indexes : list Index; tb_row_estimate : option Z;
}.
Record DatabaseObject := {
  do_schema : option string; do_name : string; do_kind : string; do_detail : option string;
  do_parent : option string;
}.
Record Catalog := { ca_tables : list Table; ca_objects : list DatabaseObject }.
End Introspect.
Import Introspect.

(** ** Kinds and type families *)

Definition object_kind (kind : string) : ObjectKind.t :=
  if existsb (String.eqb kind) ["table"; "collection"] then ObjectKind.Table
  else if (kind =? "view")%string then ObjectKind.View
  else if (kind =? "materialized_view")%string then ObjectKind.MaterializedView
  else if existsb (String.eqb kind) ["function"; "procedure"; "routine"] then ObjectKind.Routine
  else if (kind =? "sequence")%string then ObjectKind.Sequence
  else if (kind =? "type")%string then ObjectKind.Type_
  else if (kind =? "trigger")%string then ObjectKind.Trigger
  else ObjectKind.Other.

Definition object_kind_name (kind : ObjectKind.t) : string :=
  match kind with
  | ObjectKind.Table => "table" | ObjectKind.View => "view"
  | ObjectKind.MaterializedView => "materialized_view" | ObjectKind.Routine => "function"
  | ObjectKind.Sequence => "sequence" | ObjectKind.Type_ => "type"
  | ObjectKind.Trigger => "trigger" | ObjectKind.Other => "other"
  end.

(** [char::is_ascii_whitespace] *)
Definition is_ascii_whitespace (a : ascii) : bool :=
  existsb (N.eqb (byte a)) [32; 9; 10; 12; 13]%N.
(** The part before the first ['('] or white space. *)
Fixpoint first_token (s : string) : string :=
  match s with
  | EmptyString => EmptyString
  | String a s => if (byte a =? 40)%N || is_ascii_whitespace a then EmptyString
                  else String a (first_token s)
  end.

Definition type_family (native_type : string) : NormalizedTypeFamily.t :=
  let data_type := str_lower (trim native_type) in
  if ends_with "[]" data_type || str_contains " array" data_type then NormalizedTypeFamily.Array
  else
    let one_of := existsb (String.eqb (first_token data_type)) in
    if one_of ["bool"; "boolean"] then NormalizedTypeFamily.Boolean
    else if one_of ["int"; "int2"; "int4"; "int8"; "integer"; "smallint"; "bigint"; "tinyint";
                    "mediumint"; "serial"; "smallserial"; "bigserial"; "year"]
    then NormalizedTypeFamily.Integer
    else if one_of ["decimal"; "numeric"; "money"] then NormalizedTypeFamily.Decimal
    else if one_of ["float"; "float4"; "float8"; "double"; "real"] then NormalizedTypeFamily.Float
    else if one_of ["json"; "jsonb"] then NormalizedTypeFamily.Json
    else if one_of ["uuid"] then NormalizedTypeFamily.Uuid
    else if one_of ["timestamp"; "timestamptz"; "datetime"] then NormalizedTypeFamily.Timestamp
    else if one_of ["date"] then NormalizedTypeFamily.Date
    else if one_of ["time"; "timetz"] then NormalizedTypeFamily.Time
    else if one_of ["bytea"; "blob"; "tinyblob"; "mediumblob"; "longblob"; "binary"; "varbinary"]
    then NormalizedTypeFamily.Binary
    else if one_of ["document"; "bson"] then NormalizedTypeFamily.Document
    else if one_of ["char"; "character"; "varchar"; "nvarchar"; "nchar"; "text"; "tinytext";
                    "mediumtext"; "longtext"; "string"; "citext"; "xml"]
    then NormalizedTypeFamily.Text
    else NormalizedTypeFamily.Other.
Example native_type_families :
  map type_family ["integer[]"; "jsonb[]"; "bigint"; "timestamp with time zone"; "interval"; "VARCHAR(20)"]
  = [NormalizedTypeFamily.Array; NormalizedTypeFamily.Array; NormalizedTypeFamily.Integer;
     NormalizedTypeFamily.Timestamp; NormalizedTypeFamily.Other; NormalizedTypeFamily.Text].
Proof. reflexivity. Qed.

(** ** To the snapshot *)

(** The elements of a [BTreeSet<String>] in order. *)
Definition btree_set (l : list string) : list string := sort_by string_cmp (remove_dups l).

(** [i], [i + 1], .. beside the elements: [enumerate]. *)
Fixpoint enumerate_from {A} (i : Z) (l : list A) : list (Z * A) :=
  match l with [] => [] | x :: l => (i, x) :: enumerate_from (i + 1) l end.

Definition foreign_key_cmp (left_ right_ : ForeignKey) : comparison :=
  then_with (string_cmp (fk_column left_) (fk_column right_))
    (then_with (opt_str_cmp (fk_references_schema left_) (fk_references_schema right_))
      (then_with (string_cmp (fk_references_table left_) (fk_references_table right_))
        (string_cmp (fk_references_column left_) (fk_references_column right_)))).

Definition plain_ref (namespace : option string) (name : string) (kind : ObjectKind.t) : ObjectRef := {|
  obj_catalog := None; obj_namespace := namespace; obj_name := name; obj_kind := kind;
  obj_native_id := None |}.

Definition key_constraint (name : string) (kind : ConstraintKind.t) (columns : list string)
    (referenced : option ObjectRef) (referenced_columns : list string) : Constraint := {|
  con_name := name; con_kind := kind; con_columns := columns;
  con_referenced_relation := referenced; con_referenced_columns := referenced_columns;
  con_check_expression := None; con_update_action := None; con_delete_action := None;
  con_deferrable := false; con_validated := true |}.

Definition primary_constraints (table : Table) : list Constraint :=
  match map ic_name (List.filter ic_pk (tb_columns table)) with
  | [] => []
  | columns => [key_constraint ("pk_" +:+ tb_name table) ConstraintKind.Primary columns None []]
  end.
Definition foreign_constraint (table : string) (entry : Z * ForeignKey) : Constraint :=
  let '(index, fk) := entry in
  key_constraint ("fk_" +:+ table +:+ "_" +:+ fk_column fk +:+ "_" +:+ pretty (index + 1))
    ConstraintKind.Foreign [fk_column fk]
    (Some (plain_ref (fk_references_schema fk) (fk_references_table fk) ObjectKind.Table))
    [fk_references_column fk].
Definition foreign_constraints (table : Table) : list Constraint :=
  map (foreign_constraint (tb_name table))
    (enumerate_from 0 (sort_by foreign_key_cmp (tb_foreign_keys table))).

Definition plain_column (entry : Z * Column) : CatalogData.Column :=
  let '(index, column) := entry in {|
  col_name := ic_name column;
  col_ordinal := if index + 1 <=? u32_max then index + 1 else u32_max;
  col_native_type := ic_data_type column; col_type_family := type_family (ic_data_type column);
  col_length := None; col_precision := None; col_scale := None;
  col_nullable := ic_nullable column; col_default_expression := None;
  col_generated_expression := None; col_identity := false; col_auto_increment := false;
  col_collation := None; col_comment := None; col_sensitivity := None |}.

Definition plain_index (index : Index) : CatalogData.Index := {|
  ix_name := ii_name index; ix_method := None;
  ix_keys := map (λ column, {| key_column := Some column; key_expression := None;
                               key_direction := None |}) (ii_columns index);
  ix_included_columns := []; ix_predicate := None; ix_unique := ii_unique index;
  ix_valid := true |}.

Definition table_to_relation (table : Table) : Relation := {|
  rel_object := plain_ref (tb_schema table) (tb_name table) (object_kind (tb_kind table));
  rel_comment := None; rel_row_estimate := tb_row_estimate table; rel_partition_parent := None;
  rel_partition_children := [];
  rel_columns := map plain_column (enumerate_from 0 (tb_columns table));
  rel_constraints := primary_constraints table ++ foreign_constraints table;
  rel_indexes := map plain_index (tb_indexes table) |}.

Definition is_routine (object : DatabaseObject) : bool :=
  existsb (String.eqb (do_kind object)) ["function"; "procedure"].
Definition object_to_routine (object : DatabaseObject) : Routine := {|
  rou_object := plain_ref (do_schema object) (do_name object) ObjectKind.Routine;
  rou_native_kind := Some (do_kind object); rou_arguments := []; rou_return_type := None;
  rou_language := None; rou_comment := None; rou_detail := do_detail object;
  rou_parent := do_parent object |}.
Definition object_to_object (object : DatabaseObject) : CatalogData.DatabaseObject := {|
  dbo_object := plain_ref (do_schema object) (do_name object) (object_kind (do_kind object));
  dbo_native_kind := Some (do_kind object); dbo_comment := None; dbo_detail := do_detail object;
  dbo_parent := do_parent object |}.

Definition catalog_contents (catalog : Catalog) : CatalogContents := {|
  cc_namespaces := map (λ name, {| ns_name := name; ns_comment := None |})
    (btree_set (omap tb_schema (ca_tables catalog) ++ omap do_schema (ca_objects catalog)));
  cc_relations := map table_to_relation (ca_tables catalog);
  cc_routines := map object_to_routine (List.filter is_routine (ca_objects catalog));
  cc_other_objects := map object_to_object
    (List.filter (λ object, negb (is_routine object)) (ca_objects catalog)) |}.

(** [CatalogValidationError]'s [Display] *)
Definition validation_error_to_string (e : CatalogValidationError) : string :=
  match e with
  | SchemaVersion actual expected =>
      "unsupported catalog schema version " +:+ pretty actual +:+ "; expected " +:+ pretty expected
  | Fingerprint => "catalog fingerprint must be exactly 64 lowercase hexadecimal characters"
  | FingerprintMismatch => "catalog fingerprint does not match the canonical catalog contents"
  | EmptyDatabase => "catalog database name cannot be empty"
  end.

(** ** From the snapshot *)

#[export] Instance ConstraintKind_eq_dec : EqDecision ConstraintKind.t.
Proof. solve_decision. Defined.

Definition relation_to_table (relation : Relation) : Table :=
  let primary_columns := flat_map con_columns
    (List.filter (λ c, bool_decide (con_kind c = ConstraintKind.Primary)) (rel_constraints relation)) in
  let foreign (c : Constraint) : list ForeignKey :=
    match con_referenced_relation c with
    | None => []
    | Some referenced =>
        map (λ '(index, column), {|
          fk_column := column; fk_references_table := obj_name referenced;
          fk_references_column := nth (Z.to_nat index) (con_referenced_columns c) "";
          fk_references_schema := obj_namespace referenced |}) (enumerate_from 0 (con_columns c))
    end in
  {| tb_schema := obj_namespace (rel_object relation); tb_name := obj_name (rel_object relation);
     tb_kind := object_kind_name (obj_kind (rel_object relation));
     tb_columns := map (λ c, {|
       ic_name := col_name c; ic_data_type := col_native_type c; ic_nullable := col_nullable c;
       ic_pk := bool_decide (col_name c ∈ primary_columns) |}) (rel_columns relation);
     tb_foreign_keys := flat_map foreign
       (List.filter (λ c, bool_decide (con_kind c = ConstraintKind.Foreign)) (rel_constraints relation));
     tb_indexes := map (λ index, {|
       ii_name := ix_name index; ii_columns := omap key_column (ix_keys index);
       ii_unique := ix_unique index |}) (rel_indexes relation);
     tb_row_estimate := rel_row_estimate relation |}.

Definition or_else {A} (x y : option A) : option A := match x with Some _ => x | None => y end.
Definition routine_to_object (routine : Routine) : DatabaseObject := {|
  do_schema := obj_namespace (rou_object routine); do_name := obj_name (rou_object routine);
  do_kind := default "function" (rou_native_kind routine);
  do_detail := or_else (rou_detail routine)
    (match rou_arguments routine with [] => None | l => Some (String.concat ", " l) end);
  do_parent := rou_parent routine |}.
Definition object_from_object (object : CatalogData.DatabaseObject) : DatabaseObject := {|
  do_schema := obj_namespace (dbo_object object); do_name := obj_name (dbo_object object);
  do_kind := default (object_kind_name (obj_kind (dbo_object object))) (dbo_native_kind object);
  do_detail := or_else (dbo_detail object) (dbo_comment object);
  do_parent := dbo_parent object |}.
Definition from_contents (contents : CatalogContents) : Catalog := {|
  ca_tables := map relation_to_table (cc_relations contents);
  ca_objects := map routine_to_object (cc_routines contents)
    ++ map object_from_object (cc_other_objects contents) |}.

Section snapshot.
Context {P : Platform}.

(** [capture] hashes a text; that it fails to serialise would panic ([None]). *)
Definition to_snapshot (profile : ConnectionProfile) (catalog : Catalog) (now : DateTime)
  : option (AppResult CatalogSnapshot) :=
  captured ← capture (cp_id profile) (protocol_engine (cp_engine profile)) (cp_database profile) now
               (catalog_contents catalog);
  Some (map_err (λ error, Config ("could not build Catalog V2: " +:+ validation_error_to_string error))
          captured).

Definition from_snapshot (snapshot : CatalogSnapshot) : Catalog := from_contents (cs_contents snapshot).
End snapshot.

(** ** What the cache keeps

    Two catalogs are the same when they list the same tables and objects, each
    table with its columns in order and its keys and indexes in any order. *)

Record same_table (t t' : Table) : Prop := {
  st_schema : tb_schema t = tb_schema t';
  st_name : tb_name t = tb_name t';
  st_kind : tb_kind t = tb_kind t';
  st_columns : tb_columns t = tb_columns t';
  st_foreign_keys : tb_foreign_keys t ≡ₚ tb_foreign_keys t';
  st_indexes : tb_indexes t ≡ₚ tb_indexes t';
  st_row_estimate : tb_row_estimate t = tb_row_estimate t';
}.
Record same_catalog (c c' : Catalog) : Prop := {
  sc_tables : ∃ l, ca_tables c' ≡ₚ l ∧ Forall2 same_table (ca_tables c) l;
  sc_objects : ca_objects c ≡ₚ ca_objects c';
}.

(** What a database's tables are: columns with distinct names, one of the kinds of
    the explorer, an estimate that is an [i64]. *)
Record table_ok (t : Table) : Prop := {
  tb_ok_columns : NoDup (map ic_name (tb_columns t));
  tb_ok_length : Z.of_nat (length (tb_columns t)) ≤ u32_max;
  tb_ok_kind : object_kind_name (object_kind (tb_kind t)) = tb_kind t;
  tb_ok_estimate : opt_within i64_min i64_max (tb_row_estimate t);
}.
Definition catalog_ok (c : Catalog) : Prop := Forall table_ok (ca_tables c).

Lemma collected_perm {A B} (p : A → bool) (f : A → list B) l l' :
  l ≡ₚ l' → flat_map f (List.filter p l) ≡ₚ flat_map f (List.filter p l').
Proof.
  induction 1 as [|x l1 l2 _ IH|x y l|l1 l2 l3 _ IH1 _ IH2]; cbn.
  - done.
  - destruct (p x); cbn; by rewrite IH.
  - destruct (p x), (p y); cbn; try done. by rewrite !(assoc_L app), (comm app (f x)).
  - by rewrite IH1.
Qed.

Lemma enumerate_snd {A} i (l : list A) : map snd (enumerate_from i l) = l.
Proof. revert i. induction l as [|x l IH]; intros i; cbn; [done|]. by rewrite IH. Qed.

#[export] Instance foreign_key_cmp_total : TotalCmp foreign_key_cmp.
Proof.
  unfold foreign_key_cmp, opt_str_cmp.
  apply then_with_total; [by apply (TotalCmp_on fk_column string_cmp), _|].
  apply then_with_total; [by apply (TotalCmp_on fk_references_schema (option_cmp string_cmp)), _|].
  apply then_with_total; [by apply (TotalCmp_on fk_references_table string_cmp), _|].
  by apply (TotalCmp_on fk_references_column string_cmp), _.
Qed.

Lemma foreign_key_cmp_eq x y : foreign_key_cmp x y = Eq → x = y.
Proof.
  intros H. unfold foreign_key_cmp in H.
  destruct (string_cmp (fk_column x) (fk_column y)) eqn:E1; try done. cbn in H.
  destruct (opt_str_cmp (fk_references_schema x) (fk_references_schema y)) eqn:E2; try done. cbn in H.
  destruct (string_cmp (fk_references_table x) (fk_references_table y)) eqn:E3; try done. cbn in H.
  apply string_cmp_eq in E1, E3, H. apply opt_str_cmp_eq in E2. destruct x, y; cbn in *. congruence.
Qed.

(** *** Columns *)

Lemma plain_columns_ok i l :
  0 ≤ i → Forall column_ok (map plain_column (enumerate_from i l)).
Proof.
  revert i. induction l as [|c l IH]; intros i Hi; cbn; constructor; [|by apply IH; lia].
  split; try done. cbn. unfold u32_max. destruct (Z.leb_spec (i + 1) (2 ^ 32 - 1)); lia.
Qed.

Lemma plain_columns_from i l :
  i + Z.of_nat (length l) ≤ u32_max →
  Forall (λ c, i < col_ordinal c) (map plain_column (enumerate_from i l)).
Proof.
  revert i. induction l as [|c l IH]; intros i Hl; cbn [enumerate_from map length] in *; constructor.
  - cbn. destruct (Z.leb_spec (i + 1) u32_max); lia.
  - eapply Forall_impl; [apply IH; lia|]. cbn. lia.
Qed.

Section projection.
Context {P : Platform} {L : PlatformLaws P}.

Lemma plain_columns_sorted i l :
  i + Z.of_nat (length l) ≤ u32_max →
  sort_by column_cmp (map plain_column (enumerate_from i l)) = map plain_column (enumerate_from i l).
Proof.
  intros Hl. apply (sort_by_id column_cmp). revert i Hl.
  induction l as [|c l IH]; intros i Hl; cbn [enumerate_from map length] in *; constructor.
  - apply IH. lia.
  - eapply Forall_impl; [apply (plain_columns_from (i + 1)); lia|].
    intros x Hx. unfold column_cmp. cbn. destruct (Z.leb_spec (i + 1) u32_max); [|lia].
    by rewrite (proj2 (Z.compare_lt_iff (i + 1) (col_ordinal x)) Hx).
Qed.

Lemma columns_back (primary : list string) i l :
  map (λ c, {| ic_name := col_name c; ic_data_type := col_native_type c;
               ic_nullable := col_nullable c; ic_pk := bool_decide (col_name c ∈ primary) |})
    (map plain_column (enumerate_from i l))
  = map (λ c, {| ic_name := ic_name c; ic_data_type := ic_data_type c; ic_nullable := ic_nullable c;
                 ic_pk := bool_decide (ic_name c ∈ primary) |}) l.
Proof. revert i. induction l as [|c l IH]; intros i; cbn; [done|]. by rewrite IH. Qed.

(** The columns of a sorted list of constraints that are a primary key's. *)
Definition primary_names (l : list Constraint) : list string :=
  flat_map con_columns (List.filter (λ c, bool_decide (con_kind c = ConstraintKind.Primary)) l).
Definition foreign_names (l : list Constraint) : list Constraint :=
  List.filter (λ c, bool_decide (con_kind c = ConstraintKind.Foreign)) l.

Lemma foreign_kinds table l :
  Forall (λ c, con_kind c = ConstraintKind.Foreign) (map (foreign_constraint table) l).
Proof. induction l as [|[i fk] l IH]; by constructor. Qed.

Lemma primary_keys t name :
  name ∈ primary_names (sort_by constraint_cmp (primary_constraints t ++ foreign_constraints t))
  ↔ ∃ c, c ∈ tb_columns t ∧ ic_pk c = true ∧ ic_name c = name.
Proof.
  unfold primary_names. rewrite list_elem_of_In, in_flat_map.
  setoid_rewrite filter_In. setoid_rewrite <-list_elem_of_In. setoid_rewrite bool_decide_eq_true.
  setoid_rewrite (sort_by_perm constraint_cmp). setoid_rewrite elem_of_app.
  pose proof (foreign_kinds (tb_name t) (enumerate_from 0 (sort_by foreign_key_cmp (tb_foreign_keys t)))) as Hf.
  fold (foreign_constraints t) in Hf. rewrite Forall_forall in Hf.
  assert (∀ x, x ∈ map ic_name (List.filter ic_pk (tb_columns t))
    ↔ ∃ c, c ∈ tb_columns t ∧ ic_pk c = true ∧ ic_name c = x) as Hx.
  { intros x. rewrite list_elem_of_In, in_map_iff. setoid_rewrite filter_In.
    setoid_rewrite <-list_elem_of_In. naive_solver. }
  rewrite <-Hx. unfold primary_constraints. split.
  - intros (c & [[Hc|Hc] Hk] & Hn); [|specialize (Hf _ Hc); congruence].
    destruct (map ic_name _) as [|y l]; [by apply not_elem_of_nil in Hc|].
    by apply list_elem_of_singleton in Hc as ->.
  - destruct (map ic_name _) as [|y l]; [by intros ?%not_elem_of_nil|]. intros Hn.
    eexists. split; [split; [left; by left|done]|done].
Qed.

(** *** Keys and indexes *)

Definition foreign_back (c : Constraint) : list ForeignKey :=
  match con_referenced_relation c with
  | None => []
  | Some referenced =>
      map (λ '(index, column), {|
        fk_column := column; fk_references_table := obj_name referenced;
        fk_references_column := nth (Z.to_nat index) (con_referenced_columns c) "";
        fk_references_schema := obj_namespace referenced |}) (enumerate_from 0 (con_columns c))
  end.

Lemma foreign_keys_back t :
  flat_map foreign_back
    (foreign_names (sort_by constraint_cmp (primary_constraints t ++ foreign_constraints t)))
  ≡ₚ tb_foreign_keys t.
Proof.
  unfold foreign_names. etrans; [apply collected_perm, (sort_by_perm constraint_cmp)|].
  rewrite List.filter_app, flat_map_app.
  assert (List.filter (λ c, bool_decide (con_kind c = ConstraintKind.Foreign)) (primary_constraints t) = [])
    as -> by (unfold primary_constraints; by destruct (map ic_name _)).
  cbn [flat_map app]. unfold foreign_constraints.
  rewrite <-(sort_by_perm foreign_key_cmp (tb_foreign_keys t)) at 2.
  generalize (sort_by foreign_key_cmp (tb_foreign_keys t)) as l. generalize 0 as i.
  intros i l. apply reflexive_eq. revert i.
  induction l as [|fk l IH]; intros i; cbn; [done|].
  rewrite bool_decide_true by done. cbn. rewrite IH. by destruct fk.
Qed.

Lemma indexes_back l :
  map (λ index, {| ii_name := ix_name index; ii_columns := omap key_column (ix_keys index);
                   ii_unique := ix_unique index |}) (sort_by index_cmp (map plain_index l)) ≡ₚ l.
Proof.
  rewrite (sort_by_perm index_cmp), map_map. apply reflexive_eq.
  rewrite <-(map_id l) at 2. apply map_ext. intros [n cs u]. cbn. f_equal.
  induction cs as [|c cs IH]; cbn; [done|]. by rewrite IH.
Qed.

Lemma table_back t :
  table_ok t → same_table (relation_to_table (canonicalize_relation (table_to_relation t))) t.
Proof.
  intros [Hn Hl Hk _]. split; unfold relation_to_table, canonicalize_relation, table_to_relation;
    cbn [tb_schema tb_name tb_kind tb_columns tb_foreign_keys tb_indexes tb_row_estimate rel_object
         rel_columns rel_constraints rel_indexes rel_row_estimate plain_ref obj_namespace obj_name
         obj_kind]; try done.
  - rewrite plain_columns_sorted by lia. rewrite columns_back.
    change (flat_map con_columns _) with
      (primary_names (sort_by constraint_cmp (primary_constraints t ++ foreign_constraints t))).
    rewrite <-(map_id (tb_columns t)) at 2. apply map_ext_in. intros c Hc.
    apply list_elem_of_In in Hc.
    destruct c as [name type nullable pk] eqn:Ec. cbn. f_equal. rewrite <-Ec in Hc.
    destruct pk; [apply bool_decide_eq_true|apply bool_decide_eq_false]; rewrite primary_keys.
    + exists c. by subst.
    + intros (d & Hd & Hpk & Hnd).
      assert (c = d) as <-; [|by subst].
      eapply (NoDup_fmap_eq ic_name); [exact Hn|done..|]. by subst.
  - apply foreign_keys_back.
  - apply indexes_back.
Qed.
End projection.

(** ** Whole catalogs *)

Lemma btree_set_perm l l' : l ≡ₚ l' → btree_set l = btree_set l'.
Proof.
  intros Hp. apply (sort_by_perm_eq string_cmp); [intros x y _ _; apply string_cmp_eq|].
  apply NoDup_Permutation; [apply NoDup_remove_dups..|].
  intros x. by rewrite !elem_of_remove_dups, Hp.
Qed.

Lemma omap_perm {A B} (f : A → option B) l l' : l ≡ₚ l' → omap f l ≡ₚ omap f l'.
Proof. by intros ->. Qed.

Lemma routine_back o : routine_to_object (object_to_routine o) = o.
Proof. by destruct o as [? ? ? []]. Qed.
Lemma object_back o : object_from_object (object_to_object o) = o.
Proof. by destruct o as [? ? ? []]. Qed.

Lemma filter_partition {A} (p : A → bool) l :
  List.filter p l ++ List.filter (λ x, negb (p x)) l ≡ₚ l.
Proof.
  induction l as [|x l IH]; cbn; [done|]. destruct (p x); cbn; [by constructor|].
  etrans; [symmetry; apply Permutation_middle|]. by constructor.
Qed.

Lemma routines_partition l :
  map routine_to_object (map object_to_routine (List.filter is_routine l))
  ++ map object_from_object (map object_to_object (List.filter (λ o, negb (is_routine o)) l)) ≡ₚ l.
Proof.
  rewrite !map_map, (map_ext _ (λ o, o) routine_back), (map_ext _ (λ o, o) object_back), !map_id.
  apply filter_partition.
Qed.

Lemma filter_perm {A} (p : A → bool) l l' : l ≡ₚ l' → List.filter p l ≡ₚ List.filter p l'.
Proof.
  intros Hp. apply (collected_perm p (λ x, [x])) in Hp.
  assert (∀ k : list A, flat_map (λ x, [x]) k = k) as Hk; [|by rewrite !Hk in Hp].
  intros k. induction k as [|x k IH]; cbn; [done|by rewrite IH].
Qed.

Section catalogs.
Context {P : Platform} {L : PlatformLaws P}.

Lemma relations_ok c : catalog_ok c → contents_ok (catalog_contents c).
Proof.
  intros Hc. unfold contents_ok, catalog_contents. cbn [cc_relations]. apply Forall_map.
  eapply Forall_impl; [exact Hc|]. intros t []. split; [|done]. by apply plain_columns_ok.
Qed.

Lemma contents_back c :
  catalog_ok c → same_catalog (from_contents (canonicalize_contents (catalog_contents c))) c.
Proof.
  intros Hc. split; unfold from_contents, canonicalize_contents, catalog_contents;
    cbn [ca_tables ca_objects cc_relations cc_routines cc_other_objects].
  - assert (Forall2 same_table
      (map relation_to_table (map canonicalize_relation (map table_to_relation (ca_tables c))))
      (ca_tables c)) as Ht.
    { induction Hc as [|t l Ht _ IH]; cbn; constructor; [by apply table_back|done]. }
    eapply Permutation_Forall2; [|exact Ht]. symmetry. apply Permutation_map, (sort_by_perm relation_cmp).
  - etrans; [|apply routines_partition].
    apply Permutation_app; apply Permutation_map; [apply (sort_by_perm routine_cmp)|].
    apply (sort_by_perm database_object_cmp).
Qed.

Lemma table_to_relation_same t t' :
  same_table t t' → same_relation (table_to_relation t) (table_to_relation t').
Proof.
  intros [Hs Hn Hk Hc Hf Hi _]. split; unfold table_to_relation; cbn [rel_object rel_comment
    rel_partition_parent rel_partition_children rel_columns rel_constraints rel_indexes]; try done.
  - by rewrite Hs, Hn, Hk.
  - by rewrite Hc.
  - unfold primary_constraints, foreign_constraints.
    rewrite Hc, Hn, (sort_by_perm_eq foreign_key_cmp (tb_foreign_keys t) (tb_foreign_keys t')); [done| |done].
    intros x y _ _. apply foreign_key_cmp_eq.
  - by apply Permutation_map.
Qed.

Lemma contents_same c c' :
  same_catalog c c' → same_schema (catalog_contents c) (catalog_contents c').
Proof.
  intros [(l & Hl & Ht) Ho]. split; unfold catalog_contents;
    cbn [cc_namespaces cc_relations cc_routines cc_other_objects].
  - apply Permutation_map, reflexive_eq, btree_set_perm. f_equiv; [|by apply omap_perm].
    etrans; [|symmetry; by apply omap_perm]. apply reflexive_eq. clear Hl.
    induction Ht as [|t t' k k' [Hs _ _ _ _ _ _] _ IH]; [done|]. csimpl. by rewrite Hs, IH.
  - exists (map table_to_relation l). split; [by apply Permutation_map|].
    apply Forall2_fmap_2. eapply Forall2_impl; [exact Ht|]. apply table_to_relation_same.
  - by apply Permutation_map, filter_perm.
  - by apply Permutation_map, filter_perm.
Qed.
End catalogs.

(** ** The stored text

    A captured snapshot survives its serialization and the cache. *)

(** [DateTime::to_rfc3339], which the cache's column holds, is parsed back. *)
Class Rfc3339Laws (P : Platform) : Prop := {
  parse_rfc3339_auto t : clock_ok t → parse_rfc3339 (rfc3339 t) = Some t;
}.

Section stored.
Context {P : Platform} {L : PlatformLaws P} {C : ChronoSerde} {CL : ChronoSerdeLaws C}.

Record snapshot_ok (s : CatalogSnapshot) : Prop := {
  sn_ok_version : cs_schema_version s = CATALOG_SCHEMA_VERSION;
  sn_ok_contents : contents_ok (cs_contents s);
  sn_ok_clock : clock_ok (cs_captured_at s);
}.

Lemma wire_roundtrip s : snapshot_ok s → wire_snapshot (snapshot_to_value s) = Some s.
Proof.
  destruct s as [v i e d t f [n r ro o]]. intros [Hv Hc Ht]. cbn in Hv, Hc, Ht. subst v.
  unfold wire_snapshot, snapshot_to_value. rewrite de_ser_struct by (vm_compute; reflexivity).
  cbn -[list_field ser_list engine_from_value uuid_to_string de_uuid de_datetime].
  rewrite de_uuid_roundtrip. cbn -[list_field ser_list engine_from_value de_datetime].
  rewrite engine_roundtrip. cbn -[list_field ser_list].
  rewrite datetime_roundtrip by done. cbn -[list_field ser_list].
  rewrite (list_field_roundtrip namespace_to_value) by (apply Forall_true, namespace_roundtrip).
  rewrite (list_field_roundtrip relation_to_value) by (eapply Forall_impl; [exact Hc|apply relation_roundtrip]).
  rewrite (list_field_roundtrip routine_to_value) by (apply Forall_true, routine_roundtrip).
  by rewrite (list_field_roundtrip database_object_to_value) by (apply Forall_true, database_object_roundtrip).
Qed.

Lemma snapshot_exact s : snapshot_ok s → value_exact (snapshot_to_value s) = true.
Proof.
  intros [Hv Hc _]. unfold snapshot_to_value. rewrite Hv. struct_exact.
  - apply list_exact, Forall_true, namespace_exact.
  - apply list_exact. eapply Forall_impl; [exact Hc|apply relation_exact].
  - apply list_exact, Forall_true, routine_exact.
  - apply list_exact, Forall_true, database_object_exact.
Qed.

Lemma canonicalize_relation_idem r :
  canonicalize_relation (canonicalize_relation r) = canonicalize_relation r.
Proof. unfold canonicalize_relation. cbn [rel_columns rel_constraints rel_indexes rel_partition_children]. by rewrite !sort_by_idem by apply _. Qed.

#[export] Instance relation_cmp_total : TotalCmp relation_cmp.
Proof.
  apply then_with_total; [|apply _]. apply (TotalCmp_on rel_object compare_object_ref). apply _.
Qed.

Lemma canonicalize_idem c : canonicalize_contents (canonicalize_contents c) = canonicalize_contents c.
Proof.
  unfold canonicalize_contents. cbn [cc_namespaces cc_relations cc_routines cc_other_objects].
  rewrite !(sort_by_idem namespace_cmp), (sort_by_idem routine_cmp), (sort_by_idem database_object_cmp).
  assert (map canonicalize_relation (sort_by relation_cmp (map canonicalize_relation (cc_relations c)))
    = sort_by relation_cmp (map canonicalize_relation (cc_relations c))) as ->.
  { rewrite <-(map_id (sort_by _ _)) at 2. apply map_ext_in. intros r Hr.
    apply list_elem_of_In in Hr. rewrite (sort_by_perm relation_cmp) in Hr.
    apply list_elem_of_fmap in Hr as (r' & -> & _). apply canonicalize_relation_idem. }
  by rewrite (sort_by_idem relation_cmp).
Qed.

(** What [capture] made, which the wire and the cache take back. *)
Lemma captured_back id e db t c s :
  contents_ok c → clock_ok t → capture id e db t c = Some (Ok s) →
  s = from_canonical_parts id e db t (cs_fingerprint s) (canonicalize_contents c)
  ∧ snapshot_ok s ∧ is_blank db = false ∧ validate_snapshot s = Some (Ok tt)
  ∧ snapshot_from_value (snapshot_to_value s) = Some s.
Proof.
  intros Hc Ht Hcap. pose proof (capture_Ok _ _ _ _ _ _ Hcap) as Hf.
  unfold capture in Hcap. apply bind_Some in Hcap as (f & Hcf & H). injection H as H.
  unfold validate_shape in H.
  cbn [from_canonical_parts cs_schema_version cs_database cs_fingerprint] in H. rewrite Z.eqb_refl in H.
  cbn [negb] in H. destruct (is_blank db) eqn:Hb; [done|]. destruct (valid_fingerprint f) eqn:Hvf; [|done].
  cbn [negb mbind] in H. injection H as H. rewrite <-H in Hf |- *. cbn [from_canonical_parts cs_fingerprint] in Hf |- *.
  fold (from_canonical_parts id e db t f (canonicalize_contents c)).
  assert (snapshot_ok (from_canonical_parts id e db t f (canonicalize_contents c))) as Hs
    by (split; [done|by apply canonicalize_ok|done]).
  assert (new_snapshot id e db t f (canonicalize_contents c)
    = Some (Ok (from_canonical_parts id e db t f (canonicalize_contents c)))) as Hnew.
  { rewrite new_snapshot_iff by auto using canonicalize_ok.
    rewrite canonical_fingerprint_stable, Hf, bool_decide_true, canonicalize_idem by done. done. }
  split_and!; [done|done|done| |].
  - unfold new_snapshot in Hnew. rewrite canonicalize_idem in Hnew.
    apply bind_Some in Hnew as (checked & -> & H'). destruct checked as [[]|]; [done|by injection H'].
  - unfold snapshot_from_value. rewrite wire_roundtrip by done. cbn [mbind option_bind].
    change (cs_schema_version _) with CATALOG_SCHEMA_VERSION. rewrite Z.eqb_refl. cbn [negb].
    change (cs_connection_id _) with id. unfold from_canonical_parts at 1 2 3 4 5.
    cbn [cs_engine cs_database cs_captured_at cs_fingerprint cs_contents]. by rewrite Hnew.
Qed.
End stored.

Lemma captured {P : Platform} {L : PlatformLaws P} id e db t c :
  contents_ok c → is_blank db = false → ∃ s, capture id e db t c = Some (Ok s).
Proof.
  intros Hc Hb. destruct (schema_fingerprint_total e c Hc) as (f & Hf & Hv).
  unfold capture. unfold schema_fingerprint in Hf. rewrite Hf. cbn [mbind option_bind].
  unfold validate_shape. cbn [from_canonical_parts cs_schema_version cs_database cs_fingerprint].
  rewrite Z.eqb_refl, Hb, Hv. by eexists.
Qed.

(** ** The cache of the local store *)

Section cache.
Context {P : Platform} {L : PlatformLaws P} {R : Rfc3339Laws P} {C : ChronoSerde} {CL : ChronoSerdeLaws C}.
Context {Q : Sqlite} {D : StrDebug}.

Lemma pin_current_artifacts pin view f db :
  pin_current_with_access pin view (on_artifacts f db) = pin_current_with_access pin view db.
Proof. done. Qed.

(** A snapshot of a pin's connection that is stored is served again. *)
Lemma put_get pin s db :
  snapshot_ok s → validate_snapshot s = Some (Ok tt) →
  snapshot_from_value (snapshot_to_value s) = Some s → catalog_matches_pin s pin = true →
  persistent pin = true → is_pin_current pin db = true →
  ∃ db', put_catalog_if_current pin s db = (Ok Stored, db') ∧ get_catalog_if_current pin db' = Some s.
Proof.
  intros Hs Hv Hback Hm Hp Hc.
  pose proof (snapshot_exact s Hs) as Hexact. pose proof Hexact as Hwf.
  unfold value_exact in Hwf. apply andb_true_iff in Hwf as [Hwf _].
  destruct (json_total _ Hwf) as [text Htext]. pose proof (json_roundtrip _ _ Hexact Htext) as Hparse.
  unfold put_catalog_if_current. rewrite Hp, Hv, Hm, Htext, Hc. cbn [negb ok_or map_err mbind].
  eexists. split; [reflexivity|].
  unfold get_catalog_if_current, is_pin_current. rewrite Hp, pin_current_artifacts.
  cbn [negb db_artifacts on_artifacts schema_cache_v2 schema_cache on_schema_cache on_schema_cache_v2].
  rewrite lookup_insert_eq, lookup_delete_eq.
  cbn [mbind option_bind cch_connection_revision cch_binding_revision cch_binding_updated_at
       cch_catalog_schema_version cch_captured_at cch_catalog_json cch_fingerprint].
  destruct Hs as [Hversion _ Hclock].
  rewrite Hversion, !Z.eqb_refl, !String.eqb_refl, bool_decide_true by done.
  unfold is_pin_current in Hc. rewrite Hc. cbn [andb negb].
  rewrite parse_rfc3339_auto by done. cbn [mbind option_bind]. rewrite Hparse. cbn [mbind option_bind].
  rewrite Hback. cbn [mbind option_bind]. by rewrite Hversion, !Z.eqb_refl, String.eqb_refl, Hm.
Qed.
End cache.

(** ** The theorem *)

(** C37. The schema cache loses nothing the explorer shows and depends on nothing
    else.  A catalog of a connection with a database name can be captured; stored
    while the pin is current and cacheable, the snapshot is served again as it was;
    and what the explorer rebuilds from it are the same tables - names, kinds,
    columns in order with their keys, estimates - with the same foreign keys and
    indexes, and the same routines, triggers and sequences.  Two introspections
    that list the same things in any order have the same fingerprint, the
    synthesized key names included. *)
Theorem catalog_cache_faithful {P : Platform} {L : PlatformLaws P} {R : Rfc3339Laws P}
    {C : ChronoSerde} {CL : ChronoSerdeLaws C} {Q : Sqlite} {D : StrDebug} pin catalog now db :
  catalog_ok catalog → clock_ok now → is_blank (cp_database (pc_profile pin)) = false →
  cp_id (pc_profile pin) = pc_connection_id pin → persistent pin = true →
  is_pin_current pin db = true →
  ∃ s db', to_snapshot (pc_profile pin) catalog now = Some (Ok s)
    ∧ put_catalog_if_current pin s db = (Ok Stored, db')
    ∧ get_catalog_if_current pin db' = Some s
    ∧ same_catalog (from_snapshot s) catalog
    ∧ ∀ catalog' now' s', catalog_ok catalog' → same_catalog catalog catalog' →
        to_snapshot (pc_profile pin) catalog' now' = Some (Ok s') →
        cs_fingerprint s' = cs_fingerprint s.
Proof.
  intros Hc Ht Hb Hid Hp Hcur. pose proof (relations_ok _ Hc) as Hok.
  destruct (captured (cp_id (pc_profile pin)) (protocol_engine (cp_engine (pc_profile pin)))
    (cp_database (pc_profile pin)) now _ Hok Hb) as [s Hs].
  destruct (captured_back _ _ _ _ _ _ Hok Ht Hs) as (Hparts & Hsok & _ & Hvalid & Hback).
  assert (catalog_matches_pin s pin = true) as Hm.
  { rewrite Hparts. unfold catalog_matches_pin. cbn [from_canonical_parts cs_connection_id cs_engine cs_database].
    by rewrite !bool_decide_true, String.eqb_refl. }
  destruct (put_get pin s db) as (db' & Hput & Hget); [done..|].
  exists s, db'. split_and!; [by unfold to_snapshot; rewrite Hs|done|done| |].
  - rewrite Hparts. by apply contents_back.
  - intros catalog' now' s' Hc' Hsame Hs'. unfold to_snapshot in Hs'.
    apply bind_Some in Hs' as (r & Hr & [= Hr']). destruct r as [s2|]; [|done]. injection Hr' as ->.
    apply capture_Ok in Hr, Hs. apply (inj Some). rewrite <-Hr, <-Hs.
    symmetry. apply schema_fingerprint_same; [done|by apply relations_ok|by apply contents_same].
Qed.

(** ** Witness *)

Module IntrospectionSample.
Import StoreSample.

#[export] Instance stamps : Rfc3339Laws platform.
Proof. split. apply Reference.unstamp_stamp. Qed.
#[export] Instance serde : ChronoSerdeLaws chrono.
Proof. split. apply Reference.unstamp_stamp. Qed.

Definition column (name : string) (pk : bool) : Column :=
  {| ic_name := name; ic_data_type := "uuid"; ic_nullable := negb pk; ic_pk := pk |}.
Definition users : Table := {|
  tb_schema := Some "public"; tb_name := "users"; tb_kind := "table";
  tb_columns := [column "id" true; column "team" false];
  tb_foreign_keys := [{| fk_column := "team"; fk_references_table := "teams";
    fk_references_column := "id"; fk_references_schema := Some "public" |}];
  tb_indexes := [{| ii_name := "users_team"; ii_columns := ["team"]; ii_unique := false |}];
  tb_row_estimate := Some 3 |}.
Definition catalog : Catalog := {|
  ca_tables := [users];
  ca_objects := [{| do_schema := Some "public"; do_name := "rebuild_index"; do_kind := "procedure";
                    do_detail := Some "(target text)"; do_parent := None |};
                 {| do_schema := Some "public"; do_name := "users_updated"; do_kind := "trigger";
                    do_detail := Some "BEFORE UPDATE"; do_parent := Some "users" |}] |}.
Lemma sample_catalog_ok : catalog_ok catalog.
Proof.
  constructor; [|constructor]. split; [apply (bool_decide_unpack _); vm_compute; exact I|done|done|done].
Qed.

(** A pin of the saved profile, if the sample store gives one that is current. *)
Definition usable (r : AppResult PinnedConnection) (db : StoreDb) : bool :=
  match r with
  | Ok pin => negb (is_blank (cp_database (pc_profile pin)))
      && bool_decide (cp_id (pc_profile pin) = pc_connection_id pin) && persistent pin
      && is_pin_current pin db
  | Err _ => false
  end.
End IntrospectionSample.
#[export] Existing Instance IntrospectionSample.stamps.
#[export] Existing Instance IntrospectionSample.serde.

Lemma catalog_cache_faithful_witness :
  ∃ (pin : PinnedConnection) s db db', to_snapshot (pc_profile pin) IntrospectionSample.catalog 8 = Some (Ok s)
    ∧ put_catalog_if_current pin s db = (Ok Stored, db')
    ∧ get_catalog_if_current pin db' = Some s
    ∧ same_catalog (from_snapshot s) IntrospectionSample.catalog.
Proof.
  pose proof IntrospectionSample.sample_catalog_ok as Hok.
  assert (IntrospectionSample.usable
    (pin_connection_with_access (StoreSample.uid 3) true (StoreSample.after StoreSample.save StoreSample.fresh))
    (StoreSample.after StoreSample.save StoreSample.fresh) = true) as H by (vm_compute; reflexivity).
  assert (clock_ok 8) as Ht by (split; vm_compute; congruence).
  revert H. generalize (StoreSample.after StoreSample.save StoreSample.fresh). intros db H.
  destruct (pin_connection_with_access _ _ db) as [pin|]; [|done]. cbn [IntrospectionSample.usable] in H.
  apply andb_true_iff in H as [H Hcur]. apply andb_true_iff in H as [H Hp].
  apply andb_true_iff in H as [Hb Hid]. apply negb_true_iff in Hb. apply bool_decide_eq_true in Hid.
  destruct (catalog_cache_faithful pin IntrospectionSample.catalog 8 db Hok Ht Hb Hid Hp Hcur)
    as (s & db' & Hs & Hput & Hget & Hsame & _).
  exists pin, s, db, db'. split_and!; [exact Hs|exact Hput|exact Hget|exact Hsame].
Defined.
