(* ===== verification/StoreSafety.v ===== *)
(** * What the local store promises about scopes and pins

    In every reachable state the active scope is one an account may use; the
    generation identifies it; a current pin of a local connection names exactly
    the material that was pinned; and what was pinned before a scope was selected
    is never written after. *)

From S2P Require Export StorePins StoreSample.

Section safety.
Context {P : Platform} {Q : Sqlite} {C : ChronoSerde} {D : StrDebug}
  {L : SqliteLaws P Q} {PL : PlatformLaws P} {PI : PersonalId}.

(** C17. No committed state of the store exposes a revoked selection: whatever
    sequence of logins, membership refreshes, selections and removals led to it,
    the active scope can be read, and a team scope is that of the selected
    account, which is remembered and an active member of the workspace.  (An
    account whose identifier is the empty string is refused when it is read.)
    ([store/mod.rs], [active_resource_scope],
    [repair_active_scope_after_membership_change].) *)
Theorem active_scope_valid db :
  store_reachable db → selected_account (db_scope db) ≠ Some "" →
  ∃ scope, active_resource_scope (db_scope db) = Ok scope
    ∧ match sc_account_scope scope with
      | Model.Personal => sc_workspace_kind scope = WorkspaceKind.Personal
      | Model.WorkspaceUser user_id =>
          sc_workspace_kind scope = WorkspaceKind.Team
          ∧ selected_account (db_scope db) = Some user_id
          ∧ is_Some (accounts (db_scope db) !! user_id)
          ∧ is_active_member (db_scope db) (uuid_to_string (sc_workspace_id scope)) user_id = true
      end.
Proof.
  intros S Hne. apply reachable_scope in S as [R Hacc (id & w & Hs & Ho)].
  destruct (generation_ok _ R) as [Hg Hb].
  apply selected_row_Some in Hs as Hw. destruct Hw as [_ [Hw _]%active_workspace_row_Some].
  destruct (rp_canonical _ R _ _ Hw) as [[u ->] Hk].
  unfold active_resource_scope. rewrite Hs. cbn. rewrite Hg. cbn. rewrite Ho. cbn.
  unfold active_scope_from_row, parse_uuid_text. rewrite uuid_roundtrip. cbn.
  unfold parse_scope_generation. rewrite parse_i64_pretty by done. cbn.
  destruct (Z.ltb_spec (generation (db_scope db)) 0); [lia|].
  unfold scope_open, is_personal, is_active_account in Ho. destruct Hk as [Hk|Hk]; rewrite Hk in *; cbn in *.
  - by eexists.
  - destruct (selected_account (db_scope db)) as [v|] eqn:Ha; [|done]. cbn.
    destruct (String.eqb_spec v "") as [->|]; [by destruct Hne|]. cbn.
    eexists. split; [done|]. cbn. split_and!; try done. by apply Hacc.
Qed.

(** The generation identifies the scope: if two observations of the active
    scope, however many selections lie between them, show the same generation,
    they show the same workspace, account and kind; selecting a workspace, even
    the one that was active before, gives a new generation.  ([store/mod.rs],
    [bump_active_scope_generation].) *)
Theorem scope_generation_identifies db db' s s' :
  store_reachable db → rtc store_step db db' →
  active_resource_scope (db_scope db) = Ok s → active_resource_scope (db_scope db') = Ok s' →
  sc_generation s ≤ sc_generation s' ∧ (sc_generation s' = sc_generation s → s' = s)
  ∧ ∀ id account now w db2, run (Activate id account now) db' = (Ok w, db2) →
      generation (db_scope db2) = sc_generation s' + 1.
Proof.
  intros S Hs H H'. apply reachable_scope in S.
  destruct (steps_scope db db' S Hs) as (S' & Hle & Heq). apply steps_kinds in Hs.
  assert (∀ t s, scope_ok t → active_resource_scope t = Ok s → sc_generation s = generation t ∧
    ∃ id w, selected_row t = Some (id, w) ∧ scope_generation t = Some (pretty (generation t))
      ∧ active_scope_from_row id (ws_kind w) (selected_account t) (pretty (generation t)) = Ok s) as Hread.
  { clear. intros t s S. unfold active_resource_scope. destruct (generation_ok t (so_repairable _ S)) as [Hg Hb].
    intros H. inv_res. destruct (selected_row t) as [[id w]|]; [|done]. cbn in *. rewrite Hg in *. cbn in *.
    destruct (scope_open t id w); [|done]. simplify_eq. pose proof H as H0.
    unfold active_scope_from_row, parse_scope_generation in H. rewrite parse_i64_pretty in H by done.
    inv_res. cbn. simplify_eq. split; [done|]. do 2 eexists. by split_and!. }
  destruct (Hread _ _ S H) as (E1 & id & w & Hr1 & _ & F1).
  destruct (Hread _ _ S' H') as (E2 & id' & w' & Hr2 & _ & F2).
  rewrite E1, E2. split_and!; [done| |].
  - intros E. pose proof (Heq E) as [= Hw Ha]. rewrite E, Ha in F2.
    apply selected_row_Some in Hr1 as [Hr1 [Hw1 _]%active_workspace_row_Some],
      Hr2 as [Hr2 [Hw2 _]%active_workspace_row_Some].
    assert (id' = id) as -> by congruence. destruct (Hs _ _ Hw1) as (w2 & Hw2' & Hk).
    assert (w2 = w') as -> by congruence. rewrite Hk, F1 in F2. by injection F2.
  - intros wid account now ws db2 Hrun. cbn [run] in Hrun. unfold commit, in_scope in Hrun.
    destruct (activate_workspace wid account now (db_scope db')) as [[w0 t]|] eqn:Hact; [|done].
    cbn in Hrun. injection Hrun as <- <-. cbn. by eapply activate_ok.
Qed.

(** A current pin is exact: while [is_pin_current] holds of a pin of a local
    connection, pinning the connection again gives the very same pin, profile and
    all, whatever happened in between; a change of any column the profile is made
    of makes the pin stale.  (Provided the server does not list a template under
    the connection's own identifier.)  ([store/mod.rs],
    [pin_connection_with_access], [is_pin_current].) *)
Theorem current_pin_is_exact id require_read db db' pin :
  store_reachable db → pin_connection_with_access id require_read db = Ok pin →
  pc_requires_remote_rbac pin = false → rtc (quiet_step (uuid_to_string id)) db db' →
  is_pin_current pin db' = true → pin_connection_with_access id require_read db' = Ok pin.
Proof. apply current_pin_again. Qed.

(** The writes an operation makes under its pin. *)
Definition writes_under (pin : PinnedConnection) (c : StoreCall.t) : Prop :=
  match c with
  | PutCatalog p _ | InsertHistory p _ | SaveDashboard p _ _ _ _ => p = pin
  | DeleteDashboard p _ _ => pd_connection p = pin
  | _ => False
  end.

Lemma stale_writes_nothing pin c db :
  (∀ allow_view, pin_current_with_access pin allow_view db = false) → writes_under pin c →
  (run c db).2 = db.
Proof.
  intros Hs Hc. unfold is_pin_current in *.
  destruct c; try done; cbn in Hc; subst; cbn [run];
    try (apply (commit_rel (λ db', db' = db)); [done|]; intros a db' H).
  - unfold put_catalog_if_current, is_pin_current. rewrite Hs. by repeat case_match.
  - unfold insert_history_if_current, is_pin_current in H. inv_res. by rewrite Hs in *.
  - unfold save_dashboard_if_current in H. inv_res. by rewrite Hs in *.
  - unfold delete_dashboard_if_current in H. inv_res. by rewrite Hs in *.
Qed.

(** C15. Late results are discarded: once any workspace was selected after a
    connection was pinned, even the same one again, the pin is never current
    again, and no catalog, query history or dashboard is written under it: these
    calls leave the store as it is.  ([store/mod.rs], [put_catalog_if_current],
    [insert_history_if_current], [save_dashboard_if_current],
    [delete_dashboard_if_current].) *)
Theorem late_results_discarded id require_read db db1 db2 db3 pin wid account now ws c :
  store_reachable db → pin_connection_with_access id require_read db = Ok pin →
  rtc store_step db db1 → run (Activate wid account now) db1 = (Ok ws, db2) →
  rtc store_step db2 db3 → writes_under pin c →
  is_pin_current pin db3 = false ∧ (run c db3).2 = db3.
Proof.
  intros S Hp H1 Ha H3 Hc.
  assert (∀ allow_view, pin_current_with_access pin allow_view db3 = false) as Hstale.
  { intros allow_view. destruct (pin_current_with_access pin allow_view db3) eqn:Hcur; [|done]. exfalso.
    apply pin_inv in Hp as (? & w & c0 & raw & scope & Hj & _ & _ & Hsc & _).
    destruct (scope_inv _ _ _ _ _ _ Hsc) as (_ & _ & _ & Hgen & _).
    destruct (generation_text db raw _ S (jn_generation _ _ _ _ _ _ _ Hj) Hgen) as [_ Hg].
    apply current_joined in Hcur as (? & w' & c' & raw' & scope' & Hj' & _ & _ & _ & Eg & _).
    apply reachable_scope in S as S0. destruct (steps_scope db db1 S0 H1) as (S1 & Hle1 & _).
    cbn [run] in Ha. unfold commit, in_scope in Ha.
    destruct (activate_workspace wid account now (db_scope db1)) as [[w0 t]|] eqn:Hact; [|done].
    cbn in Ha. injection Ha as <- <-. destruct (activate_ok _ _ _ _ _ _ S1 Hact) as [S2 Hg2].
    destruct (steps_scope (on_scope (λ _, t) db1) db3 S2 H3) as (S3 & Hle3 & _). cbn in Hle3.
    destruct (generation_ok _ (so_repairable _ S3)) as [Ht3 Hb3].
    rewrite (jn_generation _ _ _ _ _ _ _ Hj') in Ht3. injection Ht3 as Ht3. rewrite Eg in Ht3.
    apply (inj pretty) in Ht3. lia. }
  split; [apply Hstale|]. by eapply stale_writes_nothing.
Qed.
End safety.

Lemma active_scope_valid_witness :
  ∃ db scope, store_reachable db ∧ active_resource_scope (db_scope db) = Ok scope
    ∧ selected_account (db_scope db) = Some "ada".
Proof.
  pose proof (StoreSample.after_reachable (StoreSample.login ++ StoreSample.select_team)) as S.
  assert (bool_decide (selected_account (db_scope (StoreSample.after
    (StoreSample.login ++ StoreSample.select_team) StoreSample.fresh)) = Some "ada") = true) as Ha
    by (vm_compute; reflexivity).
  revert S Ha. generalize (StoreSample.after (StoreSample.login ++ StoreSample.select_team) StoreSample.fresh).
  intros db S Ha%bool_decide_eq_true.
  destruct (active_scope_valid db S) as (scope & Hs & _); [by rewrite Ha|]. by exists db, scope.
Defined.

Lemma scope_generation_identifies_witness :
  ∃ db db' s s', store_reachable db ∧ rtc store_step db db'
    ∧ active_resource_scope (db_scope db) = Ok s ∧ active_resource_scope (db_scope db') = Ok s'
    ∧ sc_generation s ≤ sc_generation s'.
Proof.
  pose proof (StoreSample.after_reachable StoreSample.login) as S.
  pose proof (StoreSample.after_steps StoreSample.select_team
                (StoreSample.after StoreSample.login StoreSample.fresh)) as Hs.
  assert (is_ok (active_resource_scope (db_scope (StoreSample.after StoreSample.login StoreSample.fresh)))
          && is_ok (active_resource_scope (db_scope (StoreSample.after StoreSample.select_team
               (StoreSample.after StoreSample.login StoreSample.fresh)))) = true) as H
    by (vm_compute; reflexivity).
  revert S Hs H. generalize (StoreSample.after StoreSample.login StoreSample.fresh) as db. intros db.
  generalize (StoreSample.after StoreSample.select_team db) as db'. intros db' S Hs H.
  destruct (active_resource_scope (db_scope db)) as [s|] eqn:E; [|done].
  destruct (active_resource_scope (db_scope db')) as [s'|] eqn:E'; [|done].
  exists db, db', s, s'. split_and!; try done. apply (scope_generation_identifies db db' s s' S Hs E E').
Defined.

Lemma current_pin_is_exact_witness :
  ∃ db db' pin, store_reachable db
    ∧ pin_connection_with_access (StoreSample.uid 3) true db = Ok pin
    ∧ is_pin_current pin db' = true
    ∧ pin_connection_with_access (StoreSample.uid 3) true db' = Ok pin.
Proof.
  pose proof (StoreSample.after_reachable StoreSample.save) as S.
  pose proof (StoreSample.after_quiet (uuid_to_string (StoreSample.uid 3)) StoreSample.login
    (StoreSample.after StoreSample.save StoreSample.fresh) ltac:(vm_compute; reflexivity)) as Hs.
  assert (match pin_connection_with_access (StoreSample.uid 3) true
                  (StoreSample.after StoreSample.save StoreSample.fresh) with
          | Ok pin => negb (pc_requires_remote_rbac pin)
                      && is_pin_current pin (StoreSample.after StoreSample.login
                           (StoreSample.after StoreSample.save StoreSample.fresh))
          | Err _ => false
          end = true) as H by (vm_compute; reflexivity).
  revert S Hs H. generalize (StoreSample.after StoreSample.save StoreSample.fresh) as db. intros db.
  generalize (StoreSample.after StoreSample.login db) as db'. intros db' S Hs H.
  destruct (pin_connection_with_access _ _ db) as [pin|] eqn:E; [|done].
  apply andb_true_iff in H as [Hl%negb_true_iff Hc]. exists db, db', pin. split_and!; try done.
  exact (current_pin_is_exact _ _ db db' pin S E Hl Hs Hc).
Defined.

Lemma late_results_discarded_witness :
  ∃ db db2 pin, store_reachable db
    ∧ pin_connection_with_access (StoreSample.uid 3) true db = Ok pin
    ∧ is_pin_current pin db2 = false ∧ (run (InsertHistory pin StoreSample.entry) db2).2 = db2.
Proof.
  pose proof (StoreSample.after_reachable StoreSample.save) as S.
  assert (StoreSample.pinned (StoreSample.uid 3) (StoreSample.after StoreSample.save StoreSample.fresh)
          && is_ok (run (Activate (StoreSample.uid 1) None 7)
                      (StoreSample.after StoreSample.save StoreSample.fresh)).1 = true) as H
    by (vm_compute; reflexivity).
  revert S H. generalize (StoreSample.after StoreSample.save StoreSample.fresh) as db. intros db S H.
  apply andb_true_iff in H as [Hp Ha]. unfold StoreSample.pinned in Hp.
  destruct (pin_connection_with_access _ _ db) as [pin|] eqn:E; [|done].
  destruct (run (Activate _ _ _) db) as [[ws|] db2] eqn:Hr; [|done].
  exists db, db2, pin. split_and!; try done;
    apply (late_results_discarded (StoreSample.uid 3) true db db db2 db2 pin (StoreSample.uid 1) None 7
      ws (InsertHistory pin StoreSample.entry) S E); done.
Defined.
