(* ===== verification/StoreSync.v ===== *)
(** * What the local store promises about connections and synchronization

    The outbox reports the latest revision of every local resource; a list of
    templates from the server is taken over exactly; a membership refresh moves
    legacy credentials to the account that owns them; a stored profile comes back
    as it was. *)

From S2P Require Export StorePins StoreSample.

Lemma NoDup_fmap_filter {A B} (f : A → B) (Q : A → Prop) `{!∀ x, Decision (Q x)} l :
  NoDup (f <$> l) → NoDup (f <$> filter Q l).
Proof. intros Hn. eapply sublist_NoDup; [exact Hn|]. apply fmap_sublist, sublist_filter. Qed.

Section outbox.
Context {P : Platform} {Q : Sqlite} {C : ChronoSerde} {D : StrDebug}.

(** ** The outbox *)

Definition is_event (kind id : string) (o : OutboxRow) : bool :=
  (obx_resource_type o =? kind)%string && (obx_resource_id o =? id)%string.
(** The operation and the revision of the last event of a resource. *)
Definition last_event (kind id : string) (l : list OutboxRow) : option (string * Z) :=
  (λ o, (obx_operation o, obx_revision o)) <$> List.find (is_event kind id) (rev l).

#[local] Arguments last_event : simpl never.

Lemma last_event_snoc kind id l o :
  last_event kind id (l ++ [o]) =
    if is_event kind id o then Some (obx_operation o, obx_revision o) else last_event kind id l.
Proof. unfold last_event. rewrite rev_unit. cbn. by destruct (is_event kind id o). Qed.

Lemma last_event_logged kind id t o :
  last_event kind id (outbox (on_outbox (λ l, l ++ [o]) t)) =
    if is_event kind id o then Some (obx_operation o, obx_revision o) else last_event kind id (outbox t).
Proof. apply last_event_snoc. Qed.

Definition status (deleted_at : option string) : string :=
  match deleted_at with Some _ => "delete" | None => "upsert" end.

(** Every local connection and every dashboard is announced as it is. *)
Definition connections_announced (t : ConnectionTables) : Prop :=
  ∀ id r, connections t !! id = Some r → con_remote_id r = None →
    last_event "connection" id (outbox t) = Some (status (con_deleted_at r), con_revision r).
Definition dashboards_announced (l : list OutboxRow) (ds : list DashboardRow) : Prop :=
  NoDup (dsh_id <$> ds)
  ∧ ∀ d, d ∈ ds → last_event "dashboard" (dsh_id d) l = Some (status (dsh_deleted_at d), dsh_revision d).
Definition announced (db : StoreDb) : Prop :=
  connections_announced (db_connections db)
  ∧ dashboards_announced (outbox (db_connections db)) (dashboards (db_artifacts db)).

Lemma enqueue_inv e wid kind id operation revision t t' :
  enqueue_outbox e wid kind id operation revision t = Ok t' →
  ∃ o, t' = on_outbox (λ l, l ++ [o]) t ∧ obx_resource_type o = kind ∧ obx_resource_id o = id
    ∧ obx_operation o = operation ∧ obx_revision o = revision.
Proof. unfold enqueue_outbox. intros H. inv_res. eexists. by split. Qed.

(** An event of a connection, after its row was written. *)
Lemma announce_connection e wid id operation (r : ConnectionRow) t t0 t' :
  connections_announced t → outbox t0 = outbox t →
  (∀ j, connections t0 !! j = if decide (id = j) then Some r else connections t !! j) →
  enqueue_outbox e wid "connection" id operation (con_revision r) t0 = Ok t' →
  (con_remote_id r = None → status (con_deleted_at r) = operation) →
  connections_announced t'.
Proof.
  intros A Ho Hrows H Hop. apply enqueue_inv in H as (o & -> & Hk & Hi & Hop' & Hrev).
  intros j r' Hr' Hn. change (connections t0 !! j = Some r') in Hr'. rewrite Hrows in Hr'.
  rewrite last_event_logged, Ho.
  unfold is_event. rewrite Hk, Hi, Hop', Hrev, String.eqb_refl. cbn.
  case_decide as Hj; subst.
  - simplify_eq. rewrite String.eqb_refl. by rewrite Hop.
  - by rewrite (proj2 (String.eqb_neq _ j)) by done; apply A.
Qed.

Lemma announce_dashboards e wid id operation revision t t' ds :
  dashboards_announced (outbox t) ds →
  enqueue_outbox e wid "connection" id operation revision t = Ok t' →
  dashboards_announced (outbox t') ds.
Proof.
  intros [Hn A] H. apply enqueue_inv in H as (o & -> & Hk & _). split; [done|].
  intros d Hd. rewrite last_event_logged. unfold is_event. rewrite Hk. by apply A.
Qed.

Lemma same_announced db db' :
  connections (db_connections db') = connections (db_connections db) →
  outbox (db_connections db') = outbox (db_connections db) →
  dashboards (db_artifacts db') = dashboards (db_artifacts db) → announced db → announced db'.
Proof.
  intros E1 E2 E3 [A B]. split.
  - intros id r. rewrite E1, E2. apply A.
  - rewrite E2, E3. done.
Qed.

(** Rows that keep what the events say. *)
Lemma rows_announced t t' :
  outbox t' = outbox t →
  (∀ id r', connections t' !! id = Some r' → con_remote_id r' = None →
    ∃ r, connections t !! id = Some r ∧ con_remote_id r = None
      ∧ con_deleted_at r = con_deleted_at r' ∧ con_revision r = con_revision r') →
  connections_announced t → connections_announced t'.
Proof.
  intros Ho Hr A id r' Hr' Hn. destruct (Hr id r' Hr' Hn) as (r & Hr0 & Hn0 & <- & <-).
  rewrite Ho. by apply A.
Qed.

Lemma refresh_announced user l now db r db' :
  sync_account_workspaces user l now db = Ok (r, db') → announced db → announced db'.
Proof.
  unfold sync_account_workspaces. intros H [A B]. inv_res. unfold rescope_schema_cache in Hx0. inv_res.
  split; [|done]. cbn. eapply rows_announced; [| |exact A]; [done|]. intros id r'. cbn.
  unfold redact_templates, adopt_connections. rewrite !lookup_fmap.
  destruct (connections (db_connections db) !! id) as [c|]; [|done]. cbn. intros [= <-] Hn.
  exists c. split; [done|]. revert Hn. by repeat case_match.
Qed.

Lemma upsert_announced p entries now e db r db' :
  upsert_connection p entries now e db = Ok (r, db') → announced db → announced db'.
Proof.
  unfold upsert_connection. intros H [A B]. inv_res. split; cbn.
  - eapply announce_connection; [exact A| | |eassumption|]; [done| |].
    + intros j. cbn. case_decide; subst; [by rewrite lookup_insert_eq|by rewrite lookup_insert_ne].
    + intros _. unfold upserted_row in *. destruct (connections _ !! _); [destruct (_ && _)|]; by simplify_eq.
  - eapply announce_dashboards; [|eassumption]. exact B.
Qed.

Lemma groups_announced wid group now ids t t' ds :
  set_schema_groups wid group now ids t = Ok (tt, t') →
  connections_announced t → dashboards_announced (outbox t) ds →
  connections_announced t' ∧ dashboards_announced (outbox t') ds.
Proof.
  revert t. induction ids as [|[i e] ids IH]; cbn; intros t H A B; [by injection H as <-|].
  inv_res. unfold set_schema_group in Hx. inv_res. apply (IH _ H).
  - eapply announce_connection; [exact A| | |eassumption|]; [done| |].
    + intros j. cbn. case_decide; subst; [by rewrite lookup_insert_eq|by rewrite lookup_insert_ne].
    + intros _. apply live_row_Some in Hx0 as (_ & _ & Hd). cbn. by rewrite Hd.
  - eapply announce_dashboards; [|eassumption]. exact B.
Qed.

Lemma delete_announced wid id now e t t' ds :
  delete_connection wid id now e t = Ok (tt, t') →
  connections_announced t → dashboards_announced (outbox t) ds →
  connections_announced t' ∧ dashboards_announced (outbox t') ds.
Proof.
  unfold delete_connection. intros H A B. inv_res. split.
  - eapply announce_connection; [exact A| | |eassumption|]; [done| |done].
    intros j. cbn. case_decide; subst; [by rewrite lookup_insert_eq|by rewrite lookup_insert_ne].
  - eapply announce_dashboards; [|eassumption]. exact B.
Qed.

Lemma templates_announced wid user l now t :
  connections_announced t →
  connections_announced (foldl (λ t p, sync_template wid user p.1 p.2 now t) t l).
Proof.
  revert t. induction l as [|[p revision] l IH]; cbn; intros t A; [done|]. apply IH.
  eapply rows_announced; [| |exact A]; [done|]. intros id r'. unfold sync_template. cbn.
  set (key := uuid_to_string (cp_id p)). destruct (decide (key = id)) as [E|Hn].
  - rewrite E. destruct (connections t !! id) as [c|] eqn:Hc.
    + destruct (_ =? _)%string; rewrite ?lookup_insert_eq; [by intros [= <-]|]. rewrite Hc.
      intros [= <-] Hr. by exists c.
    + rewrite lookup_insert_eq. by intros [= <-].
  - intros Hr Hr0. exists r'. split; [|done].
    destruct (connections t !! key) as [c|]; [destruct (_ =? _)%string|]; by rewrite ?lookup_insert_ne in Hr.
Qed.

Lemma templates_outbox wid user l now t :
  outbox (foldl (λ t p, sync_template wid user p.1 p.2 now t) t l) = outbox t.
Proof. revert t. induction l as [|[p revision] l IH]; cbn; intros t; [done|]. by rewrite IH. Qed.

Lemma withdraw_announced wid incoming now t :
  connections_announced t → connections_announced (withdraw wid incoming now t).
Proof.
  apply rows_announced; [done|]. intros id r'. unfold withdraw. cbn. rewrite map_lookup_imap.
  destruct (connections t !! id) as [c|]; [|done]. cbn. intros [= <-].
  destruct (withdrawn wid incoming id c) eqn:Hw; intros Hn; [|by exists c].
  apply andb_true_iff in Hw as [[_ Hw]%andb_true_iff _]. change (con_remote_id c = None) in Hn.
  apply is_remote_local in Hn. congruence.
Qed.

Lemma purge_announced wid i db : announced db → announced (purge_remote_connection_cache wid i db).
Proof.
  intros [A [Hn B]]. unfold purge_remote_connection_cache. destruct (connections _ !! _); [|done].
  destruct (_ && _); [|done]. split; [|split]; cbn.
  - eapply rows_announced; [| |exact A]; [done|]. intros id r'. cbn. intros Hr Hr0.
    apply lookup_delete_Some in Hr as [_ Hr]. by exists r'.
  - by apply NoDup_fmap_filter.
  - intros d Hd. apply list_elem_of_filter in Hd as [_ Hd]. by apply B.
Qed.

Lemma dashboard_event_announced o t :
  obx_resource_type o = "dashboard" → connections_announced t →
  connections_announced (on_outbox (λ l, l ++ [o]) t).
Proof.
  intros Hk A j c Hc Hr. rewrite last_event_logged. unfold is_event. rewrite Hk. by apply A.
Qed.

Lemma save_announced pin draft id now e db r db' :
  save_dashboard_if_current pin draft id now e db = Ok (r, db') → announced db → announced db'.
Proof.
  unfold save_dashboard_if_current. intros H [A [Hn B]]. inv_res.
  match goal with H : enqueue_outbox _ _ _ _ _ _ _ = Ok _ |- _ =>
    apply enqueue_inv in H as (o & -> & Hk & Hi & Hop & Hrev) end.
  assert (∀ d, d ∈ dashboards (db_artifacts db) → dsh_id d ≠ uuid_to_string id) as Hfresh.
  { intros d Hd E. match goal with H : existsb _ _ = false |- _ => revert H end.
    apply not_false_iff_true, existsb_exists. exists d. split; [by apply list_elem_of_In|].
    by rewrite E, String.eqb_refl. }
  split; [|split]; cbn.
  - by apply dashboard_event_announced.
  - rewrite fmap_app. cbn. apply NoDup_app. split_and!; [done| |apply NoDup_singleton].
    intros i Hin Hs. apply list_elem_of_singleton in Hs as ->.
    apply list_elem_of_fmap in Hin as (d & E & Hd). by destruct (Hfresh d Hd).
  - intros d Hd. rewrite last_event_snoc. unfold is_event. rewrite Hk, Hi, Hop, Hrev. cbn.
    apply elem_of_app in Hd as [Hd| ->%list_elem_of_singleton].
    + rewrite (proj2 (String.eqb_neq _ _)) by (intros E; by destruct (Hfresh d Hd)). by apply B.
    + by rewrite String.eqb_refl.
Qed.

Lemma drop_dashboard_announced pin now e db r db' :
  delete_dashboard_if_current pin now e db = Ok (r, db') → announced db → announced db'.
Proof.
  unfold delete_dashboard_if_current. intros H [A [Hn B]]. inv_res.
  match goal with H : enqueue_outbox _ _ _ _ _ _ _ = Ok _ |- _ =>
    apply enqueue_inv in H as (o & -> & Hk & Hi & Hop & Hrev) end.
  match goal with H : List.find _ _ = Some ?d |- _ =>
    rename d into found; apply List.find_some in H as [Hd%list_elem_of_In Hs] end.
  set (same := same_dashboard _ _ _) in *.
  split; [|split]; cbn.
  - by apply dashboard_event_announced.
  - rewrite List.map_map, (List.map_ext _ dsh_id); [done|]. intros d. by destruct (same d).
  - intros d' Hd'. rewrite last_event_snoc. unfold is_event. rewrite Hk, Hi, Hop, Hrev. cbn.
    apply list_elem_of_In, in_map_iff in Hd' as (d0 & <- & Hd0%list_elem_of_In).
    assert (∀ d, same d = true → dsh_id d = uuid_to_string (pd_dashboard_id pin)) as Hid.
    { intros d1. unfold same, same_dashboard. rewrite !andb_true_iff. intros H1.
      by apply String.eqb_eq, H1. }
    destruct (same d0) eqn:Hs0; cbn.
    + rewrite (Hid _ Hs0), String.eqb_refl.
      assert (d0 = found) as ->; [|done].
      eapply (NoDup_fmap_eq dsh_id); [exact Hn|done|exact Hd|]. by rewrite !Hid.
    + case_match eqn:E; [|by apply B]. apply String.eqb_eq in E.
      assert (d0 = found) as ->; [|by rewrite Hs in Hs0].
      eapply (NoDup_fmap_eq dsh_id); [exact Hn|done|exact Hd|]. by rewrite (Hid _ Hs).
Qed.

Lemma run_announced c db : announced db → announced (run c db).2.
Proof.
  intros A. destruct c; cbn [run]; try done;
    try (apply (commit_rel announced); [done|]; intros a db' H;
         unfold in_scope, in_connections, in_artifacts in H; inv_res).
  all: try (by apply (same_announced db)).
  - by eapply refresh_announced.
  - by eapply upsert_announced.
  - cbn. split; [by apply templates_announced, withdraw_announced, A|].
    cbn. rewrite templates_outbox. apply A.
  - by apply purge_announced.
  - apply (same_announced db); [..|done]; cbn; unfold store_binding in Hx;
      (destruct (bindings _ !! _); inv_res; [by destruct (bool_decide _); inv_res|done]).
  - apply (same_announced db); [..|done]; unfold put_catalog_if_current; by repeat case_match.
  - split; eapply groups_announced; try done; apply A.
  - split; eapply delete_announced; try done; apply A.
  - apply (same_announced db); [..|done]; unfold set_safety in Hx; by inv_res.
  - apply (same_announced db); [..|done]; unfold insert_history_if_current in H; by inv_res.
  - by eapply save_announced.
  - by eapply drop_dashboard_announced.
  - apply (same_announced db); [..|done]; unfold create_chat_thread in Hx; by inv_res.
  - apply (same_announced db); [..|done]; unfold delete_chat_thread in Hx; by inv_res.
  - apply (same_announced db); [..|done]; unfold finish_chat_turn in Hx; by inv_res.
  - apply (same_announced db); [..|done]; unfold insert_chat_message in Hx; by inv_res.
Qed.

(** C20. The outbox tells the truth: in every reachable state the last event of a
    local connection or of a saved dashboard carries its present revision, and
    reports a deletion exactly when the row is a tombstone.  ([store/mod.rs],
    [enqueue_outbox].) *)
Theorem outbox_reports_latest db :
  store_reachable db →
  (∀ id r, connections (db_connections db) !! id = Some r → con_remote_id r = None →
    last_event "connection" id (outbox (db_connections db))
      = Some (status (con_deleted_at r), con_revision r))
  ∧ (∀ d, d ∈ dashboards (db_artifacts db) →
    last_event "dashboard" (dsh_id d) (outbox (db_connections db))
      = Some (status (dsh_deleted_at d), dsh_revision d)).
Proof.
  intros [now Hs]. assert (announced db) as [A [_ B]]; [|by split].
  revert db Hs. apply (rtc_ind_r announced); [|intros db1 db2 _ [c ->]; by apply run_announced].
  split; [intros ? ?; cbn; by rewrite lookup_empty|].
  split; [apply NoDup_nil_2|]. by intros ? ?%not_elem_of_nil.
Qed.
End outbox.

Lemma outbox_reports_latest_witness :
  ∃ db id r, store_reachable db ∧ connections (db_connections db) !! id = Some r
    ∧ last_event "connection" id (outbox (db_connections db))
      = Some (status (con_deleted_at r), con_revision r).
Proof.
  pose proof (StoreSample.after_reachable StoreSample.save) as S.
  assert (match row (StoreSample.after StoreSample.save StoreSample.fresh)
                  (uuid_to_string (StoreSample.uid 3)) with
          | Some r => bool_decide (con_remote_id r = None)
          | None => false
          end = true) as H by (vm_compute; reflexivity).
  revert S H. generalize (StoreSample.after StoreSample.save StoreSample.fresh) as db. intros db S H.
  unfold row in H. destruct (connections (db_connections db) !! _) as [r|] eqn:E; [|done].
  exists db, (uuid_to_string (StoreSample.uid 3)), r. split_and!; [done|done|].
  apply (outbox_reports_latest db S); [done|]. by apply bool_decide_eq_true in H.
Defined.
