(* ===== verification/StoreMigration.v ===== *)
(** * What a membership refresh and a template list do to connections

    A membership refresh gives legacy connections and credentials to the account
    whose membership was just confirmed; a list of templates from the server is
    taken over exactly, and a stored profile comes back as it was. *)

From S2P Require Export StorePins StoreSample.

Section refresh.
Context {P : Platform} {Q : Sqlite} {C : ChronoSerde} {D : StrDebug}.

(** ** A membership refresh *)

(** The workspaces the server lists for the account. *)
Definition lists_workspace (l : list RemoteWorkspace) (workspace_id : string) : bool :=
  one_of (map (λ r, uuid_to_string (rw_id r)) l) workspace_id.

Lemma upsert_membership_active user r now t t' wid :
  upsert_membership user r now t = Ok t' →
  is_active_member t' wid (us_id user)
    = (wid =? uuid_to_string (rw_id r))%string || is_active_member t wid (us_id user).
Proof.
  unfold upsert_membership. intros H. destruct (String.eqb_spec wid (uuid_to_string (rw_id r))) as [->|Hn].
  - destruct (members t !! _); inv_res; unfold is_active_member; cbn; by rewrite lookup_insert_eq.
  - destruct (members t !! _); inv_res; unfold is_active_member; cbn;
      by rewrite lookup_insert_ne by congruence.
Qed.

Lemma upsert_memberships_active user l now t t' wid :
  upsert_memberships user l now t = Ok t' →
  is_active_member t' wid (us_id user) = lists_workspace l wid || is_active_member t wid (us_id user).
Proof.
  revert t. induction l as [|r l IH]; cbn; intros t H; [by injection H as <-|]. inv_res.
  rewrite (IH _ H), (upsert_membership_active _ _ _ _ _ _ Hx).
  change (is_active_member (upsert_team r now t) wid (us_id user)) with (is_active_member t wid (us_id user)).
  unfold lists_workspace, one_of. cbn.
  by destruct (wid =? _)%string, (existsb _ _), (is_active_member _ _ _).
Qed.

Lemma archived_active user_id t wid : is_active_member (archive_memberships user_id t) wid user_id = false.
Proof.
  unfold is_active_member, archive_memberships. cbn. rewrite map_lookup_imap.
  destruct (members t !! (wid, user_id)); cbn; [|done]. by rewrite String.eqb_refl.
Qed.

(** The connection and binding rows after the refresh. *)
Lemma refresh_connections user l now db r db' :
  sync_account_workspaces user l now db = Ok (r, db') →
  ∃ t, (∀ wid, is_active_member t wid (us_id user) = lists_workspace l wid)
    ∧ connections (db_connections db')
        = redact_templates (us_id user) t (adopt_connections (us_id user) t (connections (db_connections db)))
    ∧ bindings (db_connections db')
        = adopt_credentials (us_id user) now t
            (adopt_connections (us_id user) t (connections (db_connections db)))
            (bindings (db_connections db)).
Proof.
  unfold sync_account_workspaces. intros H. inv_res. unfold rescope_schema_cache in Hx0. inv_res.
  eexists. split; [|split; reflexivity]. intros wid.
  rewrite (upsert_memberships_active _ _ _ _ _ _ Hx), archived_active. by rewrite orb_false_r.
Qed.

Lemma adopted_binding user_id now t (rows : gmap string ConnectionRow) bs id account :
  adopt_credentials user_id now t rows bs !! (id, account) =
    match bs !! (id, account) with
    | Some b => Some b
    | None =>
        if decide (account = user_id) then
          c ← rows !! id;
          if legacy_template user_id t c
          then Some {| bnd_username := con_username c; bnd_extra_params := con_extra_params c;
                       bnd_secret_ref := con_secret_ref c; bnd_workspace_access := "view";
                       bnd_allow_writes := false; bnd_revision := 1; bnd_updated_at := rfc3339 now |}
          else None
        else None
    end.
Proof.
  unfold adopt_credentials. rewrite lookup_union.
  assert (Inj eq eq (λ i : string, (i, user_id))) as HI by (intros ? ? [=]; done).
  case_decide as Ha.
  - subst. rewrite (lookup_kmap (λ i, (i, user_id))), lookup_omap.
    by destruct (bs !! _), (rows !! id) as [c|]; cbn; try destruct (legacy_template _ _ _).
  - rewrite (proj2 (lookup_kmap_None (λ i, (i, user_id)) _ _)).
    + by destruct (bs !! _).
    + intros i [= -> ->]. done.
Qed.

(** The binding that takes over the credentials of a template. *)
Definition inherited (c : ConnectionRow) (now : DateTime) : BindingRow := {|
  bnd_username := con_username c; bnd_extra_params := con_extra_params c;
  bnd_secret_ref := con_secret_ref c; bnd_workspace_access := "view"; bnd_allow_writes := false;
  bnd_revision := 1; bnd_updated_at := rfc3339 now |}.

(** What a refresh makes of a row and of the account's binding of it. *)
Definition refreshed_row (user_id : string) (listed : bool) (c : ConnectionRow) : ConnectionRow :=
  if listed then
    match con_remote_id c, con_account_user_id c with
    | Some _, _ => set_con_credentials "" "{}" None c
    | None, None => set_con_account (Some user_id) c
    | None, Some _ => c
    end
  else c.
Definition refreshed_binding (listed : bool) (c : ConnectionRow) (now : DateTime)
    (b : option BindingRow) : option BindingRow :=
  match b with
  | Some b => Some b
  | None => if listed && is_remote c && holds_credentials c then Some (inherited c now) else None
  end.

Lemma redacted c : holds_credentials c = false → set_con_credentials "" "{}" None c = c.
Proof.
  unfold holds_credentials. destruct c; cbn. rewrite !orb_false_iff, !negb_false_iff, !String.eqb_eq.
  intros [[-> ->] Hs%bool_decide_eq_false]. destruct con_secret_ref; [by destruct Hs|done].
Qed.

(** Legacy data goes to the account that owns it and to no other: after a
    membership refresh every shared template of a workspace the server listed for
    the account holds no credentials any more; they are in the account's own
    binding, unless it had one, which is kept; team-local connections without an
    owner in these workspaces belong to the account; every other row, and every
    binding of another account, is as before.  ([store/mod.rs],
    [sync_account_workspaces].) *)
Theorem refresh_moves_credentials user l now db r db' :
  sync_account_workspaces user l now db = Ok (r, db') →
  (∀ id c, connections (db_connections db) !! id = Some c →
    let listed := lists_workspace l (con_workspace_id c) in
    connections (db_connections db') !! id = Some (refreshed_row (us_id user) listed c)
    ∧ bindings (db_connections db') !! (id, us_id user)
      = refreshed_binding listed c now (bindings (db_connections db) !! (id, us_id user)))
  ∧ ∀ id account, account ≠ us_id user →
    bindings (db_connections db') !! (id, account) = bindings (db_connections db) !! (id, account).
Proof.
  intros H. destruct (refresh_connections _ _ _ _ _ _ H) as (t & Ht & Hc & Hb). split.
  - intros id c Hid. cbn. rewrite Hc, Hb, adopted_binding, decide_True by done.
    unfold redact_templates, adopt_connections. rewrite !lookup_fmap, Hid. cbn.
    rewrite Ht. unfold refreshed_row, refreshed_binding, is_remote.
    destruct (con_remote_id c) as [rid|] eqn:Hr; cbn.
    + unfold legacy_template. rewrite Hr, Ht. cbn.
      destruct (lists_workspace l _); cbn; [|by destruct (bindings _ !! _)].
      destruct (holds_credentials c) eqn:Hh; cbn; [by destruct (bindings _ !! _)|].
      rewrite redacted by done. by destruct (bindings _ !! _).
    + destruct (con_account_user_id c) eqn:Ha.
      * cbn. unfold legacy_template. rewrite Hr. cbn.
        rewrite andb_false_r. split; [by destruct (lists_workspace _ _)|by destruct (bindings _ !! _)].
      * cbn.
        destruct (lists_workspace l _); unfold legacy_template; cbn; rewrite Hr; cbn;
          (split; [done|by destruct (bindings _ !! _)]).
  - intros id account Hn. rewrite Hb, adopted_binding, decide_False by done.
    by destruct (bindings _ !! _).
Qed.
End refresh.

Section sync.
Context {P : Platform} {Q : Sqlite}.

(** ** A list of templates *)

Definition template_ids (l : list (ConnectionProfile * Z)) : list string :=
  map (λ p, uuid_to_string (cp_id p.1)) l.
(** The last entry of the list for a connection. *)
Definition last_listed (id : string) (l : list (ConnectionProfile * Z)) : option (ConnectionProfile * Z) :=
  List.find (λ p, uuid_to_string (cp_id p.1) =? id)%string (rev l).
Definition server_writes (p : ConnectionProfile) : bool :=
  cp_allow_writes p && WorkspaceConnectionAccess.can_write (cp_workspace_access p).
(** What an account entered itself: user name, parameters and secret. *)
Definition credentials_of (b : option BindingRow) : string * string * option string :=
  match b with
  | Some b => (bnd_username b, bnd_extra_params b, bnd_secret_ref b)
  | None => ("", "{}", None)
  end.

(** A row and a binding that show what the server says. *)
Definition mirrors (id wid : string) (p : ConnectionProfile) (revision : Z) (now : DateTime)
    (c : ConnectionRow) : Prop :=
  ∃ username extra secret_ref account created_at,
    c = profile_row p username extra secret_ref wid account (Some id) revision "synced" created_at
          (rfc3339 now).
Definition grants (p : ConnectionProfile) (b : BindingRow) : Prop :=
  bnd_workspace_access b = workspace_access_str (cp_workspace_access p)
  ∧ bnd_allow_writes b = server_writes p.

Section templates.
Context (wid user_id : string) (now : DateTime).
Local Abbreviation sync := (λ t p, sync_template wid user_id p.1 p.2 now t).

Lemma sync_row_other t p id : id ≠ uuid_to_string (cp_id p.1) →
  connections (sync t p) !! id = connections t !! id.
Proof.
  intros Hn. unfold sync_template. cbn.
  destruct (connections t !! _) as [c|]; [destruct (_ =? _)%string|]; by rewrite ?lookup_insert_ne.
Qed.

Lemma sync_row t p : let id := uuid_to_string (cp_id p.1) in
  (∀ c, connections t !! id = Some c → con_workspace_id c = wid) →
  ∃ c, connections (sync t p) !! id = Some c ∧ mirrors id wid p.1 p.2 now c.
Proof.
  intros id Hw. unfold sync_template. cbn. fold id. destruct (connections t !! id) as [c|] eqn:Hc.
  - rewrite (Hw c) by done. rewrite String.eqb_refl, lookup_insert_eq.
    eexists. split; [done|]. unfold mirrors. by repeat eexists.
  - rewrite lookup_insert_eq. eexists. split; [done|]. unfold mirrors. by repeat eexists.
Qed.

Lemma sync_binding_other t p k : k ≠ (uuid_to_string (cp_id p.1), user_id) →
  bindings (sync t p) !! k = bindings t !! k.
Proof.
  intros Hn. unfold sync_template. cbn.
  destruct (bindings t !! (_, _)) as [b|]; [destruct (_ || _)|]; by rewrite ?lookup_insert_ne.
Qed.

Lemma sync_binding t p : let k := (uuid_to_string (cp_id p.1), user_id) in
  ∃ b, bindings (sync t p) !! k = Some b ∧ grants p.1 b
    ∧ credentials_of (Some b) = credentials_of (bindings t !! k).
Proof.
  intros k. unfold sync_template, grants, server_writes. cbn. fold k.
  destruct (bindings t !! k) as [b|] eqn:Hb.
  - destruct (_ || _) eqn:Hd; [rewrite lookup_insert_eq; by eexists|]. exists b. split; [done|].
    apply orb_false_iff in Hd as [Ha Hw]. apply negb_false_iff, String.eqb_eq in Ha.
    by apply negb_false_iff, Bool.eqb_prop in Hw.
  - rewrite lookup_insert_eq. by eexists.
Qed.

Lemma synced_row_other l t id : id ∉ template_ids l →
  connections (foldl sync t l) !! id = connections t !! id.
Proof.
  revert t. induction l as [|p l IH]; intros t Hn; [done|]. apply not_elem_of_cons in Hn as [Hn Hl].
  cbn [foldl]. by rewrite IH, sync_row_other.
Qed.

Lemma synced_binding_other l t id account : id ∉ template_ids l ∨ account ≠ user_id →
  bindings (foldl sync t l) !! (id, account) = bindings t !! (id, account).
Proof.
  revert t. induction l as [|p l IH]; intros t Hn; [done|]. cbn [foldl].
  rewrite IH, sync_binding_other; [done| |]; destruct Hn as [Hn|Hn]; try (apply not_elem_of_cons in Hn as []);
    first [by right|by left|congruence].
Qed.

Lemma synced_workspace l t id :
  (∀ c, connections t !! id = Some c → con_workspace_id c = wid) →
  ∀ c, connections (foldl sync t l) !! id = Some c → con_workspace_id c = wid.
Proof.
  revert t. induction l as [|p l IH]; intros t Hw; [done|]. cbn [foldl]. apply IH.
  destruct (decide (id = uuid_to_string (cp_id p.1))) as [->|Hn]; [|by rewrite sync_row_other].
  destruct (sync_row t p Hw) as (c' & Hc & m). intros c E.
  assert (c = c') as -> by congruence. by destruct m as (? & ? & ? & ? & ? & ->).
Qed.

Lemma synced_credentials l t k :
  credentials_of (bindings (foldl sync t l) !! k) = credentials_of (bindings t !! k).
Proof.
  revert t. induction l as [|p l IH]; intros t; [done|]. cbn [foldl]. rewrite IH.
  destruct (decide (k = (uuid_to_string (cp_id p.1), user_id))) as [->|Hn]; [|by rewrite sync_binding_other].
  by destruct (sync_binding t p) as (b & -> & _ & ?).
Qed.

Lemma last_listed_snoc id l p :
  last_listed id (l ++ [p]) = if (uuid_to_string (cp_id p.1) =? id)%string then Some p else last_listed id l.
Proof. unfold last_listed. rewrite rev_unit. done. Qed.

Lemma synced_last l t id p revision :
  (∀ c, connections t !! id = Some c → con_workspace_id c = wid) →
  last_listed id l = Some (p, revision) →
  (∃ c, connections (foldl sync t l) !! id = Some c ∧ mirrors id wid p revision now c)
  ∧ ∃ b, bindings (foldl sync t l) !! (id, user_id) = Some b ∧ grants p b
      ∧ credentials_of (Some b) = credentials_of (bindings t !! (id, user_id)).
Proof.
  intros Hw. induction l as [|q l IH] using rev_ind; [done|]. rewrite last_listed_snoc, foldl_snoc.
  destruct (String.eqb_spec (uuid_to_string (cp_id q.1)) id) as [E|Hn].
  - intros [= ->]. cbn in E. subst id. split; [apply (sync_row _ (p, revision)), (synced_workspace l t), Hw|].
    destruct (sync_binding (foldl sync t l) (p, revision)) as (b & Hb & Hg & Hcr).
    exists b. split_and!; [done|done|]. by rewrite Hcr, synced_credentials.
  - intros Hl. rewrite sync_row_other, sync_binding_other by (done || congruence). by apply IH.
Qed.

Lemma last_listed_Some id l : id ∈ template_ids l ↔ is_Some (last_listed id l).
Proof.
  induction l as [|p l IH] using rev_ind; [split; [by intros ?%not_elem_of_nil|by intros []]|].
  rewrite last_listed_snoc. unfold template_ids in *. rewrite map_app, elem_of_app, IH. cbn.
  rewrite list_elem_of_singleton. destruct (String.eqb_spec (uuid_to_string (cp_id p.1)) id); naive_solver.
Qed.
End templates.

(** ** The transaction *)

Lemma withdrawn_row wid incoming now t id :
  connections (withdraw wid incoming now t) !! id =
    (λ c, if withdrawn wid incoming id c
          then set_con_deleted (con_revision c) (con_sync_status c) (rfc3339 now) c else c)
      <$> connections t !! id.
Proof. unfold withdraw. cbn. rewrite map_lookup_imap. by destruct (connections t !! id). Qed.

Lemma withdrawn_binding wid incoming now t id account :
  bindings (withdraw wid incoming now t) !! (id, account) =
    b ← bindings t !! (id, account);
    match connections t !! id with
    | Some c => if withdrawn wid incoming id c then None else Some b
    | None => Some b
    end.
Proof. unfold withdraw. cbn. by rewrite map_lookup_imap. Qed.

Lemma one_of_elem l s : one_of l s = true ↔ s ∈ l.
Proof.
  unfold one_of. rewrite existsb_exists, list_elem_of_In. split; [|intros; exists s; by rewrite String.eqb_refl].
  by intros (x & Hx & ->%String.eqb_eq).
Qed.

(** A template of the workspace that is not withdrawn. *)
Definition live_template (t : ConnectionTables) (wid id : string) : Prop :=
  ∃ c, live_row t id wid = Some c ∧ is_remote c = true.

Lemma withdrawn_listed wid l id c : id ∈ template_ids l → withdrawn wid (template_ids l) id c = false.
Proof.
  intros Hl%one_of_elem. unfold withdrawn. by rewrite Hl, andb_false_r.
Qed.
Lemma withdrawn_unlisted wid l id c :
  id ∉ template_ids l → withdrawn wid (template_ids l) id c = (con_workspace_id c =? wid)%string && is_remote c.
Proof.
  intros Hl. unfold withdrawn. destruct (one_of (template_ids l) id) eqn:E; [by apply one_of_elem in E|].
  apply andb_true_r.
Qed.

(** C18. A list of templates from the server is taken over exactly.  If no template
    belongs to another workspace, then afterwards the live templates of the
    workspace are those of the list; each shows what its last entry says, revision
    included, and the account's binding grants what the server granted and keeps
    the credentials the account entered; connections that are not on the list are
    withdrawn when they are templates of this workspace and untouched otherwise.
    ([store/mod.rs], [sync_remote_connections].) *)
Theorem remote_sync_mirrors_server workspace_id user_id l now t removed t' :
  Forall (λ p, remote_owner_ok workspace_id p.1 t = Ok tt) l →
  sync_remote_connections workspace_id user_id l now t = (removed, t') →
  let wid := uuid_to_string workspace_id in
  (∀ id, live_template t' wid id ↔ id ∈ template_ids l)
  ∧ (∀ id p revision, last_listed id l = Some (p, revision) →
      (∃ c, connections t' !! id = Some c ∧ mirrors id wid p revision now c)
      ∧ ∃ b, bindings t' !! (id, user_id) = Some b ∧ grants p b
          ∧ credentials_of (Some b) = credentials_of (bindings t !! (id, user_id)))
  ∧ ∀ id c, connections t !! id = Some c → id ∉ template_ids l →
      connections t' !! id = Some
        (if (con_workspace_id c =? wid)%string && is_remote c
         then set_con_deleted (con_revision c) (con_sync_status c) (rfc3339 now) c else c).
Proof.
  intros Ho [= <- <-] wid. fold wid.
  change (map _ l) with (template_ids l). set (t0 := withdraw wid (template_ids l) now t).
  assert (∀ id c, id ∈ template_ids l → connections t !! id = Some c → con_workspace_id c = wid) as Hown.
  { intros id c (p & <- & Hp)%list_elem_of_In%in_map_iff Hc. rewrite List.Forall_forall in Ho.
    specialize (Ho p Hp). unfold remote_owner_ok in Ho. rewrite Hc in Ho. inv_res.
    by apply negb_false_iff, String.eqb_eq in Ho. }
  assert (∀ id p revision, last_listed id l = Some (p, revision) →
      (∃ c, connections (foldl (λ t p, sync_template wid user_id p.1 p.2 now t) t0 l) !! id = Some c
        ∧ mirrors id wid p revision now c)
      ∧ ∃ b, bindings (foldl (λ t p, sync_template wid user_id p.1 p.2 now t) t0 l) !! (id, user_id) = Some b
          ∧ grants p b ∧ credentials_of (Some b) = credentials_of (bindings t !! (id, user_id))) as Hlast.
  { intros id p revision Hl. assert (id ∈ template_ids l) as Hin by (apply last_listed_Some; eauto).
    assert (bindings t0 !! (id, user_id) = bindings t !! (id, user_id)) as <-.
    { unfold t0. rewrite withdrawn_binding. destruct (bindings t !! _); cbn; [|done].
      destruct (connections t !! id); [|done]. by rewrite withdrawn_listed. }
    apply synced_last; [|done]. intros c. unfold t0. rewrite withdrawn_row.
    destruct (connections t !! id) as [c0|] eqn:Hc; [|done]. cbn. rewrite withdrawn_listed by done.
    intros [= <-]. by eapply Hown. }
  split_and!; [|done|].
  - intros id. split.
    + intros (c & (Hc & Hw & Hd)%live_row_Some & Hr). destruct (decide (id ∈ template_ids l)) as [|Hn]; [done|].
      exfalso. rewrite synced_row_other in Hc by done. unfold t0 in Hc. rewrite withdrawn_row in Hc.
      destruct (connections t !! id) as [c0|]; [|done]. cbn in Hc. rewrite withdrawn_unlisted in Hc by done.
      destruct (_ && _) eqn:Hb; injection Hc as <-; [done|]. by rewrite Hr, Hw, String.eqb_refl in Hb.
    + intros Hin. apply last_listed_Some in Hin as [[p revision] Hl].
      destruct (Hlast _ _ _ Hl) as [(c & Hc & m) _]. exists c.
      destruct m as (u & x & sr & a & cr & ->). split; [by apply live_row_Some|done].
  - intros id c Hc Hn. rewrite synced_row_other by done. unfold t0.
    rewrite withdrawn_row, Hc. cbn. by rewrite withdrawn_unlisted.
Qed.

(** A template of the workspace that is not on the list. *)
Definition dropped_template (t : ConnectionTables) (wid : string) (l : list (ConnectionProfile * Z))
    (id : string) : Prop :=
  ∃ c, connections t !! id = Some c ∧ con_workspace_id c = wid ∧ is_remote c = true
       ∧ id ∉ template_ids l.

Lemma dropped_withdrawn t wid l id c :
  connections t !! id = Some c →
  withdrawn wid (template_ids l) id c = true ↔ dropped_template t wid l id.
Proof.
  intros Hc. unfold dropped_template, withdrawn. rewrite Hc, !andb_true_iff, negb_true_iff, String.eqb_eq.
  rewrite <-not_true_iff_false, one_of_elem. naive_solver.
Qed.

(** Withdrawal leaves no credentials behind: the secrets a reconciliation
    returns for deletion are exactly those the bindings of the dropped templates
    refer to, of every account; these bindings are gone; no other account's
    binding of a template that stays is touched.  ([store/mod.rs],
    [sync_remote_connections].) *)
Theorem withdrawn_secrets_returned workspace_id user_id l now t removed t' :
  sync_remote_connections workspace_id user_id l now t = (removed, t') →
  let dropped := dropped_template t (uuid_to_string workspace_id) l in
  (∀ secret, secret ∈ removed ↔
    ∃ id account b, dropped id ∧ bindings t !! (id, account) = Some b
      ∧ bnd_secret_ref b ≫= uuid_parse = Some secret)
  ∧ (∀ id account, dropped id → bindings t' !! (id, account) = None)
  ∧ ∀ id account, ¬ dropped id → account ≠ user_id →
      bindings t' !! (id, account) = bindings t !! (id, account).
Proof.
  intros [= <- <-]. cbn zeta. change (map _ l) with (template_ids l).
  set (wid := uuid_to_string workspace_id). split_and!.
  - intros secret. unfold withdrawn_credentials. rewrite elem_of_list_to_set, list_elem_of_omap. split.
    + intros ([[id account] b] & Hb%elem_of_map_to_list & H). cbn in H.
      destruct (connections t !! id) as [c|] eqn:Hc; [|done]. cbn in H.
      destruct (bnd_secret_ref b) as [s|] eqn:Hs; [|done]. cbn in H.
      destruct (withdrawn _ _ _ _) eqn:Hw; [|done].
      exists id, account, b. rewrite Hs. by rewrite <-(dropped_withdrawn _ _ _ _ _ Hc).
    + intros (id & account & b & Hd & Hb & Hs). exists ((id, account), b).
      split; [by apply elem_of_map_to_list|]. cbn. pose proof Hd as (c & Hc & _).
      apply (dropped_withdrawn _ _ _ _ _ Hc) in Hd. rewrite Hc. cbn.
      destruct (bnd_secret_ref b); [|done]. cbn. by rewrite Hd.
  - intros id account Hd. pose proof Hd as (c & Hc & _ & _ & Hn).
    apply (dropped_withdrawn _ _ _ _ _ Hc) in Hd.
    rewrite synced_binding_other by by left. rewrite withdrawn_binding, Hc, Hd. by destruct (bindings t !! _).
  - intros id account Hd Hn. rewrite synced_binding_other by by right. rewrite withdrawn_binding.
    destruct (bindings t !! _); [|done]. cbn. destruct (connections t !! id) as [c|] eqn:Hc; [|done].
    destruct (withdrawn _ _ _ _) eqn:Hw; [|done]. by apply (dropped_withdrawn _ _ _ _ _ Hc) in Hw.
Qed.
End sync.

Section roundtrip.
Context {P : Platform} {Q : Sqlite} {C : ChronoSerde} {D : StrDebug}
  {L : SqliteLaws P Q} {PL : PlatformLaws P} {PI : PersonalId}.

(** ** A stored profile *)

(** A pin of a local connection just taken is current. *)
Lemma pin_is_current id require_read db pin :
  store_reachable db → pin_connection_with_access id require_read db = Ok pin →
  pc_requires_remote_rbac pin = false → is_pin_current pin db = true.
Proof.
  intros S Hp Hl.
  apply pin_inv in Hp as (wid & w & c & raw & scope & Hj & Hprof & _ & Hsc & Hid & Hrev & Hbr & Hbu & Hrem).
  cbn in *. destruct (scope_inv _ _ _ _ _ _ Hsc) as (Hw & Hkind & Hacc & Hgen & Hkey).
  destruct (generation_text db raw _ S (jn_generation _ _ _ _ _ _ _ Hj) Hgen) as [Eraw _].
  pose proof (canonical_workspace db wid w _ S (jn_selected _ _ _ _ _ _ _ Hj) Hw) as Ewid.
  destruct Hj as [Hs Hg Hr Ha Ho Hv]. unfold is_pin_current, pin_current_with_access.
  rewrite Hid, Hs. cbn. rewrite Hg. cbn. rewrite Hr. cbn.
  rewrite <-Ewid, (kind_text _ _ Hkind), Hacc, <-Eraw, Hrev, Hbr, Hbu, Ha, Hkey, Ho, Hv, <-Hrem, Hl.
  by rewrite !String.eqb_refl, !Z.eqb_refl, !bool_decide_true.
Qed.

(** The text of the parameters gives them back. *)
Lemma params_roundtrip entries s :
  NoDup entries.*1 → params_to_string entries = Ok s → params_from_str s = Some (list_to_map entries).
Proof.
  unfold params_to_string, params_from_str. intros Hn H. inv_res.
  assert (value_exact (VObject (map (λ p, (p.1, VString p.2)) entries)) = true) as He.
  { apply object_exact. split; [|by apply Forall_map, Forall_true].
    replace ((map (λ p, (p.1, VString p.2)) entries).*1) with (entries.*1); [done|].
    symmetry. apply List.map_map. }
  rewrite (json_roundtrip _ _ He H). cbn. 
  replace (mapM _ _) with (Some entries); [done|]. symmetry. apply mapM_Some, Forall2_fmap_l.
  apply Forall_Forall2_diag, Forall_true. by intros [].
Qed.

(** The columns of a profile are read back as the profile. *)
Lemma profile_row_read p extra wid account remote_id revision sync_status created_at now :
  0 ≤ cp_port p ≤ u16_max → params_from_str extra = Some (cp_extra_params p) →
  row_to_connection (uuid_to_string (cp_id p))
    (profile_row p (cp_username p) extra (cp_secret_ref p) wid account remote_id revision sync_status
       created_at now) = Ok p.
Proof.
  intros Hp He. unfold row_to_connection, parse_uuid_text. rewrite uuid_roundtrip. cbn.
  rewrite engine_codec, provider_codec, workspace_access_codec, credential_mode_codec. cbn.
  rewrite as_u16_small, He by done. by destruct p.
Qed.

Lemma upserted_inv p extra wid account now found c :
  upserted_row p extra wid account now found = Some c →
  (∃ revision created_at,
    c = profile_row p (cp_username p) extra (cp_secret_ref p) wid account None revision "dirty" created_at
          (rfc3339 now)
    ∧ revision = default 0 (con_revision <$> found) + 1).
Proof.
  unfold upserted_row. destruct found as [c0|]; [|intros [= <-]; by do 2 eexists].
  destruct (_ && _) eqn:Hb; [|done]. intros [= <-]. bools. do 2 eexists. split; [|done].
  rewrite H, H1, (proj2 (is_remote_local c0)) by done. done.
Qed.

(** What an accepted profile leaves in the store. *)
Lemma upsert_inv p entries now e db r db' :
  store_reachable db → upsert_connection p entries now e db = Ok (r, db') →
  let found := row db (uuid_to_string (cp_id p)) in
  ∃ extra wid w c, selected_row (db_scope db) = Some (wid, w) ∧ scope_open (db_scope db) wid w = true
    ∧ db_scope db' = db_scope db ∧ params_to_string entries = Ok extra
    ∧ row db' (uuid_to_string (cp_id p)) = Some c
    ∧ upserted_row p extra wid (if is_personal w then None else selected_account (db_scope db)) now found = Some c
    ∧ local_row_ok found
    ∧ is_local (cp_workspace_access p) = true ∧ is_local_mode (cp_credential_mode p) = true
    ∧ (is_personal w = false → is_Some (selected_account (db_scope db))).
Proof.
  intros S. unfold upsert_connection. intros H. inv_res.
  apply enqueue_rows in Hx7 as [Hrows _].
  match goal with H : selected_row _ ≫= _ = Some (?a, ?b) |- _ => rename a into wid, b into w, H into Hs end.
  destruct (selected_row (db_scope db)) as [[wid' w']|] eqn:Hsel; [|done]. cbn in Hs.
  destruct (scope_open _ wid' w') eqn:Ho; [|done]. injection Hs as -> ->.
  unfold parse_uuid_text in Hx3. inv_res.
  rewrite <-(canonical_workspace db wid w _ S Hsel Hx3) in Hx6.
  exists x1, wid, w, x5. unfold row. cbn. rewrite Hrows. cbn.
  rewrite lookup_insert_eq. split_and!; try done.
  - rewrite <-Hx6. f_equal. unfold is_personal.
    apply parse_kind_personal in Hx4 as [[-> ->]|[-> ->]]; cbn; [congruence|by inv_res].
  - by apply (reachable_local_ok db).
  - by apply negb_false_iff.
  - by apply negb_false_iff.
  - unfold is_personal. apply parse_kind_personal in Hx4 as [[-> ->]|[-> ->]]; cbn; [done|].
    intros _. by destruct (selected_account (db_scope db)).
Qed.

(** The columns of a scope that is open can be read. *)
Lemma open_scope_readable t wid w :
  scope_ok t → selected_account t ≠ Some "" → selected_row t = Some (wid, w) →
  scope_open t wid w = true →
  ∃ raw scope s, scope_generation t = Some raw ∧ account_scope_column w (selected_account t) = Some scope
    ∧ row_to_active_resource_scope wid (ws_kind w) (selected_account t) scope raw = Ok s.
Proof.
  intros [R _ _] Hne Hs Ho. destruct (generation_ok _ R) as [Hg Hb].
  apply selected_row_Some in Hs as [_ [Hw _]%active_workspace_row_Some].
  destruct (rp_canonical _ R _ _ Hw) as [[u ->] Hk].
  unfold scope_open, is_active_account in Ho.
  unfold row_to_active_resource_scope, account_scope_column, parse_uuid_text, is_personal in *.
  rewrite uuid_roundtrip.
  exists (pretty (generation t)). unfold parse_scope_generation. rewrite parse_i64_pretty by done. cbn.
  destruct (Z.ltb_spec (generation t) 0); [lia|].
  destruct Hk as [Hk|Hk]; rewrite Hk in *; cbn in *.
  - do 2 eexists. by split_and!.
  - destruct (selected_account t) as [v|] eqn:Ha; [|done]. cbn.
    exists v. destruct (String.eqb_spec v "") as [->|]; [by destruct Hne|]. cbn.
    rewrite String.eqb_refl. cbn. eexists. by split_and!.
Qed.

(** C19. A stored profile comes back: after a profile was saved, pinning its
    connection gives exactly that profile, every field of it, at the revision
    after the one it had; the pin may be read from and is current.  (The account,
    if one is selected, is not the empty string; a port is 16 bits wide.)
    ([store/mod.rs], [upsert_connection], [pin_connection_for_read].) *)
Theorem saved_profile_pins p entries now e db r db' :
  store_reachable db → selected_account (db_scope db) ≠ Some "" →
  0 ≤ cp_port p ≤ u16_max → NoDup entries.*1 → list_to_map entries = cp_extra_params p →
  upsert_connection p entries now e db = Ok (r, db') →
  ∃ pin, pin_connection_for_read (cp_id p) db' = Ok pin ∧ pc_profile pin = p
    ∧ is_pin_current pin db' = true
    ∧ pc_connection_revision pin
      = default 0 (con_revision <$> connections (db_connections db) !! uuid_to_string (cp_id p)) + 1.
Proof.
  intros S Hne Hp Hn He H.
  assert (store_reachable db') as S'.
  { destruct S as [t0 S]. exists t0. eapply rtc_r; [exact S|]. exists (Upsert p entries now e).
    cbn [run]. unfold commit. by rewrite H. }
  apply upsert_inv in H as (extra & wid & w & c & Hs & Ho & Hsc & Hx & Hc & Hrow & Hold & Ha & Hm & Hacc);
    [|done]. cbn zeta in *. set (id := uuid_to_string (cp_id p)) in *.
  apply (params_roundtrip _ _ Hn) in Hx. rewrite He in Hx.
  destruct (upserted_inv _ _ _ _ _ _ _ Hrow) as (revision & created_at & Ec & Erev).
  assert (con_workspace_access c = "local" ∧ con_credential_mode c = "local" ∧ is_remote c = false
    ∧ 1 ≤ con_revision c) as (Hca & Hcm & Hloc & Hrev).
  { rewrite Ec. cbn. destruct (cp_workspace_access p), (cp_credential_mode p); try done.
    split_and!; try done. rewrite Erev. destruct (row db id) as [c0|] eqn:Hc0; cbn; [|lia].
    unfold upserted_row in Hrow. destruct (_ && _) eqn:Hb; [|done]. bools.
    destruct (Hold c0 eq_refl) as (_ & _ & ?); [by apply is_remote_local|lia]. }
  destruct (open_scope_readable (db_scope db) wid w) as (raw & scope & s & Hg & Hk & Hr);
    [by apply reachable_scope|done..|].
  assert (joined id db' wid w c raw scope) as Hj.
  { split; rewrite ?Hsc; try done.
    - apply live_row_Some. split; [exact Hc|]. by rewrite Ec.
    - unfold visible_to. rewrite Hloc, Ec. cbn. destruct (is_personal w); [done|]. cbn.
      destruct (selected_account _) as [u|]; [by rewrite String.eqb_refl|by destruct Hacc]. }
  assert (row_to_connection_with_binding (pr_bound (joined_row id db' wid w c raw scope)) = Ok p) as Hprof.
  { cbn. rewrite local_profile; [rewrite Ec; by apply profile_row_read|done|by intros ? [= <-]]. }
  assert (∃ pin, pin_connection_with_access (cp_id p) true db' = Ok pin) as [pin Hpin].
  { unfold pin_connection_with_access. fold id. rewrite (joined_pin _ _ _ _ _ _ _ Hj). cbn [ok_or].
    change (∃ pin, pin_of_row (cp_id p) true (joined_row id db' wid w c raw scope) = Ok pin).
    unfold pin_of_row. rewrite Hprof. cbn. rewrite Hsc, Hr. destruct (cp_workspace_access p); try done. cbn.
    rewrite Hloc. cbn. unfold binding_revision_of, binding_updated_at_of. rewrite Hloc. cbn.
    destruct (Z.ltb_spec (con_revision c) 1); [lia|]. by eexists. }
  exists pin. split; [done|].
  pose proof (pin_inv _ _ _ _ Hpin) as (wid' & w' & c' & raw' & scope' & Hj' & Hprof' & _ & _ & _ & Hrev' & _ & _ & Hrem).
  cbn zeta in *. fold id in Hj', Hprof'.
  assert (joined_row id db' wid' w' c' raw' scope' = joined_row id db' wid w c raw scope) as E.
  { apply joined_pin in Hj, Hj'. congruence. }
  rewrite E, Hprof in Hprof'. injection Hprof' as Hp'. assert (c' = c) as -> by (by injection E).
  split_and!; [done|eapply pin_is_current; [done..|]; congruence|].
  rewrite Hrev', Ec. exact Erev.
Qed.
End roundtrip.

(** ** Witnesses *)

Module MigrationSample.
Import StoreSample.
Definition logged_in : StoreDb := after login fresh.
(** A template that still holds the credentials of an older version. *)
Definition legacy : ConnectionRow :=
  profile_row template "u" "{}" (Some "s") (uuid_to_string (uid 2)) None
    (Some (uuid_to_string (uid 3))) 1 "synced" "t" "t".
Definition legacy_db : StoreDb :=
  on_connections (on_rows <[uuid_to_string (uid 3) := legacy]>) logged_in.
End MigrationSample.

Lemma refresh_moves_credentials_witness :
  ∃ db db', sync_account_workspaces StoreSample.ada [StoreSample.team] 9 db = Ok (tt, db')
    ∧ connections (db_connections db) !! uuid_to_string (StoreSample.uid 3) = Some MigrationSample.legacy
    ∧ connections (db_connections db') !! uuid_to_string (StoreSample.uid 3)
      = Some (refreshed_row "ada" (lists_workspace [StoreSample.team]
          (con_workspace_id MigrationSample.legacy)) MigrationSample.legacy).
Proof.
  assert (is_ok (sync_account_workspaces StoreSample.ada [StoreSample.team] 9
            MigrationSample.legacy_db) = true) as H by (vm_compute; reflexivity).
  assert (connections (db_connections MigrationSample.legacy_db) !! uuid_to_string (StoreSample.uid 3)
          = Some MigrationSample.legacy) as Hc by apply lookup_insert_eq.
  revert H Hc. generalize MigrationSample.legacy_db as db. intros db H Hc.
  destruct (sync_account_workspaces _ _ _ db) as [[[] db']|] eqn:E; [|done].
  exists db, db'. split_and!; [done|done|].
  exact (proj1 (proj1 (refresh_moves_credentials _ _ _ _ _ _ E) _ _ Hc)).
Defined.

Lemma remote_sync_mirrors_server_witness :
  ∃ t removed t',
    sync_remote_connections (StoreSample.uid 2) "ada" [(StoreSample.template, 4)] 6 t = (removed, t')
    ∧ live_template t' (uuid_to_string (StoreSample.uid 2)) (uuid_to_string (StoreSample.uid 3)).
Proof.
  assert (Forall (λ p, remote_owner_ok (StoreSample.uid 2) p.1 (db_connections MigrationSample.logged_in)
                       = Ok tt) [(StoreSample.template, 4)]) as Ho
    by (constructor; [vm_compute; reflexivity|constructor]).
  revert Ho. generalize (db_connections MigrationSample.logged_in) as t. intros t Ho.
  destruct (sync_remote_connections (StoreSample.uid 2) "ada" [(StoreSample.template, 4)] 6 t)
    as [removed t'] eqn:E.
  exists t, removed, t'. split; [exact E|].
  apply (remote_sync_mirrors_server _ _ _ _ _ _ _ Ho E), list_elem_of_singleton. reflexivity.
Defined.

Lemma withdrawn_secrets_returned_witness :
  ∃ t removed t', sync_remote_connections (StoreSample.uid 2) "ada" [] 6 t = (removed, t')
    ∧ dropped_template t (uuid_to_string (StoreSample.uid 2)) [] (uuid_to_string (StoreSample.uid 3))
    ∧ bindings t' !! (uuid_to_string (StoreSample.uid 3), "ada") = None.
Proof.
  assert (dropped_template (db_connections MigrationSample.legacy_db)
            (uuid_to_string (StoreSample.uid 2)) [] (uuid_to_string (StoreSample.uid 3))) as Hd.
  { exists MigrationSample.legacy. split_and!; [apply lookup_insert_eq|done|done|apply not_elem_of_nil]. }
  revert Hd. generalize (db_connections MigrationSample.legacy_db) as t. intros t Hd.
  destruct (sync_remote_connections (StoreSample.uid 2) "ada" [] 6 t) as [removed t'] eqn:E.
  exists t, removed, t'. split_and!; [done|done|].
  by apply (withdrawn_secrets_returned _ _ _ _ _ _ _ E).
Defined.

Lemma saved_profile_pins_witness :
  ∃ db db' pin, store_reachable db
    ∧ upsert_connection StoreSample.profile [("k", "v")] 3 (StoreSample.event 20) db
      = Ok (StoreSample.profile, db')
    ∧ pin_connection_for_read (StoreSample.uid 3) db' = Ok pin ∧ pc_profile pin = StoreSample.profile.
Proof.
  pose proof (StoreSample.after_reachable StoreSample.login) as S.
  assert (is_ok (upsert_connection StoreSample.profile [("k", "v")] 3 (StoreSample.event 20)
                   MigrationSample.logged_in)
          && match selected_account (db_scope MigrationSample.logged_in) with None => true | _ => false end
          = true) as H
    by (vm_compute; reflexivity).
  change (StoreSample.after StoreSample.login StoreSample.fresh) with MigrationSample.logged_in in S.
  revert S H. generalize MigrationSample.logged_in as db. intros db S H.
  apply andb_true_iff in H as [H Ha].
  destruct (upsert_connection _ _ _ _ db) as [[r db']|] eqn:E; [|done].
  assert (r = StoreSample.profile) as ->.
  { unfold upsert_connection in E. by inv_res. }
  destruct (saved_profile_pins StoreSample.profile [("k", "v")] 3 (StoreSample.event 20) db StoreSample.profile db' S)
    as (pin & Hp & Hq & _).
  - by destruct (selected_account (db_scope db)).
  - split; vm_compute; discriminate.
  - repeat constructor; apply not_elem_of_nil.
  - reflexivity.
  - exact E.
  - by exists db, db', pin.
Defined.
