(* ===== verification/HostCalls.v ===== *)
(** * Drivers, and what the connection and workspace services call

    The driver registry and the provider rules (src-tauri/src/driver/mod.rs,
    src-tauri/src/connection/providers.rs): the registry is a list in preference
    order; [resolve] takes the driver a profile names or the first recommended one
    that supports its engine on its provider, and refuses a driver that cannot open
    the connection.

    The services of src-tauri/src/services/{connection,workspace,safety}_service.rs
    await the local store, the connection manager, the credential vault and the
    control plane.  A method is a program over [HostCall.t]; the manager's programs
    (ConnectionCache.v) run among them with their store calls answered by the
    store of StoreMethods.v ([hosted]). *)

From S2P Require Export StoreMethods ConnectionCache.

(** ** Providers *)

Module Providers.
Section providers.
Context {P : Platform}.

Definition detect (p : ConnectionProfile) : Provider.t :=
  let h := str_lower (cp_host p) in
  if str_contains "neon.tech" h then Provider.Neon
  else if str_contains "psdb.cloud" h then Provider.PlanetScale
  else if ends_with ".sql.goog" h || ends_with ".sql-psa.goog" h || ends_with ".sql-psc.goog" h
  then Provider.GcpCloudSql
  else Provider.Generic.

Definition resolve (p : ConnectionProfile) : Provider.t :=
  match cp_provider p with Provider.Auto => detect p | explicit => explicit end.

Definition is_planetscale (p : ConnectionProfile) : bool :=
  match resolve p with Provider.PlanetScale => true | _ => false end.
Definition is_mysql (engine : Engine.t) : bool :=
  match engine with Engine.Mysql => true | _ => false end.

Definition skip_fk_metadata (p : ConnectionProfile) : bool :=
  is_mysql (cp_engine p) && is_planetscale p.

(** In seconds. *)
Definition connect_timeout (p : ConnectionProfile) : Z :=
  match resolve p with Provider.Neon | Provider.GcpCloudSql => 30 | _ => 15 end.

(** What [apply_pg_tuning] sets on the connect options, in order. *)
Inductive PgTuning :=
| StatementCacheCapacity (n : Z)
| SslRootCert (path : string)
| SslRootCertFromPem (pem : string).

Definition apply_pg_tuning (p : ConnectionProfile) : list PgTuning :=
  (if str_contains "pooler.supabase.com" (str_lower (cp_host p))
   then [StatementCacheCapacity 0] else [])
  ++ match cp_extra_params p !! "sslrootcert" with Some ca => [SslRootCert ca] | None => [] end
  ++ match cp_extra_params p !! "sslrootcert_pem" with
     | Some ca => [SslRootCertFromPem ca] | None => [] end.

Inductive MySqlTuning :=
| SslModeVerifyIdentity
| SslCa (path : string)
| SslCaFromPem (pem : string)
| EnableCleartextPlugin.

Definition apply_mysql_tuning (p : ConnectionProfile) : list MySqlTuning :=
  (if is_planetscale p then [SslModeVerifyIdentity] else [])
  ++ match cp_extra_params p !! "sslrootcert" with Some ca => [SslCa ca] | None => [] end
  ++ match cp_extra_params p !! "sslrootcert_pem" with Some ca => [SslCaFromPem ca] | None => [] end
  ++ (if match resolve p with Provider.GcpCloudSql => true | _ => false end
         && one_of ["verify-ca"; "verify-full"] (cp_sslmode p)
         && bool_decide (is_Some (cp_extra_params p !! "sslrootcert_pem"))
      then [EnableCleartextPlugin] else []).
End providers.
End Providers.

(** ** Drivers *)

Module Driver.
Inductive DriverInstallMode := Bundled | Managed.
Inductive DriverInstallState := Installed | Available | Planned.
Inductive DriverCapability :=
| Sql | DocumentQuery | Transactions | Introspection | Collections | SchemaDiff | Monitoring.
Inductive RuntimeAdapter := AdapterPostgres | AdapterMysql | AdapterSqlite | AdapterMongodb.

Record DriverDescriptor := {
  dd_id : string; dd_name : string; dd_engine : Engine.t; dd_version : string;
  dd_install_mode : DriverInstallMode; dd_install_state : DriverInstallState;
  dd_supported_providers : list Provider.t; dd_capabilities : list DriverCapability;
  dd_recommended : bool;
}.

Record DriverDefinition := {
  df_id : string; df_name : string; df_engine : Engine.t; df_version : string;
  df_install_mode : DriverInstallMode; df_install_state : DriverInstallState;
  df_supported_providers : list Provider.t; df_capabilities : list DriverCapability;
  df_recommended : bool; df_adapter : option RuntimeAdapter;
}.

Definition SQL_CAPABILITIES : list DriverCapability :=
  [Sql; Transactions; Introspection; SchemaDiff; Monitoring].

Definition DEFINITIONS : list DriverDefinition := [
  {| df_id := "sqlx-postgres"; df_name := "SQLx PostgreSQL"; df_engine := Engine.Postgres;
     df_version := "0.8"; df_install_mode := Bundled; df_install_state := Installed;
     df_supported_providers :=
       [Provider.Generic; Provider.Neon; Provider.PlanetScale; Provider.GcpCloudSql];
     df_capabilities := SQL_CAPABILITIES; df_recommended := true;
     df_adapter := Some AdapterPostgres |};
  {| df_id := "sqlx-mysql"; df_name := "SQLx MySQL / MariaDB"; df_engine := Engine.Mysql;
     df_version := "0.8"; df_install_mode := Bundled; df_install_state := Installed;
     df_supported_providers := [Provider.Generic; Provider.PlanetScale; Provider.GcpCloudSql];
     df_capabilities := SQL_CAPABILITIES; df_recommended := true;
     df_adapter := Some AdapterMysql |};
  {| df_id := "sqlx-sqlite"; df_name := "SQLx SQLite"; df_engine := Engine.Sqlite;
     df_version := "0.8"; df_install_mode := Bundled; df_install_state := Installed;
     df_supported_providers := [Provider.Generic];
     df_capabilities := SQL_CAPABILITIES; df_recommended := true;
     df_adapter := Some AdapterSqlite |};
  {| df_id := "mongodb-rust"; df_name := "MongoDB Rust Driver"; df_engine := Engine.Mongodb;
     df_version := "3.2"; df_install_mode := Bundled; df_install_state := Installed;
     df_supported_providers := [Provider.Generic];
     df_capabilities := [DocumentQuery; Collections; Introspection]; df_recommended := true;
     df_adapter := Some AdapterMongodb |}
].

Definition descriptor (self : DriverDefinition) : DriverDescriptor := {|
  dd_id := df_id self; dd_name := df_name self; dd_engine := df_engine self;
  dd_version := df_version self; dd_install_mode := df_install_mode self;
  dd_install_state := df_install_state self;
  dd_supported_providers := df_supported_providers self;
  dd_capabilities := df_capabilities self; dd_recommended := df_recommended self |}.

#[export] Instance provider_eq_dec : EqDecision Provider.t.
Proof. solve_decision. Defined.

Definition supports (self : DriverDefinition) (engine : Engine.t) (provider : Provider.t) : bool :=
  bool_decide (df_engine self = engine) && bool_decide (provider ∈ df_supported_providers self).

Definition list_drivers : list DriverDescriptor := map descriptor DEFINITIONS.

(** The derived [Debug] of the enumerations. *)
Definition engine_debug (engine : Engine.t) : string :=
  match engine with
  | Engine.Postgres => "Postgres" | Engine.Mysql => "Mysql" | Engine.Sqlite => "Sqlite"
  | Engine.Mongodb => "Mongodb"
  end.
Definition provider_debug (provider : Provider.t) : string :=
  match provider with
  | Provider.Auto => "Auto" | Provider.Generic => "Generic" | Provider.Neon => "Neon"
  | Provider.PlanetScale => "PlanetScale" | Provider.GcpCloudSql => "GcpCloudSql"
  end.

Section driver.
Context {P : Platform} {D : StrDebug}.

Definition find_driver (id : string) : AppResult DriverDefinition :=
  ok_or (Config ("unknown database driver " +:+ str_debug id))
    (List.find (λ driver, df_id driver =? id)%string DEFINITIONS).

Definition resolve (profile : ConnectionProfile) : AppResult DriverDefinition :=
  let provider := Providers.resolve profile in
  let engine := cp_engine profile in
  selected ←
    match cp_driver_id profile with
    | Some id => find_driver id
    | None =>
        ok_or (Config ("no installed driver supports " +:+ engine_debug engine +:+ " on "
                       +:+ provider_debug provider))
          (List.find (λ driver, df_recommended driver && supports driver engine provider) DEFINITIONS)
    end;
  _ ← reject_if (negb (supports selected engine provider))
        (Config ("driver " +:+ str_debug (df_id selected) +:+ " does not support "
                 +:+ engine_debug engine +:+ " on " +:+ provider_debug provider));
  _ ← match df_install_state selected with
      | Installed => Ok tt
      | Available => Err (Config ("driver " +:+ str_debug (df_id selected)
                                  +:+ " must be installed before connecting"))
      | Planned => Err (Config ("driver " +:+ str_debug (df_id selected)
                                +:+ " is planned but not available in this build"))
      end;
  _ ← reject_if (bool_decide (df_adapter selected = None))
        (Config ("installed driver " +:+ str_debug (df_id selected)
                 +:+ " has no runtime adapter in this build"));
  Ok selected.

Definition validate (profile : ConnectionProfile) : AppResult DriverDescriptor :=
  selected ← resolve profile; Ok (descriptor selected).

Definition install (id : string) : AppResult DriverDescriptor :=
  driver ← find_driver id;
  match df_install_state driver with
  | Planned => Err (Config ("driver " +:+ str_debug (df_id driver)
                            +:+ " is planned but not available in this build"))
  | _ =>
      match df_install_mode driver with
      | Bundled => Ok (descriptor driver)
      | Managed => Err (Config ("managed driver pack " +:+ str_debug (df_id driver)
                                +:+ " has no verified artifact for this build"))
      end
  end.

(** [connect] up to the adapter it calls. *)
Definition connect_adapter (profile : ConnectionProfile) : AppResult RuntimeAdapter :=
  driver ← resolve profile;
  ok_or (Config ("driver " +:+ str_debug (df_id driver) +:+ " has no runtime adapter in this build"))
    (df_adapter driver).
End driver.
End Driver.

(** ** What the services call *)

Section data.
Context {P : Platform}.

(** model.rs *)
Record WorkspaceDeviceAuthorization := {
  wd_device_code : string; wd_user_code : string; wd_verification_uri_complete : string;
  wd_expires_in : Z; wd_interval : Z;
}.
Inductive WorkspaceLoginPollStatus := Pending | SlowDown | SignedIn | Denied | Expired.
Record WorkspaceLoginPoll := {
  lp_status : WorkspaceLoginPollStatus; lp_user : option WorkspaceAuthUser;
}.
Record WorkspaceAuthState := {
  au_authenticated : bool; au_user : option WorkspaceAuthUser;
  au_accounts : list Store.WorkspaceAuthAccount;
}.
End data.

Module HostCall.
Section call.
Context {P : Platform}.

Inductive t :=
(** store/mod.rs, and what it takes from the random source and from the iteration
    order of a [HashMap] *)
| Db (c : StoreCall.t)
| ParamEntries (params : gmap string string)
(** connection/{mod,runtime}.rs with the gate, the pools, the clock and
    [ConnectionCredentialVault::fetch_profile] *)
| Manager (c : CacheCall.t)
(** services/connection_credentials.rs *)
| StoreSecret (id : Uuid) (secret : string)
| DeleteSecret (id : Uuid)
(** driver/mod.rs: the adapter's [connect] *)
| ConnectAdapter (adapter : Driver.RuntimeAdapter) (profile : ConnectionProfile) (secret : string)
(** workspace_auth.rs *)
| AuthUser (user_id : string)
| MigrateLegacySession
| SignOut (user_id : string)
| BeginLogin
| PollLogin (device_code : string)
| RemoteWorkspaces (user_id : string)
| RemoteConnections (user_id : string) (workspace_id : Uuid)
| ShareConnection (user_id : string) (workspace_id : Uuid) (profile : ConnectionProfile)
| DeleteRemoteConnection (user_id : string) (workspace_id connection_id : Uuid).

Definition res (c : t) : Type :=
  match c with
  | Db c => StoreCall.res c
  | ParamEntries _ => list (string * string)
  | Manager c => CacheCall.res c
  | StoreSecret _ _ | DeleteSecret _ => AppResult unit
  | ConnectAdapter _ _ _ => AppResult Live
  | AuthUser _ | MigrateLegacySession => AppResult (option WorkspaceAuthUser)
  | SignOut _ | DeleteRemoteConnection _ _ _ => AppResult unit
  | BeginLogin => AppResult WorkspaceDeviceAuthorization
  | PollLogin _ => AppResult WorkspaceLoginPoll
  | RemoteWorkspaces _ => AppResult (list (Uuid * string * WorkspaceRole.t))
  | RemoteConnections _ _ => AppResult (option (list (ConnectionProfile * Z)))
  | ShareConnection _ _ _ => AppResult (ConnectionProfile * Z)
  end.
End call.
End HostCall.
Export (hints) HostCall.

Abbreviation host_program A := (prog HostCall.res A).

Section hosted.
Context {P : Platform} {Q : Sqlite}.
Local Open Scope prog_scope.
Local Abbreviation do := (call (Res := HostCall.res)).

(** A method of the store among the calls of a service. *)
Fixpoint in_store {A} (p : store_program A) : host_program A :=
  match p with Ret a => Ret a | Vis c k => Vis (HostCall.Db c) (λ r, in_store (k r)) end.

(** The calls of the manager that the store answers. *)
Definition hosted_call (c : CacheCall.t) : host_program (CacheCall.res c) :=
  match c with
  | Service c' =>
      match c' return host_program (Call.res c') with
      | Call.PinForRead id => do (HostCall.Db (Pin id true))
      | Call.PinForView id => do (HostCall.Db (Pin id false))
      | Call.IsPinCurrent pin => current ← do (HostCall.Db (PinCurrent pin)); Ret (Ok current)
      | c' => do (HostCall.Manager (Service c'))
      end
  | c => do (HostCall.Manager c)
  end.

Fixpoint hosted {A} (p : cache_program A) : host_program A :=
  match p with Ret a => Ret a | Vis c k => hosted_call c ≫= λ r, hosted (k r) end.

Definition host_uuid : host_program Uuid := do (HostCall.Manager (Service Call.NewUuid)).
Definition host_now : host_program DateTime := do (HostCall.Manager (Service Call.Now)).
Definition outbox_event : host_program Event :=
  id ← host_uuid; now ← host_now; Ret {| StoreConnections.ev_id := id; ev_now := now |}.
Fixpoint outbox_events (ids : list Uuid) : host_program (list (Uuid * Event)) :=
  match ids with
  | [] => Ret []
  | id :: ids => e ← outbox_event; l ← outbox_events ids; Ret ((id, e) :: l)
  end.

(** ** Methods of the store that read the clock or the random source *)

Definition store_upsert_connection (p : ConnectionProfile) : host_program (AppResult ConnectionProfile) :=
  now ← host_now;
  entries ← do (HostCall.ParamEntries (cp_extra_params p));
  e ← outbox_event;
  do (HostCall.Db (Upsert p entries now e)).

Definition store_set_connections_schema_group (ids : list Uuid) (group : option string)
  : host_program (AppResult unit) :=
  ids ← outbox_events ids;
  now ← host_now;
  in_store (Store.set_connections_schema_group ids group now).

Definition store_delete_connection (id : Uuid) : host_program (AppResult unit) :=
  now ← host_now;
  e ← outbox_event;
  in_store (Store.delete_connection id now e).

Definition store_bind_connection_credentials (id : Uuid) (user_id username : string)
    (extra_params : gmap string string) (secret_ref : option string)
  : host_program (AppResult ConnectionProfile) :=
  now ← host_now;
  entries ← do (HostCall.ParamEntries extra_params);
  in_store (Store.bind_connection_credentials id user_id username entries secret_ref now).

(** The membership row of each workspace gets a fresh identifier. *)
Fixpoint with_member_ids (l : list (Uuid * string * WorkspaceRole.t)) : host_program (list RemoteWorkspace) :=
  match l with
  | [] => Ret []
  | (id, name, role) :: l =>
      member ← host_uuid;
      l ← with_member_ids l;
      Ret ({| rw_id := id; rw_name := name; rw_role := role; rw_member_id := member |} :: l)
  end.

(** ** [ConnectionManager] over the store *)

(** The write side of the gate, until [retire_connections] publishes the change or
    the guard is dropped. *)
Definition begin_scope_mutation : host_program unit :=
  do (HostCall.Manager GateWrite).

Definition drop_guard : host_program unit := do (HostCall.Manager GateRelease).

Definition begin_connection_mutation (id : Uuid) (access : ConnectionAccess.t)
  : host_program (AppResult PinnedConnection) :=
  _ ← do (HostCall.Manager GateWrite);
  pinned ← hosted (lift (manager_pin id access));
  match pinned with
  | Ok context => Ret (Ok (cx_pin context))
  | Err error => _ ← drop_guard; Ret (Err error)
  end.

Definition retire_connections (ids : list Uuid) : host_program unit :=
  hosted (publish_change (of_connections ids)).

(** [ConnectionManager::pin] *)
Definition host_pin (id : Uuid) (access : ConnectionAccess.t) : host_program (AppResult ConnectionContext) :=
  hosted (gated_pin id access).

(** A scope change: the store's transaction under the gate, then every pool is
    retired. *)
Definition publishing {A} (change : host_program (AppResult A)) : host_program (AppResult A) :=
  _ ← do (HostCall.Manager GateWrite);
  changed ← change;
  match changed with
  | Ok a => _ ← hosted (publish_change (λ _, true)); Ret (Ok a)
  | Err error => _ ← drop_guard; Ret (Err error)
  end.

Definition manager_activate_workspace (id : Uuid) (account_user_id : option string)
  : host_program (AppResult Workspace) :=
  publishing (now ← host_now; do (HostCall.Db (Activate id account_user_id now))).
Definition manager_activate_workspace_account (user_id : string) : host_program (AppResult Workspace) :=
  publishing (now ← host_now; in_store (Store.activate_workspace_account user_id now)).
Definition manager_remove_workspace_account (user_id : string) : host_program (AppResult unit) :=
  publishing (now ← host_now; do (HostCall.Db (RemoveAccount user_id now))).
Definition manager_sync_account_workspaces (user : WorkspaceAuthUser)
    (workspaces : list (Uuid * string * WorkspaceRole.t)) : host_program (AppResult unit) :=
  publishing (t0 ← host_now;
              workspaces ← with_member_ids workspaces;
              now ← host_now;
              in_store (Store.sync_account_workspaces user workspaces t0 now)).
Definition manager_sync_remote_connections (workspace_id : Uuid) (account_user_id : string)
    (connections : list (ConnectionProfile * Z)) : host_program (AppResult (gset Uuid)) :=
  publishing (now ← host_now;
              in_store (Store.sync_remote_connections workspace_id account_user_id connections now)).
End hosted.
