(* ===== verification/ConnectionService.v ===== *)
(** * The connection service (src-tauri/src/services/connection_service.rs)

    Saving, grouping, deleting and testing local connections with the rotation of
    their credentials, the summaries agents see and the selectors that name a
    connection. *)

From S2P Require Export SqlScript Dispatch HostCalls.

(** services/connection_credentials.rs *)
Definition MAX_CONNECTION_CREDENTIAL_BYTES : N := 2 ^ 16.

(** A step of a method that holds the write side of the gate: an error drops the
    guard. *)
Section guarded.
Context {P : Platform}.
Definition guarded_step {A B} (m : host_program (AppResult A)) (k : A → host_program (AppResult B))
  : host_program (AppResult B) :=
  r ← m; match r with Ok a => k a | Err error => _ ← drop_guard; Ret (Err error) end.
Definition guarded_check {A B} (r : AppResult A) (k : A → host_program (AppResult B))
  : host_program (AppResult B) := guarded_step (Ret r) k.
End guarded.
Notation "'hold' x ← m ; k" := (guarded_step m (λ x, k))
  (at level 200, x binder, m at level 100, k at level 200,
   format "'hold'  x  ←  m ;  '//' k") : prog_scope.
Notation "'hold_check' x ← r ; k" := (guarded_check r (λ x, k))
  (at level 200, x binder, r at level 100, k at level 200,
   format "'hold_check'  x  ←  r ;  '//' k") : prog_scope.

Section profiles.
Context {P : Platform}.

Definition with_secret_ref (p : ConnectionProfile) (secret_ref : option string) : ConnectionProfile :=
  with_binding p (cp_username p) (cp_extra_params p) secret_ref (cp_workspace_access p)
    (cp_allow_writes p).

Definition with_schema_group (p : ConnectionProfile) (schema_group : option string)
  : ConnectionProfile := {|
  cp_id := cp_id p; cp_name := cp_name p; cp_engine := cp_engine p; cp_provider := cp_provider p;
  cp_driver_id := cp_driver_id p; cp_host := cp_host p; cp_port := cp_port p;
  cp_database := cp_database p; cp_username := cp_username p; cp_sslmode := cp_sslmode p;
  cp_extra_params := cp_extra_params p; cp_readonly_default := cp_readonly_default p;
  cp_allow_writes := cp_allow_writes p; cp_secret_ref := cp_secret_ref p; cp_env := cp_env p;
  cp_schema_group := schema_group; cp_workspace_access := cp_workspace_access p;
  cp_credential_mode := cp_credential_mode p |}.

(** [impl From<&ConnectionProfile> for AgentConnectionSummary] *)
Definition agent_summary (profile : ConnectionProfile) : AgentConnectionSummary := {|
  acs_id := cp_id profile; acs_name := cp_name profile; acs_engine := cp_engine profile;
  acs_database := cp_database profile; acs_environment := cp_env profile;
  acs_readonly := cp_readonly_default profile; acs_allow_writes := cp_allow_writes profile |}.

Inductive LegacyConnectionResolutionError :=
| NoConnections
| NoLegacyMatch (selector : string).

(** [Display] *)
Definition cli_resolution_error (error : CliConnectionResolutionError) : string :=
  match error with
  | NoMatch => "no connection matches the exact selector"
  | Ambiguous _ => "the exact connection name matches more than one connection"
  end.
Definition legacy_resolution_error (error : LegacyConnectionResolutionError) : string :=
  match error with
  | NoConnections => "no connections are available"
  | NoLegacyMatch selector => "no connection matches selector '" +:+ selector +:+ "'"
  end.

(** ** Schema groups *)

Definition normalize_schema_group (schema_group : option string) : option string :=
  value ← schema_group;
  let trimmed := trim value in
  if (trimmed =? "")%string then None else Some trimmed.

(** A member of the group on another engine. *)
Definition other_engine (profile : ConnectionProfile) (group : string)
    (connection : ConnectionProfile) : bool :=
  negb (bool_decide (cp_id connection = cp_id profile))
  && match cp_schema_group connection with
     | Some candidate => eq_ignore_ascii_case (trim candidate) group
     | None => false
     end
  && negb (bool_decide (cp_engine connection = cp_engine profile)).

Definition validate_schema_group_engine (profile : ConnectionProfile)
    (connections : list ConnectionProfile) : AppResult unit :=
  match cp_schema_group profile with
  | None => Ok tt
  | Some group =>
      reject_if (existsb (other_engine profile group) connections)
        (Config ("schema group '" +:+ group +:+ "' already contains a different database engine"))
  end.

(** ** Selectors *)

Definition resolve_legacy_profiles (profiles : list ConnectionProfile) (selector : option string)
  : result LegacyConnectionResolutionError AgentConnectionSummary :=
  match selector with
  | Some selector =>
      ok_or (NoLegacyMatch selector)
        (agent_summary <$> List.find (λ profile, (uuid_to_string (cp_id profile) =? selector)%string
                                                 || (cp_name profile =? selector)%string) profiles)
  | None => ok_or NoConnections (agent_summary <$> head profiles)
  end.

(** [Uuid]'s order is the order of its hyphenated text. *)
Definition by_id (x y : AgentConnectionSummary) : comparison :=
  string_cmp (uuid_to_string (acs_id x)) (uuid_to_string (acs_id y)).

Definition resolve_cli_summaries (summaries : list AgentConnectionSummary)
    (selector : ConnectionSelector) (current_connection_id : Uuid)
  : result CliConnectionResolutionError AgentConnectionSummary :=
  match selector with
  | Commands.Id id =>
      ok_or NoMatch (List.find (λ summary, bool_decide (acs_id summary = id)) summaries)
  | Current =>
      ok_or NoMatch (List.find (λ summary, bool_decide (acs_id summary = current_connection_id)) summaries)
  | Name name =>
      match sort_by by_id (List.filter (λ summary, acs_name summary =? name)%string summaries) with
      | [only] => Ok only
      | [] => Err NoMatch
      | candidates => Err (Ambiguous candidates)
      end
  end.
End profiles.

Module ConnectionService.
Section service.
Context {P : Platform} {Q : Sqlite} {D : StrDebug}.
Local Open Scope prog_scope.
Local Abbreviation do := (call (Res := HostCall.res)).

(** A failure is logged. *)
Definition delete_secret_best_effort (id : Uuid) : host_program unit :=
  _ ← do (HostCall.DeleteSecret id); Ret tt.
Definition delete_optional_secret (id : option Uuid) : host_program unit :=
  match id with Some id => delete_secret_best_effort id | None => Ret tt end.

(** The credential the stored profile points at. *)
Definition existing_secret_id (id : Uuid) (connections : list ConnectionProfile)
  : AppResult (option Uuid) :=
  match (connection ← List.find (λ connection, bool_decide (cp_id connection = id)) connections;
         cp_secret_ref connection) with
  | None => Ok None
  | Some secret_ref =>
      existing ← ok_or (Config "stored connection secret reference is invalid") (uuid_parse secret_ref);
      Ok (Some existing)
  end.

Definition non_empty (password : option string) : option string :=
  password ← password; if (password =? "")%string then None else Some password.

Definition too_long (password : option string) : bool :=
  match password with
  | Some value => (MAX_CONNECTION_CREDENTIAL_BYTES <? str_len value)%N
  | None => false
  end.

(** A new item for a new password. *)
Definition write_replacement (password : option string) : host_program (AppResult (option Uuid)) :=
  match password with
  | Some password =>
      replacement ← host_uuid;
      try _ ← do (HostCall.StoreSecret replacement password) or id;
      Ret (Ok (Some replacement))
  | None => Ret (Ok None)
  end.

Definition upsert (profile : ConnectionProfile) (password : option string)
  : host_program (AppResult ConnectionProfile) :=
  if negb (is_local (cp_workspace_access profile))
  then Ret (Err (Blocked
    "shared templates are edited by workspace editors; bind credentials separately"))
  else
  let profile := with_schema_group profile (normalize_schema_group (cp_schema_group profile)) in
  check _ ← Driver.validate profile or id;
  _ ← begin_scope_mutation;
  hold _ ← in_store (Store.ensure_connection_write_scope (cp_id profile));
  hold connections ← in_store Store.list_connections;
  hold_check _ ← validate_schema_group_engine profile connections;
  hold_check existing ← existing_secret_id (cp_id profile) connections;
  let password := non_empty password in
  hold_check _ ← reject_if (too_long password)
    (Config "connection credential exceeds the size limit");
  let profile := with_secret_ref profile (uuid_to_string <$> existing) in
  hold written ← write_replacement password;
  let profile := match written with
                 | Some replacement => with_secret_ref profile (Some (uuid_to_string replacement))
                 | None => profile
                 end in
  upserted ← store_upsert_connection profile;
  match upserted with
  | Ok profile =>
      _ ← in_store (Store.clear_schema_cache (cp_id profile));
      _ ← retire_connections [cp_id profile];
      _ ← (if written then delete_optional_secret existing else Ret tt);
      Ret (Ok profile)
  | Err error =>
      _ ← delete_optional_secret written;
      _ ← drop_guard;
      Ret (Err error)
  end.

(** The ids in order, each once. *)
Definition unique_ids (ids : list Uuid) : list Uuid :=
  foldl (λ unique id, if bool_decide (id ∈ unique) then unique else unique ++ [id]) [] ids.

Definition connection_with (id : Uuid) (connections : list ConnectionProfile)
  : AppResult ConnectionProfile :=
  ok_or (connection_not_found id)
    (List.find (λ profile, bool_decide (cp_id profile = id)) connections).

(** [iter_mut().find]: the first profile of the id is the one that changes. *)
Fixpoint regroup (id : Uuid) (group : option string) (connections : list ConnectionProfile)
  : list ConnectionProfile :=
  match connections with
  | [] => []
  | profile :: connections =>
      if bool_decide (cp_id profile = id) then with_schema_group profile group :: connections
      else profile :: regroup id group connections
  end.

Fixpoint regroup_all (ids : list Uuid) (group : option string) (connections : list ConnectionProfile)
  : AppResult (list ConnectionProfile) :=
  match ids with
  | [] => Ok connections
  | id :: ids =>
      profile ← connection_with id connections;
      _ ← reject_if (negb (is_local (cp_workspace_access profile)))
            (Blocked "shared template metadata must be changed through the workspace service");
      regroup_all ids group (regroup id group connections)
  end.

Fixpoint validate_all (profiles connections : list ConnectionProfile) : AppResult unit :=
  match profiles with
  | [] => Ok tt
  | profile :: profiles =>
      _ ← validate_schema_group_engine profile connections; validate_all profiles connections
  end.

Definition set_schema_group (ids : list Uuid) (schema_group : option string)
  : host_program (AppResult (list ConnectionProfile)) :=
  let ids := unique_ids ids in
  match ids with
  | [] => Ret (Ok [])
  | _ =>
      _ ← begin_scope_mutation;
      let normalized := normalize_schema_group schema_group in
      hold connections ← in_store Store.list_connections;
      hold_check connections ← regroup_all ids normalized connections;
      hold_check updated ← mapM (λ id, connection_with id connections) ids;
      hold_check _ ← validate_all updated connections;
      hold _ ← store_set_connections_schema_group ids normalized;
      _ ← retire_connections ids;
      Ret (Ok updated)
  end.

Definition delete (id : Uuid) : host_program (AppResult unit) :=
  try pin ← begin_connection_mutation id ConnectionAccess.Read or Datatypes.id;
  let profile := pc_profile pin in
  hold_check _ ← reject_if (negb (is_local (cp_workspace_access profile)))
    (Blocked "shared connections can only be removed by a workspace administrator");
  hold _ ← store_delete_connection id;
  _ ← delete_optional_secret (secret_ref ← cp_secret_ref profile; uuid_parse secret_ref);
  _ ← retire_connections [id];
  Ret (Ok tt).

Definition test (id : Uuid) : host_program (AppResult unit) :=
  try profile ← in_store (Store.get_connection id) or Datatypes.id;
  if negb (WorkspaceConnectionAccess.can_read (cp_workspace_access profile))
  then Ret (Err (Blocked "your workspace role cannot test this shared connection"))
  else
  hold context ← host_pin id ConnectionAccess.Read;
  r ← hosted (test_fresh context);
  _ ← drop_guard;
  Ret r.

(** driver/mod.rs, [connect] *)
Definition driver_connect (profile : ConnectionProfile) (secret : string) : host_program (AppResult Live) :=
  check adapter ← Driver.connect_adapter profile or id;
  do (HostCall.ConnectAdapter adapter profile secret).

Definition test_profile (profile : ConnectionProfile) (password : option string)
  : host_program (AppResult unit) :=
  if negb (is_local (cp_workspace_access profile)) || negb (is_local_mode (cp_credential_mode profile))
  then Ret (Err (Blocked "shared connections must be tested through workspace authorization"))
  else
  let secret := default "" password in
  if (MAX_CONNECTION_CREDENTIAL_BYTES <? str_len secret)%N
  then Ret (Err (Config "connection credential exceeds the size limit"))
  else
  try live ← driver_connect profile secret or id;
  do (HostCall.Manager (TestLive live)).

Definition list_agent_summaries : host_program (AppResult (list AgentConnectionSummary)) :=
  try profiles ← in_store Store.list_connections or id;
  Ret (Ok (map agent_summary profiles)).

(** A terminal's pin, checked against its capability; the read guard is held. *)
Definition terminal_pin (authority : TerminalAuthority) : host_program (AppResult ConnectionContext) :=
  hold context ← host_pin (ta_connection_id authority) ConnectionAccess.Read;
  hold_check _ ← ensure_pin authority (cx_pin context);
  Ret (Ok context).

Definition terminal_summary (authority : TerminalAuthority)
  : host_program (AppResult AgentConnectionSummary) :=
  try context ← terminal_pin authority or id;
  _ ← drop_guard;
  Ret (Ok (agent_summary (pc_profile (cx_pin context)))).

Definition list_terminal_summaries (authority : TerminalAuthority)
  : host_program (AppResult (list AgentConnectionSummary)) :=
  try context ← terminal_pin authority or id;
  _ ← drop_guard;
  Ret (Ok [agent_summary (pc_profile (cx_pin context))]).

Definition test_terminal (authority : TerminalAuthority) : host_program (AppResult unit) :=
  try context ← terminal_pin authority or id;
  r ← hosted (test_fresh context);
  _ ← drop_guard;
  Ret r.

Definition resolve_legacy_mcp (selector : option string)
  : host_program (AppResult (result LegacyConnectionResolutionError AgentConnectionSummary)) :=
  try profiles ← in_store Store.list_connections or id;
  Ret (Ok (resolve_legacy_profiles profiles selector)).

Definition resolve_terminal_cli (authority : TerminalAuthority) (selector : ConnectionSelector)
  : host_program (AppResult (result CliConnectionResolutionError AgentConnectionSummary)) :=
  try context ← terminal_pin authority or id;
  hold summaries ← list_agent_summaries;
  _ ← drop_guard;
  Ret (Ok (resolve_cli_summaries summaries selector (ta_connection_id authority))).
End service.
End ConnectionService.

(** ** Properties of drivers, selectors, schema groups and safety limits *)

(** ** Drivers *)

Section drivers.
Context {P : Platform} {D : StrDebug}.

Definition adapter_of (engine : Engine.t) : Driver.RuntimeAdapter :=
  match engine with
  | Engine.Postgres => Driver.AdapterPostgres
  | Engine.Mysql => Driver.AdapterMysql
  | Engine.Sqlite => Driver.AdapterSqlite
  | Engine.Mongodb => Driver.AdapterMongodb
  end.

(** Every driver of the registry is ready and speaks its engine's protocol. *)
Lemma registry_ready d : d ∈ Driver.DEFINITIONS →
  Driver.df_adapter d = Some (adapter_of (Driver.df_engine d))
  ∧ Driver.df_install_state d = Driver.Installed ∧ Driver.df_recommended d = true.
Proof. unfold Driver.DEFINITIONS. rewrite !elem_of_cons. intros [->|[->|[->|[->|H]]]]; [done..|]. by apply not_elem_of_nil in H. Qed.

Lemma find_driver_in id d : Driver.find_driver id = Ok d → d ∈ Driver.DEFINITIONS ∧ Driver.df_id d = id.
Proof.
  unfold Driver.find_driver. destruct (List.find _ _) as [d'|] eqn:Hf; [|done]. intros [= <-].
  apply find_some in Hf as [Hin Hid]. split; [by apply list_elem_of_In|by apply String.eqb_eq].
Qed.

(** The driver a profile is opened with fits it: it is of the profile's engine,
    supports its provider and calls that engine's adapter, and it is the one the
    profile names, if it names one. *)
Theorem resolved_driver_fits p d :
  Driver.resolve p = Ok d →
  Driver.df_engine d = cp_engine p ∧ Providers.resolve p ∈ Driver.df_supported_providers d
  ∧ Driver.connect_adapter p = Ok (adapter_of (cp_engine p))
  ∧ ∀ id, cp_driver_id p = Some id → Driver.df_id d = id.
Proof.
  intros H. pose proof H as H'. unfold Driver.resolve in H. inv_res.
  assert (d ∈ Driver.DEFINITIONS ∧ ∀ id, cp_driver_id p = Some id → Driver.df_id d = id) as [Hin Hid].
  { destruct (cp_driver_id p) as [id|].
    - apply find_driver_in in Hx as [? ?]. split; [done|]. by intros ? [= <-].
    - destruct (List.find _ _) as [d'|] eqn:Hf; [|done]. injection Hx as <-.
      apply find_some in Hf as [Hf _]. split; [by apply list_elem_of_In|done]. }
  apply negb_false_iff in Hx0. unfold Driver.supports in Hx0. bools. split_and!; [done..| |done].
  unfold Driver.connect_adapter. rewrite H'. cbn. destruct (registry_ready _ Hin) as (-> & _). cbn. congruence.
Qed.
End drivers.

(** ** Selectors *)

Section selectors.
Context {P : Platform}.

Definition named (name : string) (summaries : list AgentConnectionSummary) : list AgentConnectionSummary :=
  List.filter (λ summary, acs_name summary =? name)%string summaries.

(** An exact name selects a connection only if it is the only one of that name;
    otherwise the candidates are all of that name, in the order of their ids. *)
Theorem cli_name_unambiguous summaries name current :
  match resolve_cli_summaries summaries (Name name) current with
  | Ok summary => named name summaries = [summary]
  | Err NoMatch => named name summaries = []
  | Err (Ambiguous candidates) => candidates ≡ₚ named name summaries ∧ (2 ≤ length candidates)%nat
      ∧ StronglySorted (λ x y, by_id x y ≠ Gt) candidates
  end.
Proof.
  cbn. pose proof (sort_by_perm by_id (named name summaries)) as Hp.
  assert (TotalCmp by_id) as Ht.
  { unfold by_id. apply _. }
  pose proof (sort_by_sorted by_id (named name summaries)) as Hs. unfold named in *.
  destruct (sort_by by_id _) as [|x [|y l]].
  - by apply Permutation_nil_l in Hp.
  - by apply Permutation_singleton_l in Hp as <-.
  - split_and!; [done|cbn; lia|exact Hs].
Qed.
End selectors.

(** ** Schema groups *)

Section groups.
Context {P : Platform}.
Import ConnectionService.
Implicit Types cs : list ConnectionProfile.

Definition same_group (x y : ConnectionProfile) : Prop :=
  ∃ gx gy, cp_schema_group x = Some gx ∧ cp_schema_group y = Some gy
         ∧ eq_ignore_ascii_case (trim gx) (trim gy) = true.

(** The connections of one group have one engine. *)
Definition homogeneous cs : Prop :=
  ∀ x y, x ∈ cs → y ∈ cs → same_group x y → cp_engine x = cp_engine y.

Lemma trim_trim s : trim (trim s) = trim s.
Proof. unfold trim. by rewrite list_ascii_of_string_of_list_ascii, SqlScript.trim_idem. Qed.

Lemma normalized_trimmed group g : normalize_schema_group group = Some g → trim g = g.
Proof.
  destruct group as [v|]; cbn; [|done]. destruct (trim v =? "")%string; [done|]. intros [= <-].
  apply trim_trim.
Qed.

Lemma same_group_sym x y : same_group x y → same_group y x.
Proof.
  intros (gx & gy & Hx & Hy & H). exists gy, gx. split_and!; [done..|].
  unfold eq_ignore_ascii_case in *. rewrite String.eqb_eq in *. done.
Qed.

Lemma regroup_ids id group cs : cp_id <$> regroup id group cs = cp_id <$> cs.
Proof. induction cs as [|c cs IH]; [done|]. cbn. case_bool_decide; csimpl; [done|]. by rewrite IH. Qed.

Lemma regroup_in id group cs c : c ∈ regroup id group cs →
  c ∈ cs ∨ cp_id c = id ∧ cp_schema_group c = group.
Proof.
  induction cs as [|c' cs IH]; cbn; [auto|]. case_bool_decide; rewrite !elem_of_cons.
  - intros [->|?]; [by right|auto].
  - intros [->|?]; [auto|]. destruct IH; auto.
Qed.

Lemma regroup_all_ids ids group cs cs' :
  regroup_all ids group cs = Ok cs' → cp_id <$> cs' = cp_id <$> cs.
Proof.
  revert cs; induction ids as [|id ids IH]; cbn; intros cs H; [by injection H as <-|].
  inv_res. apply IH in H. by rewrite H, regroup_ids.
Qed.

(** What changed is regrouped; the rest is as it was. *)
Lemma regroup_all_in ids group cs cs' c :
  regroup_all ids group cs = Ok cs' → c ∈ cs' →
  c ∈ cs ∨ cp_id c ∈ ids ∧ cp_schema_group c = group.
Proof.
  revert cs; induction ids as [|id ids IH]; cbn; intros cs H Hc; [injection H as <-; auto|].
  inv_res. destruct (IH _ H Hc) as [Hin|[? ?]]; [|right; by rewrite elem_of_cons; auto].
  destruct (regroup_in _ _ _ _ Hin) as [?|[-> ?]]; [by left|right]. by rewrite elem_of_cons; auto.
Qed.

Lemma same_id cs x y : NoDup (cp_id <$> cs) → x ∈ cs → y ∈ cs → cp_id x = cp_id y → x = y.
Proof.
  intros Hnd (i & Hi)%list_elem_of_lookup (j & Hj)%list_elem_of_lookup E.
  assert (i = j) as ->; [|congruence]. apply (NoDup_lookup _ i j (cp_id x) Hnd).
  - by rewrite list_lookup_fmap, Hi.
  - by rewrite list_lookup_fmap, Hj, E.
Qed.

Lemma validated_all profiles cs p : validate_all profiles cs = Ok tt → p ∈ profiles →
  validate_schema_group_engine p cs = Ok tt.
Proof.
  induction profiles as [|q profiles IH]; cbn; rewrite ?elem_of_cons; intros H.
  - by intros ?%not_elem_of_nil.
  - destruct (validate_schema_group_engine q cs) as [[]|] eqn:E; [|done]. intros [->|?]; auto.
Qed.

Lemma validated_engine p cs q : validate_schema_group_engine p cs = Ok tt → q ∈ cs →
  (∀ g, cp_schema_group p = Some g → trim g = g) → cp_id p ≠ cp_id q →
  same_group p q → cp_engine p = cp_engine q.
Proof.
  unfold validate_schema_group_engine. intros Hv Hq Ht Hid (gp & gq & Hp & Hg & He).
  rewrite Hp in Hv. specialize (Ht _ Hp). destruct (existsb _ _) eqn:E; [done|].
  destruct (decide (cp_engine p = cp_engine q)) as [?|Hn]; [done|exfalso].
  assert (existsb (other_engine p gp) cs = true) as E'; [|congruence].
  apply existsb_exists. exists q. split; [by apply list_elem_of_In|]. unfold other_engine.
  rewrite Hg, !bool_decide_false by congruence. cbn. rewrite Ht in He.
  unfold eq_ignore_ascii_case in *. rewrite String.eqb_eq in *. by rewrite andb_true_r, String.eqb_eq.
Qed.

(** A group keeps one engine when connections move into it: the checks
    [set_schema_group] makes of the new list are enough. *)
Theorem regroup_homogeneous ids group cs cs' updated :
  NoDup (cp_id <$> cs) → homogeneous cs →
  regroup_all ids (normalize_schema_group group) cs = Ok cs' →
  (∀ c, c ∈ cs' → cp_id c ∈ ids → c ∈ updated) →
  validate_all updated cs' = Ok tt → homogeneous cs'.
Proof.
  intros Hnd Hh Hr Hu Hv.
  assert (∀ x y, x ∈ cs' → y ∈ cs' → cp_id x = cp_id y → x = y) as Hx.
  { intros x y Hx Hy E. apply (same_id cs'); [|done..]. by rewrite (regroup_all_ids _ _ _ _ Hr). }
  assert (∀ x y, cp_id x ∈ ids → cp_schema_group x = normalize_schema_group group →
            x ∈ cs' → y ∈ cs' → same_group x y → cp_engine x = cp_engine y) as Hone.
  { intros x y Hid Hg Hxi Hyi Hs. destruct (decide (cp_id x = cp_id y)) as [E|E]; [by rewrite (Hx x y)|].
    apply (validated_engine x cs' y); [|done| |done..].
    - by apply (validated_all updated); [|apply Hu].
    - intros g Eg. apply (normalized_trimmed group). congruence. }
  intros x y Hxi Hyi Hs.
  destruct (regroup_all_in _ _ _ _ x Hr Hxi) as [Hxc|[? ?]]; [|by apply Hone].
  destruct (regroup_all_in _ _ _ _ y Hr Hyi) as [Hyc|[? ?]]; [by apply Hh|].
  symmetry. apply Hone; [done..|by apply same_group_sym].
Qed.
End groups.
