(* ===== verification/DashboardService.v ===== *)
(** * The dashboard and chat services
    (src-tauri/src/services/{dashboard_service,agent_service}.rs)

    Saving, listing, deleting and running dashboards, and the creation of one from
    a query an agent ran.  A receipt or a failure that keeps the operation scope or
    the lease alive returns with the read side of the gate held. *)

From S2P Require Export ConnectionService.

(** ** Data *)

Section types.
Context {P : Platform}.

Record AgentDashboardPresentation := {
  ap_title : string; ap_description : string; ap_kind : DashboardKind.t;
  ap_x_column : option string; ap_y_columns : list string;
}.
Record AgentDashboardEventContext := {
  ae_query_run_id : Uuid; ae_connection_id : Uuid; ae_connection_name : string;
  ae_title : string; ae_sql : string;
}.
Inductive AgentDashboardPrepareError :=
| QueryRunNotFound
| QueryRunIneligible
| PrepareApplication (error : AppError).
Inductive AgentDashboardCommitError :=
| InvalidDraft (error : AppError)
| Persistence (error : AppError).
Record PreparedAgentDashboard := {
  pa_connection : PinnedConnection; pa_draft : DashboardDraft;
  pa_event_context : AgentDashboardEventContext;
}.

Record DashboardRunRequest := { dru_dashboard_id : Uuid; dru_query_id : option Uuid }.
Inductive DashboardRunError :=
| DashboardApplication (error : AppError)
| DashboardScoped (error : AppError)
| DashboardExecution (error : AppError).
Definition dashboard_into_error (self : DashboardRunError) : AppError :=
  match self with
  | DashboardApplication error | DashboardScoped error | DashboardExecution error => error
  end.
Record DashboardRunRecord := {
  dre_sql : string; dre_kind : QueryKind.t; dre_status : string; dre_row_count : option Z;
  dre_duration_ms : option Z; dre_error : option string;
}.

Definition is_eligible_agent_run (source : HistoryEntry) : bool :=
  (he_origin source =? "agent")%string && (he_status source =? "ok")%string
  && bool_decide (he_kind source = QueryKind.Read).
End types.

Module DashboardService.
Section service.
Context {P : Platform} {Q : Sqlite} {ED : ErrorDisplay} {D : StrDebug} {SP : SqlParser}.
Local Open Scope prog_scope.
Local Abbreviation do := (call (Res := HostCall.res)).
Local Abbreviation sql_call p := (hosted (lift p)).

(** ** Scopes *)

(** [ConnectionManager::begin_operation_scope] *)
Definition begin_operation_scope : host_program unit := do (HostCall.Manager GateRead).

(** [?] of a method that owns the scope: an error drops it. *)
Definition in_operation_scope {E F A B} (f : E → F) (m : host_program (result E A))
    (k : A → host_program (result F B)) : host_program (result F B) :=
  r ← m; match r with Ok a => k a | Err error => _ ← drop_guard; Ret (Err (f error)) end.

(** [ConnectionOperationScope::pin_connection], [pin_dashboard_connection] *)
Definition pin_connection (id : Uuid) : host_program (AppResult PinnedConnection) :=
  do (HostCall.Db (Pin id true)).
Definition pin_dashboard_connection (id : Uuid) : host_program (AppResult PinnedConnection) :=
  do (HostCall.Db (Pin id false)).

(** [Store::save_dashboard_if_current] with its identifiers and clock readings. *)
Definition save_if_current (pin : PinnedConnection) (draft : DashboardDraft)
  : host_program (AppResult Dashboard) :=
  id ← host_uuid;
  now ← host_now;
  e ← outbox_event;
  do (HostCall.Db (SaveDashboard pin draft id now e)).

(** ** Metadata *)

Definition list_saved (connection_id : Uuid) : host_program (AppResult (list Dashboard)) :=
  _ ← begin_operation_scope;
  in_operation_scope id (pin_dashboard_connection connection_id) (λ connection,
  r ← do (HostCall.Db (DashboardsIfCurrent connection));
  _ ← drop_guard;
  Ret r).

Definition save (draft : DashboardDraft) : host_program (AppResult Dashboard) :=
  _ ← begin_operation_scope;
  in_operation_scope id (pin_dashboard_connection (dd_connection_id draft)) (λ connection,
  in_operation_scope id (Ret (validate_draft draft (cp_engine (pc_profile connection)))) (λ _,
  r ← save_if_current connection draft;
  _ ← drop_guard;
  Ret r)).

Definition delete (id : Uuid) : host_program (AppResult unit) :=
  _ ← begin_operation_scope;
  in_operation_scope Datatypes.id (in_store (Store.pin_dashboard_for_view id)) (λ dashboard,
  now ← host_now;
  e ← outbox_event;
  r ← do (HostCall.Db (DeleteDashboard dashboard now e));
  _ ← drop_guard;
  Ret r).

(** ** Running a saved dashboard *)

(** [record_dashboard_run]: failures are logged. *)
Definition record_dashboard_run (pin : PinnedConnection) (record : DashboardRunRecord)
  : host_program unit :=
  _ ← sql_call (audit_record
    {| ra_connection_id := pc_connection_id pin; ra_engine := cp_engine (pc_profile pin);
       ra_agent_prompt := None; ra_sql := dre_sql record; ra_kind := dre_kind record;
       ra_action := "dashboard:run"; ra_approved_by := None;
       ra_affected_estimate := dre_row_count record; ra_error := dre_error record |});
  id ← host_uuid;
  executed_at ← host_now;
  _ ← do (HostCall.Db (InsertHistory pin
    {| he_id := id; he_connection_id := pc_connection_id pin; he_sql := dre_sql record;
       he_kind := dre_kind record; he_status := dre_status record;
       he_row_count := dre_row_count record; he_duration_ms := dre_duration_ms record;
       he_error := dre_error record; he_executed_at := executed_at; he_origin := "dashboard" |}));
  Ret tt.

Definition failed_run (sql : string) (kind : QueryKind.t) (status : string) (error : AppError)
  : DashboardRunRecord := {|
  dre_sql := sql; dre_kind := kind; dre_status := status; dre_row_count := None;
  dre_duration_ms := None; dre_error := Some (error_to_string error) |}.
Definition finished_run (sql : string) (result : QueryResult) : DashboardRunRecord := {|
  dre_sql := sql; dre_kind := QueryKind.Read; dre_status := "ok";
  dre_row_count := Some (wrap_i64 (qr_row_count result));
  dre_duration_ms := Some (wrap_i64 (qr_duration_ms result)); dre_error := None |}.

(** [executor::cancel::guard] *)
Definition cancel_guard {A} (query_id : option Uuid) (fut : program (AppResult A))
  : program (AppResult A) :=
  match query_id with
  | None => guarded None fut
  | Some id => with_cancellation id (λ handle, guarded (Some handle) fut)
  end.

(** [safety::run_read_only] *)
Definition run_read_only (pool : DbPool) (sql : string) (max_rows : Z)
  : program (AppResult QueryResult) :=
  read_only_cancellable pool sql max_rows None.

Definition draft_of (dashboard : Dashboard) : DashboardDraft := {|
  dd_connection_id := da_connection_id dashboard; dd_title := da_title dashboard;
  dd_description := da_description dashboard; dd_sql := da_sql dashboard;
  dd_visualization := da_visualization dashboard |}.

(** The kind a refused run is recorded as. *)
Definition recorded_kind (sql : string) (engine : Engine.t) : QueryKind.t :=
  match classify sql engine with Ok c => cl_kind c | Err _ => QueryKind.Write end.

(** The statement of a dashboard that passed its checks. *)
Definition run_statement (dashboard : Dashboard) (pin : PinnedConnection) (settings : SafetySettings)
    (query_id : option Uuid) : host_program (result DashboardRunError QueryResult) :=
  let sql := da_sql dashboard in
  connected ← sql_call (scope_connect pin ConnectionAccess.Read);
  match connected with
  | Err error =>
      _ ← drop_guard;
      _ ← record_dashboard_run pin (failed_run sql QueryKind.Read "error" error);
      Ret (Err (DashboardApplication error))
  | Ok lease =>
      check live ← live_sql (ls_live lease) or DashboardExecution;
      ran ← sql_call (cancel_guard query_id
              (run_read_only (read_pool live) sql (clamp 1 100000 (max_rows settings))));
      match ran with
      | Ok result =>
          _ ← record_dashboard_run pin (finished_run sql result);
          Ret (Ok result)
      | Err error =>
          _ ← record_dashboard_run pin (failed_run sql QueryKind.Read "error" error);
          Ret (Err (DashboardExecution error))
      end
  end.

Definition run (request : DashboardRunRequest) : host_program (result DashboardRunError QueryResult) :=
  _ ← begin_operation_scope;
  try dashboard ← in_store (Store.get_dashboard (dru_dashboard_id request)) or DashboardScoped;
  try pin ← pin_connection (da_connection_id dashboard) or DashboardScoped;
  match validate_draft (draft_of dashboard) (cp_engine (pc_profile pin)) with
  | Err error =>
      _ ← record_dashboard_run pin
            (failed_run (da_sql dashboard)
               (recorded_kind (da_sql dashboard) (cp_engine (pc_profile pin))) "blocked" error);
      Ret (Err (DashboardScoped error))
  | Ok _ =>
      try settings ← in_store (Store.get_safety (da_connection_id dashboard)) or DashboardScoped;
      run_statement dashboard pin settings (dru_query_id request)
  end.

(** ** Dashboards of agents *)

(** [AppError::NotFound] is the absence of the run. *)
Definition prepare_error (error : AppError) : AgentDashboardPrepareError :=
  match error with NotFound _ => QueryRunNotFound | error => PrepareApplication error end.

Definition agent_draft (source : HistoryEntry) (presentation : AgentDashboardPresentation)
  : DashboardDraft := {|
  dd_connection_id := he_connection_id source; dd_title := ap_title presentation;
  dd_description := ap_description presentation; dd_sql := he_sql source;
  dd_visualization := {| vz_version := VISUALIZATION_VERSION; vz_kind := ap_kind presentation;
    vz_x_column := ap_x_column presentation; vz_y_columns := ap_y_columns presentation |} |}.

Definition prepare_agent_create (query_run_id : Uuid) (presentation : AgentDashboardPresentation)
  : host_program (result AgentDashboardPrepareError PreparedAgentDashboard) :=
  _ ← begin_operation_scope;
  in_operation_scope prepare_error (do (HostCall.Db (ResolveHistory query_run_id))) (λ resolved,
  in_operation_scope id
    (Ret (reject_if (negb (is_eligible_agent_run (rh_history resolved))) QueryRunIneligible)) (λ _,
  in_operation_scope PrepareApplication
    (pin_dashboard_connection (he_connection_id (rh_history resolved))) (λ connection,
  in_operation_scope prepare_error (do (HostCall.Db (HistoryIfCurrent connection resolved))) (λ source,
  in_operation_scope id
    (Ret (reject_if (negb (is_eligible_agent_run source)) QueryRunIneligible)) (λ _,
  Ret (Ok {|
    pa_connection := connection; pa_draft := agent_draft source presentation;
    pa_event_context := {|
      ae_query_run_id := query_run_id; ae_connection_id := pc_connection_id connection;
      ae_connection_name := cp_name (pc_profile connection); ae_title := ap_title presentation;
      ae_sql := he_sql source |} |})))))).

(** [PreparedAgentDashboard::commit]; the scope ends with [self]. *)
Definition commit (self : PreparedAgentDashboard)
  : host_program (result AgentDashboardCommitError Dashboard) :=
  in_operation_scope InvalidDraft
    (Ret (validate_draft (pa_draft self) (cp_engine (pc_profile (pa_connection self))))) (λ _,
  in_operation_scope Persistence (save_if_current (pa_connection self) (pa_draft self)) (λ dashboard,
  _ ← drop_guard;
  Ret (Ok dashboard))).
End service.
End DashboardService.

(** ** Agent chats *)

Module AgentService.
Section service.
Context {P : Platform} {Q : Sqlite}.
Local Open Scope prog_scope.

Record ChatThreadCreateRequest := {
  ctr_provider : AgentProvider.t; ctr_connection_id : Uuid; ctr_model : option string;
  ctr_effort : option string;
}.

Definition list_threads : host_program (AppResult (list ChatThread)) :=
  in_store Store.list_chat_threads.
Definition messages (thread_id : Uuid) : host_program (AppResult (list ChatMessageRecord)) :=
  in_store (Store.list_chat_messages thread_id).
Definition create_thread (request : ChatThreadCreateRequest) : host_program (AppResult ChatThread) :=
  id ← host_uuid;
  now ← host_now;
  in_store (Store.create_chat_thread (ctr_provider request) (ctr_connection_id request)
              (ctr_model request) (ctr_effort request) id now).
Definition delete_thread (thread_id : Uuid) : host_program (AppResult unit) :=
  in_store (Store.delete_chat_thread thread_id).
End service.
End AgentService.
