(* ===== verification/DashboardSafety.v ===== *)
(** * What dashboards promise

    The SQL of a dashboard an agent creates is the SQL of a read that agent ran;
    running a dashboard only reads, and every run is recorded. *)

From S2P Require Export StorePins StoreSample DashboardService QuerySafety.

(** ** A service over the store

    Other tasks make their own statements between two calls. *)

Section world.
Context {P : Platform} {Q : Sqlite} {C : ChronoSerde} {D : StrDebug}.

Definition host_respond (op : HostCall.t) (db : StoreDb) : HostCall.res op → StoreDb → Prop :=
  match op with
  | HostCall.Db c => λ r db', r = (run c db).1 ∧ db' = (run c db).2
  | _ => λ _ db', db' = db
  end.

(** From [db], whatever happens between its calls, the result of [p] and the store
    it returns in satisfy [R]. *)
Fixpoint ends {A} (p : host_program A) (db : StoreDb) (R : A → StoreDb → Prop) : Prop :=
  match p with
  | Ret a => ∀ db', rtc store_step db db' → R a db'
  | Vis op k => ∀ db1 r db2, rtc store_step db db1 → host_respond op db1 r db2 → ends (k r) db2 R
  end.

Lemma reaches_ends {A} (p : host_program A) db h a db' h' R :
  reaches (rtc store_step) host_respond p db h (Ret a) db' h' → ends p db R → R a db'.
Proof.
  revert db h. induction p as [b|op k IH]; cbn; intros db h H He.
  - destruct H as [(_ & [= ->] & H)|[]]. by apply He.
  - destruct H as [(_ & [=] & _)|(r & w1 & w2 & Hw & Hr & H)]. eapply IH; [exact H|by eapply He].
Qed.

Lemma ends_mono {A} (p : host_program A) db (R R' : A → StoreDb → Prop) :
  (∀ a db', R a db' → R' a db') → ends p db R → ends p db R'.
Proof. intros HR. revert db. induction p as [a|op k IH]; cbn; eauto. Qed.

Lemma ends_always {A} (p : host_program A) db (R : A → StoreDb → Prop) :
  (∀ a db', R a db') → ends p db R.
Proof. intros HR. revert db. induction p as [a|op k IH]; cbn; eauto. Qed.

Lemma ends_bind {A B} (p : host_program A) (f : A → host_program B) db R :
  ends p db (λ a db', ends (f a) db' R) → ends (p ≫= f) db R.
Proof.
  revert db. induction p as [a|op k IH]; cbn; intros db H; [by apply H|].
  intros db1 r db2 H1 Hr. eapply IH, H; eauto.
Qed.

Lemma ends_db c db R :
  (∀ db1 db2, rtc store_step db db1 → rtc store_step (run c db1).2 db2 → R (run c db1).1 db2) →
  ends (call (HostCall.Db c) : host_program _) db R.
Proof. intros H db1 r db2 H1 [-> ->] db' H2. auto. Qed.

Lemma ends_in_scope {E F A B} (f : E → F) (m : host_program (result E A))
    (k : A → host_program (result F B)) db (R : result F B → StoreDb → Prop) :
  (∀ e db', R (Err e) db') →
  ends m db (λ r db', ∀ a, r = Ok a → ends (k a) db' R) →
  ends (DashboardService.in_operation_scope f m k) db R.
Proof.
  intros He Hm. apply ends_bind. eapply ends_mono; [|exact Hm].
  intros [a|e] db' Ha; [by apply Ha|]. apply ends_bind, ends_always. intros _ db2 db3 _. apply He.
Qed.

Lemma run_steps c db : rtc store_step db (run c db).2.
Proof. apply rtc_once. by exists c. Qed.
End world.

(** A chain of moments. *)
Ltac later := first [eassumption | etrans; [eassumption|later]].

(** ** Dashboards of agents *)

Section provenance.
Context {P : Platform} {L : PlatformLaws P} {Q : Sqlite} {C : ChronoSerde} {ED : ErrorDisplay}
  {D : StrDebug} {SP : SqlParser}.
Implicit Types (db : StoreDb) (row : HistoryRow) (pin : PinnedConnection).

(** [row] is a read an agent ran successfully, on the connection and in the scope
    of [pin], which is current. *)
Record agent_read db (id : Uuid) row pin : Prop := {
  ar_stored : histories (db_artifacts db) !! uuid_to_string id = Some row;
  ar_origin : his_origin row = "agent";
  ar_status : his_status row = "ok";
  ar_kind : parse_kind (his_kind row) = Ok QueryKind.Read;
  ar_current : pin_current_with_access pin true db = true;
  ar_connection : his_connection_id row = uuid_to_string (pc_connection_id pin);
  ar_scope : his_account_scope row = storage_key (sc_account_scope (pc_scope pin));
}.

Lemma resolved_id id db resolved :
  resolve_history_for_dashboard_prepare id db = Ok resolved → he_id (rh_history resolved) = id.
Proof.
  intros H. unfold resolve_history_for_dashboard_prepare in H. inv_res. cbn.
  unfold row_to_history, parse_uuid_text in Hx0. rewrite uuid_roundtrip in Hx0. inv_res. cbn. congruence.
Qed.

Lemma current_history pin resolved db source :
  get_history_if_current pin resolved db = Ok source → is_eligible_agent_run source = true →
  ∃ row, agent_read db (he_id (rh_history resolved)) row pin ∧ he_sql source = his_sql row
    ∧ he_connection_id source = pc_connection_id pin.
Proof.
  intros H He. unfold get_history_if_current in H. inv_res.
  unfold is_eligible_agent_run in He. bools.
  destruct (histories (db_artifacts db) !! uuid_to_string (he_id (rh_history resolved))) as [row|] eqn:Hr;
    [|done]. cbn in Hx1. destruct (live_row _ _ _); [|done]. cbn in Hx1.
  destruct (_ && _) eqn:Hs; [|done]. injection Hx1 as <-. bools.
  unfold row_to_history, parse_uuid_text in H. rewrite uuid_roundtrip in H. inv_res. cbn in *.
  exists row. split_and!; [|done|].
  - split; try done; by subst.
  - match goal with Hc : his_connection_id row = _ |- _ => rewrite Hc, uuid_roundtrip in * end.
    congruence.
Qed.

(** A saved dashboard is a new row in the scope of a pin that is current. *)
Lemma saved_row pin draft id now e dashboard db db' :
  save_dashboard_if_current pin draft id now e db = Ok (dashboard, db') →
  da_sql dashboard = dd_sql draft ∧ pin_current_with_access pin true db = true
  ∧ ∃ saved, dashboards (db_artifacts db') = dashboards (db_artifacts db) ++ [saved]
      ∧ dsh_sql saved = dd_sql draft
      ∧ dsh_connection_id saved = uuid_to_string (dd_connection_id draft)
      ∧ dsh_workspace_id saved = uuid_to_string (sc_workspace_id (pc_scope pin)).
Proof.
  intros H. unfold save_dashboard_if_current in H. inv_res. bools. split_and!; [by subst|done|].
  eexists. split_and!; reflexivity.
Qed.

Variables (id : Uuid) (presentation : AgentDashboardPresentation).

(** What the capability [prepared] rests on. *)
Definition prepared_from db (prepared : PreparedAgentDashboard) db' : Prop :=
  ∃ db1 row, rtc store_step db db1 ∧ rtc store_step db1 db'
    ∧ agent_read db1 id row (pa_connection prepared)
    ∧ dd_sql (pa_draft prepared) = his_sql row
    ∧ dd_connection_id (pa_draft prepared) = pc_connection_id (pa_connection prepared).

Lemma ends_prepare db :
  ends (DashboardService.prepare_agent_create id presentation) db
    (λ r db', ∀ prepared, r = Ok prepared → prepared_from db prepared db').
Proof.
  unfold DashboardService.prepare_agent_create. apply ends_bind. intros db0 [] ? H0 -> db1 H1.
  assert (rtc store_step db db1) as Hdb by (by etrans). clear db0 H0 H1.
  apply ends_in_scope; [done|]. apply ends_db. intros db2 db3 H2 H3 resolved Hr.
  cbn [run fst snd] in *. apply resolved_id in Hr.
  apply ends_in_scope; [done|]. intros db4 H4 [] Hel.
  apply ends_in_scope; [done|]. apply ends_db. intros db5 db6 H5 H6 pin _. cbn [run snd] in H6.
  apply ends_in_scope; [done|]. apply ends_db. intros db7 db8 H7 H8 source Hs. cbn [run fst snd] in *.
  apply ends_in_scope; [done|]. intros db9 H9 [] He. intros db10 H10 prepared [= <-].
  destruct (current_history pin resolved db7 source) as (row & Hrow & Hsql & Hid); [done| |].
  { by destruct (is_eligible_agent_run source). }
  exists db7, row. rewrite Hr in Hrow. split_and!; [later|later|done..].
Qed.

(** Where a commit saved its dashboard. *)
Definition saved_from db (prepared : PreparedAgentDashboard) (dashboard : Dashboard) db' : Prop :=
  ∃ db2 db3 now e, rtc store_step db db2 ∧ rtc store_step db3 db'
    ∧ save_dashboard_if_current (pa_connection prepared) (pa_draft prepared) (da_id dashboard) now e db2
      = Ok (dashboard, db3)
    ∧ validate_draft (pa_draft prepared) (cp_engine (pc_profile (pa_connection prepared))) = Ok tt.

Lemma ends_commit prepared db :
  ends (DashboardService.commit prepared) db
    (λ r db', ∀ dashboard, r = Ok dashboard → saved_from db prepared dashboard db').
Proof.
  unfold DashboardService.commit. apply ends_in_scope; [done|]. intros db1 H1 [] Hv.
  apply ends_in_scope; [done|]. unfold DashboardService.save_if_current.
  apply ends_bind. intros db2 new ? H2 -> db3 H3. apply ends_bind. intros db4 now ? H4 -> db5 H5.
  apply ends_bind. intros db6 ev ? H6 -> db7 t ? H7 -> db8 H8.
  apply ends_db. intros db9 db10 H9 H10 dashboard Hd. cbn [run] in Hd, H10. unfold StoreData.commit in *.
  destruct (save_dashboard_if_current _ _ _ _ _ db9) as [[d' db']|er] eqn:Hsave; [|done].
  injection Hd as ->. cbn [snd] in H10.
  apply ends_bind. intros db11 [] ? H11 -> db12 H12 db13 H13 ? [= <-].
  assert (da_id dashboard = new) as Hid.
  { unfold save_dashboard_if_current in Hsave. by inv_res. }
  exists db9, db', now, {| StoreConnections.ev_id := ev; ev_now := t |}. rewrite Hid. split_and!.
  - later.
  - later.
  - exact Hsave.
  - exact Hv.
Qed.

(** A creation by an agent: the tool announces the prepared dashboard and commits
    it. *)
Definition create_agent_dashboard : host_program (option Dashboard) :=
  (prepared ← DashboardService.prepare_agent_create id presentation;
   match prepared with
   | Err _ => Ret None
   | Ok prepared =>
       committed ← DashboardService.commit prepared;
       Ret match committed with Ok dashboard => Some dashboard | Err _ => None end
   end)%prog.

Lemma ends_create db :
  ends create_agent_dashboard db (λ r db', ∀ dashboard, r = Some dashboard →
    ∃ prepared db1, prepared_from db prepared db1 ∧ saved_from db1 prepared dashboard db').
Proof.
  apply ends_bind. eapply ends_mono; [|apply ends_prepare].
  intros [prepared|er] db1 Hp; [|by intros db2 _ ?].
  apply ends_bind. eapply ends_mono; [|apply ends_commit].
  intros [d|er] db2 Hc db3 H3 ? [=]; subst. exists prepared, db1. split; [by apply Hp|].
  destruct (Hc _ eq_refl) as (a & b & now & e & Ha & Hb & Hs). exists a, b, now, e.
  split_and!; [done|by etrans|apply Hs|apply Hs].
Qed.
End provenance.

(** C16. An agent cannot put SQL of its own on a dashboard: whatever other tasks do
    meanwhile, a dashboard it creates has the SQL and the connection of a stored
    query run that an agent executed as a read and that succeeded, in the scope
    of a pin which was current when the run was read back and again in the
    transaction that saved the dashboard, and that SQL is classified as one single
    read by the connection's engine. *)
Theorem agent_dashboard_provenance {P : Platform} {L : PlatformLaws P} {Q : Sqlite}
    {C : ChronoSerde} {ED : ErrorDisplay} {D : StrDebug} {SP : SqlParser}
    id presentation db db' h dashboard :
  reaches (rtc store_step) host_respond (create_agent_dashboard id presentation) db []
    (Ret (Some dashboard)) db' h →
  ∃ db1 db2 db3 pin row saved, rtc store_step db db1 ∧ agent_read db1 id row pin
    ∧ rtc store_step db1 db2 ∧ pin_current_with_access pin true db2 = true
    ∧ dashboards (db_artifacts db3) = dashboards (db_artifacts db2) ++ [saved]
    ∧ dsh_sql saved = his_sql row ∧ dsh_connection_id saved = his_connection_id row
    ∧ dsh_workspace_id saved = uuid_to_string (sc_workspace_id (pc_scope pin))
    ∧ da_sql dashboard = his_sql row
    ∧ (∃ c, classify (his_sql row) (cp_engine (pc_profile pin)) = Ok c
          ∧ cl_kind c = QueryKind.Read ∧ cl_statement_count c = 1)
    ∧ rtc store_step db3 db'.
Proof.
  intros Hr. destruct (reaches_ends _ _ _ _ _ _ _ Hr (ends_create id presentation db) _ eq_refl) as (prepared & db4 & (db1 & row & H1 & H14 & Hrow & Hsql & Hcid)
    & (db2 & db3 & now & e & H42 & H3' & Hsave & Hv)).
  destruct (saved_row _ _ _ _ _ _ _ _ Hsave) as (Hda & Hcur & saved & Hd & Hs1 & Hs2 & Hs3).
  exists db1, db2, db3, (pa_connection prepared), row, saved. split_and!; try done.
  - by etrans.
  - congruence.
  - rewrite Hs2, Hcid. symmetry. apply Hrow.
  - congruence.
  - unfold validate_draft in Hv. inv_res. bools. rewrite <-Hsql.
    match goal with Hc : classify _ _ = Ok ?c |- _ => exists c; split_and!; [exact Hc| |] end.
    all: try done; lia.
Qed.

(** ** Witness *)

Module DashboardSample.
Import StoreSample.

(** The store answers its own calls, one clock and one source of identifiers the
    others. *)
Definition oracle (c : HostCall.t) (db : StoreDb) : option (HostCall.res c * StoreDb) :=
  match c return option (HostCall.res c * StoreDb) with
  | HostCall.Db c => Some (run c db)
  | HostCall.Manager (Service Call.NewUuid) => Some (uid 50, db)
  | HostCall.Manager (Service Call.Now) => Some (60, db)
  | HostCall.Manager GateRead | HostCall.Manager GateRelease => Some (tt, db)
  | _ => None
  end.
Fixpoint exec_some {A} (p : host_program A) (db : StoreDb) (h : list (Programs.entry HostCall.res))
  : option (A * StoreDb * list (Programs.entry HostCall.res)) :=
  match p with
  | Ret a => Some (a, db, h)
  | Vis c k => '(r, db) ← oracle c db; exec_some (k r) db (Entry c r :: h)
  end.

Lemma store_oracle_responds c db r db' : oracle c db = Some (r, db') → host_respond c db r db'.
Proof.
  intros H. unfold oracle in H. destruct c as [call| |call| | | | | | | | | | | |]; try done.
  - injection H as H. cbn. by rewrite H.
  - destruct call as [read| | | | | | | | | | | | | | | | | | | | | | | | | | | |]; try done; try by injection H as _ <-.
    destruct read; try done; by injection H as _ <-.
Qed.

Lemma exec_some_reaches {A} (p : host_program A) db h a db' h' :
  exec_some p db h = Some (a, db', h') →
  reaches (rtc store_step) host_respond p db h (Ret a) db' h'.
Proof.
  revert db h. induction p as [b|c k IH]; cbn; intros db h H; [injection H as -> -> ->; by left|].
  destruct (oracle c db) as [[r db1]|] eqn:Ho; [|done]. right.
  exists r, db, db1. split_and!; [done|by apply store_oracle_responds|by apply IH].
Qed.

(** A read an agent ran on the saved connection. *)
Definition run_of_agent : HistoryEntry := {|
  he_id := uid 30; he_connection_id := uid 3; he_sql := "SELECT 1"; he_kind := QueryKind.Read;
  he_status := "ok"; he_row_count := Some 1; he_duration_ms := Some 2; he_error := None;
  he_executed_at := 8; he_origin := "agent" |}.
Definition stored_run : StoreDb :=
  let db := after save fresh in
  match pin_connection_with_access (uid 3) true db with
  | Ok pin => after [InsertHistory pin run_of_agent] db
  | Err _ => db
  end.
Definition presentation : AgentDashboardPresentation := {|
  ap_title := "One"; ap_description := ""; ap_kind := DashboardKind.Table; ap_x_column := None;
  ap_y_columns := [] |}.
End DashboardSample.

Lemma agent_dashboard_provenance_witness :
  ∃ db1 (dashboard : Dashboard) row pin, rtc store_step DashboardSample.stored_run db1
    ∧ agent_read db1 (StoreSample.uid 30) row pin
    ∧ da_sql dashboard = his_sql row ∧ his_sql row = "SELECT 1".
Proof.
  assert (match DashboardSample.exec_some
            (create_agent_dashboard (StoreSample.uid 30) DashboardSample.presentation)
            DashboardSample.stored_run [] with
          | Some (Some dashboard, _, _) => (da_sql dashboard =? "SELECT 1")%string
          | _ => false
          end = true) as Hc by (vm_compute; reflexivity).
  revert Hc. generalize DashboardSample.stored_run. intros db Hc.
  destruct (DashboardSample.exec_some _ db _) as [[[[dashboard|] db'] h]|] eqn:He; try done.
  apply String.eqb_eq in Hc. apply DashboardSample.exec_some_reaches in He as Hr.
  destruct (agent_dashboard_provenance (StoreSample.uid 30) DashboardSample.presentation db db' h dashboard Hr)
    as (db1 & db2 & db3 & pin & row & saved & H1 & Hrow & H2 & _ & _ & _ & _ & _ & Hsql & _ & H3).
  exists db1, dashboard, row, pin. split_and!; [exact H1|exact Hrow|exact Hsql|congruence].
Defined.
