(* ===== verification/AgentTools.v ===== *)
(** * Catalog, activity and the tools of agents
    (src-tauri/src/introspect/catalog_v2.rs, src-tauri/src/services/
    {catalog_service,activity_service}.rs, src-tauri/src/mcp/tools.rs)

    The catalog loads and the MCP tools as programs over [ToolCall.t]: the calls of
    the other services, the introspection of a live database and the events shown
    in the application window.  A tool's result is the JSON value whose text the
    agent receives. *)

From S2P Require Import ServiceLogic.
From S2P Require Export Introspection DashboardService AgentRuns DocumentService AuditLog.

(** ** The calls *)

Module ToolCall.
Section call.
Context {P : Platform}.

Inductive t :=
| Host (c : HostCall.t)
(** introspect/mod.rs, on a live connection *)
| Introspect (live : Live)
| TableDdl (live : Live) (schema : option string) (table : string)
(** audit/mod.rs: the rows of one read of the log *)
| AuditRead
(** the application window *)
| Emit (event : string) (payload : Value).

Definition res (c : t) : Type :=
  match c with
  | Host c => HostCall.res c
  | Introspect _ => AppResult Introspect.Catalog
  | TableDdl _ _ _ => AppResult string
  | AuditRead => AppResult (list AuditRow)
  | Emit _ _ => unit
  end.
End call.
End ToolCall.
Export (hints) ToolCall.

Abbreviation tool_program A := (prog ToolCall.res A).

Section calls.
Context {P : Platform} {Q : Sqlite}.
Local Open Scope prog_scope.
Local Abbreviation do := (call (Res := ToolCall.res)).

Fixpoint host {A} (p : host_program A) : tool_program A :=
  match p with Ret a => Ret a | Vis c k => Vis (ToolCall.Host c) (λ r, host (k r)) end.
(** A method of the query and document services. *)
Definition service {A} (p : program A) : tool_program A := host (hosted (lift p)).
Definition emit (event : string) (payload : Value) : tool_program unit :=
  do (ToolCall.Emit event payload).
End calls.

(** ** Catalog loads *)

Inductive CatalogReadMode := CacheFirst | LiveNoCache | Refresh.
Definition caches (mode : CatalogReadMode) : bool :=
  match mode with LiveNoCache => false | _ => true end.

Module CatalogService.
Section service.
Context {P : Platform} {Q : Sqlite} {D : StrDebug}.
Local Open Scope prog_scope.
Local Abbreviation do := (call (Res := ToolCall.res)).

(** [connections.pin(id, Read)]: the context holds the read side of the gate until
    the method returns. *)
Definition pinned {A} (id : Uuid) (body : ConnectionContext → tool_program (AppResult A))
  : tool_program (AppResult A) :=
  pinned ← host (host_pin id ConnectionAccess.Read);
  r ← match pinned with Ok context => body context | Err error => Ret (Err error) end;
  _ ← host drop_guard;
  Ret r.

Definition get_cached (context : ConnectionContext) : tool_program (option CatalogSnapshot) :=
  do (ToolCall.Host (HostCall.Db (GetCatalog (cx_pin context)))).

(** What the mode does before introspecting: a cached snapshot, or none. *)
Definition cached (mode : CatalogReadMode) (id : Uuid) (context : ConnectionContext)
  : tool_program (AppResult (option CatalogSnapshot)) :=
  match mode with
  | CacheFirst =>
      found ← get_cached context;
      Ret (Ok found)
  | Refresh =>
      try _ ← host (in_store (Store.clear_schema_cache id)) or Datatypes.id;
      Ret (Ok None)
  | LiveNoCache => Ret (Ok None)
  end.

Definition load_cached_catalog (id : Uuid) : tool_program (AppResult (option Introspect.Catalog)) :=
  pinned id (λ context,
    found ← get_cached context;
    Ret (Ok (option_map from_snapshot found))).

(** [to_snapshot] at the clock's time; its hash cannot fail to serialise. *)
Definition snapshot_now (profile : ConnectionProfile) (catalog : Introspect.Catalog)
  : tool_program (AppResult CatalogSnapshot) :=
  now ← host host_now;
  Ret (default (Err Serialization) (to_snapshot profile catalog now)).

Definition store_snapshot (pin : PinnedConnection) (snapshot : CatalogSnapshot)
  : tool_program (AppResult unit) :=
  try outcome ← do (ToolCall.Host (HostCall.Db (PutCatalog pin snapshot))) or Datatypes.id;
  match outcome with
  | Stored | NotPersisted => Ret (Ok tt)
  | Stale => Ret (Err (Blocked "workspace or connection access changed; retry schema loading"))
  end.

Definition introspect_and_maybe_store (context : ConnectionContext) (mode : CatalogReadMode)
  : tool_program (AppResult Introspect.Catalog) :=
  try lease ← service (context_connect context) or Datatypes.id;
  try catalog ← do (ToolCall.Introspect (ls_live lease)) or Datatypes.id;
  if negb (caches mode) then Ret (Ok catalog)
  else if is_blank (cp_database (pc_profile (ls_pin lease))) then Ret (Ok catalog)
  else
    try snapshot ← snapshot_now (pc_profile (ls_pin lease)) catalog or Datatypes.id;
    try _ ← store_snapshot (ls_pin lease) snapshot or Datatypes.id;
    Ret (Ok catalog).

Definition load_catalog (id : Uuid) (mode : CatalogReadMode)
  : tool_program (AppResult Introspect.Catalog) :=
  pinned id (λ context,
    try found ← cached mode id context or Datatypes.id;
    match found with
    | Some snapshot => Ret (Ok (from_snapshot snapshot))
    | None => introspect_and_maybe_store context mode
    end).

Definition load_catalog_snapshot (id : Uuid) (mode : CatalogReadMode)
  : tool_program (AppResult CatalogSnapshot) :=
  pinned id (λ context,
    try found ← cached mode id context or Datatypes.id;
    match found with
    | Some snapshot => Ret (Ok snapshot)
    | None =>
        try lease ← service (context_connect context) or Datatypes.id;
        if is_blank (cp_database (pc_profile (ls_pin lease)))
        then Ret (Err (Config "Catalog V2 requires an explicit database name"))
        else
          try catalog ← do (ToolCall.Introspect (ls_live lease)) or Datatypes.id;
          try snapshot ← snapshot_now (pc_profile (ls_pin lease)) catalog or Datatypes.id;
          if negb (caches mode) then Ret (Ok snapshot)
          else
            try _ ← store_snapshot (ls_pin lease) snapshot or Datatypes.id;
            Ret (Ok snapshot)
    end).

Definition load_terminal_snapshot (authority : TerminalAuthority) (mode : CatalogReadMode)
  : tool_program (AppResult CatalogSnapshot) :=
  pinned (ta_connection_id authority) (λ context,
    check _ ← ensure_pin authority (cx_pin context) or Datatypes.id;
    load_catalog_snapshot (ta_connection_id authority) mode).

Definition table_ddl (id : Uuid) (schema : option string) (table : string)
  : tool_program (AppResult string) :=
  pinned id (λ context,
    try lease ← service (context_connect context) or Datatypes.id;
    do (ToolCall.TableDdl (ls_live lease) schema table)).
End service.
End CatalogService.

(** ** Activity *)

Module ActivityService.
Section service.
Context {P : Platform} {Q : Sqlite} {SD : Serde}.
Local Open Scope prog_scope.
Local Abbreviation do := (call (Res := ToolCall.res)).

Record ActivityRecordRequest := {
  arr_connection_id : Uuid; arr_engine : Engine.t; arr_subject : string; arr_kind : QueryKind.t;
  arr_action : string; arr_error : option string;
}.
Record AuditVerdict := { av_ok : bool; av_first_bad_index : option Z }.
Record AuditSnapshotReceipt := { asr_entries : list AuditEntry; asr_verdict : AuditVerdict }.

Definition verify_audit (connection_id : Uuid) : tool_program (AppResult AuditVerdict) :=
  try _ ← host (in_store (Store.get_connection connection_id)) or Datatypes.id;
  try rows ← do ToolCall.AuditRead or Datatypes.id;
  check verified ← AuditLog.verify_chain connection_id rows or Datatypes.id;
  Ret (Ok {| av_ok := verified.1; av_first_bad_index := verified.2 |}).

Definition audit_snapshot (connection_id : Uuid) : tool_program (AppResult AuditSnapshotReceipt) :=
  try _ ← host (in_store (Store.get_connection connection_id)) or Datatypes.id;
  try rows ← do ToolCall.AuditRead or Datatypes.id;
  check read ← AuditLog.snapshot connection_id rows or Datatypes.id;
  let '(entries, ok, first_bad_index) := read in
  Ret (Ok {| asr_entries := entries;
             asr_verdict := {| av_ok := ok; av_first_bad_index := first_bad_index |} |}).

Definition history (connection_id : Uuid) : tool_program (AppResult (list HistoryEntry)) :=
  host (in_store (Store.list_history connection_id)).

Definition record_best_effort (request : ActivityRecordRequest) : tool_program unit :=
  _ ← service (audit_record
    {| ra_connection_id := arr_connection_id request; ra_engine := arr_engine request;
       ra_agent_prompt := None; ra_sql := arr_subject request; ra_kind := arr_kind request;
       ra_action := arr_action request; ra_approved_by := None; ra_affected_estimate := None;
       ra_error := arr_error request |});
  Ret tt.
End service.
End ActivityService.

(** ** The tools *)

Inductive McpError := InvalidParams (message : string) | InternalError (message : string).

(** What [take(4096)] characters keep: a byte that is not a continuation byte
    starts a character. *)
Definition is_continuation (a : ascii) : bool := (128 <=? byte a)%N && (byte a <? 192)%N.
Fixpoint take_chars (n : nat) (s : string) : string :=
  match s with
  | EmptyString => EmptyString
  | String a s =>
      if is_continuation a then String a (take_chars n s)
      else match n with O => EmptyString | S n => String a (take_chars n s) end
  end.

Section payloads.
Context {P : Platform} {SD : Serde} {C : ChronoSerde}.

Definition CELL_PREVIEW_MAX : N := 4096.
Definition truncate_cell (cell : Value) : Value :=
  let s := default "" (json_to_string cell) in
  if (CELL_PREVIEW_MAX <? str_len s)%N
  then VString (take_chars (N.to_nat CELL_PREVIEW_MAX) s +:+ "…")
  else cell.
Definition truncate_cells (rows : list (list Value)) : list (list Value) :=
  map (map truncate_cell) rows.

Definition count_value {A} (l : list A) : Value := value_of_u64 (Z.of_nat (length l)).

Definition connection_payload (c : AgentConnectionSummary) : Value :=
  VObject [("id", uuid_to_value (acs_id c)); ("name", VString (acs_name c));
           ("engine", VString (engine_str (acs_engine c))); ("database", VString (acs_database c));
           ("environment", value_of_opt_string (acs_environment c));
           ("readonly", VBool (acs_readonly c)); ("allowWrites", VBool (acs_allow_writes c))].
Definition connection_list_payload (connections : list AgentConnectionSummary) : Value :=
  VObject [("connections", ser_list connection_payload connections)].

Definition rows_value (rows : list (list Value)) : Value := ser_list VArray rows.

Definition document_query_payload (connection_name : string) (connection_id : Uuid)
    (query : DocumentQuery) (result : DocumentPage) : Value :=
  VObject [("connection", VString connection_name); ("connectionId", uuid_to_value connection_id);
           ("query", document_query_to_value query); ("documents", VArray (dp_documents result));
           ("docCount", value_of_u64 (dp_doc_count result));
           ("truncated", VBool (dp_truncated result));
           ("uiMessage", VString "The full result is visible in the DopeDB app.")].

Definition document_success_event_payload (connection_name : string) (connection_id : Uuid)
    (query_text : string) (result : DocumentPage) : Value :=
  VObject [("tool", VString "run_document_query"); ("connection", VString connection_name);
           ("connectionId", uuid_to_value connection_id); ("sql", VString query_text);
           ("columns", ser_list VString ["document"]);
           ("rows", rows_value (truncate_cells (map (λ document, [document]) (dp_documents result))));
           ("rowCount", value_of_u64 (dp_doc_count result));
           ("truncated", VBool (dp_truncated result));
           ("durationMs", value_of_u64 (dp_duration_ms result))].

(** [Dashboard]'s [Serialize] *)
Definition dashboard_to_value (d : Dashboard) : Value :=
  VObject [("id", uuid_to_value (da_id d)); ("connectionId", uuid_to_value (da_connection_id d));
           ("title", VString (da_title d)); ("description", VString (da_description d));
           ("sql", VString (da_sql d));
           ("visualization", visualization_to_value (da_visualization d));
           ("createdAt", datetime_to_value (da_created_at d));
           ("updatedAt", datetime_to_value (da_updated_at d))].

(** An event about a connection. *)
Definition about_connection (tool connection : string) (id : Uuid) (fields : list (string * Value))
  : Value :=
  VObject (("tool", VString tool) :: ("connection", VString connection)
           :: ("connectionId", uuid_to_value id) :: fields).

Definition table_summary (t : Introspect.Table) : Value :=
  VObject [("name", VString (Introspect.tb_name t));
           ("schema", value_of_opt_string (Introspect.tb_schema t));
           ("columns", count_value (Introspect.tb_columns t));
           ("rowEstimate", value_of_opt_i64 (Introspect.tb_row_estimate t))].
Definition column_payload (c : Introspect.Column) : Value :=
  VObject [("name", VString (Introspect.ic_name c)); ("dataType", VString (Introspect.ic_data_type c));
           ("nullable", VBool (Introspect.ic_nullable c)); ("pk", VBool (Introspect.ic_pk c))].
Definition foreign_key_payload (f : Introspect.ForeignKey) : Value :=
  VObject [("column", VString (Introspect.fk_column f));
           ("referencesTable", VString (Introspect.fk_references_table f));
           ("referencesColumn", VString (Introspect.fk_references_column f))].

(** The table a name means: exactly, qualified or not, else up to ASCII case. *)
Definition names_table (want : string) (t : Introspect.Table) : bool :=
  (match Introspect.tb_schema t with
   | Some schema => schema +:+ "." +:+ Introspect.tb_name t
   | None => Introspect.tb_name t
   end =? want)%string || (Introspect.tb_name t =? want)%string.
Definition find_table (want : string) (catalog : Introspect.Catalog) : option Introspect.Table :=
  or_else (List.find (names_table want) (Introspect.ca_tables catalog))
    (List.find (λ t, eq_ignore_ascii_case (Introspect.tb_name t) want) (Introspect.ca_tables catalog)).
Definition table_payload (connection : string) (engine : Engine.t) (t : Introspect.Table) : Value :=
  VObject [("connection", VString connection); ("schema", value_of_opt_string (Introspect.tb_schema t));
           ("table", VString (Introspect.tb_name t));
           ("note", if Engine.is_document engine then VString "MongoDB columns are inferred from a bounded document sample — fields not seen in the sample may exist" else VNull);
           ("rowEstimate", value_of_opt_i64 (Introspect.tb_row_estimate t));
           ("columns", ser_list column_payload (Introspect.tb_columns t));
           ("foreignKeys", ser_list foreign_key_payload (Introspect.tb_foreign_keys t))].

Definition plan_event (plan : AgentQueryPlan) : Value :=
  about_connection "plan_query" (aqp_connection_name plan) (aqp_connection_id plan)
    [("sql", VString (aqp_sql plan)); ("planId", uuid_to_value (aqp_plan_id plan));
     ("decision", VString (aqp_decision plan));
     ("estimatedRows", value_of_opt_i64 (aqp_estimated_rows plan));
     ("healthLevel", VString (hs_level (aqp_health plan)));
     ("monitoringCoverage", VString (hs_coverage (aqp_health plan)));
     ("noticeCount", count_value (aqp_notices plan));
     ("notices", ser_list VString (aqp_notices plan));
     ("suggestions", ser_list VString (aqp_suggestions plan))].
Definition plan_payload (plan : AgentQueryPlan) : Value :=
  VObject [("connection", VString (aqp_connection_name plan));
           ("connectionId", uuid_to_value (aqp_connection_id plan));
           ("environment", value_of_opt_string (aqp_environment plan));
           ("sql", VString (aqp_sql plan)); ("planId", uuid_to_value (aqp_plan_id plan));
           ("singleUse", VBool true); ("expiresInSeconds", value_of_u64 (QUERY_PLAN_TTL / 10 ^ 9));
           ("decision", VString (aqp_decision plan));
           ("notices", ser_list VString (aqp_notices plan));
           ("suggestions", ser_list VString (aqp_suggestions plan));
           ("estimatedRows", value_of_opt_i64 (aqp_estimated_rows plan));
           ("health", health_to_value (aqp_health plan));
           ("nextAction", VString "Review these notices, then call run_query with this exact planId. If you change the SQL, call plan_query again.")].

(** The events and the result of a run. *)
Definition run_event (context : AgentQueryRunEventContext) (fields : list (string * Value)) : Value :=
  about_connection "run_query" (evc_connection_name context) (evc_connection_id context)
    (("planId", uuid_to_value (evc_plan_id context)) :: ("sql", VString (evc_sql context)) :: fields).
Definition run_result_event (run : AgentQueryRun) : Value :=
  about_connection "run_query" (aqr_connection_name run) (aqr_connection_id run)
    [("planId", uuid_to_value (aqr_plan_id run)); ("queryRunId", uuid_to_value (aqr_query_run_id run));
     ("sql", VString (aqr_sql run)); ("columns", ser_list VString (qr_columns (aqr_result run)));
     ("rows", rows_value (truncate_cells (qr_rows (aqr_result run))));
     ("rowCount", value_of_u64 (qr_row_count (aqr_result run)));
     ("truncated", VBool (qr_truncated (aqr_result run)));
     ("durationMs", value_of_u64 (qr_duration_ms (aqr_result run)))].
Definition run_payload (run : AgentQueryRun) : Value :=
  VObject [("connection", VString (aqr_connection_name run));
           ("connectionId", uuid_to_value (aqr_connection_id run));
           ("planId", uuid_to_value (aqr_plan_id run));
           ("planningDecision", VString (aqr_planning_decision run));
           ("queryRunId", uuid_to_value (aqr_query_run_id run)); ("sql", VString (aqr_sql run));
           ("columns", ser_list VString (qr_columns (aqr_result run)));
           ("rows", rows_value (qr_rows (aqr_result run)));
           ("rowCount", value_of_u64 (qr_row_count (aqr_result run)));
           ("truncated", VBool (qr_truncated (aqr_result run)));
           ("uiMessage", VString "The full result is visible in the DopeDB app.");
           ("dashboardSuggestion", VString "Ask whether the user wants to save this query as a dashboard. After explicit agreement, call create_dashboard with this exact queryRunId.")].

Definition document_event (context : DocumentReadEventContext) (error : string) : Value :=
  about_connection "run_document_query" (dec_connection_name context) (dec_connection_id context)
    [("sql", VString (dec_query_text context)); ("error", VString error)].

Definition dashboard_event (context : AgentDashboardEventContext) (fields : list (string * Value)) : Value :=
  about_connection "create_dashboard" (ae_connection_name context) (ae_connection_id context)
    (("queryRunId", uuid_to_value (ae_query_run_id context)) :: fields).
End payloads.

(** The text of [uuid]'s parse error. *)
Class UuidError := { uuid_error : string → string }.

(** The arguments, as the client sends them. *)
Section arguments.
Context {P : Platform}.
Record PlanQueryArgs := { pqa_connection : option string; pqa_sql : string; pqa_max_rows : option Z }.
Record RunDocumentQueryArgs := {
  rda_connection : option string; rda_query : DocumentQuery; rda_max_rows : option Z;
}.
Record CreateDashboardArgs := {
  cda_query_run_id : string; cda_presentation : AgentDashboardPresentation;
}.
(** One constructor per tool of the router. *)
Inductive ToolRequest :=
| ListConnections
| ListTables (connection : option string)
| DescribeTable (connection : option string) (table : string)
| PlanQuery (args : PlanQueryArgs)
| RunQuery (plan_id : string)
| RunDocumentQuery (args : RunDocumentQueryArgs)
| CreateDashboard (args : CreateDashboardArgs).
End arguments.

Definition err {D : ErrorDisplay} (e : AppError) : McpError := InternalError (error_to_string e).

Module DbTools.
Section tools.
Context {P : Platform} {Q : Sqlite} {SD : Serde} {C : ChronoSerde} {ED : ErrorDisplay}
  {D : StrDebug} {SP : SqlParser} {U : UuidError}.
Local Open Scope prog_scope.

Definition tool_call (payload : Value) : tool_program unit := emit "agent:tool_call" payload.
Definition tool_result (payload : Value) : tool_program unit := emit "agent:result" payload.

Definition resolution_error (error : LegacyConnectionResolutionError) : McpError :=
  match error with
  | NoConnections => InvalidParams "no connections configured in DopeDB"
  | NoLegacyMatch selector => InvalidParams ("no connection matching '" +:+ selector +:+ "'")
  end.
Definition resolve_conn (arg : option string)
  : tool_program (result McpError AgentConnectionSummary) :=
  try resolved ← host (ConnectionService.resolve_legacy_mcp arg) or err;
  check connection ← resolved or resolution_error;
  Ret (Ok connection).

Definition audit (connection : AgentConnectionSummary) (sql : string) (kind : QueryKind.t)
    (action : string) (error : option string) : tool_program unit :=
  ActivityService.record_best_effort
    {| ActivityService.arr_connection_id := acs_id connection;
       ActivityService.arr_engine := acs_engine connection;
       ActivityService.arr_subject := sql; ActivityService.arr_kind := kind;
       ActivityService.arr_action := action; ActivityService.arr_error := error |}.

Definition list_connections : tool_program (result McpError Value) :=
  _ ← tool_call (VObject [("tool", VString "list_connections")]);
  try list ← host ConnectionService.list_agent_summaries or err;
  _ ← tool_result (VObject [("tool", VString "list_connections"); ("count", count_value list)]);
  Ret (Ok (connection_list_payload list)).

Definition list_tables (connection : option string) : tool_program (result McpError Value) :=
  try resolved ← resolve_conn connection or id;
  _ ← tool_call (VObject [("tool", VString "list_tables"); ("connection", VString (acs_name resolved))]);
  try catalog ← CatalogService.load_catalog (acs_id resolved) LiveNoCache or err;
  _ ← audit resolved "(list_tables)" QueryKind.Read "mcp:list_tables" None;
  let tables := Introspect.ca_tables catalog in
  _ ← tool_result (about_connection "list_tables" (acs_name resolved) (acs_id resolved)
        [("tables", ser_list (λ t, VString (Introspect.tb_name t)) tables);
         ("count", count_value tables)]);
  Ret (Ok (VObject [("connection", VString (acs_name resolved));
                    ("tables", ser_list table_summary tables)])).

Definition describe_table (connection : option string) (want : string)
  : tool_program (result McpError Value) :=
  try resolved ← resolve_conn connection or id;
  _ ← tool_call (VObject [("tool", VString "describe_table");
                          ("connection", VString (acs_name resolved)); ("table", VString want)]);
  try catalog ← CatalogService.load_catalog (acs_id resolved) CacheFirst or err;
  check table ← ok_or (InvalidParams ("no table matching '" +:+ want +:+ "' in '"
                                      +:+ acs_name resolved +:+ "'")) (find_table want catalog) or id;
  _ ← audit resolved "(describe_table)" QueryKind.Read "mcp:describe_table" None;
  _ ← tool_result (about_connection "describe_table" (acs_name resolved) (acs_id resolved)
        [("table", VString (Introspect.tb_name table));
         ("columns", count_value (Introspect.tb_columns table))]);
  Ret (Ok (table_payload (acs_name resolved) (acs_engine resolved) table)).

Definition plan_query (args : PlanQueryArgs) : tool_program (result McpError Value) :=
  try resolved ← resolve_conn (pqa_connection args) or id;
  _ ← tool_call (about_connection "plan_query" (acs_name resolved) (acs_id resolved)
        [("sql", VString (pqa_sql args))]);
  planned ← service (plan_agent_read
    {| apq_connection_id := acs_id resolved; apq_sql := pqa_sql args;
       apq_max_rows := pqa_max_rows args; apq_origin := Mcp |});
  match planned with
  | Err DocumentConnection =>
      Ret (Err (InvalidParams "this is a MongoDB connection — SQL planning does not apply; call run_document_query with a typed find/aggregate/countDocuments request"))
  | Err (NotSingleRead rejection) =>
      let message := "plan_query accepts exactly one read-only SELECT statement" in
      _ ← tool_result (about_connection "plan_query" (rej_connection_name rejection)
            (rej_connection_id rejection) [("error", VString message)]);
      _ ← service (audit_after_result rejection);
      Ret (Err (InvalidParams message))
  | Err (PlanApplication error) => Ret (Err (err error))
  | Ok plan => _ ← tool_result (plan_event plan); Ret (Ok (plan_payload plan))
  end.

Definition run_prepare_error (error : AgentQueryRunPrepareError) : McpError :=
  match error with
  | UnknownOrAlreadyUsed =>
      InvalidParams "plan_id is unknown, expired, or already used; call plan_query again"
  | PlanExpired =>
      InvalidParams "plan_id expired; database health must be checked again with plan_query"
  | SessionMismatch =>
      InvalidParams "plan_id belongs to a different execution surface or Terminal session"
  | AuthorityChanged =>
      InvalidParams "workspace, account, or connection access changed; call plan_query again"
  | StoredPlanInvalid =>
      InvalidParams "stored plan no longer validates as one read-only statement"
  | QueryService.PrepareApplication error => err error
  end.

(** The message shown and the error returned when a run fails. *)
Definition run_error (error : AgentQueryRunError) : string * McpError :=
  match error with
  | ConnectionFailed error | ExecutionFailed error => (error_to_string error, err error)
  | ConsentHandlePersistence error =>
      ("query succeeded but its consent handle could not be persisted: " +:+ error_to_string error,
       err error)
  end.

Definition run_query (plan_id : string) : tool_program (result McpError Value) :=
  check plan_id ← ok_or (InvalidParams ("invalid plan_id: " +:+ uuid_error plan_id))
                    (uuid_parse plan_id) or id;
  try prepared ← service (prepare_agent_run plan_id) or run_prepare_error;
  let event_context := par_event_context prepared in
  _ ← tool_call (run_event event_context []);
  executed ← service (execute_prepared_run prepared);
  match executed with
  | Err error =>
      let '(message, error) := run_error error in
      _ ← tool_result (run_event event_context [("error", VString message)]);
      Ret (Err error)
  | Ok run => _ ← tool_result (run_result_event run); Ret (Ok (run_payload run))
  end.

Definition run_document_query (args : RunDocumentQueryArgs) : tool_program (result McpError Value) :=
  try resolved ← resolve_conn (rda_connection args) or id;
  check request ← agent_document_request (acs_id resolved) (rda_query args) (rda_max_rows args) Mcp
    or err;
  _ ← tool_call (about_connection "run_document_query" (acs_name resolved) (acs_id resolved)
        [("sql", VString (adr_query_text request))]);
  ran ← service (run_agent_read request);
  match ran with
  | Err AgentNonDocumentConnection =>
      Ret (Err (InvalidParams "run_document_query only works on MongoDB connections — use plan_query/run_query for SQL engines"))
  | Err (AgentRejected context message) =>
      _ ← tool_result (document_event context message);
      Ret (Err (InvalidParams message))
  | Err (AgentApplication error) => Ret (Err (err error))
  | Err (AgentExecution context error) =>
      _ ← tool_result (document_event context (error_to_string error));
      Ret (Err (err error))
  | Ok result =>
      let context := drs_context result in
      _ ← tool_result (document_success_event_payload (dec_connection_name context)
            (dec_connection_id context) (dec_query_text context) (drs_page result));
      Ret (Ok (document_query_payload (dec_connection_name context) (dec_connection_id context)
                 (drs_query result) (drs_page result)))
  end.

Definition create_prepare_error (error : AgentDashboardPrepareError) : McpError :=
  match error with
  | QueryRunNotFound => InvalidParams "query_run_id does not identify a stored DopeDB query run"
  | QueryRunIneligible => InvalidParams "query_run_id must identify a successful agent read query"
  | DashboardService.PrepareApplication error => err error
  end.
Definition commit_error (error : AgentDashboardCommitError) : string * McpError :=
  match error with
  | InvalidDraft error => (error_to_string error, InvalidParams (error_to_string error))
  | Persistence error => (error_to_string error, err error)
  end.

Definition create_dashboard (args : CreateDashboardArgs) : tool_program (result McpError Value) :=
  check query_run_id ← ok_or (InvalidParams ("invalid query_run_id: "
                                             +:+ uuid_error (cda_query_run_id args)))
                         (uuid_parse (cda_query_run_id args)) or id;
  try prepared ← host (DashboardService.prepare_agent_create query_run_id (cda_presentation args))
    or create_prepare_error;
  let context := pa_event_context prepared in
  _ ← tool_call (dashboard_event context
        [("title", VString (ae_title context)); ("sql", VString (ae_sql context))]);
  saved ← host (DashboardService.commit prepared);
  match saved with
  | Err error =>
      let '(message, error) := commit_error error in
      _ ← tool_result (dashboard_event context [("error", VString message)]);
      Ret (Err error)
  | Ok saved =>
      _ ← emit "dashboard:created" (dashboard_to_value saved);
      _ ← tool_result (dashboard_event context
            [("dashboardId", uuid_to_value (da_id saved)); ("title", VString (da_title saved))]);
      Ret (Ok (VObject [("dashboard", dashboard_to_value saved);
        ("queryRunId", uuid_to_value (ae_query_run_id context));
        ("uiMessage", VString "The dashboard was saved and is available in the DopeDB app.")]))
  end.

(** The router *)
Definition call_tool (request : ToolRequest) : tool_program (result McpError Value) :=
  match request with
  | ListConnections => list_connections
  | ListTables connection => list_tables connection
  | DescribeTable connection table => describe_table connection table
  | PlanQuery args => plan_query args
  | RunQuery plan_id => run_query plan_id
  | RunDocumentQuery args => run_document_query args
  | CreateDashboard args => create_dashboard args
  end.
End tools.
End DbTools.

(** ** What the tools may do *)

Section makes.
Context {Op : Type} {Res : Op → Type}.
Variable good : Op → bool.

(** Every call the program can make, whatever it is answered, is a [good] one. *)
Fixpoint makes {A} (p : prog Res A) : Prop :=
  match p with Ret _ => True | Vis c k => good c = true ∧ ∀ r, makes (k r) end.

Lemma makes_bind {A B} (p : prog Res A) (f : A → prog Res B) :
  makes p → (∀ a, makes (f a)) → makes (p ≫= f).
Proof. intros Hp Hf. induction p as [a|c k IH]; cbn; [apply Hf|]. destruct Hp. naive_solver. Qed.
Lemma makes_try {E F A B} (f : E → F) (m : prog Res (result E A)) (k : A → prog Res (result F B)) :
  makes m → (∀ a, makes (k a)) → makes (try_with f m k).
Proof. intros Hm Hk. apply makes_bind; [done|]. intros [a|e]; [apply Hk|done]. Qed.
Lemma makes_try_pure {E F A B} (f : E → F) (r : result E A) (k : A → prog Res (result F B)) :
  (∀ a, makes (k a)) → makes (try_pure f r k).
Proof. intros Hk. destruct r; cbn; [apply Hk|done]. Qed.

(** Every result of the program satisfies [F]. *)
Fixpoint gives {A} (F : A → Prop) (p : prog Res A) : Prop :=
  match p with Ret a => F a | Vis c k => ∀ r, gives F (k r) end.

Lemma gives_bind {A B} (F : B → Prop) (p : prog Res A) (f : A → prog Res B) :
  (∀ a, gives F (f a)) → gives F (p ≫= f).
Proof. intros Hf. induction p as [a|c k IH]; cbn; auto. Qed.

Lemma wp_makes_gives ok allowed {A} (F : A → Prop) (p : prog Res A) (Q : A → list (entry Res) → Prop) h :
  makes p → gives F p → (∀ l c, good c = true → allowed (l ++ h) c) →
  (∀ a l, F a → Q a (l ++ h)) → wp ok allowed p Q h.
Proof.
  intros Hp HF Ha HQ. cut (∀ l, wp ok allowed p Q (l ++ h)); [intros H; by apply (H [])|].
  induction p as [a|c k IH]; cbn; intros l; [by apply HQ|]. destruct Hp as [Hc Hp].
  split; [by apply Ha|]. intros r _. apply (IH r (Hp r) (HF r) (Entry c r :: l)).
Qed.

Lemma wp_makes ok allowed {A} (p : prog Res A) (Q : A → list (entry Res) → Prop) h :
  makes p → (∀ l c, good c = true → allowed (l ++ h) c) → (∀ a l, Q a (l ++ h)) →
  wp ok allowed p Q h.
Proof.
  intros Hp Ha HQ. apply (wp_makes_gives _ _ (λ _, True)); auto. induction p; cbn in *; naive_solver.
Qed.
End makes.

(** Through the layers of calls. *)
Section layers.
Context {P : Platform} {Q : Sqlite}.
Variable good : ToolCall.t → bool.

Lemma makes_host {A} (p : host_program A) :
  makes (λ c, good (ToolCall.Host c)) p → makes good (host p).
Proof. induction p as [a|c k IH]; cbn; [done|]. intros [Hc H]. auto. Qed.

Lemma gives_host {A} (F : A → Prop) (p : host_program A) : gives F p → gives F (host p).
Proof. induction p as [a|c k IH]; cbn; auto. Qed.

Lemma makes_in_store (g : HostCall.t → bool) {A} (p : store_program A) :
  makes (λ c, g (HostCall.Db c)) p → makes g (in_store p).
Proof. induction p as [a|c k IH]; cbn; [done|]. intros [Hc H]. auto. Qed.

(** The store answers for the connections it keeps. *)
Lemma makes_hosted (g : HostCall.t → bool) {A} (p : cache_program A) :
  (∀ id read, g (HostCall.Db (Pin id read)) = true) →
  (∀ pin, g (HostCall.Db (PinCurrent pin)) = true) →
  makes (λ c, g (HostCall.Manager c)) p → makes g (hosted p).
Proof.
  intros Hp Hc. induction p as [a|c k IH]; [done|]. intros [Hg H].
  destruct c as [c| | | | | | | | | | | | | | | | | | | | | | | | | | | |]; try (cbn; auto; fail).
  destruct c; cbn; auto.
Qed.

Lemma makes_lift (g : CacheCall.t → bool) {A} (p : program A) :
  only_calls (λ c, g (Service c)) p → makes g (lift p).
Proof. induction p as [a|c k IH]; cbn; [done|]. intros [Hc H]. auto. Qed.
End layers.

Section safety.
Context {P : Platform} {Q : Sqlite} {SD : Serde} {C : ChronoSerde} {ED : ErrorDisplay}
  {D : StrDebug} {SP : SqlParser} {U : UuidError}.

(** The calls of the store a tool makes: reads, the schema cache and, where [saves]
    accepts the draft, a dashboard. *)
Definition tool_store_call (saves : DashboardDraft → bool) (c : StoreCall.t) : bool :=
  match c with
  | ActiveScope | ActiveWorkspace | SelectedAccount | ConnectionRows _ _ | Pin _ _ | PinCurrent _
  | GetCatalog _ | PutCatalog _ _ | ClearCache _ | ResolveHistory _ | HistoryIfCurrent _ _ => true
  | SaveDashboard _ draft _ _ _ => saves draft
  | _ => false
  end.

(** A call to the services, the target database included: nothing that fetches rows,
    writes or runs in a transaction. *)
Definition untouched (c : Call.t) : bool := negb (is_fetch c) && negb (in_transaction c).

Definition tool_makes (reads : Call.t → bool) (saves : DashboardDraft → bool) (c : ToolCall.t) : bool :=
  match c with
  | ToolCall.Host (HostCall.Db c) => tool_store_call saves c
  | ToolCall.Host (HostCall.Manager (Service c)) => untouched c || reads c
  | ToolCall.Host (HostCall.Manager GateRead) | ToolCall.Host (HostCall.Manager GateRelease)
  | ToolCall.Introspect _ | ToolCall.TableDdl _ _ _ | ToolCall.AuditRead | ToolCall.Emit _ _ => true
  | ToolCall.Host _ => false
  end.
Definition nothing {A} (a : A) : bool := false.
Abbreviation harmless := (tool_makes nothing nothing).

(** The tool call was shown in the window with this text. *)
Definition announced (tool sql : string) (h : list (entry ToolCall.res)) : Prop :=
  ∃ fields, Entry (Res := ToolCall.res) (ToolCall.Emit "agent:tool_call" (VObject fields)) tt ∈ h
    ∧ ("tool", VString tool) ∈ fields ∧ ("sql", VString sql) ∈ fields.

(** What a tool may do after [h]. *)
Definition tool_may (h : list (entry ToolCall.res)) (c : ToolCall.t) : Prop :=
  match c with
  | ToolCall.Host (HostCall.Manager (Service (Call.ReadOnlyRun _ sql _))) => announced "run_query" sql h
  | ToolCall.Host (HostCall.Manager (Service (Call.DocumentRun _ _ _ _))) =>
      ∃ text, announced "run_document_query" text h
  | ToolCall.Host (HostCall.Db (SaveDashboard _ draft _ _ _)) =>
      announced "create_dashboard" (dd_sql draft) h
  | c => harmless c = true
  end.

Ltac solve_makes :=
  intros;
  repeat first
    [ apply makes_bind; [|intros]
    | apply makes_try; [|intros]
    | apply makes_try_pure; intros
    | apply makes_host
    | apply makes_in_store
    | apply makes_hosted; [reflexivity|reflexivity|]
    | apply makes_lift
    | match goal with
      | |- makes _ (match ?x with _ => _ end) => destruct x
      | |- makes _ (if ?b then _ else _) => destruct b
      | |- makes _ (let '(_, _) := ?x in _) => destruct x
      end
    | progress (intros ?)
    | done ].

Lemma untouched_plan request : only_calls untouched (plan_agent_read request).
Proof.
  unfold plan_agent_read, plan_agent_read_scoped, manager_pin, context_connect, authorize_pin,
    preview, explain, health_snapshot. solve_only.
Qed.
Lemma untouched_prepare plan_id : only_calls untouched (prepare_agent_run plan_id).
Proof.
  unfold prepare_agent_run, prepare_agent_run_scoped, confirm_plan, refuse_plan, plan_expired, manager_pin. solve_only.
Qed.

(** A prepared run only reads with the statement of its plan. *)
Definition runs (sql : string) (c : Call.t) : bool :=
  match c with Call.ReadOnlyRun _ sql' _ => (sql' =? sql)%string | _ => false end.
Definition reads_documents (c : Call.t) : bool :=
  match c with Call.DocumentRun _ _ _ _ => true | _ => false end.

Lemma untouched_or g {A} (p : program A) :
  only_calls untouched p → only_calls (λ c, untouched c || g c) p.
Proof.
  induction p as [a|c k IH]; cbn; [done|]. intros [-> H]. split; [done|]. auto.
Qed.

Lemma prepared_run_reads self :
  only_calls (λ c, untouched c || runs (evc_sql (par_event_context self)) c) (execute_prepared_run self).
Proof.
  unfold execute_prepared_run, execute_read, abandon_plan, receive_read, record_run_failure,
    context_connect, authorize_pin, read_only_cancellable. solve_only.
  split; [|done]. cbn. apply String.eqb_refl.
Qed.
Lemma document_reads request :
  only_calls (λ c, untouched c || reads_documents c) (run_agent_read request).
Proof.
  unfold run_agent_read, run_claimed_document, manager_pin, context_connect, authorize_pin. solve_only.
Qed.

(** The parts of the tools. *)
Lemma makes_resolve reads saves arg : makes (tool_makes reads saves) (DbTools.resolve_conn arg).
Proof.
  unfold DbTools.resolve_conn, ConnectionService.resolve_legacy_mcp, Store.list_connections. solve_makes.
Qed.
Lemma makes_audit reads saves c sql kind action error :
  makes (tool_makes reads saves) (DbTools.audit c sql kind action error).
Proof. unfold DbTools.audit, ActivityService.record_best_effort, service. solve_makes. Qed.
Lemma makes_prepare_create reads saves id presentation :
  makes (tool_makes reads saves) (host (DashboardService.prepare_agent_create id presentation)).
Proof.
  unfold DashboardService.prepare_agent_create, DashboardService.in_operation_scope. solve_makes.
Qed.
Lemma makes_commit reads saves self :
  saves (pa_draft self) = true →
  makes (tool_makes reads saves) (host (DashboardService.commit self)).
Proof.
  intros H. unfold DashboardService.commit, DashboardService.in_operation_scope,
    DashboardService.save_if_current. solve_makes.
Qed.
Lemma makes_catalog reads saves id mode :
  makes (tool_makes reads saves) (CatalogService.load_catalog id mode).
Proof.
  unfold CatalogService.load_catalog, CatalogService.pinned, CatalogService.cached,
    CatalogService.introspect_and_maybe_store, CatalogService.snapshot_now,
    CatalogService.store_snapshot, service. solve_makes.
Qed.
Lemma makes_service reads saves {A} (p : program A) :
  only_calls (λ c, untouched c || reads c) p → makes (tool_makes reads saves) (service p).
Proof. intros H. unfold service. solve_makes. Qed.

(** The tools that only look. *)
Lemma harmless_list_connections : makes harmless DbTools.list_connections.
Proof.
  unfold DbTools.list_connections, ConnectionService.list_agent_summaries, Store.list_connections.
  solve_makes.
Qed.
Lemma harmless_list_tables connection : makes harmless (DbTools.list_tables connection).
Proof.
  unfold DbTools.list_tables. apply makes_try; [apply makes_resolve|intros resolved].
  apply makes_bind; [done|intros _]. apply makes_try; [apply makes_catalog|intros catalog].
  apply makes_bind; [apply makes_audit|]. solve_makes.
Qed.
Lemma harmless_describe_table connection want : makes harmless (DbTools.describe_table connection want).
Proof.
  unfold DbTools.describe_table. apply makes_try; [apply makes_resolve|intros resolved].
  apply makes_bind; [done|intros _]. apply makes_try; [apply makes_catalog|intros catalog].
  apply makes_try_pure. intros table. apply makes_bind; [apply makes_audit|]. solve_makes.
Qed.
Lemma harmless_plan_query args : makes harmless (DbTools.plan_query args).
Proof.
  unfold DbTools.plan_query. apply makes_try; [apply makes_resolve|intros resolved].
  apply makes_bind; [done|intros _]. apply makes_bind.
  - apply makes_service, untouched_or, untouched_plan.
  - intros [plan|[|rejection|error]]; unfold service, audit_after_result; solve_makes.
Qed.

Lemma tool_may_harmless h c : harmless c = true → tool_may h c.
Proof.
  destruct c as [[c| |c| | | | | | | | | | | |]| | | |]; cbn; auto; [by destruct c|].
  destruct c as [c| | | | | | | | | | | | | | | | | | | | | | | | | | | |]; cbn; auto. by destruct c.
Qed.
Lemma wp_harmless {A} (p : tool_program A) (post : A → list (entry ToolCall.res) → Prop) h :
  makes harmless p → (∀ a l, post a (l ++ h)) → wp (λ _ _, True) tool_may p post h.
Proof. intros Hp HQ. apply (wp_makes harmless); auto. intros l c. apply tool_may_harmless. Qed.

Lemma announced_app tool sql l h : announced tool sql h → announced tool sql (l ++ h).
Proof. intros (fields & He & Hf). exists fields. split; [|done]. apply elem_of_app. by right. Qed.

(** The calls of [tool_makes] when what it reads or saves was announced. *)
Lemma tool_may_announced reads saves h c :
  (∀ pool sql n, reads (Call.ReadOnlyRun pool sql n) = true → announced "run_query" sql h) →
  (∀ m q n t, reads (Call.DocumentRun m q n t) = true → ∃ text, announced "run_document_query" text h) →
  (∀ c, is_fetch c = false ∨ (∃ pool sql n, c = Call.FetchRows pool sql n) → reads c = false) →
  (∀ draft, saves draft = true → announced "create_dashboard" (dd_sql draft) h) →
  tool_makes reads saves c = true → tool_may h c.
Proof.
  intros Hr Hd Hq Hs.
  destruct c as [[c| |c| | | | | | | | | | | |]| | | |]; cbn; auto; [destruct c; cbn; auto|].
  destruct c as [c| | | | | | | | | | | | | | | | | | | | | | | | | | | |]; cbn; auto.
  destruct c; cbn; auto; try (rewrite Hq by eauto; done); eauto.
Qed.

(** A tool's event is shown; what follows may count on it. *)
Lemma wp_announce {A} tool sql fields (k : unit → tool_program A)
    (post : A → list (entry ToolCall.res) → Prop) h :
  ("tool", VString tool) ∈ fields → ("sql", VString sql) ∈ fields →
  (∀ h', announced tool sql h' → wp (λ _ _, True) tool_may (k tt) post h') →
  wp (λ _ _, True) tool_may (DbTools.tool_call (VObject fields) ≫= k) post h.
Proof.
  intros Ht Hs Hk. split; [done|]. intros [] _. apply Hk. exists fields.
  split; [apply elem_of_cons; by left|done].
Qed.

Lemma wp_run_query plan_id h :
  wp (λ _ _, True) tool_may (DbTools.run_query plan_id) (λ _ _, True) h.
Proof.
  unfold DbTools.run_query. wp_step; [|done]. wp_step.
  apply wp_harmless; [apply makes_service, untouched_or, untouched_prepare|].
  intros [prepared|error] l; [|done]. cbv zeta.
  apply (wp_announce "run_query" (evc_sql (par_event_context prepared))); [set_solver..|].
  intros h' Ha. wp_step.
  apply (wp_makes (tool_makes (runs (evc_sql (par_event_context prepared))) nothing));
    [apply makes_service, prepared_run_reads| |].
  - intros l' c. apply tool_may_announced; try done.
    + intros pool sql n ->%String.eqb_eq. by apply announced_app.
    + intros c' [Hf|(pool & sql & n & ->)]; [by destruct c'|done].
  - intros [run|error] l'; apply wp_harmless; try done; solve_makes.
Qed.

Lemma wp_run_document_query args h :
  wp (λ _ _, True) tool_may (DbTools.run_document_query args) (λ _ _, True) h.
Proof.
  unfold DbTools.run_document_query. wp_step. apply wp_harmless; [apply makes_resolve|].
  intros [resolved|error] l; [|done]. apply wp_try_pure; [|done]. intros request _.
  apply (wp_announce "run_document_query" (adr_query_text request)); [set_solver..|].
  intros h' Ha. wp_step.
  apply (wp_makes (tool_makes reads_documents nothing)); [apply makes_service, document_reads| |].
  - intros l' c. apply tool_may_announced; try done.
    + intros _ _ _ _ _. eexists. by apply announced_app.
    + intros c' [Hf|(pool & sql & n & ->)]; [by destruct c'|done].
  - intros [result|error] l'; apply wp_harmless; try done; solve_makes.
Qed.

(** The prepared draft has the statement of the event. *)
Lemma prepared_sql id presentation :
  gives (λ r, ∀ self, r = Ok self → dd_sql (pa_draft self) = ae_sql (pa_event_context self))
    (DashboardService.prepare_agent_create id presentation).
Proof.
  unfold DashboardService.prepare_agent_create, DashboardService.in_operation_scope.
  repeat first [ apply gives_bind; intros ?
               | match goal with |- gives _ (match ?x with _ => _ end) => destruct x end ];
    cbn; intros self [= <-]; done.
Qed.

Lemma wp_create_dashboard args h :
  wp (λ _ _, True) tool_may (DbTools.create_dashboard args) (λ _ _, True) h.
Proof.
  unfold DbTools.create_dashboard. wp_step; [|done]. wp_step.
  eapply wp_makes_gives;
    [apply (makes_prepare_create nothing nothing)|apply gives_host, prepared_sql
    |intros l c; apply tool_may_harmless|].
  intros [prepared|error] l Hsql; [|done]. specialize (Hsql _ eq_refl). cbv zeta.
  apply (wp_announce "create_dashboard" (ae_sql (pa_event_context prepared))); [set_solver..|].
  intros h' Ha. wp_step.
  apply (wp_makes (tool_makes nothing
    (λ draft, dd_sql draft =? ae_sql (pa_event_context prepared))%string)).
  - apply makes_commit. rewrite Hsql. apply String.eqb_refl.
  - intros l' c. apply tool_may_announced; try done.
    intros draft Hd%String.eqb_eq. rewrite Hd. by apply announced_app.
  - intros [saved|error] l'; apply wp_harmless; try done; solve_makes.
Qed.
End safety.

(** C8. The tools an agent is given never change a database or an account: for every
    request, and whatever the store, the services, the introspected database and the
    target answer, a tool makes no call that writes to a target, opens or ends a
    transaction, changes a workspace, a connection, a binding, a safety setting or a
    credential, or signs in or out.  A statement is sent to a target only by
    [run_query], in the database's read-only session, and only after the window was
    shown exactly that statement; documents are read only by [run_document_query],
    after it was shown; and a dashboard is saved only by [create_dashboard], with the
    statement that was shown. *)
Theorem mcp_tools_read_only {P : Platform} {Q : Sqlite} {SD : Serde} {C : ChronoSerde}
    {ED : ErrorDisplay} {D : StrDebug} {SP : SqlParser} {U : UuidError} request :
  wp (λ _ _, True) tool_may (DbTools.call_tool request) (λ _ _, True) [].
Proof.
  destruct request; cbn [DbTools.call_tool].
  - apply wp_harmless; [apply harmless_list_connections|done].
  - apply wp_harmless; [apply harmless_list_tables|done].
  - apply wp_harmless; [apply harmless_describe_table|done].
  - apply wp_harmless; [apply harmless_plan_query|done].
  - apply wp_run_query.
  - apply wp_run_document_query.
  - apply wp_create_dashboard.
Qed.
