(* ===== verification/WorkspaceService.v ===== *)
(** * The workspace service (src-tauri/src/services/workspace_service.rs)

    Signing in and out, refreshing memberships, selecting a workspace, mirroring
    the shared templates, binding a member's credentials and copying a local
    connection into a team. *)

From S2P Require Export ConnectionService.

Module WorkspaceService.
Section service.
Context {P : Platform} {Q : Sqlite}.
Local Open Scope prog_scope.
Local Abbreviation do := (call (Res := HostCall.res)).
Import HostCall.

(** The value of [DOPEDB_WORKSPACES_ENABLED], if it is set. *)
Definition feature_state (value : option string) : bool :=
  match value with
  | Some value => negb (one_of ["0"; "false"; "off"] (str_lower (trim value)))
  | None => true
  end.

Definition selected_account : host_program (option string) := do (Db SelectedAccount).

Fixpoint delete_secrets (ids : list Uuid) : host_program unit :=
  match ids with
  | [] => Ret tt
  | id :: ids => _ ← ConnectionService.delete_secret_best_effort id; delete_secrets ids
  end.

(** ** Refreshing *)

(** An outage leaves the cached templates. *)
Definition sync_connections (account_user_id : string) (workspace_id : Uuid)
  : host_program (AppResult unit) :=
  listed ← do (RemoteConnections account_user_id workspace_id);
  match listed with
  | Ok (Some connections) =>
      try removed ← manager_sync_remote_connections workspace_id account_user_id connections or id;
      _ ← delete_secrets (elements removed);
      Ret (Ok tt)
  | Ok None | Err _ => Ret (Ok tt)
  end.

Definition is_team (kind : WorkspaceKind.t) : bool :=
  match kind with WorkspaceKind.Team => true | WorkspaceKind.Personal => false end.

Definition sync_account_memberships (user : WorkspaceAuthUser) : host_program (AppResult unit) :=
  now ← host_now;
  _ ← do (Db (Remember user now));
  try workspaces ← do (RemoteWorkspaces (us_id user)) or id;
  try _ ← manager_sync_account_workspaces user workspaces or id;
  try active ← do (Db ActiveWorkspace) or id;
  if is_team (wk_kind active)
  then
    selected ← selected_account;
    if bool_decide (selected = Some (us_id user))
    then try _ ← sync_connections (us_id user) (wk_id active) or id; Ret (Ok tt)
    else Ret (Ok tt)
  else Ret (Ok tt).

Definition has_account (user_id : string) (accounts : list Store.WorkspaceAuthAccount) : bool :=
  existsb (λ account, us_id (Store.wa_user account) =? user_id)%string accounts.

Definition ensure_active_account : host_program (AppResult unit) :=
  active ← selected_account;
  try accounts ← in_store Store.workspace_accounts or id;
  match active with
  | Some active_id =>
      if has_account active_id accounts then Ret (Ok tt)
      else try _ ← manager_remove_workspace_account active_id or id; Ret (Ok tt)
  | None =>
      match accounts with
      | account :: _ =>
          try _ ← manager_activate_workspace_account (us_id (Store.wa_user account)) or id; Ret (Ok tt)
      | [] => Ret (Ok tt)
      end
  end.

Definition auth_state_from_store : host_program (AppResult WorkspaceAuthState) :=
  try accounts ← in_store Store.workspace_accounts or id;
  active ← selected_account;
  let user := (active_id ← active;
               Store.wa_user <$> List.find (λ account, us_id (Store.wa_user account) =? active_id)%string
                                   accounts) in
  Ret (Ok {| au_authenticated := bool_decide (is_Some user); au_user := user;
             au_accounts := accounts |}).

Definition auth_state : host_program (AppResult WorkspaceAuthState) :=
  try _ ← ensure_active_account or id; auth_state_from_store.

(** The upgrade of the only session older releases stored. *)
Definition migrate_session : host_program (AppResult unit) :=
  try accounts ← in_store Store.workspace_accounts or id;
  match accounts with
  | _ :: _ => Ret (Ok tt)
  | [] =>
      try migrated ← do MigrateLegacySession or id;
      match migrated with
      | None => Ret (Ok tt)
      | Some user =>
          _ ← sync_account_memberships user;
          try _ ← manager_activate_workspace_account (us_id user) or id;
          Ret (Ok tt)
      end
  end.

Definition refresh_auth_state : host_program (AppResult WorkspaceAuthState) :=
  try _ ← migrate_session or id;
  try _ ← ensure_active_account or id;
  active ← selected_account;
  try _ ← match active with
          | None => Ret (Ok tt)
          | Some user_id =>
              validated ← do (AuthUser user_id);
              match validated with
              | Ok (Some user) => _ ← sync_account_memberships user; Ret (Ok tt)
              | Ok None =>
                  try _ ← manager_remove_workspace_account user_id or id;
                  ensure_active_account
              | Err _ => Ret (Ok tt)
              end
          end or id;
  auth_state_from_store.

Definition validated_user (user_id : string) : host_program (AppResult WorkspaceAuthUser) :=
  try user ← do (AuthUser user_id) or id;
  match user with
  | Some user => Ret (Ok user)
  | None =>
      try _ ← manager_remove_workspace_account user_id or id;
      try _ ← ensure_active_account or id;
      Ret (Err (Network "workspace session is no longer active"))
  end.

Fixpoint refresh_accounts (accounts : list Store.WorkspaceAuthAccount) : host_program (AppResult unit) :=
  match accounts with
  | [] => Ret (Ok tt)
  | account :: accounts =>
      let user_id := us_id (Store.wa_user account) in
      validated ← do (AuthUser user_id);
      try _ ← match validated with
              | Ok (Some user) => sync_account_memberships user
              | Ok None => manager_remove_workspace_account user_id
              | Err _ => Ret (Ok tt)
              end or id;
      refresh_accounts accounts
  end.

Definition list_workspaces : host_program (AppResult (list Workspace)) := do (Db ListWorkspaces).

Definition refresh_memberships : host_program (AppResult (list Workspace)) :=
  try accounts ← in_store Store.workspace_accounts or id;
  try _ ← refresh_accounts accounts or id;
  try _ ← ensure_active_account or id;
  list_workspaces.

Definition active : host_program (AppResult Workspace) := do (Db ActiveWorkspace).

(** ** Signing in and out *)

Definition sign_out (user_id : option string) : host_program (AppResult WorkspaceAuthState) :=
  try user_id ← match user_id with
                | Some user_id => Ret (Ok user_id)
                | None => selected ← selected_account;
                          Ret (ok_or (Config "no workspace account is signed in") selected)
                end or id;
  try _ ← manager_remove_workspace_account user_id or id;
  try _ ← do (SignOut user_id) or id;
  auth_state_from_store.

(** [first_error.get_or_insert(error)] *)
Definition keep_first (first : option AppError) (r : AppResult unit) : option AppError :=
  match first, r with None, Err error => Some error | _, _ => first end.

Fixpoint sign_out_accounts (accounts : list Store.WorkspaceAuthAccount) (first_error : option AppError)
  : host_program (option AppError) :=
  match accounts with
  | [] => Ret first_error
  | account :: accounts =>
      let user_id := us_id (Store.wa_user account) in
      removed ← manager_remove_workspace_account user_id;
      revoked ← do (SignOut user_id);
      sign_out_accounts accounts (keep_first (keep_first first_error removed) revoked)
  end.

Definition sign_out_all : host_program (AppResult WorkspaceAuthState) :=
  try accounts ← in_store Store.workspace_accounts or id;
  first_error ← sign_out_accounts accounts None;
  match first_error with
  | Some error => Ret (Err error)
  | None => auth_state_from_store
  end.

Definition begin_login : host_program (AppResult WorkspaceDeviceAuthorization) := do BeginLogin.

Definition poll_login (device_code : string) : host_program (AppResult WorkspaceLoginPoll) :=
  try polled ← do (PollLogin device_code) or id;
  match lp_status polled with
  | SignedIn =>
      check user ← ok_or (Network "workspace login did not return an account") (lp_user polled) or id;
      _ ← sync_account_memberships user;
      try _ ← manager_activate_workspace_account (us_id user) or id;
      Ret (Ok polled)
  | _ => Ret (Ok polled)
  end.

(** ** Selecting *)

Definition selection_requires_account : AppError :=
  Config "team workspace selection requires an account".

Definition activate (id : Uuid) (account_user_id : option string) : host_program (AppResult Workspace) :=
  try workspaces ← list_workspaces or Datatypes.id;
  check target ← ok_or (NotFound ("workspace " +:+ uuid_to_string id))
                   (List.find (λ workspace, bool_decide (wk_id workspace = id)) workspaces)
    or Datatypes.id;
  try _ ← (if is_team (wk_kind target) then
             check user_id ← ok_or selection_requires_account account_user_id or Datatypes.id;
             try user ← validated_user user_id or Datatypes.id;
             sync_account_memberships user
           else Ret (Ok tt)) or Datatypes.id;
  try workspace ← manager_activate_workspace id account_user_id or Datatypes.id;
  if is_team (wk_kind workspace) then
    check account_user_id ← ok_or selection_requires_account account_user_id or Datatypes.id;
    _ ← sync_connections account_user_id (wk_id workspace);
    Ret (Ok workspace)
  else Ret (Ok workspace).

Definition activate_account (user_id : string) : host_program (AppResult Workspace) :=
  try user ← validated_user user_id or id;
  try _ ← sync_account_memberships user or id;
  try workspace ← manager_activate_workspace_account user_id or id;
  _ ← (if is_team (wk_kind workspace) then sync_connections user_id (wk_id workspace)
       else Ret (Ok tt));
  Ret (Ok workspace).

(** ** Credentials of shared templates *)

Definition bind_connection_credentials (connection_id : Uuid) (username password : string)
  : host_program (AppResult ConnectionProfile) :=
  let username := trim username in
  if (320 <? str_len username)%N || any_control username
  then Ret (Err (Config "username is invalid"))
  else if (password =? "")%string || (MAX_CONNECTION_CREDENTIAL_BYTES <? str_len password)%N
  then Ret (Err (Config "connection credential is empty or exceeds the size limit"))
  else
  try pin ← begin_connection_mutation connection_id ConnectionAccess.Read or id;
  let profile := pc_profile pin in
  hold_check _ ← reject_if (is_local (cp_workspace_access profile))
    (Config "connection is not a shared workspace template");
  hold_check _ ← reject_if (match cp_credential_mode profile with
                            | WorkspaceCredentialMode.MemberLocal => false | _ => true end)
    (Blocked "this shared connection uses automatically managed credentials");
  hold_check _ ← reject_if (negb (WorkspaceConnectionAccess.can_read (cp_workspace_access profile)))
    (Blocked "your workspace role cannot execute this connection");
  hold_check account_user_id ← ok_or (Config "no active workspace account")
    (sc_selected_account_id (pc_scope pin));
  hold_check previous ←
    match cp_secret_ref profile with
    | None => Ok None
    | Some secret_ref =>
        previous ← ok_or (Config "connection secret reference is invalid") (uuid_parse secret_ref);
        Ok (Some previous)
    end;
  credential_id ← host_uuid;
  hold _ ← do (StoreSecret credential_id password);
  bound ← store_bind_connection_credentials connection_id account_user_id username
            (cp_extra_params profile) (Some (uuid_to_string credential_id));
  match bound with
  | Ok profile =>
      _ ← retire_connections [connection_id];
      _ ← ConnectionService.delete_optional_secret previous;
      Ret (Ok profile)
  | Err error =>
      _ ← ConnectionService.delete_secret_best_effort credential_id;
      _ ← drop_guard;
      Ret (Err error)
  end.

(** The prerequisites of a copy: the local connection and the account that may
    write to the team. *)
Definition copy_source (connection_id workspace_id : Uuid) (account_user_id : string)
  : host_program (AppResult (ConnectionProfile * string)) :=
  try source ← in_store (Store.get_connection connection_id) or id;
  if negb (is_local (cp_workspace_access source))
  then Ret (Err (Config "only a local connection can be copied into a workspace"))
  else
  try workspaces ← list_workspaces or id;
  check target ← ok_or (NotFound ("team workspace " +:+ uuid_to_string workspace_id))
                   (List.find (λ workspace, bool_decide (wk_id workspace = workspace_id)
                                            && is_team (wk_kind workspace)) workspaces) or id;
  current ← selected_account;
  try active_id ← in_store Store.active_workspace_id or id;
  if bool_decide (wk_id target = active_id) && bool_decide (current = Some account_user_id)
  then Ret (Err (Config "choose a different team workspace"))
  else
  try accounts ← in_store Store.workspace_accounts or id;
  check account ← ok_or (NotFound ("workspace " +:+ uuid_to_string workspace_id +:+ " for account "
                                   +:+ account_user_id))
    (List.find (λ account, (us_id (Store.wa_user account) =? account_user_id)%string
       && existsb (λ membership, bool_decide (ms_workspace_id membership = workspace_id))
            (Store.wa_memberships account)) accounts) or id;
  Ret (Ok (source, us_id (Store.wa_user account))).

(** The local half of a copy: the templates with the new one, then the binding. *)
Definition adopt_shared (user_id : string) (workspace_id : Uuid) (source created : ConnectionProfile)
    (remote : list (ConnectionProfile * Z)) (credential_id : option Uuid)
  : host_program (AppResult ConnectionProfile) :=
  try removed ← manager_sync_remote_connections workspace_id user_id remote or id;
  _ ← delete_secrets (elements removed);
  store_bind_connection_credentials (cp_id created) user_id (cp_username source)
    (cp_extra_params source) (uuid_to_string <$> credential_id).

(** The remote resource is taken back; a failure is logged. *)
Definition roll_back_shared (user_id : string) (workspace_id created_id : Uuid) : host_program unit :=
  rolled_back ← do (DeleteRemoteConnection user_id workspace_id created_id);
  match rolled_back with
  | Ok _ => _ ← do (Db (Purge workspace_id created_id)); Ret tt
  | Err _ => Ret tt
  end.

Definition copy_connection (connection_id workspace_id : Uuid) (account_user_id : string)
  : host_program (AppResult ConnectionProfile) :=
  try found ← copy_source connection_id workspace_id account_user_id or id;
  let '(source, user_id) := found in
  try copied ← (if bool_decide (is_Some (cp_secret_ref source))
                then try secret ← hosted (fetch_profile_secret source) or id; Ret (Ok (Some secret))
                else Ret (Ok None)) or id;
  try listed ← do (RemoteConnections user_id workspace_id) or id;
  check remote ← ok_or (Network "the workspace service has not deployed shared connections yet")
                   listed or id;
  try credential_id ←
    match copied with
    | Some secret =>
        credential_id ← host_uuid;
        try _ ← do (StoreSecret credential_id secret) or id;
        Ret (Ok (Some credential_id))
    | None => Ret (Ok None)
    end or id;
  shared ← do (ShareConnection user_id workspace_id source);
  match shared with
  | Err error => _ ← ConnectionService.delete_optional_secret credential_id; Ret (Err error)
  | Ok (created, revision) =>
      adopted ← adopt_shared user_id workspace_id source created (remote ++ [(created, revision)])
                  credential_id;
      match adopted with
      | Ok profile => Ret (Ok profile)
      | Err error =>
          _ ← ConnectionService.delete_optional_secret credential_id;
          _ ← roll_back_shared user_id workspace_id (cp_id created);
          Ret (Err error)
      end
  end.
End service.
End WorkspaceService.

(** ** Safety settings (src-tauri/src/services/safety_service.rs) *)

Module SafetyService.
Section service.
Context {P : Platform} {Q : Sqlite}.
Local Open Scope prog_scope.
Local Abbreviation do := (call (Res := HostCall.res)).

Definition get (connection_id : Uuid) : host_program (AppResult SafetySettings) :=
  in_store (Store.get_safety connection_id).

Definition with_writes (s : SafetySettings) (writes : bool) : SafetySettings := {|
  require_approval := require_approval s; allow_writes := writes;
  wrap_writes_in_tx := wrap_writes_in_tx s; explain_preview := explain_preview s;
  auto_run_reads := auto_run_reads s; max_rows := max_rows s;
  exec_preview_row_limit := exec_preview_row_limit s |}.

(** The limits an untrusted window sends. *)
Definition clamp_limits (s : SafetySettings) : SafetySettings := {|
  require_approval := require_approval s; allow_writes := allow_writes s;
  wrap_writes_in_tx := wrap_writes_in_tx s; explain_preview := explain_preview s;
  auto_run_reads := auto_run_reads s; max_rows := clamp 1 100000 (max_rows s);
  exec_preview_row_limit := clamp 0 1000000 (exec_preview_row_limit s) |}.

Definition update (connection_id : Uuid) (settings : SafetySettings) : host_program (AppResult unit) :=
  try profile ← in_store (Store.get_connection connection_id) or id;
  let settings := if WorkspaceConnectionAccess.can_write (cp_workspace_access profile) then settings
                  else with_writes settings false in
  try _ ← begin_connection_mutation connection_id
            (if allow_writes settings then ConnectionAccess.Write else ConnectionAccess.Read) or id;
  r ← in_store (Store.set_safety connection_id (clamp_limits settings));
  _ ← drop_guard;
  Ret r.
End service.
End SafetyService.
