(* ===== verification/CredentialCustody.v ===== *)
(** * Who may touch a stored credential

    A saved profile and a member's binding point at an item of the OS credential
    store.  [View] is what one task sees: the local store, the vault, whether the
    task holds the write side of the scope gate and the unreferenced items in its
    custody.  [respond] gives the effect of each call, failures included; between
    two calls other tasks act within [rely].  [safely p w Q]: from [w] every call of
    [p] stays within [guarantee] and its result satisfies [Q]. *)

From S2P Require Export StorePins WorkspaceService.

(** A place that names a credential. *)
Inductive pointer := ProfilePointer (id : string) | BindingPointer (key : string * string).
#[export] Instance pointer_eq_dec : EqDecision pointer.
Proof. solve_decision. Defined.

Section custody.
Context {P : Platform} {Q : Sqlite} {C : ChronoSerde} {D : StrDebug}.

(** A local profile's [secret_ref] until the profile is deleted, the one a shared
    template of an older release still holds, a binding's [secret_ref]. *)
Definition row_secret (c : ConnectionRow) : option Uuid :=
  if is_remote c || bool_decide (con_deleted_at c = None)
  then s ← con_secret_ref c; uuid_parse s else None.
Definition binding_secret (b : BindingRow) : option Uuid := s ← bnd_secret_ref b; uuid_parse s.
Definition points (t : ConnectionTables) (o : pointer) : option Uuid :=
  match o with
  | ProfilePointer id => c ← connections t !! id; row_secret c
  | BindingPointer key => b ← bindings t !! key; binding_secret b
  end.
Definition refers (t : ConnectionTables) (id : Uuid) : Prop := ∃ o, points t o = Some id.

Definition same_tables (t t' : ConnectionTables) : Prop :=
  connections t' = connections t ∧ bindings t' = bindings t.

(** Templates and their bindings never grant local access. *)
Definition shared_ok (t : ConnectionTables) : Prop :=
  (∀ key c, connections t !! key = Some c → is_remote c = true → con_workspace_access c ≠ "local")
  ∧ ∀ key b, bindings t !! key = Some b → bnd_workspace_access b ≠ "local".

(** Every pointer names an item of the vault, and no two name the same. *)
Record credentials_ok (db : StoreDb) (vault : gmap Uuid string) : Prop := {
  cok_reachable : store_reachable db;
  cok_shared : shared_ok (db_connections db);
  cok_resolves o id : points (db_connections db) o = Some id → is_Some (vault !! id);
  cok_exclusive o o' id : points (db_connections db) o = Some id →
    points (db_connections db) o' = Some id → o = o';
}.

Record View := {
  v_db : StoreDb; v_vault : gmap Uuid string; v_held : bool; v_mine : Uuid → Prop;
}.
Definition v_tables (w : View) : ConnectionTables := db_connections (v_db w).

Definition with_held (b : bool) (w : View) : View :=
  {| v_db := v_db w; v_vault := v_vault w; v_held := b; v_mine := v_mine w |}.
Definition with_vault (vault : gmap Uuid string) (w : View) : View :=
  {| v_db := v_db w; v_vault := vault; v_held := v_held w; v_mine := v_mine w |}.
Definition with_mine (id : Uuid) (w : View) : View :=
  {| v_db := v_db w; v_vault := v_vault w; v_held := v_held w; v_mine := λ id', v_mine w id' ∨ id' = id |}.
(** A change of the store: what it no longer references is in the task's custody,
    what it references is not. *)
Definition with_db (db : StoreDb) (w : View) : View :=
  {| v_db := db; v_vault := v_vault w; v_held := v_held w;
     v_mine := λ id, (v_mine w id ∨ refers (v_tables w) id) ∧ ¬ refers (db_connections db) id |}.

(** A statement that SQLite refuses. *)
Definition store_failed (c : StoreCall.t) : StoreCall.res c → Prop :=
  match c with
  | SyncAccount _ _ _ | RemoveAccount _ _ | WriteScope _ _ _ | RemoteMembership _ _
  | RemoteOwner _ _ | StoreBinding _ _ _ _ _ _ | SetGroups _ _ _ _ | DeleteConnection _ _ _ _
  | WriteSafety _ _ => λ r, ∃ error, r = Err error
  | Upsert _ _ _ _ | Bindable _ _ | OneConnection _ _ _ => λ r, ∃ error, r = Err error
  | ActiveScope => λ r, ∃ error, r = Err error
  | ActiveWorkspace | Activate _ _ _ => λ r, ∃ error, r = Err error
  | ListWorkspaces => λ r, ∃ error, r = Err error
  | AccountMemberships _ => λ r, ∃ error, r = Err error
  | ConnectionRows _ _ => λ r, ∃ error, r = Err error
  | Pin _ _ => λ r, ∃ error, r = Err error
  | _ => λ _, False
  end.

(** A fresh identifier names nothing yet. *)
Definition fresh_id (id : Uuid) (w : View) : Prop :=
  ¬ refers (v_tables w) id ∧ v_vault w !! id = None ∧ ¬ v_mine w id.

(** The control plane draws the identifiers of its templates itself: none is that
    of a local profile deleted here. *)
Definition listed_apart (l : list (ConnectionProfile * Z)) (t : ConnectionTables) : Prop :=
  ∀ p row, p ∈ l → connections t !! uuid_to_string (cp_id p.1) = Some row →
  is_remote row = false → con_deleted_at row = None.
Definition server_identifiers (c : StoreCall.t) (t : ConnectionTables) : Prop :=
  match c with SyncRemote _ _ l _ => listed_apart l t | _ => True end.

(** What a call answers and does. *)
Definition respond (op : HostCall.t) (w : View) : HostCall.res op → View → Prop :=
  match op return HostCall.res op → View → Prop with
  | HostCall.Db c => λ r w', server_identifiers c (v_tables w) ∧
      (r = (run c (v_db w)).1 ∧ w' = with_db (run c (v_db w)).2 w
       ∨ store_failed c r ∧ w' = with_db (v_db w) w)
  | HostCall.StoreSecret id secret => λ r w',
      r = Ok tt ∧ w' = with_vault (<[id := secret]> (v_vault w)) w
      ∨ (∃ error, r = Err error) ∧ (w' = w ∨ w' = with_vault (<[id := secret]> (v_vault w)) w)
  | HostCall.DeleteSecret id => λ r w',
      r = Ok tt ∧ w' = with_vault (delete id (v_vault w)) w
      ∨ (∃ error, r = Err error) ∧ (w' = w ∨ w' = with_vault (delete id (v_vault w)) w)
  | HostCall.Manager c =>
      match c return CacheCall.res c → View → Prop with
      | GateWrite => λ _ w', w' = with_held true w
      | GateRelease => λ _ w', w' = with_held false w
      | FetchSecret id => λ r w', (∀ secret, r = Ok secret → v_vault w !! id = Some secret) ∧ w' = w
      | Service c =>
          match c return Call.res c → View → Prop with
          | Call.NewUuid => λ id w', fresh_id id w ∧ w' = with_mine id w
          | _ => λ _ w', w' = w
          end
      | _ => λ _ w', w' = w
      end
  | _ => λ _ w', w' = w
  end.

Definition custody (w : View) : Prop :=
  credentials_ok (v_db w) (v_vault w) ∧ ∀ id, v_mine w id → ¬ refers (v_tables w) id.

(** What other tasks may do: nothing to the items in this task's custody, and
    nothing to profiles and bindings while it holds the gate. *)
Record rely (w w' : View) : Prop := {
  rl_ok : credentials_ok (v_db w') (v_vault w');
  rl_held : v_held w' = v_held w;
  rl_mine id : v_mine w' id ↔ v_mine w id;
  rl_tables : v_held w = true → same_tables (v_tables w) (v_tables w');
  rl_custody id : v_mine w id → ¬ refers (v_tables w') id ∧ v_vault w' !! id = v_vault w !! id;
}.

(** What this task does in one call. *)
Record guarantee (w w' : View) : Prop := {
  gr_ok : credentials_ok (v_db w') (v_vault w');
  gr_tables : v_held w = false → same_tables (v_tables w) (v_tables w');
  gr_refers id : refers (v_tables w') id → refers (v_tables w) id ∨ v_mine w id;
  gr_vault id : v_vault w' !! id ≠ v_vault w !! id → v_mine w id;
}.

Fixpoint safely {A} (p : host_program A) (w : View) (R : A → View → Prop) : Prop :=
  ∀ w1, rely w w1 →
  match p with
  | Ret a => R a w1
  | Vis op k => ∀ r w2, respond op w1 r w2 → guarantee w1 w2 ∧ safely (k r) w2 R
  end.

(** ** Rules *)

Lemma same_tables_points t t' o : same_tables t t' → points t' o = points t o.
Proof. intros [H1 H2]. destruct o; cbn; by rewrite ?H1, ?H2. Qed.
Lemma same_tables_refl t : same_tables t t.
Proof. done. Qed.
Lemma same_tables_sym t t' : same_tables t t' → same_tables t' t.
Proof. by intros []. Qed.
Lemma same_tables_trans t1 t2 t3 : same_tables t1 t2 → same_tables t2 t3 → same_tables t1 t3.
Proof. intros [] []. split; congruence. Qed.
Lemma same_tables_refers t t' id : same_tables t t' → refers t' id ↔ refers t id.
Proof.
  intros H. unfold refers. split; intros [o Ho]; exists o.
  - by rewrite <-(same_tables_points _ _ _ H).
  - by rewrite (same_tables_points _ _ _ H).
Qed.

Lemma rely_custody w w1 : rely w w1 → custody w1.
Proof. intros [H1 H2 H3 H4 H5]. split; [done|]. intros id Hi. by apply H5, H3. Qed.
Lemma rely_refl w : custody w → rely w w.
Proof. intros [H Hm]. split; [done..|]. auto. Qed.
Lemma rely_trans w1 w2 w3 : rely w1 w2 → rely w2 w3 → rely w1 w3.
Proof.
  intros [A1 A2 A3 A4 A5] [B1 B2 B3 B4 B5]. split; [done|congruence| | |].
  - intros id. by rewrite B3.
  - intros Hh. eapply same_tables_trans; [by apply A4|apply B4; congruence].
  - intros id Hi. destruct (A5 id Hi) as [_ E]. destruct (B5 id) as [? ?]; [by apply A3|].
    split; congruence.
Qed.

Lemma safely_mono {A} (p : host_program A) w (R R' : A → View → Prop) :
  (∀ a w', custody w' → R a w' → R' a w') → safely p w R → safely p w R'.
Proof.
  intros HR. revert w. induction p as [a|op k IH]; cbn; intros w H w1 Hr.
  - apply HR; [by eapply rely_custody|by apply H].
  - intros r w2 H2. destruct (H w1 Hr r w2 H2). split; [done|by apply IH].
Qed.

Lemma safely_rely {A} (p : host_program A) w w1 R : rely w w1 → safely p w R → safely p w1 R.
Proof. destruct p; cbn; intros Hr H w2 H2; apply H; by eapply rely_trans. Qed.

Lemma safely_now {A} (p : host_program A) w R :
  (∀ w1, rely w w1 → safely p w1 R) → safely p w R.
Proof.
  intros H. destruct p; cbn; intros w1 Hr; apply (H w1 Hr); by eapply rely_refl, rely_custody.
Qed.

Lemma safely_bind {A B} (p : host_program A) (f : A → host_program B) w R :
  safely p w (λ a w', safely (f a) w' R) → safely (p ≫= f) w R.
Proof.
  revert w. induction p as [a|op k IH]; cbn; intros w H.
  - by apply safely_now.
  - intros w1 Hr r w2 H2. destruct (H w1 Hr r w2 H2). split; [done|]. by apply (IH r w2).
Qed.

Lemma safely_call op w (R : HostCall.res op → View → Prop) :
  (∀ w1 r w2, rely w w1 → respond op w1 r w2 →
    guarantee w1 w2 ∧ ∀ w3, rely w2 w3 → R r w3) → safely (call op) w R.
Proof. cbn. intros H w1 Hr r w2 H2. destruct (H w1 r w2 Hr H2). by split. Qed.

(** ** Calls that leave profiles, bindings and the vault alone *)

Definition writes_pointers (c : StoreCall.t) : bool :=
  match c with
  | SyncAccount _ _ _ | Upsert _ _ _ _ | SyncRemote _ _ _ _ | Purge _ _
  | StoreBinding _ _ _ _ _ _ | SetGroups _ _ _ _ | DeleteConnection _ _ _ _ => true
  | _ => false
  end.

Lemma run_pointers c db :
  writes_pointers c = false → same_tables (db_connections db) (db_connections (run c db).2).
Proof.
  destruct c; try done; intros _; cbn [run]; try done;
    try (apply (commit_rel (λ db', same_tables (db_connections db) (db_connections db'))); [done|];
         intros a db' H; unfold in_scope, in_connections, in_artifacts in H; inv_res; try done).
  - unfold put_catalog_if_current. by repeat case_match.
  - unfold set_safety in Hx. by inv_res.
  - unfold insert_history_if_current in H. by inv_res.
  - unfold save_dashboard_if_current in H. inv_res; apply_enqueue; done.
  - unfold delete_dashboard_if_current in H. inv_res; apply_enqueue; done.
Qed.

Definition quiet (op : HostCall.t) : bool :=
  match op with
  | HostCall.Db c => negb (writes_pointers c)
  | HostCall.StoreSecret _ _ | HostCall.DeleteSecret _ => false
  | HostCall.Manager (GateWrite | GateRelease) => false
  | _ => true
  end.

(** A program of quiet calls, and what it returns. *)
Fixpoint quietly {A} (p : host_program A) (R : A → Prop) : Prop :=
  match p with
  | Ret a => R a
  | Vis op k => quiet op = true ∧ ∀ r, quietly (k r) R
  end.

(** The task kept what it had. *)
Record kept (w w' : View) : Prop := {
  kp_custody : custody w';
  kp_held : v_held w' = v_held w;
  kp_mine id : v_mine w id → v_mine w' id ∧ v_vault w' !! id = v_vault w !! id;
  kp_tables : v_held w = true → same_tables (v_tables w) (v_tables w');
}.

Lemma kept_trans w1 w2 w3 : kept w1 w2 → kept w2 w3 → kept w1 w3.
Proof.
  intros [A1 A2 A3 A4] [B1 B2 B3 B4]. split; [done|congruence| |].
  - intros id Hi. destruct (A3 id Hi) as [Hi' E]. destruct (B3 id Hi'). split; [done|congruence].
  - intros Hh. eapply same_tables_trans; [by apply A4|apply B4; congruence].
Qed.
Lemma rely_kept w w1 : rely w w1 → kept w w1.
Proof.
  intros Hr. pose proof (rely_custody _ _ Hr). destruct Hr as [H1 H2 H3 H4 H5].
  split; [done..| |done]. intros id Hi. split; [by apply H3|by apply H5].
Qed.
Lemma kept_refl w : custody w → kept w w.
Proof. by split. Qed.

Lemma with_db_quiet c (w : View) db : db = (run c (v_db w)).2 ∨ db = v_db w →
  writes_pointers c = false → custody w → guarantee w (with_db db w) ∧ kept w (with_db db w).
Proof.
  intros Hdb Hc [[H1 H2 H3 H4] Hm].
  assert (same_tables (v_tables w) (db_connections db)) as Hs.
  { destruct Hdb as [-> | ->]; [by apply run_pointers|done]. }
  assert (credentials_ok db (v_vault w)) as Hok.
  { split.
    - destruct Hdb as [-> | ->]; [|done]. destruct H1 as [t0 H1]. exists t0.
      eapply rtc_r; [exact H1|by exists c].
    - destruct Hs as [E1 E2]. unfold v_tables in E1, E2. unfold shared_ok. rewrite E1, E2. apply H2.
    - intros o id. rewrite (same_tables_points _ _ _ Hs). apply H3.
    - intros o o' id. rewrite !(same_tables_points _ _ _ Hs). apply H4. }
  split; split; try done; cbn.
  - intros id. rewrite (same_tables_refers _ _ _ Hs). by left.
  - split; [done|]. by intros id [_ ?].
  - intros id Hi. split; [|done]. split; [by left|]. rewrite (same_tables_refers _ _ _ Hs). auto.
Qed.

Lemma quiet_respond op w r w' :
  quiet op = true → custody w → respond op w r w' → guarantee w w' ∧ kept w w'.
Proof.
  intros Hq Hc.
  assert (guarantee w w ∧ kept w w) as Hid by (split; [destruct Hc; by split; auto|by apply kept_refl]).
  assert (∀ id, fresh_id id w → guarantee w (with_mine id w) ∧ kept w (with_mine id w)) as Hnew.
  { intros id (Hn & _). destruct Hc as [Hok Hm]. split; split; try done; cbn; auto.
    split; [done|]. intros id' [Hi| ->]; auto. }
  destruct op as [c|params|c|id s|id|a p s|u| |u| |dc|u|u w0|u w0 p|u w0 id]; cbn [respond]; try done;
    try by intros ->.
  - intros [_ H]. apply negb_true_iff in Hq. cbn in Hq.
    destruct H as [[_ ->]|[_ ->]]; apply (with_db_quiet c); auto.
  - destruct c; try done; try by intros ->.
    + destruct c; try by intros ->. intros [Hf ->]. by apply Hnew.
    + by intros [_ ->].
Qed.

Lemma safely_quietly {A} (p : host_program A) w R :
  custody w → quietly p R → safely p w (λ a w', kept w w' ∧ R a).
Proof.
  revert w. induction p as [a|op k IH]; cbn; intros w Hc H w1 Hr.
  - split; [by apply rely_kept|done].
  - destruct H as [Hq H]. intros r w2 H2.
    destruct (quiet_respond _ _ _ _ Hq (rely_custody _ _ Hr) H2) as [Hg Hk].
    split; [done|]. eapply safely_mono; [|apply IH; [apply Hk|apply H]].
    intros a w' _ [Hk' ?]. split; [|done].
    eapply kept_trans; [by apply rely_kept|]. by eapply kept_trans.
Qed.

Lemma quietly_mono {A} (p : host_program A) (R R' : A → Prop) :
  (∀ a, R a → R' a) → quietly p R → quietly p R'.
Proof. intros HR. induction p; cbn; naive_solver. Qed.
Lemma quietly_bind {A B} (p : host_program A) (f : A → host_program B) R :
  quietly p (λ a, quietly (f a) R) → quietly (p ≫= f) R.
Proof. induction p; cbn; naive_solver. Qed.

(** The calls of the manager that do not move the gate's write side. *)
Definition moves_gate (c : CacheCall.t) : bool :=
  match c with GateWrite | GateRelease => true | _ => false end.
Fixpoint quiet_cache {A} (p : cache_program A) (R : A → Prop) : Prop :=
  match p with
  | Ret a => R a
  | Vis c k => moves_gate c = false ∧ ∀ r, quiet_cache (k r) R
  end.

Lemma quiet_hosted {A} (p : cache_program A) R : quiet_cache p R → quietly (hosted p) R.
Proof.
  induction p as [a|op k IH]; [done|]. intros [Hm H]. cbn [hosted].
  apply quietly_bind. destruct op; try done; cbn; try (split; [done|]; intros r; apply IH, H).
  destruct c; cbn; try (split; [done|]; intros r; apply IH, H).
Qed.
Lemma quiet_cache_bind {A B} (p : cache_program A) (f : A → cache_program B) R :
  quiet_cache p (λ a, quiet_cache (f a) R) → quiet_cache (p ≫= f) R.
Proof. induction p as [a|op k IH]; [done|]. intros [Hm H]. split; [done|]. intros r. by apply IH. Qed.
Lemma quiet_cache_mono {A} (p : cache_program A) (R R' : A → Prop) :
  (∀ a, R a → R' a) → quiet_cache p R → quiet_cache p R'.
Proof. intros HR. induction p as [a|op k IH]; cbn; naive_solver. Qed.
Lemma quiet_lift {A} (p : program A) : quiet_cache (lift p) (λ _, True).
Proof. by induction p; cbn. Qed.

Lemma quiet_unwrap l : quiet_cache (unwrap_entries l) (λ _, True).
Proof.
  induction l as [|e l IH]; cbn [unwrap_entries]; [done|]. split; [done|]. intros unique.
  apply quiet_cache_bind. by eapply quiet_cache_mono; [|exact IH].
Qed.
Lemma quiet_close l : quiet_cache (close_entries l) (λ _, True).
Proof.
  induction l as [|e l IH]; cbn [close_entries]; [done|]. split; [done|]. intros []; [done|].
  split; [done|]. intros _. apply quiet_cache_bind. by destruct (ce_managed_lease e).
Qed.
Lemma quiet_retire (l : list CacheEntry) : quiet_cache (retire_entries l) (λ _, True).
Proof.
  apply quiet_cache_bind. eapply quiet_cache_mono; [|apply quiet_unwrap]. intros l' _. apply quiet_close.
Qed.

Lemma quiet_detach wanted : quiet_cache (detach wanted) (λ _, True).
Proof.
  split; [done|]. intros keys. induction (List.filter wanted keys) as [|key l IH]; [done|].
  cbn [detach_keys]. split; [done|]. intros [slot|]; [|done].
  split; [done|]. intros _. split; [done|]. intros e. split; [done|]. intros _.
  apply quiet_cache_bind. by eapply quiet_cache_mono; [|exact IH].
Qed.

(** ** Sequencing *)

Lemma safely_unbind {A B} (p : host_program A) (f : A → host_program B) w R :
  safely (p ≫= f) w R → safely p w (λ a w', safely (f a) w' R).
Proof.
  revert w. induction p as [a|op k IH]; cbn; intros w H w1 Hr.
  - by eapply safely_rely.
  - intros r w2 H2. destruct (H w1 Hr r w2 H2). split; [done|]. by apply (IH r w2).
Qed.

Lemma safely_hosted_bind {A B} (p : cache_program A) (f : A → cache_program B) w R :
  safely (hosted p) w (λ a w', safely (hosted (f a)) w' R) → safely (hosted (p ≫= f)) w R.
Proof.
  revert w. induction p as [a|c k IH]; intros w H.
  - apply safely_now. intros w1 Hr. by apply H.
  - change (hosted (Vis c k ≫= f)) with (hosted_call c ≫= λ r, hosted (k r ≫= f)).
    cbn [hosted] in H. apply safely_bind. apply safely_unbind in H.
    eapply safely_mono; [|exact H]. intros r w' _ H'. by apply IH.
Qed.

Lemma safely_quiet_vis {A} op (k : HostCall.res op → host_program A) w R :
  quiet op = true → custody w →
  (∀ w1 r w2, kept w w1 → respond op w1 r w2 → kept w w2 → kept w1 w2 → safely (k r) w2 R) →
  safely (Vis op k) w R.
Proof.
  intros Hq Hc H w1 Hr r w2 H2.
  destruct (quiet_respond _ _ _ _ Hq (rely_custody _ _ Hr) H2) as [Hg Hk].
  split; [done|]. apply (H w1); [by apply rely_kept|done| |done].
  eapply kept_trans; [by apply rely_kept|done].
Qed.

(** The gate changes hands; custody stays. *)
Record passed (held : bool) (w w' : View) : Prop := {
  ps_custody : custody w';
  ps_held : v_held w' = held;
  ps_mine id : v_mine w id → v_mine w' id ∧ v_vault w' !! id = v_vault w !! id;
}.

Lemma kept_passed w w' : kept w w' → passed (v_held w) w w'.
Proof. intros []. by split. Qed.
Lemma passed_trans b1 b2 w1 w2 w3 : passed b1 w1 w2 → passed b2 w2 w3 → passed b2 w1 w3.
Proof.
  intros [A1 A2 A3] [B1 B2 B3]. split; [done..|]. intros id Hi.
  destruct (A3 id Hi) as [Hi' E]. destruct (B3 id Hi'). split; [done|congruence].
Qed.

Lemma safely_gate (b : bool) w : custody w →
  safely (call (HostCall.Manager (if b then GateWrite else GateRelease))) w (λ _ w', passed b w w').
Proof.
  intros Hc. apply safely_call. intros w1 r w2 Hr H2.
  assert (w2 = with_held b w1) as -> by (by destruct b).
  pose proof (rely_custody _ _ Hr) as Hc1. split; [destruct Hc1; by split; auto|].
  intros w3 Hr3. pose proof (rely_kept _ _ Hr) as K1. pose proof (rely_kept _ _ Hr3) as K3.
  split; [by apply K3|by apply K3|]. intros id Hi. destruct (kp_mine _ _ K1 id Hi) as [Hi1 E1].
  destruct (kp_mine _ _ K3 id Hi1) as [Hi3 E3]. split; [done|]. by rewrite E3, <-E1.
Qed.

Lemma safely_begin w : custody w → safely begin_scope_mutation w (λ _ w', passed true w w').
Proof. apply (safely_gate true). Qed.
Lemma safely_drop w : custody w → safely drop_guard w (λ _ w', passed false w w').
Proof. apply (safely_gate false). Qed.

Lemma safely_publish wanted w : custody w →
  safely (hosted (publish_change wanted)) w (λ _ w', passed false w w').
Proof.
  intros Hc. apply safely_hosted_bind.
  eapply safely_mono; [|apply safely_quietly, quiet_hosted, quiet_detach; done].
  intros retired w1 Hc1 [K1 _]. cbn [hosted]. apply safely_bind. eapply safely_mono; [|by apply safely_drop].
  intros [] w2 _ P2. eapply safely_mono; [|apply safely_quietly, quiet_hosted, quiet_retire; apply P2].
  intros [] w3 _ [K3 _]. pose proof (kept_passed _ _ K3) as P3. rewrite (ps_held _ _ _ P2) in P3.
  eapply passed_trans; [by apply kept_passed|]. by eapply passed_trans.
Qed.

(** A method that fails under the gate drops it. *)
Lemma safely_fail {A} (error : AppError) w :
  custody w → safely (drop_guard ≫= λ _, Ret (Err error : AppResult A)) w (λ _ _, True).
Proof. intros Hc. apply safely_bind. eapply safely_mono; [|by apply safely_drop]. done. Qed.

Lemma safely_hold {A B} (m : host_program (AppResult A)) (k : A → host_program (AppResult B)) w :
  safely m w (λ r w', custody w' ∧ ∀ a, r = Ok a → safely (k a) w' (λ _ _, True)) →
  safely (guarded_step m k) w (λ _ _, True).
Proof.
  intros H. apply safely_bind. eapply safely_mono; [|exact H]. intros [a|error] w' _ [Hc Hk]; [by apply Hk|].
  by apply safely_fail.
Qed.

Lemma safely_hold_check {A B} (r : AppResult A) (k : A → host_program (AppResult B)) w :
  custody w → (∀ a, r = Ok a → safely (k a) w (λ _ _, True)) → safely (guarded_check r k) w (λ _ _, True).
Proof.
  intros Hc H. apply safely_hold. cbn. intros w1 Hr. split; [by eapply rely_custody|].
  intros a Ha. eapply safely_rely; [exact Hr|by apply H].
Qed.

(** ** The items in custody *)

Definition in_custody (id : Uuid) (secret : string) (w : View) : Prop :=
  v_mine w id ∧ v_vault w !! id = Some secret.

Lemma custody_with_vault w vault id :
  custody w → v_mine w id → (∀ id', id' ≠ id → vault !! id' = v_vault w !! id') →
  guarantee w (with_vault vault w).
Proof.
  intros [[H1 H2 H3 H4] Hm] Hi Hv.
  split; [|done|by left|].
  - split; [done..| |done]. cbn. intros o id' Ho. rewrite Hv; [by eapply H3|].
    intros ->. apply (Hm _ Hi). by exists o.
  - cbn. intros id' Hne. destruct (decide (id' = id)) as [->|Hn]; [done|]. by rewrite Hv in Hne.
Qed.

Lemma safely_store_secret id secret w : custody w → v_mine w id →
  safely (call (HostCall.StoreSecret id secret)) w (λ r w',
    custody w' ∧ v_held w' = v_held w ∧ (v_held w = true → same_tables (v_tables w) (v_tables w'))
    ∧ v_mine w' id ∧ (r = Ok tt → v_vault w' !! id = Some secret)).
Proof.
  intros Hc Hi. apply safely_call. intros w1 r w2 Hr H2.
  pose proof (rely_custody _ _ Hr) as Hc1. pose proof (rely_kept _ _ Hr) as K1.
  destruct (kp_mine _ _ K1 id Hi) as [Hi1 _].
  assert (guarantee w1 (with_vault (<[id := secret]> (v_vault w1)) w1)) as Hg.
  { eapply custody_with_vault; [done..|]. intros id' Hn. by rewrite lookup_insert_ne. }
  assert (guarantee w1 w1) as Hg' by (destruct Hc1; by split; auto).
  assert (v_held w2 = v_held w1 ∧ v_tables w2 = v_tables w1 ∧ v_mine w2 = v_mine w1 ∧ guarantee w1 w2
    ∧ (r = Ok tt → v_vault w2 !! id = Some secret)) as (E1 & E2 & E3 & Hg2 & Hv).
  { destruct H2 as [[-> ->]|[[error ->] [->| ->]]]; split_and!; try done. intros _. apply lookup_insert_eq. }
  split; [done|]. intros w3 Hr3. pose proof (rely_kept _ _ Hr3) as K3.
  rewrite <-E3 in Hi1. destruct (kp_mine _ _ K3 id Hi1) as [Hi3 Ev].
  split_and!; [apply K3| |intros Hh|done|intros Hok; rewrite Ev; by apply Hv].
  - rewrite (kp_held _ _ K3), E1. apply K1.
  - eapply same_tables_trans; [by apply K1|]. rewrite <-E2. apply K3. rewrite E1, (kp_held _ _ K1). done.
Qed.

Lemma safely_delete_secret id w : custody w → v_mine w id →
  safely (ConnectionService.delete_secret_best_effort id) w (λ _ w',
    custody w' ∧ v_held w' = v_held w ∧ ∀ id', v_mine w id' → v_mine w' id').
Proof.
  intros Hc Hi. apply safely_bind, safely_call. intros w1 r w2 Hr H2.
  pose proof (rely_custody _ _ Hr) as Hc1. pose proof (rely_kept _ _ Hr) as K1.
  destruct (kp_mine _ _ K1 id Hi) as [Hi1 _].
  assert (guarantee w1 (with_vault (delete id (v_vault w1)) w1)) as Hg.
  { eapply custody_with_vault; [done..|]. intros id' Hn. by rewrite lookup_delete_ne. }
  assert (guarantee w1 w1) as Hg' by (destruct Hc1; by split; auto).
  assert (v_held w2 = v_held w1 ∧ v_mine w2 = v_mine w1 ∧ guarantee w1 w2) as (E1 & E3 & Hg2).
  { destruct H2 as [[-> ->]|[[error ->] [->| ->]]]; by split_and!. }
  split; [done|]. intros w3 Hr3. apply safely_now. intros w4 Hr4 w5 Hr5.
  pose proof (rely_trans _ _ _ (rely_trans _ _ _ Hr3 Hr4) Hr5) as Hr'.
  pose proof (rely_kept _ _ Hr') as K3. split_and!; [apply K3| |].
  - rewrite (kp_held _ _ K3), E1. apply K1.
  - intros id' Hi'. apply (kp_mine _ _ K3). rewrite E3. by apply K1.
Qed.

Lemma safely_delete_secrets ids w : custody w → (∀ id, id ∈ ids → v_mine w id) →
  safely (WorkspaceService.delete_secrets ids) w (λ _ w', custody w').
Proof.
  revert w. induction ids as [|id ids IH]; intros w Hc Hm; [intros w1 Hr; by eapply rely_custody|].
  apply safely_bind. eapply safely_mono; [|apply safely_delete_secret; [done|apply Hm; left]].
  intros _ w' _ (Hc' & _ & Hm'). apply IH; [done|]. intros id' Hi. apply Hm', Hm. by right.
Qed.

Lemma safely_delete_optional id w : custody w → (∀ id', id = Some id' → v_mine w id') →
  safely (ConnectionService.delete_optional_secret id) w (λ _ w', custody w').
Proof.
  intros Hc Hm. destruct id as [id|]; [|intros w1 Hr; by eapply rely_custody].
  eapply safely_mono; [|apply safely_delete_secret; [done|by apply Hm]]. by intros _ w' _ [? _].
Qed.

(** A fresh identifier is in custody. *)
Lemma safely_new_uuid w : custody w → safely host_uuid w (λ id w', kept w w' ∧ v_mine w' id).
Proof.
  intros Hc. apply safely_call. intros w1 id w2 Hr H2.
  destruct (quiet_respond (HostCall.Manager (Service Call.NewUuid)) w1 id w2 eq_refl) as [Hg Hk];
    [by eapply rely_custody|done|]. destruct H2 as [_ ->].
  split; [done|]. intros w3 Hr3. split.
  - eapply kept_trans; [by apply rely_kept|]. eapply kept_trans; [exact Hk|by apply rely_kept].
  - apply (rl_mine _ _ Hr3). by right.
Qed.
End custody.
