(* ===== verification/CredentialMethods.v ===== *)
(** * What the credential methods read and write

    The rows behind a listed profile and a pin, and the pointers after each
    statement that writes profiles or bindings. *)

From S2P Require Export CredentialCustody StoreMigration.

Section keys.
Context {P : Platform} {Q : Sqlite} {C : ChronoSerde} {D : StrDebug}.

Definition canonical (id : string) : Prop := ∃ u, id = uuid_to_string u.

Ltac new_key H :=
  match type of H with <[?k := _]> _ !! ?id = Some ?c =>
    let E := fresh in
    destruct (decide (k = id)) as [E|E];
    [right; rewrite <-E; by eexists|rewrite lookup_insert_ne in H by done; left; by exists c] end.

(** A new row is keyed by the text of an identifier. *)
Lemma template_key wid user p revision now t id c :
  connections (sync_template wid user p revision now t) !! id = Some c →
  is_Some (connections t !! id) ∨ canonical id.
Proof.
  unfold sync_template. cbn. destruct (decide (uuid_to_string (cp_id p) = id)) as [E|Hn].
  - intros _. right. by eexists.
  - intros H. left. destruct (connections t !! uuid_to_string (cp_id p)) as [c'|];
      [destruct (_ =? _)%string|]; rewrite ?lookup_insert_ne in H by done; by exists c.
Qed.

Lemma templates_key wid user l now t id c :
  connections (foldl (λ t p, sync_template wid user p.1 p.2 now t) t l) !! id = Some c →
  is_Some (connections t !! id) ∨ canonical id.
Proof.
  revert t. induction l as [|[p revision] l IH]; cbn; intros t H; [by left; exists c|].
  apply IH in H as [[c' Hc]|Hu]; [|by right]. by eapply template_key.
Qed.

Lemma groups_key wid group now ids t t' id c :
  set_schema_groups wid group now ids t = Ok (tt, t') → connections t' !! id = Some c →
  is_Some (connections t !! id) ∨ canonical id.
Proof.
  revert t. induction ids as [|[i e] ids IH]; cbn; intros t H Hc; [injection H as <-; by left; exists c|].
  inv_res. apply IH in H as [[c' H]|H]; [|by right|done]. unfold set_schema_group in Hx. inv_res.
  apply enqueue_rows in Hx as [E _]. rewrite E in H. cbn in H.
  new_key H.
Qed.

Lemma run_key c db id : is_Some (row (run c db).2 id) → is_Some (row db id) ∨ canonical id.
Proof.
  destruct (writes_pointers c) eqn:Hw.
  2: { intros H. left. unfold row in *. by rewrite (proj1 (run_pointers c db Hw)) in H. }
  destruct c; try done; cbn [run]; clear Hw;
    try (apply (commit_rel (λ db', is_Some (row db' id) → is_Some (row db id) ∨ canonical id));
         [by left|]; intros a db' H; unfold in_connections in H; inv_res; unfold row; cbn).
  - intros [c Hc]. left. apply refresh_connections in H as (t & _ & E & _). rewrite E in Hc.
    unfold redact_templates, adopt_connections in Hc. rewrite !lookup_fmap in Hc.
    by destruct (connections _ !! id).
  - intros [c Hc]. unfold upsert_connection in H. inv_res. apply enqueue_rows in Hx7 as [E _]. cbn in Hc.
    rewrite E in Hc. cbn in Hc.
    new_key Hc.
  - unfold row. cbn. intros [c Hc]. apply templates_key in Hc as [[c' Hc]|Hc]; [|by right].
    left. unfold withdraw in Hc. cbn in Hc. rewrite map_lookup_imap in Hc.
    by destruct (connections _ !! id).
  - unfold row, purge_remote_connection_cache. intros [c Hc]. left.
    destruct (connections (db_connections db) !! uuid_to_string _) as [c0|]; [|by exists c].
    destruct (_ && _); [|by exists c]. cbn in Hc. apply lookup_delete_Some in Hc as [_ Hc]. by exists c.
  - intros [c Hc]. left. unfold store_binding in Hx. destruct (bindings _ !! _); inv_res;
      [destruct (bool_decide _); inv_res|]; by exists c.
  - intros [c Hc]. by eapply groups_key.
  - intros [c Hc]. unfold StoreConnections.delete_connection in Hx. inv_res.
    apply enqueue_rows in Hx1 as [E _]. rewrite E in Hc. cbn in Hc.
    new_key Hc.
Qed.

Lemma reachable_key db id : store_reachable db → is_Some (row db id) → canonical id.
Proof.
  intros [t0 H]. revert db H. apply (rtc_ind_r (λ db, is_Some (row db id) → canonical id)).
  - unfold row. cbn. rewrite lookup_empty. by intros [].
  - intros db db' _ [c ->] IH Hr. by apply run_key in Hr as [Hr|Hr]; [apply IH|].
Qed.
End keys.

(** ** Statements that write pointers *)

Section writes.
Context {P : Platform} {Q : Sqlite} {C : ChronoSerde} {D : StrDebug} {PL : PlatformLaws P}.

(** What a statement may leave referenced: what was, wherever it points from now,
    and items in custody, each from one place. *)
Lemma db_moves c w : custody w → v_held w = true →
  let t' := db_connections (run c (v_db w)).2 in
  (∀ id, refers t' id → refers (v_tables w) id ∨ v_mine w id ∧ is_Some (v_vault w !! id)) →
  (∀ o o' id, points t' o = Some id → points t' o' = Some id → o = o') →
  shared_ok t' →
  guarantee w (with_db (run c (v_db w)).2 w) ∧ custody (with_db (run c (v_db w)).2 w).
Proof.
  cbn zeta. set (db' := (run c (v_db w)).2). intros [[H1 H2 H3 H4] Hm] Hh Hp Hu Hs.
  assert (credentials_ok db' (v_vault w)) as Hok.
  { split; [|done| |exact Hu].
    - destruct H1 as [t0 H1]. exists t0. eapply rtc_r; [exact H1|by exists c].
    - intros o id Ho. destruct (Hp id) as [[o' Ho']|[_ Hv]]; [by exists o|by eapply H3|done]. }
  split.
  - split; [done|congruence| |done]. cbn. intros id [Ho|[Hi _]]%Hp; [by left|by right].
  - split; [done|]. by intros id [_ ?].
Qed.

(** A pointer after a statement is one from before or names an item in custody that
    nothing else names. *)
Lemma db_guarantee c w : custody w → v_held w = true →
  let t' := db_connections (run c (v_db w)).2 in
  (∀ o id, points t' o = Some id → points (v_tables w) o = Some id
    ∨ v_mine w id ∧ is_Some (v_vault w !! id) ∧ ∀ o', points t' o' = Some id → o' = o) →
  shared_ok t' →
  guarantee w (with_db (run c (v_db w)).2 w) ∧ custody (with_db (run c (v_db w)).2 w).
Proof.
  cbn zeta. intros Hc Hh Hp Hs. apply db_moves; [done..| | |done].
  - intros id [o [Ho|(Hi & Hv & _)]%Hp]; [left; by exists o|by right].
  - intros o o' id Ho Ho'. destruct (Hp o id Ho) as [Hold|(Hi & _ & Hu)]; [|by symmetry; apply Hu].
    destruct (Hp o' id Ho') as [Hold'|(Hi & _ & Hu)]; [by eapply Hc|by apply Hu].
Qed.

(** A pointer that was replaced leaves its item in custody. *)
Lemma replaced_mine w db o id : custody w → points (v_tables w) o = Some id →
  points (db_connections db) o ≠ Some id →
  (∀ o id, points (db_connections db) o = Some id → points (v_tables w) o = Some id ∨ v_mine w id) →
  v_mine (with_db db w) id.
Proof.
  intros [[_ _ _ H4] Hm] Ho Hn Hp. cbn. split; [right; by exists o|].
  intros [o' Ho']. destruct (Hp o' id Ho') as [Hold|Hi].
  - by rewrite (H4 _ _ _ Hold Ho) in Ho'.
  - apply (Hm _ Hi). by exists o.
Qed.

(** A statement that failed changed nothing. *)
Lemma failed_db w : custody w → guarantee w (with_db (v_db w) w) ∧ kept w (with_db (v_db w) w).
Proof. intros Hc. apply (with_db_quiet SelectedAccount); auto. Qed.

(** *** [upsert_connection] *)

Definition profile_key (p : ConnectionProfile) : pointer := ProfilePointer (uuid_to_string (cp_id p)).

Lemma upsert_points p entries now e db r db' :
  store_reachable db → upsert_connection p entries now e db = Ok (r, db') →
  r = p ∧ points (db_connections db') (profile_key p) = (s ← cp_secret_ref p; uuid_parse s)
  ∧ (∀ o, o ≠ profile_key p → points (db_connections db') o = points (db_connections db) o)
  ∧ (shared_ok (db_connections db) → shared_ok (db_connections db')).
Proof.
  intros S H. pose proof H as H'. unfold upsert_connection in H'. inv_res.
  match goal with H : upsert_connection _ _ _ _ _ = _ |- _ => rename H into H0 end.
  split; [done|].
  match goal with H : enqueue_outbox _ _ _ _ _ _ _ = _ |- _ => apply enqueue_rows in H as [Ec Eb] end.
  cbn in Ec, Eb.
  match goal with H : upserted_row _ _ _ _ _ _ = Some ?c |- _ =>
    apply upserted_inv in H as (revision & created_at & -> & _) end.
  split_and!.
  - cbn. rewrite Ec, lookup_insert_eq. done.
  - intros [id|key] Hne; cbn; [|by rewrite Eb].
    rewrite Ec, lookup_insert_ne; [done|]. intros E. apply Hne. unfold profile_key. by rewrite E.
  - intros [H1 H2]. split; cbn; [rewrite Ec|by rewrite Eb].
    intros key c [[_ <-]|[_ Hc]]%lookup_insert_Some; [done|by eapply H1].
Qed.

(** *** [delete_connection] *)

(** A pointer from before or none. *)
Definition forgets (t t' : ConnectionTables) : Prop :=
  ∀ o, points t' o = points t o ∨ points t' o = None.
Definition not_shared (t : ConnectionTables) (id : Uuid) : Prop :=
  ∀ c, connections t !! uuid_to_string id = Some c → is_remote c = false.

Lemma delete_points wid id now e t t' :
  StoreConnections.delete_connection wid id now e t = Ok (tt, t') →
  (not_shared t id → points t' (ProfilePointer (uuid_to_string id)) = None)
  ∧ forgets t t' ∧ (shared_ok t → shared_ok t').
Proof.
  unfold StoreConnections.delete_connection. intros H. inv_res. apply live_row_Some in Hx as [Hc _].
  apply enqueue_rows in Hx0 as [Ec Eb]. cbn in Ec, Eb.
  assert (points t' (ProfilePointer (uuid_to_string id)) =
    if is_remote x then s ← con_secret_ref x; uuid_parse s else None) as Hkey.
  { cbn. rewrite Ec, lookup_insert_eq. cbn. unfold row_secret. cbn. by rewrite orb_false_r. }
  split_and!.
  - intros Hns. by rewrite Hkey, (Hns _ Hc).
  - intros o. destruct (decide (o = ProfilePointer (uuid_to_string id))) as [->|Hne].
    + rewrite Hkey. cbn. rewrite Hc. cbn. unfold row_secret. destruct (is_remote x); [by left|by right].
    + left. destruct o as [key|key]; cbn; [|by rewrite Eb]. rewrite Ec, lookup_insert_ne; [done|]. congruence.
  - intros [H1 H2]. split; cbn; [rewrite Ec|by rewrite Eb].
    intros key c' [[<- <-]|[_ Hc']]%lookup_insert_Some; [exact (H1 _ _ Hc)|by eapply H1].
Qed.

(** *** [set_connections_schema_group] *)

Lemma groups_points wid group now ids t t' :
  set_schema_groups wid group now ids t = Ok (tt, t') →
  (∀ o, points t' o = points t o)
  ∧ (shared_ok t → shared_ok t').
Proof.
  revert t. induction ids as [|[i e] ids IH]; cbn; intros t H;
    [by injection H as <-|].
  inv_res. apply IH in H as [Hp Hr]. unfold set_schema_group in Hx. inv_res.
  apply live_row_Some in Hx0 as [Hc _]. apply enqueue_rows in Hx as [Ec Eb]. cbn in Ec, Eb. split.
  - intros o. rewrite Hp. destruct o as [key|key]; cbn; [|by rewrite Eb]. rewrite Ec.
    destruct (decide (uuid_to_string i = key)) as [<-|Hn]; [|by rewrite lookup_insert_ne].
    by rewrite lookup_insert_eq, Hc.
  - intros [H1 H2]. apply Hr. split; cbn; [rewrite Ec|by rewrite Eb].
    intros key c' [[<- <-]|[_ Hc']]%lookup_insert_Some; [exact (H1 _ _ Hc)|by eapply H1].
Qed.

(** *** [bind_connection_credentials] *)

Lemma binding_points id user_id username extra new now t t' :
  store_binding id user_id username extra (Some (uuid_to_string new)) now t = Ok (tt, t') →
  let o := BindingPointer (uuid_to_string id, user_id) in
  points t' o = Some new ∧ (∀ o', o' ≠ o → points t' o' = points t o') ∧ (shared_ok t → shared_ok t').
Proof.
  unfold store_binding. intros H. cbn zeta.
  assert (∀ b f, bnd_secret_ref b = Some (uuid_to_string new) →
    (shared_ok t → bnd_workspace_access b ≠ "local") →
    bindings f = <[(uuid_to_string id, user_id) := b]> (bindings t) → connections f = connections t →
    points f (BindingPointer (uuid_to_string id, user_id)) = Some new
    ∧ (∀ o', o' ≠ BindingPointer (uuid_to_string id, user_id) → points f o' = points t o')
    ∧ (shared_ok t → shared_ok f)) as Hins.
  { intros b f Hb Hl Ef Ec. split_and!.
    - cbn. rewrite Ef, lookup_insert_eq. cbn. unfold binding_secret. rewrite Hb. cbn. apply uuid_roundtrip.
    - intros [key|key] Hne; cbn; [by rewrite Ec|]. rewrite Ef, lookup_insert_ne; [done|]. congruence.
    - intros Hs. split; [rewrite Ec; apply Hs|]. rewrite Ef.
      intros key b' [[_ <-]|[_ Hb']]%lookup_insert_Some; [by apply Hl|by eapply (proj2 Hs)]. }
  destruct (bindings t !! (uuid_to_string id, user_id)) as [b|] eqn:Hb.
  - case_bool_decide as Hsame.
    + injection H as <-. destruct Hsame as (_ & _ & Hs). split_and!; [|done..].
      cbn. rewrite Hb. cbn. unfold binding_secret. rewrite Hs. cbn. apply uuid_roundtrip.
    + injection H as <-. eapply Hins; [| |reflexivity..]; [done|]. intros Hs. by apply (proj2 Hs _ _ Hb).
  - inv_res. by eapply Hins; [| |reflexivity..].
Qed.

(** *** [sync_account_workspaces] *)

(** Where a pointer comes from: the binding a refresh makes took its row's. *)
Definition origin (t : ConnectionTables) (o : pointer) : pointer :=
  match o with
  | BindingPointer key =>
      match bindings t !! key with Some _ => o | None => ProfilePointer key.1 end
  | _ => o
  end.

(** Row by row: a template's secret moves into a new binding, every other stays. *)
Lemma refreshed_points user l now db r db' :
  sync_account_workspaces user l now db = Ok (r, db') →
  let t := db_connections db in let t' := db_connections db' in
  ∃ moved : string → bool,
  (∀ id, points t' (ProfilePointer id) = if moved id then None else points t (ProfilePointer id))
  ∧ ∀ id account, points t' (BindingPointer (id, account)) =
      match bindings t !! (id, account) with
      | Some _ => points t (BindingPointer (id, account))
      | None => if bool_decide (account = us_id user) && moved id then points t (ProfilePointer id) else None
      end.
Proof.
  intros H. destruct (refresh_connections _ _ _ _ _ _ H) as (s & _ & Hc & Hb). cbn zeta.
  set (adopted := adopt_connections (us_id user) s (connections (db_connections db))) in *.
  assert (∀ id, adopted !! id = (λ c, if bool_decide (con_remote_id c = None ∧ con_account_user_id c = None)
       && is_active_member s (con_workspace_id c) (us_id user) then set_con_account (Some (us_id user)) c
       else c) <$> connections (db_connections db) !! id) as Hadopted by (intros id; apply lookup_fmap).
  assert (∀ id c, adopted !! id = Some c → (adopted !! id ≫= row_secret) = points (db_connections db) (ProfilePointer id))
    as Hsame.
  { intros id c _. rewrite Hadopted. cbn. destruct (connections (db_connections db) !! id) as [c0|]; [|done].
    cbn. by destruct (_ && _). }
  exists (λ id, from_option (legacy_template (us_id user) s) false (adopted !! id)). split.
  - intros id. unfold points at 1. rewrite Hc. unfold redact_templates. rewrite lookup_fmap.
    destruct (adopted !! id) as [c|] eqn:Ha; cbn [fmap option_fmap option_map from_option].
    + rewrite <-(Hsame id c Ha), Ha. cbn. destruct (legacy_template (us_id user) s c); [|done].
      unfold row_secret. cbn. by destruct (_ || _).
    + rewrite Hadopted in Ha. cbn. by destruct (connections (db_connections db) !! id).
  - intros id account. unfold points at 1. rewrite Hb, adopted_binding. cbn [points].
    destruct (bindings (db_connections db) !! (id, account)) as [b|]; [done|].
    rewrite decide_bool_decide. destruct (bool_decide (account = us_id user)); [|done]. cbn [andb].
    destruct (adopted !! id) as [c|] eqn:Ha; [|done]. cbn.
    destruct (legacy_template (us_id user) s c) eqn:Hl; [|done].
    pose proof (Hsame id c Ha) as E. rewrite Ha in E. cbn in E. rewrite <-E. unfold row_secret.
    unfold legacy_template in Hl. bools. unfold is_remote. by rewrite bool_decide_true.
Qed.

Lemma refresh_origin user l now db r db' o id :
  sync_account_workspaces user l now db = Ok (r, db') →
  points (db_connections db') o = Some id →
  points (db_connections db) (origin (db_connections db) o) = Some id.
Proof.
  intros H Ho. destruct (refreshed_points _ _ _ _ _ _ H) as (moved & Hp & Hb).
  destruct o as [key|[key account]].
  - rewrite Hp in Ho. by destruct (moved key).
  - rewrite Hb in Ho. unfold origin. destruct (bindings (db_connections db) !! (key, account)); [done|].
    by destruct (_ && _).
Qed.

Lemma refresh_origin_inj user l now db r db' o o' id id' :
  sync_account_workspaces user l now db = Ok (r, db') →
  points (db_connections db') o = Some id → points (db_connections db') o' = Some id' →
  origin (db_connections db) o = origin (db_connections db) o' → o = o'.
Proof.
  intros H. destruct (refreshed_points _ _ _ _ _ _ H) as (moved & Hp & Hb).
  destruct o as [k|[k a]], o' as [k'|[k' a']]; rewrite ?Hp, ?Hb; unfold origin; intros Ho Ho';
    repeat case_match; bools; simplify_eq/=; congruence.
Qed.

Lemma refresh_shared user l now db r db' :
  sync_account_workspaces user l now db = Ok (r, db') →
  shared_ok (db_connections db) → shared_ok (db_connections db').
Proof.
  intros H [H1 H2]. destruct (refresh_connections _ _ _ _ _ _ H) as (s & _ & Hc & Hb). split.
  - intros key c. rewrite Hc. unfold redact_templates, adopt_connections. rewrite !lookup_fmap.
    destruct (connections (db_connections db) !! key) as [c0|] eqn:Hc0; [|done]. cbn. intros [= <-] Hr.
    assert (is_remote c0 = true → con_workspace_access c0 ≠ "local") as Hl by (by apply H1 with key).
    destruct (bool_decide _ && _); cbn in *; destruct (legacy_template _ _ _); by apply Hl.
  - intros [key account] b. rewrite Hb, adopted_binding.
    destruct (bindings (db_connections db) !! (key, account)) as [b0|] eqn:Hb0; [intros [= <-]; by eapply H2|].
    case_decide; [|done]. destruct (_ !! key) as [c|]; [|done]. cbn.
    by destruct (legacy_template _ _ _); intros [= <-].
Qed.

(** *** [sync_remote_connections] *)

Lemma forgets_trans t1 t2 t3 : forgets t1 t2 → forgets t2 t3 → forgets t1 t3.
Proof. intros H1 H2 o. destruct (H2 o) as [->| ->]; [apply H1|by right]. Qed.

Lemma template_row wid user p revision now t id :
  uuid_to_string (cp_id p) ≠ id →
  connections (sync_template wid user p revision now t) !! id = connections t !! id.
Proof.
  intros Hn. unfold sync_template. cbn.
  destruct (connections t !! uuid_to_string (cp_id p)) as [c|]; [destruct (_ =? _)%string|];
    by rewrite ?lookup_insert_ne.
Qed.

Lemma template_forgets wid user p revision now t :
  listed_apart [(p, revision)] t → forgets t (sync_template wid user p revision now t).
Proof.
  intros Ha [id|[id account]].
  - unfold points. destruct (decide (uuid_to_string (cp_id p) = id)) as [<-|Hn]; [|left; by rewrite template_row].
    unfold sync_template. cbn. destruct (connections t !! uuid_to_string (cp_id p)) as [c|] eqn:Hc.
    + destruct (_ =? _)%string; [|left; by rewrite Hc]. rewrite lookup_insert_eq. left. cbn.
      unfold row_secret. cbn. destruct (is_remote c) eqn:Hr; [done|].
      rewrite (Ha (p, revision) c); [done|left|exact Hc|exact Hr].
    + rewrite lookup_insert_eq. by right.
  - unfold sync_template. cbn.
    destruct (decide ((uuid_to_string (cp_id p), user) = (id, account))) as [E|Hn].
    + rewrite E. destruct (bindings t !! (id, account)) as [b|] eqn:Hb.
      * destruct (_ || _); [|left; by rewrite Hb]. rewrite lookup_insert_eq. by left.
      * rewrite lookup_insert_eq. by right.
    + left. destruct (bindings t !! (uuid_to_string (cp_id p), user)) as [b|];
        [destruct (_ || _)|]; by rewrite ?lookup_insert_ne.
Qed.

Lemma template_apart wid user p revision now t l :
  listed_apart ((p, revision) :: l) t → listed_apart l (sync_template wid user p revision now t).
Proof.
  intros Ha q row Hq Hrow Hr. destruct (decide (uuid_to_string (cp_id p) = uuid_to_string (cp_id q.1))) as [E|Hn].
  2: { rewrite template_row in Hrow by done. apply (Ha q); [by right|done..]. }
  unfold sync_template in Hrow. cbn in Hrow. rewrite <-E in Hrow.
  destruct (connections t !! uuid_to_string (cp_id p)) as [c|] eqn:Hc.
  - destruct (_ =? _)%string; [rewrite lookup_insert_eq in Hrow; by injection Hrow as <-|].
    apply (Ha q); [by right| |done]. by rewrite <-E.
  - rewrite lookup_insert_eq in Hrow. by injection Hrow as <-.
Qed.

Lemma templates_forget wid user l now t : listed_apart l t →
  forgets t (foldl (λ t p, sync_template wid user p.1 p.2 now t) t l).
Proof.
  revert t. induction l as [|[p revision] l IH]; intros t Ha; [by left|].
  eapply forgets_trans; [apply template_forgets|apply IH, template_apart, Ha].
  intros q row Hq. apply Ha. apply list_elem_of_singleton in Hq as ->. left.
Qed.

Lemma withdraw_row wid incoming now t id row : connections (withdraw wid incoming now t) !! id = Some row →
  ∃ c, connections t !! id = Some c ∧ is_remote row = is_remote c ∧ con_secret_ref row = con_secret_ref c
    ∧ (is_remote c = false → con_deleted_at row = con_deleted_at c).
Proof.
  unfold withdraw. cbn. rewrite map_lookup_imap. destruct (connections t !! id) as [c|]; [|done].
  cbn. intros [= <-]. exists c. destruct (withdrawn wid incoming id c) eqn:Hw; [|done].
  split_and!; [done..|]. intros Hr. unfold withdrawn in Hw. by rewrite Hr, andb_false_r in Hw.
Qed.

Lemma withdraw_apart wid incoming now t l : listed_apart l t → listed_apart l (withdraw wid incoming now t).
Proof.
  intros Ha p row Hp (c & Hc & Er & _ & Ed)%withdraw_row Hr. rewrite Er in Hr. rewrite Ed by done.
  by eapply Ha.
Qed.

Lemma withdraw_forgets wid incoming now t : forgets t (withdraw wid incoming now t).
Proof.
  intros [id|[id account]].
  - left. unfold points. destruct (connections (withdraw wid incoming now t) !! id) as [row|] eqn:Hrow.
    + apply withdraw_row in Hrow as (c & -> & Er & Es & Ed). cbn. unfold row_secret. rewrite Er, Es.
      destruct (is_remote c) eqn:Hr; [done|by rewrite Ed].
    + unfold withdraw in Hrow. cbn in Hrow. rewrite map_lookup_imap in Hrow.
      by destruct (connections t !! id).
  - unfold withdraw. cbn. rewrite map_lookup_imap.
    destruct (bindings t !! (id, account)) as [b|]; cbn; [|by left].
    destruct (connections t !! id) as [c|]; cbn; [|by left].
    destruct (withdrawn wid incoming id c); cbn; [by right|by left].
Qed.

Lemma template_shared wid user p revision now t :
  is_local (cp_workspace_access p) = false → shared_ok t → shared_ok (sync_template wid user p revision now t).
Proof.
  intros Hl [H1 H2].
  assert (workspace_access_str (cp_workspace_access p) ≠ "local") as Hne
    by (by destruct (cp_workspace_access p)).
  split.
  - intros key c. unfold sync_template. cbn.
    destruct (connections t !! uuid_to_string (cp_id p)) as [c0|]; [destruct (_ =? _)%string|];
      rewrite ?lookup_insert_Some; [intros [[_ <-]|[_ H]]|intros H|intros [[_ <-]|[_ H]]]; try done; by eapply H1.
  - intros key b. unfold sync_template. cbn.
    destruct (bindings t !! (uuid_to_string (cp_id p), user)) as [b0|]; [destruct (_ || _)|];
      rewrite ?lookup_insert_Some; [intros [[_ <-]|[_ H]]|intros H|intros [[_ <-]|[_ H]]]; try done; by eapply H2.
Qed.

Lemma templates_shared wid user l now t :
  Forall (λ p : ConnectionProfile * Z, is_local (cp_workspace_access p.1) = false) l →
  shared_ok t → shared_ok (foldl (λ t p, sync_template wid user p.1 p.2 now t) t l).
Proof.
  intros Hl. revert t. induction Hl as [|[p revision] l Hp _ IH]; intros t Ht; [done|].
  apply IH. by apply template_shared.
Qed.

Lemma withdraw_shared wid incoming now t : shared_ok t → shared_ok (withdraw wid incoming now t).
Proof.
  intros [H1 H2]. unfold withdraw. split; cbn; intros key c; rewrite map_lookup_imap.
  - destruct (connections t !! key) as [c0|] eqn:Hc; cbn; [|done]. intros [= <-].
    pose proof (H1 _ _ Hc). by destruct (withdrawn _ _ _ _).
  - destruct (bindings t !! key) as [b|] eqn:Hb; cbn; [|done]. pose proof (H2 _ _ Hb) as Hl.
    destruct (connections t !! key.1) as [c0|]; [destruct (withdrawn _ _ _ _)|]; by intros [= <-].
Qed.

(** The items the method returns are those of bindings that are gone. *)
Lemma withdrawn_pointed wid user l now t id : listed_apart l t →
  id ∈ withdrawn_credentials wid (map (λ p, uuid_to_string (cp_id p.1)) l) t →
  ∃ o, points t o = Some id
    ∧ points (foldl (λ t p, sync_template wid user p.1 p.2 now t)
                (withdraw wid (map (λ p, uuid_to_string (cp_id p.1)) l) now t) l) o = None.
Proof.
  intros Ha. unfold withdrawn_credentials. rewrite elem_of_list_to_set, list_elem_of_omap.
  intros ([[i account] b] & Hb & Hs). apply elem_of_map_to_list in Hb. cbn in Hs.
  destruct (connections t !! i) as [c|] eqn:Hc; [|done]. cbn in Hs.
  destruct (bnd_secret_ref b) as [s|] eqn:Hr; [|done]. cbn in Hs.
  destruct (withdrawn _ _ i c) eqn:Hw; [|done].
  exists (BindingPointer (i, account)). split.
  - cbn. rewrite Hb. cbn. unfold binding_secret. by rewrite Hr.
  - set (t1 := withdraw _ _ now t).
    assert (points t1 (BindingPointer (i, account)) = None) as H1.
    { unfold t1, withdraw. cbn. rewrite map_lookup_imap, Hb. cbn. by rewrite Hc, Hw. }
    destruct (templates_forget wid user l now t1 (withdraw_apart _ _ _ _ _ Ha) (BindingPointer (i, account)))
      as [->| ->]; done.
Qed.
End writes.

(** ** The credential methods stay within custody

    Every call of [upsert], [delete], [set_schema_group], of a member's binding
    and of a template sync respects the custody of the others, whatever the
    store, the vault, the control plane and the other tasks do. *)

#[local] Arguments safely : simpl never.

Section reads.
Context {P : Platform} {Q : Sqlite} {C : ChronoSerde} {D : StrDebug} {PL : PlatformLaws P}.
Local Open Scope prog_scope.

Lemma same_tables_connections t t' : same_tables t t' → connections t' = connections t.
Proof. by intros []. Qed.

(** [ensure_connection_write_scope]: the identifier is not a shared template's. *)
Lemma safely_write_scope id w : custody w → v_held w = true →
  safely (in_store (Store.ensure_connection_write_scope id)) w (λ r w',
    kept w w' ∧ (r = Ok tt → not_shared (v_tables w') id)).
Proof.
  intros Hc Hh. unfold Store.ensure_connection_write_scope. cbn.
  apply safely_quiet_vis; [done..|]. intros w1 [ws|error] w2 _ _ K _; cbn.
  2: { intros w3 Hr. split; [|done]. eapply kept_trans; [exact K|by apply rely_kept]. }
  apply safely_quiet_vis; [done|apply K|]. intros w3 account w4 _ _ K' _; cbn.
  apply safely_quiet_vis; [done|apply K'|]. intros w5 r w6 K5 H6 K6 K56; cbn. intros w7 Hr7.
  pose proof (rely_kept _ _ Hr7) as K7.
  assert (kept w w5) as K05 by (eapply kept_trans; [exact K|]; by eapply kept_trans).
  assert (kept w5 w7) as K57 by (by eapply kept_trans).
  split; [by eapply kept_trans|]. intros ->.
  assert (v_held w5 = true) as Hh5 by (by rewrite (kp_held _ _ K05)).
  destruct (kp_tables _ _ K57 Hh5) as [E _]. unfold not_shared. rewrite E. intros c Hcon.
  destruct H6 as [_ [[Hr _]|[[error Hr] _]]]; [|done]. cbn [run] in Hr. symmetry in Hr. cbn in Hr.
  unfold write_scope in Hr. unfold v_tables in Hcon. rewrite Hcon in Hr.
  destruct (is_remote c); [|done]. by rewrite orb_true_r in Hr.
Qed.

Definition listed (t : ConnectionTables) (l : list ConnectionProfile) : Prop :=
  ∃ ws account, mapM row_to_connection_with_binding (connection_rows ws account t) = Ok l.

Lemma connection_rows_same ws account t t' :
  same_tables t t' → connection_rows ws account t' = connection_rows ws account t.
Proof. intros [E1 E2]. unfold connection_rows, binding_of. by rewrite E1, E2. Qed.

(** [list_connections]: the profiles of the rows. *)
Lemma safely_list w : custody w → v_held w = true →
  safely (in_store Store.list_connections) w (λ r w',
    kept w w' ∧ ∀ l, r = Ok l → listed (v_tables w') l).
Proof.
  intros Hc Hh. unfold Store.list_connections. cbn.
  apply safely_quiet_vis; [done..|]. intros w1 [ws|error] w2 _ _ K _; cbn.
  2: { intros w3 Hr. split; [|done]. eapply kept_trans; [exact K|by apply rely_kept]. }
  apply safely_quiet_vis; [done|apply K|]. intros w3 account w4 _ _ K' _; cbn.
  assert (kept w w4) as K4 by (by eapply kept_trans).
  destruct (team_without_account ws account) as [[]|error]; cbn.
  2: { intros w5 Hr. split; [|done]. eapply kept_trans; [exact K4|by apply rely_kept]. }
  apply safely_quiet_vis; [done|apply K4|]. intros w5 r w6 K5 H6 K6 K56; cbn. intros w7 Hr7.
  assert (kept w5 w7) as K57 by (eapply kept_trans; [exact K56|by apply rely_kept]).
  assert (kept w w5) as K05 by (by eapply kept_trans).
  split; [by eapply kept_trans|]. intros l ->.
  assert (v_held w5 = true) as Hh5 by (by rewrite (kp_held _ _ K05)).
  destruct H6 as [_ [[Hr _]|[[error Hr] _]]]; [|done]. cbn [run] in Hr.
  exists ws, account. rewrite (connection_rows_same _ _ _ _ (kp_tables _ _ K57 Hh5)). symmetry. exact Hr.
Qed.

(** What the columns and the binding give. *)
Lemma parse_access_local s access :
  parse_workspace_access s = Ok access → is_local access = true ↔ s = "local".
Proof.
  intros H. unfold parse_workspace_access in H. repeat case_match; simplify_eq; cbn; split; try done.
Qed.

Lemma bound_profile br p :
  row_to_connection_with_binding br = Ok p →
  uuid_parse (br_id br) = Some (cp_id p)
  ∧ (con_workspace_access (br_row br) = "local" →
     is_local (cp_workspace_access p) = true ∧ cp_secret_ref p = con_secret_ref (br_row br))
  ∧ (con_workspace_access (br_row br) ≠ "local" →
     (∀ b, br_binding br = Some b → bnd_workspace_access b ≠ "local") →
     is_local (cp_workspace_access p) = false
     ∧ (cp_credential_mode p = WorkspaceCredentialMode.MemberLocal →
        cp_secret_ref p = (b ← br_binding br; bnd_secret_ref b))).
Proof.
  unfold row_to_connection_with_binding. intros H.
  destruct (row_to_connection (br_id br) (br_row br)) as [p0|] eqn:Hp0; cbn in H; [|done].
  assert (uuid_parse (br_id br) = Some (cp_id p0) ∧ cp_secret_ref p0 = con_secret_ref (br_row br)
    ∧ parse_workspace_access (con_workspace_access (br_row br)) = Ok (cp_workspace_access p0)) as (E1 & E2 & E3).
  { unfold row_to_connection, parse_uuid_text in Hp0. by inv_res. }
  apply parse_access_local in E3. destruct (is_local (cp_workspace_access p0)) eqn:Hl.
  - injection H as <-. split_and!; [done|done|]. intros Hn. by destruct Hn; apply E3.
  - destruct (match cp_credential_mode p0 with WorkspaceCredentialMode.MemberLocal => _ | _ => _ end)
      as [[username extra] secret] eqn:Hm.
    destruct (match br_binding br with Some b => _ | None => _ end) as [access|] eqn:Ha; cbn in H; [|done].
    injection H as <-. cbn. split_and!; [done|intros Hn; by apply E3 in Hn|]. intros _ Hb.
    split.
    + destruct (is_local access) eqn:Hla; [|done]. destruct (br_binding br) as [b|]; [|by injection Ha as <-].
      apply parse_access_local in Ha. by destruct (Hb b eq_refl); apply Ha.
    + intros E. rewrite E in Hm. by injection Hm as _ _ <-.
Qed.

(** The pointer [upsert] replaces. *)
Lemma existing_points {L : SqliteLaws P Q} w l id old :
  custody w → listed (v_tables w) l → not_shared (v_tables w) id →
  ConnectionService.existing_secret_id id l = Ok (Some old) →
  points (v_tables w) (ProfilePointer (uuid_to_string id)) = Some old.
Proof.
  intros [[Hreach _ _ _] _] (ws & account & Hl) Hns He.
  unfold ConnectionService.existing_secret_id in He.
  destruct (List.find _ l) as [p|] eqn:Hf; cbn in He; [|done].
  apply find_some in Hf as [Hin Hid]. apply bool_decide_eq_true in Hid.
  destruct (cp_secret_ref p) as [s|] eqn:Hs; [|done]. inv_res.
  assert (∃ br, br ∈ connection_rows ws account (v_tables w) ∧ row_to_connection_with_binding br = Ok p)
    as (br & Hbr & Hp).
  { clear -Hl Hin. revert l Hl Hin. induction (connection_rows ws account (v_tables w)) as [|br rows IH];
      intros l Hl Hin; cbn in Hl; inv_res; injection Hl as <-; [by destruct Hin|].
    destruct Hin as [<-|Hin]; [exists br; split; [left|done]|].
    destruct (IH _ Hx0 Hin) as (br' & ? & ?). exists br'. split; [by right|done]. }
  unfold connection_rows in Hbr. apply list_elem_of_In, in_map_iff in Hbr as ([key c] & <- & Hbr).
  apply list_elem_of_In in Hbr. rewrite order_by_perm in Hbr. apply list_elem_of_In, filter_In in Hbr as [Hbr Hb].
  apply list_elem_of_In, elem_of_map_to_list in Hbr. cbn in Hb, Hp. bools.
  destruct (reachable_key (v_db w) key) as [u ->]; [done|by exists c|].
  destruct (bound_profile _ _ Hp) as (Hid & Hloc & _). cbn in Hid, Hloc.
  rewrite uuid_roundtrip in Hid. injection Hid as ->.
  pose proof (Hns _ Hbr) as Hr. cbn. rewrite Hbr. cbn. unfold row_secret.
  rewrite Hr, bool_decide_true by done. cbn [orb].
  destruct Hloc as [_ <-]; [|by rewrite Hs].
  eapply (reachable_local_ok (v_db w)); [done|exact Hbr|].
  unfold is_remote in Hr. bools. destruct (con_remote_id c); [by destruct Hr|done].
Qed.

(** ** Pins *)

(** A pin taken in a store with the same profiles and bindings. *)
Definition pinned_in (t : ConnectionTables) (id : Uuid) (pin : PinnedConnection) : Prop :=
  ∃ db, store_reachable db ∧ same_tables (db_connections db) t
    ∧ pin_connection_with_access id true db = Ok pin.

Lemma pinned_same t t' id pin : same_tables t t' → pinned_in t id pin → pinned_in t' id pin.
Proof. intros Hs (db & ? & ? & ?). exists db. split_and!; [done| |done]. by eapply same_tables_trans. Qed.

(** The profile of a pin names the items its pointers name. *)
Lemma pinned_points t id pin : shared_ok t → pinned_in t id pin →
  (is_local (cp_workspace_access (pc_profile pin)) = true →
   not_shared t id ∧ points t (ProfilePointer (uuid_to_string id)) = (s ← cp_secret_ref (pc_profile pin); uuid_parse s))
  ∧ (is_local (cp_workspace_access (pc_profile pin)) = false →
     cp_credential_mode (pc_profile pin) = WorkspaceCredentialMode.MemberLocal →
     ∀ account, sc_selected_account_id (pc_scope pin) = Some account →
     points t (BindingPointer (uuid_to_string id, account))
     = (s ← cp_secret_ref (pc_profile pin); uuid_parse s)).
Proof.
  intros [S1 S2] (db & Hreach & [E1 E2] & Hpin).
  apply pin_inv in Hpin as (wid & ws & c & raw & scope & Hj & Hprof & _ & Hsc & _ & _ & _ & _ & _).
  cbn zeta in *. destruct Hj as [_ _ Hrow _ _ _]. apply live_row_Some in Hrow as (Hc & _ & Hlive).
  destruct (scope_inv _ _ _ _ _ _ Hsc) as (_ & _ & Hacc & _).
  rewrite <-E1 in Hc. destruct (bound_profile _ _ Hprof) as (_ & Hloc & Hsh). cbn in Hloc, Hsh.
  assert (∀ b, binding_of (db_connections db) (uuid_to_string id) (selected_account (db_scope db)) = Some b →
    bnd_workspace_access b ≠ "local") as Hb.
  { unfold binding_of. destruct (selected_account _) as [account|]; [|done]. cbn. rewrite <-E2. apply S2. }
  split.
  - intros Hl. destruct (decide (con_workspace_access c = "local")) as [Hca|Hca].
    2: { destruct (Hsh Hca Hb) as [Hn _]. by rewrite Hl in Hn. }
    destruct (Hloc Hca) as [_ ->].
    assert (is_remote c = false) as Hr by (destruct (is_remote c) eqn:Hr; [by destruct (S1 _ _ Hc Hr)|done]).
    split; [intros c' Hc'; congruence|]. cbn. rewrite Hc. cbn. unfold row_secret.
    by rewrite Hr, bool_decide_true.
  - intros Hl Hm account Ha. destruct (decide (con_workspace_access c = "local")) as [Hca|Hca].
    { destruct (Hloc Hca) as [Hn _]. by rewrite Hl in Hn. }
    destruct (Hsh Hca Hb) as [_ Hsec]. rewrite Hsec by done.
    rewrite Ha in Hacc. symmetry in Hacc. unfold binding_of. rewrite Hacc. cbn. rewrite <-E2.
    by destruct (bindings t !! (uuid_to_string id, account)).
Qed.

(** What a program of the services can return. *)
Fixpoint returns {A} (p : program A) (R : A → Prop) : Prop :=
  match p with Ret a => R a | Vis _ k => ∀ r, returns (k r) R end.
Lemma returns_bind {A B} (p : program A) (f : A → program B) (R : B → Prop) :
  (∀ a, returns (f a) R) → returns (p ≫= f) R.
Proof. induction p as [a|c k IH]; cbn; auto. Qed.
Lemma returns_quiet {A} (p : program A) R : returns p R → quiet_cache (lift p) R.
Proof. induction p as [a|c k IH]; cbn; auto. Qed.

(** [begin_connection_mutation]: the gate is held and the pin is of the rows. *)
Lemma safely_begin_connection id access w : custody w →
  safely (begin_connection_mutation id access) w (λ r w', custody w'
    ∧ ∀ pin, r = Ok pin → v_held w' = true ∧ pinned_in (v_tables w') id pin).
Proof.
  intros Hc. apply safely_bind. eapply safely_mono; [|by apply safely_begin].
  intros [] w1 _ [Hc1 Hh1 _]. apply safely_bind.
  assert (safely (hosted (lift (manager_pin id access))) w1 (λ r w', kept w1 w'
    ∧ ∀ context, r = Ok context → pinned_in (v_tables w') id (cx_pin context))) as Hpin.
  { apply safely_quiet_vis; [done..|]. intros w2 r w3 K2 H3 K3 K23. cbn.
    destruct r as [pin|error]; cbn.
    2: { intros w4 Hr. split; [|done]. eapply kept_trans; [exact K3|by apply rely_kept]. }
    assert (pinned_in (v_tables w3) id pin) as Hp.
    { destruct H3 as [_ [[Hr _]|[[error Hr] _]]]; [|done]. cbn [run] in Hr.
      exists (v_db w2). split_and!; [apply K2|apply K23; by rewrite (kp_held _ _ K2)|done]. }
    eapply safely_mono; [|apply safely_quietly; [apply K3|apply quiet_hosted, returns_quiet]].
    2: { apply (returns_bind _ _ (λ r, ∀ context, r = Ok context → cx_pin context = pin)).
      intros [authorization|error]; [|done]. intros [[]|error]; cbn; try done.
      by intros context [= <-]. }
    intros r w4 _ [K4 Hr]. split; [by eapply kept_trans|]. intros context E. rewrite (Hr _ E).
    eapply pinned_same; [|exact Hp]. apply K4. by rewrite (kp_held _ _ K3). }
  eapply safely_mono; [|exact Hpin]. intros [context|error] w2 _ [K2 Hp].
  - intros w3 Hr. pose proof (rely_kept _ _ Hr) as K3. split; [apply K3|]. intros pin [= <-].
    assert (v_held w2 = true) as Hh2 by (by rewrite (kp_held _ _ K2)).
    split; [by rewrite (kp_held _ _ K3)|]. eapply pinned_same; [by apply K3|by apply Hp].
  - apply safely_bind. eapply safely_mono; [|apply safely_drop, K2].
    intros [] w3 Hc3 _ w4 Hr. split; [by eapply rely_custody|done].
Qed.
End reads.

(** ** The statements, in place *)

Section statements.
Context {P : Platform} {Q : Sqlite} {C : ChronoSerde} {D : StrDebug} {PL : PlatformLaws P}.
Local Open Scope prog_scope.

(** What [upsert_connection] may be given: no pointer, the one the row has, or an
    item in custody. *)
Definition may_point (w : View) (p : ConnectionProfile) : Prop :=
  match (s ← cp_secret_ref p; uuid_parse s) with
  | None => True
  | Some id => points (v_tables w) (profile_key p) = Some id
               ∨ v_mine w id ∧ is_Some (v_vault w !! id)
  end.

(** The pointer it replaced, if another took its place, is in custody. *)
Lemma upsert_step p entries now e w r w' :
  custody w → v_held w = true → may_point w p →
  respond (HostCall.Db (Upsert p entries now e)) w r w' →
  guarantee w w' ∧ custody w'
  ∧ match r with
    | Ok p' => p' = p ∧ ∀ old, points (v_tables w) (profile_key p) = Some old →
        (s ← cp_secret_ref p; uuid_parse s) ≠ Some old → v_mine w' old
    | Err _ => kept w w'
    end.
Proof.
  intros Hc Hh Hp H.
  assert (∀ error, r = Err error → w' = with_db (v_db w) w → guarantee w w' ∧ custody w' ∧ kept w w') as Hfail.
  { intros error _ ->. destruct (failed_db w Hc) as [? K]. split_and!; [done|apply K|done]. }
  destruct H as [_ [[-> ->]|[[error ->] ->]]]; [|by apply (Hfail error)].
  cbn [run] in *. unfold commit in *.
  destruct (StoreConnections.upsert_connection p entries now e (v_db w)) as [[p' db']|error] eqn:Hu;
    cbn in *; [|by apply (Hfail error)].
  destruct (upsert_points _ _ _ _ _ _ _ (cok_reachable _ _ (proj1 Hc)) Hu) as (-> & Hkey & Hother & Hsh).
  assert (db' = (run (Upsert p entries now e) (v_db w)).2) as Edb by (cbn [run]; unfold commit; by rewrite Hu).
  assert (∀ o id, points (db_connections db') o = Some id → points (v_tables w) o = Some id
    ∨ v_mine w id ∧ is_Some (v_vault w !! id) ∧ ∀ o', points (db_connections db') o' = Some id → o' = o) as Hpts.
  { intros o id Ho. destruct (decide (o = profile_key p)) as [->|Hne]; [|left; by rewrite <-Hother].
    rewrite Hkey in Ho. unfold may_point in Hp. rewrite Ho in Hp. destruct Hp as [Hp|[Hi Hv]]; [by left|].
    right. split_and!; [done..|]. intros o' Ho'. destruct (decide (o' = profile_key p)) as [|Hne']; [done|].
    rewrite Hother in Ho' by done. destruct (proj2 Hc _ Hi). by exists o'. }
  destruct (db_guarantee (Upsert p entries now e) w Hc Hh) as [Hg Hc'].
  { by rewrite <-Edb. } { rewrite <-Edb. apply Hsh, Hc. }
  rewrite <-Edb in Hg, Hc'. split_and!; [done..|].
  intros old Hold Hne. apply (replaced_mine w db' (profile_key p)); [done..|by rewrite Hkey|].
  intros o id Ho. destruct (Hpts o id Ho) as [?|[? _]]; [by left|by right].
Qed.

Lemma delete_step wid id now e w r w' :
  custody w → v_held w = true →
  respond (HostCall.Db (DeleteConnection wid id now e)) w r w' →
  guarantee w w' ∧ custody w'
  ∧ (r = Ok tt → not_shared (v_tables w) id → ∀ old,
     points (v_tables w) (ProfilePointer (uuid_to_string id)) = Some old → v_mine w' old).
Proof.
  intros Hc Hh H.
  assert (∀ error : AppError, r = Err error → w' = with_db (v_db w) w → guarantee w w' ∧ custody w'
    ∧ (r = Ok tt → not_shared (v_tables w) id → ∀ old,
    points (v_tables w) (ProfilePointer (uuid_to_string id)) = Some old → v_mine w' old)) as Hfail.
  { intros error -> ->. destruct (failed_db w Hc) as [? K]. split_and!; [done|apply K|done]. }
  destruct H as [_ [[-> ->]|[[error ->] ->]]]; [|by apply (Hfail error)].
  cbn [run] in *. unfold commit, in_connections in *.
  destruct (StoreConnections.delete_connection wid id now e (db_connections (v_db w))) as [[[] t']|error] eqn:Hd;
    cbn in *; [|by apply (Hfail error)].
  destruct (delete_points _ _ _ _ _ _ Hd) as (Hkey & Hforget & Hsh).
  set (db' := on_connections (λ _, t') (v_db w)) in *.
  assert (db' = (run (DeleteConnection wid id now e) (v_db w)).2) as Edb
    by (cbn [run]; unfold commit, in_connections; by rewrite Hd).
  assert (∀ o id', points (db_connections db') o = Some id' → points (v_tables w) o = Some id') as Hpts.
  { intros o id' Ho. cbn in Ho. destruct (Hforget o) as [E|E]; by rewrite E in Ho. }
  destruct (db_guarantee (DeleteConnection wid id now e) w Hc Hh) as [Hg Hc'].
  { rewrite <-Edb. intros o id' Ho. left. by apply Hpts. } { rewrite <-Edb. apply Hsh, Hc. }
  rewrite <-Edb in Hg, Hc'. split_and!; [done..|]. intros _ Hns old Hold.
  apply (replaced_mine w db' (ProfilePointer (uuid_to_string id))); [exact Hc|exact Hold| |].
  - cbn [db_connections on_connections db']. by rewrite (Hkey Hns).
  - intros o id' Ho. left. by apply Hpts.
Qed.

Lemma groups_step wid group now ids w r w' :
  custody w → v_held w = true →
  respond (HostCall.Db (SetGroups wid group now ids)) w r w' → guarantee w w' ∧ custody w'.
Proof.
  intros Hc Hh H.
  assert (guarantee w (with_db (v_db w) w) ∧ custody (with_db (v_db w) w)) as Hfail
    by (destruct (failed_db w Hc) as [? K]; split; [done|apply K]).
  destruct H as [_ [[_ ->]|[_ ->]]]; [|done].
  cbn [run]. unfold commit, in_connections.
  destruct (set_schema_groups wid group now ids (db_connections (v_db w))) as [[[] t']|error] eqn:Hd; [|done].
  destruct (groups_points _ _ _ _ _ _ Hd) as [Hpts Hsh].
  pose proof (db_guarantee (SetGroups wid group now ids) w Hc Hh) as Hg.
  cbn [run] in Hg. unfold commit, in_connections in Hg. rewrite Hd in Hg. apply Hg; cbn [db_connections on_connections].
  - intros o id Ho. left. by rewrite Hpts in Ho.
  - apply Hsh, Hc.
Qed.

Lemma binding_step id user_id username extra new now w r w' :
  custody w → v_held w = true → v_mine w new → is_Some (v_vault w !! new) →
  respond (HostCall.Db (StoreBinding id user_id username extra (Some (uuid_to_string new)) now)) w r w' →
  guarantee w w' ∧ custody w'
  ∧ match r with
    | Ok _ => ∀ old, points (v_tables w) (BindingPointer (uuid_to_string id, user_id)) = Some old → v_mine w' old
    | Err _ => kept w w'
    end.
Proof.
  intros Hc Hh Hi Hv H. set (o := BindingPointer (uuid_to_string id, user_id)).
  assert (guarantee w (with_db (v_db w) w) ∧ custody (with_db (v_db w) w) ∧ kept w (with_db (v_db w) w)) as Hfail
    by (destruct (failed_db w Hc) as [? K]; split_and!; [done|apply K|done]).
  destruct H as [_ [[-> ->]|[[error ->] ->]]]; [|done].
  cbn [run]. unfold commit, in_connections.
  destruct (store_binding id user_id username extra (Some (uuid_to_string new)) now (db_connections (v_db w)))
    as [[[] t']|error] eqn:Hd; [|done].
  destruct (binding_points _ _ _ _ _ _ _ _ Hd) as (Hkey & Hother & Hsh). fold o in Hkey, Hother.
  pose proof (db_guarantee (StoreBinding id user_id username extra (Some (uuid_to_string new)) now) w Hc Hh) as Hg.
  cbn [run] in Hg. unfold commit, in_connections in Hg. rewrite Hd in Hg.
  cbn [fst snd db_connections on_connections] in Hg |- *.
  assert (∀ o' id', points t' o' = Some id' → points (v_tables w) o' = Some id'
    ∨ v_mine w id' ∧ is_Some (v_vault w !! id') ∧ ∀ o'', points t' o'' = Some id' → o'' = o') as Hpts.
  { intros o' id' Ho. destruct (decide (o' = o)) as [->|Hne]; [|left; by rewrite <-Hother].
    rewrite Hkey in Ho. injection Ho as <-. right. split_and!; [done..|].
    intros o'' Ho''. destruct (decide (o'' = o)) as [|Hne']; [done|].
    rewrite Hother in Ho'' by done. destruct (proj2 Hc _ Hi). by exists o''. }
  destruct Hg as [Hg Hc']; [exact Hpts|apply Hsh, Hc|]. split_and!; [done..|].
  intros old Hold. apply (replaced_mine w _ o); [exact Hc|exact Hold| |].
  - change (points t' o ≠ Some old). rewrite Hkey. intros [= ->]. destruct (proj2 Hc _ Hi). by exists o.
  - intros o' id' Ho. destruct (Hpts o' id' Ho) as [?|[? _]]; [by left|by right].
Qed.

Lemma sync_step wid user_id l now w r w' :
  custody w → v_held w = true →
  Forall (λ p : ConnectionProfile * Z, is_local (cp_workspace_access p.1) = false) l →
  respond (HostCall.Db (SyncRemote wid user_id l now)) w r w' →
  guarantee w w' ∧ custody w' ∧ ∀ id, id ∈ (r : gset Uuid) → v_mine w' id.
Proof.
  intros Hc Hh Hl [Ha [[-> ->]|[[] _]]]. cbn [server_identifiers] in Ha.
  pose proof (db_guarantee (SyncRemote wid user_id l now) w Hc Hh) as Hg.
  cbn [run] in Hg |- *. unfold StoreConnections.sync_remote_connections in Hg |- *.
  cbn [fst snd db_connections on_connections] in Hg |- *.
  set (t := db_connections (v_db w)) in *. set (key := uuid_to_string wid) in *.
  set (incoming := map (λ p, uuid_to_string (cp_id p.1)) l) in *.
  set (t' := foldl (λ t p, sync_template key user_id p.1 p.2 now t) (withdraw key incoming now t) l) in *.
  assert (forgets t t') as Hf.
  { eapply forgets_trans; [apply withdraw_forgets|]. apply templates_forget, withdraw_apart, Ha. }
  destruct Hg as [Hg Hc'].
  - intros o id Ho. left. destruct (Hf o) as [E|E]; rewrite E in Ho; done.
  - apply templates_shared; [done|]. apply withdraw_shared, Hc.
  - split_and!; [done..|]. intros id Hid. apply (withdrawn_pointed _ user_id l now) in Hid as (o & Ho & Hn); [|exact Ha].
    apply (replaced_mine w _ o); [exact Hc|exact Ho| |].
    + fold t' in Hn. fold incoming in Hn. change (points t' o ≠ Some id). unfold t'. rewrite Hn. done.
    + intros o' id' Ho'. cbn [db_connections on_connections] in Ho'.
      destruct (Hf o') as [E|E]; rewrite E in Ho'; [by left|done].
Qed.

Lemma account_step user l now w r w' :
  custody w → v_held w = true →
  respond (HostCall.Db (SyncAccount user l now)) w r w' → guarantee w w' ∧ custody w'.
Proof.
  intros Hc Hh H.
  assert (guarantee w (with_db (v_db w) w) ∧ custody (with_db (v_db w) w)) as Hfail
    by (destruct (failed_db w Hc) as [? K]; split; [done|apply K]).
  destruct H as [_ [[_ ->]|[_ ->]]]; [|done].
  cbn [run]. unfold commit.
  destruct (sync_account_workspaces user l now (v_db w)) as [[[] db']|error] eqn:Hd; [|done].
  pose proof (db_moves (SyncAccount user l now) w Hc Hh) as Hg.
  cbn [run] in Hg. unfold commit in Hg. rewrite Hd in Hg. apply Hg; cbn [snd].
  - intros id [o Ho]. left. eexists. by eapply refresh_origin.
  - intros o o' id Ho Ho'. eapply refresh_origin_inj; [exact Hd|exact Ho|exact Ho'|].
    eapply (cok_exclusive _ _ (proj1 Hc)); by eapply refresh_origin.
  - eapply refresh_shared; [exact Hd|apply Hc].
Qed.
End statements.
