(* ===== verification/CredentialSystem.v ===== *)
(** * Stored credentials under every interleaving

    Each credential method stays within custody, and so does any number of them
    running at once: the system of tasks over one store, one vault and one gate
    keeps every pointer resolved. *)

From S2P Require Export CredentialMethods.

#[local] Arguments safely : simpl never.

Section methods.
Context {P : Platform} {Q : Sqlite} {C : ChronoSerde} {D : StrDebug} {PL : PlatformLaws P}
  {L : SqliteLaws P Q}.
Local Open Scope prog_scope.

Local Abbreviation keeps_custody := (λ _ (_ : View), True).

Lemma kept_points w w' o : kept w w' → v_held w = true → points (v_tables w') o = points (v_tables w) o.
Proof. intros K Hh. by apply same_tables_points, K. Qed.

Lemma may_point_kept w w' p : kept w w' → v_held w = true → may_point w p → may_point w' p.
Proof.
  unfold may_point. intros K Hh. destruct (s ← cp_secret_ref p; uuid_parse s) as [id|]; [|done].
  rewrite (kept_points _ _ _ K Hh). intros [?|[Hi Hv]]; [by left|right].
  destruct (kp_mine _ _ K id Hi) as [? E]. by rewrite E.
Qed.

Lemma quiet_outbox_events ids : quietly (outbox_events ids) (λ _, True).
Proof.
  induction ids as [|id ids IH]; [done|]. cbn. split; [done|]. intros u. split; [done|]. intros now.
  apply quietly_bind. by eapply quietly_mono; [|exact IH].
Qed.

(** The store's [upsert_connection]. *)
Lemma safely_upsert p w : custody w → v_held w = true → may_point w p →
  safely (store_upsert_connection p) w (λ r w', custody w' ∧
    match r with
    | Ok p' => p' = p ∧ ∀ old, points (v_tables w) (profile_key p) = Some old →
        (s ← cp_secret_ref p; uuid_parse s) ≠ Some old → v_mine w' old
    | Err _ => ∀ id, v_mine w id → v_mine w' id
    end).
Proof.
  intros Hc Hh Hp. unfold store_upsert_connection. cbn.
  apply safely_quiet_vis; [done..|]. intros _ now w1 _ _ K1 _. cbn.
  apply safely_quiet_vis; [done|apply K1|]. intros _ entries w2 _ _ K2 _. cbn.
  apply safely_quiet_vis; [done|apply K2|]. intros _ id w3 _ _ K3 _. cbn.
  apply safely_quiet_vis; [done|apply K3|]. intros _ now' w4 _ _ K4 _. cbn.
  assert (kept w w4) as K by (do 3 (eapply kept_trans; [eassumption|]); done).
  apply safely_call. intros w5 r w6 Hr5 H6.
  assert (kept w w5) as K5 by (eapply kept_trans; [exact K|by apply rely_kept]).
  destruct (upsert_step p entries now {| StoreConnections.ev_id := id; ev_now := now' |} w5 r w6)
    as (Hg & Hc6 & Hr).
  { apply K5. } { by rewrite (kp_held _ _ K5). } { by eapply may_point_kept. } { exact H6. }
  split; [exact Hg|]. intros w7 Hr7. split; [by eapply rely_custody|].
  destruct r as [p'|error].
  - destruct Hr as [-> Hold]. split; [done|]. intros old Ho Hne. apply (rl_mine _ _ Hr7), Hold; [|done].
    by rewrite (kept_points _ _ _ K5 Hh).
  - intros id' Hi. apply (rl_mine _ _ Hr7). apply (kp_mine _ _ Hr), (kp_mine _ _ K5), Hi.
Qed.

(** The new item of [upsert], or the pointer it keeps. *)
Lemma safely_replacement password w : custody w → v_held w = true →
  safely (ConnectionService.write_replacement password) w (λ r w', custody w' ∧ v_held w' = true
    ∧ same_tables (v_tables w) (v_tables w')
    ∧ ∀ id, r = Ok (Some id) → v_mine w' id ∧ is_Some (v_vault w' !! id)).
Proof.
  intros Hc Hh. destruct password as [password|].
  2: { intros w1 Hr. pose proof (rely_kept _ _ Hr) as K.
       split_and!; [apply K|by rewrite (kp_held _ _ K)|by apply K|done]. }
  apply safely_bind. eapply safely_mono; [|by apply safely_new_uuid]. intros id w1 Hc1 [K1 Hi].
  assert (v_held w1 = true) as Hh1 by (by rewrite (kp_held _ _ K1)).
  apply safely_bind. eapply safely_mono; [|by apply safely_store_secret].
  intros r w2 Hc2 (_ & Hh2 & Ht2 & Hi2 & Hv).
  assert (same_tables (v_tables w) (v_tables w2)) as Hs.
  { eapply same_tables_trans; [by apply (kp_tables _ _ K1)|by apply Ht2]. }
  destruct r as [[]|error]; intros w3 Hr; pose proof (rely_kept _ _ Hr) as K3;
    (split_and!; [apply K3|by rewrite (kp_held _ _ K3), Hh2| |]).
  - eapply same_tables_trans; [exact Hs|]. apply K3. by rewrite Hh2.
  - intros id' [= <-]. destruct (kp_mine _ _ K3 id Hi2) as [? E]. split; [done|]. rewrite E, Hv; [by eexists|done].
  - eapply same_tables_trans; [exact Hs|]. apply K3. by rewrite Hh2.
  - done.
Qed.

Lemma not_shared_same t t' id : same_tables t t' → not_shared t id → not_shared t' id.
Proof. intros [E _]. unfold not_shared. by rewrite E. Qed.
Lemma listed_same t t' l : same_tables t t' → listed t l → listed t' l.
Proof. intros Hs (ws & account & H). exists ws, account. by rewrite (connection_rows_same _ _ _ _ Hs). Qed.

Lemma upsert_custody profile password w : custody w →
  safely (ConnectionService.upsert profile password) w keeps_custody.
Proof.
  intros Hc. unfold ConnectionService.upsert.
  destruct (negb (is_local (cp_workspace_access profile))); [done|].
  set (p1 := with_schema_group profile _). destruct (Driver.validate p1) as [d|error]; [|done]. cbn [try_pure].
  apply safely_bind. eapply safely_mono; [|by apply safely_begin]. intros [] w1 _ [Hc1 Hh1 _].
  apply safely_hold. eapply safely_mono; [|by apply safely_write_scope]. intros r w2 _ [K2 Hns].
  split; [apply K2|]. intros [] ->. specialize (Hns eq_refl).
  assert (v_held w2 = true) as Hh2 by (by rewrite (kp_held _ _ K2)).
  apply safely_hold. eapply safely_mono; [|apply safely_list; [apply K2|done]]. intros r w3 _ [K3 Hl].
  split; [apply K3|]. intros connections ->. specialize (Hl _ eq_refl).
  assert (v_held w3 = true) as Hh3 by (by rewrite (kp_held _ _ K3)).
  apply (not_shared_same _ (v_tables w3)) in Hns; [|by apply K3].
  apply safely_hold_check; [apply K3|]. intros _ _.
  apply safely_hold_check; [apply K3|]. intros existing He.
  apply safely_hold_check; [apply K3|]. intros _ _. cbn zeta.
  assert (∀ old, existing = Some old → points (v_tables w3) (profile_key p1) = Some old) as Hold.
  { intros old ->. eapply existing_points; [apply K3|exact Hl|exact Hns|exact He]. }
  apply safely_hold. eapply safely_mono; [|apply safely_replacement; [apply K3|done]].
  intros r w4 _ (Hc4 & Hh4 & Hs4 & Hnew). split; [done|]. intros written ->.
  set (p2 := match written with Some replacement => with_secret_ref _ (Some _) | None => _ end).
  assert ((s ← cp_secret_ref p2; uuid_parse s) = match written with Some _ => written | None => existing end
    ∧ profile_key p2 = profile_key p1) as [Hsec Hkey].
  { unfold p2. destruct written as [id|]; cbn; [by rewrite uuid_roundtrip|].
    destruct existing as [old|]; cbn; [by rewrite uuid_roundtrip|done]. }
  apply safely_bind. eapply safely_mono; [|apply safely_upsert; [done..|]].
  2: { unfold may_point. rewrite Hsec, Hkey. destruct written as [id|]; [right; by apply Hnew|].
       destruct existing as [old|]; [left|done]. rewrite (same_tables_points _ _ _ Hs4). by apply Hold. }
  rewrite Hsec, Hkey. intros [p'|error] w5 _ [Hc5 Hr].
  - destruct Hr as [-> Hret]. apply safely_bind.
    eapply safely_mono; [|apply safely_quietly; [done|]].
    2: { instantiate (1 := λ _, True). unfold Store.clear_schema_cache. cbn. split; [done|].
         intros [pin|error]; [|done]. cbn. split; [done|]. done. }
    intros _ w6 _ [K6 _]. apply safely_bind. eapply safely_mono; [|apply safely_publish, K6].
    intros [] w7 _ P7. apply safely_bind, (safely_mono _ _ (λ _ _, True)); [done|].
    destruct written as [id|]; [|done]. apply (safely_mono _ _ (λ _ w', custody w')); [done|].
    apply safely_delete_optional; [apply P7|]. intros old ->. apply (ps_mine _ _ _ P7), (kp_mine _ _ K6), Hret.
    + rewrite (same_tables_points _ _ _ Hs4). by apply Hold.
    + intros [= ->]. destruct (Hnew old eq_refl) as [Hi _]. apply (proj2 Hc4 _ Hi).
      exists (profile_key p1). rewrite (same_tables_points _ _ _ Hs4). by apply Hold.
  - apply safely_bind. eapply safely_mono; [|apply safely_delete_optional; [done|]].
    2: { intros id ->. apply Hr. by apply Hnew. }
    intros [] w6 Hc6 _. by apply safely_fail.
Qed.

(** Reading the store under the gate. *)
Lemma quiet_store_bind {A B} (p : store_program A) (f : A → store_program B) :
  quietly (in_store p) (λ _, True) → (∀ a, quietly (in_store (f a)) (λ _, True)) →
  quietly (in_store (p ≫= f)) (λ _, True).
Proof.
  intros Hp Hf. induction p as [a|c k IH]; cbn in *; [apply Hf|]. destruct Hp as [Hq Hp].
  split; [done|]. intros r. by apply IH.
Qed.
Lemma quiet_get_connection id : quietly (in_store (Store.get_connection id)) (λ _, True).
Proof.
  unfold Store.get_connection. cbn. split; [done|]. intros [ws|error]; [|done]. cbn.
  split; [done|]. intros account. destruct (team_without_account ws account); [|done]. by split.
Qed.
Lemma quiet_workspace_id : quietly (in_store Store.active_workspace_id) (λ _, True).
Proof. cbn. split; [done|]. by intros [scope|error]. Qed.

(** A program of the store that reads, then makes one statement. *)
Lemma safely_in_store_bind {A B} (p : store_program A) (f : A → store_program B) w R :
  safely (in_store p) w (λ a w', safely (in_store (f a)) w' R) → safely (in_store (p ≫= f)) w R.
Proof.
  revert w. induction p as [a|c k IH]; intros w H.
  - apply safely_now. intros w1 Hr. by apply H.
  - intros w1 Hr r w2 H2. destruct (H w1 Hr r w2 H2) as [Hg H']. split; [done|]. by apply IH.
Qed.

Lemma safely_in_store_try {E F A B} (f : E → F) (m : store_program (result E A))
    (k : A → store_program (result F B)) w R :
  safely (in_store m) w (λ r w', match r with
    | Ok a => safely (in_store (k a)) w' R
    | Err error => ∀ w1, rely w' w1 → R (Err (f error)) w1
    end) → safely (in_store (try_with f m k)) w R.
Proof.
  intros H. apply safely_in_store_bind. eapply safely_mono; [|exact H]. by intros [a|error].
Qed.

Lemma safely_delete id w : custody w → v_held w = true → not_shared (v_tables w) id →
  safely (store_delete_connection id) w (λ r w', custody w' ∧ (r = Ok tt → ∀ old,
    points (v_tables w) (ProfilePointer (uuid_to_string id)) = Some old → v_mine w' old)).
Proof.
  intros Hc Hh Hns.
  apply safely_quiet_vis; [done..|]. intros _ now w1 _ _ K1 _.
  apply safely_quiet_vis; [done|apply K1|]. intros _ u w2 _ _ K2 _.
  apply safely_quiet_vis; [done|apply K2|]. intros _ now' w3 _ _ K3 _.
  assert (kept w w3) as K by (do 2 (eapply kept_trans; [eassumption|]); done).
  set (e := {| StoreConnections.ev_id := u; ev_now := now' |}).
  change (safely (in_store (Store.delete_connection id now e)) w3
    (λ r w', custody w' ∧ (r = Ok tt → ∀ old,
      points (v_tables w) (ProfilePointer (uuid_to_string id)) = Some old → v_mine w' old))).
  apply safely_in_store_try.
  eapply safely_mono; [|apply safely_quietly; [apply K|apply quiet_get_connection]].
  intros [profile|error] w4 Hc4 [K4 _]; [|intros w5 Hr; split; [by eapply rely_custody|done]].
  apply safely_in_store_try. eapply safely_mono; [|apply safely_quietly; [apply K4|apply quiet_workspace_id]].
  intros [wid|error] w5 Hc5 [K5 _]; [|intros w6 Hr; split; [by eapply rely_custody|done]].
  apply safely_call. intros w6 r w7 Hr6 H7.
  assert (kept w w6) as K6.
  { eapply kept_trans; [exact K|]. eapply kept_trans; [exact K4|].
    eapply kept_trans; [exact K5|by apply rely_kept]. }
  destruct (delete_step wid id now e w6 r w7) as (Hg & Hc7 & Hret);
    [apply K6|by rewrite (kp_held _ _ K6)|exact H7|].
  split; [done|]. intros w8 Hr8. split; [by eapply rely_custody|]. intros -> old Hold.
  apply (rl_mine _ _ Hr8), Hret; [done| |by rewrite (kept_points _ _ _ K6 Hh)].
  by eapply not_shared_same; [apply K6|].
Qed.

Lemma delete_custody id w : custody w → safely (ConnectionService.delete id) w keeps_custody.
Proof.
  intros Hc. unfold ConnectionService.delete. apply safely_bind.
  eapply safely_mono; [|by apply safely_begin_connection]. intros [pin|error] w1 Hc1 [_ Hpin]; [|done].
  destruct (Hpin pin eq_refl) as [Hh1 Hp]. apply safely_hold_check; [done|]. intros [] Hl.
  assert (is_local (cp_workspace_access (pc_profile pin)) = true) as Hloc
    by (by destruct (is_local _)).
  destruct (pinned_points (v_tables w1) _ _ (cok_shared _ _ (proj1 Hc1)) Hp) as [Hpts _].
  destruct (Hpts Hloc) as [Hns Hsec].
  apply safely_hold. eapply safely_mono; [|by apply safely_delete]. intros r w2 Hc2 [_ Hret].
  split; [done|]. intros [] ->. apply safely_bind.
  eapply safely_mono; [|apply safely_delete_optional; [done|]].
  2: { intros old E. apply Hret; [done|]. by rewrite Hsec. }
  intros [] w3 Hc3 _. apply safely_bind. eapply safely_mono; [|by apply safely_publish]. done.
Qed.

Lemma set_schema_group_custody ids group w : custody w →
  safely (ConnectionService.set_schema_group ids group) w keeps_custody.
Proof.
  intros Hc. unfold ConnectionService.set_schema_group.
  destruct (ConnectionService.unique_ids ids) as [|i l]; [done|].
  apply safely_bind. eapply safely_mono; [|by apply safely_begin]. intros [] w1 _ [Hc1 Hh1 _].
  apply safely_hold. eapply safely_mono; [|by apply safely_list]. intros r w2 _ [K2 _].
  split; [apply K2|]. intros connections _.
  apply safely_hold_check; [apply K2|]. intros regrouped _.
  apply safely_hold_check; [apply K2|]. intros updated _.
  apply safely_hold_check; [apply K2|]. intros _ _.
  apply safely_hold, (safely_mono _ _ (λ _ w', custody w')).
  { intros r3 w3 _ Hc3. split; [done|]. intros _ _. apply safely_bind.
    eapply safely_mono; [|by apply safely_publish]. done. }
  unfold store_set_connections_schema_group. apply safely_bind.
  eapply safely_mono; [|apply safely_quietly; [apply K2|apply quiet_outbox_events]].
  intros events w3 _ [K3 _]. apply safely_quiet_vis; [done|apply K3|]. intros _ now w4 _ _ K4 _.
  match goal with |- safely _ _ ?R =>
    change (safely (in_store (Store.set_connections_schema_group events
                                (normalize_schema_group group) now)) w4 R) end.
  apply safely_in_store_try.
  assert (∀ l, quietly (in_store (Store.get_connections l)) (λ _, True)) as Hget.
  { clear. induction l as [|id l IH]; [done|]. cbn [Store.get_connections]. unfold try_with.
    apply quiet_store_bind; [apply quiet_get_connection|]. by intros [a|error]. }
  eapply safely_mono; [|apply safely_quietly; [apply K4|apply Hget]].
  intros [[]|error] w5 _ [K5 _]; [|intros w6 Hr; by eapply rely_custody].
  apply safely_in_store_try. eapply safely_mono; [|apply safely_quietly; [apply K5|apply quiet_workspace_id]].
  intros [wid|error] w6 _ [K6 _]; [|intros w7 Hr; by eapply rely_custody].
  apply safely_call. intros w7 r8 w8 Hr7 H8.
  destruct (groups_step _ _ _ _ w7 r8 w8 (rely_custody _ _ Hr7)) with (2 := H8) as [Hg Hc8].
  { rewrite (rl_held _ _ Hr7), (kp_held _ _ K6), (kp_held _ _ K5), (kp_held _ _ K4), (kp_held _ _ K3),
      (kp_held _ _ K2). done. }
  split; [done|]. intros w9 Hr9. by eapply rely_custody.
Qed.

Lemma safely_bind_credentials id user_id username params new w :
  custody w → v_held w = true → v_mine w new → is_Some (v_vault w !! new) →
  safely (store_bind_connection_credentials id user_id username params (Some (uuid_to_string new))) w
    (λ r w', custody w' ∧ match r with
      | Ok _ => ∀ old, points (v_tables w) (BindingPointer (uuid_to_string id, user_id)) = Some old → v_mine w' old
      | Err _ => v_mine w' new
      end).
Proof.
  intros Hc Hh Hi Hv.
  apply safely_quiet_vis; [done..|]. intros _ now w1 _ _ K1 _.
  apply safely_quiet_vis; [done|apply K1|]. intros _ entries w2 _ _ K2 _.
  assert (kept w w2) as K by (by eapply kept_trans).
  match goal with |- safely _ _ ?R =>
    change (safely (in_store (Store.bind_connection_credentials id user_id username entries
                                (Some (uuid_to_string new)) now)) w2 R) end.
  apply safely_quiet_vis; [done|apply K2|]. intros _ bindable w3 _ _ K3 _.
  assert (kept w w3) as K' by (by eapply kept_trans).
  destruct bindable as [profile|error].
  2: { intros w4 Hr. split; [by eapply rely_custody|]. apply (rl_mine _ _ Hr), K', Hi. }
  cbn [try_pure]. destruct (params_to_string entries) as [extra|error]; cbn [try_pure in_store].
  2: { intros w4 Hr. split; [by eapply rely_custody|]. apply (rl_mine _ _ Hr), K', Hi. }
  intros w4 Hr4 r w5 H5.
  assert (kept w w4) as K4 by (eapply kept_trans; [exact K'|by apply rely_kept]).
  destruct (kp_mine _ _ K4 new Hi) as [Hi4 E4].
  destruct (binding_step id user_id (trim username) extra new now w4 r w5) as (Hg & Hc5 & Hr5);
    [apply K4|by rewrite (kp_held _ _ K4)|done|by rewrite E4|exact H5|].
  split; [exact Hg|]. destruct r as [[]|error]; intros w6 Hr6; (split; [by eapply rely_custody|]).
  - intros old Hold. apply (rl_mine _ _ Hr6), Hr5. by rewrite (kept_points _ _ _ K4 Hh).
  - apply (rl_mine _ _ Hr6), Hr5, Hi4.
Qed.

Lemma bind_custody id username password w : custody w →
  safely (WorkspaceService.bind_connection_credentials id username password) w keeps_custody.
Proof.
  intros Hc. unfold WorkspaceService.bind_connection_credentials.
  destruct (_ || any_control _); [done|]. destruct (_ || (_ <? str_len password)%N); [done|].
  apply safely_bind. eapply safely_mono; [|by apply safely_begin_connection].
  intros [pin|error] w1 Hc1 [_ Hpin]; [|done]. destruct (Hpin pin eq_refl) as [Hh1 Hp].
  apply safely_hold_check; [done|]. intros [] Hl.
  apply safely_hold_check; [done|]. intros [] Hm.
  apply safely_hold_check; [done|]. intros [] _.
  apply safely_hold_check; [done|]. intros account Ha.
  apply safely_hold_check; [done|]. intros previous Hprev.
  assert (is_local (cp_workspace_access (pc_profile pin)) = false) as Hloc by (by destruct (is_local _)).
  assert (cp_credential_mode (pc_profile pin) = WorkspaceCredentialMode.MemberLocal) as Hmode
    by (by destruct (cp_credential_mode _)).
  assert (sc_selected_account_id (pc_scope pin) = Some account) as Hacc
    by (destruct (sc_selected_account_id _); [by injection Ha as ->|done]).
  destruct (pinned_points (v_tables w1) _ _ (cok_shared _ _ (proj1 Hc1)) Hp) as [_ Hpts].
  specialize (Hpts Hloc Hmode account Hacc).
  assert (∀ old, previous = Some old →
    points (v_tables w1) (BindingPointer (uuid_to_string id, account)) = Some old) as Hold.
  { intros old ->. rewrite Hpts. destruct (cp_secret_ref (pc_profile pin)) as [s|]; [|done]. cbn in Hprev |- *.
    destruct (uuid_parse s); [by injection Hprev as ->|done]. }
  apply safely_bind. eapply safely_mono; [|by apply safely_new_uuid]. intros new w2 _ [K2 Hi2].
  assert (v_held w2 = true) as Hh2 by (by rewrite (kp_held _ _ K2)).
  apply safely_hold. eapply safely_mono; [|apply safely_store_secret; [apply K2|done]].
  intros r w3 Hc3 (_ & Hh3 & Ht3 & Hi3 & Hv3). split; [done|]. intros [] ->.
  apply safely_bind. eapply safely_mono; [|apply safely_bind_credentials; [done|by rewrite Hh3|done|]].
  2: { rewrite Hv3; [by eexists|done]. }
  intros [profile|error] w4 Hc4 [_ Hr].
  - apply safely_bind. eapply safely_mono; [|by apply safely_publish]. intros [] w5 _ P5.
    apply safely_bind, (safely_mono _ _ (λ _ w', custody w')); [done|].
    apply safely_delete_optional; [apply P5|]. intros old E. apply (ps_mine _ _ _ P5), Hr.
    rewrite <-(Hold old E). apply same_tables_points.
    eapply same_tables_trans; [by apply (kp_tables _ _ K2)|by apply Ht3].
  - apply safely_bind. eapply safely_mono; [|by apply safely_delete_secret]. intros [] w5 _ (Hc5 & _).
    by apply safely_fail.
Qed.

Lemma quiet_remote_checks wid l :
  quietly (in_store (Store.remote_checks wid l)) (λ r, r = Ok tt →
    Forall (λ p : ConnectionProfile * Z, is_local (cp_workspace_access p.1) = false) l).
Proof.
  induction l as [|[p revision] l IH]; [by constructor|]. cbn [Store.remote_checks].
  unfold remote_profile_ok. destruct (is_local (cp_workspace_access p)) eqn:Hl; [done|].
  destruct (is_local_mode _); [done|]. split; [done|]. intros [[]|error]; [|done].
  eapply quietly_mono; [|exact IH]. intros r Hr E. constructor; [done|by apply Hr].
Qed.

Lemma safely_sync wid user_id l w : custody w →
  safely (manager_sync_remote_connections wid user_id l) w (λ r w', custody w'
    ∧ ∀ removed, r = Ok removed → ∀ id, id ∈ removed → v_mine w' id).
Proof.
  intros Hc. unfold manager_sync_remote_connections, publishing.
  apply safely_bind. eapply safely_mono; [|by apply safely_begin]. intros [] w1 _ [Hc1 Hh1 _].
  apply safely_bind, (safely_mono _ _ (λ r w', custody w'
    ∧ ∀ removed : gset Uuid, r = Ok removed → ∀ id, id ∈ removed → v_mine w' id)).
  { intros [removed|error] w2 Hc2 [_ Hr].
    - apply safely_bind. eapply safely_mono; [|by apply safely_publish].
      intros [] w3 _ P3 w4 Hr4. split; [by eapply rely_custody|].
      intros ? [= <-] id Hi. apply (rl_mine _ _ Hr4), (ps_mine _ _ _ P3). by apply (Hr removed).
    - apply safely_bind. eapply safely_mono; [|by apply safely_drop].
      intros [] w3 _ _ w4 Hr4. split; [by eapply rely_custody|done]. }
  apply safely_quiet_vis; [done..|]. intros _ now w2 _ _ K2 _.
  match goal with |- safely _ _ ?R =>
    change (safely (in_store (Store.sync_remote_connections wid user_id l now)) w2 R) end.
  apply safely_quiet_vis; [done|apply K2|]. intros _ member w3 _ _ K3 _.
  destruct member as [[]|error]; [|intros w4 Hr; split; [by eapply rely_custody|done]].
  cbn iota. apply safely_in_store_try.
  eapply safely_mono; [|apply safely_quietly; [apply K3|apply quiet_remote_checks]].
  intros [[]|error] w4 _ [K4 Hl]; [|intros w5 Hr; split; [by eapply rely_custody|done]].
  intros w5 Hr5 removed w6 H6.
  destruct (sync_step wid user_id l now w5 removed w6 (rely_custody _ _ Hr5)) with (3 := H6) as (Hg & Hc6 & Hm).
  { by rewrite (rl_held _ _ Hr5), (kp_held _ _ K4), (kp_held _ _ K3), (kp_held _ _ K2). } { by apply Hl. }
  split; [done|]. intros w7 Hr7. split; [by eapply rely_custody|].
  intros ? [= <-] id Hi. by apply (rl_mine _ _ Hr7), Hm.
Qed.

(** ** Methods whose custody ends with each statement

    What signs in and out, refreshes memberships and selects a workspace is put
    together from calls that leave pointers alone, the publication of a change under
    the gate and template syncs; it keeps nothing in custody in between. *)

Definition tame {A} (p : host_program A) : Prop := ∀ w, custody w → safely p w keeps_custody.

Lemma tame_ret {A} (a : A) : tame (Ret a : host_program A).
Proof. by intros w _ w1 _. Qed.
Lemma tame_bind {A B} (p : host_program A) (f : A → host_program B) :
  tame p → (∀ a, tame (f a)) → tame (p ≫= f).
Proof.
  intros Hp Hf w Hc. apply safely_bind. eapply safely_mono; [|by apply Hp]. intros a w' Hc' _. by apply Hf.
Qed.
Lemma tame_try {E F A B} (g : E → F) (p : host_program (result E A)) (f : A → host_program (result F B)) :
  tame p → (∀ a, tame (f a)) → tame (try_with g p f).
Proof. intros Hp Hf. apply tame_bind; [done|]. intros [a|error]; [apply Hf|apply tame_ret]. Qed.
Lemma tame_check {E F A B} (g : E → F) (r : result E A) (f : A → host_program (result F B)) :
  (∀ a, tame (f a)) → tame (try_pure g r f).
Proof. intros Hf. destruct r; [apply Hf|apply tame_ret]. Qed.
Lemma tame_quiet {A} (p : host_program A) : quietly p (λ _, True) → tame p.
Proof. intros Hq w Hc. eapply safely_mono; [|by apply safely_quietly]. done. Qed.
Lemma tame_call op : quiet op = true → tame (call op).
Proof. intros Hq. by apply tame_quiet. Qed.

(** A change published under the gate. *)
Lemma tame_publishing {A} (change : host_program (AppResult A)) :
  (∀ w, custody w → v_held w = true → safely change w keeps_custody) → tame (publishing change).
Proof.
  intros H w Hc. apply safely_bind. eapply safely_mono; [|by apply safely_begin].
  intros [] w1 _ [Hc1 Hh1 _]. apply safely_bind. eapply safely_mono; [|by apply H].
  intros [a|error] w2 Hc2 _; [|by apply safely_fail].
  apply safely_bind. eapply safely_mono; [|by apply safely_publish]. done.
Qed.
Lemma tame_publishing_quiet {A} (change : host_program (AppResult A)) :
  quietly change (λ _, True) → tame (publishing change).
Proof. intros Hq. apply tame_publishing. intros w Hc _. by apply tame_quiet. Qed.

Lemma quiet_member_ids l : quietly (with_member_ids l) (λ _, True).
Proof.
  induction l as [|[[id name] role] l IH]; [done|]. cbn. split; [done|]. intros member.
  apply quietly_bind. by eapply quietly_mono; [|exact IH].
Qed.

(** The membership refresh: each template's secret moves to the account's binding. *)
Lemma tame_account_workspaces user l : tame (manager_sync_account_workspaces user l).
Proof.
  apply tame_publishing. intros w Hc Hh. apply safely_quiet_vis; [done..|]. intros _ t0 w1 _ _ K1 _.
  apply safely_bind. eapply safely_mono; [|apply safely_quietly; [apply K1|apply quiet_member_ids]].
  intros workspaces w2 _ [K2 _]. apply safely_quiet_vis; [done|apply K2|]. intros _ now w3 _ _ K3 _.
  unfold Store.sync_account_workspaces. destruct (sync_conflicts workspaces) as [[]|error]; [|done].
  cbn [try_pure]. apply safely_quiet_vis; [done|apply K3|]. intros _ remembered w4 _ _ K4 _.
  apply safely_call. intros w5 r w6 Hr5 H6.
  destruct (account_step user workspaces now w5 r w6 (rely_custody _ _ Hr5)) with (2 := H6) as [Hg _]; [|done].
  by rewrite (rl_held _ _ Hr5), (kp_held _ _ K4), (kp_held _ _ K3), (kp_held _ _ K2), (kp_held _ _ K1).
Qed.

Lemma sync_connections_custody user_id wid w : custody w →
  safely (WorkspaceService.sync_connections user_id wid) w keeps_custody.
Proof.
  intros Hc. unfold WorkspaceService.sync_connections.
  apply safely_quiet_vis; [done..|]. intros _ [[l|]|error] w1 _ _ K1 _; [|done..].
  apply safely_bind. eapply safely_mono; [|apply safely_sync, K1].
  intros [removed|error] w2 Hc2 [_ Hr]; [|done].
  apply safely_bind, (safely_mono _ _ (λ _ w', custody w')); [done|].
  apply safely_delete_secrets; [done|]. intros id Hi. apply (Hr removed); [done|by apply elem_of_elements].
Qed.

(** What the workspace service composes from them. *)
Ltac tame_step := first
  [ apply tame_ret | done
  | apply tame_account_workspaces
  | (intros ? ?; by apply sync_connections_custody)
  | apply tame_call; reflexivity
  | apply tame_check; intros ?
  | apply tame_try; [|intros ?]
  | apply tame_bind; [|intros ?] ].
Ltac tame_steps := repeat (tame_step || case_match).

Lemma tame_remove_account user_id : tame (manager_remove_workspace_account user_id).
Proof. by apply tame_publishing_quiet. Qed.
Lemma tame_activate_workspace id account : tame (manager_activate_workspace id account).
Proof. by apply tame_publishing_quiet. Qed.
Lemma tame_activate_account user_id : tame (manager_activate_workspace_account user_id).
Proof.
  apply tame_publishing_quiet. cbn. split; [done|]. intros now. split; [done|]. intros preferred.
  destruct (ok_or _ _); [by split|done].
Qed.
Lemma tame_accounts : tame (in_store Store.workspace_accounts).
Proof.
  apply tame_quiet, quiet_store_bind; [by split|]. intros rows.
  generalize (Ok [] : AppResult (list Store.WorkspaceAuthAccount)) as accounts.
  induction rows as [|row rows IH]; intros accounts; [done|]. cbn [for_each].
  apply quiet_store_bind; [|exact IH]. destruct accounts; [|done].
  cbn. split; [done|]. by intros [memberships|error].
Qed.

Ltac tame_service := repeat (first
  [ apply tame_accounts | apply tame_remove_account | apply tame_activate_workspace | apply tame_activate_account
  | eassumption | tame_step | case_match ]).

Lemma tame_memberships user : tame (WorkspaceService.sync_account_memberships user).
Proof. unfold WorkspaceService.sync_account_memberships. tame_service. Qed.
Lemma tame_ensure_account : tame WorkspaceService.ensure_active_account.
Proof. unfold WorkspaceService.ensure_active_account. tame_service. Qed.
Lemma tame_state_from_store : tame WorkspaceService.auth_state_from_store.
Proof. unfold WorkspaceService.auth_state_from_store. tame_service. Qed.
Lemma tame_auth_state : tame WorkspaceService.auth_state.
Proof. pose proof tame_ensure_account. pose proof tame_state_from_store. unfold WorkspaceService.auth_state. tame_service. Qed.

Lemma tame_refresh_auth_state : tame WorkspaceService.refresh_auth_state.
Proof.
  pose proof tame_ensure_account. pose proof tame_state_from_store. pose proof tame_memberships.
  assert (tame WorkspaceService.migrate_session) by (unfold WorkspaceService.migrate_session; tame_service; eauto).
  unfold WorkspaceService.refresh_auth_state. tame_service; eauto.
Qed.

Lemma tame_validated_user user_id : tame (WorkspaceService.validated_user user_id).
Proof. pose proof tame_ensure_account. unfold WorkspaceService.validated_user. tame_service. Qed.

Lemma tame_refresh_memberships : tame WorkspaceService.refresh_memberships.
Proof.
  pose proof tame_ensure_account. unfold WorkspaceService.refresh_memberships, WorkspaceService.list_workspaces.
  apply tame_try; [apply tame_accounts|]. intros accounts. apply tame_try; [|intros []; tame_service].
  induction accounts as [|account accounts IH]; cbn [WorkspaceService.refresh_accounts]; tame_service.
Qed.

Lemma tame_sign_out user_id : tame (WorkspaceService.sign_out user_id).
Proof. pose proof tame_state_from_store. unfold WorkspaceService.sign_out. tame_service. Qed.

Lemma tame_sign_out_all : tame WorkspaceService.sign_out_all.
Proof.
  pose proof tame_state_from_store. unfold WorkspaceService.sign_out_all.
  apply tame_try; [apply tame_accounts|]. intros accounts. apply tame_bind; [|intros [?|]; tame_service].
  generalize (None : option AppError). induction accounts as [|account accounts IH]; intros first_error;
    cbn [WorkspaceService.sign_out_accounts]; tame_service.
Qed.

Lemma tame_poll_login device_code : tame (WorkspaceService.poll_login device_code).
Proof. pose proof tame_memberships. unfold WorkspaceService.poll_login. tame_service; eauto. Qed.

Lemma tame_select_workspace id account : tame (WorkspaceService.activate id account).
Proof.
  pose proof tame_memberships. pose proof tame_validated_user.
  unfold WorkspaceService.activate, WorkspaceService.list_workspaces. tame_service; eauto.
Qed.

Lemma tame_select_account user_id : tame (WorkspaceService.activate_account user_id).
Proof.
  pose proof tame_memberships. pose proof tame_validated_user.
  unfold WorkspaceService.activate_account. tame_service; eauto.
Qed.

Lemma tame_update_safety id settings : tame (SafetyService.update id settings).
Proof.
  unfold SafetyService.update. apply tame_try; [apply tame_quiet, quiet_get_connection|]. intros profile.
  cbn zeta. apply tame_try; [|intros pin; apply tame_bind; [|intros r; apply tame_bind; [|intros ?; apply tame_ret]]].
  - intros w Hc. eapply safely_mono; [|by apply safely_begin_connection]. done.
  - apply tame_quiet. unfold Store.set_safety. apply quiet_store_bind; [apply quiet_get_connection|].
    by intros [found|error].
  - intros w Hc. eapply safely_mono; [|by apply safely_drop]. done.
Qed.
End methods.

(** ** Credential methods running at once

    Any number of tasks run the credential methods over one store, one vault and
    one gate, interleaved call by call; the rest of the application makes its own
    statements in between. *)

Section system.
Context {P : Platform} {Q : Sqlite} {C : ChronoSerde} {D : StrDebug}.
Local Open Scope prog_scope.

(** The methods that take the gate's write side to change profiles, bindings, items
    of the vault, accounts, the selection or safety settings. *)
Inductive job :=
| UpsertConnection (profile : ConnectionProfile) (password : option string)
| GroupConnections (ids : list Uuid) (group : option string)
| RemoveConnection (id : Uuid)
| BindCredentials (id : Uuid) (username password : string)
| SyncTemplates (account_user_id : string) (workspace_id : Uuid)
| ReadAuthState
| RefreshAuthState
| RefreshMemberships
| PollDevice (device_code : string)
| SelectWorkspace (id : Uuid) (account_user_id : option string)
| SelectAccount (user_id : string)
| LeaveAccount (user_id : option string)
| LeaveAccounts
| UpdateSafety (id : Uuid) (settings : SafetySettings).

Definition ignoring {A} (p : host_program A) : host_program unit := p ≫= λ _, Ret tt.
Definition job_body (j : job) : host_program unit :=
  match j with
  | UpsertConnection profile password => ignoring (ConnectionService.upsert profile password)
  | GroupConnections ids group => ignoring (ConnectionService.set_schema_group ids group)
  | RemoveConnection id => ignoring (ConnectionService.delete id)
  | BindCredentials id username password =>
      ignoring (WorkspaceService.bind_connection_credentials id username password)
  | SyncTemplates user_id workspace_id => ignoring (WorkspaceService.sync_connections user_id workspace_id)
  | ReadAuthState => ignoring WorkspaceService.auth_state
  | RefreshAuthState => ignoring WorkspaceService.refresh_auth_state
  | RefreshMemberships => ignoring WorkspaceService.refresh_memberships
  | PollDevice device_code => ignoring (WorkspaceService.poll_login device_code)
  | SelectWorkspace id account_user_id => ignoring (WorkspaceService.activate id account_user_id)
  | SelectAccount user_id => ignoring (WorkspaceService.activate_account user_id)
  | LeaveAccount user_id => ignoring (WorkspaceService.sign_out user_id)
  | LeaveAccounts => ignoring WorkspaceService.sign_out_all
  | UpdateSafety id settings => ignoring (SafetyService.update id settings)
  end.

Record CredentialSystem := {
  sy_db : StoreDb; sy_vault : gmap Uuid string; sy_holder : option nat;
  sy_tasks : list (host_program unit * (Uuid → Prop));
}.

Definition task_view (i : nat) (mine : Uuid → Prop) (s : CredentialSystem) : View := {|
  v_db := sy_db s; v_vault := sy_vault s; v_held := bool_decide (sy_holder s = Some i); v_mine := mine |}.

(** The gate is free for a task that asks for its write side. *)
Definition gate_open (op : HostCall.t) (s : CredentialSystem) : Prop :=
  match op with HostCall.Manager GateWrite => sy_holder s = None | _ => True end.

(** Two tasks never draw the same identifier. *)
Definition drawn_once (i : nat) (mine mine' : Uuid → Prop) (s : CredentialSystem) : Prop :=
  ∀ id, mine' id → ¬ mine id → ¬ refers (db_connections (sy_db s)) id →
  ∀ j q other, j ≠ i → sy_tasks s !! j = Some (q, other) → ¬ other id.

Definition holder_after (i : nat) (held : bool) (s : CredentialSystem) : option nat :=
  if held then Some i else if bool_decide (sy_holder s = Some i) then None else sy_holder s.

Inductive system_step (s : CredentialSystem) : CredentialSystem → Prop :=
| step_spawn j :
    system_step s {| sy_db := sy_db s; sy_vault := sy_vault s; sy_holder := sy_holder s;
                     sy_tasks := sy_tasks s ++ [(job_body j, λ _, False)] |}
| step_call i op k mine r w :
    sy_tasks s !! i = Some (Vis op k, mine) → gate_open op s →
    respond op (task_view i mine s) r w → drawn_once i mine (v_mine w) s →
    system_step s {| sy_db := v_db w; sy_vault := v_vault w; sy_holder := holder_after i (v_held w) s;
                     sy_tasks := <[i := (k r, v_mine w)]> (sy_tasks s) |}
| step_return i a mine :
    sy_tasks s !! i = Some (Ret a, mine) →
    system_step s {| sy_db := sy_db s; sy_vault := sy_vault s; sy_holder := holder_after i false s;
                     sy_tasks := <[i := (Ret a, λ _, False)]> (sy_tasks s) |}
| step_other c :
    writes_pointers c = false →
    system_step s {| sy_db := (run c (sy_db s)).2; sy_vault := sy_vault s; sy_holder := sy_holder s;
                     sy_tasks := sy_tasks s |}.

Definition idle_system (db : StoreDb) (vault : gmap Uuid string) : CredentialSystem :=
  {| sy_db := db; sy_vault := vault; sy_holder := None; sy_tasks := [] |}.

(** ** The invariant *)

Record system_ok (s : CredentialSystem) : Prop := {
  sok_credentials : credentials_ok (sy_db s) (sy_vault s);
  sok_tasks i p mine : sy_tasks s !! i = Some (p, mine) →
    custody (task_view i mine s) ∧ safely p (task_view i mine s) (λ _ _, True);
  sok_disjoint i j p q mine other id : i ≠ j → sy_tasks s !! i = Some (p, mine) →
    sy_tasks s !! j = Some (q, other) → mine id → ¬ other id;
}.

Lemma respond_held op w r w' : respond op w r w' →
  v_held w' = v_held w ∨ v_held w' = false ∨ op = HostCall.Manager GateWrite.
Proof.
  destruct op as [c|params|c|id s|id|a p s|u| |u| |dc|u|u w0|u w0 p|u w0 id]; cbn [respond];
    try (by intros ->; left).
  - intros [_ [[_ ->]|[_ ->]]]; by left.
  - destruct c; try (by intros ->; left); try (by intros ->; right; left); [|by right; right|].
    + destruct c; try (by intros ->; left). intros [_ ->]. by left.
    + intros [_ ->]. by left.
  - intros [[_ ->]|[_ [->| ->]]]; by left.
  - intros [[_ ->]|[_ [->| ->]]]; by left.
Qed.

Lemma respond_mine op w r w' : custody w → respond op w r w' →
  ∀ id, v_mine w' id → ¬ refers (v_tables w') id.
Proof.
  intros [_ Hm].
  destruct op as [c|params|c|id s|id|a p s|u| |u| |dc|u|u w0|u w0 p|u w0 id]; cbn [respond];
    try (by intros ->; apply Hm).
  - intros [_ [[_ ->]|[_ ->]]] id; cbn; by intros [_ ?].
  - destruct c; try (by intros ->; apply Hm).
    + destruct c; try (by intros ->; apply Hm). intros [[Hn _] ->] id; cbn. intros [Hi| ->]; [by apply Hm|done].
    + intros [_ ->]. apply Hm.
  - intros [[_ ->]|[_ [->| ->]]]; apply Hm.
  - intros [[_ ->]|[_ [->| ->]]]; apply Hm.
Qed.

Lemma holder_own i held s : bool_decide (holder_after i held s = Some i) = held.
Proof.
  unfold holder_after. destruct held; [by apply bool_decide_eq_true|].
  apply bool_decide_eq_false. case_bool_decide; congruence.
Qed.

(** What one task does, the others see as [rely]. *)
Lemma guarantee_rely s i j mine other w :
  i ≠ j → custody (task_view i mine s) → custody (task_view j other s) →
  (∀ id, mine id → ¬ other id) → guarantee (task_view i mine s) w →
  (v_held w = true → sy_holder s = Some i ∨ sy_holder s = None) →
  rely (task_view j other s)
    {| v_db := v_db w; v_vault := v_vault w;
       v_held := bool_decide (holder_after i (v_held w) s = Some j); v_mine := other |}.
Proof.
  intros Hij Hi Hj Hd [G1 G2 G3 G4] Hh. split; cbn.
  - done.
  - unfold holder_after. apply bool_decide_ext. destruct (v_held w).
    + destruct (Hh eq_refl) as [->| ->]; split; congruence.
    + case_bool_decide as E; [rewrite E|done]. split; [done|congruence].
  - done.
  - intros E%bool_decide_eq_true. apply G2. cbn. rewrite E. apply bool_decide_eq_false. congruence.
  - intros id Ho. split.
    + intros [Hr|Hm]%G3; [by apply (proj2 Hj id)|by eapply Hd].
    + destruct (decide (v_vault w !! id = sy_vault s !! id)) as [|Hne]; [done|].
      by destruct (Hd id (G4 id Hne)).
Qed.
End system.

Section invariant.
Context {P : Platform} {Q : Sqlite} {C : ChronoSerde} {D : StrDebug} {PL : PlatformLaws P}
  {L : SqliteLaws P Q}.

Lemma job_safely j w : custody w → safely (job_body j) w (λ _ _, True).
Proof.
  intros Hc. destruct j; apply safely_bind; (eapply safely_mono; [|first
    [by apply upsert_custody|by apply set_schema_group_custody|by apply delete_custody
    |by apply bind_custody|by apply sync_connections_custody|by apply tame_auth_state
    |by apply tame_refresh_auth_state|by apply tame_refresh_memberships|by apply tame_poll_login
    |by apply tame_select_workspace|by apply tame_select_account|by apply tame_sign_out
    |by apply tame_sign_out_all|by apply tame_update_safety]]); done.
Qed.

(** A task with nothing in its custody. *)
Lemma no_custody s i : credentials_ok (sy_db s) (sy_vault s) → custody (task_view i (λ _, False) s).
Proof. intros Hok. split; [exact Hok|]. by intros id []. Qed.

(** A task that another's step only changes within [rely]. *)
Lemma task_rely s s' j (q : host_program unit) other :
  rely (task_view j other s) (task_view j other s') → custody (task_view j other s) ∧
    safely q (task_view j other s) (λ _ _, True) →
  custody (task_view j other s') ∧ safely q (task_view j other s') (λ _ _, True).
Proof. intros Hr [_ Hs]. split; [by eapply rely_custody|by eapply safely_rely]. Qed.

Lemma step_ok s s' : system_ok s → system_step s s' → system_ok s'.
Proof.
  intros [Hok Htasks Hdis] [j|i op k mine r w Hi Hgate Hr Hdraw|i a mine Hi|c Hc].
  - split; cbn; [done| |].
    + intros i p mine [Hi|[Hi E]]%lookup_app_Some; [exact (Htasks _ _ _ Hi)|].
      destruct (i - length (sy_tasks s))%nat as [|n]; [|done]. injection E as <- <-.
      split; [by apply no_custody|by apply job_safely, no_custody].
    + intros i1 i2 p q mine other id Hne [H1|[_ H1]]%lookup_app_Some [H2|[_ H2]]%lookup_app_Some.
      * by eapply Hdis.
      * destruct (i2 - _)%nat as [|n]; [|done]. injection H2 as <- <-. by intros _ [].
      * destruct (i1 - _)%nat as [|n]; [|done]. injection H1 as <- <-. by intros [].
      * destruct (i1 - _)%nat as [|n]; [|done]. injection H1 as <- <-. by intros [].
  - destruct (Htasks _ _ _ Hi) as [Hcu Hsafe].
    destruct (Hsafe _ (rely_refl _ Hcu) r w Hr) as [Hg Hnext].
    pose proof (respond_mine _ _ _ _ Hcu Hr) as Hmine.
    assert (custody w) as Hcw by (split; [apply Hg|done]).
    assert (v_held w = true → sy_holder s = Some i ∨ sy_holder s = None) as Hheld.
    { intros Hh. destruct (respond_held _ _ _ _ Hr) as [E|[E| ->]]; [|congruence|by right].
      rewrite Hh in E. left. by apply (bool_decide_eq_true (sy_holder s = Some i)). }
    split; cbn; [apply Hg| |].
    + intros j q other [(<- & [= <- <-] & _)|[Hne Hj]]%list_lookup_insert_Some.
      * destruct w as [db vault held mine']. unfold task_view. cbn in *.
        rewrite holder_own. split; [exact Hcw|exact Hnext].
      * eapply task_rely; [|exact (Htasks _ _ _ Hj)].
        eapply (guarantee_rely s i j mine other w); [done|done|apply (Htasks _ _ _ Hj)| |done|done].
        intros id. by apply (Hdis i j _ _ _ _ id Hne Hi Hj).
    + assert (∀ j q other id, i ≠ j → sy_tasks s !! j = Some (q, other) → v_mine w id → ¬ other id) as Hnew.
      { intros j q other id Hne Hj Hm Ho. destruct (Htasks _ _ _ Hj) as [[_ Hoth] _].
        assert (¬ mine id) as Hn by (intros Hmi; by eapply (Hdis i j)).
        eapply (Hdraw id Hm Hn); [by apply Hoth| |exact Hj|exact Ho]. done. }
      intros i1 i2 p q mine1 other id Hne.
      intros [(<- & [= <- <-] & _)|[Hn1 H1]]%list_lookup_insert_Some [(<- & [= <- <-] & _)|[Hn2 H2]]%list_lookup_insert_Some.
      * done.
      * by eapply Hnew.
      * intros Hm Ho. by eapply Hnew.
      * exact (Hdis i1 i2 p q mine1 other id Hne H1 H2).
  - destruct (Htasks _ _ _ Hi) as [Hcu _].
    split; cbn; [done| |].
    + intros j q other [(<- & [= <- <-] & _)|[Hne Hj]]%list_lookup_insert_Some.
      * split; [by split|done].
      * eapply task_rely; [|exact (Htasks _ _ _ Hj)].
        eapply (guarantee_rely s i j (λ _, False) other (with_held false (task_view i (λ _, False) s)));
          [done|by apply no_custody|apply (Htasks _ _ _ Hj)|done| |done].
        split; [done|done|by left|done].
    + intros i1 i2 p q mine1 other id Hne.
      intros [(<- & [= <- <-] & _)|[Hn1 H1]]%list_lookup_insert_Some [(<- & [= <- <-] & _)|[Hn2 H2]]%list_lookup_insert_Some;
        [done|by intros []|by intros _ []|exact (Hdis i1 i2 p q mine1 other id Hne H1 H2)].
  - assert (same_tables (db_connections (sy_db s)) (db_connections (run c (sy_db s)).2)) as Hs
      by (by apply run_pointers).
    assert (credentials_ok (run c (sy_db s)).2 (sy_vault s)) as Hok'.
    { destruct (with_db_quiet c (task_view 0 (λ _, False) s) (run c (sy_db s)).2) as [Hg _];
        [by left|done|by apply no_custody|apply Hg]. }
    split; cbn; [done| |done]. intros j q other Hj. eapply task_rely; [|exact (Htasks _ _ _ Hj)].
    destruct (Htasks _ _ _ Hj) as [[_ Hm] _].
    split; [done..|]. intros id Ho. split; [|done]. unfold v_tables. cbn.
    rewrite (same_tables_refers _ _ _ Hs). by apply Hm.
Qed.

(** C14. No stored credential dangles: start from a store whose pointers all name
    items of the vault, each its own, and let any number of saves, groupings,
    deletions, member bindings, template syncs, membership refreshes, sign-ins and
    sign-outs, selections of a workspace or an account and changes of safety settings
    run at once, interleaved call by call with each other and with every statement of
    the application that writes neither profiles nor bindings, while statements, the
    vault and the control plane fail as they like.  At every moment the pointer of
    each live local profile, of each binding and of each shared template that still
    holds one from an older release names an item the vault holds, and no two
    pointers name the same one, also while a refresh moves templates' pointers into
    the account's bindings; so no method ever deletes an item that is still in use,
    nor commits a pointer to one it failed to write.  The control plane is taken to
    give no template the identifier of a deleted local profile.  The copy of a
    connection into a workspace, which binds the new credential and on a failure
    purges the new template without holding the gate, is not one of the methods, nor
    are its two statements among those in between.  ([connection_service.rs],
    [upsert], [set_schema_group], [delete]; [workspace_service.rs], all but
    [copy_connection]; [safety_service.rs], [update].) *)
Theorem stored_credentials_resolve db vault s :
  credentials_ok db vault → rtc system_step (idle_system db vault) s →
  (∀ o id, points (db_connections (sy_db s)) o = Some id → is_Some (sy_vault s !! id))
  ∧ ∀ o o' id, points (db_connections (sy_db s)) o = Some id →
      points (db_connections (sy_db s)) o' = Some id → o = o'.
Proof.
  intros H0 Hs. assert (system_ok s) as [Hok _ _].
  { revert s Hs. apply (rtc_ind_r system_ok); [by split|]. intros s s' _ Hst IH. by eapply step_ok. }
  split; apply Hok.
Qed.
End invariant.

(** ** Witness *)

Module CredentialSample.
Import StoreSample.

(** The profile's password is item 4 of the vault; it gets a new one. *)
Definition saved : StoreDb := after [Upsert profile [("k", "v")] 3 (event 20)] fresh.
Definition items : gmap Uuid string := {[uid 4 := "old"]}.
Definition rotation : job := UpsertConnection profile (Some "new").

(** A save starts by asking for the gate. *)
Lemma save_asks_gate p password :
  is_local (cp_workspace_access p) = true →
  is_ok (Driver.validate (with_schema_group p (normalize_schema_group (cp_schema_group p)))) = true →
  ∃ k, job_body (UpsertConnection p password) = Vis (HostCall.Manager GateWrite) k.
Proof.
  intros Hl Hd. cbn [job_body]. unfold ignoring, ConnectionService.upsert. rewrite Hl. cbn [negb].
  destruct (Driver.validate _); [|done]. cbn [try_pure]. by eexists.
Qed.

Lemma saved_upserted : ∃ p, StoreConnections.upsert_connection profile [("k", "v")] 3 (event 20) fresh = Ok (p, saved).
Proof.
  assert (is_ok (StoreConnections.upsert_connection profile [("k", "v")] 3 (event 20) fresh) = true) as Hok
    by (vm_compute; reflexivity).
  destruct (StoreConnections.upsert_connection profile [("k", "v")] 3 (event 20) fresh) as [[p db']|error] eqn:Hu;
    [|done].
  exists p. unfold saved. change (after [?c] fresh) with (run c fresh).2. cbn [run]. unfold commit. by rewrite Hu.
Qed.

Lemma saved_points o id :
  points (db_connections saved) o = Some id ↔ o = profile_key profile ∧ id = uid 4.
Proof.
  destruct saved_upserted as [p Hu]. assert (store_reachable fresh) as Hf by (apply (after_reachable [])).
  destruct (upsert_points _ _ _ _ _ _ _ Hf Hu) as (_ & Hkey & Hother & _).
  assert ((s ← cp_secret_ref profile; uuid_parse s) = Some (uid 4)) as Hs by (vm_compute; reflexivity).
  rewrite Hs in Hkey. split.
  - intros Ho. destruct (decide (o = profile_key profile)) as [->|Hne].
    + rewrite Hkey in Ho. split; [reflexivity|congruence].
    + rewrite (Hother o Hne) in Ho. destruct o; cbn in Ho; by rewrite lookup_empty in Ho.
  - by intros [-> ->].
Qed.

Lemma saved_ok : credentials_ok saved items.
Proof.
  destruct saved_upserted as [p Hu]. assert (store_reachable fresh) as Hf by (apply (after_reachable [])).
  destruct (upsert_points _ _ _ _ _ _ _ Hf Hu) as (_ & _ & _ & Hsh).
  split.
  - apply after_reachable.
  - apply Hsh. by split; intros key c Hc; cbn in Hc; rewrite lookup_empty in Hc.
  - intros o id [_ ->]%saved_points. exists "old". apply lookup_singleton_eq.
  - by intros o o' id [-> _]%saved_points [-> _]%saved_points.
Qed.
End CredentialSample.

Lemma stored_credentials_resolve_witness :
  let i := profile_key StoreSample.profile in
  ∃ s : CredentialSystem, rtc system_step (idle_system CredentialSample.saved CredentialSample.items) s
    ∧ length (sy_tasks s) = 1%nat ∧ sy_holder s = Some 0%nat
    ∧ points (db_connections (sy_db s)) i = Some (StoreSample.uid 4)
    ∧ is_Some (sy_vault s !! StoreSample.uid 4).
Proof.
  pose proof CredentialSample.saved_ok as H0.
  pose proof (proj2 (CredentialSample.saved_points (profile_key StoreSample.profile) (StoreSample.uid 4)) (conj eq_refl eq_refl)) as Hp.
  revert H0 Hp. generalize CredentialSample.saved as db, CredentialSample.items as vault. intros db vault H0 Hp.
  assert (∃ k, job_body CredentialSample.rotation = Vis (HostCall.Manager GateWrite) k) as [k Hk]
    by (apply CredentialSample.save_asks_gate; vm_compute; reflexivity).
  pose (start := Vis (HostCall.Manager GateWrite) k : host_program unit).
  pose (spawned := {| sy_db := db; sy_vault := vault; sy_holder := None; sy_tasks := [(start, λ _, False)] |}).
  pose (s := {| sy_db := db; sy_vault := vault; sy_holder := Some 0%nat; sy_tasks := [(k tt, λ _, False)] |}).
  assert (rtc system_step (idle_system db vault) s) as Hs.
  { eapply rtc_l; [apply (step_spawn _ CredentialSample.rotation)|]. rewrite Hk. apply rtc_once.
    assert (system_step spawned s) as Hstep; [|exact Hstep].
    apply (step_call spawned 0%nat (HostCall.Manager GateWrite) k (λ _, False) tt
             (with_held true (task_view 0 (λ _, False) spawned))); [done|done|done|]. by intros id []. }
  exists s. split_and!; [exact Hs|done|done|exact Hp|].
  apply (proj1 (stored_credentials_resolve db vault s H0 Hs)) with (1 := Hp).
Defined.
